(* ===== verification/_CoqProject ===== *)
-Q . S2P
Prelude.v
Types.v
QuickCache.v
Backend.v
Layers.v
LayersFacts.v
CommitFacts.v
StateTree.v
TreeSpec.v
TreeFacts.v
TreeUpdate.v
TreeReads.v
TreeTheorems.v
TreeArchive.v
KvStore.v
MemKv.v
ArchiveEncoding.v
StateCache.v
BlockIndex.v
BlockIndexFacts.v
BlockIndexStore.v
BlockIndexRun.v
BlockIndexTheorems.v
Archive.v
ArchiveReads.v
ArchiveSlots.v
ArchiveWrite.v
ArchiveCommit.v
Wrapper.v
WrapperFacts.v
ArchiveBackend.v
ArchiveUpdate.v
ArchiveStore.v
ArchiveRun.v
ArchiveDisk.v
ArchiveExample.v
ArchiveTheorems.v
ArchiveTree.v
ArchiveOpen.v
Migrate.v
MigrateFacts.v
MoveInfos.v
Rewind.v
RewindFacts.v
RewindTheorems.v
Migrated.v
ReencodeTheorems.v
ConvertTheorems.v
MigrateTheorems.v
TempoEvm.v
TempoBytes.v
Tip403.v
Keychain.v
Tip20.v
DexTypes.v
DexBook.v
DexCredits.v
Dex.v
DexStore.v
DexOrders.v
DexHolds.v
DexPrice.v
Tip20Facts.v
Tip20Ledger.v
DexInv.v
DexCommit.v
DexCancel.v
DexPlace.v
DexFill.v
DexSwap.v
DexRoute.v
DexOps.v
DexCall.v
Tip20Call.v
Tip20Sound.v
DexHistory.v
DexExample.v
DexTheorems.v
Tip20Dex.v
Tip20Theorems.v
