(* ===== verification/Prelude.v ===== *)
(** * leafage-evm: verification of the storage stack and of Tempo's exchange

    leafage-evm serves an EVM node's state to RPC clients. Its storage stack
    (crates/leafage-evm-storage) has three levels. The state tree
    (src/state_tree) keeps the newest blocks in memory as diff layers, one per
    block, over a write-through cache, and commits the oldest layer once the
    chain is deeper than a limit. The wrapper (src/db.rs) turns a backend into
    the database of the tree, with a cache of analysed bytecode. The archive
    (src/db_impl/rocksdb_impl/archive) keeps every version of every account and
    slot in RocksDB, under keys that end in the block number or with RocksDB's
    own timestamps, with a state cache, a block index and handles that read at
    one block. This development models the three levels and how they compose.

    For the Tempo chain the node runs the chain's system contracts itself
    (crates/leafage-evm-chains/src/tempo/precompile). The development models the
    storage they see, the storage credits their writes earn and spend, and the
    stablecoin exchange, an on-chain order book.

    ** Files

    - [Prelude], [Types]: results ([Res]: value, error or panic), the loop
      combinator, machine integers, byte strings; the diff and account types of
      crates/leafage-evm-types/src/storage.rs, and the abstract state [AState]
      with [apply_block] (what a block means), [overlay_block] (what layering
      it answers) and [persists] (what an archive keeps of it).
    - [QuickCache]: the concurrent cache library as a class, its laws, an
      instance; the [refill] of layer.rs.
    - [Backend]: what the tree asks of a database ([StateDBProvider],
      [BackendOk]); an instance in memory.
    - [Layers], [LayersFacts], [CommitFacts]: state_tree/layer.rs. Layers are
      records, the [next] pointers between them cells of a store ([t_cells]) so
      that relinking a layer shows in every view that shares it.
    - [StateTree], [TreeSpec], [TreeFacts], [TreeUpdate], [TreeReads],
      [TreeTheorems]: state_tree/tree.rs. [TreeSpec] is the abstract tree of
      blocks and states; [tree_inv] relates a tree to it.
    - [TreeArchive]: the tree over a database that remembers ([ArchivalOk]).
    - [KvStore], [MemKv]: RocksDB as a class with its documented behaviour
      (point reads, seeks with and without a prefix extractor, timestamped
      reads, atomic batches) and an instance in memory.
    - [ArchiveEncoding]: db_impl/archive_encoding.rs, keys and values.
    - [StateCache]: archive/state_cache.rs, spans of blocks on which a value is
      known.
    - [BlockIndex], [BlockIndexFacts], [BlockIndexStore], [BlockIndexRun],
      [BlockIndexTheorems]: archive/block_index.rs, the index from block hashes
      to candidate numbers, its merges, its file and its recovery.
    - [Archive], [ArchiveReads], [ArchiveSlots]: the reads of archive/mod.rs and
      archive/udt.rs; [ArchiveWrite], [ArchiveCommit], [ArchiveNode],
      [ArchiveUpdate]: its write batches and what a commit does.
    - [Wrapper], [WrapperFacts], [WrapperRun]: db.rs. [StoreOk] is what a backend
      promises the wrapper, [RefillOk] that reads leave only caches behind.
    - [ArchiveBackend], [ArchiveStore], [ArchiveRun]: the archive under the
      wrapper; [ArchiveExample] a concrete one; [ArchiveTheorems] its
      properties; [ArchiveTree] the whole stack.
    - [KvAdmin]: what opening, ingesting files, dropping columns and trimming
      does to RocksDB, as a class with an instance. [ArchiveDisk], [ArchiveOpen],
      [MoveInfos]: an archive directory ([Disk]), opening and closing it, the
      move of the block infos into the index.
    - [Rewind], [RewindFacts], [RewindTheorems]: db_impl/rewind.rs and
      archive/rewind.rs, the offline rewind to an older block.
    - [Migrate], [MigrateFacts], [Migrated], [ReencodeTheorems],
      [ConvertTheorems], [MigrateTheorems]: sst.rs and the offline conversions of archive/mod.rs (v1 to v2) and
      archive/udt.rs (v2 to v3). [Migrated] relates a database to one with the
      same versions in another encoding.
    - [TempoEvm]: tempo/hardfork.rs and precompile/error.rs, storage.rs,
      storage_credits.rs, storage_types.rs: forks, errors, words, transient
      words, events, credits, packed fields, mappings, vectors, in the monad [M].
    - [DexTypes], [DexBook], [Dex], [DexCall]: precompile/stablecoin_dex.rs, the
      exchange: prices and orders, layouts and bitmaps, its operations, its calls.
    - [DexWords], [DexCredits], [DexStore], [DexOrders]: the words of the exchange
      as a typed [Store] ([words]), and what each access does to it ([trip],
      [acts]), storage credits, bitmaps and order layouts included.
    - [DexHolds], [DexPrice], [DexInv], [DexCommit], [DexCancel]: runs ([does],
      [ends]), sums and rounding, the invariant [inv] of the book with its queues,
      what is owed ([liabilities]), and how joining and leaving a queue keeps it.
    - [DexPlace]: what the exchange relies on of TIP-20 tokens ([TIP20Ok]) and of
      the keys of its books ([BookKeys]); placing. [DexFill], [DexSwap],
      [DexRoute], [DexOps]: filling, the orders of a side in price-time priority
      ([line_orders]) and matching against them ([match_line], [match_route]),
      routes, cancelling, quotes.
    - [DexHistory], [DexExample], [DexTheorems]: fuel does not matter to a run that
      ends; calls; histories ([reach]) of calls, other transactions and forks;
      tokens as plain ledgers and a small market on them; the properties.

    ** What the theorems show

    - The tree: importing a block refines adding it to the abstract tree, every
      handle reads its block's state whatever the shared cache holds, a chain
      imports completely, the depth is bounded, a failed import publishes
      nothing. Four theorems show on concrete inputs where the code departs
      from that reading (a fork at the committed block, storage of deleted
      accounts in layers, lookups by number after a side import, a late
      refill).
    - The block index: whatever the sequence of notes, merges, saves and
      restarts, every block of the block info column is among the candidates of
      its hash; the file reads back.
    - The archive: reads find the newest version at or below their block in all
      three schemas, batched reads are the scalar ones, the state cache never
      shows, listing storage terminates with exactly the non-zero slots; a
      commit applies the diff; over any interleaving of opens, reads and
      commits a handle is a snapshot and every committed block can be opened; a
      handle that timed out answers with that error only.
    - The stack: a node on the archive serves every block of an imported chain.
    - Maintenance: a rewind goes back to a block and keeps everything up to it;
      each conversion succeeds and the node that opens the result has the same
      blocks and states.
    - The exchange: over any history it is well-formed and holds what it owes; a
      maker can always cancel and gets the escrow back; swaps match along their
      route in price-time priority within the caller's limit, and quotes from T12
      on say the same; placed orders are last in their queue; every call ends;
      stored orders are well-typed and survive changes of layout; the bitmap
      search finds the nearest price; rounding is covered; refused calls and
      views leave no trace.

    ** Conventions

    A state-changing function takes the state and returns the result with the
    new state. Integers are [Z] with their range stated ([is_u32], [is_u64],
    [is_u256]). Locks become atomic steps: an operation under a lock is one
    step of the relations [tree_step], [index_step], [node_step]. Third-party
    code is a class, its documented behaviour a second class of laws, and an
    instance in memory shows that the laws can be met.

    ** Bounds and fuel

    [loop_pow n] runs a loop at most [2 ^ n] times without building the number.
    [storage_slots] uses [n = 257]: each turn moves past a slot, of which there
    are [2 ^ 256]. [build] and [cap_diff_to_db] follow the [next] cells with the
    number of cells as fuel, enough because a chain visits each cell once. The
    theorems on them state the result, not only its correctness if it comes.
    Block numbers of an archive are below [2 ^ 32] ([blocks_ok]), as the block
    index stores them; [version_keys_sorted] holds for all 64-bit numbers.
    The loops of the exchange over orders and quote tokens take fuel and panic
    without it; as many units as there are stored orders are enough, and a run
    that does not panic is the same with more ([refines]). The searches of the
    bitmap take the number of its words.

    ** Not modelled

    Failing RocksDB calls are values of [Res], and the reads pass them on, but
    the laws of [RocksDBOk] and [RocksDBAdminOk] are about calls that succeed.
    The snapshot and the MDBX backends, the migration between backends, the
    check of a converted archive, the adapter to revm, the RPC server, the
    chains' execution, op-revm and the block sources are not modelled: they are
    other backends of the same traits, input and output, or code over revm.
    Of Tempo, gas is not modelled, nor are the tokens behind the class [TIP20] and
    the other precompiles. Slots that the code takes from Keccak hashes are a free
    algebra ([Slot]), so that distinct keys have distinct slots; the keys of books
    are hashes and their collisions are excluded by [BookKeys]. The theorems on
    histories start at fork T5, from which a filled flip order turns in place;
    before it the flip is a new order, modelled but not covered by them. *)

From stdpp Require Import prelude gmap list sorting.
From Stdlib Require Import ZArith Lia.

#[local] Open Scope Z_scope.

(** ** Results

    [Res E A] is what a Rust function returning [Result<A, E>] can do: return
    [Ok], return [Err], or panic ([unwrap] on [None], a failed assertion, an
    index out of range). *)

Inductive Res (E A : Type) : Type :=
| Ok (a : A)
| Err (e : E)
| Panic.

Arguments Ok {E A} a.
Arguments Err {E A} e.
Arguments Panic {E A}.

#[export] Instance res_ret E : MRet (Res E) := fun _ a => Ok a.
#[export] Instance res_bind E : MBind (Res E) := fun _ _ f m =>
  match m with
  | Ok a => f a
  | Err e => Err e
  | Panic => Panic
  end.

#[export] Instance res_fmap E : FMap (Res E) := fun _ _ f m =>
  match m with
  | Ok a => Ok (f a)
  | Err e => Err e
  | Panic => Panic
  end.

(** A computation over a shared mutable state keeps the state it reached even
    when it fails: there is no rollback in Rust. *)
Definition sbind {S E A B : Type}
    (m : Res E A * S) (k : A -> S -> Res E B * S) : Res E B * S :=
  match m with
  | (Ok a, s) => k a s
  | (Err e, s) => (Err e, s)
  | (Panic, s) => (Panic, s)
  end.

Declare Scope state_scope.
Delimit Scope state_scope with state.

Notation "'let!' ( x , s ) := m 'in' k" := (sbind m (fun x s => k))
  (at level 10, x name, s name, m at level 100, k at level 200) : state_scope.

Definition is_ok {E A} (r : Res E A) : bool :=
  match r with Ok _ => true | _ => false end.

Lemma res_bind_Ok {E A B} (m : Res E A) (f : A -> Res E B) b :
  m ≫= f = Ok b <-> exists a, m = Ok a /\ f a = Ok b.
Proof.
  destruct m; cbn; split; [eauto | intros (? & [= ->] & ?) | | intros (? & ? & ?) | |
    intros (? & ? & ?)]; done.
Qed.

Lemma res_bind_ok {E A B} (a : A) (f : A -> Res E B) : Ok a ≫= f = f a.
Proof. done. Qed.

(** A loop whose steps all succeed collects their results. *)
Lemma res_mapM_ok {E A B} (f : A -> Res E B) (g : A -> B) l :
  (forall x, x ∈ l -> f x = Ok (g x)) -> mapM f l = Ok (map g l).
Proof.
  intros Hl. induction l as [|x l IH]; [done|]. cbn. rewrite (Hl x) by left. cbn.
  rewrite IH; [done|]. intros y Hy. apply Hl. by right.
Qed.

(** ** Bounded loops

    [loop_pow n step s] runs [step] at most [2 ^ n] times and stops as soon as
    it gives a result: enough for a loop that lowers a measure below [2 ^ n]. *)
Fixpoint loop_pow {S R : Type} (n : nat) (step : S -> S + R) (s : S) : S + R :=
  match n with
  | O => step s
  | Datatypes.S m =>
      match loop_pow m step s with
      | inl s' => loop_pow m step s'
      | inr r => inr r
      end
  end.

Lemma loop_pow_run {S R} (step : S -> S + R) (I : S -> Prop) (Q : R -> Prop) (mu : S -> Z) n :
  (forall s, I s -> match step s with inl s' => I s' /\ 0 <= mu s' < mu s | inr r => Q r end) ->
  forall s, I s -> 0 <= mu s ->
  match loop_pow n step s with
  | inl s' => I s' /\ 0 <= mu s' <= mu s - 2 ^ Z.of_nat n
  | inr r => Q r
  end.
Proof.
  intros Hstep. induction n as [|n IH]; intros s Hs Hmu.
  - cbn [loop_pow]. specialize (Hstep s Hs). destruct (step s); [|done]. change (2 ^ Z.of_nat 0) with 1. split; [tauto|lia].
  - cbn [loop_pow]. specialize (IH s Hs Hmu) as IH1. destruct (loop_pow n step s) as [s'|r]; [|done].
    destruct IH1 as [Hs' Hle]. specialize (IH s' Hs' ltac:(lia)). destruct (loop_pow n step s') as [s''|r]; [|done].
    rewrite Nat2Z.inj_succ, Z.pow_succ_r by lia. split; [tauto|lia].
Qed.

(** A loop that lowers its measure reaches its result. *)
Lemma loop_pow_ok {S R} (step : S -> S + R) (I : S -> Prop) (Q : R -> Prop) (mu : S -> Z) n s :
  (forall s, I s -> match step s with inl s' => I s' /\ 0 <= mu s' < mu s | inr r => Q r end) ->
  I s -> 0 <= mu s < 2 ^ Z.of_nat n -> exists r, loop_pow n step s = inr r /\ Q r.
Proof.
  intros Hstep Hs Hmu. pose proof (loop_pow_run step I Q mu n Hstep s Hs ltac:(lia)) as Hr.
  destruct (loop_pow n step s) as [s'|r]; [lia|eauto].
Qed.

(** ** Machine integers *)

Definition u8_max : Z := 255.
Definition u32_max : Z := 4294967295.
Definition u64_max : Z := 18446744073709551615.
Definition u256_max : Z := 2 ^ 256 - 1.

Definition is_u8 (x : Z) : Prop := 0 <= x <= u8_max.
Definition is_u32 (x : Z) : Prop := 0 <= x <= u32_max.
Definition is_u64 (x : Z) : Prop := 0 <= x <= u64_max.
Definition is_u256 (x : Z) : Prop := 0 <= x <= u256_max.

Definition saturating_sub (a b : Z) : Z := Z.max 0 (a - b).

(** [checked_add] on a [w]-valued integer type with largest value [top]. *)
Definition checked_add (top a b : Z) : option Z :=
  if decide (a + b <= top) then Some (a + b) else None.

Create HintDb ints.
Create HintDb bytes.

#[export] Hint Unfold is_u8 is_u32 is_u64 is_u256 u8_max u32_max u64_max : ints.

(** ** Bytes *)

(** A byte is a [Z] between 0 and 255; byte strings are lists, most
    significant byte first where they encode a number. *)
Abbreviation bytes := (list Z).

(** [z.to_be_bytes()] of an [8 * n]-bit integer. *)
Fixpoint be_bytes (n : nat) (z : Z) : bytes :=
  match n with
  | O => []
  | S m => (z / 256 ^ Z.of_nat m) mod 256 :: be_bytes m z
  end.

(** [from_be_bytes] / [from_be_slice]. *)
Definition from_be (bs : bytes) : Z := fold_left (fun acc b => acc * 256 + b) bs 0.

(** Lexicographic order on byte strings: the order of [<[u8]>::cmp] and of a
    RocksDB column family with the default comparator. *)
Fixpoint bytes_cmp (a b : bytes) : comparison :=
  match a, b with
  | [], [] => Eq
  | [], _ :: _ => Lt
  | _ :: _, [] => Gt
  | x :: a', y :: b' =>
      match x ?= y with
      | Eq => bytes_cmp a' b'
      | c => c
      end
  end.

Definition bytes_le (a b : bytes) : Prop := bytes_cmp a b <> Gt.
Definition bytes_lt (a b : bytes) : Prop := bytes_cmp a b = Lt.

Declare Scope bytes_scope.
Delimit Scope bytes_scope with bytes.
Notation "a ≤ b" := (bytes_le a b) : bytes_scope.
Notation "a < b" := (bytes_lt a b) : bytes_scope.

#[export] Instance bytes_le_dec a b : Decision (bytes_le a b).
Proof. unfold bytes_le. destruct (bytes_cmp a b); [left | left | right]; congruence. Defined.

#[export] Instance bytes_lt_dec a b : Decision (bytes_lt a b).
Proof. unfold bytes_lt. destruct (bytes_cmp a b); [right | left | right]; congruence. Defined.

(** *** The lexicographic order is a total order *)

Lemma bytes_cmp_refl a : bytes_cmp a a = Eq.
Proof. induction a as [|x a IH]; cbn; [done | by rewrite Z.compare_refl]. Qed.

Lemma bytes_cmp_eq a b : bytes_cmp a b = Eq -> a = b.
Proof.
  revert b. induction a as [|x a IH]; intros [|y b]; cbn; try done.
  destruct (Z.compare_spec x y); try done. intros ?%IH. by subst.
Qed.

Lemma bytes_cmp_antisym a b : bytes_cmp b a = CompOpp (bytes_cmp a b).
Proof.
  revert b. induction a as [|x a IH]; intros [|y b]; cbn; try done.
  rewrite Z.compare_antisym. by destruct (x ?= y); cbn.
Qed.

Lemma bytes_cmp_lt_trans a b c :
  bytes_cmp a b = Lt -> bytes_cmp b c = Lt -> bytes_cmp a c = Lt.
Proof.
  revert b c. induction a as [|x a IH]; intros [|y b] [|z c]; cbn; try done.
  destruct (Z.compare_spec x y), (Z.compare_spec y z); try done; subst;
    rewrite ?Z.compare_refl; eauto; intros _ _;
    repeat match goal with
    | |- context [?u ?= ?v] => destruct (Z.compare_spec u v); try lia
    end; done.
Qed.

Lemma bytes_le_refl a : bytes_le a a.
Proof. unfold bytes_le. by rewrite bytes_cmp_refl. Qed.

Lemma bytes_le_lt_eq a b : bytes_le a b <-> bytes_lt a b \/ a = b.
Proof.
  unfold bytes_le, bytes_lt. split.
  - destruct (bytes_cmp a b) eqn:E; try done; [right; by apply bytes_cmp_eq | by left].
  - intros [-> | ->]; [done | by rewrite bytes_cmp_refl].
Qed.

Lemma bytes_lt_trans a b c : bytes_lt a b -> bytes_lt b c -> bytes_lt a c.
Proof. apply bytes_cmp_lt_trans. Qed.

Lemma bytes_le_trans a b c : bytes_le a b -> bytes_le b c -> bytes_le a c.
Proof.
  rewrite !bytes_le_lt_eq. intros [?| ->] [?| ->]; eauto using bytes_lt_trans.
Qed.

Lemma bytes_le_antisym a b : bytes_le a b -> bytes_le b a -> a = b.
Proof.
  unfold bytes_le. rewrite (bytes_cmp_antisym a b).
  destruct (bytes_cmp a b) eqn:E; cbn; try done. intros. by apply bytes_cmp_eq.
Qed.

Lemma bytes_lt_not_le a b : bytes_lt a b <-> ¬ bytes_le b a.
Proof.
  unfold bytes_le, bytes_lt. rewrite (bytes_cmp_antisym a b).
  destruct (bytes_cmp a b); cbn; split; try done; intros H; try (by intros []);
    exfalso; apply H; congruence.
Qed.

Lemma bytes_le_total a b : bytes_le a b \/ bytes_le b a.
Proof.
  destruct (decide (bytes_le a b)) as [|H]; [by left|right].
  apply bytes_lt_not_le in H. apply bytes_le_lt_eq. by left.
Qed.

Lemma bytes_lt_irrefl a : ¬ bytes_lt a a.
Proof. unfold bytes_lt. by rewrite bytes_cmp_refl. Qed.

Lemma bytes_lt_le a b : bytes_lt a b -> bytes_le a b.
Proof. rewrite bytes_le_lt_eq. by left. Qed.

Lemma bytes_le_lt_trans a b c : bytes_le a b -> bytes_lt b c -> bytes_lt a c.
Proof. rewrite bytes_le_lt_eq. intros [?| ->]; eauto using bytes_lt_trans. Qed.

Lemma bytes_lt_le_trans a b c : bytes_lt a b -> bytes_le b c -> bytes_lt a c.
Proof. rewrite bytes_le_lt_eq. intros ? [?| <-]; eauto using bytes_lt_trans. Qed.

(** *** Keys with a common prefix *)

Lemma bytes_cmp_app p q a b :
  length p = length q ->
  bytes_cmp (p ++ a) (q ++ b) =
    match bytes_cmp p q with Eq => bytes_cmp a b | c => c end.
Proof.
  revert q. induction p as [|x p IH]; intros [|y q]; cbn; try done.
  intros [= Hlen]. destruct (x ?= y); [by apply IH | done | done].
Qed.

Lemma bytes_cmp_app_same p a b : bytes_cmp (p ++ a) (p ++ b) = bytes_cmp a b.
Proof. rewrite bytes_cmp_app; [|done]. by rewrite bytes_cmp_refl. Qed.

(** A list sorted by an irreflexive relation has no duplicates. *)
Lemma strictly_sorted_NoDup {A} (R : A -> A -> Prop) l :
  (forall x, ~ R x x) -> StronglySorted R l -> NoDup l.
Proof.
  intros Hirr. induction 1 as [|x l Hl IH Hx]; constructor; [|done].
  intros Hin. rewrite Forall_forall in Hx. by apply (Hirr x), Hx.
Qed.

(** A key between two keys of a prefix has that prefix. *)
Lemma take_between n t k k' :
  bytes_le t k -> bytes_le k k' -> take n t = take n k' -> take n k = take n t.
Proof.
  revert t k k'. induction n as [|n IH]; intros t k k' Htk Hkk Heq; [done|].
  unfold bytes_le in *. destruct t as [|x t], k as [|y k], k' as [|z k']; cbn in *; try done.
  injection Heq as -> Heq. destruct (Z.compare_spec z y), (Z.compare_spec y z); try done; try lia.
  subst. f_equal. by eapply IH.
Qed.

(** *** Big-endian encodings *)

Lemma length_be_bytes n z : length (be_bytes n z) = n.
Proof. induction n; cbn; congruence. Qed.

Lemma pow256_pos n : 0 < 256 ^ Z.of_nat n.
Proof. apply Z.pow_pos_nonneg; lia. Qed.

Lemma pow256_S n : 256 ^ Z.of_nat (S n) = 256 * 256 ^ Z.of_nat n.
Proof. rewrite Nat2Z.inj_succ, Z.pow_succ_r; lia. Qed.

Lemma be_bytes_byte n z : Forall is_u8 (be_bytes n z).
Proof.
  induction n; cbn; constructor; [|done].
  unfold is_u8, u8_max. pose proof (Z.mod_pos_bound (z / 256 ^ Z.of_nat n) 256). lia.
Qed.

(** Only the low [8 * n] bits matter. *)
Lemma be_bytes_mod n m z :
  (n <= m)%nat -> be_bytes n (z mod 256 ^ Z.of_nat m) = be_bytes n z.
Proof.
  induction n as [|n IH]; cbn; [done|]. intros Hle. f_equal; [|apply IH; lia].
  pose proof (pow256_pos n).
  replace (Z.of_nat m) with (Z.of_nat (m - S n) + Z.of_nat (S n)) by lia.
  rewrite Z.pow_add_r, pow256_S by lia.
  set (q := 256 ^ Z.of_nat (m - S n)). assert (0 < q) by (apply pow256_pos).
  replace (q * (256 * 256 ^ Z.of_nat n)) with (256 ^ Z.of_nat n * (256 * q)) by lia.
  rewrite Z.rem_mul_r, Z.add_comm, Z.mul_comm, Z.div_add_l by lia.
  rewrite (Z.div_small (z mod _)) by (apply Z.mod_pos_bound; lia).
  rewrite Z.add_0_r, Z.rem_mul_r by lia.
  rewrite (Z.mul_comm 256 (_ mod q)), Z_mod_plus_full. by rewrite Z.mod_mod by lia.
Qed.

Lemma fold_from_be bs acc :
  fold_left (fun acc b => acc * 256 + b) bs acc = acc * 256 ^ Z.of_nat (length bs) + from_be bs.
Proof.
  unfold from_be. revert acc. induction bs as [|b bs IH]; intros acc; cbn [fold_left length].
  - cbn. lia.
  - rewrite IH, (IH (0 * 256 + b)), pow256_S. lia.
Qed.

Lemma from_be_cons b bs : from_be (b :: bs) = b * 256 ^ Z.of_nat (length bs) + from_be bs.
Proof. unfold from_be at 1. cbn [fold_left]. rewrite fold_from_be. lia. Qed.

Lemma from_be_app a b : from_be (a ++ b) = from_be a * 256 ^ Z.of_nat (length b) + from_be b.
Proof. unfold from_be at 1. rewrite fold_left_app. apply fold_from_be. Qed.

Lemma from_be_be_bytes n z : from_be (be_bytes n z) = z mod 256 ^ Z.of_nat n.
Proof.
  induction n as [|n IH].
  - cbn. by rewrite Z.mod_1_r.
  - cbn [be_bytes]. rewrite from_be_cons, length_be_bytes, IH, pow256_S.
    pose proof (pow256_pos n).
    rewrite (Z.mul_comm 256), Z.rem_mul_r by lia. lia.
Qed.

Lemma from_be_be_bytes_small n z :
  0 <= z < 256 ^ Z.of_nat n -> from_be (be_bytes n z) = z.
Proof. intros. rewrite from_be_be_bytes. by apply Z.mod_small. Qed.

Lemma from_be_bound bs : Forall is_u8 bs -> 0 <= from_be bs < 256 ^ Z.of_nat (length bs).
Proof.
  induction 1 as [|b bs Hb _ IH]; [cbn; lia|].
  rewrite from_be_cons. cbn [length]. rewrite pow256_S.
  unfold is_u8, u8_max in Hb. pose proof (pow256_pos (length bs)). nia.
Qed.

Lemma be_bytes_from_be bs : Forall is_u8 bs -> be_bytes (length bs) (from_be bs) = bs.
Proof.
  induction 1 as [|b bs Hb Hbs IH]; [done|].
  cbn [length be_bytes]. rewrite from_be_cons.
  pose proof (from_be_bound bs Hbs). unfold is_u8, u8_max in Hb. f_equal.
  - rewrite Z.div_add_l, (Z.div_small (from_be bs)), Z.add_0_r by lia.
    apply Z.mod_small. lia.
  - rewrite <- (be_bytes_mod (length bs) (length bs)) by lia.
    rewrite Z.add_comm, Z_mod_plus_full, be_bytes_mod by lia. done.
Qed.

Lemma be_bytes_cmp n x y :
  0 <= x < 256 ^ Z.of_nat n -> 0 <= y < 256 ^ Z.of_nat n ->
  bytes_cmp (be_bytes n x) (be_bytes n y) = (x ?= y).
Proof.
  revert x y. induction n as [|n IH]; intros x y Hx Hy.
  - cbn in *. assert (x = y) as -> by lia. by rewrite Z.compare_refl.
  - rewrite pow256_S in Hx, Hy. pose proof (pow256_pos n) as Hp. cbn [be_bytes bytes_cmp].
    set (P := 256 ^ Z.of_nat n) in *.
    pose proof (Z.div_mod x P) as Dx. pose proof (Z.div_mod y P) as Dy.
    pose proof (Z.mod_pos_bound x P Hp) as Bx. pose proof (Z.mod_pos_bound y P Hp) as By.
    assert (0 <= x / P < 256) by (split; [apply Z.div_pos | apply Z.div_lt_upper_bound]; lia).
    assert (0 <= y / P < 256) by (split; [apply Z.div_pos | apply Z.div_lt_upper_bound]; lia).
    rewrite !(Z.mod_small (_ / P)) by lia.
    rewrite <- (be_bytes_mod n n x), <- (be_bytes_mod n n y) by lia.
    rewrite IH by (apply Z.mod_pos_bound; lia). fold P.
    destruct (Z.compare_spec (x / P) (y / P)) as [E|L|G].
    + rewrite E in Dx. destruct (Z.compare_spec (x mod P) (y mod P));
        symmetry; [apply Z.compare_eq_iff | apply Z.compare_lt_iff | apply Z.compare_gt_iff]; lia.
    + symmetry. apply Z.compare_lt_iff. nia.
    + symmetry. apply Z.compare_gt_iff. nia.
Qed.

Lemma be_bytes_inj n x y :
  0 <= x < 256 ^ Z.of_nat n -> 0 <= y < 256 ^ Z.of_nat n ->
  be_bytes n x = be_bytes n y -> x = y.
Proof.
  intros Hx Hy E. apply (f_equal from_be) in E. rewrite !from_be_be_bytes_small in E; done.
Qed.

#[export] Hint Resolve bytes_le_refl bytes_lt_le be_bytes_byte : bytes.

(** ** Tactics *)

(** Split the [if decide] / [match] of the goal and close what is absurd. *)
Ltac case_all := repeat (case_match || case_decide); simplify_eq/=; try done.

(** Destruct existentials and conjunctions of the context. *)
Ltac deex := repeat match goal with
  | H : exists _, _ |- _ => destruct H
  | H : _ /\ _ |- _ => destruct H
  end.
