(* ===== verification/Types.v ===== *)
(** * Block, account and diff data (crates/leafage-evm-types/src/storage.rs)

    The records a block brings to the storage layer, the conversions between
    the account types, and the identifiers a block is looked up by. A 32-byte
    hash and a 256-bit word are [Z]s of 256 bits. *)

From stdpp Require Import prelude gmap list.
From S2P Require Import Prelude.

#[local] Open Scope Z_scope.

Abbreviation H256 := Z (only parsing).
Abbreviation U256 := Z (only parsing).
Abbreviation u64 := Z (only parsing).
Abbreviation u32 := Z (only parsing).

(** A concrete number is in its machine range. *)
Ltac in_range :=
  unfold is_u256, is_u64, is_u32, is_u8; repeat split; vm_compute; discriminate.

(** revm's analysed bytecode: [Bytecode::new_raw] and [Bytecode::default] are
    not part of this repository, so they are operations of a class. *)
Class RevmBytecode := {
  Bytecode : Type;
  new_raw : bytes -> Bytecode;
  bytecode_default : Bytecode;
}.

(** Keeping the raw bytes is one such implementation. *)
#[export] Instance raw_bytecode : RevmBytecode :=
  {| Bytecode := bytes; new_raw := fun c => c; bytecode_default := [] |}.

(** [BlockInfo = WithOtherFields<Block<H256>>]: the header fields the storage
    layer looks at, and [bi_extra] for every other field of the block. *)
Record BlockInfo := mkBlockInfo {
  bi_number : u64;
  bi_hash : H256;
  bi_parent_hash : H256;
  bi_timestamp : u64;
  bi_extra : bytes;
}.

#[export] Instance BlockInfo_eq_dec : EqDecision BlockInfo.
Proof. solve_decision. Defined.

(** revm's [AccountInfo], less the [code] and [account_id] fields, which this
    crate only ever fills with [None] and the default. *)
Record AccountInfo := mkAccountInfo {
  ai_balance : U256;
  ai_nonce : u64;
  ai_code_hash : H256;
}.

#[export] Instance AccountInfo_eq_dec : EqDecision AccountInfo.
Proof. solve_decision. Defined.

Record NewCode := mkNewCode {
  nc_code_hash : H256;
  nc_code : bytes;
}.

Record NewAccount := mkNewAccount {
  na_address : H256;
  na_balance : U256;
  na_nonce : u64;
  na_code_hash : H256;
}.

#[export] Instance NewAccount_eq_dec : EqDecision NewAccount.
Proof. solve_decision. Defined.

Record IndexValuePair := mkIndexValuePair {
  iv_index : H256;
  iv_value : U256;
}.

Record AccountStorageDiff := mkAccountStorageDiff {
  sd_address : H256;
  sd_diffs : list IndexValuePair;
}.

Record BlockStorageDiff := mkBlockStorageDiff {
  bd_hash : H256;
  bd_parent_hash : H256;
  bd_new_accounts : list NewAccount;
  bd_deleted_accounts : list H256;
  bd_storage_diffs : list AccountStorageDiff;
  bd_new_codes : list NewCode;
}.

Definition empty_diff : BlockStorageDiff := mkBlockStorageDiff 0 0 [] [] [] [].

Record SlimAccount := mkSlimAccount {
  sa_balance : U256;
  sa_nonce : u64;
  sa_code_hash : H256;
}.

(** [impl From<NewAccount> for AccountInfo]. *)
Definition account_info_of_new (a : NewAccount) : AccountInfo :=
  mkAccountInfo (na_balance a) (na_nonce a) (na_code_hash a).

(** [impl From<(H256, AccountInfo)> for NewAccount]. *)
Definition new_account_of_info (address : H256) (a : AccountInfo) : NewAccount :=
  mkNewAccount address (ai_balance a) (ai_nonce a) (ai_code_hash a).

(** [impl From<NewAccount> for SlimAccount]. *)
Definition slim_of_new (a : NewAccount) : SlimAccount :=
  mkSlimAccount (na_balance a) (na_nonce a) (na_code_hash a).

(** alloy's [BlockNumberOrTag] and [BlockId]. *)
Inductive BlockNumberOrTag :=
| Latest
| Finalized
| Safe
| Earliest
| Pending
| Number (n : u64).

Inductive BlockId :=
| ById (hash : H256)
| ByNumber (tag : BlockNumberOrTag).

(** The two ways to ask for a block. *)
Definition names (id : BlockId) (info : BlockInfo) : Prop :=
  id = ById (bi_hash info) \/ id = ByNumber (Number (bi_number info)).

(** ** What a diff says about one key *)

(** The value the last pair with key [k] holds: what a map built by inserting
    the pairs in order answers. *)
Section last_assoc.
Context {K V : Type} `{Countable K}.

Fixpoint last_assoc (l : list (K * V)) (k : K) : option V :=
  match l with
  | [] => None
  | (k', v) :: l' =>
      match last_assoc l' k with
      | Some w => Some w
      | None => if decide (k' = k) then Some v else None
      end
  end.

Definition insert_all (l : list (K * V)) (m : gmap K V) : gmap K V :=
  fold_left (fun m '(k, v) => <[k := v]> m) l m.

Lemma lookup_insert_all l m k :
  insert_all l m !! k = match last_assoc l k with Some v => Some v | None => m !! k end.
Proof.
  unfold insert_all. revert m. induction l as [|[k' v] l IH]; intros m; cbn; [done|].
  rewrite IH. destruct (last_assoc l k); [done|].
  rewrite lookup_insert. by case_decide.
Qed.

Lemma last_assoc_app l1 l2 k :
  last_assoc (l1 ++ l2) k =
    match last_assoc l2 k with Some v => Some v | None => last_assoc l1 k end.
Proof.
  induction l1 as [|[k' v] l1 IH]; cbn; [by destruct (last_assoc l2 k)|].
  rewrite IH. by destruct (last_assoc l2 k).
Qed.

Lemma last_assoc_None l k : last_assoc l k = None <-> k ∉ l.*1.
Proof.
  induction l as [|[k' v] l IH]; cbn; [set_solver|].
  rewrite not_elem_of_cons. destruct (last_assoc l k) eqn:E.
  - split; [done|]. intros [_ Hk]. by apply IH in Hk.
  - case_decide; subst; naive_solver.
Qed.

Lemma last_assoc_in l k v : last_assoc l k = Some v -> (k, v) ∈ l.
Proof.
  induction l as [|[k' v'] l IH]; cbn; [done|].
  destruct (last_assoc l k) eqn:E; intros Hv.
  - right. apply IH. congruence.
  - case_decide; simplify_eq. left.
Qed.

Lemma last_assoc_cons k' v l k :
  last_assoc ((k', v) :: l) k =
    match last_assoc l k with
    | Some w => Some w
    | None => if decide (k' = k) then Some v else None
    end.
Proof. done. Qed.
End last_assoc.

(** The account writes of a diff in the order they are applied: deletions
    first, so an account deleted and created again in one block exists. *)
Definition account_writes (d : BlockStorageDiff) : list (H256 * option NewAccount) :=
  map (fun a => (a, None)) (bd_deleted_accounts d) ++
  map (fun a => (na_address a, Some a)) (bd_new_accounts d).

Definition storage_writes (d : BlockStorageDiff) : list ((H256 * H256) * U256) :=
  flat_map (fun a => map (fun iv => ((sd_address a, iv_index iv), iv_value iv)) (sd_diffs a))
    (bd_storage_diffs d).

Definition code_writes (d : BlockStorageDiff) : list (H256 * bytes) :=
  map (fun c => (nc_code_hash c, nc_code c)) (bd_new_codes d).

(** ** The abstract state

    What the node promises to answer about one block: accounts, storage,
    code, ancestors' hashes and the block itself, as total functions. *)
Section AState.
Context `{RevmBytecode}.

Record AState := mkAState {
  as_account : H256 -> option AccountInfo;
  as_storage : H256 -> H256 -> U256;
  as_code : H256 -> Bytecode;
  as_hash : u64 -> H256;
  as_info : BlockInfo;
}.

(** Two states that answer every question alike. *)
Record astate_eq (s t : AState) : Prop := {
  ae_account a : as_account s a = as_account t a;
  ae_storage a i : as_storage s a i = as_storage t a i;
  ae_code h : as_code s h = as_code t h;
  ae_hash n : as_hash s n = as_hash t n;
  ae_info : as_info s = as_info t;
}.

#[export] Instance astate_equiv : Equiv AState := astate_eq.

#[export] Instance astate_equivalence : Equivalence (≡@{AState}).
Proof.
  split.
  - by split.
  - intros s t []. by split.
  - intros s t u [] []. split; congruence.
Qed.

(** What layering a block over a state answers: the block's own writes, or
    else the state below. *)
Definition overlay_block (bi : BlockInfo) (d : BlockStorageDiff) (s : AState) : AState :=
  {| as_account a :=
       match last_assoc (account_writes d) a with
       | Some o => option_map account_info_of_new o
       | None => as_account s a
       end;
     as_storage a i :=
       match last_assoc (storage_writes d) (a, i) with
       | Some v => v
       | None => as_storage s a i
       end;
     as_code h :=
       match last_assoc (code_writes d) h with
       | Some c => new_raw c
       | None => as_code s h
       end;
     as_hash n := if decide (n = bi_number bi) then bi_hash bi else as_hash s n;
     as_info := bi |}.

(** The state transition a block means: as [overlay_block], and a deleted
    account loses the storage it held. *)
Definition apply_block (bi : BlockInfo) (d : BlockStorageDiff) (s : AState) : AState :=
  let o := overlay_block bi d s in
  {| as_account := as_account o;
     as_storage a i :=
       match last_assoc (storage_writes d) (a, i) with
       | Some v => v
       | None =>
           if decide (a ∈ bd_deleted_accounts d) then 0 else as_storage s a i
       end;
     as_code := as_code o;
     as_hash := as_hash o;
     as_info := bi |}.

(** A diff is explicit over [s] when it lists every non-zero slot of the
    accounts it deletes. *)
Definition explicit_diff (d : BlockStorageDiff) (s : AState) : Prop :=
  forall a i, a ∈ bd_deleted_accounts d ->
    last_assoc (storage_writes d) (a, i) = None -> as_storage s a i = 0.

Lemma overlay_apply_block bi d s :
  explicit_diff d s -> overlay_block bi d s ≡ apply_block bi d s.
Proof.
  intros Hx. split; cbn; try done. intros a i.
  destruct (last_assoc _ (a, i)) eqn:E; [done|]. case_decide; [by apply Hx | done].
Qed.

#[export] Instance overlay_block_proper bi d : Proper ((≡) ==> (≡)) (overlay_block bi d).
Proof. intros s t []. split; cbn; intros; by case_all. Qed.

#[export] Instance apply_block_proper bi d : Proper ((≡) ==> (≡)) (apply_block bi d).
Proof. intros s t []. split; cbn; intros; by case_all. Qed.

(** The state [s] as it still shows in [t]: all of it, with the hashes of the
    blocks up to its own, and the codes it had. *)
Record persists (s t : AState) : Prop := {
  ps_account a : as_account t a = as_account s a;
  ps_storage a i : as_storage t a i = as_storage s a i;
  ps_info : as_info t = as_info s;
  ps_hash n : n <= bi_number (as_info s) -> as_hash t n = as_hash s n;
  ps_code x : as_code t x = as_code s x \/ as_code s x = bytecode_default;
}.

#[export] Instance persists_preorder : PreOrder persists.
Proof.
  split.
  - intros s. split; auto.
  - intros s t u [Ha Hs Hi Hh Hc] [Ha' Hs' Hi' Hh' Hc']. split; try congruence.
    + intros n Hn. rewrite Hh', Hh by (rewrite ?Hi; done). done.
    + intros x. destruct (Hc x) as [Heq|]; [|by right]. destruct (Hc' x) as [Heq'|Heq']; [left|right]; congruence.
Qed.

Lemma persists_equiv s s' t t' : s ≡ s' -> t ≡ t' -> persists s t -> persists s' t'.
Proof.
  intros [Ha Hs Hc Hh Hi] [Ha' Hs' Hc' Hh' Hi'] [Ka Ks Ki Kh Kc]. split; intros; try congruence.
  - rewrite <- Hh, <- Hh'. apply Kh. by rewrite Hi.
  - rewrite <- Hc, <- Hc'. apply Kc.
Qed.

#[export] Instance explicit_diff_proper d : Proper ((≡) ==> iff) (explicit_diff d).
Proof. intros s t []. unfold explicit_diff. split; intros Hx a i ? ?; [rewrite <- ae_storage0|rewrite ae_storage0]; eauto. Qed.

Lemma explicit_diff_no_deletes d s : bd_deleted_accounts d = [] -> explicit_diff d s.
Proof. intros E a i Ha. rewrite E in Ha. by apply elem_of_nil in Ha. Qed.
End AState.
