(* ===== verification/QuickCache.v ===== *)
(** * The bounded caches (crate quick_cache) and the tagged refill

    quick_cache is a dependency: [QuickCache] lists the operations the source
    uses and [QuickCacheOk] what it relies on, namely that a lookup answers
    the value last inserted for the key or nothing (any entry may have been
    evicted, and an insert may be rejected). [fifo_cache] is an implementation
    with eviction that satisfies the laws. [refill] translates the function of
    that name of crates/leafage-evm-storage/src/state_tree/layer.rs. *)

From stdpp Require Import prelude gmap list.
From S2P Require Import Prelude Types.

#[local] Open Scope Z_scope.

Class QuickCache (C : Type -> Type -> Type) := {
  qc_with : forall K V, nat -> C K V;
  qc_get : forall {K V} `{EqDecision K}, C K V -> K -> option V;
  qc_insert : forall {K V} `{EqDecision K}, C K V -> K -> V -> C K V;
}.

Class QuickCacheOk (C : Type -> Type -> Type) `{QuickCache C} : Prop := {
  qc_get_with : forall K V `{EqDecision K} cap (k : K), qc_get (qc_with K V cap) k = None;
  qc_get_insert_eq : forall K V `{EqDecision K} (c : C K V) k v w,
    qc_get (qc_insert c k v) k = Some w -> w = v;
  qc_get_insert_ne : forall K V `{EqDecision K} (c : C K V) k k' v w,
    k <> k' -> qc_get (qc_insert c k v) k' = Some w -> qc_get c k' = Some w;
}.

(** ** A cache that evicts its oldest entries *)

Record FifoCache (K V : Type) := mkFifo {
  fifo_cap : nat;
  fifo_entries : list (K * V);
}.
Arguments mkFifo {K V}.
Arguments fifo_cap {K V}.
Arguments fifo_entries {K V}.

Section fifo.
Context {K V : Type} `{EqDecision K}.

Fixpoint assoc (l : list (K * V)) (k : K) : option V :=
  match l with
  | [] => None
  | (k', v) :: l' => if decide (k' = k) then Some v else assoc l' k
  end.

Fixpoint remove_key (l : list (K * V)) (k : K) : list (K * V) :=
  match l with
  | [] => []
  | (k', v) :: l' => if decide (k' = k) then remove_key l' k else (k', v) :: remove_key l' k
  end.

Definition fifo_insert (c : FifoCache K V) (k : K) (v : V) : FifoCache K V :=
  mkFifo (fifo_cap c) (take (fifo_cap c) ((k, v) :: remove_key (fifo_entries c) k)).

Lemma assoc_remove_key l k k' :
  assoc (remove_key l k) k' = if decide (k = k') then None else assoc l k'.
Proof.
  induction l as [|[j v] l IH]; cbn; [by case_decide|].
  repeat case_decide; subst; cbn; repeat case_decide; congruence.
Qed.

Lemma assoc_take n l k v : assoc (take n l) k = Some v -> assoc l k = Some v.
Proof.
  revert l. induction n as [|n IH]; intros [|[j w] l]; cbn; try done.
  case_decide; [done | apply IH].
Qed.
End fifo.

#[export] Instance fifo_cache : QuickCache FifoCache := {|
  qc_with K V cap := mkFifo cap [];
  qc_get K V _ c k := assoc (fifo_entries c) k;
  qc_insert K V _ c k v := fifo_insert c k v;
|}.

#[export] Instance fifo_cache_ok : QuickCacheOk FifoCache.
Proof.
  split; cbn.
  - done.
  - intros K V ? c k v w Hw%assoc_take. cbn in Hw. case_decide; congruence.
  - intros K V ? c k k' v w Hne Hw%assoc_take. cbn in Hw. case_decide; [done|].
    rewrite assoc_remove_key in Hw. by case_decide.
Qed.

(** ** Refill *)

Section refill.
Context {C : Type -> Type -> Type} `{QuickCacheOk C}.
Context {K V : Type} `{EqDecision K}.

(** [refill]: a value read at height [tag] goes in unless the key holds one
    tagged [tag] or higher. Comparing and replacing happen under the cache's
    shard lock, so they are one step. *)
Definition refill (cache : C K (u64 * V)) (key : K) (tag : u64) (value : V) : C K (u64 * V) :=
  match qc_get cache key with
  | Some (t, _) => if decide (t < tag) then qc_insert cache key (tag, value) else cache
  | None => qc_insert cache key (tag, value)
  end.

(** Every entry of a cache satisfies [P]. *)
Definition cache_all (P : K -> u64 * V -> Prop) (c : C K (u64 * V)) : Prop :=
  forall k e, qc_get c k = Some e -> P k e.

Lemma cache_all_with P cap : cache_all P (qc_with K (u64 * V) cap).
Proof. intros k e. by rewrite qc_get_with. Qed.

Lemma cache_all_insert P c k e :
  (forall k' e', k' <> k -> qc_get c k' = Some e' -> P k' e') ->
  P k e -> cache_all P (qc_insert c k e).
Proof.
  intros Hc He k' e' Hg. destruct (decide (k' = k)) as [->|Hne].
  - apply qc_get_insert_eq in Hg. by subst.
  - eapply Hc; [done|]. by eapply qc_get_insert_ne.
Qed.

Lemma cache_all_refill P c k tag v :
  cache_all P c -> P k (tag, v) -> cache_all P (refill c k tag v).
Proof.
  intros Hc Hv. unfold refill. destruct (qc_get c k) as [[t w]|]; [case_decide; [|done]|];
    apply cache_all_insert; eauto.
Qed.

(** A refill never lowers the tag of a key, as long as the entry stays. *)
Lemma refill_tag_mono c k tag v k' t w t' w' :
  qc_get c k' = Some (t, w) -> qc_get (refill c k tag v) k' = Some (t', w') ->
  t <= t' /\ (t = t' -> w = w').
Proof.
  intros Hk Hk'. unfold refill in Hk'.
  destruct (qc_get c k) as [[u x]|] eqn:Hg; [case_decide|].
  - destruct (decide (k' = k)) as [->|Hne].
    + apply qc_get_insert_eq in Hk'. simplify_eq. split; lia.
    + apply qc_get_insert_ne in Hk'; [|done]. simplify_eq. split; [lia|done].
  - simplify_eq. split; [lia|done].
  - destruct (decide (k' = k)) as [->|Hne]; [congruence|].
    apply qc_get_insert_ne in Hk'; [|done]. simplify_eq. split; [lia|done].
Qed.
End refill.
