(* ===== verification/Backend.v ===== *)
(** * The database below the state tree: operations and contract

    [StateDBProvider] gathers the traits the state tree is generic over
    ([StateDBProvider], [StateDB], [BlockContext] and [EvmStorageWrite] of
    crates/leafage-evm-storage/src/{db,interface}.rs) for a database state [D]
    and a handle type [S]. [BackendSpec] and [BackendOk] say what the tree
    relies on, in terms of the abstract state a handle shows; the backends
    discharge it. The smallest one is in memory: the database is the state of its
    last block and a handle is the state it was opened on. It shows that the
    contract is satisfiable, and the examples of the tree's theorems run on it. *)

From stdpp Require Import prelude gmap list.
From S2P Require Import Prelude Types.

#[local] Open Scope Z_scope.

Class StateDBProvider `{RevmBytecode} (D S E : Type) := {
  (** [StateDBProvider::state_at]: a handle on the state of a block. *)
  state_at : D -> BlockId -> Res E (option S);
  (** [StateDB], one read per method, through a handle. *)
  basic : D -> S -> H256 -> Res E (option AccountInfo);
  storage : D -> S -> H256 * H256 -> Res E U256;
  code_by_hash : D -> S -> H256 -> Res E Bytecode;
  block_hash : D -> S -> u64 -> Res E H256;
  basic_many : D -> S -> list H256 -> Res E (list (option AccountInfo));
  storage_many : D -> S -> list (H256 * H256) -> Res E (list U256);
  code_by_hash_many : D -> S -> list H256 -> Res E (list Bytecode);
  storage_slots : D -> S -> H256 -> Res E (option (list (H256 * U256)));
  supports_batched_reads : D -> S -> bool;
  (** [BlockContext]. *)
  block_info : D -> S -> Res E BlockInfo;
  state_diff : D -> S -> Res E BlockStorageDiff;
  (** [EvmStorageWrite::update_block]: it changes the database itself. *)
  db_update_block : D -> S -> BlockInfo -> BlockStorageDiff -> Res E unit * D;
}.

(** A block the database can take after [hd]: a later one, or the last one
    again without changes, which is the first layer the tree commits. *)
Definition extends (hd bi : BlockInfo) (df : BlockStorageDiff) : Prop :=
  bi_number hd < bi_number bi \/ (bi = hd /\ df = empty_diff).

Lemma extends_le hd bi df : extends hd bi df -> bi_number hd <= bi_number bi.
Proof. intros [?|[-> _]]; lia. Qed.

(** What a backend shows: [healthy] databases do not fail, [usable d s] handles
    do not either, [view d s] is the state the handle [s] answers for, [head d]
    the state of the last committed block, and [fresh d s] handles were opened
    on that block. [valid_block] is the range its blocks are encodable in. *)
Class BackendSpec `{RevmBytecode} (D S : Type) := {
  healthy : D -> Prop;
  usable : D -> S -> Prop;
  fresh : D -> S -> Prop;
  view : D -> S -> AState;
  head : D -> AState;
  valid_block : BlockInfo -> BlockStorageDiff -> Prop;
}.

Class BackendOk `{RevmBytecode} (D S E : Type)
    `{!StateDBProvider D S E} `{!BackendSpec D S} : Prop := {
  ok_latest d : healthy d ->
    exists s, state_at d (ByNumber Latest) = Ok (Some s) /\ fresh d s;
  ok_usable d s : healthy d -> fresh d s -> usable d s;
  ok_fresh d s : healthy d -> fresh d s -> view d s ≡ head d;
  ok_basic d s a : healthy d -> usable d s -> is_u256 a -> basic d s a = Ok (as_account (view d s) a);
  ok_storage d s a i : healthy d -> usable d s -> is_u256 a -> is_u256 i ->
    storage d s (a, i) = Ok (as_storage (view d s) a i);
  ok_code d s h : healthy d -> usable d s -> is_u256 h -> code_by_hash d s h = Ok (as_code (view d s) h);
  ok_hash d s n : healthy d -> usable d s -> is_u64 n -> block_hash d s n = Ok (as_hash (view d s) n);
  ok_info d s : healthy d -> usable d s -> block_info d s = Ok (as_info (view d s));
  ok_slots d s a disk : healthy d -> usable d s -> is_u256 a -> storage_slots d s a = Ok (Some disk) ->
    forall i, i ∈ disk.*1 <-> is_u256 i /\ as_storage (view d s) a i <> 0;
  ok_basic_many d s l : healthy d -> usable d s -> basic_many d s l = mapM (basic d s) l;
  ok_storage_many d s l : healthy d -> usable d s -> storage_many d s l = mapM (storage d s) l;
  ok_code_many d s l : healthy d -> usable d s -> code_by_hash_many d s l = mapM (code_by_hash d s) l;
  ok_update d s bi df : healthy d -> fresh d s -> valid_block bi df ->
    explicit_diff df (head d) -> extends (as_info (head d)) bi df ->
    exists d', db_update_block d s bi df = (Ok tt, d') /\ healthy d' /\
      head d' ≡ overlay_block bi df (head d);
}.

Section mem.
Context `{RevmBytecode}.

#[export] Instance mem_provider : StateDBProvider AState AState unit := {|
  state_at d id := match id with ByNumber Latest => Ok (Some d) | _ => Ok None end;
  basic _ s a := Ok (as_account s a);
  storage _ s k := Ok (as_storage s k.1 k.2);
  code_by_hash _ s h := Ok (as_code s h);
  block_hash _ s n := Ok (as_hash s n);
  basic_many _ s l := mapM (fun a => Ok (as_account s a)) l;
  storage_many _ s l := mapM (fun k => Ok (as_storage s k.1 k.2)) l;
  code_by_hash_many _ s l := mapM (fun h => Ok (as_code s h)) l;
  storage_slots _ _ _ := Ok None;
  supports_batched_reads _ _ := false;
  block_info _ s := Ok (as_info s);
  state_diff _ _ := Ok empty_diff;
  db_update_block d _ bi df := (Ok tt, apply_block bi df d);
|}.

#[export] Instance mem_spec : BackendSpec AState AState := {|
  healthy _ := True;
  usable _ _ := True;
  fresh d s := s = d;
  view _ s := s;
  head d := d;
  valid_block _ _ := True;
|}.

#[export] Instance mem_ok : BackendOk AState AState unit.
Proof.
  split; try done; cbn.
  - intros d _. by exists d.
  - by intros d s _ ->.
  - intros d s bi df _ _ _ Hx _. eexists. split; [done|]. split; [done|].
    by symmetry; apply overlay_apply_block.
Qed.

(** The state before any block. *)
Definition genesis (bi : BlockInfo) : AState :=
  mkAState (fun _ => None) (fun _ _ => 0) (fun _ => bytecode_default)
    (fun n => if decide (n = bi_number bi) then bi_hash bi else 0) bi.
End mem.
