(* ===== verification/Layers.v ===== *)
(** * Diff layers over a cached disk layer
    (crates/leafage-evm-storage/src/state_tree/layer.rs)

    A block that is not committed yet is a [DiffLayer] whose [next] cell links
    it to its parent's layer, down to the [CacheDiskLayer] in front of the
    database. All fields of a diff layer but [next] are immutable, so a layer
    is a value and only the [next] cells live in a store ([cells]), shared by
    every chain that goes through them. [FlattenedLayerView] is the immutable
    read index over one chain and [HybridStateDB] the handle that reads through
    it. *)

From stdpp Require Import prelude gmap list sorting.
From S2P Require Import Prelude Types QuickCache Backend.

#[local] Open Scope Z_scope.

(** [state_tree::error::Error]. *)
Inductive TreeError (E : Type) :=
| DBError (e : E)
| ParentBlockHashNotFound (hash : H256) (number : u64) (parent : H256)
| UnsupportedBlockId (id : BlockId)
| NoLatestBlockInDB.
Arguments DBError {E} e.
Arguments ParentBlockHashNotFound {E} hash number parent.
Arguments UnsupportedBlockId {E} id.
Arguments NoLatestBlockInDB {E}.

(** The [?] operator on a database error. *)
Definition lift_db {E A} (r : Res E A) : Res (TreeError E) A :=
  match r with Ok a => Ok a | Err e => Err (DBError e) | Panic => Panic end.

Section layers.
Context `{RevmBytecode}.
Context {C : Type -> Type -> Type} `{QuickCache C}.
Context {D S E : Type} `{!StateDBProvider D S E}.

(** [dl_next] names the layer's [next: RwLock<Arc<LinkedDiffLayer>>] cell. *)
Record DiffLayer := mkDiffLayer {
  dl_block_info : BlockInfo;
  dl_block_diff : BlockStorageDiff;
  dl_accounts : gmap H256 (option AccountInfo);
  dl_storage : gmap (H256 * H256) U256;
  dl_contracts : gmap H256 Bytecode;
  dl_next : nat;
}.

(** [LinkedDiffLayer]; a state tree has one cache layer, so the variant that
    holds it is a reference to it. *)
Inductive LinkedDiffLayer :=
| LCacheDisk
| LDiff (d : DiffLayer)
| LEmpty.

Abbreviation Cells := (gmap nat LinkedDiffLayer).

Record CacheDiskLayer := mkCacheDiskLayer {
  cd_accounts : C H256 (u64 * option AccountInfo);
  cd_storages : C (H256 * H256) (u64 * U256);
  cd_contracts : C H256 (u64 * Bytecode);
  cd_block_hashes : C u64 (u64 * H256);
  cd_old_diff_layer : option DiffLayer;
  cd_committed_height : u64;
  cd_enabled : bool;
}.

Definition set_accounts c (l : CacheDiskLayer) :=
  mkCacheDiskLayer c (cd_storages l) (cd_contracts l) (cd_block_hashes l)
    (cd_old_diff_layer l) (cd_committed_height l) (cd_enabled l).
Definition set_storages c (l : CacheDiskLayer) :=
  mkCacheDiskLayer (cd_accounts l) c (cd_contracts l) (cd_block_hashes l)
    (cd_old_diff_layer l) (cd_committed_height l) (cd_enabled l).
Definition set_contracts c (l : CacheDiskLayer) :=
  mkCacheDiskLayer (cd_accounts l) (cd_storages l) c (cd_block_hashes l)
    (cd_old_diff_layer l) (cd_committed_height l) (cd_enabled l).
Definition set_block_hashes c (l : CacheDiskLayer) :=
  mkCacheDiskLayer (cd_accounts l) (cd_storages l) (cd_contracts l) c
    (cd_old_diff_layer l) (cd_committed_height l) (cd_enabled l).
Definition set_old_diff_layer o (l : CacheDiskLayer) :=
  mkCacheDiskLayer (cd_accounts l) (cd_storages l) (cd_contracts l) (cd_block_hashes l)
    o (cd_committed_height l) (cd_enabled l).
Definition set_committed_height n (l : CacheDiskLayer) :=
  mkCacheDiskLayer (cd_accounts l) (cd_storages l) (cd_contracts l) (cd_block_hashes l)
    (cd_old_diff_layer l) n (cd_enabled l).

(** [CacheDiskLayer::new]. *)
Definition new_cache_layer (accounts storages contracts : nat) (height : u64)
    (enabled : bool) : CacheDiskLayer :=
  let '(a, s, c, b) :=
    if enabled then (accounts, storages, contracts, 1000%nat) else (0%nat, 0%nat, 0%nat, 0%nat) in
  mkCacheDiskLayer (qc_with _ _ a) (qc_with _ _ s) (qc_with _ _ c) (qc_with _ _ b)
    None height enabled.

(** [CacheDiskLayer::cache_view_height]. *)
Definition cache_view_height (l : CacheDiskLayer) : option u64 :=
  if cd_enabled l then Some (cd_committed_height l) else None.

(** [DiffLayer::new]. *)
Definition new_diff_layer (bi : BlockInfo) (df : BlockStorageDiff) (next : nat) : DiffLayer :=
  let accounts := fold_left (fun m a => <[a := None]> m) (bd_deleted_accounts df) ∅ in
  let accounts := fold_left (fun m a => <[na_address a := Some (account_info_of_new a)]> m)
    (bd_new_accounts df) accounts in
  let storage := fold_left (fun m sd =>
      fold_left (fun m iv => <[(sd_address sd, iv_index iv) := iv_value iv]> m)
        (sd_diffs sd) m)
    (bd_storage_diffs df) ∅ in
  let contracts := fold_left (fun m c => <[nc_code_hash c := new_raw (nc_code c)]> m)
    (bd_new_codes df) ∅ in
  mkDiffLayer bi df accounts storage contracts next.

(** [DiffLayer::storage_diff]. *)
Definition storage_diff (d : DiffLayer) : BlockInfo * BlockStorageDiff :=
  (dl_block_info d, dl_block_diff d).

(** ** The flattened view *)

Record FlattenedLayerView := mkView {
  fv_layers : list DiffLayer;
  fv_terminal : LinkedDiffLayer;
}.

(** The [while let] loop of [FlattenedLayerView::build]; a missing cell
    cannot happen, and running out of fuel is the loop not ending. *)
Fixpoint build_loop (fuel : nat) (cells : Cells) (cur : LinkedDiffLayer)
    : option (list DiffLayer * LinkedDiffLayer) :=
  match cur with
  | LDiff d =>
      match fuel with
      | O => None
      | Datatypes.S fuel' =>
          match cells !! dl_next d with
          | Some next =>
              match build_loop fuel' cells next with
              | Some (ls, t) => Some (d :: ls, t)
              | None => None
              end
          | None => None
          end
      end
  | _ => Some ([], cur)
  end.

(** [FlattenedLayerView::build]. A layer links to layers created before it,
    so the number of cells bounds the walk. *)
Definition build (cells : Cells) (memory_layer : LinkedDiffLayer) : option FlattenedLayerView :=
  match build_loop (size cells) cells memory_layer with
  | Some (ls, t) => Some (mkView ls t)
  | None => None
  end.

(** [FlattenedLayerView::head] and [::empty]. *)
Definition head_layer (v : FlattenedLayerView) : LinkedDiffLayer :=
  match fv_layers v with d :: _ => LDiff d | [] => fv_terminal v end.
Definition empty_view : FlattenedLayerView := mkView [] LEmpty.

(** ** Reads through a handle *)

Record HybridStateDB := mkHybrid {
  hs_flattened : FlattenedLayerView;
  hs_statedb : S;
  hs_cache_view_height : option u64;
}.

(** The first layer, from the newest, that holds the key. *)
Fixpoint diff_walk {K V} (lookup : DiffLayer -> K -> option V) (ls : list DiffLayer) (k : K)
    : option V :=
  match ls with
  | [] => None
  | l :: ls' =>
      match lookup l k with
      | Some v => Some v
      | None => diff_walk lookup ls' k
      end
  end.

(** The shape shared by [basic], [storage], [code_by_hash] and [block_hash]:
    the layers, then the shared cache, then the database with a refill. *)
Definition read_layered {K V} `{EqDecision K}
    (lookup : DiffLayer -> K -> option V)
    (get : CacheDiskLayer -> C K (u64 * V))
    (set : C K (u64 * V) -> CacheDiskLayer -> CacheDiskLayer)
    (fetch : K -> Res E V)
    (h : HybridStateDB) (cache : CacheDiskLayer) (k : K)
    : Res (TreeError E) V * CacheDiskLayer :=
  match diff_walk lookup (fv_layers (hs_flattened h)) k with
  | Some v => (Ok v, cache)
  | None =>
      match fv_terminal (hs_flattened h), cd_enabled cache with
      | LCacheDisk, true =>
          match qc_get (get cache) k with
          | Some (_, v) => (Ok v, cache)
          | None =>
              match fetch k with
              | Ok res =>
                  (Ok res,
                   match hs_cache_view_height h with
                   | Some t => set (refill (get cache) k t res) cache
                   | None => cache
                   end)
              | Err e => (Err (DBError e), cache)
              | Panic => (Panic, cache)
              end
          end
      | _, _ => (lift_db (fetch k), cache)
      end
  end.

Definition lookup_account (l : DiffLayer) (a : H256) := dl_accounts l !! a.
Definition lookup_storage (l : DiffLayer) (k : H256 * H256) := dl_storage l !! k.
Definition lookup_contract (l : DiffLayer) (h : H256) := dl_contracts l !! h.
Definition lookup_block_hash (l : DiffLayer) (n : u64) : option H256 :=
  if decide (bi_number (dl_block_info l) = n) then Some (bi_hash (dl_block_info l)) else None.

(** [StateDB for HybridStateDB]. *)
Definition h_basic (d : D) (h : HybridStateDB) :=
  read_layered lookup_account cd_accounts set_accounts (basic d (hs_statedb h)) h.
Definition h_storage (d : D) (h : HybridStateDB) :=
  read_layered lookup_storage cd_storages set_storages (storage d (hs_statedb h)) h.
Definition h_code_by_hash (d : D) (h : HybridStateDB) :=
  read_layered lookup_contract cd_contracts set_contracts (code_by_hash d (hs_statedb h)) h.
Definition h_block_hash (d : D) (h : HybridStateDB) :=
  read_layered lookup_block_hash cd_block_hashes set_block_hashes
    (block_hash d (hs_statedb h)) h.
Definition h_supports_batched_reads (d : D) (h : HybridStateDB) : bool :=
  supports_batched_reads d (hs_statedb h).

(** *** Batched reads *)

(** The first loop of [read_many_layered]: what the layers and the cache
    resolve goes to [out]; the rest, once each, to [unresolved], with the
    positions that wait for it. *)
Fixpoint resolve_keys {K V} `{Countable K}
    (resolved : K -> option V) (pos : nat) (keys : list K)
    (out : list (option V)) (unresolved : list K) (slots : gmap K (list nat))
    : list (option V) * list K * gmap K (list nat) :=
  match keys with
  | [] => (out, unresolved, slots)
  | key :: keys' =>
      match resolved key with
      | Some v =>
          resolve_keys resolved (Datatypes.S pos) keys' (<[pos := Some v]> out) unresolved slots
      | None =>
          match slots !! key with
          | Some ps =>
              resolve_keys resolved (Datatypes.S pos) keys' out unresolved
                (<[key := ps ++ [pos]]> slots)
          | None =>
              resolve_keys resolved (Datatypes.S pos) keys' out (unresolved ++ [key])
                (<[key := [pos]]> slots)
          end
      end
  end.

(** The second loop: fill the cache and every waiting position. *)
Fixpoint distribute {K V} `{Countable K}
    (fill : K -> V -> CacheDiskLayer -> CacheDiskLayer) (slots : gmap K (list nat))
    (fetched : list (K * V)) (out : list (option V)) (cache : CacheDiskLayer)
    : list (option V) * CacheDiskLayer :=
  match fetched with
  | [] => (out, cache)
  | (key, value) :: fetched' =>
      let out := fold_left (fun out pos => <[pos := Some value]> out)
        (default [] (slots !! key)) out in
      distribute fill slots fetched' out (fill key value cache)
  end.

(** [out.into_iter().map(|value| value.unwrap()).collect()]. *)
Definition unwrap_all {V} (out : list (option V)) : Res (TreeError E) (list V) :=
  mapM (fun o => match o with Some v => Ok v | None => Panic end) out.

(** Whether a handle goes through the shared cache. *)
Definition reads_cache (h : HybridStateDB) (cache : CacheDiskLayer) : bool :=
  match fv_terminal (hs_flattened h), cd_enabled cache with
  | LCacheDisk, true => true
  | _, _ => false
  end.

Definition resolve_one {K V} `{EqDecision K}
    (lookup : DiffLayer -> K -> option V) (get : CacheDiskLayer -> C K (u64 * V))
    (h : HybridStateDB) (cache : CacheDiskLayer) (key : K) : option V :=
  match diff_walk lookup (fv_layers (hs_flattened h)) key with
  | Some v => Some v
  | None => if reads_cache h cache then snd <$> qc_get (get cache) key else None
  end.

Definition fill_one {K V} `{EqDecision K} (get : CacheDiskLayer -> C K (u64 * V))
    (set : C K (u64 * V) -> CacheDiskLayer -> CacheDiskLayer)
    (cached : bool) (h : HybridStateDB) (key : K) (value : V) (cache : CacheDiskLayer)
    : CacheDiskLayer :=
  match cached, hs_cache_view_height h with
  | true, Some t => set (refill (get cache) key t value) cache
  | _, _ => cache
  end.

Definition read_many_layered {K V} `{Countable K}
    (lookup : DiffLayer -> K -> option V)
    (get : CacheDiskLayer -> C K (u64 * V))
    (set : C K (u64 * V) -> CacheDiskLayer -> CacheDiskLayer)
    (fetch_many : list K -> Res E (list V))
    (h : HybridStateDB) (cache : CacheDiskLayer) (keys : list K)
    : Res (TreeError E) (list V) * CacheDiskLayer :=
  let '(out, unresolved, slots) :=
    resolve_keys (resolve_one lookup get h cache) 0 keys
      (replicate (length keys) None) [] ∅ in
  match unresolved with
  | [] => (unwrap_all out, cache)
  | _ =>
      match fetch_many unresolved with
      | Ok fetched =>
          let '(out, cache) :=
            distribute (fill_one get set (reads_cache h cache) h) slots
              (zip unresolved fetched) out cache in
          (unwrap_all out, cache)
      | Err e => (Err (DBError e), cache)
      | Panic => (Panic, cache)
      end
  end.

Definition h_basic_many (d : D) (h : HybridStateDB) :=
  read_many_layered lookup_account cd_accounts set_accounts (basic_many d (hs_statedb h)) h.
Definition h_storage_many (d : D) (h : HybridStateDB) :=
  read_many_layered lookup_storage cd_storages set_storages (storage_many d (hs_statedb h)) h.
Definition h_code_by_hash_many (d : D) (h : HybridStateDB) :=
  read_many_layered lookup_contract cd_contracts set_contracts
    (code_by_hash_many d (hs_statedb h)) h.

(** *** Listing the slots of an account *)

(** The loop over the candidate slots, in ascending order. *)
Fixpoint read_slots (d : D) (h : HybridStateDB) (address : H256) (candidates : list H256)
    (cache : CacheDiskLayer) : Res (TreeError E) (list (H256 * U256)) * CacheDiskLayer :=
  match candidates with
  | [] => (Ok [], cache)
  | slot :: rest =>
      sbind (h_storage d h cache (address, slot)) (fun value cache =>
      sbind (read_slots d h address rest cache) (fun slots cache =>
        (Ok (if decide (value = 0) then slots else (slot, value) :: slots), cache)))
  end.

Definition diff_slots (address : H256) (l : DiffLayer) : list H256 :=
  flat_map (fun sd => if decide (sd_address sd = address) then map iv_index (sd_diffs sd) else [])
    (bd_storage_diffs (dl_block_diff l)).

(** [HybridStateDB::storage_slots]; the candidates are a [BTreeSet]. *)
Definition h_storage_slots (d : D) (h : HybridStateDB) (cache : CacheDiskLayer) (address : H256)
    : Res (TreeError E) (option (list (H256 * U256))) * CacheDiskLayer :=
  match storage_slots d (hs_statedb h) address with
  | Ok None => (Ok None, cache)
  | Ok (Some disk) =>
      let candidates : gset H256 := list_to_set
        (map fst disk ++ flat_map (diff_slots address) (fv_layers (hs_flattened h))) in
      sbind (read_slots d h address (merge_sort Z.le (elements candidates)) cache)
        (fun slots cache => (Ok (Some slots), cache))
  | Err e => (Err (DBError e), cache)
  | Panic => (Panic, cache)
  end.

(** *** The block a handle is on: [BlockContext for HybridStateDB] *)

Definition h_block_info (d : D) (h : HybridStateDB) (cache : CacheDiskLayer)
    : Res (TreeError E) BlockInfo :=
  match head_layer (hs_flattened h) with
  | LDiff l => Ok (dl_block_info l)
  | LCacheDisk =>
      match cd_old_diff_layer cache with
      | Some last => Ok (dl_block_info last)
      | None => lift_db (block_info d (hs_statedb h))
      end
  | LEmpty => lift_db (block_info d (hs_statedb h))
  end.

Definition h_state_diff (d : D) (h : HybridStateDB) (cache : CacheDiskLayer)
    : Res (TreeError E) BlockStorageDiff :=
  match head_layer (hs_flattened h) with
  | LDiff l => Ok (dl_block_diff l)
  | LCacheDisk =>
      match cd_old_diff_layer cache with
      | Some last => Ok (dl_block_diff last)
      | None => lift_db (state_diff d (hs_statedb h))
      end
  | LEmpty => lift_db (state_diff d (hs_statedb h))
  end.

(** ** Committing layers *)

(** The write-through of one map of a layer. *)
Definition write_through {K V} `{Countable K} (block_num : u64) (m : gmap K V)
    (c : C K (u64 * V)) : C K (u64 * V) :=
  map_fold (fun k v c => qc_insert c k (block_num, v)) c m.

(** [CacheDiskLayer::commit]. *)
Definition commit (cache : CacheDiskLayer) (l : DiffLayer) (d : D) (s : S)
    : Res E unit * (CacheDiskLayer * D) :=
  let block_num := bi_number (dl_block_info l) in
  let '(bi, df) := storage_diff l in
  let linked :=
    match cd_old_diff_layer cache with
    | Some old =>
        bool_decide (bi_hash (dl_block_info old) = bi_parent_hash (dl_block_info l))
    | None => true
    end in
  if linked then
    match db_update_block d s bi df with
    | (Ok _, d') =>
        let cache := set_old_diff_layer (Some l) cache in
        let cache :=
          if cd_enabled cache then
            let cache := set_accounts (write_through block_num (dl_accounts l)
              (cd_accounts cache)) cache in
            let cache := set_storages (write_through block_num (dl_storage l)
              (cd_storages cache)) cache in
            let cache := set_contracts (write_through block_num (dl_contracts l)
              (cd_contracts cache)) cache in
            set_block_hashes (qc_insert (cd_block_hashes cache) block_num
              (block_num, bi_hash (dl_block_info l))) cache
          else cache in
        (Ok tt, (set_committed_height block_num cache, d'))
    | (Err e, d') => (Err e, (cache, d'))
    | (Panic, d') => (Panic, (cache, d'))
    end
  else (Panic, (cache, d)).

(** The first loop of [cap_diff_to_db]: the diff layers from [cur] down to
    the cache layer, newest first. Meeting an [Empty] layer panics. *)
Fixpoint collect_layers (fuel : nat) (cells : Cells) (cur : LinkedDiffLayer)
    : Res (TreeError E) (list DiffLayer) :=
  match cur with
  | LCacheDisk => Ok []
  | LEmpty => Panic
  | LDiff l =>
      match fuel, cells !! dl_next l with
      | Datatypes.S fuel', Some next =>
          match collect_layers fuel' cells next with
          | Ok ls => Ok (l :: ls)
          | r => r
          end
      | _, _ => Panic
      end
  end.

(** The second loop, on the layers oldest first: commit the oldest while more
    than [depth_limit] remain, and hang the one above it on the cache layer.
    Popping the last layer leaves nothing to relink, a panic. *)
Fixpoint cap_loop (ls : list DiffLayer) (depth_limit : nat) (s : S)
    (cells : Cells) (cache : CacheDiskLayer) (d : D) (bottom_num : u64)
    : Res (TreeError E) u64 * (Cells * CacheDiskLayer * D) :=
  match ls with
  | [] => (Ok bottom_num, (cells, cache, d))
  | l :: rest =>
      if decide (length ls <= depth_limit)%nat then (Ok bottom_num, (cells, cache, d))
      else
        match commit cache l d s with
        | (Ok _, (cache', d')) =>
            match rest with
            | above :: _ =>
                cap_loop rest depth_limit s (<[dl_next above := LCacheDisk]> cells)
                  cache' d' (bi_number (dl_block_info l))
            | [] => (Panic, (cells, cache', d'))
            end
        | (Err e, (cache', d')) => (Err (DBError e), (cells, cache', d'))
        | (Panic, (cache', d')) => (Panic, (cells, cache', d'))
        end
  end.

(** [LinkedDiffLayer::cap_diff_to_db]. *)
Definition cap_diff_to_db (cells : Cells) (cache : CacheDiskLayer) (d : D)
    (top : LinkedDiffLayer) (depth_limit : nat) (s : S)
    : Res (TreeError E) u64 * (Cells * CacheDiskLayer * D) :=
  match collect_layers (size cells) cells top with
  | Ok ls =>
      match cap_loop (rev ls) depth_limit s cells cache d 0 with
      | (Ok bottom, (cells', cache', d')) =>
          if decide (bottom = 0) then
            match h_block_info d' (mkHybrid (mkView [] LCacheDisk) s None) cache' with
            | Ok bi => (Ok (bi_number bi), (cells', cache', d'))
            | Err e => (Err e, (cells', cache', d'))
            | Panic => (Panic, (cells', cache', d'))
            end
          else (Ok bottom, (cells', cache', d'))
      | r => r
      end
  | Err e => (Err e, (cells, cache, d))
  | Panic => (Panic, (cells, cache, d))
  end.
End layers.

Arguments CacheDiskLayer {_} C.
Arguments HybridStateDB {_} S.
