(* ===== verification/LayersFacts.v ===== *)
(** * Reads through the layers answer the layered state

    The abstract state of a chain of layers is the fold of its blocks over the
    state below ([view_state]). Scalar reads, batched reads and slot listings
    through a [HybridStateDB] answer exactly that state, whatever the shared
    cache holds or has evicted, and keep the cache coherent. *)

From stdpp Require Import prelude gmap list sorting.
From S2P Require Import Prelude Types QuickCache Backend Layers.

#[local] Open Scope Z_scope.

(** ** The maps of a layer are its diff *)

Section new_layer.
Context `{RevmBytecode}.

Lemma fold_insert_map {K V A} `{Countable K} (f : A -> K) (g : A -> V) l (m : gmap K V) :
  fold_left (fun m a => <[f a := g a]> m) l m = insert_all (map (fun a => (f a, g a)) l) m.
Proof.
  unfold insert_all. revert m. induction l as [|a l IH]; intros m; cbn; [done|]. by rewrite IH.
Qed.

Lemma insert_all_app {K V} `{Countable K} (l1 l2 : list (K * V)) m :
  insert_all (l1 ++ l2) m = insert_all l2 (insert_all l1 m).
Proof. apply fold_left_app. Qed.

Lemma last_assoc_map {K V W} `{Countable K} (g : V -> W) (l : list (K * V)) k :
  last_assoc (map (fun p => (p.1, g p.2)) l) k = g <$> last_assoc l k.
Proof.
  induction l as [|[k' v] l IH]; cbn; [done|].
  rewrite IH. destruct (last_assoc l k); cbn; [done|]. by case_decide.
Qed.

Lemma new_layer_accounts bi df n a :
  dl_accounts (new_diff_layer bi df n) !! a =
    option_map account_info_of_new <$> last_assoc (account_writes df) a.
Proof.
  cbn. rewrite (fold_insert_map (fun a => a) (fun _ => None)).
  rewrite (fold_insert_map na_address (fun x => Some (account_info_of_new x))).
  rewrite <- insert_all_app, lookup_insert_all, lookup_empty.
  rewrite <- (last_assoc_map (option_map account_info_of_new)).
  unfold account_writes. rewrite map_app, !map_map. cbn.
  by destruct (last_assoc _ a).
Qed.

Lemma new_layer_storage bi df n k :
  dl_storage (new_diff_layer bi df n) !! k = last_assoc (storage_writes df) k.
Proof.
  cbn. unfold storage_writes.
  assert (Hf : forall l (m : gmap (H256 * H256) U256),
    fold_left (fun m sd => fold_left (fun m iv =>
      <[(sd_address sd, iv_index iv) := iv_value iv]> m) (sd_diffs sd) m) l m =
    insert_all (flat_map (fun a => map (fun iv => ((sd_address a, iv_index iv), iv_value iv))
      (sd_diffs a)) l) m).
  { induction l as [|sd l IH]; intros m; cbn [fold_left flat_map]; [done|].
    rewrite IH, insert_all_app. f_equal.
    apply (fold_insert_map (fun iv => (sd_address sd, iv_index iv)) iv_value). }
  rewrite Hf, lookup_insert_all, lookup_empty. by destruct (last_assoc _ k).
Qed.

Lemma new_layer_contracts bi df n h :
  dl_contracts (new_diff_layer bi df n) !! h = new_raw <$> last_assoc (code_writes df) h.
Proof.
  cbn. rewrite (fold_insert_map nc_code_hash (fun c => new_raw (nc_code c))).
  rewrite lookup_insert_all, lookup_empty. unfold code_writes.
  rewrite <- last_assoc_map, map_map. cbn. by destruct (last_assoc _ h).
Qed.

(** A layer made by [DiffLayer::new]. *)
Definition layer_ok (l : DiffLayer) : Prop :=
  l = new_diff_layer (dl_block_info l) (dl_block_diff l) (dl_next l).

Lemma layer_ok_new bi df n : layer_ok (new_diff_layer bi df n).
Proof. done. Qed.

(** ** The state of a chain of layers *)

Definition overlay_layer (l : DiffLayer) (s : AState) : AState :=
  overlay_block (dl_block_info l) (dl_block_diff l) s.

Definition view_state (ls : list DiffLayer) (base : AState) : AState :=
  fold_right overlay_layer base ls.

#[export] Instance overlay_layer_proper l : Proper ((≡) ==> (≡)) (overlay_layer l).
Proof. unfold overlay_layer. apply _. Qed.

#[export] Instance view_state_proper ls : Proper ((≡) ==> (≡)) (view_state ls).
Proof. intros s t Hst. induction ls as [|l ls IH]; cbn; [done | by rewrite IH]. Qed.

Lemma view_state_app l1 l2 s : view_state (l1 ++ l2) s = view_state l1 (view_state l2 s).
Proof. apply foldr_app. Qed.

Lemma diff_walk_account ls base a :
  Forall layer_ok ls ->
  default (as_account base a) (diff_walk lookup_account ls a) =
    as_account (view_state ls base) a.
Proof.
  induction 1 as [|l ls Hl _ IH]; cbn; [done|].
  unfold lookup_account at 1. rewrite Hl, new_layer_accounts. cbn.
  by destruct (last_assoc _ a).
Qed.

Lemma diff_walk_storage ls base k :
  Forall layer_ok ls ->
  default (as_storage base k.1 k.2) (diff_walk lookup_storage ls k) =
    as_storage (view_state ls base) k.1 k.2.
Proof.
  induction 1 as [|l ls Hl _ IH]; cbn; [done|].
  unfold lookup_storage at 1. rewrite Hl, new_layer_storage. destruct k as [a i]. cbn in *.
  by destruct (last_assoc _ (a, i)).
Qed.

Lemma diff_walk_code ls base h :
  Forall layer_ok ls ->
  default (as_code base h) (diff_walk lookup_contract ls h) = as_code (view_state ls base) h.
Proof.
  induction 1 as [|l ls Hl _ IH]; cbn; [done|].
  unfold lookup_contract at 1. rewrite Hl, new_layer_contracts. cbn.
  by destruct (last_assoc _ h).
Qed.

Lemma diff_walk_hash ls base n :
  default (as_hash base n) (diff_walk lookup_block_hash ls n) = as_hash (view_state ls base) n.
Proof.
  induction ls as [|l ls IH]; cbn; [done|].
  unfold lookup_block_hash at 1. repeat case_decide; try congruence; done.
Qed.
End new_layer.

(** ** Generic layered reads *)

Section generic_reads.
Context `{RevmBytecode}.
Context {C : Type -> Type -> Type} `{QuickCacheOk C}.
Context {D S E : Type} `{!StateDBProvider D S E}.
Context {K V : Type} `{Countable K}.

(** One read path: the lookup in a layer, the field of the cache layer, and
    the fetch, which answers [f] on the keys of [P]. *)
Context (lookup : DiffLayer -> K -> option V).
Context (get : CacheDiskLayer C -> C K (u64 * V)).
Context (set : C K (u64 * V) -> CacheDiskLayer C -> CacheDiskLayer C).
Context (fetch : K -> Res E V) (P : K -> Prop) (f : K -> V).
Hypothesis get_set : forall c l, get (set c l) = c.
Hypothesis fetch_ok : forall k, P k -> fetch k = Ok (f k).

Definition coherent (cache : CacheDiskLayer C) : Prop :=
  cache_all (fun k e => P k -> e.2 = f k) (get cache).

(** The answer the layers and the base give. *)
Definition answer (h : HybridStateDB S) (k : K) : V :=
  default (f k) (diff_walk lookup (fv_layers (hs_flattened h)) k).

Lemma read_layered_ok h cache k :
  P k -> (reads_cache h cache = true -> coherent cache) ->
  exists cache',
    read_layered lookup get set fetch h cache k = (Ok (answer h k), cache') /\
    (cache' = cache \/ exists t, cache' = set (refill (get cache) k t (f k)) cache).
Proof.
  intros Hk Hc. unfold read_layered, answer, reads_cache in *.
  destruct (diff_walk _ _ k) as [v|]; cbn; [by eauto|]. rewrite fetch_ok by done.
  destruct (fv_terminal _); cbn; eauto. destruct (cd_enabled cache); cbn; eauto.
  destruct (qc_get (get cache) k) as [[t v]|] eqn:Hg.
  - apply Hc in Hg; [|done]. cbn in Hg. rewrite Hg by done. by eauto.
  - destruct (hs_cache_view_height h); eauto.
Qed.

Lemma coherent_refill cache k t :
  coherent cache -> coherent (set (refill (get cache) k t (f k)) cache).
Proof. intros Hc. unfold coherent. rewrite get_set. by apply cache_all_refill. Qed.

(** *** The batched read *)

Section resolve.
Context (resolved : K -> option V).

(** What the first loop has established about the positions before [n]. *)
Record resolve_inv (ks : list K) (out : list (option V)) (unresolved : list K)
    (slots : gmap K (list nat)) : Prop := {
  ri_hit i k v : ks !! i = Some k -> resolved k = Some v -> out !! i = Some (Some v);
  ri_miss i k : ks !! i = Some k -> resolved k = None ->
    k ∈ unresolved /\ i ∈ default [] (slots !! k);
  ri_slot k i : i ∈ default [] (slots !! k) -> ks !! i = Some k /\ resolved k = None;
  ri_unresolved k : k ∈ unresolved -> k ∈ ks;
  ri_pending k : is_Some (slots !! k) -> k ∈ unresolved;
}.

Lemma resolve_inv_nil out : resolve_inv [] out [] ∅.
Proof.
  split; try (intros *; by rewrite ?lookup_nil); try done.
  - intros k i Hi. rewrite lookup_empty in Hi. by apply elem_of_nil in Hi.
  - intros k [? Hk]. by rewrite lookup_empty in Hk.
Qed.

Lemma resolve_inv_hit ks out unresolved slots k v :
  (length ks < length out)%nat -> resolved k = Some v ->
  resolve_inv ks out unresolved slots ->
  resolve_inv (ks ++ [k]) (<[length ks := Some v]> out) unresolved slots.
Proof.
  intros Hlen Hv [Hh Hm Hs Hu Hp]. split.
  - intros i k' w [[Hlt Hi]|[-> ->]]%lookup_snoc_Some Hw.
    + rewrite list_lookup_insert_ne by lia. eauto.
    + rewrite list_lookup_insert_eq by lia. congruence.
  - intros i k' [[Hlt Hi]|[-> ->]]%lookup_snoc_Some Hw; [naive_solver | congruence].
  - intros k' i [Hi ?]%Hs. split; [|done]. apply lookup_app_l_Some, Hi.
  - set_solver.
  - done.
Qed.

Lemma resolve_inv_miss ks out unresolved slots k :
  (length ks < length out)%nat -> resolved k = None ->
  resolve_inv ks out unresolved slots ->
  resolve_inv (ks ++ [k]) out
    (match slots !! k with Some _ => unresolved | None => unresolved ++ [k] end)
    (<[k := default [] (slots !! k) ++ [length ks]]> slots).
Proof.
  intros Hlen Hv [Hh Hm Hs Hu Hp]. split.
  - intros i k' w [[Hlt Hi]|[-> ->]]%lookup_snoc_Some Hw; [eauto | congruence].
  - intros i k' [[Hlt Hi]|[-> ->]]%lookup_snoc_Some Hw.
    + destruct (Hm _ _ Hi Hw) as [Hin Hpos]. split; [case_match; set_solver|].
      rewrite lookup_insert. case_decide; subst; cbn; set_solver.
    + rewrite lookup_insert_eq. cbn. split; [|set_solver].
      destruct (slots !! k') as [ps|] eqn:Hps; [|set_solver].
      apply Hp. by eexists.
  - intros k' i. rewrite lookup_insert. case_decide as Hk; subst; cbn.
    + rewrite elem_of_app, list_elem_of_singleton. intros [Hi| ->].
      * destruct (Hs _ _ Hi). split; [|done]. by apply lookup_app_l_Some.
      * split; [|done]. rewrite lookup_app_r, Nat.sub_diag by lia. done.
    + intros [Hi ?]%Hs. split; [|done]. by apply lookup_app_l_Some.
  - intros k'. case_match; set_solver.
  - intros k'. rewrite lookup_insert. case_decide as Hk; subst.
    + intros _. destruct (slots !! k') eqn:Hk'; [apply Hp; by eexists | set_solver].
    + intros Hk'%Hp. case_match; set_solver.
Qed.

Lemma resolve_keys_inv keys ks out unresolved slots :
  (length ks + length keys)%nat = length out ->
  resolve_inv ks out unresolved slots ->
  let '(out', unresolved', slots') :=
    resolve_keys resolved (length ks) keys out unresolved slots in
  resolve_inv (ks ++ keys) out' unresolved' slots' /\ length out' = length out.
Proof.
  revert ks out unresolved slots. induction keys as [|k keys IH]; intros ks out un sl Hlen Hi.
  - cbn. by rewrite app_nil_r.
  - cbn [length] in Hlen. cbn [resolve_keys].
    assert (Hsnoc : Datatypes.S (length ks) = length (ks ++ [k])) by (rewrite length_app; cbn; lia).
    replace (ks ++ k :: keys) with ((ks ++ [k]) ++ keys) by (by rewrite <- app_assoc).
    destruct (resolved k) as [v|] eqn:Hk.
    + rewrite Hsnoc. rewrite <- (length_insert out (length ks) (Some v)).
      apply IH; [rewrite length_app, length_insert; cbn; lia|].
      apply resolve_inv_hit; [lia | done | done].
    + pose proof (resolve_inv_miss ks out un sl k ltac:(lia) Hk Hi) as Hi'.
      destruct (sl !! k) as [ps|] eqn:Hps; cbn in Hi'; rewrite Hsnoc;
        (apply IH; [rewrite length_app; cbn; lia | done]).
Qed.
End resolve.

(** A slot receives [f] of the key that waits at it, and nothing else
    changes. *)
Lemma fold_set_lookup (v : V) ps (out : list (option V)) i :
  (forall p, p ∈ ps -> (p < length out)%nat) ->
  fold_left (fun out pos => <[pos := Some v]> out) ps out !! i =
    if decide (i ∈ ps) then Some (Some v) else out !! i.
Proof.
  revert out. induction ps as [|p ps IH]; intros out Hlt; cbn [fold_left].
  - rewrite decide_False by set_solver. done.
  - rewrite IH by (intros q Hq; rewrite length_insert; apply Hlt; set_solver).
    destruct (decide (i ∈ ps)); [rewrite decide_True by set_solver; done|].
    destruct (decide (i = p)) as [->|Hne].
    + rewrite decide_True by set_solver. apply list_lookup_insert_eq, Hlt. set_solver.
    + rewrite decide_False by set_solver. by apply list_lookup_insert_ne.
Qed.

Lemma fold_set_length (v : V) ps (out : list (option V)) :
  length (fold_left (fun out pos => <[pos := Some v]> out) ps out) = length out.
Proof. revert out. induction ps as [|p ps IH]; intros out; cbn; [done|]. by rewrite IH, length_insert. Qed.

Lemma distribute_lookup fill slots ks out (cache : CacheDiskLayer C) :
  (forall k p, p ∈ default [] (slots !! k) -> (p < length out)%nat) ->
  (forall k k' p, p ∈ default [] (slots !! k) -> p ∈ default [] (slots !! k') -> k = k') ->
  let out' := (distribute fill slots (map (fun k => (k, f k)) ks) out cache).1 in
  length out' = length out /\
  (forall i k, k ∈ ks -> i ∈ default [] (slots !! k) -> out' !! i = Some (Some (f k))) /\
  (forall i, (forall k, k ∈ ks -> i ∉ default [] (slots !! k)) -> out' !! i = out !! i).
Proof.
  intros Hlt Huniq. revert out cache Hlt.
  induction ks as [|k ks IH]; intros out cache Hlt; cbn [map distribute]; [set_solver|].
  set (out1 := fold_left _ _ out).
  assert (Hlen1 : length out1 = length out) by apply fold_set_length.
  destruct (IH out1 (fill k (f k) cache)) as (Hlen & Hin & Hout); [by rewrite Hlen1|].
  assert (Hout1 : forall i, out1 !! i =
    if decide (i ∈ default [] (slots !! k)) then Some (Some (f k)) else out !! i)
    by (intros i; apply fold_set_lookup; eauto).
  split; [congruence|]. split.
  - intros i k' [->|Hk']%elem_of_cons Hi; [|by apply Hin].
    destruct (decide (k ∈ ks)); [by apply Hin|].
    rewrite Hout, Hout1, decide_True by (try done; intros k2 Hk2 Hi2;
      rewrite (Huniq k k2 i) in * by done; done). done.
  - intros i Hno. rewrite Hout, Hout1, decide_False by set_solver. done.
Qed.

Lemma mapM_fetch ks : Forall P ks -> mapM fetch ks = Ok (map f ks).
Proof. induction 1 as [|k ks Hk _ IH]; cbn; [done|]. rewrite fetch_ok by done. cbn. by rewrite IH. Qed.

Lemma zip_map_r ks : zip ks (map f ks) = map (fun k => (k, f k)) ks.
Proof. induction ks; cbn; congruence. Qed.

Lemma unwrap_all_Some (vs : list V) : unwrap_all (E := E) (map Some vs) = Ok vs.
Proof. unfold unwrap_all. induction vs as [|v vs IH]; cbn; [done|]. by rewrite IH. Qed.

Lemma distribute_cache fill (slots : gmap K (list nat)) (kvs : list (K * V)) out (cache : CacheDiskLayer C) :
  (distribute fill slots kvs out cache).2 = fold_left (fun c '(k, v) => fill k v c) kvs cache.
Proof. revert out cache. induction kvs as [|[k v] kvs IH]; intros; cbn; [done|]. by rewrite IH. Qed.

(** What a batch leaves in the cache: the refills of the fetched keys. *)
Inductive refills (h : HybridStateDB S) (cache : CacheDiskLayer C) : CacheDiskLayer C -> Prop :=
| refills_none : refills h cache cache
| refills_one cache' k t : refills h cache cache' -> P k ->
    refills h cache (set (refill (get cache') k t (f k)) cache').

(** A batched read answers each key as the scalar read does, in order. *)
Lemma read_many_layered_ok fetch_many h (cache : CacheDiskLayer C) keys :
  (forall l, fetch_many l = mapM fetch l) ->
  Forall P keys -> (reads_cache h cache = true -> coherent cache) ->
  exists cache',
    read_many_layered lookup get set fetch_many h cache keys =
      (Ok (map (answer h) keys), cache') /\ refills h cache cache'.
Proof.
  intros Hmany HP Hc. unfold read_many_layered.
  set (resolved := resolve_one lookup get h cache).
  assert (Hres : forall k v, P k -> resolved k = Some v -> v = answer h k).
  { intros k v Hk. unfold resolved, resolve_one, answer. destruct (diff_walk _ _ k); cbn; [congruence|].
    destruct (reads_cache h cache); [|done].
    destruct (qc_get (get cache) k) as [[t w]|] eqn:Hg; cbn; [|done].
    intros [= <-]. exact (Hc eq_refl _ _ Hg Hk). }
  assert (Hans : forall k, resolved k = None -> answer h k = f k).
  { intros k. unfold resolved, resolve_one, answer. by destruct (diff_walk _ _ k). }
  pose proof (resolve_keys_inv resolved keys [] (replicate (length keys) None) [] ∅) as Hinv.
  cbn [length app] in Hinv.
  destruct (resolve_keys _ _ _ _ _ _) as [[out un] sl].
  destruct Hinv as [[Hhit Hmiss Hslot Hun _] Hlen].
  { by rewrite length_replicate. }
  { apply resolve_inv_nil. }
  rewrite length_replicate in Hlen.
  assert (HPun : Forall P un).
  { apply Forall_forall. intros k Hk%Hun. by eapply Forall_forall in HP. }
  assert (Hfin : forall out', length out' = length keys ->
    (forall i k, keys !! i = Some k -> out' !! i = Some (Some (answer h k))) ->
    unwrap_all (E := E) out' = Ok (map (answer h) keys)).
  { intros out' Hl Ho. rewrite <- unwrap_all_Some. f_equal. apply list_eq. intros i.
    rewrite map_map, list_lookup_fmap. destruct (keys !! i) as [k|] eqn:Hk; cbn.
    - by apply Ho.
    - apply lookup_ge_None. apply lookup_ge_None in Hk. lia. }
  assert (Hhit' : forall i k, keys !! i = Some k -> resolved k <> None ->
    out !! i = Some (Some (answer h k))).
  { intros i k Hi Hk. destruct (resolved k) as [v|] eqn:Hv; [|done].
    rewrite (Hhit _ _ _ Hi Hv), (Hres k v); [done | | done].
    eapply Forall_lookup in HP; eauto. }
  destruct un as [|u us] eqn:Eun.
  - exists cache. split; [|constructor]. rewrite Hfin; [done | done |].
    intros i k Hi. apply Hhit'; [done|]. intros Hk. destruct (Hmiss _ _ Hi Hk) as [Hn _]. by apply elem_of_nil in Hn.
  - rewrite <- Eun in *. clear Eun. rewrite Hmany, mapM_fetch by done. rewrite zip_map_r.
    set (fill := fill_one get set (reads_cache h cache) h).
    pose proof (distribute_lookup fill sl un out cache) as Hd. cbn in Hd.
    pose proof (distribute_cache fill sl (map (fun k => (k, f k)) un) out cache) as Hdc.
    destruct (distribute _ _ _ _ _) as [out' cache']. cbn in Hd, Hdc.
    destruct Hd as (Hl & Hset & Hkeep).
    { intros k p [Hp _]%Hslot. apply lookup_lt_Some in Hp. lia. }
    { intros k k' p [Hp _]%Hslot [Hp' _]%Hslot. congruence. }
    exists cache'. split.
    + rewrite Hfin; [done | congruence |]. intros i k Hi.
      destruct (resolved k) as [v|] eqn:Hv.
      * rewrite Hkeep; [apply Hhit'; [done | congruence]|].
        intros k' _ [? ?]%Hslot. congruence.
      * destruct (Hmiss _ _ Hi Hv) as [Hku Hki]. rewrite (Hset _ _ Hku Hki), Hans; done.
    + rewrite Hdc. clear -HPun. generalize (refills_none h cache).
      generalize cache at 2 4 as c. induction HPun as [|k ks Hk _ IH]; intros c Hc; cbn; [done|].
      apply IH. unfold fill, fill_one. destruct (reads_cache h cache); [|done].
      destruct (hs_cache_view_height h); [by constructor | done].
Qed.

Lemma coherent_refills h cache cache' :
  refills h cache cache' -> coherent cache -> coherent cache'.
Proof. induction 1; intros Hc; [done|]. by apply coherent_refill, IHrefills. Qed.
End generic_reads.

(** ** The reads of a handle *)

Section reads.
Context `{RevmBytecode}.
Context {C : Type -> Type -> Type} `{QuickCacheOk C}.
Context {D S E : Type} `{!StateDBProvider D S E} `{!BackendSpec D S} `{!BackendOk D S E}.

Definition slot_key_ok (k : H256 * H256) : Prop := is_u256 k.1 /\ is_u256 k.2.
Definition slot_value (B : AState) (k : H256 * H256) : U256 := as_storage B k.1 k.2.

(** Every cached entry is the value of the state [B]. *)
Record cache_coherent (cache : CacheDiskLayer C) (B : AState) : Prop := {
  cc_accounts : coherent cd_accounts is_u256 (as_account B) cache;
  cc_storages : coherent cd_storages slot_key_ok (slot_value B) cache;
  cc_contracts : coherent cd_contracts is_u256 (as_code B) cache;
  cc_hashes : coherent cd_block_hashes is_u64 (as_hash B) cache;
}.

Lemma cache_coherent_new a s c n e B : cache_coherent (new_cache_layer a s c n e) B.
Proof. by destruct e; split; apply cache_all_with. Qed.

Lemma coherent_equiv_iff {K V} `{EqDecision K} (get : CacheDiskLayer C -> C K (u64 * V))
    (P : K -> Prop) (f g : K -> V) cache :
  (forall k, f k = g k) -> coherent get P f cache -> coherent get P g cache.
Proof. intros Hfg Hc k e Hg HP. rewrite <- Hfg. by apply Hc. Qed.

#[export] Instance cache_coherent_proper cache :
  Proper ((≡) ==> iff) (cache_coherent cache).
Proof.
  intros s t Hst. destruct Hst. split; intros []; split;
    (eapply coherent_equiv_iff; [|eassumption]; intros; cbn; unfold slot_value; auto).
Qed.

(** The parts of the cache layer no read changes. *)
Definition same_meta (c c' : CacheDiskLayer C) : Prop :=
  cd_old_diff_layer c' = cd_old_diff_layer c /\
  cd_committed_height c' = cd_committed_height c /\ cd_enabled c' = cd_enabled c.

(** A handle that can be read: its layers were built from diffs, and the
    database and the cache below them show one state [B]. *)
Record readable (d : D) (h : HybridStateDB S) (cache : CacheDiskLayer C) (B : AState) : Prop := {
  rd_healthy : healthy d;
  rd_usable : usable d (hs_statedb h);
  rd_layers : Forall layer_ok (fv_layers (hs_flattened h));
  rd_view : view d (hs_statedb h) ≡ B;
  rd_cache : reads_cache h cache = true -> cache_coherent cache B;
}.

(** The outcome of a read: the right value, and the cache as good as before. *)
Definition reads_as {V} (r : Res (TreeError E) V * CacheDiskLayer C) (v : V)
    (h : HybridStateDB S) (cache : CacheDiskLayer C) (B : AState) : Prop :=
  exists cache', r = (Ok v, cache') /\ same_meta cache cache' /\
    (reads_cache h cache' = true -> cache_coherent cache' B).

Lemma reads_cache_meta (h : HybridStateDB S) cache cache' :
  same_meta cache cache' -> reads_cache h cache' = reads_cache h cache.
Proof. intros (_ & _ & E'). unfold reads_cache. by rewrite E'. Qed.

(** A read path of the cache layer: refilling its field with the value of
    [B] keeps the whole layer coherent. *)
Record read_path {K V} `{Countable K} (get : CacheDiskLayer C -> C K (u64 * V))
    (set : C K (u64 * V) -> CacheDiskLayer C -> CacheDiskLayer C)
    (P : K -> Prop) (f : K -> V) (B : AState) : Prop := {
  rp_coherent c : cache_coherent c B -> coherent get P f c;
  rp_refill c k t : cache_coherent c B -> cache_coherent (set (refill (get c) k t (f k)) c) B;
  rp_meta c x : same_meta c (set x c);
  rp_get_set x c : get (set x c) = x;
}.

Lemma account_path B : read_path cd_accounts set_accounts is_u256 (as_account B) B.
Proof. split; [by intros c []|intros c k t []; split; try done; by apply coherent_refill|done|done]. Qed.
Lemma storage_path B : read_path cd_storages set_storages slot_key_ok (slot_value B) B.
Proof. split; [by intros c []|intros c k t []; split; try done; by apply coherent_refill|done|done]. Qed.
Lemma code_path B : read_path cd_contracts set_contracts is_u256 (as_code B) B.
Proof. split; [by intros c []|intros c k t []; split; try done; by apply coherent_refill|done|done]. Qed.
Lemma hash_path B : read_path cd_block_hashes set_block_hashes is_u64 (as_hash B) B.
Proof. split; [by intros c []|intros c k t []; split; try done; by apply coherent_refill|done|done]. Qed.

Section path.
Context {K V : Type} `{Countable K}.
Context (lookup : DiffLayer -> K -> option V) (get : CacheDiskLayer C -> C K (u64 * V)).
Context (set : C K (u64 * V) -> CacheDiskLayer C -> CacheDiskLayer C).
Context (fetch : K -> Res E V) (P : K -> Prop) (f : K -> V) (B : AState).
Hypothesis path : read_path get set P f B.
Hypothesis fetch_ok : forall k, P k -> fetch k = Ok (f k).

Lemma read_layered_reads_as h cache k :
  (reads_cache h cache = true -> cache_coherent cache B) -> P k ->
  reads_as (read_layered lookup get set fetch h cache k) (answer lookup f h k) h cache B.
Proof.
  intros Hc Hk. destruct path as [Pc Pr Pm Pg].
  destruct (read_layered_ok lookup get set fetch P f fetch_ok h cache k Hk)
    as (cache' & -> & [->|[t ->]]); [by eauto| |].
  - exists cache. done.
  - eexists. split; [done|]. split; [done|].
    rewrite (reads_cache_meta h cache) by done. eauto.
Qed.

Lemma read_many_reads_as fetch_many h cache keys :
  (forall l, fetch_many l = mapM fetch l) ->
  (reads_cache h cache = true -> cache_coherent cache B) -> Forall P keys ->
  reads_as (read_many_layered lookup get set fetch_many h cache keys)
    (map (answer lookup f h) keys) h cache B.
Proof.
  intros Hm Hc Hk. destruct path as [Pc Pr Pm Pg].
  destruct (read_many_layered_ok lookup get set fetch P f Pg fetch_ok fetch_many h cache keys Hm Hk)
    as (cache' & -> & Hw); [by eauto|].
  exists cache'. split; [done|].
  cut (same_meta cache cache' /\ (reads_cache h cache = true -> cache_coherent cache' B)).
  { intros [Hs Hc']. split; [done|]. by rewrite (reads_cache_meta h cache). }
  induction Hw as [|c k t _ [IHm IHc] _]; [done|]. split; [|eauto].
  destruct IHm as (?&?&?), (Pm c (refill (get c) k t (f k))) as (?&?&?). split_and!; congruence.
Qed.
End path.

Lemma map_answer {K V} (lookup : DiffLayer -> K -> option V) (f g : K -> V)
    (h : HybridStateDB S) keys :
  (forall k, answer lookup f h k = g k) -> map (answer lookup f h) keys = map g keys.
Proof. intros Hg. by apply map_ext. Qed.

Section handle.
Context (d : D) (h : HybridStateDB S) (cache : CacheDiskLayer C) (B : AState).
Hypothesis Hr : readable d h cache B.

(** The state the handle stands for. *)
Definition handle_state : AState := view_state (fv_layers (hs_flattened h)) B.

Lemma h_basic_ok a :
  is_u256 a -> reads_as (h_basic d h cache a) (as_account handle_state a) h cache B.
Proof.
  destruct Hr as [Hh Hus Hl Hv Hc]. intros Ha. unfold handle_state.
  rewrite <- diff_walk_account by done.
  eapply read_layered_reads_as; [apply account_path | | done | done].
  intros k Hk. rewrite ok_basic by done. f_equal. apply Hv.
Qed.

Lemma h_storage_ok a i :
  is_u256 a -> is_u256 i ->
  reads_as (h_storage d h cache (a, i)) (as_storage handle_state a i) h cache B.
Proof.
  destruct Hr as [Hh Hus Hl Hv Hc]. intros Ha Hi. unfold handle_state.
  rewrite <- (diff_walk_storage _ B (a, i)) by done.
  apply (read_layered_reads_as lookup_storage cd_storages set_storages _
    slot_key_ok (slot_value B) B); [apply storage_path | | done | done].
  intros [x y] [Hx Hy]. rewrite ok_storage by done. f_equal. apply Hv.
Qed.

Lemma h_code_ok x :
  is_u256 x -> reads_as (h_code_by_hash d h cache x) (as_code handle_state x) h cache B.
Proof.
  destruct Hr as [Hh Hus Hl Hv Hc]. intros Ha. unfold handle_state.
  rewrite <- diff_walk_code by done.
  eapply read_layered_reads_as; [apply code_path | | done | done].
  intros k Hk. rewrite ok_code by done. f_equal. apply Hv.
Qed.

Lemma h_block_hash_ok n :
  is_u64 n -> reads_as (h_block_hash d h cache n) (as_hash handle_state n) h cache B.
Proof.
  destruct Hr as [Hh Hus Hl Hv Hc]. intros Ha. unfold handle_state.
  rewrite <- diff_walk_hash.
  eapply read_layered_reads_as; [apply hash_path | | done | done].
  intros k Hk. rewrite ok_hash by done. f_equal. apply Hv.
Qed.

Lemma h_basic_many_ok l :
  Forall is_u256 l ->
  reads_as (h_basic_many d h cache l) (map (as_account handle_state) l) h cache B.
Proof.
  destruct Hr as [Hh Hus Hl Hv Hc]. intros Ha.
  erewrite <- map_answer; [|intros k; by apply diff_walk_account].
  eapply (read_many_reads_as _ _ _ (basic d (hs_statedb h)));
    [apply account_path | | intros l0; by apply ok_basic_many | done | done].
  intros k Hk. rewrite ok_basic by done. f_equal. apply Hv.
Qed.

Lemma h_storage_many_ok l :
  Forall slot_key_ok l ->
  reads_as (h_storage_many d h cache l) (map (slot_value handle_state) l) h cache B.
Proof.
  destruct Hr as [Hh Hus Hl Hv Hc]. intros Ha.
  erewrite <- map_answer; [|intros k; by apply diff_walk_storage].
  eapply (read_many_reads_as _ _ _ (storage d (hs_statedb h)));
    [apply storage_path | | intros l0; by apply ok_storage_many | done | done].
  intros [x y] [Hx Hy]. rewrite ok_storage by done. f_equal. apply Hv.
Qed.

Lemma h_code_many_ok l :
  Forall is_u256 l ->
  reads_as (h_code_by_hash_many d h cache l) (map (as_code handle_state) l) h cache B.
Proof.
  destruct Hr as [Hh Hus Hl Hv Hc]. intros Ha.
  erewrite <- map_answer; [|intros k; by apply diff_walk_code].
  eapply (read_many_reads_as _ _ _ (code_by_hash d (hs_statedb h)));
    [apply code_path | | intros l0; by apply ok_code_many | done | done].
  intros k Hk. rewrite ok_code by done. f_equal. apply Hv.
Qed.
End handle.

Lemma readable_next d h cache cache' B :
  readable d h cache B -> (reads_cache h cache' = true -> cache_coherent cache' B) ->
  readable d h cache' B.
Proof. intros []. by split. Qed.

Lemma same_meta_trans c1 c2 c3 : same_meta c1 c2 -> same_meta c2 c3 -> same_meta c1 c3.
Proof. intros (?&?&?) (?&?&?). split_and!; congruence. Qed.

(** The non-zero slots among the candidates, with their values. *)
Definition nonzero_slots (st : AState) (a : H256) (l : list H256) : list (H256 * U256) :=
  map (fun i => (i, as_storage st a i)) (filter (fun i => as_storage st a i <> 0) l).

Lemma read_slots_ok d h B a l cache :
  readable d h cache B -> is_u256 a -> Forall is_u256 l ->
  reads_as (read_slots d h a l cache) (nonzero_slots (handle_state h B) a l) h cache B.
Proof.
  intros Hr Ha Hl. revert cache Hr.
  induction Hl as [|i l Hi _ IH]; intros cache Hr.
  - exists cache. destruct Hr. done.
  - destruct (h_storage_ok d h cache B Hr a i Ha Hi) as (c1 & E1 & M1 & C1).
    destruct (IH c1 (readable_next _ _ _ _ _ Hr C1)) as (c2 & E2 & M2 & C2).
    exists c2. cbn [read_slots]. rewrite E1. cbn. rewrite E2. cbn.
    split; [|eauto using same_meta_trans]. f_equal. f_equal. unfold nonzero_slots.
    repeat case_decide; done.
Qed.

Lemma diff_walk_in_slots ls a i v :
  Forall layer_ok ls -> diff_walk lookup_storage ls (a, i) = Some v ->
  i ∈ flat_map (diff_slots a) ls.
Proof.
  induction 1 as [|l ls Hl _ IH]; cbn; [done|].
  destruct (lookup_storage l (a, i)) as [w|] eqn:E'; intros Hv; apply elem_of_app; [left|right; auto].
  unfold lookup_storage in E'. rewrite Hl, new_layer_storage in E'.
  apply last_assoc_in in E'. unfold storage_writes in E'.
  apply list_elem_of_In, in_flat_map in E' as (sd & Hsd & Hin).
  apply in_map_iff in Hin as (iv & [= Ha Hiv Hw] & Hin).
  unfold diff_slots. apply list_elem_of_In, in_flat_map. exists sd. split; [done|].
  rewrite decide_True by done. apply in_map_iff. eauto.
Qed.

(** Every slot index of the diffs is a 256-bit word. *)
Definition slots_in_range (l : DiffLayer) : Prop :=
  forall a i, i ∈ diff_slots a l -> is_u256 i.

Lemma h_storage_slots_ok d h cache B a disk :
  readable d h cache B -> is_u256 a -> Forall slots_in_range (fv_layers (hs_flattened h)) ->
  storage_slots d (hs_statedb h) a = Ok (Some disk) ->
  exists slots,
    reads_as (h_storage_slots d h cache a) (Some slots) h cache B /\
    StronglySorted Z.lt slots.*1 /\
    forall i v, (i, v) ∈ slots <->
      is_u256 i /\ v = as_storage (handle_state h B) a i /\ v <> 0.
Proof.
  intros Hr Ha Hrange Hdisk. pose proof Hr as [Hh Hus Hl Hv _].
  pose proof (ok_slots d (hs_statedb h) a disk Hh Hus Ha Hdisk) as Hin.
  unfold h_storage_slots. rewrite Hdisk. cbn.
  set (cs := list_to_set _ : gset Z). set (l := merge_sort Z.le (elements cs)).
  assert (Hperm : l ≡ₚ elements cs) by apply merge_sort_Permutation.
  assert (Hmem : forall i, i ∈ l <->
    i ∈ disk.*1 \/ i ∈ flat_map (diff_slots a) (fv_layers (hs_flattened h))).
  { intros i. rewrite Hperm, elem_of_elements. unfold cs.
    rewrite elem_of_list_to_set, elem_of_app. done. }
  assert (Hu : Forall is_u256 l).
  { apply Forall_forall. intros i [Hi|Hi]%Hmem; [by apply Hin|].
    apply list_elem_of_In, in_flat_map in Hi as (x & Hx & Hi). apply list_elem_of_In in Hx, Hi.
    eapply Forall_forall in Hrange; [|done]. by eapply Hrange. }
  exists (nonzero_slots (handle_state h B) a l). split_and!.
  - destruct (read_slots_ok d h B a l cache Hr Ha Hu) as (c' & -> & ?). by exists c'.
  - unfold nonzero_slots. rewrite map_map. cbn. rewrite map_id.
    assert (Hs : StronglySorted Z.lt l).
    { assert (Hle : StronglySorted Z.le l) by (apply StronglySorted_merge_sort; apply _).
      assert (Hnd : NoDup l) by (rewrite Hperm; apply NoDup_elements).
      clear -Hle Hnd. induction Hle as [|x l _ IH Hx]; [constructor|].
      apply NoDup_cons in Hnd as [Hn Hnd]. constructor; [auto|].
      rewrite Forall_forall in *. intros y Hy. specialize (Hx y Hy).
      assert (x <> y) by (intros ->; done). lia. }
    clear -Hs. induction Hs as [|x l _ IH Hx]; [constructor|].
    rewrite filter_cons. case_decide; [|done]. constructor; [done|].
    rewrite Forall_forall in *. intros y [_ Hy]%list_elem_of_filter. eauto.
  - intros i v. unfold nonzero_slots. rewrite list_elem_of_In, in_map_iff. split.
    + intros (j & [= <- <-] & Hj). apply list_elem_of_In, list_elem_of_filter in Hj as [Hnz Hj].
      split; [by eapply Forall_forall in Hu | done].
    + intros (Hi & -> & Hnz). exists i. split; [done|]. apply list_elem_of_In, list_elem_of_filter.
      split; [done|]. apply Hmem. unfold handle_state in Hnz.
      rewrite <- (diff_walk_storage _ B (a, i)) in Hnz by done.
      destruct (diff_walk _ _ (a, i)) eqn:E'; cbn in Hnz; [right; by eapply diff_walk_in_slots|left].
      apply Hin. split; [done|]. destruct Hv as [_ Hst _ _ _]. by rewrite Hst.
Qed.
End reads.
