(* ===== verification/CommitFacts.v ===== *)
(** * Committing layers: the cache, the database and the chain

    What [CacheDiskLayer::commit] and [LinkedDiffLayer::cap_diff_to_db]
    (crates/leafage-evm-storage/src/state_tree/layer.rs) do to the state below
    the layers: the database moves to the committed block, the write-through
    keeps the cache coherent with it, and a committed layer that a view still
    holds is absorbed by the new state below it. *)

From stdpp Require Import prelude gmap list sorting.
From S2P Require Import Prelude Types QuickCache Backend Layers LayersFacts.

#[local] Open Scope Z_scope.

(** ** Layers the state below already contains *)

Section absorbed.
Context `{RevmBytecode}.

Definition absorbed (ls : list DiffLayer) (B : AState) : Prop := view_state ls B ≡ B.

#[export] Instance absorbed_proper ls : Proper ((≡) ==> iff) (absorbed ls).
Proof. intros s t Hst. unfold absorbed. by rewrite Hst. Qed.

(** Layers answer each question from the state below on that question alone. *)
Lemma view_state_pointwise ls X Y :
  (forall a, as_account X a = as_account Y a ->
     as_account (view_state ls X) a = as_account (view_state ls Y) a) /\
  (forall a i, as_storage X a i = as_storage Y a i ->
     as_storage (view_state ls X) a i = as_storage (view_state ls Y) a i) /\
  (forall h, as_code X h = as_code Y h ->
     as_code (view_state ls X) h = as_code (view_state ls Y) h) /\
  (forall n, as_hash X n = as_hash Y n ->
     as_hash (view_state ls X) n = as_hash (view_state ls Y) n).
Proof.
  induction ls as [|l ls (IHa & IHs & IHc & IHh)]; [done|].
  split_and!; cbn; intros; case_all; auto.
Qed.

(** Layers below [l] that were absorbed stay so once [l] is in the state. *)
Lemma absorbed_commit l ls B :
  absorbed ls B -> absorbed (l :: ls) (overlay_layer l B).
Proof.
  intros [Ha Hs Hc Hh _]. unfold absorbed.
  destruct (view_state_pointwise ls (overlay_layer l B) B) as (Pa & Ps & Pc & Ph).
  split; cbn; intros; [| | | |done].
  - destruct (last_assoc _ _) eqn:E; [done|]. rewrite Pa, Ha; cbn; [done | by rewrite E].
  - destruct (last_assoc _ _) eqn:E; [done|]. rewrite Ps, Hs; cbn; [done | by rewrite E].
  - destruct (last_assoc _ _) eqn:E; [done|]. rewrite Pc, Hc; cbn; [done | by rewrite E].
  - case_decide; [done|]. rewrite Ph, Hh; cbn; [done | by rewrite decide_False].
Qed.

(** Committing the oldest layer [l] of [l1 ++ [l]] is invisible to a view that
    still holds it over layers the old state had absorbed. *)
Lemma view_state_commit l1 l l2 B :
  absorbed l2 B ->
  view_state (l1 ++ l :: l2) (overlay_layer l B) ≡ view_state ((l1 ++ [l]) ++ l2) B.
Proof.
  intros Hl2. rewrite <- (assoc_L (++)). cbn [app]. rewrite !view_state_app.
  rewrite (absorbed_commit l l2 B Hl2). cbn [view_state fold_right]. by rewrite Hl2.
Qed.
End absorbed.

(** ** Commit *)

Section commit.
Context `{RevmBytecode}.
Context {C : Type -> Type -> Type} `{QuickCacheOk C}.
Context {D S E : Type} `{!StateDBProvider D S E} `{!BackendSpec D S} `{!BackendOk D S E}.

Lemma write_through_get {K V} `{Countable K} n (m : gmap K V) (c : C K (u64 * V)) k e :
  qc_get (write_through n m c) k = Some e ->
  match m !! k with Some v => e = (n, v) | None => qc_get c k = Some e end.
Proof.
  unfold write_through. revert e.
  apply (map_fold_weak_ind (fun r m => forall e, qc_get r k = Some e ->
    match m !! k with Some v => e = (n, v) | None => qc_get c k = Some e end)).
  - intros e. by rewrite lookup_empty.
  - intros j x m' r Hj IH e Hg. rewrite lookup_insert. case_decide as Hjk; subst.
    + by apply qc_get_insert_eq in Hg.
    + apply IH. by eapply qc_get_insert_ne.
Qed.

(** Writing a layer's map through moves a coherent cache from [f] to [g]. *)
Lemma coherent_write_through {K V} `{Countable K} n (m : gmap K V) (c : C K (u64 * V))
    (P : K -> Prop) (f g : K -> V) :
  (forall k, g k = default (f k) (m !! k)) ->
  cache_all (fun k e => P k -> e.2 = f k) c ->
  cache_all (fun k e => P k -> e.2 = g k) (write_through n m c).
Proof.
  intros Hg Hc k e Hk%write_through_get HP. rewrite Hg. destruct (m !! k); subst; [done|].
  by apply (Hc k).
Qed.

(** A cache layer is at the state [B]: what it caches and the block it
    remembers are [B]'s. *)
Record cache_at (cache : CacheDiskLayer C) (B : AState) : Prop := {
  ca_coherent : cd_enabled cache = true -> cache_coherent cache B;
  ca_height : cd_committed_height cache = bi_number (as_info B);
  ca_old : forall l, cd_old_diff_layer cache = Some l -> dl_block_info l = as_info B;
}.

#[export] Instance cache_at_proper cache : Proper ((≡) ==> iff) (cache_at cache).
Proof.
  intros s t Hst. split; intros [Hc Hh Ho]; split.
  1,4: setoid_rewrite Hst || setoid_rewrite <- Hst; done.
  all: rewrite (ae_info _ _ Hst) || rewrite <- (ae_info _ _ Hst); done.
Qed.

(** What committing [l] over [B] needs: it fits the database, it is explicit
    about the accounts it deletes and it does not go back. *)
Record committable (l : DiffLayer) (B : AState) : Prop := {
  cm_layer : layer_ok l;
  cm_valid : valid_block (dl_block_info l) (dl_block_diff l);
  cm_explicit : explicit_diff (dl_block_diff l) B;
  cm_number : extends (as_info B) (dl_block_info l) (dl_block_diff l);
}.

Lemma commit_ok cache l d s :
  healthy d -> fresh d s -> cache_at cache (head d) -> committable l (head d) ->
  (forall old, cd_old_diff_layer cache = Some old ->
     bi_hash (dl_block_info old) = bi_parent_hash (dl_block_info l)) ->
  exists cache' d', commit cache l d s = (Ok tt, (cache', d')) /\
    healthy d' /\ head d' ≡ overlay_layer l (head d) /\ cache_at cache' (head d') /\
    cd_old_diff_layer cache' = Some l /\ cd_enabled cache' = cd_enabled cache /\
    db_update_block d s (dl_block_info l) (dl_block_diff l) = (Ok tt, d').
Proof.
  intros Hd Hs [Hc Hh Ho] [Hl Hv Hx Hn] Hlink.
  destruct (ok_update d s (dl_block_info l) (dl_block_diff l)) as (d' & Hup & Hd' & Hhead); try done.
  unfold commit, storage_diff.
  assert (Hb : (match cd_old_diff_layer cache with
    | Some old => bool_decide (bi_hash (dl_block_info old) = bi_parent_hash (dl_block_info l))
    | None => true end) = true).
  { destruct (cd_old_diff_layer cache) as [old|]; [|done]. apply bool_decide_eq_true. by apply Hlink. }
  rewrite Hb, Hup. eexists _, d'. split; [done|]. split_and!; try done.
  2: by destruct cache as [???? ?? []].
  2: by destruct cache as [???? ?? []].
  rewrite Hhead. destruct cache as [ac sc cc hc old n []]; cbn in *; split; cbn; try done;
    try (by intros l' [= <-]).
  intros _. destruct (Hc eq_refl) as [Ca Cs Cc Ch]. split; cbn.
  - apply (coherent_write_through _ _ _ _ (as_account (head d))); [|done].
    intros a. rewrite Hl, new_layer_accounts. cbn. by destruct (last_assoc _ a).
  - apply (coherent_write_through _ _ _ _ (slot_value (head d))); [|done].
    intros [a i]. rewrite Hl, new_layer_storage. unfold slot_value. cbn. by destruct (last_assoc _ _).
  - apply (coherent_write_through _ _ _ _ (as_code (head d))); [|done].
    intros a. rewrite Hl, new_layer_contracts. cbn. by destruct (last_assoc _ a).
  - apply cache_all_insert; [|by rewrite decide_True].
    intros k e Hk Hg HP. cbn. rewrite decide_False by done. by apply (Ch k).
Qed.

(** The parent-hash assertion of [commit]: a block that does not extend the
    last committed one stops the process before the database changes. *)
Lemma commit_unlinked cache l d s old :
  cd_old_diff_layer cache = Some old ->
  bi_hash (dl_block_info old) <> bi_parent_hash (dl_block_info l) ->
  commit cache l d s = (Panic, (cache, d)).
Proof. intros Ho Hne. unfold commit, storage_diff. rewrite Ho. by rewrite bool_decide_eq_false_2. Qed.
End commit.

(** ** Chains in the store of [next] cells *)

Section chains.
Context `{RevmBytecode}.

(** Following the cells from [cur] meets the layers [ls] and then the cache
    layer. *)
Inductive chain (cells : gmap nat LinkedDiffLayer) : LinkedDiffLayer -> list DiffLayer -> Prop :=
| chain_nil : chain cells LCacheDisk []
| chain_cons l nxt ls :
    cells !! dl_next l = Some nxt -> chain cells nxt ls -> chain cells (LDiff l) (l :: ls).

(** A layer's cell was allocated after the cells of the layers below it. *)
Definition descending (ls : list DiffLayer) : Prop := StronglySorted gt (map dl_next ls).

Lemma descending_NoDup ls : descending ls -> NoDup (map dl_next ls).
Proof.
  unfold descending. induction 1 as [|x l _ IH Hx]; constructor; [|done].
  intros Hin. rewrite Forall_forall in Hx. specialize (Hx _ Hin). lia.
Qed.

Lemma descending_app_l l1 l2 : descending (l1 ++ l2) -> descending l1.
Proof. unfold descending. rewrite map_app. intros Hs. by apply StronglySorted_app in Hs as (_ & ? & _). Qed.

Lemma chain_det cells cur ls ls' : chain cells cur ls -> chain cells cur ls' -> ls = ls'.
Proof.
  intros Hc. revert ls'. induction Hc as [|l nxt ls Hl _ IH]; intros ls' Hc'; inversion Hc'; subst; [done|].
  simplify_map_eq. f_equal. auto.
Qed.

Lemma chain_ids cells cur ls : chain cells cur ls -> forall n, n ∈ map dl_next ls -> n ∈ dom cells.
Proof.
  induction 1 as [|l nxt ls Hl _ IH]; intros n Hn; cbn in Hn; [by apply elem_of_nil in Hn|].
  apply elem_of_cons in Hn as [->|Hn]; [|auto]. apply elem_of_dom. by eexists.
Qed.

Lemma chain_length cells cur ls : chain cells cur ls -> descending ls -> (length ls <= size cells)%nat.
Proof.
  intros Hc Hd. rewrite <- (length_map dl_next), <- size_dom.
  rewrite <- (size_list_to_set (C := gset nat)) by (by apply descending_NoDup).
  apply subseteq_size. intros n Hn%elem_of_list_to_set. by eapply chain_ids.
Qed.

Lemma build_loop_chain cells cur ls fuel :
  chain cells cur ls -> (length ls <= fuel)%nat -> build_loop fuel cells cur = Some (ls, LCacheDisk).
Proof.
  intros Hc. revert fuel. induction Hc as [|l nxt ls Hl _ IH]; intros [|fuel] Hf; cbn in *; try done; try lia.
  rewrite Hl, IH by lia. done.
Qed.

(** Flattening a chain reaches the cache layer within the fuel of [build]. *)
Lemma build_chain cells cur ls :
  chain cells cur ls -> descending ls -> build cells cur = Some (mkView ls LCacheDisk).
Proof.
  intros Hc Hd. unfold build. by rewrite (build_loop_chain _ _ ls) by eauto using chain_length.
Qed.

Lemma collect_layers_chain {E} cells cur ls fuel :
  chain cells cur ls -> (length ls <= fuel)%nat ->
  collect_layers (E := E) fuel cells cur = Ok ls.
Proof.
  intros Hc. revert fuel. induction Hc as [|l nxt ls Hl _ IH]; intros [|fuel] Hf; cbn in *; try done; try lia.
  rewrite Hl, IH by lia. done.
Qed.

Lemma chain_insert cells cur ls n x :
  chain cells cur ls -> n ∉ map dl_next ls -> chain (<[n := x]> cells) cur ls.
Proof.
  induction 1 as [|l nxt ls Hl _ IH]; intros Hn; [constructor|]. cbn in Hn.
  apply not_elem_of_cons in Hn as [Hne Hn]. econstructor; [by rewrite lookup_insert_ne | auto].
Qed.

(** Hanging the layer with cell [n] on the cache layer shortens the chains
    through it, and leaves the others. *)
Lemma chain_relink cells cur ls n :
  chain cells cur ls -> descending ls -> n ∈ map dl_next ls ->
  exists l1 a l2, ls = l1 ++ a :: l2 /\ dl_next a = n /\
    chain (<[n := LCacheDisk]> cells) cur (l1 ++ [a]) /\
    (forall nxt, cells !! n = Some nxt -> chain cells nxt l2).
Proof.
  intros Hc Hd Hn. induction Hc as [|l nxt ls Hl Hc IH]; [by apply elem_of_nil in Hn|].
  destruct (decide (dl_next l = n)) as [<-|Hne].
  - exists [], l, ls. split_and!; try done.
    + econstructor; [by rewrite lookup_insert_eq | constructor].
    + intros nxt' Hnxt. simplify_map_eq. done.
  - cbn in Hn. apply elem_of_cons in Hn as [?|Hn]; [congruence|].
    destruct IH as (l1 & a & l2 & -> & Ha & Hc' & Hl2); [by inversion Hd | done |].
    exists (l :: l1), a, l2. split_and!; try done.
    econstructor; [by rewrite lookup_insert_ne | done].
Qed.
End chains.

(** ** Capping a chain *)

Section cap.
Context `{RevmBytecode}.
Context {C : Type -> Type -> Type} `{QuickCacheOk C}.
Context {D S E : Type} `{!StateDBProvider D S E} `{!BackendSpec D S} `{!BackendOk D S E}.

(** Within the limit, nothing is committed and the bottom is the last
    committed block. *)
Lemma cap_within cells (cache : CacheDiskLayer C) d s top ls limit :
  chain cells top ls -> descending ls -> (length ls <= limit)%nat ->
  healthy d -> fresh d s -> cache_at cache (Backend.head d) ->
  cap_diff_to_db (E := E) cells cache d top limit s =
    (Ok (bi_number (as_info (Backend.head d))), (cells, cache, d)).
Proof.
  intros Hc Hdesc Hlen Hd Hs [_ _ Ho]. unfold cap_diff_to_db.
  rewrite (collect_layers_chain _ _ ls) by eauto using chain_length.
  assert (cap_loop (rev ls) limit s cells cache d 0 = (Ok 0, (cells, cache, d))) as ->.
  { unfold cap_loop. destruct (rev ls) as [|l rest] eqn:Hr; [done|].
    rewrite decide_True; [done|]. rewrite <- Hr, length_rev. done. }
  rewrite decide_True by done. unfold h_block_info. cbn.
  destruct (cd_old_diff_layer cache) as [l|]; [by rewrite (Ho l)|].
  rewrite ok_info by (done || by apply ok_usable). cbn. by rewrite (ae_info _ _ (ok_fresh d s Hd Hs)).
Qed.

(** One layer above the limit, the oldest one is committed and the one above
    it hangs on the cache layer. *)
Lemma cap_over cells (cache : CacheDiskLayer C) d s top ls above x limit cache' d' :
  chain cells top (ls ++ [above; x]) -> descending (ls ++ [above; x]) ->
  limit = Datatypes.S (length ls) -> commit cache x d s = (Ok tt, (cache', d')) ->
  cd_old_diff_layer cache' = Some x ->
  cap_diff_to_db (E := E) cells cache d top limit s =
    (Ok (bi_number (dl_block_info x)), (<[dl_next above := LCacheDisk]> cells, cache', d')).
Proof.
  intros Hc Hdesc -> Hcommit Hold. unfold cap_diff_to_db.
  rewrite (collect_layers_chain _ _ (ls ++ [above; x])) by eauto using chain_length.
  rewrite rev_app_distr. cbn [rev app cap_loop].
  rewrite decide_False by (cbn; rewrite length_rev; lia).
  rewrite Hcommit, decide_True by (cbn; rewrite length_rev; lia).
  case_decide as Hz; [|done]. unfold h_block_info. cbn. by rewrite Hold.
Qed.

(** When the oldest layer cannot be committed, the cap panics with it. *)
Lemma cap_panic cells (cache : CacheDiskLayer C) d s top ls x limit :
  chain cells top (ls ++ [x]) -> descending (ls ++ [x]) ->
  (limit <= length ls)%nat -> commit cache x d s = (Panic, (cache, d)) ->
  cap_diff_to_db (E := E) cells cache d top limit s = (Panic, (cells, cache, d)).
Proof.
  intros Hc Hdesc Hlen Hcommit. unfold cap_diff_to_db.
  rewrite (collect_layers_chain _ _ (ls ++ [x])) by eauto using chain_length.
  rewrite rev_app_distr. cbn [rev app cap_loop].
  rewrite decide_False by (cbn; rewrite length_rev; lia). by rewrite Hcommit.
Qed.
End cap.
