(* ===== verification/StateTree.v ===== *)
(** * The state tree (crates/leafage-evm-storage/src/state_tree/tree.rs)

    The tree publishes one immutable [StateIndex]: the head's view, and the
    views of every in-memory block by hash and by number. [update_block] links
    a new block's layer to its parent's, commits what exceeds the depth limit
    to the database and publishes the next index; [tree_state_at] and
    [get_block_by_id] serve reads from the published index. The update lock
    serialises updates and the index is swapped atomically, so a tree is one
    value and an update one step. *)

From stdpp Require Import prelude gmap list.
From S2P Require Import Prelude Types QuickCache Backend Layers.

#[local] Open Scope Z_scope.

(** [StateTreeConfig]. *)
Record StateTreeConfig := mkConfig {
  diff_tree_depth_limit : nat;
  account_cache_size : nat;
  storage_cache_size : nat;
  code_cache_size : nat;
  enable_cache : bool;
}.

Definition default_config : StateTreeConfig :=
  mkConfig 64 (Z.to_nat 1000000) (Z.to_nat 5000000) (Z.to_nat 100000) true.

Section tree.
Context `{RevmBytecode}.
Context {C : Type -> Type -> Type} `{QuickCache C}.
Context {D S E : Type} `{!StateDBProvider D S E}.

Record StateIndex := mkIndex {
  si_latest : FlattenedLayerView;
  si_hash_diff_map : gmap H256 FlattenedLayerView;
  si_num_diff_map : gmap u64 FlattenedLayerView;
}.

(** [StateTree], with the store of the layers' [next] cells: [t_fresh] is
    the name of the next one. *)
Record StateTree := mkTree {
  t_index : StateIndex;
  t_cells : gmap nat LinkedDiffLayer;
  t_fresh : nat;
  t_cache_layer : CacheDiskLayer C;
  t_config : StateTreeConfig;
  t_db : D;
}.

Definition head_number (v : FlattenedLayerView) : option u64 :=
  match head_layer v with LDiff l => Some (bi_number (dl_block_info l)) | _ => None end.

(** [StateIndex::clear_diff_map]; [retain] visits every entry, so one whose
    head is not a diff layer panics. *)
Definition clear_diff_map (idx : StateIndex) (bottom_height : u64)
    : Res (TreeError E) StateIndex :=
  if decide (bottom_height = 0) then Ok idx
  else if decide (map_Forall (fun _ v => is_Some (head_number v)) (si_hash_diff_map idx)) then
    Ok (mkIndex (si_latest idx)
      (filter (fun '(_, v) => bottom_height <= default 0 (head_number v)) (si_hash_diff_map idx))
      (filter (fun '(n, _) => bottom_height <= n) (si_num_diff_map idx)))
  else Panic.

(** [StateTree::new]. *)
Definition new_tree (d : D) (config : StateTreeConfig) : Res (TreeError E) StateTree :=
  match state_at d (ByNumber Latest) with
  | Ok (Some s) =>
      match block_info d s with
      | Ok info =>
          let cache_layer := new_cache_layer (account_cache_size config)
            (storage_cache_size config) (code_cache_size config) (bi_number info)
            (enable_cache config) in
          let bottom := new_diff_layer info empty_diff 0 in
          let cells := {[ 0%nat := LCacheDisk ]} in
          match build cells (LDiff bottom), build cells LCacheDisk with
          | Some bottom_view, Some latest_view =>
              Ok (mkTree
                (mkIndex latest_view {[ bi_hash info := bottom_view ]}
                  {[ bi_number info := bottom_view ]})
                cells 1 cache_layer config d)
          | _, _ => Panic
          end
      | Err e => Err (DBError e)
      | Panic => Panic
      end
  | Ok None => Err NoLatestBlockInDB
  | Err e => Err (DBError e)
  | Panic => Panic
  end.

(** Add a block's view to both maps. *)
Definition index_insert (bi : BlockInfo) (v : FlattenedLayerView) (idx : StateIndex)
    : StateIndex :=
  mkIndex (si_latest idx) (<[bi_hash bi := v]> (si_hash_diff_map idx))
    (<[bi_number bi := v]> (si_num_diff_map idx)).

Definition set_latest (v : FlattenedLayerView) (idx : StateIndex) : StateIndex :=
  mkIndex v (si_hash_diff_map idx) (si_num_diff_map idx).

(** [EvmStorageWrite::update_block]. The cell of the new layer is allocated
    with the layer; the steps after it see the store with that cell. *)
Definition update_block (t : StateTree) (bi : BlockInfo) (df : BlockStorageDiff)
    : Res (TreeError E) unit * StateTree :=
  let idx := t_index t in
  match si_hash_diff_map idx !! bi_hash bi with
  | Some _ => (Ok tt, t)
  | None =>
      match state_at (t_db t) (ByNumber Latest) with
      | Ok (Some s) =>
          match si_hash_diff_map idx !! bi_parent_hash bi with
          | None =>
              (Err (ParentBlockHashNotFound (bi_hash bi) (bi_number bi) (bi_parent_hash bi)), t)
          | Some parent =>
              let layer := new_diff_layer bi df (t_fresh t) in
              let cells := <[t_fresh t := head_layer parent]> (t_cells t) in
              let t1 := mkTree idx cells (Datatypes.S (t_fresh t)) (t_cache_layer t)
                (t_config t) (t_db t) in
              match h_block_info (t_db t) (mkHybrid (si_latest idx) s None) (t_cache_layer t) with
              | Ok latest =>
                  if decide (bi_number latest <= bi_number bi) then
                    let '(r, (cells', cache', d')) :=
                      cap_diff_to_db cells (t_cache_layer t) (t_db t) (LDiff layer)
                        (diff_tree_depth_limit (t_config t)) s in
                    let t2 := mkTree idx cells' (t_fresh t1) cache' (t_config t) d' in
                    match r with
                    | Ok bottom_height =>
                        match build cells' (LDiff layer) with
                        | Some v =>
                            match clear_diff_map (set_latest v (index_insert bi v idx))
                              bottom_height with
                            | Ok idx' =>
                                (Ok tt, mkTree idx' cells' (t_fresh t1) cache' (t_config t) d')
                            | Err e => (Err e, t2)
                            | Panic => (Panic, t2)
                            end
                        | None => (Panic, t2)
                        end
                    | Err e => (Err e, t2)
                    | Panic => (Panic, t2)
                    end
                  else
                    match build cells (LDiff layer) with
                    | Some v =>
                        (Ok tt, mkTree (index_insert bi v idx) cells (t_fresh t1)
                           (t_cache_layer t) (t_config t) (t_db t))
                    | None => (Panic, t1)
                    end
              | Err e => (Err e, t1)
              | Panic => (Panic, t1)
              end
          end
      | Ok None => (Err NoLatestBlockInDB, t)
      | Err e => (Err (DBError e), t)
      | Panic => (Panic, t)
      end
  end.

(** [EvmStorageWrite::last_committed_block]. *)
Definition last_committed_block (t : StateTree) : Res (TreeError E) (option BlockInfo) :=
  match state_at (t_db t) (ByNumber Latest) with
  | Ok (Some s) => Some <$> lift_db (block_info (t_db t) s)
  | Ok None => Err NoLatestBlockInDB
  | Err e => Err (DBError e)
  | Panic => Panic
  end.

(** The view a block id names: [Ok None] sends the lookup to the database. *)
Definition index_view (idx : StateIndex) (id : BlockId)
    : Res (TreeError E) (option FlattenedLayerView) :=
  match id with
  | ById hash => Ok (si_hash_diff_map idx !! hash)
  | ByNumber Latest | ByNumber Pending => Ok (Some (si_latest idx))
  | ByNumber (Number n) => Ok (si_num_diff_map idx !! n)
  | ByNumber _ => Err (UnsupportedBlockId id)
  end.

(** [BlockIndex::get_block_by_id]. *)
Definition get_block_by_id (t : StateTree) (id : BlockId)
    : Res (TreeError E) (option BlockInfo) :=
  match index_view (t_index t) id with
  | Ok None =>
      match state_at (t_db t) id with
      | Ok (Some s) => Some <$> lift_db (block_info (t_db t) s)
      | Ok None => Ok None
      | Err e => Err (DBError e)
      | Panic => Panic
      end
  | Ok (Some v) =>
      match head_layer v with
      | LDiff l => Ok (Some (dl_block_info l))
      | _ =>
          match state_at (t_db t) (ByNumber Latest) with
          | Ok (Some s) =>
              Some <$> h_block_info (t_db t) (mkHybrid v s None) (t_cache_layer t)
          | Ok None => Err NoLatestBlockInDB
          | Err e => Err (DBError e)
          | Panic => Panic
          end
      end
  | Err e => Err e
  | Panic => Panic
  end.

(** [EvmStorageRead::state_at]. *)
Definition tree_state_at (t : StateTree) (id : BlockId)
    : Res (TreeError E) (option (HybridStateDB S)) :=
  match index_view (t_index t) id with
  | Ok None =>
      match state_at (t_db t) id with
      | Ok (Some s) => Ok (Some (mkHybrid empty_view s None))
      | Ok None => Ok None
      | Err e => Err (DBError e)
      | Panic => Panic
      end
  | Ok (Some v) =>
      let height := cache_view_height (t_cache_layer t) in
      match state_at (t_db t) (ByNumber Latest) with
      | Ok (Some s) => Ok (Some (mkHybrid v s height))
      | Ok None => Err NoLatestBlockInDB
      | Err e => Err (DBError e)
      | Panic => Panic
      end
  | Err e => Err e
  | Panic => Panic
  end.
End tree.

Arguments StateTree {_} C D.

