(* ===== verification/TreeSpec.v ===== *)
(** * The block tree a state tree implements

    The specification of crates/leafage-evm-storage/src/state_tree/tree.rs: a
    tree of blocks, each with the state it leads to. [path] relates the layers
    of a view to the blocks from a block down to the committed one; its states
    are what reading through the layers answers. *)

From stdpp Require Import prelude gmap list.
From S2P Require Import Prelude Types Backend Layers LayersFacts CommitFacts.

#[local] Open Scope Z_scope.

Section spec.
Context `{RevmBytecode}.
Context {D S : Type} `{!BackendSpec D S}.

Abbreviation BlockTree := (gmap H256 (BlockInfo * AState)).

Implicit Types (T : BlockTree) (l : DiffLayer) (h : H256).

(** Blocks are stored under their hash, and numbers count from the parent. *)
Record block_tree T : Prop := {
  bt_hash h bi s : T !! h = Some (bi, s) -> bi_hash bi = h;
  bt_info h bi s : T !! h = Some (bi, s) -> as_info s = bi;
  bt_number h bi s pi sp : T !! h = Some (bi, s) -> T !! bi_parent_hash bi = Some (pi, sp) ->
    bi_number bi = bi_number pi + 1;
  bt_u64 h bi s : T !! h = Some (bi, s) -> is_u64 (bi_number bi);
}.

(** [h] is the block [r] or one of its descendants. *)
Inductive desc T (r : H256) : H256 -> Prop :=
| desc_refl : desc T r r
| desc_step h bi s : T !! h = Some (bi, s) -> desc T r (bi_parent_hash bi) -> desc T r h.

(** The step of the specification: a block adds the state of its diff over
    its parent's. *)
Definition add_block (bi : BlockInfo) (df : BlockStorageDiff) T : BlockTree :=
  match T !! bi_parent_hash bi with
  | Some (_, sp) => <[bi_hash bi := (bi, overlay_block bi df sp)]> T
  | None => T
  end.

(** A block the tree can take: it is new, known before its children, numbered
    after its parent, encodable, and explicit about the storage of the
    accounts it deletes. *)
Record block_ok T (bi : BlockInfo) (df : BlockStorageDiff) (pi : BlockInfo) (sp : AState) : Prop := {
  bo_new : T !! bi_hash bi = None;
  bo_first h bi' s : T !! h = Some (bi', s) -> bi_parent_hash bi' <> bi_hash bi;
  bo_parent : T !! bi_parent_hash bi = Some (pi, sp);
  bo_number : bi_number bi = bi_number pi + 1;
  bo_u64 : is_u64 (bi_number bi);
  bo_valid : valid_block bi df;
  bo_explicit : explicit_diff df sp;
}.

(** A layer of a block of the tree. *)
Record layer_in T l : Prop := {
  li_ok : layer_ok l;
  li_valid : valid_block (dl_block_info l) (dl_block_diff l);
  li_state : exists s pi sp, T !! bi_hash (dl_block_info l) = Some (dl_block_info l, s) /\
    T !! bi_parent_hash (dl_block_info l) = Some (pi, sp) /\
    s ≡ overlay_layer l sp /\ explicit_diff (dl_block_diff l) sp;
}.

Inductive path T (r : H256) : H256 -> list DiffLayer -> Prop :=
| path_nil : path T r r []
| path_cons l ls : layer_in T l -> path T r (bi_parent_hash (dl_block_info l)) ls ->
    path T r (bi_hash (dl_block_info l)) (l :: ls).

(** ** Growing the tree *)

Lemma add_block_lookup T bi df pi sp h :
  block_ok T bi df pi sp ->
  add_block bi df T !! h =
    if decide (h = bi_hash bi) then Some (bi, overlay_block bi df sp) else T !! h.
Proof.
  intros []. unfold add_block. rewrite bo_parent0.
  case_decide; subst; [by rewrite lookup_insert_eq | by rewrite lookup_insert_ne].
Qed.

Lemma add_block_old T bi df pi sp h x :
  block_ok T bi df pi sp -> T !! h = Some x -> add_block bi df T !! h = Some x.
Proof.
  intros Hb Hx. rewrite (add_block_lookup _ _ _ pi sp) by done. case_decide; [|done].
  subst. destruct Hb. congruence.
Qed.

Lemma add_block_tree T bi df pi sp :
  block_tree T -> block_ok T bi df pi sp -> block_tree (add_block bi df T).
Proof.
  intros [Hh Hi Hn Hu] Hb. pose proof Hb as [Hnew Hfirst Hp Hnum Hu' _ _].
  assert (Hpne : bi_parent_hash bi <> bi_hash bi) by congruence.
  split; intros h bi' s; rewrite (add_block_lookup _ _ _ pi sp h) by done.
  - case_decide; [|eauto]. by intros [= <- _].
  - case_decide; [|eauto]. by intros [= <- <-].
  - intros pi' sp' Hx. rewrite (add_block_lookup _ _ _ pi sp) by done. case_decide.
    + simplify_eq. rewrite decide_False by done. intros. simplify_eq. lia.
    + rewrite decide_False by eauto. eauto.
  - case_decide; [|eauto]. by intros [= <- _].
Qed.

Lemma layer_in_add T bi df pi sp l :
  block_ok T bi df pi sp -> layer_in T l -> layer_in (add_block bi df T) l.
Proof.
  intros Hb [Hl Hv (s & pi' & sp' & Hs & Hp & He)]. split; try done.
  exists s, pi', sp'. split_and!; eauto using add_block_old; apply He.
Qed.

Lemma path_add T bi df pi sp r h ls :
  block_ok T bi df pi sp -> path T r h ls -> path (add_block bi df T) r h ls.
Proof. intros Hb. induction 1; constructor; eauto using layer_in_add. Qed.

Lemma layer_in_new T bi df pi sp n :
  block_ok T bi df pi sp -> layer_in (add_block bi df T) (new_diff_layer bi df n).
Proof.
  intros Hb. pose proof Hb as []. split; [apply layer_ok_new | done |]. cbn.
  exists (overlay_block bi df sp), pi, sp. split_and!; try done.
  - rewrite (add_block_lookup _ _ _ pi sp) by done. by rewrite decide_True.
  - eauto using add_block_old.
Qed.

Lemma desc_add T bi df pi sp r h :
  block_ok T bi df pi sp -> r <> bi_hash bi ->
  desc (add_block bi df T) r h -> desc T r (if decide (h = bi_hash bi) then bi_parent_hash bi else h).
Proof.
  intros Hb Hr. pose proof Hb as [Hnew Hfirst Hp _ _ _ _].
  induction 1 as [|h bi' s Hh _ IH]; [rewrite decide_False by done; constructor|].
  rewrite (add_block_lookup _ _ _ pi sp) in Hh by done.
  destruct (decide (h = bi_hash bi)).
  - simplify_eq. rewrite decide_False in IH; [done|]. congruence.
  - rewrite decide_False in IH by eauto. econstructor; eauto.
Qed.

Lemma desc_mono T bi df pi sp r h :
  block_ok T bi df pi sp -> desc T r h -> desc (add_block bi df T) r h.
Proof. intros Hb. induction 1; [constructor | econstructor; eauto using add_block_old]. Qed.

Lemma desc_trans T r x h : desc T r x -> desc T x h -> desc T r h.
Proof. intros Hx. induction 1; [done | econstructor; eauto]. Qed.

(** Two ancestors of a block are on one line. *)
Lemma desc_linear T a b x : desc T a x -> desc T b x -> desc T a b \/ desc T b a.
Proof.
  intros Ha. induction Ha as [|x bi s Hx Ha IH]; intros Hb; [by right|].
  inversion Hb as [|? bi' s' Hx' Hb']; subst; [left; by econstructor|].
  rewrite Hx in Hx'. injection Hx' as <- <-. auto.
Qed.

(** ** Numbers and paths *)

Lemma path_number T r h ls ri rs bi s :
  block_tree T -> T !! r = Some (ri, rs) -> path T r h ls -> T !! h = Some (bi, s) ->
  bi_number bi = bi_number ri + Z.of_nat (length ls).
Proof.
  intros HT Hr Hp. revert bi s. induction Hp as [|l ls Hl Hp IH]; intros bi s Hs.
  - simplify_eq. cbn. lia.
  - destruct Hl as [_ _ (s' & pi & sp & Hs' & Hp' & _)]. simplify_eq.
    rewrite (bt_number _ HT _ _ _ _ _ Hs' Hp'), (IH _ _ Hp'). cbn. lia.
Qed.

Lemma desc_number T r h ri rs bi s :
  block_tree T -> T !! r = Some (ri, rs) -> desc T r h -> T !! h = Some (bi, s) ->
  bi_number ri <= bi_number bi.
Proof.
  intros HT Hr Hd. revert bi s. induction Hd as [|h bi' s' Hh Hd IH]; intros bi s Hs.
  - simplify_eq. lia.
  - rewrite Hh in Hs. injection Hs as <- <-.
    destruct (T !! bi_parent_hash bi') as [[pi sp]|] eqn:Hp.
    + rewrite (bt_number _ HT _ _ _ _ _ Hh Hp). specialize (IH _ _ eq_refl). lia.
    + inversion Hd; congruence.
Qed.

Lemma desc_same T r h ri rs bi s :
  block_tree T -> T !! r = Some (ri, rs) -> desc T r h -> T !! h = Some (bi, s) -> bi_number bi <= bi_number ri -> h = r.
Proof.
  intros HT Hr Hd Hh Hle. inversion Hd as [|? bi' s' Hh' Hd']; [done|]. subst. rewrite Hh in Hh'. injection Hh' as <- <-.
  destruct (T !! bi_parent_hash bi) as [[pi sp]|] eqn:Hp.
  - pose proof (desc_number _ _ _ _ _ _ _ HT Hr Hd' Hp). pose proof (bt_number _ HT _ _ _ _ _ Hh Hp). lia.
  - inversion Hd'; subst; congruence.
Qed.

Lemma path_desc T r h ls : path T r h ls -> desc T r h.
Proof.
  induction 1 as [|l ls [_ _ (s & _ & _ & Hs & _)] _ IH]; [constructor|]. econstructor; eauto.
Qed.

Lemma path_snoc T r h ls x :
  path T r h (ls ++ [x]) ->
  layer_in T x /\ bi_parent_hash (dl_block_info x) = r /\ path T (bi_hash (dl_block_info x)) h ls.
Proof.
  revert h. induction ls as [|l ls IH]; intros h Hp; cbn in Hp.
  - inversion Hp as [|? ? Hl Hn]; subst. inversion Hn; subst. split_and!; auto using path_nil.
  - inversion Hp as [|? ? Hl Hn]; subst. destruct (IH _ Hn) as (? & ? & ?).
    split_and!; auto using path_cons.
Qed.

(** The path to a descendant of a child of the root ends in that child. *)
Lemma path_through T r h ls ri rs x xi xs :
  block_tree T -> T !! r = Some (ri, rs) -> T !! x = Some (xi, xs) ->
  bi_parent_hash xi = r -> desc T x h -> path T r h ls ->
  exists ls' y, ls = ls' ++ [y] /\ bi_hash (dl_block_info y) = x.
Proof.
  intros HT Hr Hx Hxr Hd. revert ls.
  assert (Hxn : bi_number xi = bi_number ri + 1) by (eapply bt_number; [done..|by rewrite Hxr]).
  induction Hd as [|h bi s Hh Hd IH]; intros ls Hp.
  - inversion Hp as [|y rest Hy Hrest]; subst; [simplify_eq; lia|].
    destruct Hy as [_ _ (? & pi & sp & Hs & Hp' & _)]. simplify_eq.
    pose proof (path_number _ _ _ _ _ _ _ _ HT Hr Hrest Hr) as Hlen.
    destruct rest; cbn in Hlen; [|lia]. by exists [], y.
  - inversion Hp as [|y rest Hy Hrest]; subst.
    + assert (bi_number xi <= bi_number ri); [|lia].
      apply (desc_number T x (bi_parent_hash xi) xi xs ri rs); try done. by econstructor.
    + pose proof Hy as [_ _ (? & pi & sp & Hs & Hp' & _)]. simplify_eq.
      destruct (IH _ Hrest) as (ls' & z & -> & Hz). by exists (y :: ls'), z.
Qed.

(** Reading through the layers of a path answers the state of its block. *)
Lemma path_state T r h ls ri rs B :
  T !! r = Some (ri, rs) -> rs ≡ B -> path T r h ls ->
  exists bi s, T !! h = Some (bi, s) /\ s ≡ view_state ls B.
Proof.
  intros Hr HB. induction 1 as [|l ls Hl _ IH]; [by eauto|].
  destruct Hl as [_ _ (s & pi & sp & Hs & Hp & Heq & _)], IH as (bi & s' & Hs' & Heq').
  simplify_eq. exists (dl_block_info l), s. split; [done|]. rewrite Heq. cbn. by rewrite Heq'.
Qed.
End spec.

Abbreviation BlockTree := (gmap Z (BlockInfo * AState)).
