(* ===== verification/TreeFacts.v ===== *)
(** * The state tree implements the block tree

    The invariant that relates a [StateTree] to the block tree it stands for,
    and that [new_tree] and [update_block] (state_tree/tree.rs) keep: every
    indexed block that descends from the committed one has a view whose layers
    are its path, the chains in the store end where the database begins, and
    at most [diff_tree_depth_limit] blocks wait above it. *)

From stdpp Require Import prelude gmap list sorting.
From S2P Require Import Prelude Types QuickCache Backend Layers LayersFacts CommitFacts StateTree TreeSpec.

#[local] Open Scope Z_scope.

Section views.
Context `{RevmBytecode}.
Context {D S : Type} `{!BackendSpec D S}.

Implicit Types (cells : gmap nat LinkedDiffLayer) (hm : gmap H256 FlattenedLayerView)
  (old : option DiffLayer) (B : AState) (T : BlockTree).

(** The view [v] of block [h] over the committed state [B]: the layers [l1]
    above the committed block, then layers [B] has absorbed. The live chain
    has the same layers [l1], then at most the committed block's own layer. *)
Record good_view cells old hm B T (h : H256) (v : FlattenedLayerView) (l1 l2 : list DiffLayer)
    : Prop := {
  gv_layers : exists stale, fv_layers v = l1 ++ stale /\ absorbed stale B;
  gv_terminal : fv_terminal v = LCacheDisk;
  gv_ok : Forall layer_ok (fv_layers v);
  gv_path : path T (bi_hash (as_info B)) h l1;
  gv_chain : chain cells (head_layer v) (l1 ++ l2);
  gv_desc : descending (l1 ++ l2);
  gv_root : l2 = [] \/ exists y, l2 = [y] /\ dl_block_info y = as_info B /\ absorbed [y] B /\
    layer_ok y /\ (old = None -> committable y B);
  gv_closed : forall l, l ∈ l1 -> exists v',
    hm !! bi_hash (dl_block_info l) = Some v' /\ head_layer v' = LDiff l;
}.

Lemma chain_suffix cells cur l1 l l2 :
  chain cells cur (l1 ++ l :: l2) -> chain cells (LDiff l) (l :: l2).
Proof.
  revert cur. induction l1 as [|x l1 IH]; intros cur Hc; inversion Hc; subst; [done|eauto].
Qed.

(** Hanging [a], which sits on the last layer [x], on the cache layer either
    leaves a chain or takes [x] off its end. *)
Lemma relink_tail cells cur ls a x :
  chain cells cur ls -> descending ls -> chain cells (LDiff a) [a; x] ->
  exists ls', chain (<[dl_next a := LCacheDisk]> cells) cur ls' /\ descending ls' /\
    (ls' = ls \/ ls = ls' ++ [x]).
Proof.
  intros Hc Hd Ha. destruct (decide (dl_next a ∈ map dl_next ls)) as [Hin|Hn].
  - destruct (chain_relink _ _ _ _ Hc Hd Hin) as (l1 & a' & l2 & -> & _ & Hc' & Hnxt).
    inversion Ha as [|? nxt ? Hcell Hx]; subst.
    rewrite (chain_det _ _ _ _ (Hnxt _ Hcell) Hx) in *.
    exists (l1 ++ [a']). rewrite <- (assoc_L (++)). split_and!; auto.
    apply (descending_app_l _ [x]). by rewrite <- (assoc_L (++)).
  - exists ls. split_and!; auto. by apply chain_insert.
Qed.

Lemma chain_cut cells cur ls a rest :
  chain cells cur (ls ++ a :: rest) -> descending (ls ++ a :: rest) ->
  chain (<[dl_next a := LCacheDisk]> cells) cur (ls ++ [a]).
Proof.
  revert cur. induction ls as [|l ls IH]; intros cur Hc Hd; inversion Hc; subst.
  - econstructor; [by rewrite lookup_insert_eq | constructor].
  - inversion Hd as [|? ? Hd' Hall]; subst. econstructor; [|by apply IH].
    rewrite lookup_insert_ne; [done|]. rewrite map_app in Hall. rewrite Forall_forall in Hall.
    specialize (Hall (dl_next a)). cbn in Hall. intros Heq.
    assert (dl_next l > dl_next a)%nat by (apply Hall; set_solver). lia.
Qed.

(** A map that keeps the entries at [bottom] or above. *)
Definition keeps (bottom : u64) hm hm' : Prop :=
  hm' ⊆ hm /\ forall h v l, head_layer v = LDiff l ->
    hm' !! h = Some v <->
      hm !! h = Some v /\ (bottom = 0 \/ bottom <= bi_number (dl_block_info l)).

Lemma keeps_closed bottom hm hm' (l1 : list DiffLayer) :
  keeps bottom hm hm' -> Forall (fun l => bottom <= bi_number (dl_block_info l)) l1 ->
  (forall l, l ∈ l1 -> exists v', hm !! bi_hash (dl_block_info l) = Some v' /\ head_layer v' = LDiff l) ->
  forall l, l ∈ l1 -> exists v', hm' !! bi_hash (dl_block_info l) = Some v' /\ head_layer v' = LDiff l.
Proof.
  intros [_ Hk] Hb Hc l Hl. destruct (Hc l Hl) as (v' & Hv & Hh). exists v'. split; [|done].
  apply (Hk _ _ _ Hh). split; [done|right]. rewrite Forall_forall in Hb. by apply Hb.
Qed.

Lemma path_layers_number T r h ls ri rs :
  block_tree T -> T !! r = Some (ri, rs) -> path T r h ls ->
  Forall (fun l => bi_number ri <= bi_number (dl_block_info l)) ls.
Proof.
  intros HT Hr. induction 1 as [|l ls Hl Hp IH]; constructor; [|done].
  pose proof Hl as [_ _ (s & _ & _ & Hs & _)].
  eapply (desc_number T r (bi_hash (dl_block_info l))); eauto using path_desc, path_cons.
Qed.

(** Adding a block without committing keeps the other views good. *)
Lemma good_view_add cells old hm B T h v l1 l2 bi df pi sp n x nv :
  good_view cells old hm B T h v l1 l2 -> block_ok T bi df pi sp ->
  n ∉ dom cells -> hm !! bi_hash bi = None ->
  good_view (<[n := x]> cells) old (<[bi_hash bi := nv]> hm) B (add_block bi df T) h v l1 l2.
Proof.
  intros [Hl Ht Hok Hp Hc Hd Hr Hcl] Hb Hn Hhm. split; try done; eauto using path_add.
  - apply chain_insert; [done|]. intros Hin. by eapply Hn, chain_ids.
  - intros l Hl1. destruct (Hcl l Hl1) as (v' & Hv' & Hh). exists v'. split; [|done].
    rewrite lookup_insert_ne; [done|]. congruence.
Qed.

(** The view of the added block itself. *)
Lemma good_view_new cells old hm B T v l1 l2 bi df pi sp n nv nv' :
  good_view cells old hm B T (bi_parent_hash bi) v l1 l2 -> block_ok T bi df pi sp ->
  (forall k, k ∈ dom cells -> (k < n)%nat) -> hm !! bi_hash bi = None ->
  let l := new_diff_layer bi df n in
  nv = mkView (l :: l1 ++ l2) LCacheDisk -> head_layer nv' = LDiff l ->
  good_view (<[n := head_layer v]> cells) old (<[bi_hash bi := nv']> hm) B (add_block bi df T)
    (bi_hash bi) nv (l :: l1) l2.
Proof.
  intros Hg Hb Hn Hhm l -> Hnv'. pose proof Hg as [_ _ _ Hp Hc Hd Hr Hcl].
  assert (Hfresh : n ∉ dom cells) by (intros Hin%Hn; lia).
  split; cbn; try done.
  - exists l2. split; [done|]. destruct Hr as [->|(y & -> & _ & Hy & _)]; done.
  - constructor; [apply layer_ok_new|]. apply Forall_app.
    split; [|destruct Hr as [->|(y & -> & _ & _ & ? & _)]; auto].
    clear -Hp. induction Hp as [|z zs [Hz _ _] _ IH]; by constructor.
  - apply (path_cons _ _ l); [by eapply layer_in_new | by eapply path_add].
  - econstructor; [by rewrite lookup_insert_eq|]. apply chain_insert; [done|].
    intros Hin. by eapply Hfresh, chain_ids.
  - unfold descending. cbn. constructor; [done|]. apply Forall_forall. intros k Hk.
    red. by eapply Hn, chain_ids.
  - intros l' Hl'. apply elem_of_cons in Hl' as [->|Hl'].
    + eexists. split; [by rewrite lookup_insert_eq | done].
    + destruct (Hcl l' Hl') as (v' & Hv' & Hh). exists v'. split; [|done].
      rewrite lookup_insert_ne; [done|]. congruence.
Qed.

(** Once the tail is gone, the flat view of a chain is as good. *)
Lemma good_view_flat cells old hm B T h v l ls :
  good_view cells old hm B T h v (l :: ls) [] ->
  good_view cells old hm B T h (mkView (l :: ls) LCacheDisk) (l :: ls) [].
Proof.
  intros [(stale & Hl & _) Ht Hok Hp Hc Hd Hr Hcl].
  assert (Hh : head_layer v = LDiff l) by (unfold head_layer; by rewrite Hl).
  rewrite Hh in Hc. split; cbn; try done.
  - exists []. by rewrite app_nil_r.
  - rewrite Hl in Hok. apply Forall_app in Hok as [Hok _]. done.
Qed.

(** Committing the child [x] of the committed block: its descendants' views
    stay good, over the new state. *)
Lemma good_view_commit cells old hm hm' B B' T h v l1 l2 a x vx rs :
  block_tree T -> T !! bi_hash (as_info B) = Some (as_info B, rs) ->
  good_view cells old hm B T h v l1 l2 ->
  chain cells (LDiff a) [a; x] -> layer_in T x ->
  bi_parent_hash (dl_block_info x) = bi_hash (as_info B) ->
  hm !! bi_hash (dl_block_info x) = Some vx -> head_layer vx = LDiff x ->
  B' ≡ overlay_layer x B -> keeps (bi_number (dl_block_info x)) hm hm' ->
  desc T (bi_hash (dl_block_info x)) h ->
  exists l1' l2', good_view (<[dl_next a := LCacheDisk]> cells) (Some x) hm' B' T h v l1' l2' /\
    l1 ++ l2 = l1' ++ [x].
Proof.
  intros HT Hroot Hg Ha Hx Hpar Hvx Hhx HB Hk Hdesc.
  destruct Hg as [(stale & Hl & Habs) Ht Hok Hp Hc Hd Hr Hcl].
  pose proof Hx as [Hxok _ (xs & pi & sp & HTx & HTp & _)].
  destruct (path_through T _ h l1 _ _ _ _ _ HT Hroot HTx Hpar Hdesc Hp) as (l1' & y & -> & Hy).
  destruct (Hcl y) as (vy & Hvy & Hhy); [set_solver|].
  assert (y = x) as -> by (rewrite Hy, Hvx in Hvy; congruence).
  rewrite <- (assoc_L (++)) in Hc, Hd. cbn in Hc, Hd.
  assert (l2 = []) as ->.
  { apply chain_suffix in Hc. inversion Ha as [|? nxt ? Hcell Hx']; subst.
    assert (nxt = LDiff x) as -> by (by inversion Hx').
    pose proof (chain_det _ _ _ _ Hc Hx') as [=]. done. }
  assert (Hinfo : as_info B' = dl_block_info x) by apply HB.
  destruct (path_snoc _ _ _ _ _ Hp) as (_ & _ & Hp').
  destruct (relink_tail _ _ _ _ _ Hc Hd Ha) as (ls' & Hc' & Hd' & Hls).
  assert (exists l2', ls' = l1' ++ l2' /\ (l2' = [] \/ l2' = [x])) as (l2' & -> & Hl2').
  { destruct Hls as [->|Hls]; [by exists [x]; auto|]. exists []. split; [|by left].
    apply app_inj_tail in Hls as [-> _]. by rewrite app_nil_r. }
  exists l1', l2'. split; [|by rewrite app_nil_r]. split; try done.
  - exists (x :: stale). rewrite Hl, <- (assoc_L (++)). split; [done|].
    rewrite HB. by apply absorbed_commit.
  - by rewrite Hinfo.
  - destruct Hl2' as [->| ->]; [by left|right]. exists x. split_and!; try done.
    rewrite HB. by apply absorbed_commit.
  - eapply keeps_closed; [done| |set_solver].
    eapply (path_layers_number T); [done|exact HTx|done].
Qed.

(** Committing the layer the tree starts with changes nothing above it. *)
Lemma good_view_commit_root cells hm hm' B B' T h v l1 l2 a x rs :
  block_tree T -> T !! bi_hash (as_info B) = Some (as_info B, rs) ->
  good_view cells None hm B T h v l1 l2 ->
  chain cells (LDiff a) [a; x] -> dl_block_info x = as_info B -> B' ≡ B ->
  keeps (bi_number (as_info B)) hm hm' ->
  exists l2', good_view (<[dl_next a := LCacheDisk]> cells) (Some x) hm' B' T h v l1 l2'.
Proof.
  intros HT Hroot [(stale & Hl & Habs) Ht Hok Hp Hc Hd Hr Hcl] Ha Hx HB Hk.
  assert (Hinfo : as_info B' = as_info B) by apply HB.
  destruct (relink_tail _ _ _ _ _ Hc Hd Ha) as (ls' & Hc' & Hd' & Hls).
  assert (exists l2', ls' = l1 ++ l2' /\ (l2' = [] \/ l2' = l2)) as (l2' & -> & Hl2').
  { destruct Hls as [->|Hls]; [by exists l2; auto|].
    destruct Hr as [->|(y & -> & Hy)].
    - rewrite app_nil_r in Hls. subst l1. destruct (path_snoc _ _ _ _ _ Hp) as ([_ _ (s & pi & sp & Hs & Hp' & _)] & Hpar & _).
      rewrite Hx in Hpar, Hp'. rewrite Hpar in Hp'. rewrite Hx in Hs.
      pose proof (bt_number _ HT _ _ _ _ _ Hroot ltac:(by rewrite Hpar)). simplify_eq. lia.
    - exists []. split; [|by left]. apply app_inj_tail in Hls as [-> _]. by rewrite app_nil_r. }
  exists l2'. split; try done.
  - exists stale. split; [done|]. by rewrite HB.
  - by rewrite Hinfo.
  - destruct Hl2' as [->| ->]; [by left|]. destruct Hr as [->|(y & -> & Hy & Hy' & ? & _)]; [by left|].
    right. exists y. split_and!; try done; [by rewrite Hinfo | by rewrite HB].
  - eapply keeps_closed; [done| |done]. eapply path_layers_number; eauto.
Qed.
End views.

Section tree_inv.
Context `{RevmBytecode}.
Context {C : Type -> Type -> Type} `{QuickCacheOk C}.
Context {D S E : Type} `{!StateDBProvider D S E} `{!BackendSpec D S} `{!BackendOk D S E}.

Implicit Types (t : StateTree C D) (T : BlockTree).

Definition t_state t : AState := Backend.head (t_db t).
Definition t_old t : option DiffLayer := cd_old_diff_layer (t_cache_layer t).
Definition t_limit t : nat := diff_tree_depth_limit (t_config t).

(** The committed block and its number. *)
Definition t_root t : H256 := bi_hash (as_info (t_state t)).
Definition t_bottom t : u64 := bi_number (as_info (t_state t)).

Definition good t T h v l1 l2 : Prop :=
  good_view (t_cells t) (t_old t) (si_hash_diff_map (t_index t)) (t_state t) T h v l1 l2.

(** Until the first commit every chain ends in the layer the tree starts with;
    from then on only blocks below the head may still link the layer of the
    committed block. *)
Definition tail_ok t (hd bi : BlockInfo) (l2 : list DiffLayer) : Prop :=
  match t_old t with
  | None => l2 <> []
  | Some _ => l2 <> [] -> bi_number bi < bi_number hd
  end.

(** The tree [t] stands for the block tree [T] with head block [hd]. *)
Record tree_inv t T (hd : BlockInfo) : Prop := {
  ti_healthy : healthy (t_db t);
  ti_cache : cache_at (t_cache_layer t) (t_state t);
  ti_limit : (1 <= t_limit t)%nat;
  ti_tree : block_tree T;
  ti_root : exists rs, T !! t_root t = Some (as_info (t_state t), rs) /\ rs ≡ t_state t;
  ti_cells n : n ∈ dom (t_cells t) -> (n < t_fresh t)%nat;
  ti_index h v : si_hash_diff_map (t_index t) !! h = Some v ->
    exists l s, head_layer v = LDiff l /\ T !! h = Some (dl_block_info l, s);
  ti_num n v : si_num_diff_map (t_index t) !! n = Some v ->
    exists h l, si_hash_diff_map (t_index t) !! h = Some v /\ head_layer v = LDiff l /\
      bi_number (dl_block_info l) = n;
  ti_good h v bi s : si_hash_diff_map (t_index t) !! h = Some v -> T !! h = Some (bi, s) ->
    desc T (t_root t) h -> exists l1 l2, good t T h v l1 l2 /\ tail_ok t hd bi l2;
  ti_complete h bi s : T !! h = Some (bi, s) -> t_bottom t <= bi_number bi ->
    is_Some (si_hash_diff_map (t_index t) !! h);
  ti_pruned h v l : si_hash_diff_map (t_index t) !! h = Some v -> head_layer v = LDiff l ->
    t_bottom t <= bi_number (dl_block_info l);
  ti_hd : exists s, T !! bi_hash hd = Some (hd, s);
  ti_hd_desc : desc T (t_root t) (bi_hash hd);
  ti_max h bi s : T !! h = Some (bi, s) -> bi_number bi <= bi_number hd;
  ti_latest :
    (si_latest (t_index t) = mkView [] LCacheDisk /\ t_old t = None /\ hd = as_info (t_state t)) \/
    (si_hash_diff_map (t_index t) !! bi_hash hd = Some (si_latest (t_index t)) /\
     si_num_diff_map (t_index t) !! bi_number hd = Some (si_latest (t_index t)));
  ti_depth :
    match t_old t with
    | None => bi_number hd - t_bottom t + 1 <= Z.of_nat (t_limit t)
    | Some _ => bi_number hd - t_bottom t = Z.of_nat (t_limit t)
    end;
}.

(** ** Reading *)

(** The view of a block, when good, stands for the block's state. *)
Lemma good_state t T hd h v l1 l2 :
  tree_inv t T hd -> good t T h v l1 l2 ->
  exists bi s, T !! h = Some (bi, s) /\ view_state (fv_layers v) (t_state t) ≡ s.
Proof.
  intros Hi Hg. destruct Hg as [(stale & Hl & Habs) _ _ Hp _ _ _ _].
  destruct (ti_root _ _ _ Hi) as (rs & Hr & Hrs).
  destruct (path_state _ _ _ _ _ _ _ Hr Hrs Hp) as (bi & s & Hs & Heq).
  exists bi, s. split; [done|]. rewrite Hl, view_state_app, Habs. by symmetry.
Qed.

(** What a handle on a view is: fresh on the database, with the view's layers
    over the committed state. *)
Lemma view_readable t T hd h v l1 l2 s height :
  tree_inv t T hd -> good t T h v l1 l2 -> fresh (t_db t) s ->
  readable (t_db t) (mkHybrid v s height) (t_cache_layer t) (t_state t).
Proof.
  intros Hi Hg Hs. split; cbn.
  - apply Hi.
  - apply ok_usable; [apply Hi|done].
  - apply Hg.
  - apply ok_fresh; [apply Hi | done].
  - intros Hr. apply (ti_cache _ _ _ Hi). unfold reads_cache in Hr. cbn in Hr.
    by rewrite (gv_terminal _ _ _ _ _ _ _ _ _ Hg) in Hr; destruct (cd_enabled _).
Qed.

Lemma latest_info t T hd s :
  tree_inv t T hd -> fresh (t_db t) s ->
  h_block_info (t_db t) (mkHybrid (si_latest (t_index t)) s None) (t_cache_layer t) = Ok hd.
Proof.
  intros Hi Hs. unfold h_block_info. cbn. destruct (ti_latest _ _ _ Hi) as [(-> & Ho & ->)|[Hv _]].
  - cbn. unfold t_old in Ho. rewrite Ho, ok_info by (try apply ok_usable; [apply Hi|done..]). cbn.
    by rewrite (ae_info _ _ (ok_fresh _ _ (ti_healthy _ _ _ Hi) Hs)).
  - destruct (ti_index _ _ _ Hi _ _ Hv) as (l & s' & -> & Hl).
    destruct (ti_hd _ _ _ Hi) as [st Hst]. by simplify_eq.
Qed.

(** ** Pruning *)

Lemma clear_diff_map_ok (idx : StateIndex) bottom :
  (forall h v, si_hash_diff_map idx !! h = Some v -> exists l, head_layer v = LDiff l) ->
  exists idx', clear_diff_map (E := E) idx bottom = Ok idx' /\
    si_latest idx' = si_latest idx /\
    keeps bottom (si_hash_diff_map idx) (si_hash_diff_map idx') /\
    forall n v, si_num_diff_map idx' !! n = Some v <->
      si_num_diff_map idx !! n = Some v /\ (bottom = 0 \/ bottom <= n).
Proof.
  intros Hall. unfold clear_diff_map. case_decide as Hz.
  - exists idx. split_and!; [done..|split; naive_solver|naive_solver].
  - rewrite decide_True.
    2: { intros h v Hv. destruct (Hall h v Hv) as (l & Hl). unfold head_number. by rewrite Hl. }
    eexists. split; [done|]. cbn. split; [done|]. split; [split; [apply map_filter_subseteq|]|].
    + intros h v l Hl. rewrite map_lookup_filter_Some. unfold head_number. rewrite Hl. naive_solver.
    + intros n v. rewrite map_lookup_filter_Some. naive_solver.
Qed.

(** ** One step *)

Lemma new_hash t T hd bi df pi sp :
  tree_inv t T hd -> block_ok T bi df pi sp -> si_hash_diff_map (t_index t) !! bi_hash bi = None.
Proof.
  intros Hi Hb. destruct (_ !! bi_hash bi) as [v|] eqn:Hv; [|done].
  destruct (ti_index _ _ _ Hi _ _ Hv) as (l & s & _ & Hs). destruct Hb. congruence.
Qed.

Definition next_head (hd bi : BlockInfo) : BlockInfo :=
  if decide (bi_number hd <= bi_number bi) then bi else hd.

(** What an update has to establish for the invariant: the rest follows from
    how it changes the two maps. *)
Lemma inv_step t T hd bi df pi sp t' nv l :
  tree_inv t T hd -> block_ok T bi df pi sp ->
  head_layer nv = LDiff l -> dl_block_info l = bi ->
  healthy (t_db t') -> cache_at (t_cache_layer t') (t_state t') -> t_limit t' = t_limit t ->
  (exists rs, T !! t_root t' = Some (as_info (t_state t'), rs) /\ rs ≡ t_state t') ->
  (forall n, n ∈ dom (t_cells t') -> (n < t_fresh t')%nat) ->
  keeps (t_bottom t') (<[bi_hash bi := nv]> (si_hash_diff_map (t_index t)))
    (si_hash_diff_map (t_index t')) ->
  (forall n v, si_num_diff_map (t_index t') !! n = Some v <->
    <[bi_number bi := nv]> (si_num_diff_map (t_index t)) !! n = Some v /\
    (t_bottom t' = 0 \/ t_bottom t' <= n)) ->
  t_bottom t <= t_bottom t' <= bi_number bi ->
  (forall h v bi' s, <[bi_hash bi := nv]> (si_hash_diff_map (t_index t)) !! h = Some v ->
    add_block bi df T !! h = Some (bi', s) -> desc (add_block bi df T) (t_root t') h ->
    exists l1 l2, good t' (add_block bi df T) h v l1 l2 /\ tail_ok t' (next_head hd bi) bi' l2) ->
  desc (add_block bi df T) (t_root t') (bi_hash (next_head hd bi)) ->
  (si_latest (t_index t') = mkView [] LCacheDisk /\ t_old t' = None /\
     next_head hd bi = as_info (t_state t')) \/
    (si_hash_diff_map (t_index t') !! bi_hash (next_head hd bi) = Some (si_latest (t_index t')) /\
     si_num_diff_map (t_index t') !! bi_number (next_head hd bi) = Some (si_latest (t_index t'))) ->
  match t_old t' with
  | None => bi_number (next_head hd bi) - t_bottom t' + 1 <= Z.of_nat (t_limit t')
  | Some _ => bi_number (next_head hd bi) - t_bottom t' = Z.of_nat (t_limit t')
  end ->
  tree_inv t' (add_block bi df T) (next_head hd bi).
Proof.
  intros Hi Hb Hnv Hl Hd Hca Hlim (rs & Hroot & Hrs) Hcells Hk Hnm Hbot Hgood Hdesc Hlat Hdep.
  pose proof (new_hash _ _ _ _ _ _ _ Hi Hb) as Hnone.
  assert (Hnew : add_block bi df T !! bi_hash bi = Some (bi, overlay_block bi df sp)).
  { rewrite (add_block_lookup _ _ _ pi sp) by done. by rewrite decide_True. }
  assert (Hidx : forall h v, <[bi_hash bi := nv]> (si_hash_diff_map (t_index t)) !! h = Some v ->
    exists l s, head_layer v = LDiff l /\ add_block bi df T !! h = Some (dl_block_info l, s)).
  { intros h v [[<- <-]|[Hne Hv]]%lookup_insert_Some; [rewrite <- Hl in Hnew at 3; by eauto|].
    destruct (ti_index _ _ _ Hi _ _ Hv) as (l' & s & Hl' & Hs). eauto using add_block_old. }
  assert (Hsub : forall h v, si_hash_diff_map (t_index t') !! h = Some v ->
    exists l s, head_layer v = LDiff l /\ add_block bi df T !! h = Some (dl_block_info l, s) /\
      <[bi_hash bi := nv]> (si_hash_diff_map (t_index t)) !! h = Some v /\
      (t_bottom t' = 0 \/ t_bottom t' <= bi_number (dl_block_info l))).
  { destruct Hk as [Hk1 Hk2]. intros h v Hv. pose proof (lookup_weaken _ _ _ _ Hv Hk1) as Hv'.
    destruct (Hidx _ _ Hv') as (l' & s & Hl' & Hs). exists l', s. split_and!; try done.
    by apply (Hk2 _ _ _ Hl') in Hv as [_ ?]. }
  pose proof (add_block_tree _ _ _ _ _ (ti_tree _ _ _ Hi) Hb) as HT.
  split; try done.
  - rewrite Hlim. apply Hi.
  - eauto using add_block_old.
  - intros h v Hv. destruct (Hsub _ _ Hv) as (l' & s & ? & ? & _). eauto.
  - intros n v [Hn Hge]%Hnm. destruct Hk as [_ Hk].
    apply lookup_insert_Some in Hn as [[<- <-]|[Hne Hn]].
    + exists (bi_hash bi), l. rewrite Hl. split_and!; try done.
      apply (Hk _ _ _ Hnv). rewrite Hl, lookup_insert_eq. split; [done|lia].
    + destruct (ti_num _ _ _ Hi _ _ Hn) as (h & l' & Hh & Hl' & <-). exists h, l'. split_and!; try done.
      apply (Hk _ _ _ Hl'). rewrite lookup_insert_ne by congruence. done.
  - intros h v bi' s Hv. destruct (Hsub _ _ Hv) as (_ & _ & _ & _ & Hv' & _). by apply Hgood.
  - intros h bi' s Hs Hge. destruct Hk as [_ Hk].
    rewrite (add_block_lookup _ _ _ pi sp) in Hs by done. case_decide as Hh.
    + simplify_eq. exists nv. apply (Hk _ _ _ Hnv). rewrite lookup_insert_eq. auto.
    + destruct (ti_complete _ _ _ Hi _ _ _ Hs) as [v Hv]; [lia|].
      destruct (ti_index _ _ _ Hi _ _ Hv) as (l' & s' & Hl' & Hs'). simplify_eq.
      exists v. apply (Hk _ _ _ Hl'). rewrite lookup_insert_ne by congruence. auto.
  - intros h v l' Hv Hl'. destruct (Hsub _ _ Hv) as (l'' & s & Hl'' & Hs & _ & Hge).
    assert (l'' = l') as -> by congruence. pose proof (bt_u64 _ HT _ _ _ Hs) as []. lia.
  - unfold next_head. case_decide; [by eauto|]. destruct (ti_hd _ _ _ Hi) as [s Hs].
    eauto using add_block_old.
  - intros h bi' s Hs. rewrite (add_block_lookup _ _ _ pi sp) in Hs by done. unfold next_head.
    destruct (decide (h = bi_hash bi)); [simplify_eq; case_decide; lia|].
    pose proof (ti_max _ _ _ Hi _ _ _ Hs). case_decide; lia.
Qed.

Lemma good_view_keeps cells old hm hm' B T h v l1 l2 rs :
  block_tree T -> T !! bi_hash (as_info B) = Some (as_info B, rs) ->
  good_view cells old hm B T h v l1 l2 -> keeps (bi_number (as_info B)) hm hm' ->
  good_view cells old hm' B T h v l1 l2.
Proof.
  intros HT Hroot [Hl Ht Hok Hp Hc Hd Hr Hcl] Hk. split; try done.
  eapply keeps_closed; [done| |done]. eapply path_layers_number; eauto.
Qed.

Section step.
Context (t : StateTree C D) (T : BlockTree) (hd bi pi : BlockInfo) (df : BlockStorageDiff) (sp : AState).
Hypothesis Hi : tree_inv t T hd.
Hypothesis Hb : block_ok T bi df pi sp.
Hypothesis Hpd : desc T (t_root t) (bi_parent_hash bi).

Lemma parent_view :
  exists pv l1 l2, si_hash_diff_map (t_index t) !! bi_parent_hash bi = Some pv /\
    good t T (bi_parent_hash bi) pv l1 l2 /\ tail_ok t hd pi l2 /\
    bi_number bi = t_bottom t + Z.of_nat (length l1) + 1 /\ bi_number pi <= bi_number hd.
Proof.
  pose proof Hb as [_ _ Hp Hnum _ _ _]. destruct (ti_root _ _ _ Hi) as (rs & Hr & _).
  pose proof (desc_number _ _ _ _ _ _ _ (ti_tree _ _ _ Hi) Hr Hpd Hp) as Hge.
  destruct (ti_complete _ _ _ Hi _ _ _ Hp Hge) as [pv Hpv].
  destruct (ti_good _ _ _ Hi _ _ _ _ Hpv Hp Hpd) as (l1 & l2 & Hg & Htail).
  exists pv, l1, l2. split_and!; try done.
  - rewrite Hnum, (path_number _ _ _ _ _ _ _ _ (ti_tree _ _ _ Hi) Hr (gv_path _ _ _ _ _ _ _ _ _ Hg) Hp).
    done.
  - by eapply ti_max.
Qed.

Context (pv : FlattenedLayerView) (l1 l2 : list DiffLayer).
Hypothesis Hpv : si_hash_diff_map (t_index t) !! bi_parent_hash bi = Some pv.
Hypothesis Hg : good t T (bi_parent_hash bi) pv l1 l2.

Let layer := new_diff_layer bi df (t_fresh t).
Let nv0 := mkView (layer :: l1 ++ l2) LCacheDisk.
Let cells1 := <[t_fresh t := head_layer pv]> (t_cells t).

Lemma cells1_fresh n : n ∈ dom cells1 -> (n < Datatypes.S (t_fresh t))%nat.
Proof.
  unfold cells1. rewrite dom_insert, elem_of_union, elem_of_singleton.
  intros [->|Hn]; [lia|]. apply (ti_cells _ _ _ Hi) in Hn. lia.
Qed.

Lemma new_root : t_root t <> bi_hash bi.
Proof. destruct (ti_root _ _ _ Hi) as (rs & Hr & _), Hb. congruence. Qed.

(** The views once the layer is linked and before anything is committed,
    with [nv] indexed for the new block. *)
Lemma linked_views nv h v bi' s :
  <[bi_hash bi := nv]> (si_hash_diff_map (t_index t)) !! h = Some v ->
  add_block bi df T !! h = Some (bi', s) -> desc (add_block bi df T) (t_root t) h -> h <> bi_hash bi ->
  exists k1 k2, good_view cells1 (t_old t) (<[bi_hash bi := nv]> (si_hash_diff_map (t_index t)))
    (t_state t) (add_block bi df T) h v k1 k2 /\ tail_ok t hd bi' k2 /\ bi_number bi' <= bi_number hd.
Proof.
  intros Hv Hs Hdesc Hne. rewrite lookup_insert_ne in Hv by done.
  rewrite (add_block_lookup _ _ _ pi sp), decide_False in Hs by done.
  apply (desc_add _ _ _ pi sp) in Hdesc; [|done|apply new_root]. rewrite decide_False in Hdesc by done.
  destruct (ti_good _ _ _ Hi _ _ _ _ Hv Hs Hdesc) as (k1 & k2 & Hgv & Htail).
  exists k1, k2. split_and!; [|done|by eapply ti_max].
  eapply good_view_add; [done..| |by eapply new_hash].
  intros Hin%(ti_cells _ _ _ Hi). lia.
Qed.

Lemma linked_new nv :
  head_layer nv = LDiff layer ->
  good_view cells1 (t_old t) (<[bi_hash bi := nv]> (si_hash_diff_map (t_index t)))
    (t_state t) (add_block bi df T) (bi_hash bi) nv0 (layer :: l1) l2.
Proof.
  intros Hnv. eapply good_view_new; [done..|apply Hi|by eapply new_hash|done|done].
Qed.

Lemma new_tree_root : exists rs,
  add_block bi df T !! t_root t = Some (as_info (t_state t), rs) /\ rs ≡ t_state t.
Proof.
  destruct (ti_root _ _ _ Hi) as (rs & Hr & Hrs). eauto using add_block_old.
Qed.

Lemma new_desc : desc (add_block bi df T) (t_root t) (bi_hash bi).
Proof.
  eapply path_desc, gv_path. eapply (linked_new nv0). done.
Qed.

Lemma next_head_number : bi_number hd <= bi_number (next_head hd bi).
Proof. unfold next_head. case_decide; lia. Qed.

Lemma l2_length : (length l2 <= 1)%nat.
Proof. destruct (gv_root _ _ _ _ _ _ _ _ _ Hg) as [->|(y & -> & _)]; cbn; lia. Qed.

(** The depth and the tail of the new block when nothing has to be committed. *)
Lemma depth_add :
  tail_ok t hd pi l2 -> bi_number bi = t_bottom t + Z.of_nat (length l1) + 1 ->
  (bi_number hd <= bi_number bi -> (length (layer :: l1 ++ l2) <= t_limit t)%nat) ->
  tail_ok t (next_head hd bi) bi l2 /\
  match t_old t with
  | None => bi_number (next_head hd bi) - t_bottom t + 1 <= Z.of_nat (t_limit t)
  | Some _ => bi_number (next_head hd bi) - t_bottom t = Z.of_nat (t_limit t)
  end.
Proof.
  unfold tail_ok. intros Htail Hnum Hlen. pose proof (ti_depth _ _ _ Hi) as Hdep.
  pose proof l2_length as Hl2. unfold next_head. cbn in Hlen. rewrite length_app in Hlen.
  assert (Hl2' : (l2 = [] /\ length l2 = 0%nat) \/ (l2 <> [] /\ length l2 = 1%nat)).
  { clear -Hl2. destruct l2; cbn in *; [by left|right]. split; [done|lia]. }
  destruct (t_old t), Hl2' as [[Hn Hz]|[Hn Hz]]; try done; try specialize (Htail Hn);
    case_decide as Hle; try specialize (Hlen Hle); split; try done; try lia; intros ?; lia.
Qed.

(** Adding the block without a commit. *)
Lemma step_add t' :
  tail_ok t hd pi l2 -> bi_number bi = t_bottom t + Z.of_nat (length l1) + 1 ->
  t_db t' = t_db t -> t_cache_layer t' = t_cache_layer t -> t_config t' = t_config t ->
  t_cells t' = cells1 -> t_fresh t' = Datatypes.S (t_fresh t) ->
  keeps (t_bottom t) (<[bi_hash bi := nv0]> (si_hash_diff_map (t_index t)))
    (si_hash_diff_map (t_index t')) ->
  (forall n v, si_num_diff_map (t_index t') !! n = Some v <->
    <[bi_number bi := nv0]> (si_num_diff_map (t_index t)) !! n = Some v /\
    (t_bottom t = 0 \/ t_bottom t <= n)) ->
  si_latest (t_index t') =
    (if decide (bi_number hd <= bi_number bi) then nv0 else si_latest (t_index t)) ->
  (bi_number hd <= bi_number bi -> (length (layer :: l1 ++ l2) <= t_limit t)%nat) ->
  tree_inv t' (add_block bi df T) (next_head hd bi).
Proof.
  intros Htail Hnum Hdb Hcache Hcfg Hcells Hfresh Hk Hnm Hlat Hlen.
  assert (Hst : t_state t' = t_state t) by (unfold t_state; by rewrite Hdb).
  assert (Hold : t_old t' = t_old t) by (unfold t_old; by rewrite Hcache).
  assert (Hrt : t_root t' = t_root t) by (unfold t_root; by rewrite Hst).
  assert (Hbt : t_bottom t' = t_bottom t) by (unfold t_bottom; by rewrite Hst).
  assert (Hlm : t_limit t' = t_limit t) by (unfold t_limit; by rewrite Hcfg).
  destruct (depth_add Htail Hnum Hlen) as [Htl Hdep].
  destruct new_tree_root as (rs & Hroot & Hrs).
  pose proof (add_block_tree _ _ _ _ _ (ti_tree _ _ _ Hi) Hb) as HT.
  apply (inv_step t T hd bi df pi sp t' nv0 layer); try done.
  - rewrite Hdb. apply Hi.
  - rewrite Hcache, Hst. apply Hi.
  - rewrite Hrt, Hst. apply Hi.
  - rewrite Hcells, Hfresh. apply cells1_fresh.
  - by rewrite Hbt.
  - intros n v. by rewrite Hbt.
  - rewrite Hbt. lia.
  - intros h v bi' s Hv Hs. rewrite Hrt. intros Hdesc. unfold good, tail_ok.
    rewrite Hcells, Hold, Hst. destruct (decide (h = bi_hash bi)) as [->|Hne].
    + exists (layer :: l1), l2. rewrite lookup_insert_eq in Hv.
      assert (v = nv0) as -> by congruence. split.
      * by apply (good_view_keeps _ _ _ _ _ _ _ _ _ _ rs HT Hroot (linked_new nv0 eq_refl)).
      * rewrite (add_block_lookup _ _ _ pi sp), decide_True in Hs by done. by simplify_eq.
    + destruct (linked_views _ _ _ _ _ Hv Hs Hdesc Hne) as (k1 & k2 & Hgv & Htk & Hmax).
      exists k1, k2. split; [by apply (good_view_keeps _ _ _ _ _ _ _ _ _ _ rs HT Hroot Hgv)|].
      pose proof next_head_number. unfold tail_ok in Htk. destruct (t_old t); [|done].
      intros Hk2. specialize (Htk Hk2). lia.
  - rewrite Hrt. unfold next_head. case_decide; [apply new_desc|].
    eapply desc_mono; [done|apply Hi].
  - unfold next_head. rewrite Hlat. destruct Hk as [_ Hk]. case_decide as Hle; right.
    + rewrite (Hk _ _ layer), Hnm, !lookup_insert_eq by done. cbn. split_and!; try done; lia.
    + destruct (ti_latest _ _ _ Hi) as [(_ & _ & ->)|[Hh Hn]]; [unfold t_bottom in *; lia|].
      destruct (ti_index _ _ _ Hi _ _ Hh) as (lh & sh & Hlh & Hsh).
      pose proof (ti_pruned _ _ _ Hi _ _ _ Hh Hlh). destruct (ti_hd _ _ _ Hi) as [s' Hs'].
      assert (hd = dl_block_info lh) by congruence. subst hd.
      rewrite (Hk _ _ lh), Hnm by done.
      rewrite !lookup_insert_ne; [by auto|lia|].
      intros Heq. rewrite <- Heq in Hh. by rewrite (new_hash _ _ _ _ _ _ _ Hi Hb) in Hh.
  - by rewrite Hold, Hbt, Hlm.
Qed.

(** ** Adding the block and committing the oldest layer *)

Section capped.
Context (ls : list DiffLayer) (above x : DiffLayer).
Hypothesis HL : layer :: l1 ++ l2 = ls ++ [above; x].

Let nv := mkView (ls ++ [above]) LCacheDisk.
Let cells2 := <[dl_next above := LCacheDisk]> cells1.

Lemma nv_head : head_layer nv = LDiff layer.
Proof. unfold nv, head_layer. destruct ls; cbn in *; by simplify_eq. Qed.

Lemma linked_chain : chain cells1 (LDiff layer) (ls ++ [above; x]) /\ descending (ls ++ [above; x]).
Proof.
  destruct (linked_new nv0 eq_refl) as [_ _ _ _ Hc Hd _ _]. cbn in Hc, Hd. by rewrite HL in Hc, Hd.
Qed.

Lemma capped_chain : chain cells2 (LDiff layer) (ls ++ [above]) /\ descending (ls ++ [above]).
Proof.
  destruct linked_chain as [Hc Hd]. split; [by apply chain_cut with (rest := [x])|].
  apply (descending_app_l _ [x]). by rewrite <- (assoc_L (++)).
Qed.

Lemma above_chain : chain cells1 (LDiff above) [above; x].
Proof. destruct linked_chain as [Hc _]. by apply chain_suffix in Hc. Qed.

(** The new block's chain lost its last layer, so its flat view is good. *)
Lemma capped_new hm' B' k1 k2 :
  good_view cells2 (Some x) hm' B' (add_block bi df T) (bi_hash bi) nv0 k1 k2 ->
  k1 ++ [x] = ls ++ [above; x] ->
  k2 = [] /\ good_view cells2 (Some x) hm' B' (add_block bi df T) (bi_hash bi) nv k1 [].
Proof.
  intros Hgv Hk.
  assert (k1 = ls ++ [above]) as ->.
  { apply (app_inj_tail _ _ x x). by rewrite Hk, <- (assoc_L (++)). }
  destruct capped_chain as [Hc _].
  pose proof (chain_det _ _ _ _ (gv_chain _ _ _ _ _ _ _ _ _ Hgv) Hc) as Hk2.
  assert (k2 = []) as -> by (apply (app_inv_head (ls ++ [above])); by rewrite app_nil_r).
  split; [done|]. unfold nv. destruct (ls ++ [above]) as [|k ks] eqn:Hls; [by destruct ls|].
  by eapply good_view_flat.
Qed.

Lemma child_layer :
  l2 = [] -> layer_in T x /\ bi_parent_hash (dl_block_info x) = t_root t /\ x ∈ l1.
Proof.
  intros ->. rewrite app_nil_r in HL.
  assert (exists k, l1 = k ++ [x]) as [k ->].
  { destruct ls as [|l' ls']; cbn in HL; injection HL as _ ->; [by exists []|].
    exists (ls' ++ [above]). by rewrite <- (assoc_L (++)). }
  destruct (path_snoc _ _ _ _ _ (gv_path _ _ _ _ _ _ _ _ _ Hg)) as (? & ? & _).
  split_and!; try done. set_solver.
Qed.

Definition capped_views (hm' : gmap H256 FlattenedLayerView) (B' : AState) : Prop :=
  forall h v bi' s, <[bi_hash bi := nv]> (si_hash_diff_map (t_index t)) !! h = Some v ->
    add_block bi df T !! h = Some (bi', s) ->
    desc (add_block bi df T) (bi_hash (as_info B')) h ->
    exists k1 k2, good_view cells2 (Some x) hm' B' (add_block bi df T) h v k1 k2 /\
      (h = bi_hash bi -> k2 = []) /\ (h <> bi_hash bi -> bi_number bi' <= bi_number hd).

(** Committing the child [x] of the committed block. *)
Lemma capped_views_child hm' B' :
  l2 = [] -> B' ≡ overlay_layer x (t_state t) ->
  keeps (bi_number (dl_block_info x)) (<[bi_hash bi := nv]> (si_hash_diff_map (t_index t))) hm' ->
  capped_views hm' B'.
Proof.
  intros Hl2 HB Hk h v bi' s Hv Hs Hdesc.
  destruct (child_layer Hl2) as (Hx & Hpar & Hin).
  destruct new_tree_root as (rs & Hroot & Hrs).
  pose proof (add_block_tree _ _ _ _ _ (ti_tree _ _ _ Hi) Hb) as HT.
  pose proof (linked_new nv nv_head) as Hnew.
  assert (as_info B' = dl_block_info x) as Hinfo by apply HB. rewrite Hinfo in Hdesc.
  pose proof (layer_in_add _ _ _ _ _ _ Hb Hx) as Hx'.
  destruct (gv_closed _ _ _ _ _ _ _ _ _ Hnew x) as (vx & Hvx & Hhx); [set_solver|].
  destruct (decide (h = bi_hash bi)) as [->|Hne].
  - destruct (good_view_commit _ _ _ hm' _ B' _ _ _ _ _ above x vx rs HT Hroot Hnew above_chain Hx'
      Hpar Hvx Hhx HB Hk Hdesc) as (k1 & k2 & Hgv & Hk1).
    rewrite <- app_comm_cons, HL in Hk1. destruct (capped_new _ _ _ _ Hgv (eq_sym Hk1)) as [-> Hgv'].
    rewrite lookup_insert_eq in Hv. injection Hv as <-. exists k1, []. done.
  - assert (Hd' : desc (add_block bi df T) (t_root t) h).
    { eapply desc_trans; [|done]. destruct Hx' as [_ _ (? & ? & ? & Hxs & _)].
      econstructor; [done|]. rewrite Hpar. constructor. }
    destruct (linked_views _ _ _ _ _ Hv Hs Hd' Hne) as (k1 & k2 & Hgv & _ & Hmax).
    destruct (good_view_commit _ _ _ hm' _ B' _ _ _ _ _ above x vx rs HT Hroot Hgv above_chain Hx'
      Hpar Hvx Hhx HB Hk Hdesc) as (k1' & k2' & Hgv' & _). by exists k1', k2'.
Qed.

(** Committing the layer the tree started with. *)
Lemma capped_views_root hm' B' :
  t_old t = None -> l2 = [x] -> dl_block_info x = as_info (t_state t) -> B' ≡ t_state t ->
  keeps (t_bottom t) (<[bi_hash bi := nv]> (si_hash_diff_map (t_index t))) hm' ->
  capped_views hm' B'.
Proof.
  intros Hold Hl2 Hx HB Hk h v bi' s Hv Hs Hdesc.
  destruct new_tree_root as (rs & Hroot & Hrs).
  pose proof (add_block_tree _ _ _ _ _ (ti_tree _ _ _ Hi) Hb) as HT.
  pose proof (linked_new nv nv_head) as Hnew. rewrite Hold in Hnew.
  rewrite (ae_info _ _ HB) in Hdesc.
  destruct (decide (h = bi_hash bi)) as [->|Hne].
  - destruct (good_view_commit_root _ _ hm' _ B' _ _ _ _ _ above x rs HT Hroot Hnew above_chain
      Hx HB Hk) as (k2 & Hgv).
    destruct (capped_new _ _ _ _ Hgv) as [-> Hgv']; [by rewrite <- HL, Hl2|].
    rewrite lookup_insert_eq in Hv. injection Hv as <-. by exists (layer :: l1), [].
  - destruct (linked_views _ _ _ _ _ Hv Hs Hdesc Hne) as (k1 & k2 & Hgv & _ & Hmax).
    rewrite Hold in Hgv.
    destruct (good_view_commit_root _ _ hm' _ B' _ _ _ _ _ above x rs HT Hroot Hgv above_chain
      Hx HB Hk) as (k2' & Hgv'). by exists k1, k2'.
Qed.

(** The invariant after the commit of [x]. *)
Lemma step_capped t' :
  healthy (t_db t') -> cache_at (t_cache_layer t') (t_state t') -> t_limit t' = t_limit t ->
  t_old t' = Some x -> t_cells t' = cells2 -> t_fresh t' = Datatypes.S (t_fresh t) ->
  si_latest (t_index t') = nv ->
  keeps (t_bottom t') (<[bi_hash bi := nv]> (si_hash_diff_map (t_index t)))
    (si_hash_diff_map (t_index t')) ->
  (forall n v, si_num_diff_map (t_index t') !! n = Some v <->
    <[bi_number bi := nv]> (si_num_diff_map (t_index t)) !! n = Some v /\
    (t_bottom t' = 0 \/ t_bottom t' <= n)) ->
  capped_views (si_hash_diff_map (t_index t')) (t_state t') ->
  (exists rs, T !! t_root t' = Some (as_info (t_state t'), rs) /\ rs ≡ t_state t') ->
  desc T (t_root t') (bi_parent_hash bi) ->
  t_bottom t <= t_bottom t' -> bi_number hd < bi_number bi ->
  bi_number bi - t_bottom t' = Z.of_nat (t_limit t) ->
  tree_inv t' (add_block bi df T) (next_head hd bi).
Proof.
  intros Hd Hca Hlm Hold Hcells Hfresh Hlat Hk Hnm Hviews Hroot Hdp Hbt Hlt Hdep.
  assert (next_head hd bi = bi) as Hnh by (unfold next_head; rewrite decide_True by lia; done).
  assert (Hnv : head_layer nv = LDiff layer) by apply nv_head.
  assert (Hdesc : desc (add_block bi df T) (t_root t') (bi_hash bi)).
  { econstructor; [|by eapply desc_mono]. rewrite (add_block_lookup _ _ _ pi sp) by done.
    by rewrite decide_True. }
  apply (inv_step t T hd bi df pi sp t' nv layer); rewrite ?Hnh; try done.
  - rewrite Hcells, Hfresh. unfold cells2. intros n. rewrite dom_insert, elem_of_union, elem_of_singleton.
    intros [->|Hn]; apply cells1_fresh; [|done]. destruct linked_chain as [Hc _].
    eapply chain_ids; [done|]. rewrite map_app. set_solver.
  - pose proof (ti_limit _ _ _ Hi). lia.
  - intros h v bi' s Hv Hs Hdh. destruct (Hviews _ _ _ _ Hv Hs Hdh) as (k1 & k2 & Hgv & Hk2 & Hmax).
    exists k1, k2. unfold good, tail_ok. rewrite Hold, Hcells. split; [done|]. intros Hne.
    destruct (decide (h = bi_hash bi)) as [->|Hh]; [by rewrite Hk2 in Hne|].
    specialize (Hmax Hh). lia.
  - right. destruct Hk as [_ Hk]. pose proof (ti_limit _ _ _ Hi).
    rewrite Hlat, (Hk _ _ layer), Hnm, !lookup_insert_eq by done. cbn. split_and!; try done; lia.
  - by rewrite Hold, Hlm.
Qed.
End capped.
End step.
End tree_inv.
