(* ===== verification/TreeUpdate.v ===== *)
(** * Updates and reads of the state tree

    [StateTree::new], [update_block], [state_at] and [get_block_by_id]
    (state_tree/tree.rs) against the block tree: a new tree stands for its
    database's last block, an update adds one block, and a handle on a block
    reads that block's state. *)

From stdpp Require Import prelude gmap list sorting.
From S2P Require Import Prelude Types QuickCache Backend Layers LayersFacts CommitFacts StateTree TreeSpec TreeFacts.

#[local] Open Scope Z_scope.

Section update.
Context `{RevmBytecode}.
Context {C : Type -> Type -> Type} `{QuickCacheOk C}.
Context {D S E : Type} `{!StateDBProvider D S E} `{!BackendSpec D S} `{!BackendOk D S E}.

Implicit Types (t : StateTree C D) (T : BlockTree).

(** ** A new tree *)

(** A database a tree can start on: it does not fail, its last block is well
    formed, and it answers that block's hash under its number. *)
Record can_start (d : D) : Prop := {
  cs_healthy : healthy d;
  cs_u64 : is_u64 (bi_number (as_info (Backend.head d)));
  cs_valid : valid_block (as_info (Backend.head d)) empty_diff;
  cs_hash : as_hash (Backend.head d) (bi_number (as_info (Backend.head d))) =
    bi_hash (as_info (Backend.head d));
  cs_parent : bi_parent_hash (as_info (Backend.head d)) <> bi_hash (as_info (Backend.head d));
}.

(** The block tree of a database: its last block. *)
Definition start_tree (B : AState) : BlockTree := {[ bi_hash (as_info B) := (as_info B, B) ]}.

Lemma start_lookup B h x :
  start_tree B !! h = Some x <-> h = bi_hash (as_info B) /\ x = (as_info B, B).
Proof. unfold start_tree. rewrite lookup_singleton_Some. naive_solver. Qed.

Lemma bottom_absorbed B n :
  as_hash B (bi_number (as_info B)) = bi_hash (as_info B) ->
  absorbed [new_diff_layer (as_info B) empty_diff n] B.
Proof. intros Hh. split; cbn; try done. intros k. case_decide; by subst. Qed.

Lemma bottom_chain (B : AState) :
  chain {[ 0%nat := LCacheDisk ]} (LDiff (new_diff_layer (as_info B) empty_diff 0))
    [new_diff_layer (as_info B) empty_diff 0].
Proof. econstructor; [apply lookup_singleton_eq | constructor]. Qed.

Lemma bottom_good (B : AState) old hm :
  valid_block (as_info B) empty_diff ->
  as_hash B (bi_number (as_info B)) = bi_hash (as_info B) ->
  let l := new_diff_layer (as_info B) empty_diff 0 in
  good_view {[ 0%nat := LCacheDisk ]} old hm B (start_tree B) (bi_hash (as_info B))
    (mkView [l] LCacheDisk) [] [l].
Proof.
  intros Hv Hh l. pose proof (bottom_absorbed B 0 Hh) as Habs. split; cbn.
  - by exists [l].
  - done.
  - constructor; [apply layer_ok_new | done].
  - constructor.
  - apply bottom_chain.
  - repeat constructor.
  - right. exists l. split_and!; try done. intros _.
    split; [apply layer_ok_new | done | by apply explicit_diff_no_deletes | by right].
  - intros l' Hl'. by apply elem_of_nil in Hl'.
Qed.

Lemma new_tree_ok (d : D) config :
  can_start d -> (1 <= diff_tree_depth_limit config)%nat ->
  exists t, new_tree (C := C) (E := E) d config = Ok t /\
    tree_inv t (start_tree (Backend.head d)) (as_info (Backend.head d)) /\
    t_db t = d /\ t_config t = config.
Proof.
  intros [Hd Hu Hv Hh Hp] Hlim. destruct (ok_latest d Hd) as (s & Hs & Hf).
  unfold new_tree. rewrite Hs, ok_info by (done || by apply ok_usable). rewrite (ae_info _ _ (ok_fresh d s Hd Hf)).
  set (B := Backend.head d) in *.
  assert (Hsort : descending [new_diff_layer (as_info B) empty_diff 0]) by (repeat constructor).
  rewrite (build_chain _ _ _ (bottom_chain B) Hsort).
  rewrite (build_chain _ _ [] (chain_nil _)) by constructor.
  eexists. split; [done|]. split; [|done]. split; unfold t_root, t_bottom, t_state, t_old; cbn; fold B; try done.
  - split; cbn; try done; [intros _; apply cache_coherent_new | |]; by destruct (enable_cache config).
  - split.
    + by intros h bi st [-> [= -> ->]]%start_lookup.
    + by intros h bi st [-> [= -> ->]]%start_lookup.
    + by intros h bi st pi sp [-> [= -> ->]]%start_lookup [? _]%start_lookup.
    + by intros h bi st [-> [= -> ->]]%start_lookup.
  - exists B. by rewrite start_lookup.
  - intros n. rewrite dom_singleton_L, elem_of_singleton. lia.
  - intros h v [<- <-]%lookup_singleton_Some. eexists _, B. split; [done|]. by apply start_lookup.
  - intros n v [<- <-]%lookup_singleton_Some. eexists _, _. split; [apply lookup_singleton_eq|done].
  - intros h v bi st [<- <-]%lookup_singleton_Some [_ [= -> ->]]%start_lookup _.
    eexists [], _. split; [by apply bottom_good|].
    unfold tail_ok, t_old. cbn. by destruct (enable_cache config).
  - intros h bi st [-> _]%start_lookup _. rewrite lookup_singleton_eq. by eexists.
  - by intros h v l [<- <-]%lookup_singleton_Some [= <-].
  - exists B. by apply start_lookup.
  - constructor.
  - by intros h bi st [-> [= -> ->]]%start_lookup.
  - left. split_and!; try done. by destruct (enable_cache config).
  - unfold t_limit. destruct (enable_cache config); cbn; lia.
Qed.
(** ** An update *)

Section step.
Context (t : StateTree C D) (T : BlockTree) (hd bi pi : BlockInfo) (df : BlockStorageDiff) (sp : AState).
Hypothesis Hi : tree_inv t T hd.
Hypothesis Hb : block_ok T bi df pi sp.
Hypothesis Hpd : desc T (t_root t) (bi_parent_hash bi).

(** What the update wrote to the database: nothing, the layer of a child of
    the committed block, or that block's own layer again. *)
Definition wrote (t' : StateTree C D) : Prop :=
  t_db t' = t_db t \/
  exists s x, fresh (t_db t) s /\ committable x (t_state t) /\
    (bi_parent_hash (dl_block_info x) = t_root t \/ dl_block_info x = as_info (t_state t)) /\
    db_update_block (t_db t) s (dl_block_info x) (dl_block_diff x) = (Ok tt, t_db t').

(** The update went through, to a tree that stands for the grown block tree. *)
Definition updated : Prop := exists t', update_block (E := E) t bi df = (Ok tt, t') /\
  tree_inv t' (add_block bi df T) (next_head hd bi) /\ wrote t'.

Context (pv : FlattenedLayerView) (l1 l2 : list DiffLayer).
Hypothesis Hpv : si_hash_diff_map (t_index t) !! bi_parent_hash bi = Some pv.
Hypothesis Hg : good t T (bi_parent_hash bi) pv l1 l2.
Hypothesis Htail : tail_ok t hd pi l2.
Hypothesis Hnum : bi_number bi = t_bottom t + Z.of_nat (length l1) + 1.

Let layer := new_diff_layer bi df (t_fresh t).
Let nv0 := mkView (layer :: l1 ++ l2) LCacheDisk.
Let cells1 := <[t_fresh t := head_layer pv]> (t_cells t).

Lemma build_linked : build cells1 (LDiff layer) = Some nv0.
Proof.
  destruct (linked_new t T hd bi pi df sp Hi Hb pv l1 l2 Hg nv0 eq_refl) as [_ _ _ _ Hc Hd _ _].
  by apply build_chain.
Qed.

(** Once the new block's view [nv] is in, every head is a diff layer. *)
Lemma index_heads nv h v :
  head_layer nv = LDiff layer ->
  <[bi_hash bi := nv]> (si_hash_diff_map (t_index t)) !! h = Some v -> exists l, head_layer v = LDiff l.
Proof.
  intros Hnv [[_ <-]|[_ Hv]]%lookup_insert_Some; [by eauto|].
  destruct (ti_index _ _ _ Hi _ _ Hv) as (l & _ & Hl & _). eauto.
Qed.

Lemma update_side : bi_number bi < bi_number hd -> updated.
Proof.
  intros Hlt. destruct (ok_latest _ (ti_healthy _ _ _ Hi)) as (s & Hs & Hf).
  unfold updated, update_block.
  rewrite (new_hash _ _ _ _ _ _ _ Hi Hb), Hs, Hpv, (latest_info _ _ _ _ Hi Hf).
  rewrite decide_False by lia. fold layer cells1. rewrite build_linked.
  eexists. split; [done|]. split; [|by left].
  eapply (step_add t T hd bi pi df sp Hi Hb Hpd pv l1 l2 Hpv Hg); cbn; fold layer nv0; try done; try lia.
  - split; [done|]. intros h v l Hl. split; [|by intros []]. intros Hv. split; [done|right].
    apply lookup_insert_Some in Hv as [[_ <-]|[_ Hv]]; [|by eapply ti_pruned].
    injection Hl as <-. cbn. lia.
  - intros n v. split; [|by intros []]. intros Hv. split; [done|right].
    apply lookup_insert_Some in Hv as [[<- _]|[_ Hv]]; [lia|].
    destruct (ti_num _ _ _ Hi _ _ Hv) as (h & l & Hh & Hl & <-). by eapply ti_pruned.
  - by rewrite decide_False by lia.
Qed.

Lemma update_within :
  bi_number hd <= bi_number bi -> (length (layer :: l1 ++ l2) <= t_limit t)%nat -> updated.
Proof.
  intros Hle Hlen. destruct (ok_latest _ (ti_healthy _ _ _ Hi)) as (s & Hs & Hf).
  destruct (linked_new t T hd bi pi df sp Hi Hb pv l1 l2 Hg nv0 eq_refl) as [_ _ _ _ Hc Hd _ _].
  unfold updated, update_block.
  rewrite (new_hash _ _ _ _ _ _ _ Hi Hb), Hs, Hpv, (latest_info _ _ _ _ Hi Hf).
  rewrite decide_True by done. fold layer cells1.
  rewrite (cap_within _ _ _ _ _ _ _ Hc Hd Hlen (ti_healthy _ _ _ Hi) Hf (ti_cache _ _ _ Hi)).
  cbv beta iota zeta. fold cells1. rewrite build_linked.
  destruct (clear_diff_map_ok (E := E) (set_latest nv0 (index_insert bi nv0 (t_index t)))
    (t_bottom t)) as (idx' & Hclear & Hlat & Hk & Hnm).
  { intros h v. by apply index_heads. }
  change (bi_number (as_info (Backend.head (t_db t)))) with (t_bottom t). rewrite Hclear.
  eexists. split; [done|]. split; [|by left].
  eapply (step_add t T hd bi pi df sp Hi Hb Hpd pv l1 l2 Hpv Hg); cbn; fold layer nv0; try done.
  by rewrite decide_True.
Qed.

(** The update commits the oldest layer [x] of the chain. *)
Section capped.
Context (ls : list DiffLayer) (above x : DiffLayer).
Hypothesis HL : layer :: l1 ++ l2 = ls ++ [above; x].
Hypothesis Hlen : t_limit t = Datatypes.S (length ls).
Hypothesis Hle : bi_number hd < bi_number bi.

Let nv := mkView (ls ++ [above]) LCacheDisk.

Lemma update_capped :
  bi_parent_hash (dl_block_info x) = t_root t \/ dl_block_info x = as_info (t_state t) ->
  (forall old, t_old t = Some old ->
     bi_hash (dl_block_info old) = bi_parent_hash (dl_block_info x)) ->
  committable x (t_state t) ->
  (forall B' hm', B' ≡ overlay_layer x (t_state t) ->
     keeps (bi_number (as_info B')) (<[bi_hash bi := nv]> (si_hash_diff_map (t_index t))) hm' ->
     capped_views t T hd bi df pv ls above x hm' B') ->
  (forall B', B' ≡ overlay_layer x (t_state t) ->
     (exists rs, T !! bi_hash (as_info B') = Some (as_info B', rs) /\ rs ≡ B') /\
     desc T (bi_hash (as_info B')) (bi_parent_hash bi)) ->
  bi_number bi - bi_number (dl_block_info x) = Z.of_nat (t_limit t) ->
  updated.
Proof.
  intros Hbelow Hlink Hcm Hviews Hroot Hdep.
  destruct (ok_latest _ (ti_healthy _ _ _ Hi)) as (s & Hs & Hf).
  destruct (linked_chain t T hd bi pi df sp Hi Hb pv l1 l2 Hg ls above x HL) as [Hc Hd].
  destruct (capped_chain t T hd bi pi df sp Hi Hb pv l1 l2 Hg ls above x HL) as [Hc' Hd'].
  destruct (commit_ok _ x _ _ (ti_healthy _ _ _ Hi) Hf (ti_cache _ _ _ Hi) Hcm Hlink)
    as (cache' & d' & Hcommit & Hh' & Hst & Hca & Hold & Hen & Hup).
  unfold updated, update_block.
  rewrite (new_hash _ _ _ _ _ _ _ Hi Hb), Hs, Hpv, (latest_info _ _ _ _ Hi Hf).
  rewrite decide_True by lia. change (diff_tree_depth_limit (t_config t)) with (t_limit t).
  rewrite (cap_over _ _ _ _ _ _ _ _ _ _ _ Hc Hd Hlen Hcommit Hold).
  cbv beta iota zeta. rewrite (build_chain _ _ _ Hc' Hd'). fold nv.
  destruct (clear_diff_map_ok (E := E) (set_latest nv (index_insert bi nv (t_index t)))
    (bi_number (dl_block_info x))) as (idx' & Hclear & Hlat & Hk & Hnm).
  { intros h v. apply index_heads. by eapply nv_head. }
  rewrite Hclear. eexists. split; [done|]. split; [|right; by exists s, x].
  assert (Hx : as_info (Backend.head d') = dl_block_info x) by apply Hst.
  rewrite <- Hx in Hk, Hnm, Hdep.
  destruct (Hroot _ Hst) as [Hrs Hdp].
  eapply (step_capped t T hd bi pi df sp Hi Hb Hpd pv l1 l2 Hpv Hg ls above x HL); cbn; try done.
  - by apply Hviews.
  - unfold t_bottom, t_state. cbn. rewrite Hx. eapply extends_le, Hcm.
Qed.
End capped.

(** The parent's chain still links the layer of the committed block, and the
    new block reaches the head's height: [cap_diff_to_db] pops that layer a
    second time and [commit] asserts that it extends itself. *)
Lemma update_stuck old y :
  t_old t = Some old -> l2 = [y] -> bi_number hd <= bi_number bi -> bi_number pi <= bi_number hd ->
  exists t', update_block (E := E) t bi df = (Panic, t').
Proof.
  intros Hold Hl2 Hle Hpi. destruct (ok_latest _ (ti_healthy _ _ _ Hi)) as (s & Hs & Hf).
  destruct (linked_new t T hd bi pi df sp Hi Hb pv l1 l2 Hg nv0 eq_refl) as [_ _ _ _ Hc Hd _ _].
  destruct (gv_root _ _ _ _ _ _ _ _ _ Hg) as [?|(y' & Hy' & Hy & _)]; [congruence|].
  assert (y' = y) as -> by congruence. rewrite Hl2 in Hc, Hd.
  pose proof (ti_depth _ _ _ Hi) as Hdep. unfold tail_ok in Htail. rewrite Hold in Hdep, Htail.
  pose proof (bo_number _ _ _ _ _ Hb) as Hn. assert (bi_number pi < bi_number hd) by (by apply Htail; subst).
  unfold update_block.
  rewrite (new_hash _ _ _ _ _ _ _ Hi Hb), Hs, Hpv, (latest_info _ _ _ _ Hi Hf).
  rewrite decide_True by done. change (diff_tree_depth_limit (t_config t)) with (t_limit t).
  rewrite (cap_panic _ _ _ _ _ _ _ _ Hc Hd); [by eexists|cbn; lia|].
  apply (commit_unlinked _ _ _ _ old); [done|].
  rewrite (ca_old _ _ (ti_cache _ _ _ Hi) _ Hold), Hy. intros Heq.
  destruct (ti_root _ _ _ Hi) as (rs & Hr & _). unfold t_root in Hr.
  pose proof (bt_number _ (ti_tree _ _ _ Hi) _ _ _ _ _ Hr ltac:(by rewrite <- Heq)). lia.
Qed.
End step.

Lemma split_last2 {A} (l : list A) n :
  length l = Datatypes.S (Datatypes.S n) -> exists ls a x, l = ls ++ [a; x] /\ length ls = n.
Proof.
  intros Hl. destruct l as [|x l _] using rev_ind; [done|].
  rewrite length_app in Hl. cbn in Hl.
  destruct l as [|a l _] using rev_ind; [cbn in Hl; lia|].
  rewrite length_app in Hl. cbn in Hl. exists l, a, x. rewrite <- (assoc_L (++)). split; [done|lia].
Qed.

(** *** Every case of an update *)

Section cases.
Context (t : StateTree C D) (T : BlockTree) (hd bi pi : BlockInfo) (df : BlockStorageDiff) (sp : AState).
Hypothesis Hi : tree_inv t T hd.
Hypothesis Hb : block_ok T bi df pi sp.
Hypothesis Hpd : desc T (t_root t) (bi_parent_hash bi).

Context (pv : FlattenedLayerView) (l1 l2 : list DiffLayer).
Hypothesis Hpv : si_hash_diff_map (t_index t) !! bi_parent_hash bi = Some pv.
Hypothesis Hg : good t T (bi_parent_hash bi) pv l1 l2.
Hypothesis Htail : tail_ok t hd pi l2.
Hypothesis Hnum : bi_number bi = t_bottom t + Z.of_nat (length l1) + 1.
Hypothesis Hpi : bi_number pi <= bi_number hd.

Let layer := new_diff_layer bi df (t_fresh t).

(** Nothing waits below the child of the committed block. *)
Lemma update_child :
  t_old t <> None -> l2 = [] -> (t_limit t < length (layer :: l1 ++ l2))%nat ->
  updated t T hd bi df.
Proof.
  intros Hold Hl2 Hlen. pose proof (ti_depth _ _ _ Hi) as Hdep.
  pose proof (bo_number _ _ _ _ _ Hb) as Hn. pose proof (ti_limit _ _ _ Hi) as Hlim.
  destruct (t_old t) as [old|] eqn:Ho; [|done].
  assert (length l1 = t_limit t) as Hl1.
  { subst l2. cbn in Hlen. rewrite app_nil_r in Hlen. lia. }
  destruct (split_last2 (layer :: l1 ++ l2) (pred (t_limit t))) as (ls & a & x & HL & Hls).
  { subst l2. cbn. rewrite app_nil_r. lia. }
  destruct (child_layer t T hd bi pi df sp Hi Hb Hpd pv l1 l2 Hpv Hg ls a x HL Hl2) as (Hx & Hpar & Hin).
  pose proof Hx as [Hxok Hxv (xs & xp & xsp & HTx & HTp & Hxs & Hxe)].
  destruct (ti_root _ _ _ Hi) as (rs & Hr & Hrs). rewrite Hpar, Hr in HTp. injection HTp as <- <-.
  assert (Hxn : bi_number (dl_block_info x) = t_bottom t + 1).
  { eapply (bt_number _ (ti_tree _ _ _ Hi)); [done|by rewrite Hpar]. }
  eapply (update_capped t T hd bi pi df sp Hi Hb Hpd pv l1 l2 Hpv Hg ls a x HL).
  all: try lia.
  - intros o Hoo. by rewrite (ca_old _ _ (ti_cache _ _ _ Hi) _ Hoo), Hpar.
  - split; try done; [by rewrite <- Hrs | left; unfold t_bottom in Hxn; lia].
  - intros B' hm' HB. rewrite (ae_info _ _ HB). 
    by apply (capped_views_child t T hd bi pi df sp Hi Hb Hpd pv l1 l2 Hpv Hg ls a x HL).
  - intros B' HB. rewrite (ae_info _ _ HB). cbn. split.
    + exists xs. split; [done|]. by rewrite HB, Hxs, Hrs.
    + subst l2. rewrite app_nil_r in HL.
      assert (exists k, l1 = k ++ [x]) as [k ->].
      { destruct ls as [|l' ls']; cbn in HL; injection HL as _ ->; [by exists []|].
        exists (ls' ++ [a]). by rewrite <- (assoc_L (++)). }
      destruct (path_snoc _ _ _ _ _ (gv_path _ _ _ _ _ _ _ _ _ Hg)) as (_ & _ & Hp).
      by eapply path_desc.
Qed.

(** The layer the tree started with is still to be committed. *)
Lemma update_root :
  t_old t = None -> (t_limit t < length (layer :: l1 ++ l2))%nat -> updated t T hd bi df.
Proof.
  intros Ho Hlen. pose proof (ti_depth _ _ _ Hi) as Hdep. unfold tail_ok in Htail.
  rewrite Ho in Hdep, Htail. pose proof (bo_number _ _ _ _ _ Hb) as Hn.
  pose proof (ti_limit _ _ _ Hi) as Hlim.
  destruct (gv_root _ _ _ _ _ _ _ _ _ Hg) as [?|(x & Hl2 & Hx & Habs & Hok & Hcm)]; [done|].
  assert (length (layer :: l1 ++ l2) = Datatypes.S (t_limit t)) as HlenL.
  { rewrite Hl2 in Hlen |- *. cbn in Hlen |- *. rewrite length_app in Hlen |- *. cbn in Hlen |- *. lia. }
  destruct (split_last2 (layer :: l1 ++ l2) (pred (t_limit t))) as (ls & a & x' & HL & Hls); [lia|].
  assert (x' = x) as ->.
  { rewrite Hl2, app_comm_cons in HL. change (ls ++ [a; x']) with (ls ++ [a] ++ [x']) in HL.
    rewrite (assoc_L (++)) in HL. by apply app_inj_tail in HL as [_ ?]. }
  destruct (ti_root _ _ _ Hi) as (rs & Hr & Hrs).
  assert (HB' : forall B', B' ≡ overlay_layer x (t_state t) -> B' ≡ t_state t).
  { intros B' HB. by rewrite HB. }
  rewrite Hl2 in HlenL. cbn in HlenL. rewrite length_app in HlenL. cbn in HlenL.
  eapply (update_capped t T hd bi pi df sp Hi Hb Hpd pv l1 l2 Hpv Hg ls a x HL).
  all: try lia.
  - by right.
  - intros o Hoo. congruence.
  - by apply Hcm.
  - intros B' hm' HB%HB'. rewrite (ae_info _ _ HB).
    by apply (capped_views_root t T hd bi pi df sp Hi Hb pv l1 l2 Hg ls a x HL).
  - intros B' HB%HB'. rewrite (ae_info _ _ HB). split; [|done].
    exists rs. split; [done|]. by rewrite HB.
  - rewrite Hx. unfold t_bottom in *. lia.
Qed.
End cases.

(** An update of a tree with a block on a descendant of the committed one goes
    through, unless the block is on a fork rooted at the committed block and
    reaches the head's height. *)
Lemma update_block_total t T hd bi pi df sp :
  tree_inv t T hd -> block_ok T bi df pi sp -> desc T (t_root t) (bi_parent_hash bi) ->
  updated t T hd bi df \/
  (t_old t <> None /\ bi_number bi = bi_number hd /\
   exists t', update_block (E := E) t bi df = (Panic, t')).
Proof.
  intros Hi Hb Hpd.
  destruct (parent_view t T hd bi pi df sp Hi Hb Hpd) as (pv & l1 & l2 & Hpv & Hg & Htail & Hnum & Hpi).
  destruct (decide (bi_number bi < bi_number hd)).
  { left. by eapply update_side. }
  destruct (decide (length (new_diff_layer bi df (t_fresh t) :: l1 ++ l2) <= t_limit t)%nat).
  { left. eapply update_within; eauto; lia. }
  destruct (t_old t) as [old|] eqn:Ho.
  - destruct (gv_root _ _ _ _ _ _ _ _ _ Hg) as [Hl2|(y & Hl2 & Hy)].
    + left. eapply update_child; eauto; [congruence|lia].
    + right. unfold tail_ok in Htail. rewrite Ho in Htail. pose proof (bo_number _ _ _ _ _ Hb).
      assert (bi_number pi < bi_number hd) by (apply Htail; by rewrite Hl2).
      split_and!; [done|lia|]. eapply update_stuck; eauto; [unfold tail_ok; by rewrite Ho|lia].
  - left. eapply update_root; eauto. lia.
Qed.
End update.
