(* ===== verification/TreeReads.v ===== *)
(** * Reads of the state tree, and runs of reads and updates

    The read operations of a handle as data ([ReadOp]), what each answers on
    an abstract state, and the step relation of a tree under any interleaving
    of reads and updates. *)

From stdpp Require Import prelude gmap list sorting.
From S2P Require Import Prelude Types QuickCache Backend Layers LayersFacts CommitFacts StateTree TreeSpec TreeFacts.
From S2P Require Import TreeUpdate.

#[local] Open Scope Z_scope.

Section reads.
Context `{RevmBytecode}.

(** The methods of [StateDB] on a handle. *)
Inductive ReadOp :=
| RBasic (a : H256)
| RStorage (a i : H256)
| RCode (h : H256)
| RBlockHash (n : u64)
| RBasicMany (l : list H256)
| RStorageMany (l : list (H256 * H256))
| RCodeMany (l : list H256).

Inductive Answer :=
| AAccounts (l : list (option AccountInfo))
| AWords (l : list Z)
| ACodes (l : list Bytecode).

(** Keys of the machine's width. *)
Definition op_ok (op : ReadOp) : Prop :=
  match op with
  | RBasic a => is_u256 a
  | RStorage a i => is_u256 a /\ is_u256 i
  | RCode h => is_u256 h
  | RBlockHash n => is_u64 n
  | RBasicMany l => Forall is_u256 l
  | RStorageMany l => Forall slot_key_ok l
  | RCodeMany l => Forall is_u256 l
  end.

(** The specification of a read. *)
Definition answer_of (s : AState) (op : ReadOp) : Answer :=
  match op with
  | RBasic a => AAccounts [as_account s a]
  | RStorage a i => AWords [as_storage s a i]
  | RCode h => ACodes [as_code s h]
  | RBlockHash n => AWords [as_hash s n]
  | RBasicMany l => AAccounts (map (as_account s) l)
  | RStorageMany l => AWords (map (slot_value s) l)
  | RCodeMany l => ACodes (map (as_code s) l)
  end.

#[export] Instance answer_of_proper : Proper ((≡) ==> (=) ==> (=)) answer_of.
Proof.
  intros s t [Ha Hs Hc Hh _] op ? <-.
  destruct op; cbn; rewrite ?Ha, ?Hs, ?Hc, ?Hh; f_equal; try done; apply map_ext; intros; auto.
  apply Hs.
Qed.

(** A read that asks only for what its state had: code it held, hashes up to
    its block. *)
Definition within (s : AState) (op : ReadOp) : Prop :=
  match op with
  | RCode x => as_code s x <> bytecode_default
  | RCodeMany l => Forall (fun x => as_code s x <> bytecode_default) l
  | RBlockHash n => n <= bi_number (as_info s)
  | _ => True
  end.

#[export] Instance within_proper : Proper ((≡) ==> (=) ==> iff) within.
Proof.
  assert (Hmp : forall s t op, s ≡ t -> within s op -> within t op).
  { intros s t op [Ha Hs Hc Hh Hi] Hw. destruct op as [a|a i|x|n|l|l|l]; cbn in *; rewrite <- ?Hc, <- ?Hi; try done.
    eapply Forall_impl; [exact Hw|]. intros x Hx. by rewrite <- Hc. }
  intros s t Hst op ? <-. split; apply Hmp; [done|by symmetry].
Qed.

Lemma persists_answer s t op : persists s t -> within s op -> answer_of t op = answer_of s op.
Proof.
  intros [Ha Hs Hi Hh Hc] Hw. destruct op as [a|a i|x|n|l|l|l]; cbn in *.
  - by rewrite Ha.
  - by rewrite Hs.
  - by destruct (Hc x) as [-> | ?].
  - by rewrite Hh.
  - f_equal. by apply map_ext.
  - f_equal. apply map_ext. intros k. apply Hs.
  - f_equal. apply map_ext_in. intros x Hx. eapply Forall_forall in Hw; [|by apply list_elem_of_In]. by destruct (Hc x) as [-> | ?].
Qed.

Context {C : Type -> Type -> Type} `{QuickCacheOk C}.
Context {D S E : Type} `{!StateDBProvider D S E} `{!BackendSpec D S} `{!BackendOk D S E}.

Implicit Types (t : StateTree C D) (T : BlockTree).

Definition wrap {A} (f : A -> Answer) (r : Res (TreeError E) A * CacheDiskLayer C)
    : Res (TreeError E) Answer * CacheDiskLayer C :=
  (f <$> r.1, r.2).

(** Running a read through a handle. *)
Definition run_op (d : D) (h : HybridStateDB S) (cache : CacheDiskLayer C) (op : ReadOp)
    : Res (TreeError E) Answer * CacheDiskLayer C :=
  match op with
  | RBasic a => wrap (fun x => AAccounts [x]) (h_basic d h cache a)
  | RStorage a i => wrap (fun x => AWords [x]) (h_storage d h cache (a, i))
  | RCode x => wrap (fun x => ACodes [x]) (h_code_by_hash d h cache x)
  | RBlockHash n => wrap (fun x => AWords [x]) (h_block_hash d h cache n)
  | RBasicMany l => wrap AAccounts (h_basic_many d h cache l)
  | RStorageMany l => wrap AWords (h_storage_many d h cache l)
  | RCodeMany l => wrap ACodes (h_code_by_hash_many d h cache l)
  end.

Lemma reads_as_wrap {A} (f : A -> Answer) r v (h : HybridStateDB S) cache B :
  reads_as (E := E) r v h cache B -> reads_as (wrap f r) (f v) h cache B.
Proof. intros (c & -> & Hm & Hc). by exists c. Qed.

(** A readable handle answers every read from its state. *)
Lemma run_op_ok d h cache B op :
  readable d h cache B -> op_ok op ->
  reads_as (run_op d h cache op) (answer_of (handle_state h B) op) h cache B.
Proof.
  intros Hr Hop. destruct op; cbn in *; [| destruct Hop | | | | |].
  - apply (reads_as_wrap (fun x => AAccounts [x])). by apply h_basic_ok.
  - apply (reads_as_wrap (fun x => AWords [x])). by apply h_storage_ok.
  - apply (reads_as_wrap (fun x => ACodes [x])). by apply h_code_ok.
  - apply (reads_as_wrap (fun x => AWords [x])). by apply h_block_hash_ok.
  - apply (reads_as_wrap AAccounts). by apply h_basic_many_ok.
  - apply (reads_as_wrap AWords). by apply h_storage_many_ok.
  - apply (reads_as_wrap ACodes). by apply h_code_many_ok.
Qed.

(** The tree after a read: only the shared cache changes. *)
Definition with_cache t (c : CacheDiskLayer C) : StateTree C D :=
  mkTree (t_index t) (t_cells t) (t_fresh t) c (t_config t) (t_db t).

Lemma tree_inv_cache t T hd c :
  tree_inv t T hd -> same_meta (t_cache_layer t) c ->
  (cd_enabled c = true -> cache_coherent c (t_state t)) -> tree_inv (with_cache t c) T hd.
Proof.
  intros Hi (Ho & Hh & He) Hc.
  assert (Hold : t_old (with_cache t c) = t_old t) by (by unfold t_old; cbn).
  split; cbn; try apply Hi.
  - destruct (ti_cache _ _ _ Hi) as [_ Ch Co]. split; [done|by rewrite Hh|].
    intros l Hl. apply Co. by rewrite <- Ho.
  - intros h v bi s. unfold good, tail_ok. rewrite Hold. apply (ti_good _ _ _ Hi).
  - rewrite Hold. apply (ti_latest _ _ _ Hi).
  - rewrite Hold. apply (ti_depth _ _ _ Hi).
Qed.

(** A handle on a good view answers the block's state, and its refills keep
    the tree in order. *)
Lemma view_read t T hd h v l1 l2 bi s st height op :
  tree_inv t T hd -> good t T h v l1 l2 -> T !! h = Some (bi, s) -> fresh (t_db t) st -> op_ok op ->
  exists c, run_op (t_db t) (mkHybrid v st height) (t_cache_layer t) op = (Ok (answer_of s op), c) /\
    tree_inv (with_cache t c) T hd.
Proof.
  intros Hi Hg Hs Hf Hop.
  pose proof (view_readable _ _ _ _ _ _ _ _ height Hi Hg Hf) as Hr.
  destruct (run_op_ok _ _ _ _ op Hr Hop) as (c & Hrun & Hm & Hc). exists c. split.
  - rewrite Hrun. do 2 f_equal. destruct (good_state _ _ _ _ _ _ _ Hi Hg) as (bi' & s' & Hs' & Heq).
    simplify_eq. by rewrite <- Heq.
  - apply tree_inv_cache; [done..|]. intros He. apply Hc. unfold reads_cache. cbn.
    rewrite (gv_terminal _ _ _ _ _ _ _ _ _ Hg). by rewrite He.
Qed.

(** The head's view, before any update too. *)
Lemma latest_readable t T hd st height :
  tree_inv t T hd -> fresh (t_db t) st ->
  readable (t_db t) (mkHybrid (si_latest (t_index t)) st height) (t_cache_layer t) (t_state t) /\
  exists s, T !! bi_hash hd = Some (hd, s) /\
    view_state (fv_layers (si_latest (t_index t))) (t_state t) ≡ s.
Proof.
  intros Hi Hf. destruct (ti_hd _ _ _ Hi) as (s & Hs).
  destruct (ti_latest _ _ _ Hi) as [(Hv & _ & ->)|[Hv _]].
  - rewrite Hv. split; [|destruct (ti_root _ _ _ Hi) as (rs & Hr & Hrs)].
    + split; cbn; [apply Hi | by apply ok_usable; [apply Hi|] | done | apply ok_fresh; [apply Hi|done] |].
      unfold reads_cache. cbn. intros He. apply (ti_cache _ _ _ Hi). by destruct (cd_enabled _).
    + exists rs. split; [done|]. cbn. by symmetry.
  - destruct (ti_good _ _ _ Hi _ _ _ _ Hv Hs (ti_hd_desc _ _ _ Hi)) as (l1 & l2 & Hg & _).
    split; [by eapply view_readable|].
    destruct (good_state _ _ _ _ _ _ _ Hi Hg) as (bi' & s' & Hs' & Heq). simplify_eq. eauto.
Qed.
End reads.
