(* ===== verification/TreeTheorems.v ===== *)
(** * The state tree: theorems

    The properties of crates/leafage-evm-storage/src/state_tree, on any backend
    that keeps the contract of [Backend], with examples on [MemBackend]. *)

From stdpp Require Import prelude gmap list sorting.
From S2P Require Import Prelude Types QuickCache Backend Layers LayersFacts CommitFacts StateTree TreeSpec.
From S2P Require Import TreeFacts TreeUpdate TreeReads.

#[local] Open Scope Z_scope.

(** ** Runs *)

Section runs.
Context `{RevmBytecode}.
Context {C : Type -> Type -> Type} `{QuickCacheOk C}.
Context {D S E : Type} `{!StateDBProvider D S E} `{!BackendSpec D S} `{!BackendOk D S E}.

(** A tree, the block tree it stands for and its head. *)
Definition Config : Type := StateTree C D * BlockTree * BlockInfo.

(** What a node does to its tree: import a block on a descendant of the
    committed one, import anything it already has or whose parent it does not
    know, and serve reads on any such block, in any order. *)
Inductive tree_step : Config -> Config -> Prop :=
| step_import t T hd bi pi df sp t' :
    block_ok T bi df pi sp -> desc T (t_root t) (bi_parent_hash bi) ->
    update_block (E := E) t bi df = (Ok tt, t') ->
    tree_step (t, T, hd) (t', add_block bi df T, next_head hd bi)
| step_refused t T hd bi df r t' :
    (is_Some (si_hash_diff_map (t_index t) !! bi_hash bi) \/
     si_hash_diff_map (t_index t) !! bi_parent_hash bi = None) ->
    update_block (E := E) t bi df = (r, t') ->
    tree_step (t, T, hd) (t', T, hd)
| step_read t T hd h handle op r c :
    desc T (t_root t) h -> is_Some (T !! h) -> op_ok op ->
    tree_state_at (E := E) t (ById h) = Ok (Some handle) ->
    is_Some (si_hash_diff_map (t_index t) !! h) ->
    run_op (t_db t) handle (t_cache_layer t) op = (r, c) ->
    tree_step (t, T, hd) (with_cache t c, T, hd).

Definition config_inv (x : Config) : Prop := let '(t, T, hd) := x in tree_inv t T hd.

Lemma update_refused t T hd bi df :
  tree_inv t T hd ->
  (is_Some (si_hash_diff_map (t_index t) !! bi_hash bi) \/
   si_hash_diff_map (t_index t) !! bi_parent_hash bi = None) ->
  update_block (E := E) t bi df =
    (match si_hash_diff_map (t_index t) !! bi_hash bi with
     | Some _ => Ok tt
     | None => Err (ParentBlockHashNotFound (bi_hash bi) (bi_number bi) (bi_parent_hash bi))
     end, t).
Proof.
  intros Hi Hor. unfold update_block. destruct (si_hash_diff_map _ !! bi_hash bi) as [v|]; [done|].
  destruct Hor as [[? ?]|Hp]; [done|].
  destruct (ok_latest _ (ti_healthy _ _ _ Hi)) as (s & -> & _). by rewrite Hp.
Qed.

Lemma handle_of t T hd h v :
  tree_inv t T hd -> si_hash_diff_map (t_index t) !! h = Some v ->
  exists s, tree_state_at (E := E) t (ById h) =
      Ok (Some (mkHybrid v s (cache_view_height (t_cache_layer t)))) /\ fresh (t_db t) s.
Proof.
  intros Hi Hv. destruct (ok_latest _ (ti_healthy _ _ _ Hi)) as (s & Hs & Hf).
  exists s. unfold tree_state_at. cbn. by rewrite Hv, Hs.
Qed.

Lemma tree_step_inv x y : config_inv x -> tree_step x y -> config_inv y.
Proof.
  intros Hi Hstep. destruct Hstep as [t T hd bi pi df sp t' Hb Hd Hup | t T hd bi df r t' Hor Hup
    | t T hd h handle op r c Hd [[bi s] Hs] Hop Hat [v Hv] Hrun]; cbn [config_inv] in *.
  - destruct (update_block_total t T hd bi pi df sp Hi Hb Hd) as [(t'' & Hu & Hi' & _)|(_ & _ & t'' & Hu)];
      rewrite Hup in Hu; congruence.
  - rewrite (update_refused _ _ _ _ _ Hi Hor) in Hup. by simplify_eq.
  - destruct (handle_of _ _ _ _ _ Hi Hv) as (st & Hat' & Hf). rewrite Hat in Hat'. simplify_eq.
    destruct (ti_good _ _ _ Hi _ _ _ _ Hv Hs Hd) as (l1 & l2 & Hg & _).
    destruct (view_read _ _ _ _ _ _ _ _ _ _ (cache_view_height (t_cache_layer t)) op Hi Hg Hs Hf Hop)
      as (c' & Hrun' & Hi'). rewrite Hrun in Hrun'. by simplify_eq.
Qed.

(** A descendant of the committed block is indexed, and its handle reads its
    state. *)
Lemma indexed_read t T hd h bi s op :
  tree_inv t T hd -> T !! h = Some (bi, s) -> desc T (t_root t) h -> op_ok op ->
  exists handle c, tree_state_at (E := E) t (ById h) = Ok (Some handle) /\
    run_op (t_db t) handle (t_cache_layer t) op = (Ok (answer_of s op), c) /\
    is_Some (si_hash_diff_map (t_index t) !! h).
Proof.
  intros Hi Hs Hdesc Hop. destruct (ti_root _ _ _ Hi) as (rs & Hroot & _).
  destruct (ti_complete _ _ _ Hi h bi s Hs) as [v Hv]; [by apply (desc_number T (t_root t) h _ rs bi s (ti_tree _ _ _ Hi) Hroot)|].
  destruct (handle_of _ _ _ _ _ Hi Hv) as (st & Hat & Hf).
  destruct (ti_good _ _ _ Hi _ _ _ _ Hv Hs Hdesc) as (l1 & l2 & Hg & _).
  destruct (view_read _ _ _ _ _ _ _ _ _ _ (cache_view_height (t_cache_layer t)) op Hi Hg Hs Hf Hop)
    as (c & Hrun & _).
  by eexists _, c.
Qed.

(** The configurations a node that starts on [d] can reach. *)
Definition reachable (d : D) (config : StateTreeConfig) (x : Config) : Prop :=
  exists t, new_tree (C := C) (E := E) d config = Ok t /\
    rtc tree_step (t, start_tree (Backend.head d), as_info (Backend.head d)) x.

Lemma reachable_inv d config x :
  can_start d -> (1 <= diff_tree_depth_limit config)%nat -> reachable d config x -> config_inv x.
Proof.
  intros Hd Hl (t & Hnew & Hrun). destruct (new_tree_ok (C := C) (E := E) d config Hd Hl) as (t' & Hnew' & Hi & _).
  rewrite Hnew in Hnew'. injection Hnew' as <-. assert (Hx : config_inv (t, start_tree (Backend.head d), as_info (Backend.head d))) by done.
  clear Hi Hnew. induction Hrun as [|x y z Hs _ IH]; [done|]. eauto using tree_step_inv.
Qed.
End runs.

(** ** Importing a chain *)

Section import.
Context `{RevmBytecode}.
Context {C : Type -> Type -> Type} `{QuickCacheOk C}.
Context {D S E : Type} `{!StateDBProvider D S E} `{!BackendSpec D S} `{!BackendOk D S E}.

Abbreviation Block := (BlockInfo * BlockStorageDiff)%type.

(** The updater's loop: one block after the other, stopping at an error. *)
Fixpoint import (t : StateTree C D) (bs : list Block) : Res (TreeError E) unit * StateTree C D :=
  match bs with
  | [] => (Ok tt, t)
  | (bi, df) :: bs' => sbind (update_block t bi df) (fun _ t => import t bs')
  end.

(** The state a chain of blocks leads to. *)
Definition chain_state (s : AState) (bs : list Block) : AState :=
  fold_left (fun s '(bi, df) => apply_block bi df s) bs s.

#[export] Instance chain_state_proper : Proper ((≡) ==> (=) ==> (≡)) chain_state.
Proof.
  intros s t Hst bs ? <-. unfold chain_state. revert s t Hst.
  induction bs as [|[bi df] bs IH]; intros s t Hst; cbn; [done|]. apply IH. by rewrite Hst.
Qed.

(** Well-formed blocks, each on top of the previous. *)
Fixpoint chain_ok (T : BlockTree) (hd : BlockInfo) (bs : list Block) : Prop :=
  match bs with
  | [] => True
  | (bi, df) :: bs' => bi_parent_hash bi = bi_hash hd /\
      (exists pi sp, block_ok (D := D) (S := S) T bi df pi sp) /\ chain_ok (add_block bi df T) bi bs'
  end.

(** The block a chain leads to. *)
Definition chain_head (hd : BlockInfo) (bs : list Block) : BlockInfo := fold_left (fun _ b => b.1) bs hd.

(** Importing a chain: each of its blocks ends up in the block tree, with the
    state that the blocks up to it lead to, below the head. *)
Lemma import_run t T hd s bs :
  tree_inv t T hd -> T !! bi_hash hd = Some (hd, s) -> chain_ok T hd bs ->
  exists t' T', import t bs = (Ok tt, t') /\ rtc (tree_step (E := E)) (t, T, hd) (t', T', chain_head hd bs) /\ T ⊆ T' /\
    forall p q, bs = p ++ q -> exists s',
      T' !! bi_hash (chain_head hd p) = Some (chain_head hd p, s') /\ s' ≡ chain_state s p /\
      desc T' (bi_hash (chain_head hd p)) (bi_hash (chain_head hd bs)).
Proof.
  revert t T hd s. induction bs as [|[bi df] bs IH]; intros t T hd s Hi Hs Hok.
  - exists t, T. split_and!; [done..|]. intros p q Hpq. symmetry in Hpq. apply app_nil in Hpq as [-> _]. exists s.
    split_and!; [done..|constructor].
  - destruct Hok as (Hpar & (pi & sp & Hb) & Hok).
    pose proof (bo_parent _ _ _ _ _ Hb) as Hp. rewrite Hpar in Hp. assert (pi = hd /\ sp = s) as [-> ->] by (split; congruence).
    pose proof (bo_number _ _ _ _ _ Hb) as Hn. assert (Hd : desc T (t_root t) (bi_parent_hash bi)) by (rewrite Hpar; apply Hi).
    destruct (update_block_total (E := E) t T hd bi hd df s Hi Hb Hd) as [(t' & Hup & Hi' & _)|(_ & Heq & _)]; [|lia].
    assert (next_head hd bi = bi) as Hnh by (unfold next_head; rewrite decide_True by lia; done).
    pose proof (step_import t T hd bi hd df s t' Hb Hd Hup) as Hstep. rewrite Hnh in Hi', Hstep.
    assert (Hs' : add_block bi df T !! bi_hash bi = Some (bi, overlay_block bi df s)).
    { rewrite (add_block_lookup _ _ _ hd s) by done. by rewrite decide_True. }
    destruct (IH _ _ _ _ Hi' Hs' Hok) as (t2 & T2 & Himp & Hrun & Hsub & Hall).
    assert (HT : T ⊆ T2) by (etransitivity; [|exact Hsub]; apply map_subseteq_spec; intros h x; by apply (add_block_old _ _ _ hd s)).
    exists t2, T2. cbn [import chain_head fold_left fst]. rewrite Hup. cbn [sbind].
    split; [done|]. split; [by eapply rtc_l|]. split; [done|]. intros p q Hpq.
    destruct (Hall [] bs eq_refl) as (sb & Hbi & Hsb & Hdb). destruct p as [|[bi' df'] p].
    + exists s. cbn [chain_head fold_left chain_state]. split; [by eapply lookup_weaken|]. split; [done|].
      eapply desc_trans; [|exact Hdb]. rewrite <- Hpar. eapply desc_step; [exact Hbi|constructor].
    + injection Hpq as <- <- ->. destruct (Hall p q eq_refl) as (s' & Hp' & Heq & Hd').
      exists s'. cbn [chain_head fold_left fst]. split; [done|]. split; [|done]. rewrite Heq. cbn.
      by rewrite (overlay_apply_block bi df s (bo_explicit _ _ _ _ _ Hb)).
Qed.
End import.

(** ** Correctness *)

Section theorems.
Context `{RevmBytecode}.
Context {C : Type -> Type -> Type} `{QuickCacheOk C}.
Context {D S E : Type} `{!StateDBProvider D S E} `{!BackendSpec D S} `{!BackendOk D S E}.
Context (d : D) (config : StateTreeConfig).



(** C3: the [latest] and [pending] tags name the head: [get_block_by_id]
    answers the highest block imported, and a handle opened on the tag reads
    its state. *)
Theorem tree_latest_is_head t T hd op tag :
  can_start d -> (1 <= diff_tree_depth_limit config)%nat ->
  reachable (C := C) (E := E) d config (t, T, hd) -> op_ok op ->
  tag = Latest \/ tag = Pending ->
  get_block_by_id (E := E) t (ByNumber tag) = Ok (Some hd) /\
  exists s handle c, T !! bi_hash hd = Some (hd, s) /\
    (forall h bi s', T !! h = Some (bi, s') -> bi_number bi <= bi_number hd) /\
    tree_state_at (E := E) t (ByNumber tag) = Ok (Some handle) /\
    run_op (t_db t) handle (t_cache_layer t) op = (Ok (answer_of s op), c).
Proof.
  intros Hd Hl Hr Hop Htag. pose proof (reachable_inv _ _ _ Hd Hl Hr) as Hi. cbn in Hi.
  destruct (ok_latest _ (ti_healthy _ _ _ Hi)) as (st & Hst & Hf).
  assert (Hview : index_view (E := E) (t_index t) (ByNumber tag) = Ok (Some (si_latest (t_index t))))
    by (by destruct Htag as [->| ->]).
  split.
  - unfold get_block_by_id. rewrite Hview, Hst. pose proof (latest_info _ _ _ _ Hi Hf) as Hinfo.
    rewrite Hinfo. unfold h_block_info in Hinfo. cbn in Hinfo. destruct (head_layer _); cbn; congruence.
  - destruct (latest_readable t T hd st (cache_view_height (t_cache_layer t)) Hi Hf) as (Hread & s & Hs & Heq).
    destruct (run_op_ok _ _ _ _ op Hread Hop) as (c & Hrun & _).
    exists s. eexists _, c. split_and!; [done|apply Hi|unfold tree_state_at; by rewrite Hview, Hst|].
    rewrite Hrun. do 2 f_equal. unfold handle_state. cbn. by rewrite Heq.
Qed.

(** C4: a chain imports completely. From a fresh tree, any number of
    well-formed blocks, each on top of the previous, is imported without an
    error, however far beyond the depth limit it goes (committing one block
    per import from then on), and the head then reads the state that applying
    the blocks one after the other leads to, deleted accounts' storage
    included. *)
Theorem import_chain_reads bs op :
  can_start d -> (1 <= diff_tree_depth_limit config)%nat ->
  chain_ok (D := D) (S := S) (start_tree (Backend.head d)) (as_info (Backend.head d)) bs -> op_ok op ->
  exists t0 t handle c, new_tree (C := C) (E := E) d config = Ok t0 /\ import t0 bs = (Ok tt, t) /\
    tree_state_at (E := E) t (ByNumber Latest) = Ok (Some handle) /\
    run_op (t_db t) handle (t_cache_layer t) op =
      (Ok (answer_of (chain_state (Backend.head d) bs) op), c).
Proof.
  intros Hd Hl Hok Hop.
  destruct (new_tree_ok (C := C) (E := E) d config Hd Hl) as (t0 & Hnew & Hi & _).
  assert (Hs : start_tree (Backend.head d) !! bi_hash (as_info (Backend.head d)) =
    Some (as_info (Backend.head d), Backend.head d)) by (by apply start_lookup).
  destruct (import_run (E := E) _ _ _ _ _ Hi Hs Hok) as (t & T & Himp & Hrun & _ & Hall).
  destruct (Hall bs [] ltac:(by rewrite app_nil_r)) as (s & Hs' & Heq & _).
  pose proof (reachable_inv d config _ Hd Hl (ex_intro _ t0 (conj Hnew Hrun))) as Hi'. cbn [config_inv] in Hi'.
  destruct (ok_latest _ (ti_healthy _ _ _ Hi')) as (st & Hst & Hf).
  destruct (latest_readable t T _ st (cache_view_height (t_cache_layer t)) Hi' Hf) as (Hread & s2 & Hs2 & Heq2).
  destruct (run_op_ok _ _ _ _ op Hread Hop) as (c & Hrd & _).
  eexists t0, t, _, c. split_and!; [done..|unfold tree_state_at; cbn; by rewrite Hst|].
  assert (s2 = s) as -> by congruence. rewrite Hrd. do 2 f_equal. unfold handle_state. cbn. by rewrite Heq2, Heq.
Qed.


(** C6: an import that does not succeed publishes nothing, whatever the tree,
    the block and the database do: the index readers see is the one before,
    and a block whose hash is already indexed changes nothing at all. *)
Theorem failed_update_publishes_nothing t bi df r t' :
  update_block (E := E) (C := C) (D := D) (S := S) t bi df = (r, t') ->
  (r <> Ok tt -> t_index t' = t_index t) /\
  (is_Some (si_hash_diff_map (t_index t) !! bi_hash bi) -> r = Ok tt /\ t' = t).
Proof.
  unfold update_block. intros Hup. split.
  - intros Hr. repeat (case_match; simplify_eq; try done).
  - intros [v Hv]. rewrite Hv in Hup. by simplify_eq.
Qed.

(** C7: a block number names a block of that number. Where the index has a
    view for [n], [get_block_by_id] answers an imported block numbered [n];
    at the head's number it answers the head itself, once a block was
    imported. *)
Theorem number_lookup_matches t T hd n v :
  can_start d -> (1 <= diff_tree_depth_limit config)%nat ->
  reachable (C := C) (E := E) d config (t, T, hd) ->
  si_num_diff_map (t_index t) !! n = Some v ->
  exists bi s, get_block_by_id (E := E) t (ByNumber (Number n)) = Ok (Some bi) /\
    T !! bi_hash bi = Some (bi, s) /\ bi_number bi = n /\
    (n = bi_number hd -> hd <> as_info (t_state t) -> bi = hd).
Proof.
  intros Hd Hl Hr Hn. pose proof (reachable_inv _ _ _ Hd Hl Hr) as Hi. cbn in Hi.
  destruct (ti_num _ _ _ Hi _ _ Hn) as (h & l & Hh & Hl' & Hnum).
  destruct (ti_index _ _ _ Hi _ _ Hh) as (l' & s & Hl'' & Hs).
  assert (l' = l) as -> by congruence.
  pose proof (bt_hash _ (ti_tree _ _ _ Hi) _ _ _ Hs) as Hhash.
  exists (dl_block_info l), s. split_and!; try done.
  - unfold get_block_by_id. cbn. by rewrite Hn, Hl'.
  - by rewrite Hhash.
  - intros -> Hne. destruct (ti_latest _ _ _ Hi) as [(_ & _ & ?)|[Hlh Hln]]; [done|].
    destruct (ti_index _ _ _ Hi _ _ Hlh) as (lh & sh & Hlh' & Hsh).
    destruct (ti_hd _ _ _ Hi) as (s' & Hs'). congruence.
Qed.
End theorems.

(** ** Examples *)

Definition ex_block (n hash parent : Z) : BlockInfo := mkBlockInfo n hash parent 0 [].

(** Account 5 with nonce 7 and its slot 1 set to [v]. *)
Definition ex_diff (v : Z) : BlockStorageDiff :=
  mkBlockStorageDiff 0 0 [mkNewAccount 5 1000 7 0] []
    [mkAccountStorageDiff 5 [mkIndexValuePair 1 v]] [].

Definition ex_genesis : AState := genesis (ex_block 100 1 0).
Definition ex_config (limit : nat) : StateTreeConfig := mkConfig limit 4 4 4 true.

Lemma ex_start : can_start ex_genesis.
Proof. by split; cbn; try split; try lia. Qed.

Lemma ex_block_ok v :
  block_ok (start_tree ex_genesis) (ex_block 101 2 1) (ex_diff v) (ex_block 100 1 0) ex_genesis.
Proof.
  split; cbn; try done.
  - intros h bi s Hh. by apply lookup_insert_Some in Hh as [[<- [= <- <-]]|[_ Hh]].
Qed.

Lemma ex_reachable limit :
  exists t : StateTree FifoCache AState, new_tree (E := unit) ex_genesis (ex_config limit) = Ok t /\
    reachable (E := unit) ex_genesis (ex_config limit) (t, start_tree ex_genesis, ex_block 100 1 0) /\
    t_root t = 1.
Proof. eexists. split; [reflexivity|]. split; [|done]. eexists. split; [reflexivity|constructor]. Qed.



Lemma tree_latest_is_head_witness :
  exists t : StateTree FifoCache AState, new_tree (E := unit) ex_genesis (ex_config 2) = Ok t /\
    get_block_by_id (E := unit) t (ByNumber Latest) = Ok (Some (ex_block 100 1 0)).
Proof.
  destruct (ex_reachable 2) as (t & Hnew & Hr & _). exists t. split; [done|].
  apply (tree_latest_is_head ex_genesis (ex_config 2) t (start_tree ex_genesis) (ex_block 100 1 0)
    (RBlockHash 100) Latest ex_start ltac:(cbn; lia) Hr); [in_range | by left].
Defined.

(** Two blocks above a depth limit of one: the first is committed. *)
Lemma ex_chain_ok : chain_ok (D := AState) (S := AState) (start_tree ex_genesis) (ex_block 100 1 0)
  [(ex_block 101 2 1, ex_diff 9); (ex_block 102 3 2, ex_diff 11)].
Proof.
  cbn [chain_ok]. split; [done|]. split; [eexists _, _; apply ex_block_ok|]. split; [done|].
  split; [|done]. eexists _, _. split; cbn; try done.
  - intros h bi s Hh. unfold add_block in Hh. cbn in Hh.
    apply lookup_insert_Some in Hh as [[<- [= <- <-]]|[_ Hh]]; [done|].
    by apply lookup_insert_Some in Hh as [[<- [= <- <-]]|[_ Hh]].
  - by apply explicit_diff_no_deletes.
Qed.

Lemma import_chain_reads_witness :
  exists (t0 t : StateTree FifoCache AState) handle c,
    new_tree (E := unit) ex_genesis (ex_config 1) = Ok t0 /\
    import (E := unit) t0 [(ex_block 101 2 1, ex_diff 9); (ex_block 102 3 2, ex_diff 11)] = (Ok tt, t) /\
    tree_state_at (E := unit) t (ByNumber Latest) = Ok (Some handle) /\
    run_op (t_db t) handle (t_cache_layer t) (RStorage 5 1) = (Ok (AWords [11]), c).
Proof.
  apply (import_chain_reads (C := FifoCache) (E := unit) ex_genesis (ex_config 1)
    [(ex_block 101 2 1, ex_diff 9); (ex_block 102 3 2, ex_diff 11)] (RStorage 5 1)).
  - exact ex_start.
  - cbn. lia.
  - exact ex_chain_ok.
  - split; in_range.
Defined.


Lemma failed_update_publishes_nothing_witness :
  exists t t' : StateTree FifoCache AState, new_tree (E := unit) ex_genesis (ex_config 2) = Ok t /\
    update_block (E := unit) t (ex_block 102 3 2) (ex_diff 9) = (Err (ParentBlockHashNotFound 3 102 2), t') /\
    t_index t' = t_index t.
Proof.
  eexists _, _. split; [reflexivity|]. split; [reflexivity|].
  apply (failed_update_publishes_nothing (C := FifoCache) (E := unit) _ (ex_block 102 3 2) (ex_diff 9)
    (Err (ParentBlockHashNotFound 3 102 2))); [reflexivity | discriminate].
Defined.

Lemma number_lookup_matches_witness :
  exists (t : StateTree FifoCache AState) bi, new_tree (E := unit) ex_genesis (ex_config 2) = Ok t /\
    get_block_by_id (E := unit) t (ByNumber (Number 100)) = Ok (Some bi) /\ bi_number bi = 100.
Proof.
  destruct (ex_reachable 2) as (t & Hnew & Hr & _).
  assert (exists v, si_num_diff_map (t_index t) !! 100 = Some v) as [v Hv]
    by (injection Hnew as <-; eexists; reflexivity).
  destruct (number_lookup_matches ex_genesis (ex_config 2) t (start_tree ex_genesis) (ex_block 100 1 0)
    100 v ex_start ltac:(cbn; lia) Hr Hv) as (bi & s & Hget & _ & Hn & _).
  by exists t, bi.
Defined.

(** ** Where the code differs from what it means *)

Definition run_blocks (limit : nat) (bs : list (BlockInfo * BlockStorageDiff)) (g : AState)
    : Res (TreeError unit) unit * option (StateTree FifoCache AState) :=
  match new_tree (C := FifoCache) (E := unit) g (ex_config limit) with
  | Ok t => let '(r, t) := import (E := unit) t bs in (r, Some t)
  | _ => (Panic, None)
  end.

Definition outcome {E A B} (r : Res E A * B) : option bool :=
  match r.1 with Ok _ => Some true | Err _ => Some false | Panic => None end.


(** What a read by a block id answers after importing [bs]. *)
Definition read_after (limit : nat) (bs : list (BlockInfo * BlockStorageDiff)) (g : AState)
    (id : BlockId) (op : ReadOp) : option Answer :=
  match run_blocks limit bs g with
  | (Ok _, Some t) =>
      match tree_state_at (E := unit) t id with
      | Ok (Some h) =>
          match run_op (t_db t) h (t_cache_layer t) op with (Ok a, _) => Some a | _ => None end
      | _ => None
      end
  | _ => None
  end.

(** A state with account 5 and its slot 1. *)
Definition ex_storage : AState := apply_block (ex_block 100 1 0) (ex_diff 9) ex_genesis.

(** A block that deletes account 5 and, as diffs do, lists none of its slots. *)
Definition ex_delete : BlockStorageDiff := mkBlockStorageDiff 0 0 [] [5] [] [].



(** Run a read at a block id, keeping the tree it leaves. *)
Definition read_at (t : StateTree FifoCache AState) (id : BlockId) (op : ReadOp)
    : option Answer * StateTree FifoCache AState :=
  match tree_state_at (E := unit) t id with
  | Ok (Some h) =>
      let '(r, c) := run_op (E := unit) (t_db t) h (t_cache_layer t) op in
      (match r with Ok a => Some a | _ => None end, with_cache t c)
  | _ => (None, t)
  end.

(** A handle opened before block 101, which sets slot 1 of account 5 to 11, is
    read after blocks 101 and 102 were committed and after another read
    evicted the slot from a full cache; then the head is read. *)
Definition late_refill : option Answer :=
  match new_tree (C := FifoCache) (E := unit) ex_storage (mkConfig 1 1 1 1 true) with
  | Ok t =>
      match tree_state_at (E := unit) t (ById 1) with
      | Ok (Some old_handle) =>
          let '(_, t) := import (E := unit) t
            [(ex_block 101 2 1, ex_diff 11); (ex_block 102 3 2, empty_diff); (ex_block 103 4 3, empty_diff)] in
          let '(_, t) := read_at t (ByNumber Latest) (RStorage 6 1) in
          let '(_, c) := run_op (E := unit) (t_db t) old_handle (t_cache_layer t) (RStorage 5 1) in
          fst (read_at (with_cache t c) (ByNumber Latest) (RStorage 5 1))
      | _ => None
      end
  | _ => None
  end.

