(* ===== verification/TreeArchive.v ===== *)
(** * The state tree over a database that remembers

    [ArchivalOk] is what a database with history promises on top of
    [Backend.BackendOk]: the states of the blocks it was given stay readable.
    Over such a database the state tree serves every block from the start to
    the committed one, beside those it indexes. *)

From stdpp Require Import prelude gmap list sorting.
From S2P Require Import Prelude Types QuickCache Backend Layers LayersFacts CommitFacts StateTree TreeSpec TreeFacts.
From S2P Require Import TreeUpdate TreeReads TreeTheorems.

#[local] Open Scope Z_scope.

(** [remembers d bi s]: the database holds block [bi], with state [s]. *)
Class ArchivalSpec `{RevmBytecode} (D : Type) := remembers : D -> BlockInfo -> AState -> Prop.

Class ArchivalOk `{RevmBytecode} (D S E : Type) `{!StateDBProvider D S E} `{!BackendSpec D S} `{!ArchivalSpec D} : Prop := {
  ar_proper d bi s s' : s ≡ s' -> remembers d bi s -> remembers d bi s';
  ar_head d : healthy d -> remembers d (as_info (Backend.head d)) (Backend.head d);
  ar_update d s bi df d' : healthy d -> fresh d s -> valid_block bi df -> explicit_diff df (Backend.head d) ->
    extends (as_info (Backend.head d)) bi df -> db_update_block d s bi df = (Ok tt, d') ->
    forall info st, remembers d info st -> remembers d' info st;
  ar_open d info st id : healthy d -> remembers d info st -> names id info ->
    exists s, state_at d id = Ok (Some s) /\ usable d s /\ persists st (view d s);
}.

Section archival.
Context `{RevmBytecode}.
Context {C : Type -> Type -> Type} `{QuickCacheOk C}.
Context {D S E : Type} `{!StateDBProvider D S E} `{!BackendSpec D S} `{!BackendOk D S E}.
Context `{!ArchivalSpec D} `{!ArchivalOk D S E}.

Implicit Types (t : StateTree C D) (T : BlockTree).

(** Every block from the start to the committed one is remembered. *)
Definition remembered t T : Prop :=
  forall h bi s, T !! h = Some (bi, s) -> desc T h (t_root t) -> remembers (t_db t) bi s.

Definition archival_inv (x : Config) : Prop := config_inv x /\ let '(t, T, _) := x in remembered t T.

(** The new block is above the committed one. *)
Lemma ancestors_add t T hd bi pi df sp h :
  tree_inv t T hd -> block_ok T bi df pi sp -> desc T (t_root t) (bi_parent_hash bi) ->
  desc (add_block bi df T) h (t_root t) -> h <> bi_hash bi /\ desc T h (t_root t).
Proof.
  intros Hi Hb Hd Hh. destruct (ti_root _ _ _ Hi) as (rs & Hr & _).
  assert (Hne : h <> bi_hash bi).
  { intros ->. assert (Hnew : add_block bi df T !! bi_hash bi = Some (bi, overlay_block bi df sp))
      by (rewrite (add_block_lookup _ _ _ pi sp) by done; by rewrite decide_True).
    pose proof (desc_number _ _ _ _ _ _ _ (add_block_tree _ _ _ _ _ (ti_tree _ _ _ Hi) Hb) Hnew Hh (add_block_old _ _ _ _ _ _ _ Hb Hr)).
    pose proof (desc_number _ _ _ _ _ _ _ (ti_tree _ _ _ Hi) Hr Hd (bo_parent _ _ _ _ _ Hb)).
    pose proof (bo_number _ _ _ _ _ Hb). lia. }
  split; [done|]. pose proof (desc_add _ _ _ _ _ _ _ Hb Hne Hh) as Hd'. case_decide as Heq; [|done].
  rewrite Heq in Hr. by rewrite (bo_new _ _ _ _ _ Hb) in Hr.
Qed.

Lemma import_remembered t t' T hd bi pi df sp :
  tree_inv t T hd -> remembered t T -> block_ok T bi df pi sp -> desc T (t_root t) (bi_parent_hash bi) ->
  tree_inv t' (add_block bi df T) (next_head hd bi) -> wrote (E := E) t t' -> remembered t' (add_block bi df T).
Proof.
  intros Hi Hrem Hb Hd Hi' Hw h hbi s Hh Hdesc.
  assert (Hold : desc (add_block bi df T) h (t_root t) -> remembers (t_db t) hbi s).
  { intros Hdh. destruct (ancestors_add t T hd bi pi df sp h Hi Hb Hd Hdh) as [Hne Hdh'].
    apply (Hrem h); [|done]. rewrite (add_block_lookup _ _ _ pi sp) in Hh by done. by rewrite decide_False in Hh. }
  destruct Hw as [Hsame|(st & x & Hf & [_ Hv Hx Hn] & Hbelow & Hup)].
  - unfold t_root, t_state in Hdesc. rewrite Hsame in Hdesc |- *. auto.
  - assert (Hkeep : forall info s', remembers (t_db t) info s' -> remembers (t_db t') info s').
    { intros info s'. eapply ar_update; try done. apply Hi. }
    destruct (ti_root _ _ _ Hi') as (rs & Hr & Hrs).
    destruct (ok_update (t_db t) st (dl_block_info x) (dl_block_diff x)) as (d' & Hup' & _ & Hhead); try done; [apply Hi|].
    rewrite Hup in Hup'. injection Hup' as Hd'.
    assert (Hinfo : as_info (t_state t') = dl_block_info x) by (unfold t_state; rewrite Hd'; apply Hhead).
    destruct (decide (h = t_root t')) as [->|Hne].
    + rewrite Hr in Hh. injection Hh as <- <-. eapply ar_proper; [symmetry; exact Hrs|]. apply ar_head, Hi'.
    + apply Hkeep, Hold. destruct Hbelow as [Hpar|Hroot].
      * inversion Hdesc as [|? bi' s' Hb' Hdp]; [by subst|]. subst. rewrite Hr in Hb'. injection Hb' as <- <-.
        by rewrite Hinfo, Hpar in Hdp.
      * unfold t_root in Hdesc |- *. by rewrite Hinfo, Hroot in Hdesc.
Qed.

Lemma archival_step x y : archival_inv x -> tree_step (E := E) x y -> archival_inv y.
Proof.
  intros [Hi Hrem] Hstep. split; [by eapply tree_step_inv|].
  destruct Hstep as [t T hd bi pi df sp t' Hb Hd Hup | t T hd bi df r t' Hor Hup | t T hd h handle op r c Hd Hs Hop Hat Hv Hrun];
    cbn [config_inv] in Hi.
  - destruct (update_block_total (E := E) t T hd bi pi df sp Hi Hb Hd) as [(t'' & Hu & Hi' & Hw)|(_ & _ & t'' & Hu)];
      rewrite Hup in Hu; [|congruence]. injection Hu as <-. by eapply import_remembered.
  - rewrite (update_refused _ _ _ _ _ Hi Hor) in Hup. by simplify_eq.
  - exact Hrem.
Qed.

Lemma archival_reachable d config x :
  can_start d -> (1 <= diff_tree_depth_limit config)%nat -> reachable (C := C) (E := E) d config x -> archival_inv x.
Proof.
  intros Hd Hl (t & Hnew & Hrun). destruct (new_tree_ok (C := C) (E := E) d config Hd Hl) as (t' & Hnew' & Hi & Hdb & _).
  rewrite Hnew in Hnew'. injection Hnew' as <-.
  assert (Hx : archival_inv (t, start_tree (Backend.head d), as_info (Backend.head d))).
  { split; [done|]. intros h bi s [-> Heq]%start_lookup _. injection Heq as -> ->. rewrite Hdb. apply ar_head, Hd. }
  clear Hi Hnew. induction Hrun as [|x y z Hs _ IH]; [done|]. eauto using archival_step.
Qed.

(** A block below the committed one is not in the index, so its handle is the
    database's. *)
Lemma below_is_db t T hd h bi s id :
  tree_inv t T hd -> T !! h = Some (bi, s) -> bi_number bi < t_bottom t -> names id bi ->
  index_view (E := E) (t_index t) id = Ok None.
Proof.
  intros Hi Hh Hlt [-> | ->]; cbn; f_equal.
  - rewrite (bt_hash _ (ti_tree _ _ _ Hi) _ _ _ Hh). destruct (si_hash_diff_map (t_index t) !! h) as [v|] eqn:Hv; [|done].
    destruct (ti_index _ _ _ Hi _ _ Hv) as (l & s' & Hl & Hs'). rewrite Hh in Hs'. injection Hs' as -> _.
    pose proof (ti_pruned _ _ _ Hi _ _ _ Hv Hl). lia.
  - destruct (si_num_diff_map (t_index t) !! bi_number bi) as [v|] eqn:Hv; [|done].
    destruct (ti_num _ _ _ Hi _ _ Hv) as (h' & l & Hh' & Hl & Hn).
    pose proof (ti_pruned _ _ _ Hi _ _ _ Hh' Hl). lia.
Qed.

(** The handle of a remembered block reads its state. *)
Lemma below_reads t T hd h bi s id op :
  archival_inv (t, T, hd) -> T !! h = Some (bi, s) -> desc T h (t_root t) -> bi_number bi < t_bottom t ->
  names id bi -> op_ok op -> within s op ->
  exists handle c, tree_state_at (E := E) t id = Ok (Some handle) /\
    run_op (t_db t) handle (t_cache_layer t) op = (Ok (answer_of s op), c).
Proof.
  intros [Hi Hrem] Hh Hd Hlt Hid Hop Hwi. cbn in Hi.
  destruct (ar_open (t_db t) bi s id (ti_healthy _ _ _ Hi) (Hrem h bi s Hh Hd) Hid) as (st & Hst & Hu & Hp).
  exists (mkHybrid empty_view st None). unfold tree_state_at.
  rewrite (below_is_db t T hd h bi s id Hi Hh Hlt Hid), Hst.
  assert (Hrd : readable (t_db t) (mkHybrid empty_view st None) (t_cache_layer t) (view (t_db t) st))
    by (split; cbn; try done; apply Hi).
  destruct (run_op_ok (E := E) _ _ _ _ op Hrd Hop) as (c & Hrun & _).
  exists c. split; [done|]. rewrite Hrun. do 2 f_equal. by apply persists_answer.
Qed.

(** Every ancestor of the head is served, by its hash. *)
Lemma ancestor_reads t T hd h bi s op :
  archival_inv (t, T, hd) -> T !! h = Some (bi, s) -> desc T h (bi_hash hd) -> op_ok op -> within s op ->
  exists handle c, tree_state_at (E := E) t (ById h) = Ok (Some handle) /\
    run_op (t_db t) handle (t_cache_layer t) op = (Ok (answer_of s op), c).
Proof.
  intros Hx Hh Hd Hop Hwi. pose proof Hx as [Hi _]. cbn in Hi. destruct (ti_root _ _ _ Hi) as (rs & Hr & _).
  assert (Hidx : desc T (t_root t) h -> exists handle c, tree_state_at (E := E) t (ById h) = Ok (Some handle) /\
    run_op (t_db t) handle (t_cache_layer t) op = (Ok (answer_of s op), c)).
  { intros Hdr. destruct (indexed_read (E := E) t T hd h bi s op Hi Hh Hdr Hop) as (handle & c & Hat & Hrun & _). by exists handle, c. }
  destruct (desc_linear _ _ _ _ Hd (ti_hd_desc _ _ _ Hi)) as [Hbelow|Habove]; [|auto].
  destruct (decide (bi_number bi < t_bottom t)) as [Hlt|Hge].
  - apply (below_reads t T hd h bi s (ById h) op); try done. left. by rewrite (bt_hash _ (ti_tree _ _ _ Hi) _ _ _ Hh).
  - apply Hidx. rewrite (desc_same T h (t_root t) bi s (as_info (t_state t)) rs); [constructor|apply Hi|done..|]. unfold t_bottom in Hge. lia.
Qed.
End archival.
