(* ===== verification/KvStore.v ===== *)
(** * The key-value store (RocksDB)

    RocksDB is a dependency: [RocksDB] lists the operations the archive uses on
    its column families and [RocksDBOk] what it documents about them, in terms
    of what a database holds. The columns are those of
    crates/leafage-evm-storage/src/db_impl/rocksdb_impl/archive/mod.rs. An
    iterator reads the database as it was when it was created, so it is a
    database value; a failed positioning ([status] reports an error) is [Err]. *)

From stdpp Require Import prelude gmap list sorting strings.
From S2P Require Import Prelude Types.

#[local] Open Scope Z_scope.

Inductive StorageTypeColumn :=
| LatestBlockHash
| BlockHashToBlockInfo
| BlockNumToBlockHash
| AddressToAccount
| AddressToStorage
| HashToCode
| BlockNumToBlockInfo.

#[export] Instance StorageTypeColumn_eq_dec : EqDecision StorageTypeColumn.
Proof. solve_decision. Defined.

(** [StorageTypeColumn as u16]. *)
Definition column_number (c : StorageTypeColumn) : Z :=
  match c with
  | LatestBlockHash => 1
  | BlockHashToBlockInfo => 2
  | BlockNumToBlockHash => 3
  | AddressToAccount => 4
  | AddressToStorage => 5
  | HashToCode => 6
  | BlockNumToBlockInfo => 7
  end.

#[export] Instance StorageTypeColumn_countable : Countable StorageTypeColumn.
Proof.
  apply (inj_countable' column_number (fun n =>
    if decide (n = 1) then LatestBlockHash else if decide (n = 2) then BlockHashToBlockInfo
    else if decide (n = 3) then BlockNumToBlockHash else if decide (n = 4) then AddressToAccount
    else if decide (n = 5) then AddressToStorage else if decide (n = 6) then HashToCode
    else BlockNumToBlockInfo)).
  by intros [].
Defined.

(** [Error] of db_impl/error.rs, over the error type [E] of the database. *)
Inductive Error (E : Type) :=
| Io
| RocksErr (e : E)
| Rlp
| UnSupported (what : string)
| UnsupportedBlockId (id : BlockId)
| Conversion
| SerdeJson
| IteratorTimedOut (block : u64).

Arguments Io {E}.
Arguments RocksErr {E} e.
Arguments Rlp {E}.
Arguments UnSupported {E} what.
Arguments UnsupportedBlockId {E} id.
Arguments Conversion {E}.
Arguments SerdeJson {E}.
Arguments IteratorTimedOut {E} block.

(** [?] on a database result: [From<rocksdb::Error>]. *)
Definition rocks {E A} (r : Res E A) : Res (Error E) A :=
  match r with
  | Ok a => Ok a
  | Err e => Err (RocksErr e)
  | Panic => Panic
  end.

(** [unwrap], or an index that must be in range. *)
Definition unwrap {E A} (o : option A) : Res E A :=
  match o with Some a => Ok a | None => Panic end.

(** The entries of a write batch. *)
Inductive WriteOp :=
| OpPut (c : StorageTypeColumn) (k v : bytes)
| OpPutTs (c : StorageTypeColumn) (k : bytes) (ts : u64) (v : bytes)
| OpDelete (c : StorageTypeColumn) (k : bytes)
| OpDeleteRange (c : StorageTypeColumn) (lo hi : bytes).

#[export] Instance WriteOp_eq_dec : EqDecision WriteOp.
Proof. solve_decision. Defined.

Class RocksDB (K E : Type) := {
  db_get : K -> StorageTypeColumn -> bytes -> Res E (option bytes);
  (** [raw_iterator] with default options, positioned by [seek],
      [seek_for_prev], or [prev] from a key; the key and value it lands on. *)
  db_seek : K -> StorageTypeColumn -> bytes -> Res E (option (bytes * bytes));
  db_seek_for_prev : K -> StorageTypeColumn -> bytes -> Res E (option (bytes * bytes));
  db_prev : K -> StorageTypeColumn -> bytes -> Res E (option (bytes * bytes));
  (** [seek] with [total_order_seek]. *)
  db_seek_total : K -> StorageTypeColumn -> bytes -> Res E (option (bytes * bytes));
  (** [iterator_cf_opt] from the start, with [total_order_seek]. *)
  db_iter : K -> StorageTypeColumn -> Res E (list (bytes * bytes));
  (** [get] with a read timestamp: the version found and its timestamp. *)
  db_get_ts : K -> StorageTypeColumn -> bytes -> u64 -> Res E (option (u64 * bytes));
  (** The keys from [lo] up to [hi] (if any), each at its version for the
      read timestamp. *)
  db_scan_ts : K -> StorageTypeColumn -> u64 -> bytes -> option bytes -> Res E (list (bytes * bytes));
  (** [write]: all of the batch, in order, or nothing. *)
  db_write : K -> list WriteOp -> Res E unit * K;
}.

(** What a database holds: [kv_contents] in the plain column families and
    [kv_versions], by timestamp, in those with user-defined timestamps. *)
Class RocksDBSpec (K : Type) := {
  kv_ok : K -> Prop;
  kv_contents : K -> StorageTypeColumn -> bytes -> option bytes;
  kv_versions : K -> StorageTypeColumn -> bytes -> u64 -> option bytes;
}.

(** [mod.rs] gives the versioned column families a fixed-prefix extractor. *)
Definition prefix_len (c : StorageTypeColumn) : nat :=
  match c with AddressToAccount => 32 | AddressToStorage => 64 | _ => 0 end.

Definition same_prefix (c : StorageTypeColumn) (a b : bytes) : Prop :=
  take (prefix_len c) a = take (prefix_len c) b.

(** [r] is the first entry of [m] at or after [t] among the keys of [P], if
    there is one. *)
Definition first_from (m : bytes -> option bytes) (P : bytes -> Prop) (t : bytes)
    (r : option (bytes * bytes)) : Prop :=
  match r with
  | Some (k, v) => m k = Some v /\ P k /\ (t ≤ k)%bytes /\
      forall k', is_Some (m k') -> P k' -> (t ≤ k')%bytes -> (k ≤ k')%bytes
  | None => forall k', is_Some (m k') -> P k' -> ~ (t ≤ k')%bytes
  end.

Definition last_upto (m : bytes -> option bytes) (P : bytes -> Prop) (lt : bytes -> Prop)
    (r : option (bytes * bytes)) : Prop :=
  match r with
  | Some (k, v) => m k = Some v /\ P k /\ lt k /\
      forall k', is_Some (m k') -> P k' -> lt k' -> (k' ≤ k)%bytes
  | None => forall k', is_Some (m k') -> P k' -> ~ lt k'
  end.

(** What an iterator in prefix mode promises: the right entry of the prefix,
    or, when the prefix has none, nothing or some entry outside it. *)
Definition in_prefix (m : bytes -> option bytes) (Q : option (bytes * bytes) -> Prop)
    (P : bytes -> Prop) (r : option (bytes * bytes)) : Prop :=
  match r with
  | Some (k, v) => Q r \/ (m k = Some v /\ ~ P k /\ Q None)
  | None => Q None
  end.

(** The greatest version at or below [n]. *)
Definition latest_le (f : u64 -> option bytes) (n : u64) (r : option (u64 * bytes)) : Prop :=
  match r with
  | Some (b, v) => is_u64 b /\ b <= n /\ f b = Some v /\
      forall b', is_u64 b' -> b < b' <= n -> f b' = None
  | None => forall b', is_u64 b' -> b' <= n -> f b' = None
  end.

Lemma latest_le_det f n r r' : latest_le f n r -> latest_le f n r' -> r = r'.
Proof.
  destruct r as [[b v]|], r' as [[b' v']|]; cbn; try done.
  - intros (Hb & Hbn & Hv & Hmax) (Hb' & Hbn' & Hv' & Hmax').
    assert (b = b') as ->.
    { destruct (Z.lt_trichotomy b b') as [Hlt|[?|Hlt]]; [|done|].
      - rewrite (Hmax b') in Hv' by (done || lia). done.
      - rewrite (Hmax' b) in Hv by (done || lia). done. }
    congruence.
  - intros (Hb & Hbn & Hv & _) Hnone. rewrite Hnone in Hv; done.
  - intros Hnone (Hb & Hbn & Hv & _). rewrite Hnone in Hv; done.
Qed.

(** Versions above [n] do not matter to a read at [n]. *)
Lemma latest_le_ext f g n r :
  (forall b, is_u64 b -> b <= n -> f b = g b) -> latest_le f n r -> latest_le g n r.
Proof.
  intros Hfg. destruct r as [[b v]|]; cbn.
  - intros (Hb & Hbn & Hv & Hmax). split_and!; try done; [by rewrite <- Hfg|].
    intros b' Hb' Hr. rewrite <- Hfg by (done || lia). auto.
  - intros Hnone b' Hb' Hle. rewrite <- Hfg by done. auto.
Qed.

(** The reads from the version found up to the one before the next one. *)
Lemma latest_le_raise f n n' r :
  latest_le f n r -> n <= n' -> (forall b, is_u64 b -> n < b <= n' -> f b = None) -> latest_le f n' r.
Proof.
  destruct r as [[b v]|]; cbn.
  - intros (Hb & Hbn & Hv & Hmax) Hn Hnone. split_and!; try done; [lia|].
    intros b' Hb' Hr. destruct (decide (b' <= n)); [apply Hmax | apply Hnone]; done || lia.
  - intros Hnone Hn Hnone' b' Hb' Hle. destruct (decide (b' <= n)); [auto | apply Hnone'; done || lia].
Qed.

Lemma latest_le_lower f n n' b v :
  latest_le f n (Some (b, v)) -> b <= n' <= n -> latest_le f n' (Some (b, v)).
Proof.
  intros (Hb & Hbn & Hv & Hmax) Hn. split_and!; try done; [lia|].
  intros b' Hb' Hr. apply Hmax; done || lia.
Qed.

Lemma latest_le_lower_None f n n' : latest_le f n None -> n' <= n -> latest_le f n' None.
Proof. cbn. intros Hnone Hn b Hb Hle. apply Hnone; done || lia. Qed.

(** The reference reading: look at each block from [n] down to the first. *)
Fixpoint newest_upto (f : u64 -> option bytes) (n : nat) : option (u64 * bytes) :=
  match f (Z.of_nat n) with
  | Some v => Some (Z.of_nat n, v)
  | None => match n with 0%nat => None | S m => newest_upto f m end
  end.

Definition newest (f : u64 -> option bytes) (n : u64) : option (u64 * bytes) :=
  newest_upto f (Z.to_nat n).

Lemma newest_ok f n : is_u64 n -> latest_le f n (newest f n).
Proof.
  intros Hn. unfold newest. assert (n = Z.of_nat (Z.to_nat n)) as Hz by (unfold is_u64 in Hn; lia).
  rewrite Hz in Hn |- * at 1. clear Hz. induction (Z.to_nat n) as [|m IH]; cbn [newest_upto].
  - destruct (f (Z.of_nat 0)) as [v|] eqn:Hf; cbn.
    + split_and!; done || lia.
    + intros b Hb Hle. assert (b = Z.of_nat 0) as -> by (unfold is_u64 in Hb; lia). done.
  - destruct (f (Z.of_nat (S m))) as [v|] eqn:Hf.
    + split_and!; done || lia.
    + eapply latest_le_raise; [apply IH; unfold is_u64 in *; lia|lia|].
      intros b Hb Hr. assert (b = Z.of_nat (S m)) as -> by lia. done.
Qed.

Lemma newest_unique f n r : is_u64 n -> latest_le f n r -> newest f n = r.
Proof. intros Hn. apply latest_le_det. by apply newest_ok. Qed.

Lemma newest_ext f g n :
  is_u64 n -> (forall b, is_u64 b -> b <= n -> f b = g b) -> newest f n = newest g n.
Proof. intros Hn Hfg. apply newest_unique; [done|]. eapply latest_le_ext; [|by apply newest_ok]. intros. symmetry. auto. Qed.

(** The effect of a batch on what a database holds. *)
Definition op_contents (c : StorageTypeColumn) (k : bytes) (old : option bytes) (op : WriteOp)
    : option bytes :=
  match op with
  | OpPut c' k' v => if decide (c' = c /\ k' = k) then Some v else old
  | OpDelete c' k' => if decide (c' = c /\ k' = k) then None else old
  | OpDeleteRange c' lo hi =>
      if decide (c' = c /\ (lo ≤ k)%bytes /\ (k < hi)%bytes) then None else old
  | OpPutTs _ _ _ _ => old
  end.

Definition op_versions (c : StorageTypeColumn) (k : bytes) (ts : u64) (old : option bytes) (op : WriteOp)
    : option bytes :=
  match op with
  | OpPutTs c' k' ts' v => if decide (c' = c /\ k' = k /\ ts' = ts) then Some v else old
  | _ => old
  end.

Class RocksDBOk (K E : Type) `{RocksDB K E} `{RocksDBSpec K} : Prop := {
  rk_get d c k : kv_ok d -> db_get d c k = Ok (kv_contents d c k);
  rk_seek d c t : kv_ok d -> exists r, db_seek d c t = Ok r /\
    in_prefix (kv_contents d c) (first_from (kv_contents d c) (same_prefix c t) t) (same_prefix c t) r;
  rk_seek_for_prev d c t : kv_ok d -> exists r, db_seek_for_prev d c t = Ok r /\
    in_prefix (kv_contents d c) (last_upto (kv_contents d c) (same_prefix c t) (fun k => (k ≤ t)%bytes))
      (same_prefix c t) r;
  rk_prev d c t : kv_ok d -> exists r, db_prev d c t = Ok r /\
    in_prefix (kv_contents d c) (last_upto (kv_contents d c) (same_prefix c t) (fun k => (k < t)%bytes))
      (same_prefix c t) r;
  rk_seek_total d c t : kv_ok d -> exists r, db_seek_total d c t = Ok r /\
    first_from (kv_contents d c) (fun _ => True) t r;
  rk_iter d c : kv_ok d -> exists l, db_iter d c = Ok l /\
    StronglySorted bytes_lt l.*1 /\ forall k v, (k, v) ∈ l <-> kv_contents d c k = Some v;
  rk_get_ts d c k ts : kv_ok d -> exists r, db_get_ts d c k ts = Ok r /\
    latest_le (kv_versions d c k) ts r;
  rk_scan_ts d c ts lo hi : kv_ok d -> exists l, db_scan_ts d c ts lo hi = Ok l /\
    StronglySorted bytes_lt l.*1 /\
    forall k v, (k, v) ∈ l <->
      (lo ≤ k)%bytes /\ (match hi with Some h => (k < h)%bytes | None => True end) /\
      exists b, latest_le (kv_versions d c k) ts (Some (b, v));
  rk_write d ops : kv_ok d -> exists d', db_write d ops = (Ok tt, d') /\ kv_ok d' /\
    (forall c k, kv_contents d' c k = fold_left (op_contents c k) ops (kv_contents d c k)) /\
    (forall c k ts, kv_versions d' c k ts = fold_left (op_versions c k ts) ops (kv_versions d c k ts));
}.
