(* ===== verification/MemKv.v ===== *)
(** * A key-value store in memory, and maintenance of the store

    An implementation of [KvStore.RocksDBOk] on finite maps, which shows that the
    documented behaviour is satisfiable and on which the archive's examples run.
    Then what the offline tools use of
    RocksDB beyond reads and writes: column families are opened, created and
    dropped, histories trimmed, and sorted (SST) files written and ingested.
    [RocksDBAdmin] lists the operations and [RocksDBAdminOk] what is documented of
    them; the instance in memory shows that it can be met. *)

From stdpp Require Import prelude gmap list sorting.
From S2P Require Import Prelude Types KvStore.

#[local] Open Scope Z_scope.

Record MemKv := mkMemKv {
  mk_plain : gmap (StorageTypeColumn * bytes) bytes;
  mk_ts : gmap (StorageTypeColumn * bytes * Z) bytes;
}.

Definition mem_kv_empty : MemKv := mkMemKv ∅ ∅.

(** ** Sorted listings *)

Definition key_le (a b : bytes * bytes) : Prop := (a.1 ≤ b.1)%bytes.

#[export] Instance key_le_dec a b : Decision (key_le a b).
Proof. unfold key_le. apply _. Defined.

#[export] Instance key_le_total : Total key_le.
Proof. intros a b. apply bytes_le_total. Qed.

#[export] Instance key_le_trans : Transitive key_le.
Proof. intros a b c. apply bytes_le_trans. Qed.

(** The entries of a key-distinct listing, in key order. *)
Definition sorted (l : list (bytes * bytes)) : list (bytes * bytes) := merge_sort key_le l.

Lemma sorted_elem l x : x ∈ sorted l <-> x ∈ l.
Proof. unfold sorted. by rewrite merge_sort_Permutation. Qed.

Lemma sorted_keys l : NoDup l.*1 -> StronglySorted bytes_lt (sorted l).*1.
Proof.
  intros Hnd. assert (Hnd' : NoDup (sorted l).*1).
  { unfold sorted. by rewrite merge_sort_Permutation. }
  assert (Hs : StronglySorted key_le (sorted l)) by (apply StronglySorted_merge_sort; apply _).
  clear Hnd. induction Hs as [|x xs _ IH Hx]; cbn in *; constructor.
  - apply IH. by apply NoDup_cons in Hnd' as [_ ?].
  - apply NoDup_cons in Hnd' as [Hn _].
    rewrite Forall_forall in Hx. apply Forall_forall.
    intros k Hk. pose proof Hk as Hk'. apply list_elem_of_fmap in Hk as (y & -> & Hy).
    specialize (Hx y Hy). unfold key_le in Hx. apply bytes_le_lt_eq in Hx as [?|Heq]; [done|].
    rewrite <- Heq in Hk'. done.
Qed.

Definition first_where (P : bytes -> Prop) `{forall k, Decision (P k)} (l : list (bytes * bytes))
    : option (bytes * bytes) :=
  head (filter (fun e => P e.1) (sorted l)).

Definition last_where (P : bytes -> Prop) `{forall k, Decision (P k)} (l : list (bytes * bytes))
    : option (bytes * bytes) :=
  last (filter (fun e => P e.1) (sorted l)).

Lemma filter_sorted (P : bytes -> Prop) `{forall k, Decision (P k)} l :
  StronglySorted key_le (filter (fun e => P e.1) (sorted l)).
Proof.
  assert (Hs : StronglySorted key_le (sorted l)) by (apply StronglySorted_merge_sort; apply _).
  induction Hs as [|x xs _ IH Hx]; [constructor|]. rewrite filter_cons. case_decide; [|done].
  constructor; [done|]. rewrite Forall_forall in Hx. apply Forall_forall. intros y [_ Hy]%list_elem_of_filter. auto.
Qed.

Lemma first_where_ok P `{forall k, Decision (P k)} l :
  match first_where P l with
  | Some (k, v) => (k, v) ∈ l /\ P k /\ forall k' v', (k', v') ∈ l -> P k' -> (k ≤ k')%bytes
  | None => forall k' v', (k', v') ∈ l -> ~ P k'
  end.
Proof.
  unfold first_where. pose proof (filter_sorted P l) as Hs.
  assert (Hm : forall e, e ∈ filter (fun e => P e.1) (sorted l) <-> P e.1 /\ e ∈ l).
  { intros e. by rewrite list_elem_of_filter, sorted_elem. }
  destruct (filter _ _) as [|[k v] r]; cbn.
  - intros k' v' Hin HP. assert (Habs : (k', v') ∈ ([] : list (bytes * bytes))) by (by apply Hm).
    by apply elem_of_nil in Habs.
  - assert ((k, v) ∈ (k, v) :: r) as [HP Hin]%Hm by left. split_and!; try done.
    intros k' v' Hin' HP'. assert ((k', v') ∈ (k, v) :: r) as Hr by (by apply Hm).
    apply elem_of_cons in Hr as [[= -> ->]|Hr]; [apply bytes_le_refl|].
    inversion Hs as [|? ? _ Hall]; subst. rewrite Forall_forall in Hall. apply (Hall _ Hr).
Qed.

Lemma last_where_ok P `{forall k, Decision (P k)} l :
  match last_where P l with
  | Some (k, v) => (k, v) ∈ l /\ P k /\ forall k' v', (k', v') ∈ l -> P k' -> (k' ≤ k)%bytes
  | None => forall k' v', (k', v') ∈ l -> ~ P k'
  end.
Proof.
  unfold last_where. pose proof (filter_sorted P l) as Hs.
  assert (Hm : forall e, e ∈ filter (fun e => P e.1) (sorted l) <-> P e.1 /\ e ∈ l).
  { intros e. by rewrite list_elem_of_filter, sorted_elem. }
  destruct (filter _ _) as [|[k v] r _] using rev_ind; cbn.
  - intros k' v' Hin HP. assert (Habs : (k', v') ∈ ([] : list (bytes * bytes))) by (by apply Hm).
    by apply elem_of_nil in Habs.
  - rewrite last_snoc. assert ((k, v) ∈ r ++ [(k, v)]) as [HP Hin]%Hm by set_solver. split_and!; try done.
    intros k' v' Hin' HP'. assert ((k', v') ∈ r ++ [(k, v)]) as Hr by (by apply Hm).
    apply elem_of_app in Hr as [Hr|Hr].
    + apply StronglySorted_app in Hs as (Hall & _ & _). apply (Hall (k', v') (k, v)); set_solver.
    + apply list_elem_of_singleton in Hr as [= -> ->]. apply bytes_le_refl.
Qed.

(** ** Columns *)

Definition column (d : MemKv) (c : StorageTypeColumn) : list (bytes * bytes) :=
  omap (fun '((c', k), v) => if decide (c' = c) then Some (k, v) else None) (map_to_list (mk_plain d)).

Lemma column_elem d c k v : (k, v) ∈ column d c <-> mk_plain d !! (c, k) = Some v.
Proof.
  unfold column. rewrite list_elem_of_omap. split.
  - intros ([[c' k'] v'] & Hin & Heq). case_decide; simplify_eq. by apply elem_of_map_to_list.
  - intros Hk. exists ((c, k), v). split; [by apply elem_of_map_to_list|]. by rewrite decide_True.
Qed.

Lemma column_NoDup d c : NoDup (column d c).*1.
Proof.
  unfold column. pose proof (NoDup_fst_map_to_list (mk_plain d)) as Hnd.
  induction (map_to_list (mk_plain d)) as [|[[c' k] v] l IH]; cbn in *; [constructor|].
  apply NoDup_cons in Hnd as [Hn Hnd]. case_decide; [|auto]. subst. cbn. constructor; [|auto].
  intros Hin. apply Hn. apply list_elem_of_fmap in Hin as ([k' v'] & Hk & Hin). cbn in Hk. subst k'.
  apply list_elem_of_omap in Hin as ([[c' k'] w] & Hin & Heq). case_decide; simplify_eq.
  apply list_elem_of_fmap. by exists ((c, k), v').
Qed.

(** Versions of a key, greatest last. *)
Definition version_list (d : MemKv) (c : StorageTypeColumn) (k : bytes) : list (Z * bytes) :=
  omap (fun '((c', k', ts), v) => if decide (c' = c /\ k' = k) then Some (ts, v) else None)
    (map_to_list (mk_ts d)).

Lemma version_elem d c k ts v : (ts, v) ∈ version_list d c k <-> mk_ts d !! (c, k, ts) = Some v.
Proof.
  unfold version_list. rewrite list_elem_of_omap. split.
  - intros ([[[c' k'] ts'] v'] & Hin & Heq). case_decide as Hc; [|done]. destruct Hc. simplify_eq.
    by apply elem_of_map_to_list.
  - intros Hk. exists ((c, k, ts), v). split; [by apply elem_of_map_to_list|]. by rewrite decide_True.
Qed.

Definition better (n : u64) (best : option (Z * bytes)) (e : Z * bytes) : option (Z * bytes) :=
  if decide (0 <= e.1 <= u64_max /\ e.1 <= n /\ default (-1) (fst <$> best) < e.1)
  then Some e else best.

Definition best_version (n : u64) (l : list (Z * bytes)) : option (Z * bytes) :=
  fold_left (better n) l None.

Lemma best_version_ok n l best :
  (match best with Some e => is_u64 e.1 /\ e.1 <= n | None => True end) ->
  match fold_left (better n) l best with
  | Some e => (e ∈ l \/ best = Some e) /\ is_u64 e.1 /\ e.1 <= n /\
      (forall e', e' ∈ l -> is_u64 e'.1 -> e'.1 <= n -> e'.1 <= e.1) /\
      (match best with Some b => b.1 <= e.1 | None => True end)
  | None => best = None /\ forall e', e' ∈ l -> is_u64 e'.1 -> ~ e'.1 <= n
  end.
Proof.
  revert best. induction l as [|e l IH]; intros best Hb; cbn [fold_left].
  - destruct best as [b|]; [destruct Hb|]; split_and!; auto; try lia; intros ? Hin; by apply elem_of_nil in Hin.
  - assert (Hb' : match better n best e with Some e => is_u64 e.1 /\ e.1 <= n | None => True end).
    { unfold better. case_decide as Hd; [|done]. destruct Hd as (? & ? & _). done. }
    specialize (IH _ Hb'). destruct (fold_left (better n) l (better n best e)) as [r|].
    + destruct IH as (Hin & Hu & Hle & Hmax & Hge). unfold better in Hin, Hge.
      case_decide as Hd; cbn in *.
      * split_and!; try done.
        -- destruct Hin as [?|[= <-]]; left; [by right | by left].
        -- intros e' [->|He']%elem_of_cons; [done|eauto].
        -- destruct best; cbn in *; [lia|done].
      * split_and!; try done.
        -- destruct Hin as [?|Hin]; [left; by right | by right].
        -- intros e' [->|He']%elem_of_cons Hu' Hle'; [|eauto].
           pose proof Hu' as [? ?].
           destruct best as [b|]; cbn in Hd; [|exfalso; apply Hd; split_and!; done || lia].
           destruct (decide (b.1 < e.1)); [exfalso; apply Hd; by split_and!|lia].
    + destruct IH as [IH Hno]. unfold better in IH. case_decide as Hd; [done|]. subst best.
      split; [done|]. intros e' [->|He']%elem_of_cons Hu' Hle'; [|by eapply Hno].
      pose proof Hu' as [? ?]. apply Hd. cbn. split_and!; done || lia.
Qed.

Lemma best_version_latest d c k n :
  latest_le (fun ts => mk_ts d !! (c, k, ts)) n (best_version n (version_list d c k)).
Proof.
  pose proof (best_version_ok n (version_list d c k) None I) as Hb. unfold best_version.
  destruct (fold_left _ _ _) as [[b v]|]; cbn in *.
  - destruct Hb as ([Hin|?] & Hu & Hle & Hmax & _); [|done]. split_and!; try done.
    + by apply version_elem.
    + intros b' Hb' Hr. destruct (mk_ts d !! (c, k, b')) as [w|] eqn:Hw; [|done].
      apply version_elem in Hw. specialize (Hmax _ Hw Hb' ltac:(cbn; lia)). cbn in Hmax. lia.
  - destruct Hb as [_ Hno]. intros b' Hb' Hle. destruct (mk_ts d !! (c, k, b')) as [w|] eqn:Hw; [|done].
    apply version_elem in Hw. by destruct (Hno _ Hw Hb' Hle).
Qed.

(** Each key of a timestamped column once, with the version for [n]. *)
Definition ts_keys (d : MemKv) (c : StorageTypeColumn) : gset bytes :=
  list_to_set (omap (fun '((c', k, _), _) => if decide (c' = c) then Some k else None)
    (map_to_list (mk_ts d))).

Definition scan_list (d : MemKv) (c : StorageTypeColumn) (n : u64) : list (bytes * bytes) :=
  omap (fun k => match best_version n (version_list d c k) with Some (_, v) => Some (k, v) | None => None end)
    (elements (ts_keys d c)).

Lemma scan_list_elem d c n k v :
  (k, v) ∈ scan_list d c n <-> exists b, best_version n (version_list d c k) = Some (b, v).
Proof.
  unfold scan_list. rewrite list_elem_of_omap. split.
  - intros (k' & _ & Heq). destruct (best_version _ _) as [[b w]|] eqn:Hb; simplify_eq. eauto.
  - intros (b & Hb). exists k. rewrite Hb. split; [|done]. apply elem_of_elements.
    unfold ts_keys. apply elem_of_list_to_set, list_elem_of_omap.
    pose proof (best_version_latest d c k n) as Hl. rewrite Hb in Hl. destruct Hl as (_ & _ & Hv & _).
    exists ((c, k, b), v). split; [by apply elem_of_map_to_list|]. by rewrite decide_True.
Qed.

Lemma scan_list_NoDup d c n : NoDup (scan_list d c n).*1.
Proof.
  unfold scan_list. pose proof (NoDup_elements (ts_keys d c)) as Hnd.
  induction (elements (ts_keys d c)) as [|k l IH]; cbn; [constructor|].
  apply NoDup_cons in Hnd as [Hn Hnd]. destruct (best_version _ _) as [[b v]|]; [|auto].
  cbn. constructor; [|auto]. intros Hin. apply Hn.
  apply list_elem_of_fmap in Hin as ([k' v'] & Hk & Hin). cbn in Hk. subst k'.
  apply list_elem_of_omap in Hin as (k' & Hin & Heq).
  destruct (best_version _ _) as [[b' w]|]; by simplify_eq.
Qed.

(** ** The operations *)

Definition mem_apply (d : MemKv) (op : WriteOp) : MemKv :=
  match op with
  | OpPut c k v => mkMemKv (<[(c, k) := v]> (mk_plain d)) (mk_ts d)
  | OpPutTs c k ts v => mkMemKv (mk_plain d) (<[(c, k, ts) := v]> (mk_ts d))
  | OpDelete c k => mkMemKv (delete (c, k) (mk_plain d)) (mk_ts d)
  | OpDeleteRange c lo hi =>
      mkMemKv (filter (fun '((c', k), _) => ~ (c = c' /\ (lo ≤ k)%bytes /\ (k < hi)%bytes)) (mk_plain d))
        (mk_ts d)
  end.

Definition below (hi : option bytes) (k : bytes) : Prop :=
  match hi with Some h => (k < h)%bytes | None => True end.

#[export] Instance below_dec hi k : Decision (below hi k).
Proof. destruct hi; cbn; apply _. Defined.

Section instance.
Context {E : Type}.

#[export] Instance mem_rocksdb : RocksDB MemKv E := {|
  db_get d c k := Ok (mk_plain d !! (c, k));
  db_seek d c t := Ok (first_where (fun k => (t ≤ k)%bytes) (column d c));
  db_seek_for_prev d c t := Ok (last_where (fun k => (k ≤ t)%bytes) (column d c));
  db_prev d c t := Ok (last_where (fun k => (k < t)%bytes) (column d c));
  db_seek_total d c t := Ok (first_where (fun k => (t ≤ k)%bytes) (column d c));
  db_iter d c := Ok (sorted (column d c));
  db_get_ts d c k n := Ok (best_version n (version_list d c k));
  db_scan_ts d c n lo hi :=
    Ok (sorted (filter (fun e => (lo ≤ e.1)%bytes /\ below hi e.1) (scan_list d c n)));
  db_write d ops := (Ok tt, fold_left mem_apply ops d);
|}.

#[export] Instance mem_rocksdb_spec : RocksDBSpec MemKv := {|
  kv_ok _ := True;
  kv_contents d c k := mk_plain d !! (c, k);
  kv_versions d c k n := mk_ts d !! (c, k, n);
|}.

Lemma mem_write_contents ops d c k :
  mk_plain (fold_left mem_apply ops d) !! (c, k) = fold_left (op_contents c k) ops (mk_plain d !! (c, k)).
Proof.
  revert d. induction ops as [|op ops IH]; intros d; cbn [fold_left]; [done|]. rewrite IH. f_equal.
  destruct op as [c' k' v|c' k' ts v|c' k'|c' lo hi]; cbn.
  - rewrite lookup_insert. repeat case_decide; naive_solver.
  - done.
  - rewrite lookup_delete. repeat case_decide; naive_solver.
  - case_decide as Hd; [apply map_lookup_filter_None; right; naive_solver|].
    destruct (mk_plain d !! (c, k)) eqn:Hk; [by apply map_lookup_filter_Some|].
    apply map_lookup_filter_None. by left.
Qed.

Lemma mem_write_versions ops d c k n :
  mk_ts (fold_left mem_apply ops d) !! (c, k, n) = fold_left (op_versions c k n) ops (mk_ts d !! (c, k, n)).
Proof.
  revert d. induction ops as [|op ops IH]; intros d; cbn [fold_left]; [done|]. rewrite IH. f_equal.
  destruct op as [c' k' v|c' k' ts v|c' k'|c' lo hi]; cbn; try done.
  rewrite lookup_insert. repeat case_decide; naive_solver.
Qed.

(** A total answer is one a prefix-mode iterator may give. *)
Lemma in_prefix_first m c t r :
  first_from m (fun _ => True) t r -> in_prefix m (first_from m (same_prefix c t) t) (same_prefix c t) r.
Proof.
  unfold same_prefix. destruct r as [[k v]|]; cbn; [|naive_solver]. intros (Hk & _ & Ht & Hmin).
  destruct (decide (take (prefix_len c) t = take (prefix_len c) k)) as [HP|HP]; [left; naive_solver|right].
  split; [done|]. split; [done|]. intros k' Hk' HP' Ht'. apply HP. symmetry.
  by apply (take_between _ t k k'); [|apply Hmin|].
Qed.

Lemma in_prefix_last m c t (lt : bytes -> Prop) r :
  (forall k, lt k -> (k ≤ t)%bytes) ->
  last_upto m (fun _ => True) lt r ->
  in_prefix m (last_upto m (same_prefix c t) lt) (same_prefix c t) r.
Proof.
  unfold same_prefix. intros Hlt. destruct r as [[k v]|]; cbn; [|naive_solver]. intros (Hk & _ & Ht & Hmax).
  destruct (decide (take (prefix_len c) t = take (prefix_len c) k)) as [HP|HP]; [left; naive_solver|right].
  split; [done|]. split; [done|]. intros k' Hk' HP' Ht'. apply HP.
  rewrite (take_between _ k' k t); [done|by apply Hmax|auto|done].
Qed.

Lemma first_where_first d c t :
  first_from (kv_contents d c) (fun _ => True) t (first_where (fun k => (t ≤ k)%bytes) (column d c)).
Proof.
  pose proof (first_where_ok (fun k => (t ≤ k)%bytes) (column d c)) as Hf.
  destruct (first_where _ _) as [[k v]|]; cbn.
  - destruct Hf as (Hin & Ht & Hmin). split_and!; try done; [by apply column_elem|].
    intros k' [v' Hv'] _ Ht'. by apply (Hmin k' v'); [apply column_elem|].
  - intros k' [v' Hv'] _. by apply (Hf k' v'), column_elem.
Qed.

Lemma last_where_last d c P `{forall k, Decision (P k)} :
  last_upto (kv_contents d c) (fun _ => True) P (last_where P (column d c)).
Proof.
  pose proof (last_where_ok P (column d c)) as Hf.
  destruct (last_where _ _) as [[k v]|]; cbn.
  - destruct Hf as (Hin & Ht & Hmax). split_and!; try done; [by apply column_elem|].
    intros k' [v' Hv'] _ Ht'. by apply (Hmax k' v'); [apply column_elem|].
  - intros k' [v' Hv'] _. by apply (Hf k' v'), column_elem.
Qed.

#[export] Instance mem_rocksdb_ok : RocksDBOk MemKv E.
Proof.
  split; try done; intros d c.
  - intros t _. eexists. split; [done|]. apply in_prefix_first, first_where_first.
  - intros t _. eexists. split; [done|]. apply in_prefix_last; [done|apply last_where_last].
  - intros t _. eexists. split; [done|]. apply in_prefix_last; [intros k; apply bytes_lt_le|apply last_where_last].
  - intros t _. eexists. split; [done|]. apply first_where_first.
  - intros _. eexists. split; [done|]. split; [apply sorted_keys, column_NoDup|].
    intros k v. by rewrite sorted_elem, column_elem.
  - intros k ts _. eexists. split; [done|]. apply best_version_latest.
  - intros ts lo hi _. eexists. split; [done|]. split.
    + apply sorted_keys. eapply sublist_NoDup; [apply (scan_list_NoDup d c ts)|].
      apply fmap_sublist, sublist_filter.
    + intros k v. rewrite sorted_elem, list_elem_of_filter, scan_list_elem. cbn. split.
      * intros [[Hlo Hhi] (b & Hb)]. split_and!; try done. exists b.
        pose proof (best_version_latest d c k ts) as Hl. by rewrite Hb in Hl.
      * intros (Hlo & Hhi & b & Hb). split; [done|]. exists b.
        eapply latest_le_det; [apply best_version_latest | done].
  - intros _. eexists. split; [done|]. split; [done|]. split; [apply mem_write_contents | apply mem_write_versions].
Qed.
End instance.

(** A row of an SST file is the entry of a batch that would write it. *)
Definition row_key (op : WriteOp) : bytes :=
  match op with OpPut _ k _ | OpPutTs _ k _ _ | OpDelete _ k | OpDeleteRange _ k _ => k end.

Definition row_ts (op : WriteOp) : u64 := match op with OpPutTs _ _ ts _ => ts | _ => 0 end.

(** A row that puts a value in column [c]. *)
Definition row_in (c : StorageTypeColumn) (op : WriteOp) : Prop :=
  match op with OpPut c' _ _ | OpPutTs c' _ _ _ => c' = c | _ => False end.

(** The order of the rows in a file: by key, the newest version first. *)
Definition row_lt (a b : WriteOp) : Prop :=
  (row_key a < row_key b)%bytes \/ (row_key a = row_key b /\ row_ts b < row_ts a).

#[export] Instance row_lt_dec a b : Decision (row_lt a b).
Proof. unfold row_lt. apply _. Defined.

Class RocksDBAdmin (K E : Type) := {
  (** [open_cf_descriptors] of the columns [asked] on a database that has the
      columns [existing], creating the missing ones if [create]. *)
  db_open : K -> list StorageTypeColumn -> list StorageTypeColumn -> bool -> Res E unit * K;
  db_drop_cf : K -> StorageTypeColumn -> Res E unit * K;
  db_create_cf : K -> StorageTypeColumn -> Res E unit * K;
  (** [rocksdb_open_and_trim_history]: drop the versions above a timestamp. *)
  db_trim : K -> u64 -> Res E unit * K;
  (** [SstFileWriter]: append a row to a file, and the size it reports. *)
  sst_put : list WriteOp -> WriteOp -> Res E (list WriteOp);
  sst_file_size : list WriteOp -> Z;
  (** [ingest_external_file_cf_opts]: the files in order, at once. *)
  db_ingest : K -> StorageTypeColumn -> list (list WriteOp) -> Res E unit * K;
  (** [WriteBatch::size_in_bytes]. *)
  batch_size : list WriteOp -> Z;
}.

(** Two files with no key in common. *)
Definition rows_apart (f g : list WriteOp) : Prop :=
  forall a b, a ∈ f -> b ∈ g -> row_key a <> row_key b.

Class RocksDBAdminOk (K E : Type) `{RocksDBSpec K} `{RocksDBAdmin K E} : Prop := {
  rk_open d existing asked create : kv_ok d -> existing ⊆ asked -> asked ⊆ existing ->
    db_open d existing asked create = (Ok tt, d);
  (** Missing columns are created empty. *)
  rk_open_create d existing asked : kv_ok d -> existing ⊆ asked ->
    exists d', db_open d existing asked true = (Ok tt, d') /\ kv_ok d' /\
    (forall c k, kv_contents d' c k = if decide (c ∈ asked /\ ~ c ∈ existing) then None else kv_contents d c k) /\
    (forall c k ts, kv_versions d' c k ts = if decide (c ∈ asked /\ ~ c ∈ existing) then None else kv_versions d c k ts);
  rk_drop_cf d c : kv_ok d -> exists d', db_drop_cf d c = (Ok tt, d') /\ kv_ok d' /\
    (forall c' k, kv_contents d' c' k = if decide (c' = c) then None else kv_contents d c' k) /\
    (forall c' k ts, kv_versions d' c' k ts = if decide (c' = c) then None else kv_versions d c' k ts);
  (** A column just dropped or never written is created empty. *)
  rk_create_cf d c : kv_ok d -> exists d', db_create_cf d c = (Ok tt, d') /\ kv_ok d' /\
    (forall c' k, kv_contents d' c' k = if decide (c' = c) then None else kv_contents d c' k) /\
    (forall c' k ts, kv_versions d' c' k ts = if decide (c' = c) then None else kv_versions d c' k ts);
  rk_trim d n : kv_ok d -> exists d', db_trim d n = (Ok tt, d') /\ kv_ok d' /\
    (forall c k, kv_contents d' c k = kv_contents d c k) /\
    (forall c k ts, kv_versions d' c k ts = if decide (ts <= n) then kv_versions d c k ts else None);
  rk_sst_put rows op : (forall r, r ∈ rows -> row_lt r op) -> sst_put rows op = Ok (rows ++ [op]);
  (** Files in order; those of a timestamped column must share no key. *)
  rk_ingest d c files : kv_ok d -> Forall (fun f => f <> [] /\ StronglySorted row_lt f /\ Forall (row_in c) f) files ->
    (forall i j f g, i <> j -> files !! i = Some f -> files !! j = Some g ->
      rows_apart f g \/ forall r, r ∈ f ++ g -> exists k v, r = OpPut c k v) ->
    exists d', db_ingest d c files = (Ok tt, d') /\ kv_ok d' /\
    (forall c' k, kv_contents d' c' k = fold_left (op_contents c' k) (concat files) (kv_contents d c' k)) /\
    (forall c' k ts, kv_versions d' c' k ts = fold_left (op_versions c' k ts) (concat files) (kv_versions d c' k ts));
}.

(** ** In memory *)

Definition mem_clear (d : MemKv) (c : StorageTypeColumn) : MemKv :=
  mkMemKv (filter (fun e => e.1.1 <> c) (mk_plain d)) (filter (fun e => e.1.1.1 <> c) (mk_ts d)).

Section instance.
Context {E : Type} `{Inhabited E}.

#[export] Instance mem_admin : RocksDBAdmin MemKv E := {|
  db_open d existing asked create :=
    if decide (existing ⊆ asked /\ (create = true \/ asked ⊆ existing))
    then (Ok tt, fold_left mem_clear (filter (fun c => ~ c ∈ existing) asked) d) else (Err inhabitant, d);
  db_drop_cf d c := (Ok tt, mem_clear d c);
  db_create_cf d c := (Ok tt, mem_clear d c);
  db_trim d n := (Ok tt, mkMemKv (mk_plain d) (filter (fun e => e.1.2 <= n) (mk_ts d)));
  sst_put rows op :=
    match last rows with
    | Some r => if decide (row_lt r op) then Ok (rows ++ [op]) else Err inhabitant
    | None => Ok (rows ++ [op])
    end;
  sst_file_size rows := Z.of_nat (length rows);
  db_ingest d c files := (Ok tt, fold_left mem_apply (concat files) d);
  batch_size ops := Z.of_nat (length ops);
|}.

Lemma mem_clear_plain d c c' k :
  mk_plain (mem_clear d c) !! (c', k) = if decide (c' = c) then None else mk_plain d !! (c', k).
Proof.
  cbn. rewrite map_lookup_filter. case_decide as Hc; destruct (mk_plain d !! (c', k)); cbn; try done; by case_guard.
Qed.

Lemma mem_clear_ts d c c' k ts :
  mk_ts (mem_clear d c) !! (c', k, ts) = if decide (c' = c) then None else mk_ts d !! (c', k, ts).
Proof.
  cbn. rewrite map_lookup_filter. case_decide as Hc; destruct (mk_ts d !! (c', k, ts)); cbn; try done; by case_guard.
Qed.

Lemma mem_clear_all cols : forall d c k,
  mk_plain (fold_left mem_clear cols d) !! (c, k) = if decide (c ∈ cols) then None else mk_plain d !! (c, k).
Proof.
  induction cols as [|col cols IH]; intros d c k; [done|]. cbn [fold_left]. rewrite IH, mem_clear_plain.
  destruct (decide (c ∈ cols)) as [Hc|Hc]; [by rewrite decide_True by (by right)|].
  case_decide as Heq; [by rewrite decide_True by (rewrite Heq; by left)|]. by rewrite decide_False by (by intros [?|?]%elem_of_cons).
Qed.

Lemma mem_clear_all_ts cols : forall d c k ts,
  mk_ts (fold_left mem_clear cols d) !! (c, k, ts) = if decide (c ∈ cols) then None else mk_ts d !! (c, k, ts).
Proof.
  induction cols as [|col cols IH]; intros d c k ts; [done|]. cbn [fold_left]. rewrite IH, mem_clear_ts.
  destruct (decide (c ∈ cols)) as [Hc|Hc]; [by rewrite decide_True by (by right)|].
  case_decide as Heq; [by rewrite decide_True by (rewrite Heq; by left)|]. by rewrite decide_False by (by intros [?|?]%elem_of_cons).
Qed.

#[export] Instance mem_admin_ok : RocksDBAdminOk MemKv E.
Proof.
  split.
  - intros d existing asked create _ Hsub Hsup. cbn. rewrite decide_True by (split; [done|by right]).
    assert (filter (fun c => ~ c ∈ existing) asked = []) as ->; [|done].
    destruct (filter _ asked) as [|c l] eqn:Hf; [done|]. exfalso.
    assert (c ∈ filter (fun c => ~ c ∈ existing) asked) as [Hn Hc]%list_elem_of_filter by (rewrite Hf; by left). by apply Hn, Hsup.
  - intros d existing asked _ Hsub. cbn. rewrite decide_True by (split; [done|by left]). eexists. split; [done|]. split; [done|].
    assert (Hin : forall c, c ∈ filter (fun c => ~ c ∈ existing) asked <-> c ∈ asked /\ ~ c ∈ existing)
      by (intros c; rewrite list_elem_of_filter; tauto).
    split; intros; cbn; rewrite ?mem_clear_all, ?mem_clear_all_ts; by erewrite decide_ext by apply Hin.
  - intros d c _. eexists. split; [done|]. split; [done|]. split; [apply mem_clear_plain|apply mem_clear_ts].
  - intros d c _. eexists. split; [done|]. split; [done|]. split; [apply mem_clear_plain|apply mem_clear_ts].
  - intros d n _. eexists. split; [done|]. split; [done|]. split; [done|]. intros c k ts.
    cbn. rewrite map_lookup_filter. case_decide as Hc; destruct (mk_ts d !! (c, k, ts)); cbn; try done; by case_guard.
  - intros rows op Hlt. cbn. destruct (last rows) as [r|] eqn:Hl; [|done].
    rewrite decide_True; [done|]. apply Hlt. by apply last_Some_elem_of.
  - intros d c files _ _ _. eexists. split; [done|]. split; [done|]. split; [apply mem_write_contents|apply mem_write_versions].
Qed.
End instance.
