(* ===== verification/ArchiveEncoding.v ===== *)
(** * Archive keys and values
    (crates/leafage-evm-storage/src/db_impl/archive_encoding.rs, and the value
    helpers of rocksdb_impl/archive/{mod,udt}.rs)

    Account and storage keys end in a 32-byte version tail: the block number,
    ascending, or inverted ([u64::MAX - n]) so that versions sort newest first.
    The process-wide encoding flag is the argument [inverted]. *)

From stdpp Require Import prelude gmap list sorting.
From S2P Require Import Prelude Types.

#[local] Open Scope Z_scope.

(** [encode_block_num]: 24 zero bytes, then the number. *)
Definition encode_block_num (block_num : u64) : bytes := replicate 24 0 ++ be_bytes 8 block_num.

Definition encode_block_num_desc (block_num : u64) : bytes := encode_block_num (u64_max - block_num).

Definition encode_version_tail (inverted : bool) (block_num : u64) : bytes :=
  if inverted then encode_block_num_desc block_num else encode_block_num block_num.

(** [decode_version_tail], on a 32-byte tail. *)
Definition decode_version_tail (inverted : bool) (tail : bytes) : u64 :=
  let raw := from_be (take 8 (drop 24 tail)) in
  if inverted then u64_max - raw else raw.

(** A 32-byte hash as bytes. *)
Definition h256_bytes (h : H256) : bytes := be_bytes 32 h.

Definition encode_account_key (inverted : bool) (address : H256) (block_num : u64) : bytes :=
  h256_bytes address ++ encode_version_tail inverted block_num.

Definition encode_storage_key (inverted : bool) (address storage_key : H256) (block_num : u64) : bytes :=
  h256_bytes address ++ h256_bytes storage_key ++ encode_version_tail inverted block_num.

(** [udt::encode_ts]: the timestamp of schema v3, little-endian. *)
Definition encode_ts (block : u64) : bytes := rev (be_bytes 8 block).

(** [udt::strip_leading_zeros]. *)
Fixpoint strip_leading_zeros (value : bytes) : bytes :=
  match value with
  | b :: rest => if decide (b = 0) then strip_leading_zeros rest else value
  | [] => []
  end.

(** [decode_storage]: big-endian, possibly shortened; empty is zero. *)
Definition decode_storage (raw : bytes) : U256 :=
  match raw with [] => 0 | _ => from_be raw end.

(** [key_after_prefix]: drop trailing [0xff] bytes, then add one. *)
Fixpoint key_after_prefix_rev (rev_key : bytes) : option bytes :=
  match rev_key with
  | [] => None
  | last :: rest => if decide (last = u8_max) then key_after_prefix_rev rest
      else Some (rev (last + 1 :: rest))
  end.

Definition key_after_prefix (prefix : bytes) : option bytes := key_after_prefix_rev (rev prefix).

(** [is_dual_write_sentinel_tail]. *)
Definition is_dual_write_sentinel_tail (tail : bytes) : bool :=
  bool_decide (from_be (take 8 (drop 24 tail)) = u64_max).

(** ** Lengths and ranges *)

Lemma is_u64_pow n : is_u64 n <-> 0 <= n < 256 ^ Z.of_nat 8.
Proof. unfold is_u64, u64_max. change (256 ^ Z.of_nat 8) with 18446744073709551616. lia. Qed.

Lemma is_u256_pow n : is_u256 n <-> 0 <= n < 256 ^ Z.of_nat 32.
Proof. unfold is_u256, u256_max. change (256 ^ Z.of_nat 32) with (2 ^ 256). lia. Qed.

Lemma is_u64_inv n : is_u64 n -> is_u64 (u64_max - n).
Proof. unfold is_u64. lia. Qed.

Lemma length_h256 h : length (h256_bytes h) = 32%nat.
Proof. apply length_be_bytes. Qed.

Lemma length_block_num n : length (encode_block_num n) = 32%nat.
Proof. unfold encode_block_num. by rewrite length_app, length_replicate, length_be_bytes. Qed.

Lemma length_tail inv n : length (encode_version_tail inv n) = 32%nat.
Proof. by destruct inv; apply length_block_num. Qed.

Lemma h256_inj a b : is_u256 a -> is_u256 b -> h256_bytes a = h256_bytes b -> a = b.
Proof. rewrite !is_u256_pow. apply be_bytes_inj. Qed.

Lemma from_be_h256 h : is_u256 h -> from_be (h256_bytes h) = h.
Proof. rewrite is_u256_pow. apply from_be_be_bytes_small. Qed.

(** ** Version tails *)

Lemma raw_block_num n : is_u64 n -> from_be (take 8 (drop 24 (encode_block_num n))) = n.
Proof.
  intros Hn. unfold encode_block_num. rewrite drop_app_length' by (by rewrite length_replicate).
  rewrite take_ge by (by rewrite length_be_bytes).
  rewrite from_be_be_bytes_small; [done|]. by apply is_u64_pow.
Qed.

Lemma decode_encode_tail inv n : is_u64 n -> decode_version_tail inv (encode_version_tail inv n) = n.
Proof.
  intros Hn. unfold decode_version_tail, encode_version_tail. destruct inv.
  - unfold encode_block_num_desc. rewrite raw_block_num by (by apply is_u64_inv). lia.
  - by apply raw_block_num.
Qed.

Lemma block_num_cmp a b :
  is_u64 a -> is_u64 b -> bytes_cmp (encode_block_num a) (encode_block_num b) = (a ?= b).
Proof.
  intros Ha Hb. unfold encode_block_num. rewrite bytes_cmp_app_same.
  apply be_bytes_cmp; by apply is_u64_pow.
Qed.

(** Ascending tails sort as their numbers, inverted ones the other way. *)
Lemma tail_cmp inv a b :
  is_u64 a -> is_u64 b ->
  bytes_cmp (encode_version_tail inv a) (encode_version_tail inv b) = if inv then b ?= a else a ?= b.
Proof.
  intros Ha Hb. unfold encode_version_tail. destruct inv; [|by apply block_num_cmp].
  unfold encode_block_num_desc. rewrite block_num_cmp by (by apply is_u64_inv).
  destruct (Z.compare_spec b a), (Z.compare_spec (u64_max - a) (u64_max - b)); done || lia.
Qed.

Lemma tail_inj inv a b :
  is_u64 a -> is_u64 b -> encode_version_tail inv a = encode_version_tail inv b -> a = b.
Proof.
  intros Ha Hb Heq. rewrite <- (decode_encode_tail inv a), <- (decode_encode_tail inv b) by done. by rewrite Heq.
Qed.

(** A versioned key: its prefix, then its tail. *)
Definition version_key (inv : bool) (prefix : bytes) (n : u64) : bytes :=
  prefix ++ encode_version_tail inv n.

Lemma account_version_key inv a n : encode_account_key inv a n = version_key inv (h256_bytes a) n.
Proof. done. Qed.

Definition slot_prefix (address slot : H256) : bytes := h256_bytes address ++ h256_bytes slot.

Lemma storage_version_key inv a i n : encode_storage_key inv a i n = version_key inv (slot_prefix a i) n.
Proof. unfold version_key, slot_prefix. by rewrite <- (assoc_L (++)). Qed.

Lemma length_slot_prefix a i : length (slot_prefix a i) = 64%nat.
Proof. unfold slot_prefix. by rewrite length_app, !length_h256. Qed.

Lemma slot_prefix_inj a i a' i' :
  is_u256 a -> is_u256 i -> is_u256 a' -> is_u256 i' ->
  slot_prefix a i = slot_prefix a' i' -> a = a' /\ i = i'.
Proof.
  intros Ha Hi Ha' Hi' Heq. apply app_inj_1 in Heq as [H1 H2]; [|by rewrite !length_h256].
  split; by apply h256_inj.
Qed.

Lemma version_key_inj inv p p' a b :
  length p = length p' -> is_u64 a -> is_u64 b ->
  version_key inv p a = version_key inv p' b -> p = p' /\ a = b.
Proof.
  intros Hl Ha Hb Heq. apply app_inj_1 in Heq as [-> Heq]; [|done]. split; [done|].
  by apply (tail_inj inv).
Qed.

Lemma version_key_cmp inv p a b :
  is_u64 a -> is_u64 b ->
  bytes_cmp (version_key inv p a) (version_key inv p b) = if inv then b ?= a else a ?= b.
Proof. intros. unfold version_key. rewrite bytes_cmp_app_same. by apply tail_cmp. Qed.

Lemma version_key_take inv p n : take (length p) (version_key inv p n) = p.
Proof. unfold version_key. by rewrite take_app_length. Qed.

Lemma version_key_drop inv p n : drop (length p) (version_key inv p n) = encode_version_tail inv n.
Proof. unfold version_key. by rewrite drop_app_length. Qed.

(** ** Values *)

Lemma from_be_strip v : from_be (strip_leading_zeros v) = from_be v.
Proof.
  induction v as [|b v IH]; [done|]. cbn [strip_leading_zeros]. case_decide; [|done]. subst.
  rewrite IH, from_be_cons. lia.
Qed.

Lemma decode_storage_from_be raw : decode_storage raw = from_be raw.
Proof. by destruct raw. Qed.

(** A storage value reads back, whole or with its leading zeros stripped. *)
Lemma decode_storage_value v :
  is_u256 v -> decode_storage (h256_bytes v) = v /\ decode_storage (strip_leading_zeros (h256_bytes v)) = v.
Proof. intros Hv. rewrite !decode_storage_from_be, from_be_strip. split; by apply from_be_h256. Qed.

(** ** The key after a prefix *)

Lemma key_after_prefix_snoc q b :
  key_after_prefix (q ++ [b]) = if decide (b = u8_max) then key_after_prefix q else Some (q ++ [b + 1]).
Proof.
  unfold key_after_prefix. rewrite rev_app_distr. cbn. case_decide; [done|]. by rewrite rev_involutive.
Qed.

(** Below the key after a prefix, or anywhere when there is none. *)
Definition before (hi : option bytes) (k : bytes) : Prop :=
  match hi with Some h => (k < h)%bytes | None => True end.

#[export] Instance before_dec hi k : Decision (before hi k).
Proof. destruct hi; cbn; apply _. Defined.

(** [key_after_prefix] bounds exactly the keys that begin with the prefix. *)
Lemma key_after_prefix_ok p x :
  Forall is_u8 x -> (p ≤ x)%bytes /\ before (key_after_prefix p) x <-> p `prefix_of` x.
Proof.
  intros Hx. split.
  - intros [Hle Hlt]. induction p as [|b q IH] using rev_ind; [apply prefix_nil|].
    rewrite key_after_prefix_snoc in Hlt. case_decide as Hb.
    + assert ((q ≤ q ++ [b])%bytes) as Hq.
      { unfold bytes_le. rewrite <- (app_nil_r q) at 1. by rewrite bytes_cmp_app_same. }
      destruct IH as [r ->]; [by eapply bytes_le_trans | done |].
      unfold bytes_le in Hle. rewrite bytes_cmp_app_same in Hle.
      apply Forall_app in Hx as [_ Hr]. destruct r as [|y r]; [done|]. inversion Hr as [|? ? [_ Hy] _]; subst.
      cbn [bytes_cmp] in Hle. assert (y = u8_max) as ->; [|exists r; by rewrite <- (assoc_L (++))].
      destruct (Z.compare_spec u8_max y); congruence || lia.
    + cbn in Hlt. pose proof (take_between (length q) (q ++ [b]) x (q ++ [b + 1]) Hle (bytes_lt_le _ _ Hlt)) as Ht.
      rewrite !take_app_length in Ht. specialize (Ht eq_refl).
      rewrite <- (take_drop (length q) x) in Hle, Hlt |- *. rewrite Ht in Hle, Hlt |- *.
      unfold bytes_le, bytes_lt in *. rewrite bytes_cmp_app_same in Hle, Hlt.
      destruct (drop (length q) x) as [|y r]; [done|]. cbn in Hle, Hlt.
      assert (y = b) as ->.
      { destruct (Z.compare_spec b y), (Z.compare_spec y (b + 1)); try done; try lia. subst. by destruct r. }
      exists r. by rewrite <- (assoc_L (++)).
  - intros [r ->]. split.
    + unfold bytes_le. rewrite <- (app_nil_r p) at 1. rewrite bytes_cmp_app_same. by destruct r.
    + clear Hx. revert r. induction p as [|b q IH] using rev_ind; intros r; [done|].
      rewrite key_after_prefix_snoc, <- (assoc_L (++)). case_decide; [apply IH|].
      cbn. unfold bytes_lt. rewrite bytes_cmp_app_same. cbn. by rewrite (proj2 (Z.compare_lt_iff _ _)) by lia.
Qed.
