(* ===== verification/StateCache.v ===== *)
(** * The archive's cross-request state cache
    (crates/leafage-evm-storage/src/db_impl/rocksdb_impl/archive/state_cache.rs)

    Per key, the cache keeps block spans over which the key holds one value.
    [Span], [Entry], [Table] and [StateCache] are the source's types; a table
    is a [QuickCache] from the key's bytes to its entry. *)

From stdpp Require Import prelude gmap list.
From S2P Require Import Prelude Types QuickCache.

#[local] Open Scope Z_scope.

Definition MAX_SPANS : nat := 4.
Definition VOLATILE_SPAN : u64 := 64.
Definition ENTRY_OVERHEAD : Z := 105.
(** [Entry::newest] of a key not to probe again. *)
Definition VOLATILE : u64 := u64_max.

Record CachedAccount := mkCachedAccount {
  ca_balance : U256;
  ca_nonce : u64;
  ca_code_hash : H256;
}.

#[export] Instance CachedAccount_eq_dec : EqDecision CachedAccount.
Proof. solve_decision. Defined.

(** [CachedAccount::with_address] and [From<&NewAccount>]. *)
Definition with_address (a : CachedAccount) (address : H256) : NewAccount :=
  mkNewAccount address (ca_balance a) (ca_nonce a) (ca_code_hash a).

Definition cached_of_new (a : NewAccount) : CachedAccount :=
  mkCachedAccount (na_balance a) (na_nonce a) (na_code_hash a).

Section spans.
Context {V : Type}.

Record Span := mkSpan {
  sp_lo : u64;
  sp_hi : u64;
  sp_found : bool;
  sp_value : V;
}.

Definition set_hi (s : Span) (hi : u64) : Span := mkSpan (sp_lo s) hi (sp_found s) (sp_value s).

Definition covers (s : Span) (block : u64) : bool :=
  bool_decide (sp_lo s <= block) && bool_decide (block <= sp_hi s).

Definition same_version (s other : Span) : bool :=
  bool_decide (sp_found s = sp_found other) && bool_decide (sp_lo s = sp_lo other).

Record Entry := mkEntry {
  en_newest : u64;
  en_spans : list Span;
}.

Definition knows_newer_than (e : Entry) (read : Span) : bool :=
  if sp_found read then bool_decide (sp_lo read < en_newest e) else bool_decide (0 < en_newest e).

Inductive Probe := PYes | PNo | PAtHead | PCapped.

Record ReadView := mkReadView { rv_head : u64 }.

Inductive Lookup :=
| Hit (s : Span)
| Miss (e : option Entry).

(** [iter().find(p)]: the first element that satisfies [p]. *)
Fixpoint find_first {A} (p : A -> bool) (l : list A) : option A :=
  match l with
  | [] => None
  | x :: l' => if p x then Some x else find_first p l'
  end.

(** Change the first element that satisfies [p]. *)
Fixpoint update_first {A} (p : A -> bool) (f : A -> A) (l : list A) : list A :=
  match l with
  | [] => []
  | x :: l' => if p x then f x :: l' else x :: update_first p f l'
  end.

(** [enumerate().min_by_key(|(_, s)| s.hi)]: the first index of the least [hi]. *)
Fixpoint oldest_span (l : list Span) (i : nat) (best : nat * u64) : nat :=
  match l with
  | [] => fst best
  | s :: l' => oldest_span l' (S i) (if decide (sp_hi s < snd best) then (i, sp_hi s) else best)
  end.

(** [Vec::swap_remove]: the last element takes the place of the removed one. *)
Definition swap_remove {A} (l : list A) (i : nat) : list A :=
  match last l with
  | Some x => let l' := take (pred (length l)) l in if decide (i = pred (length l)) then l' else <[i := x]> l'
  | None => l
  end.

Definition merge (prev : option Entry) (span : Span) (short : bool) (newest : u64) : Entry :=
  let kept := match prev with Some e => en_spans e | None => [] end in
  let spans :=
    match find_first (fun s => same_version s span) kept with
    | Some _ => update_first (fun s => same_version s span)
        (fun s => set_hi s (Z.max (sp_hi s) (sp_hi span))) kept
    | None =>
        let kept :=
          if decide (length kept = MAX_SPANS) then
            match kept with
            | s :: rest => swap_remove kept (oldest_span rest 1 (0%nat, sp_hi s))
            | [] => kept
            end
          else kept in
        kept ++ [span]
    end in
  mkEntry (if short then VOLATILE else Z.max (match prev with Some e => en_newest e | None => 0 end) newest)
    spans.

(** [StateCache::probe]. *)
Definition probe (prev : option Entry) (view : ReadView) (block : u64) (read : Span) : Probe :=
  match prev with
  | Some e =>
      if decide (en_newest e = VOLATILE) then PNo
      else if decide (rv_head view <= block) then PAtHead
      else if knows_newer_than e read then PCapped
      else PYes
  | None => PNo
  end.
End spans.

Arguments Span V : clear implicits.
Arguments Entry V : clear implicits.
Arguments Lookup V : clear implicits.

(** [entry_weight], for keys of [n] bytes and spans of [span_size] bytes. *)
Definition entry_weight (n span_size spans : Z) : Z := n + ENTRY_OVERHEAD + spans * span_size.

Section table.
Context {C : Type -> Type -> Type} `{QuickCache C}.

Section ops.
Context {V : Type}.

Definition Table : Type := C bytes (Entry V).

(** [Table::new]: room for single-span entries. *)
Definition new_table (n span_size capacity_bytes : Z) : Table :=
  qc_with bytes (Entry V) (Z.to_nat (capacity_bytes / entry_weight n span_size 1)).

Definition lookup (t : Table) (key : bytes) (block : u64) : Lookup V :=
  let entry := qc_get t key in
  match match entry with Some e => find_first (fun s => covers s block) (en_spans e) | None => None end with
  | Some span => Hit span
  | None => Miss entry
  end.

(** [Table::fold]: merging and putting the entry back happen under the shard
    lock, so they are one step. *)
Definition fold (t : Table) (key : bytes) (span : Span V) (short : bool) (newest : u64) : Table :=
  qc_insert t key (merge (qc_get t key) span short newest).

Definition record (t : Table) (key : bytes) (span : Span V) (next_version_found : bool) : Table :=
  let short := next_version_found && bool_decide (sp_hi span + 1 - sp_lo span < VOLATILE_SPAN) in
  fold t key span short 0.

Definition record_udt (t : Table) (key : bytes) (span : Span V) (newer : option u64) : Table :=
  let short := match newer with Some n => bool_decide (n - sp_lo span < VOLATILE_SPAN) | None => false end in
  let read := if sp_found span then sp_lo span else 0 in
  fold t key span short (Z.max (default 0 newer) read).
End ops.

Record StateCache := mkStateCache {
  sc_accounts : C bytes (Entry (option CachedAccount));
  sc_storage : C bytes (Entry U256);
  sc_head : u64;
}.

Definition new_state_cache (account_span storage_span capacity_bytes : Z) : StateCache :=
  let account_bytes := capacity_bytes / 4 in
  mkStateCache (new_table 32 account_span account_bytes)
    (new_table 64 storage_span (capacity_bytes - account_bytes)) 0.

Definition advance_head (c : StateCache) (block : u64) : StateCache :=
  mkStateCache (sc_accounts c) (sc_storage c) (Z.max (sc_head c) block).

(** [StateCache::view]. *)
Definition cache_view (c : StateCache) (block : u64) : option ReadView :=
  if decide (block <= sc_head c) then Some (mkReadView (sc_head c)) else None.

Definition set_sc_accounts (c : StateCache) t := mkStateCache t (sc_storage c) (sc_head c).
Definition set_sc_storage (c : StateCache) t := mkStateCache (sc_accounts c) t (sc_head c).
End table.

Arguments StateCache C : clear implicits.
Arguments Table C V : clear implicits.

(** ** Spans that tell the truth *)

Section facts.
Context {V : Type}.

(** [read n] is the version a read at block [n] finds, if any, and its value. *)
Implicit Types (read : u64 -> option u64 * V) (s : Span V).

(** A span is right up to [head]: at every block it covers, a read finds its
    version and value. *)
Definition span_ok read (head : u64) s : Prop :=
  is_u64 (sp_lo s) /\ sp_lo s <= sp_hi s <= head /\
  forall n, is_u64 n -> sp_lo s <= n <= sp_hi s ->
    read n = (if sp_found s then Some (sp_lo s) else None, sp_value s).

Definition entry_ok read (head : u64) (e : Entry V) : Prop :=
  (length (en_spans e) <= MAX_SPANS)%nat /\ Forall (span_ok read head) (en_spans e).

Lemma span_ok_mono read head head' s : head <= head' -> span_ok read head s -> span_ok read head' s.
Proof. intros Hle (Hl & Hh & Hr). split_and!; done || lia. Qed.

(** Reads at or below the head decide a span. *)
Lemma span_ok_ext read read' head s :
  (forall n, is_u64 n -> n <= head -> read n = read' n) -> span_ok read head s -> span_ok read' head s.
Proof.
  intros Heq (Hl & Hh & Hr). split; [done|]. split; [done|].
  intros n Hn Hc. rewrite <- Heq by (done || lia). auto.
Qed.

Lemma find_first_in {A} (p : A -> bool) l x : find_first p l = Some x -> x ∈ l /\ p x = true.
Proof.
  induction l as [|y l IH]; cbn; [done|]. destruct (p y) eqn:Hp; intros Hx.
  - simplify_eq. split; [left|done].
  - apply IH in Hx as [? ?]. split; [by right|done].
Qed.

Lemma find_first_None {A} (p : A -> bool) l : find_first p l = None -> forall x, x ∈ l -> p x = false.
Proof.
  induction l as [|y l IH]; cbn; [intros _ x Hx; by apply elem_of_nil in Hx|].
  destruct (p y) eqn:Hp; [done|]. intros Hn x [->|Hx]%elem_of_cons; [done|auto].
Qed.

Lemma update_first_Forall {A} (p : A -> bool) f (P : A -> Prop) l :
  Forall P l -> (forall x, x ∈ l -> p x = true -> P x -> P (f x)) -> Forall P (update_first p f l).
Proof.
  intros Hl Hf. induction Hl as [|x l Hx Hl IH]; cbn; [constructor|]. destruct (p x) eqn:Hp.
  - constructor; [|done]. apply Hf; [left|done..].
  - constructor; [done|]. apply IH. intros y Hy. apply Hf. by right.
Qed.

Lemma length_update_first {A} (p : A -> bool) f (l : list A) : length (update_first p f l) = length l.
Proof. induction l as [|x l IH]; cbn; [done|]. destruct (p x); cbn; congruence. Qed.

Lemma swap_remove_Forall {A} (P : A -> Prop) l i : Forall P l -> Forall P (swap_remove l i).
Proof.
  intros Hl. unfold swap_remove. destruct (last l) as [x|] eqn:Hlast; [|done].
  assert (P x) by (rewrite Forall_forall in Hl; apply Hl; by apply last_Some_elem_of).
  case_decide; [by apply Forall_take|]. apply Forall_insert; [by apply Forall_take|done].
Qed.

Lemma length_swap_remove {A} (l : list A) i : l <> [] -> length (swap_remove l i) = pred (length l).
Proof.
  intros Hl. unfold swap_remove. destruct (last l) eqn:Hlast; [|by apply last_None in Hlast].
  case_decide; rewrite ?length_insert, length_take; lia.
Qed.

(** Merging a right span into right entries keeps them right and bounded. *)
Lemma spans_merge_ok read head prev span short newest :
  match prev with Some e => entry_ok read head e | None => True end -> span_ok read head span ->
  entry_ok read head (merge prev span short newest).
Proof.
  intros Hprev Hs. unfold merge, entry_ok. cbn.
  set (kept := match prev with Some e => en_spans e | None => [] end).
  assert (Hkept : (length kept <= MAX_SPANS)%nat /\ Forall (span_ok read head) kept).
  { unfold kept. destruct prev; [done|]. split; [unfold MAX_SPANS; cbn; lia|constructor]. }
  destruct Hkept as [Hlen Hok]. clearbody kept. destruct (find_first _ kept) as [s0|] eqn:Hf.
  - split; [by rewrite length_update_first|]. apply update_first_Forall; [done|].
    intros s Hin Hsame (Hl & Hh & Hr). destruct Hs as (Hl' & Hh' & Hr'). unfold same_version in Hsame.
    apply andb_true_iff in Hsame as [Hfound%bool_decide_eq_true Hlo%bool_decide_eq_true].
    assert (sp_value s = sp_value span) as Hval.
    { assert (Hv := Hr (sp_lo s) Hl ltac:(lia)). rewrite Hr' in Hv by (done || lia). congruence. }
    split; [done|]. cbn. split; [lia|]. intros n Hn Hc.
    destruct (decide (n <= sp_hi s)); [apply Hr; done || lia|].
    rewrite Hr' by (done || lia). by rewrite Hfound, Hlo, Hval.
  - split.
    + rewrite length_app. cbn [length]. case_decide as Hfull; [|lia].
      destruct kept as [|s rest] eqn:Hk; [done|]. rewrite length_swap_remove by done. cbn in *. lia.
    + apply Forall_app. split; [|by constructor]. case_decide; [|done].
      destruct kept; [done|]. by apply swap_remove_Forall.
Qed.

(** The merged entry answers for the block just read. *)
Lemma merge_covers prev span short newest block :
  covers span block = true ->
  exists s, find_first (fun s => covers s block) (en_spans (merge prev span short newest)) = Some s.
Proof.
  intros Hc. destruct (find_first _ (en_spans _)) as [s|] eqn:Hf; [by eauto|].
  pose proof (find_first_None _ _ Hf) as Hall. clear Hf. exfalso. revert Hall. unfold merge. cbn.
  set (kept := match prev with Some e => en_spans e | None => [] end).
  destruct (find_first _ kept) as [s|] eqn:Hs.
  - intros Hall. apply find_first_in in Hs as [Hin Hsame].
    assert (exists s', s' ∈ update_first (fun s => same_version s span)
      (fun s => set_hi s (Z.max (sp_hi s) (sp_hi span))) kept /\ covers s' block = true) as (s' & Hs' & Hc').
    2: { by rewrite Hall in Hc'. }
    clear Hall. induction kept as [|x kept IH]; [by apply elem_of_nil in Hin|]. cbn.
    destruct (same_version x span) eqn:Hx.
    + exists (set_hi x (Z.max (sp_hi x) (sp_hi span))). split; [left|].
      unfold same_version, covers in *. cbn.
      apply andb_true_iff in Hx as [_ Hlo%bool_decide_eq_true].
      apply andb_true_iff in Hc as [H1%bool_decide_eq_true H2%bool_decide_eq_true].
      apply andb_true_iff. split; apply bool_decide_eq_true; lia.
    + apply elem_of_cons in Hin as [->|Hin]; [congruence|].
      destruct (IH Hin) as (s' & Hs' & Hc'). exists s'. split; [by right|done].
  - intros Hall. specialize (Hall span). rewrite Hc in Hall. discriminate Hall. apply elem_of_app. right. left.
Qed.
End facts.

(** ** Tables that tell the truth *)

Section table_facts.
Context {C : Type -> Type -> Type} `{QuickCacheOk C} {V : Type}.

(** [read_of key n]: what reading the key at block [n] finds. *)
Implicit Types (read_of : bytes -> u64 -> option u64 * V) (t : Table C V).

Definition table_ok read_of (head : u64) t : Prop :=
  forall key e, qc_get t key = Some e -> entry_ok (read_of key) head e.

Lemma table_ok_new read_of head n sz cap : table_ok read_of head (new_table n sz cap).
Proof. intros key e. unfold new_table. by rewrite qc_get_with. Qed.

(** Blocks above the head do not matter, so an append keeps a table right. *)
Lemma table_ok_append read_of read_of' head head' t :
  head <= head' ->
  (forall key n, is_u64 n -> n <= head -> read_of key n = read_of' key n) ->
  table_ok read_of head t -> table_ok read_of' head' t.
Proof.
  intros Hle Heq Ht key e He. destruct (Ht key e He) as [Hlen Hs]. split; [done|].
  eapply Forall_impl; [done|]. intros s Hs'. eapply span_ok_mono; [done|].
  eapply span_ok_ext; [|done]. auto.
Qed.

Lemma lookup_hit read_of head t key n s :
  table_ok read_of head t -> is_u64 n -> lookup t key n = Hit s ->
  read_of key n = (if sp_found s then Some (sp_lo s) else None, sp_value s).
Proof.
  intros Ht Hn. unfold lookup. destruct (qc_get t key) as [e|] eqn:He; [|done].
  destruct (find_first _ _) as [s'|] eqn:Hf; [|done]. intros [= ->].
  apply find_first_in in Hf as [Hin Hc]. destruct (Ht key e He) as [_ Hs].
  rewrite Forall_forall in Hs. destruct (Hs s Hin) as (_ & _ & Hr). apply Hr; [done|].
  unfold covers in Hc. apply andb_true_iff in Hc as [?%bool_decide_eq_true ?%bool_decide_eq_true]. lia.
Qed.

Lemma fold_table_ok read_of head t key span short newest :
  table_ok read_of head t -> span_ok (read_of key) head span ->
  table_ok read_of head (fold t key span short newest).
Proof.
  intros Ht Hs key' e Hg. unfold fold in Hg. destruct (decide (key' = key)) as [->|Hne].
  - apply qc_get_insert_eq in Hg. subst e. apply spans_merge_ok; [|done].
    destruct (qc_get t key) as [e|] eqn:He; [by apply Ht | done].
  - apply qc_get_insert_ne in Hg; [by apply Ht | done].
Qed.

(** Right after recording a span, its blocks hit unless the key was evicted. *)
Lemma fold_lookup t key span short newest n :
  covers span n = true ->
  (exists s, lookup (fold t key span short newest) key n = Hit s) \/
  lookup (fold t key span short newest) key n = Miss None.
Proof.
  intros Hc. unfold lookup. destruct (qc_get (fold t key span short newest) key) as [e|] eqn:Hg; [left|by right].
  unfold fold in Hg. apply qc_get_insert_eq in Hg. subst e.
  destruct (merge_covers (qc_get t key) span short newest n Hc) as [s ->]. eauto.
Qed.
End table_facts.
