(* ===== verification/BlockIndex.v ===== *)
(** * The block index
    (crates/leafage-evm-storage/src/db_impl/rocksdb_impl/archive/block_index.rs)

    An in-memory map from a block hash to the numbers it may have. 256 shards
    by the hash's first byte hold sorted [(code, number)] entries in buckets;
    blocks noted since the last merge wait in a set. A merge moves them one
    shard at a time while readers go on, so it is a sequence of steps here.
    The constants that differ under [cfg(test)] are fields of [IndexConfig].
    The file a merge saves is a byte string; CRC32 is a dependency, the
    argument [crc32]. Saving is modelled at the point it is started. *)

From stdpp Require Import prelude gmap list sorting strings.
From S2P Require Import Prelude Types KvStore ArchiveEncoding.

#[local] Open Scope Z_scope.

Class IndexConfig := {
  MERGE_AT : Z;
  MIN_BUCKET_BITS : Z;
  min_bits_range : 0 <= MIN_BUCKET_BITS <= 24;
}.

Definition release_config : IndexConfig.
Proof. refine {| MERGE_AT := 2 ^ 20; MIN_BUCKET_BITS := 16 |}. lia. Defined.

Definition test_config : IndexConfig.
Proof. refine {| MERGE_AT := 4; MIN_BUCKET_BITS := 0 |}. lia. Defined.

Definition SHARDS : nat := 256.
Definition SCAN_THREADS : nat := 8.

(** [b"LFBIDX01"]. *)
Definition MAGIC : bytes := [76; 70; 66; 73; 68; 88; 48; 49].

(** [x as u32]. *)
Definition as_u32 (x : Z) : u32 := x mod 2 ^ 32.

(** [key]: the key of a CF 7 record. *)
Definition index_key (number : u64) : bytes := be_bytes 8 number.

(** [record]. *)
Definition index_record (hash : H256) (info : bytes) : bytes := h256_bytes hash ++ info.

Definition entry {E} (hash : H256) (number : u64) : Res (Error E) (H256 * u32) :=
  if decide (number <= u32_max) then Ok (hash, number) else Err (UnSupported "past the archive block index").

Definition prefix (hash : H256) : u64 := from_be (take 8 (h256_bytes hash)).

Definition shard_of (prefix : u64) : nat := Z.to_nat (Z.shiftr prefix 56).

Definition code (prefix : u64) (k : u32) : u32 := Z.shiftr (as_u32 (Z.shiftr prefix 24)) (24 - k).

(** [u64::BITS - x.leading_zeros()]. *)
Definition bit_length (x : u64) : Z := if decide (x = 0) then 0 else Z.log2 x + 1.

Definition bucket_bits `{IndexConfig} (blocks : u64) : u32 :=
  Z.min 24 (Z.max MIN_BUCKET_BITS (saturating_sub (bit_length (saturating_sub blocks 1)) 11)).

(** ** Entries *)

Abbreviation ent := (Z * Z)%type.

(** The order of tuples. *)
Definition ent_lt (a b : ent) : Prop := a.1 < b.1 \/ (a.1 = b.1 /\ a.2 < b.2).
Definition ent_le (a b : ent) : Prop := a.1 < b.1 \/ (a.1 = b.1 /\ a.2 <= b.2).

#[export] Instance ent_lt_dec : RelDecision ent_lt.
Proof. intros a b. unfold ent_lt. apply _. Defined.
#[export] Instance ent_le_dec : RelDecision ent_le.
Proof. intros a b. unfold ent_le. apply _. Defined.

(** [Vec::dedup]: drop consecutive repeats. *)
Fixpoint dedup {A} `{EqDecision A} (l : list A) : list A :=
  match l with
  | [] => []
  | x :: l' =>
      match l' with
      | y :: _ => if decide (x = y) then dedup l' else x :: dedup l'
      | [] => [x]
      end
  end.

(** The entries of a [BTreeSet], in order. *)
Definition set_iter (s : gset ent) : list ent := merge_sort ent_le (elements s).

(** ** Shards *)

Record Shard := mkShard {
  sh_k : u32;
  sh_offsets : list u32;
  sh_fingerprints : bytes;
  sh_numbers : list u32;
}.

(** [code >> 8] and [code as u8]. *)
Definition bucket_of (code : u32) : nat := Z.to_nat (Z.shiftr code 8).
Definition fingerprint (code : u32) : Z := code mod 256.

Definition push_entry (acc : list u32 * bytes * list u32) (e : ent) : list u32 * bytes * list u32 :=
  let '(offsets, fingerprints, numbers) := acc in
  let '(code, number) := e in
  (offsets ++ replicate (S (bucket_of code) - length offsets) (as_u32 (Z.of_nat (length numbers))),
   fingerprints ++ [fingerprint code], numbers ++ [number]).

Definition from_sorted (k : u32) (entries : list ent) : Shard :=
  let '(offsets, fingerprints, numbers) := fold_left push_entry entries ([0], [], []) in
  mkShard k (resize (Z.to_nat (2 ^ k) + 1) (as_u32 (Z.of_nat (length numbers))) offsets) fingerprints numbers.

(** [Shard::entries]; an index out of range panics ([None]). *)
Definition entry_at (s : Shard) (b i : nat) : option ent :=
  fp ← sh_fingerprints s !! i; n ← sh_numbers s !! i;
  Some (Z.lor (Z.shiftl (Z.of_nat b) 8) fp, n).

Fixpoint window_entries (s : Shard) (b : nat) (offsets : list u32) : option (list ent) :=
  match offsets with
  | w0 :: rest =>
      match rest with
      | w1 :: _ =>
          here ← mapM (entry_at s b) (seq (Z.to_nat w0) (Z.to_nat w1 - Z.to_nat w0));
          more ← window_entries s (S b) rest;
          Some (here ++ more)
      | [] => Some []
      end
  | [] => Some []
  end.

Definition shard_entries (s : Shard) : option (list ent) := window_entries s 0 (sh_offsets s).

(** [while let Some(n) = new.next_if(|n| n <= e)]: what it pushes, and what
    is left. *)
Fixpoint push_upto (e : ent) (new : list ent) : list ent * list ent :=
  match new with
  | n :: rest =>
      if decide (ent_le n e) then
        let '(out, remain) := push_upto e rest in
        (if decide (ent_lt n e) then n :: out else out, remain)
      else ([], new)
  | [] => ([], [])
  end.

Fixpoint merge_loop (entries new : list ent) : list ent :=
  match entries with
  | e :: rest => let '(out, remain) := push_upto e new in out ++ e :: merge_loop rest remain
  | [] => new
  end.

Definition merged (s : Shard) (new : list ent) : option Shard :=
  es ← shard_entries s; Some (from_sorted (sh_k s) (merge_loop es new)).

(** [Shard::candidates]: what it appends to [out]. *)
Definition shard_candidates (s : Shard) (prefix : u64) : option (list u64) :=
  let c := code prefix (sh_k s) in
  lo ← sh_offsets s !! bucket_of c;
  hi ← sh_offsets s !! S (bucket_of c);
  if decide (lo <= hi <= Z.of_nat (length (sh_fingerprints s))) then
    mapM (fun i => sh_numbers s !! i)
      (filter (fun i => sh_fingerprints s !! i = Some (fingerprint c))
        (seq (Z.to_nat lo) (Z.to_nat hi - Z.to_nat lo)))
  else None.

(** ** The index *)

Record BlockIndex := mkBlockIndex {
  ix_shards : list Shard;
  (** [Recent]: the blocks noted, those a merge is moving, the last noted. *)
  ix_new : gset ent;
  ix_merging : gset ent;
  ix_recent_last : option (u32 * H256);
  (** The block last merged. *)
  ix_last : option (u32 * H256);
  (** The file merges save to: none, or its contents if it exists. *)
  ix_file : option (option bytes);
}.

Definition set_file (ix : BlockIndex) (f : option (option bytes)) : BlockIndex :=
  mkBlockIndex (ix_shards ix) (ix_new ix) (ix_merging ix) (ix_recent_last ix) (ix_last ix) f.
Definition set_last (ix : BlockIndex) (l : option (u32 * H256)) : BlockIndex :=
  mkBlockIndex (ix_shards ix) (ix_new ix) (ix_merging ix) (ix_recent_last ix) l (ix_file ix).
Definition set_shards (ix : BlockIndex) (s : list Shard) : BlockIndex :=
  mkBlockIndex s (ix_new ix) (ix_merging ix) (ix_recent_last ix) (ix_last ix) (ix_file ix).

(** [BlockIndex::new]. *)
Definition new_index (shards : list Shard) (last : option (u32 * H256)) : BlockIndex :=
  mkBlockIndex shards ∅ ∅ None last None.

(** [set.range((p, 0)..=(p, u32::MAX))]. *)
Definition set_range (s : gset ent) (p : u64) : list u64 :=
  map snd (filter (fun e : ent => e.1 = p) (set_iter s)).

Definition candidates (ix : BlockIndex) (hash : H256) : option (list u64) :=
  let p := prefix hash in
  let numbers := set_range (ix_new ix) p ++ set_range (ix_merging ix) p in
  shard ← ix_shards ix !! shard_of p;
  more ← shard_candidates shard p;
  let all := numbers ++ more in
  Some (if decide (0 < length numbers)%nat then dedup (merge_sort Z.le all) else all).

(** [contains]. *)
Definition index_contains (ix : BlockIndex) (hash : H256) (number : u64) : option bool :=
  c ← candidates ix hash; Some (bool_decide (number ∈ c)).

(** [len]. *)
Definition index_len (ix : BlockIndex) : Z :=
  fold_right Z.add 0 (map (fun s => Z.of_nat (length (sh_numbers s))) (ix_shards ix)) +
  Z.of_nat (size (ix_new ix)).

(** Whether blocks the file covers are about to be rewritten. *)
Definition rewrites (last : option (u32 * H256)) (blocks : list (H256 * u32)) : bool :=
  match last with
  | Some (n, h) => existsb (fun '(hash, number) =>
      bool_decide (number < n) || (bool_decide (number = n) && bool_decide (hash <> h))) blocks
  | None => false
  end.

Definition note_block (ix : BlockIndex) (b : H256 * u32) : BlockIndex :=
  let '(hash, number) := b in
  mkBlockIndex (ix_shards ix) ({[ (prefix hash, number) ]} ∪ ix_new ix) (ix_merging ix)
    (Some (number, hash)) (ix_last ix) (ix_file ix).

Definition note (ix : BlockIndex) (blocks : list (H256 * u32)) : BlockIndex :=
  match blocks with
  | [] => ix
  | _ =>
      let ix :=
        if rewrites (ix_last ix) blocks then
          set_last (match ix_file ix with Some _ => set_file ix (Some None) | None => ix end) None
        else ix in
      fold_left note_block blocks ix
  end.

(** *** Saving and loading *)

Definition le_bytes (n : nat) (z : Z) : bytes := rev (be_bytes n z).
Definition from_le (bs : bytes) : Z := from_be (rev bs).

(** [as_bytes]: a [u32] array in memory order. *)
Definition u32s_bytes (l : list u32) : bytes := flat_map (le_bytes 4) l.

Definition shard_bytes (s : Shard) : bytes :=
  u32s_bytes (sh_offsets s) ++ sh_fingerprints s ++ u32s_bytes (sh_numbers s).

Section file.
Context {E : Type} (crc32 : bytes -> u32).

(** [save]: the contents of the file it leaves. *)
Definition save (shards : list Shard) (last : u32) (hash : H256) : bytes :=
  let blocks := fold_right Z.add 0 (map (fun s => Z.of_nat (length (sh_numbers s))) shards) in
  let k := match shards with s :: _ => sh_k s | [] => 0 end in
  let body := MAGIC ++ le_bytes 4 k ++ [0; 0; 0; 0] ++ le_bytes 8 blocks ++ le_bytes 8 last ++
    h256_bytes hash ++ flat_map shard_bytes shards in
  body ++ le_bytes 4 (crc32 body).

(** [read_exact]: what it read and what is left. *)
Definition read_exact (n : nat) (input : bytes) : Res (Error E) (bytes * bytes) :=
  if decide (n <= length input)%nat then Ok (take n input, drop n input) else Err Io.

(** [as_bytes_mut], back from memory. *)
Fixpoint u32s_of (n : nat) (bs : bytes) : list u32 :=
  match n with
  | O => []
  | S m => from_le (take 4 bs) :: u32s_of m (drop 4 bs)
  end.

Definition load_shard (k : u32) (blocks read : Z) (input : bytes) : Res (Error E) (Shard * Z * bytes) :=
  let n := (Z.to_nat (2 ^ k) + 1)%nat in
  '(raw, input) ← read_exact (4 * n) input;
  let offsets := u32s_of n raw in
  let len := Z.to_nat (default 0 (last offsets)) in
  let read := read + Z.of_nat len in
  if decide (blocks < read) then Err (UnSupported "more blocks than its header says")
  else
    '(fingerprints, input) ← read_exact len input;
    '(raw, input) ← read_exact (4 * len) input;
    Ok (mkShard k offsets fingerprints (u32s_of len raw), read, input).

Fixpoint load_shards (n : nat) (k : u32) (blocks read : Z) (input : bytes)
    : Res (Error E) (list Shard * Z * bytes) :=
  match n with
  | O => Ok ([], read, input)
  | S m =>
      '(s, read, input) ← load_shard k blocks read input;
      '(rest, read, input) ← load_shards m k blocks read input;
      Ok (s :: rest, read, input)
  end.

Definition load (file : option bytes) : Res (Error E) (option (u32 * list Shard * (u32 * H256))) :=
  match file with
  | None => Ok None
  | Some input =>
      '(header, rest) ← read_exact 64 input;
      if decide (take 8 header <> MAGIC) then Err (UnSupported "not an archive block index")
      else
        let k := from_le (take 4 (drop 8 header)) in
        if decide (24 < k) then Err (UnSupported "bad bucket bits")
        else
          let blocks := from_le (take 8 (drop 16 header)) in
          let last := from_le (take 8 (drop 24 header)) in
          if decide (u32_max < last) then Err (UnSupported "bad last block")
          else
            let hash := from_be (take 32 (drop 32 header)) in
            '(shards, read, remain) ← load_shards SHARDS k blocks 0 rest;
            let crc := crc32 (take (length input - length remain) input) in
            '(stored, remain) ← read_exact 4 remain;
            if decide (read <> blocks \/ crc <> from_le stored \/ remain <> []) then Err (UnSupported "checksum mismatch")
            else Ok (Some (k, shards, (last, hash)))
  end.

(** [save_to] / the save a merge starts: nothing without a last block. *)
Definition save_to (ix : BlockIndex) : BlockIndex :=
  match ix_file ix, ix_last ix with
  | Some _, Some (n, h) => set_file ix (Some (Some (save (ix_shards ix) n h)))
  | _, _ => ix
  end.

(** *** Merging

    A merge between two shards: the iterator over its batch and the shard it
    is at. *)
Record Merging := mkMerging {
  mg_entries : list ent;
  mg_last : option (u32 * H256);
  mg_shard : nat;
}.

Definition merge_start (ix : BlockIndex) : BlockIndex * Merging :=
  (mkBlockIndex (ix_shards ix) ∅ (ix_new ix) None (ix_last ix) (ix_file ix),
   mkMerging (set_iter (ix_new ix)) (ix_recent_last ix) 0).

(** [from_fn(|| entries.next_if(..))]: the longest run of the shard's
    entries, and what is left. *)
Fixpoint take_shard (s : nat) (l : list ent) : list ent * list ent :=
  match l with
  | e :: rest =>
      if decide (shard_of e.1 = s) then let '(mine, remain) := take_shard s rest in (e :: mine, remain)
      else ([], l)
  | [] => ([], [])
  end.

Definition merge_shard (ix : BlockIndex) (m : Merging) : option (BlockIndex * Merging) :=
  let s := mg_shard m in
  old ← ix_shards ix !! s;
  let '(mine, remain) := take_shard s (mg_entries m) in
  let m' := mkMerging remain (mg_last m) (S s) in
  match mine with
  | [] => Some (ix, m')
  | _ =>
      let new := dedup (merge_sort ent_le (map (fun e => (code e.1 (sh_k old), e.2)) mine)) in
      sh ← merged old new;
      Some (set_shards ix (<[s := sh]> (ix_shards ix)), m')
  end.

Definition merge_end (save_after : bool) (ix : BlockIndex) (m : Merging) : BlockIndex :=
  let last := match mg_last m with Some l => Some l | None => ix_last ix end in
  let ix := mkBlockIndex (ix_shards ix) (ix_new ix) ∅ (ix_recent_last ix) last (ix_file ix) in
  if save_after then save_to ix else ix.

Fixpoint merge_shards (n : nat) (ix : BlockIndex) (m : Merging) : option (BlockIndex * Merging) :=
  match n with
  | O => Some (ix, m)
  | S n' => '(ix, m) ← merge_shard ix m; merge_shards n' ix m
  end.

(** [BlockIndex::merge]. *)
Definition merge (save_after : bool) (ix : BlockIndex) : option BlockIndex :=
  let '(ix, m) := merge_start ix in
  '(ix, m) ← merge_shards (length (ix_shards ix)) ix m;
  Some (merge_end save_after ix m).

Definition committed `{IndexConfig} (ix : BlockIndex) : option BlockIndex :=
  if decide (MERGE_AT <= Z.of_nat (size (ix_new ix))) then merge true ix else Some ix.
End file.

(** ** Building and opening the index *)

Section build.
Context {K E : Type} `{RocksDB K E} `{IndexConfig} (crc32 : bytes -> u32).

(** [block_number]: [try_into().unwrap()]. *)
Definition block_number (key : bytes) : Res (Error E) u64 :=
  if decide (from_be key <= u64_max) then Ok (from_be key) else Panic.

(** [H256::from_slice]. *)
Definition h256_from_slice (bs : bytes) : Res (Error E) H256 :=
  if decide (length bs = 32%nat) then Ok (from_be bs) else Panic.

Definition last_block (db : K) : Res (Error E) (option (u64 * H256)) :=
  items ← rocks (db_iter db BlockNumToBlockHash);
  match last items with
  | Some (number, hash) =>
      number ← block_number number;
      hash ← h256_from_slice hash;
      Ok (Some (number, hash))
  | None => Ok None
  end.

(** A scan of CF 3 between iterate bounds. *)
Definition scan_blocks (db : K) (lower : bytes) (upper : option bytes) : Res (Error E) (list (bytes * bytes)) :=
  items ← rocks (db_iter db BlockNumToBlockHash);
  Ok (filter (fun kv : bytes * bytes => (lower ≤ kv.1)%bytes /\ before upper kv.1) items).

Definition scanned_entry (item : bytes * bytes) : Res (Error E) (H256 * u32) :=
  hash ← h256_from_slice item.2;
  number ← block_number item.1;
  entry hash number.

(** [shards[shard_of(p)].push((code(p, k), number))]. *)
Definition push_scanned (k : u32) (shards : list (list ent)) (b : H256 * u32) : list (list ent) :=
  let p := prefix b.1 in alter (fun l => l ++ [(code p k, b.2)]) (shard_of p) shards.

(** One scanning thread: its entries by shard. *)
Definition scan_thread (db : K) (k : u32) (per : Z) (i : nat) : Res (Error E) (list (list ent)) :=
  items ← scan_blocks db (encode_block_num (Z.of_nat i * per)) (Some (encode_block_num ((Z.of_nat i + 1) * per)));
  blocks ← mapM scanned_entry items;
  Ok (fold_left (push_scanned k) blocks (replicate SHARDS [])).

(** [u64::div_ceil]. *)
Definition div_ceil (a b : Z) : Z := (a + b - 1) / b.

(** [BlockIndex::build]. *)
Definition build (db : K) : Res (Error E) BlockIndex :=
  last ← last_block db;
  let blocks := match last with Some (number, _) => number + 1 | None => 0 end in
  let k := bucket_bits blocks in
  let per := Z.max (div_ceil blocks (Z.of_nat SCAN_THREADS)) 1 in
  scanned ← mapM (scan_thread db k per) (seq 0 SCAN_THREADS);
  let shards := map (fun s =>
    from_sorted k (merge_sort ent_le (concat (map (fun t => default [] (t !! s)) scanned)))) (seq 0 SHARDS) in
  last ← match last with
    | Some (number, hash) => '(hash, number) ← entry hash number; Ok (Some (number, hash))
    | None => Ok None
    end;
  Ok (new_index shards last).

(** The loop of [index_from]: batches of [MERGE_AT] are noted and merged. *)
Fixpoint index_items (items : list (bytes * bytes)) (batch : list (H256 * u32)) (blocks : Z)
    (ix : BlockIndex) : Res (Error E) (list (H256 * u32) * Z * BlockIndex) :=
  match items with
  | [] => Ok (batch, blocks, ix)
  | item :: rest =>
      b ← scanned_entry item;
      let batch := batch ++ [b] in
      if decide (Z.of_nat (length batch) = MERGE_AT) then
        ix ← unwrap (merge crc32 false (note ix batch));
        index_items rest [] (blocks + Z.of_nat (length batch)) ix
      else index_items rest batch blocks ix
  end.

Definition index_from (ix : BlockIndex) (db : K) (from : u64) : Res (Error E) BlockIndex :=
  items ← scan_blocks db (encode_block_num from) None;
  '(batch, blocks, ix) ← index_items items [] 0 ix;
  let blocks := blocks + Z.of_nat (length batch) in
  let ix := note ix batch in
  if decide (MERGE_AT <= blocks) then unwrap (merge crc32 true ix) else Ok ix.

(** [BlockIndex::rebuild]; [file] is what the index file holds. *)
Definition rebuild (db : K) (file : option bytes) : Res (Error E) BlockIndex :=
  ix ← build db;
  Ok (save_to crc32 (set_file ix (Some file))).

(** Whether [open] takes the file: it ends at a block CF 3 still has, and it
    has enough buckets. A file that cannot be read is rebuilt. *)
Definition accept_file (db : K) (blocks : u64) (file : option bytes) : Res (Error E) (option BlockIndex) :=
  match load (E := E) crc32 file with
  | Ok (Some (k, shards, last)) =>
      saved ← rocks (db_get db BlockNumToBlockHash (encode_block_num last.1));
      if decide (saved <> Some (h256_bytes last.2)) then Ok None
      else if decide (k + 1 < bucket_bits blocks) then Ok None
      else Ok (Some (new_index shards (Some last)))
  | Ok None => Ok None
  | Err _ => Ok None
  | Panic => Panic
  end.

(** [BlockIndex::open]. *)
Definition open_index (db : K) (file : option bytes) : Res (Error E) BlockIndex :=
  last ← last_block db;
  let blocks := match last with Some (number, _) => number + 1 | None => 0 end in
  loaded ← accept_file db blocks file;
  match loaded with
  | Some ix =>
      let ix := set_file ix (Some file) in
      match ix_last ix with
      | Some (n, _) => index_from ix db (n + 1)
      | None => Panic
      end
  | None => rebuild db file
  end.
End build.
