(* ===== verification/BlockIndexFacts.v ===== *)
(** * Facts about the block index

    Shards hold exactly the entries they are built from; a reachable index
    finds every block noted, during a merge too; a saved index loads back. *)

From stdpp Require Import prelude gmap list sorting.
From S2P Require Import Prelude Types KvStore ArchiveEncoding BlockIndex.

#[local] Open Scope Z_scope.

(** ** The order of entries *)

#[export] Instance ent_lt_trans : Transitive ent_lt.
Proof. intros [] [] []. unfold ent_lt. cbn. lia. Qed.
#[export] Instance ent_le_trans : Transitive ent_le.
Proof. intros [] [] []. unfold ent_le. cbn. lia. Qed.
#[export] Instance ent_le_total : Total ent_le.
Proof. intros [] []. unfold ent_le. cbn. lia. Qed.

Lemma ent_le_lt (a b : ent) : ent_le a b -> a <> b -> ent_lt a b.
Proof.
  destruct a as [c n], b as [c' n']. unfold ent_le, ent_lt. cbn. intros ? Hne.
  assert (c <> c' \/ n <> n') by (destruct (decide (c = c')), (decide (n = n')); subst; auto). lia.
Qed.

Lemma ent_lt_le (a b : ent) : ent_lt a b -> ent_le a b.
Proof. unfold ent_lt, ent_le. lia. Qed.

Lemma ent_lt_irrefl (a : ent) : ~ ent_lt a a.
Proof. unfold ent_lt. lia. Qed.

Lemma ent_not_le (a b : ent) : ~ ent_le a b -> ent_lt b a.
Proof. unfold ent_lt, ent_le. lia. Qed.

(** ** [dedup] of a sorted list *)

Section dedup.
Context {A} `{EqDecision A}.

Lemma elem_of_dedup (x : A) l : x ∈ dedup l <-> x ∈ l.
Proof.
  induction l as [|y l IH]; [done|]. cbn. destruct l as [|z l]; [done|].
  case_decide; [subst|]; rewrite ?IH, !elem_of_cons; rewrite ?elem_of_cons in IH; naive_solver.
Qed.

Lemma dedup_sorted (R S : relation A) l :
  (forall a b, R a b -> a <> b -> S a b) -> Transitive S -> StronglySorted R l -> StronglySorted S (dedup l).
Proof.
  intros HRS HT. induction 1 as [|x l Hl IH Hx]; [constructor|]. cbn. destruct l as [|y l]; [repeat constructor|].
  case_decide; [done|]. constructor; [done|]. apply Forall_forall. intros z Hz. rewrite elem_of_dedup in Hz.
  inversion Hx as [|? ? Hxy _]; subst. inversion Hl as [|? ? _ Hy]; subst. rewrite Forall_forall in Hy.
  destruct (decide (y = z)) as [->|]; [auto|]. apply elem_of_cons in Hz as [->|Hz]; [done|].
  transitivity y; [auto|]. apply HRS; auto.
Qed.
End dedup.

(** Sorting a duplicate-free list sorts it strictly. *)
Lemma sorted_nodup {A} (R S : relation A) l :
  (forall a b, R a b -> a <> b -> S a b) -> StronglySorted R l -> NoDup l -> StronglySorted S l.
Proof.
  intros HRS. induction 1 as [|x l Hl IH Hx]; inversion 1; subst; constructor; [auto|].
  rewrite Forall_forall in *. intros y Hy. apply HRS; [auto|]. by intros ->.
Qed.

Lemma elem_of_merge_sort {A} (R : relation A) `{!RelDecision R} l x : x ∈ merge_sort R l <-> x ∈ l.
Proof. by rewrite merge_sort_Permutation. Qed.

Lemma elem_of_set_iter s e : e ∈ set_iter s <-> e ∈ s.
Proof. unfold set_iter. by rewrite elem_of_merge_sort, elem_of_elements. Qed.

Lemma set_iter_sorted s : StronglySorted ent_lt (set_iter s).
Proof.
  eapply sorted_nodup; [apply ent_le_lt | apply StronglySorted_merge_sort; apply _ |].
  unfold set_iter. rewrite merge_sort_Permutation. apply NoDup_elements.
Qed.

(** ** Codes *)

Lemma code_split c : 0 <= c -> Z.lor (Z.shiftl (Z.of_nat (bucket_of c)) 8) (fingerprint c) = c.
Proof.
  intros Hc. unfold bucket_of, fingerprint. rewrite Z2Nat.id by (by apply Z.shiftr_nonneg).
  change 256 with (2 ^ 8). rewrite <- Z.land_ones by lia. rewrite <- Z.ldiff_ones_r by lia.
  rewrite Z.lor_comm, (Z.lor_comm), Z.lor_ldiff_and. done.
Qed.

Lemma bucket_mono c c' : c <= c' -> (bucket_of c <= bucket_of c')%nat.
Proof.
  intros Hle. unfold bucket_of. rewrite !Z.shiftr_div_pow2 by lia.
  pose proof (Z.div_le_mono c c' (2 ^ 8) eq_refl Hle). lia.
Qed.

Lemma fingerprint_byte c : is_u8 (fingerprint c).
Proof. unfold fingerprint, is_u8, u8_max. pose proof (Z.mod_pos_bound c 256). lia. Qed.

Lemma bucket_fingerprint_inj c c' :
  0 <= c -> 0 <= c' -> bucket_of c = bucket_of c' -> fingerprint c = fingerprint c' -> c = c'.
Proof. intros Hc Hc' Hb Hf. rewrite <- (code_split c), <- (code_split c') by done. by rewrite Hb, Hf. Qed.

Lemma prefix_u64 h : is_u64 (prefix h).
Proof.
  unfold prefix. apply is_u64_pow.
  pose proof (from_be_bound (take 8 (h256_bytes h)) ltac:(apply Forall_take, be_bytes_byte)) as Hb.
  rewrite length_take, length_h256 in Hb. done.
Qed.

Lemma shard_of_bound p : is_u64 p -> (shard_of p < SHARDS)%nat.
Proof.
  intros [Hp Hp']. unfold shard_of, SHARDS, u64_max in *. rewrite Z.shiftr_div_pow2 by lia.
  assert (p / 2 ^ 56 < 256) by (apply Z.div_lt_upper_bound; lia).
  assert (0 <= p / 2 ^ 56) by (apply Z.div_pos; lia). lia.
Qed.

Lemma code_bound p k : 0 <= k <= 24 -> 0 <= code p k < 2 ^ (k + 8).
Proof.
  intros Hk. unfold code, as_u32. rewrite !Z.shiftr_div_pow2 by lia.
  pose proof (Z.mod_pos_bound (p / 2 ^ 24) (2 ^ 32) eq_refl) as Hm.
  assert (0 < 2 ^ (24 - k)) by (apply Z.pow_pos_nonneg; lia).
  split; [apply Z.div_pos; lia|]. apply Z.div_lt_upper_bound; [done|].
  rewrite <- Z.pow_add_r by lia. replace (24 - k + (k + 8)) with 32 by lia. lia.
Qed.

Lemma bucket_bound c k : 0 <= k -> 0 <= c < 2 ^ (k + 8) -> (bucket_of c < Z.to_nat (2 ^ k))%nat.
Proof.
  intros Hk Hc. unfold bucket_of. rewrite Z.shiftr_div_pow2 by lia.
  assert (c / 2 ^ 8 < 2 ^ k) by (apply Z.div_lt_upper_bound; [lia|]; rewrite <- Z.pow_add_r by lia;
    rewrite (Z.add_comm 8 k); lia).
  assert (0 <= c / 2 ^ 8) by (apply Z.div_pos; lia). lia.
Qed.

Lemma bucket_bits_range `{IndexConfig} blocks : 0 <= bucket_bits blocks <= 24.
Proof. unfold bucket_bits. pose proof min_bits_range. lia. Qed.

(** ** Sorted lists split at a bucket *)

Definition in_bucket (b : nat) (e : ent) : Prop := bucket_of e.1 = b.
Definition below_bucket (b : nat) (e : ent) : Prop := (bucket_of e.1 < b)%nat.

#[export] Instance in_bucket_dec b e : Decision (in_bucket b e).
Proof. unfold in_bucket. apply _. Defined.
#[export] Instance below_bucket_dec b e : Decision (below_bucket b e).
Proof. unfold below_bucket. apply _. Defined.

(** The entries below a bucket: what [offsets] counts. *)
Definition count_below (b : nat) (l : list ent) : nat := length (filter (below_bucket b) l).

Lemma count_below_le b l : (count_below b l <= length l)%nat.
Proof. apply length_filter. Qed.

Lemma filter_none {A} (P : A -> Prop) `{!forall x, Decision (P x)} (l : list A) :
  (forall x, x ∈ l -> ~ P x) -> filter P l = [].
Proof.
  intros Hl. induction l as [|x l IH]; [done|]. rewrite filter_cons_False by (apply Hl; left).
  apply IH. intros y Hy. apply Hl. by right.
Qed.

Lemma filter_all {A} (P : A -> Prop) `{!forall x, Decision (P x)} (l : list A) :
  (forall x, x ∈ l -> P x) -> filter P l = l.
Proof.
  intros Hl. induction l as [|x l IH]; [done|]. rewrite filter_cons_True by (apply Hl; left).
  f_equal. apply IH. intros y Hy. apply Hl. by right.
Qed.

Lemma bucket_lt_mono (a b : ent) : ent_lt a b -> (bucket_of a.1 <= bucket_of b.1)%nat.
Proof. intros Hlt. apply bucket_mono. unfold ent_lt in Hlt. lia. Qed.

Lemma sorted_split b l : StronglySorted ent_lt l ->
  exists rest, l = filter (below_bucket b) l ++ filter (in_bucket b) l ++ rest /\
    count_below (S b) l = (count_below b l + length (filter (in_bucket b) l))%nat.
Proof.
  unfold count_below. induction 1 as [|x l Hl (rest & IH & IHc) Hx]; [by exists []|].
  rewrite Forall_forall in Hx.
  destruct (Nat.lt_trichotomy (bucket_of x.1) b) as [Hlt|[Heq|Hgt]].
  - exists rest. rewrite !(filter_cons_True (below_bucket _)) by (unfold below_bucket; lia).
    rewrite filter_cons_False by (unfold in_bucket; lia). cbn. rewrite IHc. split; [by f_equal|lia].
  - rewrite !(filter_cons_False (below_bucket b)) by (unfold below_bucket; lia).
    rewrite (filter_cons_True (below_bucket (S b))), (filter_cons_True (in_bucket b)) by (unfold below_bucket, in_bucket; lia).
    assert (filter (below_bucket b) l = []) as Hnone.
    { apply filter_none. intros y Hy. apply Hx, bucket_lt_mono in Hy. unfold below_bucket. lia. }
    rewrite Hnone in *. exists rest. cbn in *. split; [by f_equal|lia].
  - exists (x :: l). rewrite !(filter_none _ (x :: l)); [done|..];
      intros y [->|Hy%Hx%bucket_lt_mono]%elem_of_cons; unfold below_bucket, in_bucket; lia.
Qed.

(** ** A shard is its entries *)

(** [s] holds the entries [l]. *)
Record shard_holds (k : u32) (l : list ent) (s : Shard) : Prop := {
  sv_k : sh_k s = k;
  sv_offsets : sh_offsets s = map (fun b => Z.of_nat (count_below b l)) (seq 0 (Z.to_nat (2 ^ k) + 1));
  sv_fingerprints : sh_fingerprints s = map (fun e => fingerprint e.1) l;
  sv_numbers : sh_numbers s = map snd l;
}.

(** Entries a shard with [k] bucket bits can hold. *)
Record entries_ok (k : u32) (l : list ent) : Prop := {
  eo_k : 0 <= k <= 24;
  eo_sorted : StronglySorted ent_lt l;
  eo_range : Forall (fun e : ent => 0 <= e.1 < 2 ^ (k + 8) /\ is_u32 e.2) l;
  eo_len : Z.of_nat (length l) < 2 ^ 32;
}.

(** The accumulator of [from_sorted] after the entries [l]. *)
Record offsets_upto (l : list ent) (offsets : list u32) : Prop := {
  ou_lookup b : (b < length offsets)%nat -> offsets !! b = Some (Z.of_nat (count_below b l));
  ou_above e : e ∈ l -> (bucket_of e.1 < length offsets)%nat;
  ou_below b : (b < length offsets)%nat -> b = 0%nat \/ exists e, e ∈ l /\ (b <= bucket_of e.1)%nat;
}.

Lemma count_below_app b l l' : count_below b (l ++ l') = (count_below b l + count_below b l')%nat.
Proof. unfold count_below. by rewrite filter_app, length_app. Qed.

Lemma count_below_all b l : (forall e, e ∈ l -> (bucket_of e.1 < b)%nat) -> count_below b l = length l.
Proof. intros Hl. unfold count_below. by rewrite filter_all. Qed.

Lemma as_u32_small x : 0 <= x < 2 ^ 32 -> as_u32 x = x.
Proof. apply Z.mod_small. Qed.

Lemma push_entry_ok l e offsets :
  StronglySorted ent_lt (l ++ [e]) -> Z.of_nat (length l) < 2 ^ 32 -> offsets_upto l offsets ->
  offsets_upto (l ++ [e])
    (offsets ++ replicate (S (bucket_of e.1) - length offsets) (as_u32 (Z.of_nat (length l)))).
Proof.
  intros Hs Hlen [Hlk Hab Hbe]. rewrite as_u32_small by lia.
  assert (Hle : forall e', e' ∈ l -> (bucket_of e'.1 <= bucket_of e.1)%nat).
  { intros e' He'. apply bucket_lt_mono. eapply (StronglySorted_app_1_elem_of ent_lt l [e]); [done|done|left]. }
  split; rewrite length_app, length_replicate.
  - intros b Hb. rewrite count_below_app. destruct (decide (b < length offsets)%nat) as [Hlt|Hge].
    + rewrite lookup_app_l, Hlk by done. do 2 f_equal.
      assert (b <= bucket_of e.1)%nat as Hbe' by (destruct (Hbe b Hlt) as [->|(e' & He' & ?)]; [lia|]; specialize (Hle _ He'); lia).
      unfold count_below at 3. rewrite filter_none; [cbn; lia|].
      intros x ->%list_elem_of_singleton. unfold below_bucket. lia.
    + rewrite lookup_app_r by lia. rewrite lookup_replicate_2 by lia. do 2 f_equal.
      rewrite (count_below_all b l) by (intros e' He'; specialize (Hab _ He'); lia).
      unfold count_below. rewrite filter_none; [cbn; lia|].
      intros x ->%list_elem_of_singleton. unfold below_bucket. lia.
  - intros e' [He'| ->%list_elem_of_singleton]%elem_of_app; [specialize (Hab _ He')|]; lia.
  - intros b Hb. destruct (decide (b < length offsets)%nat) as [Hlt|Hge].
    + destruct (Hbe b Hlt) as [->|(e' & He' & ?)]; [by left|right]. exists e'. split; [|done]. apply elem_of_app. by left.
    + right. exists e. split; [apply elem_of_app; right; left|lia].
Qed.

Lemma push_entries_ok l :
  StronglySorted ent_lt l -> Z.of_nat (length l) < 2 ^ 32 ->
  exists offsets, fold_left push_entry l ([0], [], []) = (offsets, map (fun e => fingerprint e.1) l, map snd l) /\
    offsets_upto l offsets.
Proof.
  induction l as [|e l IH] using rev_ind; intros Hs Hlen.
  - exists [0]. split; [done|]. split; cbn; [|intros ? []%elem_of_nil|lia].
    intros [|b] Hb; [done|lia].
  - rewrite length_app in Hlen. cbn in Hlen.
    destruct IH as (offsets & Heq & Ho); [by eapply StronglySorted_app_1_l | lia |].
    rewrite fold_left_app, Heq. cbn. destruct e as [c n]. rewrite !map_app, length_map. eexists. split; [done|].
    apply (push_entry_ok l (c, n)); done || lia.
Qed.

Lemma map_seq_lookup {A} (f : nat -> A) n i : (i < n)%nat -> map f (seq 0 n) !! i = Some (f i).
Proof. intros Hi. rewrite list_lookup_fmap, lookup_seq_lt by done. done. Qed.

Lemma from_sorted_holds k l : entries_ok k l -> shard_holds k l (from_sorted k l).
Proof.
  intros [Hk Hs Hr Hlen]. unfold from_sorted.
  destruct (push_entries_ok l Hs Hlen) as (offsets & -> & [Hlk Hab Hbe]).
  split; cbn; try done. rewrite length_map, as_u32_small by lia.
  assert (Hb : forall e, e ∈ l -> (bucket_of e.1 < Z.to_nat (2 ^ k))%nat).
  { rewrite Forall_forall in Hr. intros e He. apply bucket_bound; [lia|]. by apply Hr. }
  assert (length offsets <= Z.to_nat (2 ^ k) + 1)%nat as Hle.
  { destruct (decide (length offsets = 0)%nat); [lia|].
    destruct (Hbe (pred (length offsets)) ltac:(lia)) as [?|(e & He & ?)]; [lia|]. specialize (Hb e He). lia. }
  rewrite resize_ge by done. apply list_eq. intros b.
  destruct (decide (b < Z.to_nat (2 ^ k) + 1)%nat) as [Hlt|Hge].
  - rewrite map_seq_lookup by done. destruct (decide (b < length offsets)%nat).
    + rewrite lookup_app_l by done. by apply Hlk.
    + rewrite lookup_app_r, lookup_replicate_2 by lia. do 2 f_equal.
      symmetry. apply count_below_all. intros e He. specialize (Hab e He). lia.
  - rewrite !lookup_ge_None_2; [done|..]; rewrite ?length_map, ?length_seq, ?length_app, ?length_replicate; lia.
Qed.

(** Reading a run of positions reads the entries there. *)
Lemma mapM_seq {A B} (f : nat -> option B) (g : A -> B) (l : list A) a :
  (forall i x, l !! i = Some x -> f (a + i)%nat = Some (g x)) -> mapM f (seq a (length l)) = Some (map g l).
Proof.
  revert a. induction l as [|x l IH]; intros a Hf; [done|]. cbn.
  rewrite <- (Nat.add_0_r a) at 1. rewrite (Hf 0%nat x) by done. cbn.
  rewrite (IH (S a)); [done|]. intros i y Hy. rewrite <- (Hf (S i) y) by done. f_equal. lia.
Qed.

Lemma mapM_filter_seq {A B} (f : nat -> option B) (g : A -> B) P Q
    `{!forall i, Decision (P i)} `{!forall x, Decision (Q x)} (l : list A) a :
  (forall i x, l !! i = Some x -> (P (a + i)%nat <-> Q x) /\ f (a + i)%nat = Some (g x)) ->
  mapM f (filter P (seq a (length l))) = Some (map g (filter Q l)).
Proof.
  revert a. induction l as [|x l IH]; intros a Hf; [done|]. cbn [length seq].
  destruct (Hf 0%nat x eq_refl) as [HP Hg]. rewrite Nat.add_0_r in HP, Hg.
  assert (mapM f (filter P (seq (S a) (length l))) = Some (map g (filter Q l))) as IH'.
  { apply IH. intros i y Hy. rewrite Nat.add_succ_comm. by apply Hf. }
  destruct (decide (Q x)).
  - rewrite !filter_cons_True by tauto. cbn. by rewrite Hg, IH'.
  - by rewrite !filter_cons_False by tauto.
Qed.

(** The entries of a bucket, read through [offsets]. *)
Lemma bucket_run k l s b :
  entries_ok k l -> shard_holds k l s ->
  forall i e, filter (in_bucket b) l !! i = Some e ->
    sh_fingerprints s !! (count_below b l + i)%nat = Some (fingerprint e.1) /\
    sh_numbers s !! (count_below b l + i)%nat = Some e.2.
Proof.
  intros Ho Hv i e Hi. destruct (sorted_split b l (eo_sorted _ _ Ho)) as (rest & Heq & _).
  assert (l !! (count_below b l + i)%nat = Some e) as Hl.
  { transitivity ((filter (below_bucket b) l ++ filter (in_bucket b) l ++ rest) !! (count_below b l + i)%nat);
      [by rewrite <- Heq|]. unfold count_below. rewrite lookup_app_r by lia.
    rewrite lookup_app_l by (apply lookup_lt_Some in Hi; lia).
    replace (length (filter (below_bucket b) l) + i - length (filter (below_bucket b) l))%nat with i by lia. done. }
  rewrite (sv_fingerprints _ _ _ Hv), (sv_numbers _ _ _ Hv), !list_lookup_fmap, Hl. done.
Qed.

Lemma count_below_mono b b' l : (b <= b')%nat -> (count_below b l <= count_below b' l)%nat.
Proof.
  intros Hb. unfold count_below. induction l as [|e l IH]; [done|].
  rewrite !filter_cons. unfold below_bucket in *. repeat case_decide; cbn; lia.
Qed.

Lemma window_entries_cons s b w0 w1 rest :
  window_entries s b (w0 :: w1 :: rest) =
    here ← mapM (entry_at s b) (seq (Z.to_nat w0) (Z.to_nat w1 - Z.to_nat w0));
    more ← window_entries s (S b) (w1 :: rest);
    Some (here ++ more).
Proof. done. Qed.

(** The entries of the buckets from [b] on, [n] of them. *)
Lemma window_entries_ok k l s n b :
  entries_ok k l -> shard_holds k l s ->
  window_entries s b (map (fun b => Z.of_nat (count_below b l)) (seq b (S n))) =
    Some (take (count_below (b + n) l - count_below b l) (drop (count_below b l) l)).
Proof.
  intros Ho Hv. revert b. induction n as [|n IH]; intros b.
  - cbn. rewrite Nat.add_0_r, Nat.sub_diag. by rewrite take_0.
  - change (seq b (S (S n))) with (b :: S b :: seq (S (S b)) n). cbn [map].
    pose proof (IH (S b)) as IH'. cbn [seq map] in IH'. rewrite window_entries_cons, IH'. clear IH IH'.
    rewrite !Nat2Z.id. destruct (sorted_split b l (eo_sorted _ _ Ho)) as (rest & Heq & Hc).
    pose proof (count_below_mono (S b) (S b + n) l ltac:(lia)) as Hm. rewrite Hc in Hm |- *.
    set (m := length (filter (in_bucket b) l)) in *.
    replace (count_below b l + m - count_below b l)%nat with m by lia.
    subst m. rewrite (mapM_seq _ id).
    2:{ intros i e Hi. destruct (bucket_run k l s b Ho Hv i e Hi) as [Hf Hn]. unfold entry_at. rewrite Hf. cbn.
        rewrite Hn. cbn. apply list_elem_of_lookup_2, list_elem_of_filter in Hi as [Hb He].
        destruct Ho as [_ _ Hr _]. rewrite Forall_forall in Hr. unfold in_bucket in Hb.
        rewrite <- Hb, code_split by (by apply Hr). by destruct e. }
    cbn [mbind option_bind]. rewrite map_id. f_equal.
    assert (drop (count_below b l) l = filter (in_bucket b) l ++ rest) as Hd.
    { transitivity (drop (count_below b l) (filter (below_bucket b) l ++ filter (in_bucket b) l ++ rest));
        [by rewrite <- Heq|]. unfold count_below. by rewrite drop_app_length. }
    rewrite <- drop_drop, Hd, drop_app_length.
    replace (S b + n)%nat with (b + S n)%nat in * by lia.
    rewrite take_app_ge by lia. f_equal. f_equal. lia.
Qed.

Lemma shard_entries_ok k l s : entries_ok k l -> shard_holds k l s -> shard_entries s = Some l.
Proof.
  intros Ho Hv. unfold shard_entries. rewrite (sv_offsets _ _ _ Hv), Nat.add_1_r.
  rewrite (window_entries_ok k l s) by done. cbn.
  replace (count_below 0 l) with 0%nat by (unfold count_below; rewrite filter_none; [done|]; unfold below_bucket; lia).
  rewrite drop_0, count_below_all, take_ge; [done|lia|].
  destruct Ho as [Hk _ Hr _]. rewrite Forall_forall in Hr. intros e He. apply bucket_bound; [lia|]. by apply Hr.
Qed.

(** The candidates of a prefix are the numbers filed under its code. *)
Lemma shard_candidates_ok k l s p :
  entries_ok k l -> shard_holds k l s ->
  shard_candidates s p = Some (map snd (filter (fun e : ent => e.1 = code p k) l)).
Proof.
  intros Ho Hv. unfold shard_candidates. rewrite (sv_k _ _ _ Hv). pose proof (eo_k _ _ Ho) as Hk.
  pose proof (code_bound p k Hk) as Hc. set (c := code p k) in *. pose proof (bucket_bound c k ltac:(lia) Hc) as Hb.
  rewrite (sv_offsets _ _ _ Hv), !map_seq_lookup by lia. cbn [mbind option_bind].
  destruct (sorted_split (bucket_of c) l (eo_sorted _ _ Ho)) as (rest & Heq & Hcount). rewrite Hcount.
  rewrite decide_True.
  2:{ rewrite (sv_fingerprints _ _ _ Hv), length_map. pose proof (count_below_le (S (bucket_of c)) l). lia. }
  rewrite !Nat2Z.id, Nat.add_comm, Nat.add_sub.
  rewrite (mapM_filter_seq _ snd _ (fun e : ent => e.1 = c)).
  2:{ intros i e Hi. destruct (bucket_run k l s _ Ho Hv i e Hi) as [-> ->]. split; [|done].
      apply list_elem_of_lookup_2, list_elem_of_filter in Hi as [Hbe He]. unfold in_bucket in Hbe.
      destruct Ho as [_ _ Hr _]. rewrite Forall_forall in Hr. specialize (Hr e He) as [? _].
      split; [intros [= Hf]; apply bucket_fingerprint_inj; done || lia | by intros ->]. }
  rewrite list_filter_filter. do 2 f_equal. apply list_filter_iff. intros e. unfold in_bucket.
  split; [by intros [? ?] | by intros ->].
Qed.

(** ** Merging sorted entries *)

Lemma push_upto_spec e new : forall out remain, push_upto e new = (out, remain) -> StronglySorted ent_lt new ->
  (forall x, x ∈ new -> x ∈ out \/ x ∈ remain \/ x = e) /\
  (forall x, x ∈ out \/ x ∈ remain -> x ∈ new) /\
  StronglySorted ent_lt out /\ StronglySorted ent_lt remain /\
  (forall x, x ∈ out -> ent_lt x e) /\ (forall x, x ∈ remain -> ent_lt e x).
Proof.
  induction new as [|n new IH]; intros out remain Heq Hs; cbn in Heq.
  { simplify_eq. split_and!; try done; intros x Hx; [| destruct Hx as [Hx|Hx] | |]; by apply elem_of_nil in Hx. }
  inversion Hs as [|? ? Hs' Hn]; subst. rewrite Forall_forall in Hn. case_decide as Hle.
  - destruct (push_upto e new) as [out' remain']. specialize (IH _ _ eq_refl Hs').
    destruct IH as (Hall & Hin & Ho & Hr & Hlo & Hhi). case_decide as Hlt; simplify_eq.
    + split_and!; try done.
      * intros x [->|Hx%Hall]%elem_of_cons; [left; left|]. rewrite elem_of_cons. tauto.
      * intros x. specialize (Hin x). rewrite !elem_of_cons. tauto.
      * constructor; [done|]. apply Forall_forall. intros x Hx. apply Hn, Hin. by left.
      * intros x [->|Hx]%elem_of_cons; auto.
    + assert (n = e) as -> by (destruct (decide (n = e)); [done|]; exfalso; by apply Hlt, ent_le_lt).
      split_and!; try done.
      * intros x [->|Hx%Hall]%elem_of_cons; tauto.
      * intros x Hx. right. by apply Hin.
  - simplify_eq. apply ent_not_le in Hle. split_and!; try done.
    + intros x Hx. tauto.
    + intros x [Hx|Hx]; [by apply elem_of_nil in Hx|done].
    + constructor.
    + intros x Hx. by apply elem_of_nil in Hx.
    + intros x [->|Hx]%elem_of_cons; [done|]. transitivity n; auto.
Qed.

Lemma merge_loop_spec es new :
  StronglySorted ent_lt es -> StronglySorted ent_lt new ->
  StronglySorted ent_lt (merge_loop es new) /\
  (forall x, x ∈ merge_loop es new <-> x ∈ es \/ x ∈ new).
Proof.
  revert new. induction es as [|e es IH]; intros new Hes Hnew; cbn.
  { split; [done|]. intros x. rewrite elem_of_nil. tauto. }
  destruct (push_upto e new) as [out remain] eqn:Hp.
  destruct (push_upto_spec e new out remain Hp Hnew) as (Hall & Hin & Ho & Hr & Hlo & Hhi).
  inversion Hes as [|? ? Hes' He]; subst. rewrite Forall_forall in He.
  destruct (IH remain Hes' Hr) as (Hs & Hel). split.
  - apply StronglySorted_app_2; [|done|].
    + intros x y Hx [->|Hy]%elem_of_cons; [auto|]. transitivity e; [auto|]. apply Hel in Hy as [?|?]; auto.
    + constructor; [done|]. apply Forall_forall. intros y [?|?]%Hel; auto.
  - intros x. rewrite elem_of_app, !elem_of_cons, Hel. specialize (Hall x). specialize (Hin x). tauto.
Qed.

(** Merging new entries into a shard gives the shard of both. *)
Lemma merged_ok k l s new :
  entries_ok k l -> shard_holds k l s -> StronglySorted ent_lt new ->
  Forall (fun e : ent => 0 <= e.1 < 2 ^ (k + 8) /\ is_u32 e.2) new ->
  (forall l', StronglySorted ent_lt l' -> (forall x, x ∈ l' -> x ∈ l \/ x ∈ new) ->
    Z.of_nat (length l') < 2 ^ 32) ->
  exists l' s', merged s new = Some s' /\ entries_ok k l' /\ shard_holds k l' s' /\
    (forall x, x ∈ l' <-> x ∈ l \/ x ∈ new).
Proof.
  intros Ho Hv Hs Hr Hlen. unfold merged. rewrite (shard_entries_ok k l s), (sv_k _ _ _ Hv) by done. cbn.
  destruct (merge_loop_spec l new (eo_sorted _ _ Ho) Hs) as (Hm & Hel).
  assert (entries_ok k (merge_loop l new)) as Ho'.
  { destruct Ho. split; [done|done| |apply Hlen; [done|apply Hel]]. rewrite Forall_forall in *. intros x [?|?]%Hel; auto. }
  eexists _, _. split; [done|]. split_and!; try done. by apply from_sorted_holds.
Qed.

(** ** The index finds what it was told *)

(** The entries blocks [B] file in shard [s]. *)
Definition filed (k : u32) (s : nat) (B : gset (H256 * u32)) : gset ent :=
  set_map (fun b : H256 * u32 => (code (prefix b.1) k, b.2))
    (filter (fun b : H256 * u32 => shard_of (prefix b.1) = s) B).

Lemma elem_of_filed k s B e :
  e ∈ filed k s B <-> exists h, (h, e.2) ∈ B /\ shard_of (prefix h) = s /\ code (prefix h) k = e.1.
Proof.
  unfold filed. rewrite elem_of_map. destruct e as [c n]. cbn. split.
  - intros ([h n'] & [= -> ->] & [Hs Hb]%elem_of_filter). eauto.
  - intros (h & Hb & Hs & Hc). exists (h, n). cbn. rewrite Hc. split; [done|]. by apply elem_of_filter.
Qed.

Lemma size_list_to_set_le (l : list ent) : (size (list_to_set (C := gset ent) l) <= length l)%nat.
Proof.
  induction l as [|x l IH]; cbn; [by rewrite size_empty|].
  rewrite size_union_alt, size_singleton. assert (size (list_to_set (C := gset ent) l ∖ {[x]}) <= size (list_to_set (C := gset ent) l))%nat
    by (apply subseteq_size; set_solver). lia.
Qed.

Lemma size_filed k s B : (size (filed k s B) <= size B)%nat.
Proof.
  unfold filed, set_map. etrans; [apply size_list_to_set_le|]. rewrite length_fmap.
  assert (filter (fun b : H256 * u32 => shard_of (prefix b.1) = s) B ⊆ B) as Hsub%subseteq_size;
    [intros b Hb; by apply elem_of_filter in Hb as [_ ?] | apply Hsub].
Qed.

Lemma sorted_nodup_lt l : StronglySorted ent_lt l -> NoDup l.
Proof. apply strictly_sorted_NoDup, ent_lt_irrefl. Qed.

Lemma sorted_in_set (l : list ent) (S : gset ent) :
  StronglySorted ent_lt l -> (forall x, x ∈ l -> x ∈ S) -> (length l <= size S)%nat.
Proof.
  intros Hl%sorted_nodup_lt HS. rewrite <- (size_list_to_set (C := gset ent) l) by done.
  apply subseteq_size. intros x. rewrite elem_of_list_to_set. auto.
Qed.

Definition shard_inv (k : u32) (B : gset (H256 * u32)) (s : nat) (sh : Shard) (l : list ent) : Prop :=
  entries_ok k l /\ shard_holds k l sh /\ forall e, e ∈ l -> e ∈ filed k s B.

(** Where a block can be found: among the recent ones or in its shard. *)
Definition found (k : u32) (ix : BlockIndex) (h : H256) (n : u32) : Prop :=
  (prefix h, n) ∈ ix_new ix \/ (prefix h, n) ∈ ix_merging ix \/
  exists sh l, ix_shards ix !! shard_of (prefix h) = Some sh /\ shard_entries sh = Some l /\
    (code (prefix h) k, n) ∈ l.

(** The index [ix] holds the blocks [B] and nothing else. *)
Record index_inv (k : u32) (B : gset (H256 * u32)) (ix : BlockIndex) : Prop := {
  ii_k : 0 <= k <= 24;
  ii_blocks h n : (h, n) ∈ B -> is_u32 n;
  ii_size : Z.of_nat (size B) < 2 ^ 32;
  ii_len : length (ix_shards ix) = SHARDS;
  ii_shards s sh : ix_shards ix !! s = Some sh -> exists l, shard_inv k B s sh l;
  ii_recent e : e ∈ ix_new ix \/ e ∈ ix_merging ix -> exists h, (h, e.2) ∈ B /\ prefix h = e.1;
  ii_found h n : (h, n) ∈ B -> found k ix h n;
}.

Lemma elem_of_set_range s p n : n ∈ set_range s p <-> (p, n) ∈ s.
Proof.
  unfold set_range. rewrite list_elem_of_fmap. split.
  - intros ([p' n'] & -> & [<- He%elem_of_set_iter]%list_elem_of_filter). done.
  - intros He. exists (p, n). split; [done|]. apply list_elem_of_filter. by rewrite elem_of_set_iter.
Qed.

(** The numbers filed under one code are strictly increasing. *)
Lemma same_code_sorted l c :
  StronglySorted ent_lt l -> StronglySorted Z.lt (map snd (filter (fun e : ent => e.1 = c) l)).
Proof.
  induction 1 as [|x l Hl IH Hx]; [constructor|]. rewrite filter_cons. case_decide as Hc; [|done].
  cbn. constructor; [done|]. apply Forall_forall. intros n (e & -> & [He Hin]%list_elem_of_filter)%list_elem_of_fmap.
  rewrite Forall_forall in Hx. specialize (Hx e Hin). unfold ent_lt in Hx. lia.
Qed.

Lemma candidates_ok k B ix h : index_inv k B ix ->
  exists l, candidates ix h = Some l /\ StronglySorted Z.lt l /\
    (forall n, (h, n) ∈ B -> n ∈ l) /\
    (forall n, n ∈ l -> exists h', (h', n) ∈ B /\
       shard_of (prefix h') = shard_of (prefix h) /\ code (prefix h') k = code (prefix h) k).
Proof.
  intros Hi. unfold candidates. set (p := prefix h).
  destruct (lookup_lt_is_Some_2 (ix_shards ix) (shard_of p)) as [sh Hsh].
  { rewrite (ii_len _ _ _ Hi). apply shard_of_bound, prefix_u64. }
  rewrite Hsh. cbn [mbind option_bind]. destruct (ii_shards _ _ _ Hi _ _ Hsh) as (l & Ho & Hv & Hin).
  rewrite (shard_candidates_ok k l sh) by done. cbn [mbind option_bind].
  set (numbers := set_range (ix_new ix) p ++ set_range (ix_merging ix) p).
  set (more := map snd (filter (fun e : ent => e.1 = code p k) l)).
  assert (Hel : forall n, n ∈ numbers ++ more <->
    (p, n) ∈ ix_new ix \/ (p, n) ∈ ix_merging ix \/ (code p k, n) ∈ l).
  { intros n. unfold numbers, more. rewrite !elem_of_app, !elem_of_set_range, list_elem_of_fmap. split.
    - intros [[?|?]|([c n'] & -> & [Hc ?]%list_elem_of_filter)]; cbn in *; subst; auto.
    - intros [?|[?|?]]; [by left; left | by left; right | right]. exists (code p k, n).
      split; [done|]. by apply list_elem_of_filter. }
  eexists. split; [done|]. split; [|split].
  - case_decide as Hn.
    + apply (dedup_sorted Z.le); [lia|apply _|]. apply StronglySorted_merge_sort; apply _.
    + destruct numbers; [|cbn in Hn; lia]. apply same_code_sorted. by destruct Ho.
  - intros n Hb. apply (ii_found _ _ _ Hi) in Hb. assert (n ∈ numbers ++ more) as Hall.
    { apply Hel. destruct Hb as [?|[?|(sh' & l' & Hsh' & Hl' & ?)]]; [auto..|].
      fold p in Hsh'. rewrite Hsh in Hsh'. simplify_eq. rewrite (shard_entries_ok k l sh') in Hl' by done.
      simplify_eq. auto. }
    case_decide; [|done]. by rewrite elem_of_dedup, elem_of_merge_sort.
  - intros n Hn. assert (n ∈ numbers ++ more) as Hall.
    { case_decide; [|done]. by rewrite elem_of_dedup, elem_of_merge_sort in Hn. }
    apply Hel in Hall as [Hr|[Hr|Hr]]; [destruct (ii_recent _ _ _ Hi (p, n)) as (h' & Hb & Hp); [auto|];
      cbn in *; exists h'; by rewrite Hp..|].
    apply Hin, elem_of_filed in Hr. done.
Qed.

(** *** Noting blocks *)

Lemma filed_mono k s B B' e : B ⊆ B' -> e ∈ filed k s B -> e ∈ filed k s B'.
Proof. rewrite !elem_of_filed. intros Hsub (h & Hb & ?). exists h. auto. Qed.

(** Neither the file nor the last block matters to the blocks found. *)
Lemma index_inv_file k B ix ix' :
  ix_shards ix' = ix_shards ix -> ix_new ix' = ix_new ix -> ix_merging ix' = ix_merging ix ->
  index_inv k B ix -> index_inv k B ix'.
Proof. intros Hs Hn Hm []. split; unfold found in *; rewrite ?Hs, ?Hn, ?Hm; auto. Qed.

Lemma note_block_ok k B ix b :
  index_inv k B ix -> is_u32 b.2 -> Z.of_nat (size ({[ b ]} ∪ B)) < 2 ^ 32 ->
  index_inv k ({[ b ]} ∪ B) (note_block ix b).
Proof.
  intros [Hk Hb Hz Hlen Hsh Hrec Hfnd] Hu Hsz. destruct b as [hash number]. cbn in *. split; try done; cbn.
  - intros h n [[= -> ->]%elem_of_singleton|?]%elem_of_union; eauto.
  - intros s sh Hs. destruct (Hsh s sh Hs) as (l & Ho & Hv & Hin). exists l. split_and!; try done.
    intros e He. eapply filed_mono; [apply union_subseteq_r|by apply Hin].
  - intros e [[->%elem_of_singleton|He]%elem_of_union|He].
    + exists hash. cbn. split; [|done]. apply elem_of_union. left. by apply elem_of_singleton.
    + destruct (Hrec e (or_introl He)) as (h & ? & ?). exists h. split; [apply elem_of_union; by right|done].
    + destruct (Hrec e (or_intror He)) as (h & ? & ?). exists h. split; [apply elem_of_union; by right|done].
  - intros h n [[= -> ->]%elem_of_singleton|Hbn]%elem_of_union; unfold found; cbn.
    { left. apply elem_of_union. left. by apply elem_of_singleton. }
    destruct (Hfnd h n Hbn) as [?|[?|?]]; [left; apply elem_of_union; by right|auto..].
Qed.

Lemma note_blocks_ok k blocks : forall B ix,
  index_inv k B ix -> Forall (fun b : H256 * u32 => is_u32 b.2) blocks ->
  Z.of_nat (size (list_to_set blocks ∪ B)) < 2 ^ 32 ->
  index_inv k (list_to_set blocks ∪ B) (fold_left note_block blocks ix).
Proof.
  induction blocks as [|b blocks IH]; intros B ix Hi Hu Hsz; cbn in *.
  - by rewrite (left_id_L ∅ (∪)).
  - inversion Hu; subst. rewrite <- (assoc_L (∪)), (comm_L (∪) {[b]}), <- (assoc_L (∪)) in Hsz |- *.
    rewrite (comm_L (∪) B) in Hsz |- *. apply IH; [|done|done]. apply note_block_ok; [done..|].
    eapply Z.le_lt_trans; [|apply Hsz]. apply inj_le, subseteq_size, union_subseteq_r.
Qed.

Lemma note_ok k B ix blocks :
  index_inv k B ix -> Forall (fun b : H256 * u32 => is_u32 b.2) blocks ->
  Z.of_nat (size (list_to_set blocks ∪ B)) < 2 ^ 32 ->
  index_inv k (list_to_set blocks ∪ B) (note ix blocks).
Proof.
  intros Hi Hu Hsz. unfold note. destruct blocks as [|b blocks]; [cbn; by rewrite (left_id_L ∅ (∪))|].
  apply note_blocks_ok; [|done|done]. destruct (rewrites _ _); [|done].
  eapply index_inv_file; [| | |done]; by destruct (ix_file ix).
Qed.

(** *** A merge in progress *)

(** Before the shard [mg_shard m], a merge has filed the entries of the
    shards before it and its iterator is at the first of the others. *)
Record merge_inv (k : u32) (ix : BlockIndex) (m : Merging) : Prop := {
  mi_new : ix_new ix = ∅;
  mi_sorted : StronglySorted ent_lt (mg_entries m);
  mi_entries e : e ∈ mg_entries m <-> e ∈ ix_merging ix /\ (mg_shard m <= shard_of e.1)%nat;
  mi_done e : e ∈ ix_merging ix -> (shard_of e.1 < mg_shard m)%nat ->
    exists sh l, ix_shards ix !! shard_of e.1 = Some sh /\ shard_entries sh = Some l /\ (code e.1 k, e.2) ∈ l;
}.

Lemma merge_start_ok k B ix ix' m :
  index_inv k B ix -> ix_merging ix = ∅ -> merge_start ix = (ix', m) ->
  index_inv k B ix' /\ merge_inv k ix' m /\ ix_shards ix' = ix_shards ix /\ mg_shard m = 0%nat.
Proof.
  intros [] Hm [= <- <-]. split_and!; [| |done|done].
  - split; try done; cbn.
    + intros e [He|He]; [by apply elem_of_empty in He|]. apply ii_recent0. by left.
    + intros h n Hb. unfold found. cbn. destruct (ii_found0 h n Hb) as [?|[Hx|?]]; [auto| |auto].
      rewrite Hm in Hx. by apply elem_of_empty in Hx.
  - split; cbn; [done|apply set_iter_sorted| |].
    + intros e. rewrite elem_of_set_iter. split; [|by intros [? _]]. intros ?. split; [done|lia].
    + intros e _. lia.
Qed.

Lemma take_shard_spec s l : forall mine remain, take_shard s l = (mine, remain) -> StronglySorted ent_lt l ->
  (forall e, e ∈ l -> 0 <= e.1) -> (forall e, e ∈ l -> (s <= shard_of e.1)%nat) ->
  (forall e, e ∈ mine <-> e ∈ l /\ shard_of e.1 = s) /\
  (forall e, e ∈ remain <-> e ∈ l /\ (S s <= shard_of e.1)%nat) /\
  StronglySorted ent_lt remain.
Proof.
  induction l as [|x l IH]; intros mine remain Heq Hs Hpos Hge; cbn in Heq.
  { simplify_eq. split_and!; [| |done]; intros e; rewrite !elem_of_nil; tauto. }
  inversion Hs as [|? ? Hs' Hx]; subst. rewrite Forall_forall in Hx. case_decide as Hc.
  - destruct (take_shard s l) as [mine' remain']. simplify_eq.
    destruct (IH _ _ eq_refl Hs') as (Hmine & Hrem & Hsr); [intros; apply Hpos; by right | intros; apply Hge; by right|].
    split_and!; [| |done]; intros e; rewrite !elem_of_cons, ?Hmine, ?Hrem.
    + split; [intros [->|[? ?]]; auto|]. intros [[?|?] ?]; auto.
    + split; [intros [? ?]; auto|]. intros [[->|?] ?]; [lia|auto].
  - simplify_eq. assert (Hgt : forall e, e ∈ x :: l -> (S s <= shard_of e.1)%nat).
    { intros e He. assert (shard_of x.1 <= shard_of e.1)%nat as Hle.
      { apply elem_of_cons in He as [->|He]; [done|]. specialize (Hx e He). unfold shard_of, ent_lt in *.
        rewrite !Z.shiftr_div_pow2 by lia. pose proof (Z.div_le_mono x.1 e.1 (2 ^ 56) eq_refl ltac:(lia)). lia. }
      specialize (Hge x ltac:(left)). lia. }
    split_and!; [| |done]; intros e; split.
    + intros He. by apply elem_of_nil in He.
    + intros [He Heq]. specialize (Hgt e He). lia.
    + auto.
    + by intros [? _].
Qed.

(** The new entries of a shard: those of its batch, as codes. *)
Definition shard_batch (k : u32) (s : nat) (mine : list ent) : list ent :=
  dedup (merge_sort ent_le (map (fun e => (code e.1 k, e.2)) mine)).

Lemma elem_of_shard_batch k s mine x :
  x ∈ shard_batch k s mine <-> exists e, e ∈ mine /\ x = (code e.1 k, e.2).
Proof.
  unfold shard_batch. rewrite elem_of_dedup, elem_of_merge_sort, list_elem_of_fmap. naive_solver.
Qed.

Lemma shard_batch_sorted k s mine : StronglySorted ent_lt (shard_batch k s mine).
Proof. eapply dedup_sorted; [apply ent_le_lt | apply _ |]. apply StronglySorted_merge_sort; apply _. Qed.

(** Putting [sh], the shard with its batch filed, in place of shard [s]. *)
Lemma file_shard_ok k B ix m old l sh l' mine remain :
  index_inv k B ix -> merge_inv k ix m -> ix_shards ix !! mg_shard m = Some old ->
  shard_inv k B (mg_shard m) old l -> entries_ok k l' -> shard_holds k l' sh ->
  (forall x, x ∈ l' <-> x ∈ l \/ x ∈ shard_batch k (mg_shard m) mine) ->
  (forall e, e ∈ mine <-> e ∈ mg_entries m /\ shard_of e.1 = mg_shard m) ->
  (forall e, e ∈ remain <-> e ∈ mg_entries m /\ (S (mg_shard m) <= shard_of e.1)%nat) ->
  StronglySorted ent_lt remain ->
  let ix' := set_shards ix (<[mg_shard m := sh]> (ix_shards ix)) in
  index_inv k B ix' /\ merge_inv k ix' (mkMerging remain (mg_last m) (S (mg_shard m))).
Proof.
  intros Hi Hm Hold (Ho & Hv & Hin) Ho' Hv' Hl' Hmine Hrem Hsr ix'.
  assert (Hlt : (mg_shard m < length (ix_shards ix))%nat) by (by apply lookup_lt_Some in Hold).
  assert (Hget : forall s', ix_shards ix' !! s' = if decide (s' = mg_shard m) then Some sh else ix_shards ix !! s').
  { intros s'. cbn. case_decide; [subst; by apply list_lookup_insert_eq | by apply list_lookup_insert_ne]. }
  (* Entries of a shard stay where they were. *)
  assert (Hkeep : forall s' c n sh0 l0, ix_shards ix !! s' = Some sh0 -> shard_entries sh0 = Some l0 -> (c, n) ∈ l0 ->
    exists sh1 l1, ix_shards ix' !! s' = Some sh1 /\ shard_entries sh1 = Some l1 /\ (c, n) ∈ l1).
  { intros s' c n sh0 l0 Hs' Hl0 Hcn. rewrite Hget. case_decide; [subst|eauto].
    exists sh, l'. split_and!; [done|by eapply shard_entries_ok|]. rewrite Hold in Hs'. simplify_eq.
    rewrite (shard_entries_ok k l sh0) in Hl0 by done. simplify_eq. apply Hl'. by left. }
  split.
  - destruct Hi as [Hk Hb Hz Hlen Hsh Hrec Hfnd]. split; try done.
    + cbn. by rewrite length_insert.
    + intros s' sh'. rewrite Hget. case_decide; [subst|apply Hsh]. intros [= <-]. exists l'. split_and!; [done..|].
      intros e [He|(e' & He' & ->)%elem_of_shard_batch]%Hl'; [auto|]. apply Hmine in He' as [He' Hs'].
      apply (mi_entries _ _ _ Hm) in He' as [He' _]. destruct (Hrec e' (or_intror He')) as (h & Hb' & Hp).
      apply elem_of_filed. exists h. rewrite Hp. by split_and!.
    + intros h n Hbn. destruct (Hfnd h n Hbn) as [?|[?|(sh0 & l0 & Hs0 & Hl0 & Hcn)]]; [by left|by right; left|].
      right; right. by eapply Hkeep.
  - split; cbn; [by destruct Hm|done| |].
    + intros e. rewrite Hrem, (mi_entries _ _ _ Hm). split; [tauto|]. intros [? ?]. split_and!; [done|lia|done].
    + intros e He Hlt'. destruct (decide (shard_of e.1 = mg_shard m)) as [Heq|Hne].
      * exists sh, l'. pose proof (Hget (shard_of e.1)) as Hg. rewrite decide_True in Hg by done. cbn in Hg.
        split_and!; [done|by eapply shard_entries_ok|]. apply Hl'. right. apply elem_of_shard_batch. exists e.
        split; [|done]. apply Hmine. split; [|done]. apply (mi_entries _ _ _ Hm). split; [done|lia].
      * destruct (mi_done _ _ _ Hm e He ltac:(lia)) as (sh0 & l0 & Hs0 & Hl0 & Hcn). by eapply Hkeep.
Qed.

Lemma merge_shard_ok k B ix m :
  index_inv k B ix -> merge_inv k ix m -> (mg_shard m < SHARDS)%nat ->
  exists sh m', merge_shard ix m = Some (set_shards ix sh, m') /\ index_inv k B (set_shards ix sh) /\
    merge_inv k (set_shards ix sh) m' /\ mg_shard m' = S (mg_shard m) /\ mg_last m' = mg_last m.
Proof.
  intros Hi Hm Hs. unfold merge_shard.
  destruct (lookup_lt_is_Some_2 (ix_shards ix) (mg_shard m)) as [old Hold]; [by rewrite (ii_len _ _ _ Hi)|].
  rewrite Hold. cbn [mbind option_bind]. destruct (take_shard _ (mg_entries m)) as [mine remain] eqn:Htake.
  destruct (take_shard_spec _ _ mine remain Htake) as (Hmine & Hrem & Hsr).
  { by destruct Hm. }
  { intros e [He _]%(mi_entries _ _ _ Hm). destruct (ii_recent _ _ _ Hi e (or_intror He)) as (h & _ & <-). apply prefix_u64. }
  { intros e [_ ?]%(mi_entries _ _ _ Hm). done. }
  destruct (ii_shards _ _ _ Hi _ _ Hold) as (l & Ho & Hv & Hin). rewrite (sv_k _ _ _ Hv).
  assert (Hbatch : forall x, x ∈ shard_batch k (mg_shard m) mine -> x ∈ filed k (mg_shard m) B).
  { intros x (e & [He Hse]%Hmine & ->)%elem_of_shard_batch. apply (mi_entries _ _ _ Hm) in He as [He _].
    destruct (ii_recent _ _ _ Hi e (or_intror He)) as (h & Hb & Hp). apply elem_of_filed. exists h.
    rewrite Hp. by split_and!. }
  assert (Hfile : forall sh l', entries_ok k l' -> shard_holds k l' sh ->
    (forall x, x ∈ l' <-> x ∈ l \/ x ∈ shard_batch k (mg_shard m) mine) ->
    let ix' := set_shards ix (<[mg_shard m := sh]> (ix_shards ix)) in
    index_inv k B ix' /\ merge_inv k ix' (mkMerging remain (mg_last m) (S (mg_shard m)))).
  { intros sh l' ???. by eapply (file_shard_ok k B ix m old l sh l' mine remain). }
  destruct mine as [|e0 mine'] eqn:Hmine0; rewrite <- ?Hmine0 in *.
  - exists (ix_shards ix). eexists. split; [by destruct ix|]. destruct (Hfile old l Ho Hv) as [Hi' Hm'].
    { intros x. split; [by left|]. intros [?|(e & He & _)%elem_of_shard_batch]; [done|].
      rewrite Hmine0 in He. by apply elem_of_nil in He. }
    rewrite list_insert_id in Hi', Hm' by done. done.
  - destruct (merged_ok k l old (shard_batch k (mg_shard m) mine)) as (l' & sh & Hmg & Ho' & Hv' & Hl'); [done|done|apply shard_batch_sorted| | |].
    + apply Forall_forall. intros x Hx. split.
      * apply elem_of_shard_batch in Hx as (e & _ & ->). apply code_bound, (ii_k _ _ _ Hi).
      * apply Hbatch, elem_of_filed in Hx as (h & Hb & _). by eapply (ii_blocks _ _ _ Hi).
    + intros l' Hl' Hsub. eapply Z.le_lt_trans; [|apply (ii_size _ _ _ Hi)]. apply inj_le.
      etrans; [|apply (size_filed k (mg_shard m))]. apply sorted_in_set; [done|]. intros x [?|?]%Hsub; auto.
    + fold (shard_batch k (mg_shard m) mine). rewrite Hmg. cbn [mbind option_bind].
      eexists _, _. split; [done|]. destruct (Hfile sh l') as [? ?]; done.
Qed.

Lemma merge_shards_ok k B n : forall ix m,
  index_inv k B ix -> merge_inv k ix m -> (mg_shard m + n = SHARDS)%nat ->
  exists sh m', merge_shards n ix m = Some (set_shards ix sh, m') /\ index_inv k B (set_shards ix sh) /\
    merge_inv k (set_shards ix sh) m' /\ mg_shard m' = SHARDS /\ mg_last m' = mg_last m.
Proof.
  induction n as [|n IH]; intros ix m Hi Hm Hs; cbn.
  - exists (ix_shards ix), m. destruct ix. split_and!; [done..|lia|done].
  - destruct (merge_shard_ok k B ix m) as (sh & m' & -> & Hi' & Hm' & Hs' & Hl'); [done|done|lia|].
    cbn. rewrite <- Hl'. apply (IH (set_shards ix sh) m'); [done|done|lia].
Qed.

Section merge.
Context (crc32 : bytes -> u32).

Lemma save_to_keeps ix : ix_shards (save_to crc32 ix) = ix_shards ix /\
  ix_new (save_to crc32 ix) = ix_new ix /\ ix_merging (save_to crc32 ix) = ix_merging ix.
Proof. unfold save_to. by destruct (ix_file ix) as [|], (ix_last ix) as [[]|]. Qed.

(** Once the last shard is done, the shards hold what was being merged. *)
Lemma drop_merging_ok k B ix m last :
  index_inv k B ix -> merge_inv k ix m -> mg_shard m = SHARDS ->
  index_inv k B (mkBlockIndex (ix_shards ix) (ix_new ix) ∅ (ix_recent_last ix) last (ix_file ix)).
Proof.
  intros Hi Hm Hs. pose proof Hi as []. split; try done; cbn.
  - intros e [He|He]; [apply ii_recent0; by left|by apply elem_of_empty in He].
  - intros h n Hb. destruct (ii_found0 h n Hb) as [?|[He|?]]; [by left| |by right; right].
    right; right. apply (mi_done _ _ _ Hm _ He). rewrite Hs. apply shard_of_bound, prefix_u64.
Qed.

Lemma merge_end_ok k B save_after ix m :
  index_inv k B ix -> merge_inv k ix m -> mg_shard m = SHARDS ->
  index_inv k B (merge_end crc32 save_after ix m) /\ ix_merging (merge_end crc32 save_after ix m) = ∅.
Proof.
  intros Hi Hm Hs. unfold merge_end. set (ix1 := mkBlockIndex _ _ _ _ _ _).
  assert (index_inv k B ix1) as Hi1 by (by eapply drop_merging_ok).
  destruct save_after; [|done]. destruct (save_to_keeps ix1) as (H1 & H2 & H3).
  split; [by eapply index_inv_file | by rewrite H3].
Qed.

(** The index after a merge, before it is saved. *)
Definition after_merge (ix : BlockIndex) (sh : list Shard) : BlockIndex :=
  mkBlockIndex sh ∅ ∅ None (match ix_recent_last ix with Some l => Some l | None => ix_last ix end) (ix_file ix).

Lemma merge_ok k B save_after ix :
  index_inv k B ix -> ix_merging ix = ∅ ->
  exists sh, merge crc32 save_after ix =
      Some (if save_after then save_to crc32 (after_merge ix sh) else after_merge ix sh) /\
    index_inv k B (after_merge ix sh).
Proof.
  intros Hi He. unfold merge. destruct (merge_start ix) as [ix1 m1] eqn:Hst.
  destruct (merge_start_ok k B ix ix1 m1 Hi He Hst) as (Hi1 & Hm1 & _ & Hz).
  rewrite (ii_len _ _ _ Hi1).
  destruct (merge_shards_ok k B SHARDS ix1 m1) as (sh & m2 & -> & Hi2 & Hm2 & Hs2 & Hl2); [done|done|by rewrite Hz|].
  cbn [mbind option_bind]. exists sh. injection Hst as <- <-. split.
  - unfold merge_end, after_merge. by rewrite Hl2.
  - exact (drop_merging_ok _ _ _ _ _ Hi2 Hm2 Hs2).
Qed.
End merge.
