(* ===== verification/BlockIndexStore.v ===== *)
(** * The block index file, and building the index from the database

    A saved index loads back as it was; [build] indexes the blocks of CF 3;
    an index opened from any file a run can have left finds every block of
    CF 3. *)

From stdpp Require Import prelude gmap list sorting.
From S2P Require Import Prelude Types KvStore ArchiveEncoding BlockIndex BlockIndexFacts.

#[local] Open Scope Z_scope.

(** ** Little-endian fields *)

Lemma length_le_bytes n z : length (le_bytes n z) = n.
Proof. unfold le_bytes. by rewrite length_rev, length_be_bytes. Qed.

Lemma from_le_bytes n z : 0 <= z < 256 ^ Z.of_nat n -> from_le (le_bytes n z) = z.
Proof. intros Hz. unfold from_le, le_bytes. rewrite rev_involutive. by apply from_be_be_bytes_small. Qed.

Lemma is_u32_pow n : is_u32 n <-> 0 <= n < 256 ^ Z.of_nat 4.
Proof. unfold is_u32, u32_max. change (256 ^ Z.of_nat 4) with 4294967296. lia. Qed.

Lemma length_u32s_bytes l : length (u32s_bytes l) = (4 * length l)%nat.
Proof. unfold u32s_bytes. induction l as [|x l IH]; [done|]. cbn [flat_map]. rewrite length_app, length_le_bytes, IH. cbn. lia. Qed.

Lemma u32s_of_bytes l : Forall is_u32 l -> u32s_of (length l) (u32s_bytes l) = l.
Proof.
  induction 1 as [|x l Hx Hl IH]; [done|]. cbn [length u32s_of u32s_bytes flat_map].
  rewrite take_app_length', drop_app_length' by (by rewrite length_le_bytes).
  rewrite from_le_bytes by (by apply is_u32_pow). f_equal. apply IH.
Qed.

Lemma read_exact_app {E} n a b : length a = n -> read_exact (E := E) n (a ++ b) = Ok (a, b).
Proof.
  intros Ha. unfold read_exact. rewrite decide_True by (rewrite length_app; lia).
  by rewrite take_app_length', drop_app_length' by done.
Qed.

Lemma take_drop_field {A} n m (a b c : list A) :
  length a = m -> length b = n -> take n (drop m (a ++ b ++ c)) = b.
Proof. intros <- <-. by rewrite drop_app_length, take_app_length. Qed.

(** ** Round trip *)

(** A shard as [from_sorted] leaves it, for the file. *)
Record shard_wf (k : u32) (s : Shard) : Prop := {
  sw_k : sh_k s = k;
  sw_offsets : length (sh_offsets s) = (Z.to_nat (2 ^ k) + 1)%nat;
  sw_last : last (sh_offsets s) = Some (Z.of_nat (length (sh_numbers s)));
  sw_fingerprints : length (sh_fingerprints s) = length (sh_numbers s);
  sw_u32 : Forall is_u32 (sh_offsets s) /\ Forall is_u32 (sh_numbers s);
}.

Lemma shard_holds_wf k l s : entries_ok k l -> shard_holds k l s -> shard_wf k s.
Proof.
  intros Ho [Hk Hof Hf Hn]. pose proof Ho as [Hk' Hs Hr Hlen]. split; rewrite ?Hof, ?Hf, ?Hn, ?length_map.
  - done.
  - by rewrite length_seq.
  - rewrite Nat.add_1_r, seq_S, map_app. cbn [map]. rewrite last_snoc. f_equal. f_equal. apply count_below_all.
    rewrite Forall_forall in Hr. intros e He. cbn. apply bucket_bound; [lia|]. by apply Hr.
  - done.
  - split; apply Forall_forall.
    + intros x (b & -> & _)%list_elem_of_fmap. pose proof (count_below_le b l). unfold is_u32, u32_max. lia.
    + intros x (e & -> & He)%list_elem_of_fmap. rewrite Forall_forall in Hr. by apply Hr.
Qed.

Section roundtrip.
Context {E : Type} (crc32 : bytes -> u32).

Lemma load_shard_bytes k s blocks read rest :
  shard_wf k s -> read + Z.of_nat (length (sh_numbers s)) <= blocks ->
  load_shard (E := E) k blocks read (shard_bytes s ++ rest) =
    Ok (s, read + Z.of_nat (length (sh_numbers s)), rest).
Proof.
  intros [Hk Ho Hl Hf [Hu1 Hu2]] Hle. unfold load_shard, shard_bytes.
  rewrite <- !(assoc_L (++)), read_exact_app by (rewrite length_u32s_bytes; lia). cbn [mbind res_bind].
  rewrite <- Ho, u32s_of_bytes, Hl by done. cbn [from_option id]. rewrite Nat2Z.id, decide_False by lia.
  rewrite read_exact_app by done. cbn [mbind res_bind].
  rewrite read_exact_app by (by rewrite length_u32s_bytes). cbn [mbind res_bind].
  rewrite u32s_of_bytes by done. subst k. by destruct s.
Qed.

Definition total_blocks (shards : list Shard) : Z :=
  fold_right Z.add 0 (map (fun s => Z.of_nat (length (sh_numbers s))) shards).

Lemma total_blocks_nonneg shards : 0 <= total_blocks shards.
Proof. unfold total_blocks. induction shards as [|s shards IH]; cbn; lia. Qed.

Lemma load_shards_bytes k shards : forall blocks read rest,
  Forall (shard_wf k) shards -> read + total_blocks shards <= blocks ->
  load_shards (E := E) (length shards) k blocks read (flat_map shard_bytes shards ++ rest) =
    Ok (shards, read + total_blocks shards, rest).
Proof.
  induction shards as [|s shards IH]; intros blocks read rest Hwf Hle; cbn [length load_shards flat_map].
  - cbn. by rewrite Z.add_0_r.
  - inversion Hwf; subst. unfold total_blocks in *. cbn [map fold_right] in *.
    pose proof (total_blocks_nonneg shards) as Hn. unfold total_blocks in Hn.
    rewrite <- (assoc_L (++)), load_shard_bytes by (done || lia). cbn [mbind res_bind].
    rewrite IH by (done || lia). cbn [mbind res_bind]. do 2 f_equal. f_equal. lia.
Qed.

(** The 64-byte header and its fields. *)
Definition header (k blocks : Z) (last : u32) (hash : H256) : bytes :=
  MAGIC ++ le_bytes 4 k ++ [0; 0; 0; 0] ++ le_bytes 8 blocks ++ le_bytes 8 last ++ h256_bytes hash.

Lemma header_fields k blocks last hash : let h := header k blocks last hash in
  length h = 64%nat /\ take 8 h = MAGIC /\ take 4 (drop 8 h) = le_bytes 4 k /\
  take 8 (drop 16 h) = le_bytes 8 blocks /\ take 8 (drop 24 h) = le_bytes 8 last /\
  take 32 (drop 32 h) = h256_bytes hash.
Proof.
  cbn zeta. unfold header. pose proof (length_le_bytes 4 k) as H1. pose proof (length_le_bytes 8 blocks) as H2.
  pose proof (length_le_bytes 8 last) as H3. pose proof (length_h256 hash) as H4.
  revert H1 H2 H3 H4. generalize (le_bytes 4 k) (le_bytes 8 blocks) (le_bytes 8 last) (h256_bytes hash).
  intros k4 blk lst hsh H1 H2 H3 H4. split_and!.
  - by rewrite !length_app, H1, H2, H3, H4.
  - done.
  - by apply take_drop_field.
  - rewrite !(assoc_L (++)), <- (assoc_L (++) _ _ hsh), <- (assoc_L (++) _ blk).
    apply take_drop_field; [by rewrite !length_app, H1|done].
  - rewrite !(assoc_L (++)), <- (assoc_L (++) _ lst).
    apply take_drop_field; [by rewrite !length_app, H1, H2|done].
  - rewrite !(assoc_L (++)), drop_app_length', take_ge; [done|lia|by rewrite !length_app, H1, H2, H3].
Qed.

(** What [save] writes, [load] reads back. *)
Lemma load_save k shards last hash :
  (forall b, is_u32 (crc32 b)) -> 0 <= k <= 24 -> length shards = SHARDS -> Forall (shard_wf k) shards ->
  total_blocks shards <= u64_max -> is_u32 last -> is_u256 hash ->
  load (E := E) crc32 (Some (save crc32 shards last hash)) = Ok (Some (k, shards, (last, hash))).
Proof.
  intros Hcrc Hk Hlen Hwf Hblk Hlast Hhash. unfold save. fold (total_blocks shards).
  assert (match shards with s :: _ => sh_k s | [] => 0 end = k) as ->.
  { destruct shards; [done|]. by destruct (Forall_inv Hwf). }
  set (body := MAGIC ++ _).
  assert (body = header k (total_blocks shards) last hash ++ flat_map shard_bytes shards) as Hbody
    by (unfold body, header; by rewrite <- !(assoc_L (++))).
  destruct (header_fields k (total_blocks shards) last hash) as (Hhl & Hmagic & Hk4 & Hblk8 & Hlst8 & Hhsh).
  unfold load. rewrite Hbody at 1. rewrite <- (assoc_L (++)), read_exact_app by done. cbn [mbind res_bind].
  rewrite Hmagic, decide_False by tauto. rewrite Hk4, Hblk8, Hlst8, Hhsh.
  pose proof (total_blocks_nonneg shards). unfold is_u32, u32_max in Hlast. unfold u64_max in Hblk.
  rewrite !from_le_bytes, from_be_h256; [|done|change (256 ^ Z.of_nat 8) with (2 ^ 64); lia..|change (256 ^ Z.of_nat 4) with (2 ^ 32); lia].
  rewrite decide_False by lia. rewrite decide_False by (unfold u32_max; lia).
  rewrite <- Hlen, load_shards_bytes by (done || lia). cbn [mbind res_bind].
  rewrite <- (app_nil_r (le_bytes 4 _)) at 1. rewrite read_exact_app by apply length_le_bytes. cbn [mbind res_bind].
  rewrite length_app, Nat.add_sub, take_app_length, from_le_bytes by (by apply is_u32_pow).
  rewrite decide_False by (intros [?|[?|?]]; done). done.
Qed.
End roundtrip.

(** ** Scanning CF 3 *)

Definition enc_block (b : H256 * u32) : bytes * bytes := (encode_block_num b.2, h256_bytes b.1).

(** CF 3 of [db] holds exactly the blocks [B], one per number. *)
Record cf3 {K} `{RocksDBSpec K} (db : K) (B : gset (H256 * u32)) : Prop := {
  c3_ok : kv_ok db;
  c3_get k v : kv_contents db BlockNumToBlockHash k = Some v <-> exists b, b ∈ B /\ (k, v) = enc_block b;
  c3_range h n : (h, n) ∈ B -> is_u256 h /\ is_u32 n;
}.

Lemma cf3_same {K} `{RocksDBSpec K} (db db' : K) B :
  kv_ok db' -> (forall k, kv_contents db' BlockNumToBlockHash k = kv_contents db BlockNumToBlockHash k) -> cf3 db B -> cf3 db' B.
Proof. intros Hkv Hsame [_ Hget Hrange]. split; [done| |done]. intros k v. by rewrite Hsame. Qed.

Lemma u32_u64 n : is_u32 n -> is_u64 n.
Proof. unfold is_u32, is_u64, u32_max, u64_max. lia. Qed.

Lemma encode_block_num_inj a b : is_u64 a -> is_u64 b -> encode_block_num a = encode_block_num b -> a = b.
Proof. apply (tail_inj false). Qed.

Lemma from_be_block_num n : is_u64 n -> from_be (encode_block_num n) = n.
Proof.
  intros Hn. unfold encode_block_num. rewrite from_be_app. replace (from_be (replicate 24 0)) with 0 by done.
  rewrite from_be_be_bytes_small by (by apply is_u64_pow). lia.
Qed.

Lemma enc_block_le n m : is_u64 n -> is_u64 m -> (encode_block_num n ≤ encode_block_num m)%bytes <-> n <= m.
Proof.
  intros Hn Hm. unfold bytes_le. rewrite block_num_cmp by done. destruct (Z.compare_spec n m); split; try done; try lia.
Qed.

Lemma enc_block_lt n m : is_u64 n -> is_u64 m -> (encode_block_num n < encode_block_num m)%bytes <-> n < m.
Proof.
  intros Hn Hm. unfold bytes_lt. rewrite block_num_cmp by done. destruct (Z.compare_spec n m); split; try done; try lia.
Qed.

Definition by_number (a b : H256 * u32) : Prop := a.2 < b.2.

Section scan.
Context {K E : Type} `{RocksDBOk K E}.

Lemma cf3_iter db B : cf3 db B -> exists all, db_iter db BlockNumToBlockHash = Ok (map enc_block all) /\
  StronglySorted by_number all /\ forall b, b ∈ all <-> b ∈ B.
Proof.
  intros [Hok Hget Hr]. destruct (rk_iter db BlockNumToBlockHash Hok) as (l & -> & Hs & Hl).
  set (dec := fun kv : bytes * bytes => (from_be kv.2, from_be kv.1)).
  assert (Hdec : forall b, b ∈ B -> dec (enc_block b) = b).
  { intros [h n] Hb. destruct (Hr h n Hb) as [Hh Hn]. unfold dec. cbn [enc_block fst snd].
    by rewrite from_be_h256, from_be_block_num by (done || by apply u32_u64). }
  assert (Hin : forall kv, kv ∈ l -> exists b, b ∈ B /\ kv = enc_block b) by (intros [k v] ?%Hl; by apply Hget).
  exists (map dec l). split_and!.
  - rewrite map_map. f_equal. clear Hl Hs. induction l as [|kv l IH]; [done|]. cbn [map]. f_equal.
    + destruct (Hin kv ltac:(left)) as (b & Hb & ->). by rewrite Hdec.
    + apply IH. intros ? ?. apply Hin. by right.
  - clear Hl. induction l as [|kv l IH]; [constructor|]. cbn in *. inversion Hs as [|? ? Hs' Hkv]; subst. constructor.
    + apply IH; [done|]. intros ? ?. apply Hin. by right.
    + apply Forall_forall. intros b (kv' & -> & Hkv')%list_elem_of_fmap.
      destruct (Hin kv ltac:(left)) as ([h n] & Hb & ->), (Hin kv' ltac:(by right)) as ([h' n'] & Hb' & ->).
      rewrite !Hdec by done. rewrite Forall_forall in Hkv. specialize (Hkv (encode_block_num n')).
      apply (enc_block_lt n n'); [apply u32_u64; by eapply Hr..|]. apply Hkv.
      apply list_elem_of_fmap. by exists (enc_block (h', n')).
  - intros b. rewrite list_elem_of_fmap. split.
    + intros (kv & -> & (b' & Hb' & ->)%Hin). by rewrite Hdec.
    + intros Hb. exists (enc_block b). rewrite Hdec by done. split; [done|]. apply Hl, Hget. eauto.
Qed.

Lemma block_number_ok n : is_u64 n -> block_number (E := E) (encode_block_num n) = Ok n.
Proof. intros Hn. unfold block_number. rewrite from_be_block_num by done. by rewrite decide_True by apply Hn. Qed.

Lemma h256_from_slice_ok h : is_u256 h -> h256_from_slice (E := E) (h256_bytes h) = Ok h.
Proof. intros Hh. unfold h256_from_slice. rewrite decide_True by apply length_h256. by rewrite from_be_h256. Qed.

Lemma scanned_entry_ok b : is_u256 b.1 -> is_u32 b.2 -> scanned_entry (E := E) (enc_block b) = Ok b.
Proof.
  intros Hh Hn. destruct b as [h n]. unfold scanned_entry, enc_block, fst, snd in *.
  rewrite h256_from_slice_ok by done. cbn [mbind res_bind].
  rewrite block_number_ok by (by apply u32_u64). cbn [mbind res_bind].
  unfold entry. by rewrite decide_True by apply Hn.
Qed.

Lemma scanned_entries_ok (l : list (H256 * u32)) :
  Forall (fun b => is_u256 b.1 /\ is_u32 b.2) l -> mapM (scanned_entry (E := E)) (map enc_block l) = Ok l.
Proof.
  induction 1 as [|b l [Hh Hn] Hl IH]; [done|]. cbn. rewrite scanned_entry_ok by done. cbn. by rewrite IH.
Qed.

(** The blocks of a scan between iterate bounds. *)
Definition num_range (lo : u64) (hi : option u64) (b : H256 * u32) : Prop :=
  lo <= b.2 /\ match hi with Some h => b.2 < h | None => True end.

#[export] Instance num_range_dec lo hi b : Decision (num_range lo hi b).
Proof. unfold num_range. destruct hi; apply _. Defined.

Lemma filter_map_iff {A B} (f : A -> B) (P : B -> Prop) (Q : A -> Prop)
    `{!forall x, Decision (P x)} `{!forall x, Decision (Q x)} (l : list A) :
  (forall x, x ∈ l -> P (f x) <-> Q x) -> filter P (map f l) = map f (filter Q l).
Proof.
  induction l as [|x l IH]; intros Hl; [done|]. cbn [map].
  assert (P (f x) <-> Q x) as Hx by (apply Hl; left). specialize (IH ltac:(intros; apply Hl; by right)).
  rewrite !filter_cons. destruct (decide (P (f x))), (decide (Q x)); try tauto; cbn; by rewrite IH.
Qed.

Lemma scan_blocks_ok db all lo hi :
  db_iter db BlockNumToBlockHash = Ok (map enc_block all) ->
  Forall (fun b => is_u256 b.1 /\ is_u32 b.2) all -> is_u64 lo -> (forall h, hi = Some h -> is_u64 h) ->
  scan_blocks db (encode_block_num lo) (encode_block_num <$> hi) = Ok (map enc_block (filter (num_range lo hi) all)).
Proof.
  intros Hit Hall Hlo Hhi. unfold scan_blocks. rewrite Hit. cbn [rocks mbind res_bind]. f_equal.
  apply filter_map_iff. intros b Hb. rewrite Forall_forall in Hall. destruct (Hall b Hb) as [_ Hn%u32_u64].
  unfold num_range. cbn [enc_block fst snd]. rewrite enc_block_le by done. destruct hi as [h|]; cbn [before fmap option_fmap option_map]; [|done].
  by rewrite enc_block_lt by auto.
Qed.

(** Consecutive ranges of a sorted list concatenate to it. *)
Lemma concat_ranges per m (all : list (H256 * u32)) :
  0 < per -> StronglySorted by_number all -> Forall (fun b => 0 <= b.2) all ->
  concat (map (fun i => filter (num_range (Z.of_nat i * per) (Some ((Z.of_nat i + 1) * per))) all) (seq 0 m)) =
    filter (num_range 0 (Some (Z.of_nat m * per))) all.
Proof.
  intros Hper Hs Hpos. induction m as [|m IH].
  - cbn. rewrite filter_none; [done|]. intros b Hb [? ?]. lia.
  - rewrite seq_S, map_app, concat_app, IH. cbn [map concat Nat.add]. rewrite app_nil_r. clear IH.
    rewrite Nat2Z.inj_succ. induction Hs as [|b all Hall IH Hb]; [done|]. inversion Hpos; subst.
    rewrite !filter_cons. unfold num_range in *. rewrite Forall_forall in Hb.
    destruct (decide (b.2 < Z.of_nat m * per)).
    + rewrite decide_True by lia. rewrite decide_False by lia. rewrite decide_True by nia.
      cbn. f_equal. by apply IH.
    + rewrite decide_False by lia. rewrite (filter_none _ all) in IH |- *.
      2,3: intros b' Hb' [? ?]; specialize (Hb b' Hb'); unfold by_number in Hb; lia.
      cbn in IH |- *. repeat case_decide; try nia; [f_equal|]; by apply IH.
Qed.

(** One thread's entries of shard [s]. *)
Definition shard_list (k : u32) (s : nat) (blocks : list (H256 * u32)) : list ent :=
  map (fun b : H256 * u32 => (code (prefix b.1) k, b.2)) (filter (fun b : H256 * u32 => shard_of (prefix b.1) = s) blocks).

Lemma push_scanned_ok k s blocks : (s < SHARDS)%nat ->
  fold_left (push_scanned k) blocks (replicate SHARDS []) !! s = Some (shard_list k s blocks).
Proof.
  intros Hs. induction blocks as [|b blocks IH] using rev_ind.
  - cbn [fold_left]. by rewrite lookup_replicate_2.
  - rewrite fold_left_app. cbn [fold_left]. unfold push_scanned at 1, shard_list.
    rewrite filter_app, map_app, filter_cons. destruct (decide (shard_of (prefix b.1) = s)) as [->|Hne].
    + rewrite list_lookup_alter_eq, IH. done.
    + rewrite list_lookup_alter_ne, IH by done. cbn. by rewrite app_nil_r.
Qed.

Lemma shard_list_concat k s (ls : list (list (H256 * u32))) :
  concat (map (shard_list k s) ls) = shard_list k s (concat ls).
Proof.
  induction ls as [|l ls IH]; [done|]. cbn [map concat]. rewrite IH. unfold shard_list.
  by rewrite filter_app, map_app.
Qed.

(** The newest block of [B], if there is one. *)
Definition newest_block (B : gset (H256 * u32)) (o : option (u32 * H256)) : Prop :=
  match o with
  | Some (n, h) => (h, n) ∈ B /\ forall h' n', (h', n') ∈ B -> n' <= n
  | None => B = ∅
  end.

Lemma sorted_last (all : list (H256 * u32)) b b' :
  StronglySorted by_number all -> last all = Some b -> b' ∈ all -> b'.2 <= b.2.
Proof.
  intros Hs Hl Hb'. apply last_Some in Hl as [l ->]. apply elem_of_app in Hb' as [Hb'| ->%list_elem_of_singleton]; [|lia].
  assert (by_number b' b) as Hlt by (eapply StronglySorted_app_1_elem_of; [done|done|left]). unfold by_number in Hlt. lia.
Qed.

Lemma last_block_ok db B : cf3 db B ->
  exists o, last_block db = Ok o /\ newest_block B o.
Proof.
  intros Hc. destruct (cf3_iter db B Hc) as (all & Hit & Hs & Hall). unfold last_block. rewrite Hit.
  cbn [rocks mbind res_bind]. rewrite fmap_last.
  destruct (last all) as [[h n]|] eqn:Hl.
  - assert ((h, n) ∈ B) as Hb by (apply Hall; by apply last_Some_elem_of).
    destruct (c3_range _ _ Hc h n Hb) as [Hh Hn]. pose proof (u32_u64 _ Hn) as Hn64.
    cbn [fmap option_fmap option_map]. unfold enc_block, fst, snd.
    rewrite block_number_ok, res_bind_ok by done. rewrite h256_from_slice_ok, res_bind_ok by done.
    eexists. split; [done|]. cbn. split; [done|]. intros h' n' Hb'. by apply (sorted_last all (h, n) (h', n')), Hall.
  - apply last_None in Hl as ->. eexists. split; [done|]. cbn. apply set_eq. intros b. rewrite <- Hall.
    by rewrite elem_of_nil, elem_of_empty.
Qed.

Context `{IndexConfig}.

(** The blocks a database has room for: one past the newest. *)
Definition block_count (o : option (u32 * H256)) : Z := match o with Some (n, _) => n + 1 | None => 0 end.

Lemma newest_count B o b : newest_block B o -> b ∈ B -> b.2 < block_count o.
Proof.
  destruct o as [[n h]|]; cbn; [intros [_ Hmax]|intros ->]; [|by intros ?%elem_of_empty].
  destruct b as [h' n']. intros Hb. specialize (Hmax h' n' Hb). cbn. lia.
Qed.

Lemma div_ceil_bound a b : 0 <= a -> 0 < b -> a <= b * Z.max (div_ceil a b) 1.
Proof.
  intros Ha Hb. unfold div_ceil. pose proof (Z.div_mod (a + b - 1) b ltac:(lia)).
  pose proof (Z.mod_pos_bound (a + b - 1) b Hb). nia.
Qed.

(** The threads of [build] together read every block. *)
Lemma scan_threads_ok db B all k per m :
  cf3 db B -> db_iter db BlockNumToBlockHash = Ok (map enc_block all) -> (forall b, b ∈ all <-> b ∈ B) ->
  0 < per -> Z.of_nat m * per <= u64_max ->
  mapM (scan_thread db k per) (seq 0 m) =
    Ok (map (fun i => fold_left (push_scanned k)
      (filter (num_range (Z.of_nat i * per) (Some ((Z.of_nat i + 1) * per))) all) (replicate SHARDS [])) (seq 0 m)).
Proof.
  intros Hc Hit Hall Hper Hm.
  assert (Hr : Forall (fun b => is_u256 b.1 /\ is_u32 b.2) all)
    by (apply Forall_forall; intros [h n] Hb%Hall; by apply (c3_range _ _ Hc)).
  assert (forall i, (i < m)%nat -> scan_thread db k per i = Ok (fold_left (push_scanned k)
      (filter (num_range (Z.of_nat i * per) (Some ((Z.of_nat i + 1) * per))) all) (replicate SHARDS []))) as Hi.
  { intros i Hi. unfold scan_thread.
    pose proof (Z.mul_le_mono_nonneg_r (Z.of_nat i + 1) (Z.of_nat m) per ltac:(lia) ltac:(lia)).
    assert (0 <= Z.of_nat i * per) by (apply Z.mul_nonneg_nonneg; lia).
    pose proof (scan_blocks_ok db all (Z.of_nat i * per) (Some ((Z.of_nat i + 1) * per)) Hit Hr) as Hscan.
    cbn [fmap option_fmap option_map] in Hscan. rewrite Hscan; [|unfold is_u64; lia|intros ? [= <-]; unfold is_u64; lia].
    cbn [mbind res_bind]. rewrite scanned_entries_ok; [done|].
    rewrite Forall_forall in *. intros b [_ Hb]%list_elem_of_filter. auto. }
  apply res_mapM_ok. intros i [? ?]%elem_of_seq. apply Hi. lia.
Qed.

(** The shard [build] makes of the blocks of one first byte. *)
Lemma built_shard_inv B all k s :
  0 <= k <= 24 -> Z.of_nat (size B) < 2 ^ 32 -> StronglySorted by_number all ->
  (forall b, b ∈ all <-> b ∈ B) -> (forall h n, (h, n) ∈ B -> is_u32 n) ->
  let l := merge_sort ent_le (shard_list k s all) in
  shard_inv k B s (from_sorted k l) l /\
  forall h n, (h, n) ∈ B -> shard_of (prefix h) = s -> (code (prefix h) k, n) ∈ l.
Proof.
  intros Hk Hsz Hs Hall Hr l.
  assert (Hl : forall e, e ∈ l <-> exists h, (h, e.2) ∈ B /\ shard_of (prefix h) = s /\ code (prefix h) k = e.1).
  { intros e. unfold l, shard_list. rewrite elem_of_merge_sort, list_elem_of_fmap. split.
    - intros ([h n] & -> & [Hsh Hb]%list_elem_of_filter). exists h. by rewrite <- Hall.
    - intros (h & Hb & Hsh & Hc). exists (h, e.2). unfold fst at 1, snd at 1. rewrite Hc. split; [by destruct e|].
      apply list_elem_of_filter. by rewrite Hall. }
  assert (Hsort : StronglySorted ent_lt l).
  { eapply sorted_nodup; [apply ent_le_lt | apply StronglySorted_merge_sort; apply _ |].
    unfold l. rewrite merge_sort_Permutation. unfold shard_list. clear - Hs.
    induction Hs as [|b all Hall IH Hb]; [constructor|]. rewrite filter_cons. case_decide; [|done].
    cbn [map]. constructor; [|done]. intros (b' & Heq & [_ Hb']%list_elem_of_filter)%list_elem_of_fmap.
    rewrite Forall_forall in Hb. specialize (Hb b' Hb'). unfold by_number in Hb. injection Heq as _ Heq. lia. }
  assert (entries_ok k l) as Ho.
  { split; [done|done| |].
    - apply Forall_forall. intros e (h & Hb & _ & <-)%Hl. split; [by apply code_bound|by eapply Hr].
    - eapply Z.le_lt_trans; [|apply Hsz]. apply inj_le. etrans; [|apply (size_filed k s)].
      apply sorted_in_set; [done|]. intros e He%Hl. by apply elem_of_filed. }
  split.
  - split_and!; [done|by apply from_sorted_holds|]. intros e He%Hl. by apply elem_of_filed.
  - intros h n Hb Hsh. apply Hl. exists h. by split_and!.
Qed.

(** What the threads found for one shard, together. *)
Lemma scanned_shard k per m s (all : list (H256 * u32)) :
  (s < SHARDS)%nat -> 0 < per -> StronglySorted by_number all -> Forall (fun b => 0 <= b.2 < Z.of_nat m * per) all ->
  concat (map (fun t => default [] (t !! s)) (map (fun i => fold_left (push_scanned k)
    (filter (num_range (Z.of_nat i * per) (Some ((Z.of_nat i + 1) * per))) all) (replicate SHARDS [])) (seq 0 m))) =
  shard_list k s all.
Proof.
  intros Hs Hper Hsort Hr. rewrite map_map.
  rewrite (map_ext _ (fun i => shard_list k s (filter (num_range (Z.of_nat i * per) (Some ((Z.of_nat i + 1) * per))) all)))
    by (intros i; by rewrite push_scanned_ok).
  rewrite <- map_map, shard_list_concat, concat_ranges; [|done|done|].
  - f_equal. apply filter_all. intros b Hb. rewrite Forall_forall in Hr. specialize (Hr b Hb). unfold num_range. lia.
  - eapply Forall_impl; [done|]. cbn. lia.
Qed.

(** The shards split the blocks. *)
Lemma sum_filter {A} (f : A -> nat) n (l : list A) :
  (forall x, x ∈ l -> (f x < n)%nat) ->
  fold_right Z.add 0 (map (fun s => Z.of_nat (length (filter (fun x => f x = s) l))) (seq 0 n)) = Z.of_nat (length l).
Proof.
  intros Hf. assert (Hzero : forall a m, fold_right Z.add 0 (map (fun _ : nat => 0) (seq a m)) = 0)
    by (intros a m; revert a; induction m as [|m IH]; intros a; [done|]; cbn; by rewrite IH).
  assert (Hone : forall i a m, (a <= i < a + m)%nat -> forall g : nat -> Z,
    fold_right Z.add 0 (map (fun s => if decide (i = s) then 1 + g s else g s) (seq a m)) = 1 + fold_right Z.add 0 (map g (seq a m))).
  { intros i a m. revert a. induction m as [|m IH]; intros a Hi g; [lia|]. cbn [seq map fold_right]. destruct (decide (i = a)) as [->|Hne].
    - rewrite (map_ext_in _ g); [lia|]. intros s Hs%in_seq. by rewrite decide_False by lia.
    - rewrite IH by lia. lia. }
  induction l as [|x l IH]; [apply Hzero|]. rewrite <- (Nat2Z.id (length (x :: l))), Nat2Z.id. cbn [length]. rewrite Nat2Z.inj_succ.
  rewrite <- IH by (intros y Hy; apply Hf; by right). rewrite <- Z.add_1_l, <- (Hone (f x)) by (split; [lia|apply Hf; by left]).
  f_equal. apply map_ext. intros s. rewrite filter_cons. destruct (decide (f x = s)); [cbn [length]; lia|done].
Qed.

Lemma sorted_blocks_size (all : list (H256 * u32)) (B : gset (H256 * u32)) :
  StronglySorted by_number all -> (forall b, b ∈ all <-> b ∈ B) -> length all = size B.
Proof.
  intros Hs Hall. rewrite <- (size_list_to_set (C := gset (H256 * u32)) all).
  - f_equal. apply set_eq. intros b. by rewrite elem_of_list_to_set.
  - eapply strictly_sorted_NoDup; [|exact Hs]. intros b Hb. unfold by_number in Hb. lia.
Qed.

Lemma built_len k (all : list (H256 * u32)) last :
  (forall s, entries_ok k (merge_sort ent_le (shard_list k s all))) ->
  index_len (new_index (map (fun s => from_sorted k (merge_sort ent_le (shard_list k s all))) (seq 0 SHARDS)) last) = Z.of_nat (length all).
Proof.
  intros Ho. unfold index_len. cbn [new_index ix_shards ix_new]. rewrite size_empty, Z.add_0_r, map_map.
  rewrite <- (sum_filter (fun b : H256 * u32 => shard_of (prefix b.1)) SHARDS all) by (intros b _; apply shard_of_bound, prefix_u64).
  f_equal. apply map_ext. intros s. rewrite (sv_numbers _ _ _ (from_sorted_holds _ _ (Ho s))), length_map.
  rewrite merge_sort_Permutation. unfold shard_list. by rewrite length_map.
Qed.

Lemma build_ok db B : cf3 db B -> Z.of_nat (size B) < 2 ^ 32 ->
  exists shards last k, build db = Ok (new_index shards last) /\ index_inv k B (new_index shards last) /\
    newest_block B last /\ k = bucket_bits (block_count last) /\ index_len (new_index shards last) = Z.of_nat (size B).
Proof.
  intros Hc Hsz. unfold build. destruct (last_block_ok db B Hc) as (o & -> & Hnew). rewrite res_bind_ok.
  destruct (cf3_iter db B Hc) as (all & Hit & Hs & Hall).
  change (match o with Some (number, _) => number + 1 | None => 0 end) with (block_count o).
  set (k := bucket_bits (block_count o)). set (per := Z.max _ 1).
  assert (Hcount : 0 <= block_count o <= 2 ^ 32).
  { destruct o as [[n h]|]; cbn; [|lia]. destruct Hnew as [Hb _]. destruct (c3_range _ _ Hc h n Hb) as [_ [? ?]].
    unfold u32_max in *. lia. }
  assert (Hper : block_count o <= 8 * per) by (apply div_ceil_bound; lia).
  assert (0 < per <= 2 ^ 32) as Hper'.
  { unfold per, div_ceil. change (Z.of_nat SCAN_THREADS) with 8.
    assert ((block_count o + 8 - 1) / 8 <= 2 ^ 32) by (apply Z.div_le_upper_bound; lia). lia. }
  rewrite (scan_threads_ok db B all) by (done || lia || (change (Z.of_nat SCAN_THREADS) with 8; unfold u64_max; lia)).
  rewrite res_bind_ok.
  rewrite (map_ext_in _ (fun s => from_sorted k (merge_sort ent_le (shard_list k s all)))).
  2:{ intros s Hin. apply in_seq in Hin. do 2 f_equal. apply scanned_shard; [lia|lia|done|].
      apply Forall_forall. intros [h n] Hb%Hall. change (Z.of_nat SCAN_THREADS) with 8.
      pose proof (newest_count B o (h, n) Hnew Hb). destruct (c3_range _ _ Hc h n Hb) as [_ [? ?]]. cbn in *. lia. }
  assert (Hbits : 0 <= k <= 24) by apply bucket_bits_range.
  assert (Hu : forall h n, (h, n) ∈ B -> is_u32 n) by (intros h n Hb; by apply (c3_range _ _ Hc h n)).
  assert (Hinv : index_inv k B (new_index (map (fun s => from_sorted k (merge_sort ent_le (shard_list k s all))) (seq 0 SHARDS)) o)).
  { split; try done.
    - intros s sh. cbn [new_index ix_shards]. rewrite list_lookup_fmap_Some.
      intros (s' & -> & [-> _]%lookup_seq). eexists. by apply built_shard_inv.
    - intros e [He|He]; by apply elem_of_empty in He.
    - intros h n Hb. right; right. cbn [new_index ix_shards].
      pose proof (shard_of_bound (prefix h) (prefix_u64 h)) as Hlt.
      destruct (built_shard_inv B all k (shard_of (prefix h)) Hbits Hsz Hs Hall Hu) as [(Ho & Hv & _) Hin].
      eexists _, _. rewrite map_seq_lookup by done. split; [done|]. split; [by eapply shard_entries_ok|]. by apply Hin. }
  assert (match o with Some (number, hash) => '(hash, number) ← entry (E := E) hash number; Ok (Some (number, hash)) | None => Ok None end = Ok o) as ->.
  { destruct o as [[n h]|]; [|done]. destruct Hnew as [Hb _]. unfold entry. by rewrite decide_True by (by eapply Hu). }
  rewrite res_bind_ok. eexists _, o, k. split; [done|]. split_and!; [done|done|done|].
  rewrite built_len by (intros s; by apply (built_shard_inv B all k s)). by rewrite (sorted_blocks_size all B).
Qed.
End scan.
