(* ===== verification/BlockIndexRun.v ===== *)
(** * The block index across restarts

    The file a run leaves covers the blocks of CF 3 up to its last one,
    whatever was noted, merged and saved; so opening it again gives an index
    of every block CF 3 has. *)

From stdpp Require Import prelude gmap list sorting.
From S2P Require Import Prelude Types KvStore ArchiveEncoding BlockIndex BlockIndexFacts BlockIndexStore.

#[local] Open Scope Z_scope.

(** [b'] is past [b], or is [b]. *)
Definition not_before (b b' : u32 * H256) : Prop := b.1 < b'.1 \/ b = b'.

Lemma index_inv_wf k N ix : index_inv k N ix ->
  Forall (shard_wf k) (ix_shards ix) /\ total_blocks (ix_shards ix) <= u64_max.
Proof.
  intros [Hk _ _ Hlen Hsh _ _].
  assert (Hall : Forall (fun s => shard_wf k s /\ Z.of_nat (length (sh_numbers s)) < 2 ^ 32) (ix_shards ix)).
  { apply Forall_lookup. intros s sh Hs. destruct (Hsh s sh Hs) as (l & Ho & Hv & _).
    split; [by eapply shard_holds_wf|]. rewrite (sv_numbers _ _ _ Hv), length_map. by destruct Ho. }
  split; [eapply Forall_impl; [done|]; by intros ? [? _]|].
  assert (total_blocks (ix_shards ix) <= Z.of_nat (length (ix_shards ix)) * 2 ^ 32) as Ht.
  { clear - Hall. unfold total_blocks. induction Hall as [|s l [_ Hs] _ IH]; [done|]. cbn [map fold_right length]. lia. }
  rewrite Hlen in Ht. unfold SHARDS in Ht. unfold u64_max. lia.
Qed.

Section run.
Context {K E : Type} `{RocksDBOk K E} `{IndexConfig} (crc32 : bytes -> u32).
Context (crc32_u32 : forall b, is_u32 (crc32 b)).

(** Every block a run ever sees, with numbers and hashes of their width. *)
Context (U : gset (H256 * u32)).
Context (U_size : Z.of_nat (size U) < 2 ^ 32).
Context (U_range : forall h n, (h, n) ∈ U -> is_u256 h /\ is_u32 n).

(** The file [bytes] ends at [last] and has every block of [B] up to it. *)
Definition file_covers (B : gset (H256 * u32)) (bytes : bytes) (last : u32 * H256) : Prop :=
  exists k shards B0, load (E := E) crc32 (Some bytes) = Ok (Some (k, shards, last)) /\
    index_inv k B0 (new_index shards (Some last)) /\ B0 ⊆ U /\ (last.2, last.1) ∈ B0 /\
    forall h n, (h, n) ∈ B -> n <= last.1 -> (h, n) ∈ B0.

(** An idle index of the blocks [N]; its file is right for [B]. *)
Record run_inv (k : u32) (N B : gset (H256 * u32)) (ix : BlockIndex) : Prop := {
  rn_inv : index_inv k N ix;
  rn_sub : N ⊆ U;
  rn_idle : ix_merging ix = ∅;
  rn_last n h : ix_last ix = Some (n, h) -> (h, n) ∈ N;
  rn_recent n h : ix_recent_last ix = Some (n, h) -> (h, n) ∈ N /\
    forall l, ix_last ix = Some l -> not_before l (n, h);
  rn_file bytes : ix_file ix = Some (Some bytes) ->
    exists l l', file_covers B bytes l /\ ix_last ix = Some l' /\ not_before l l';
}.

Lemma not_before_trans a b c : not_before a b -> not_before b c -> not_before a c.
Proof. unfold not_before. intros [?| ->] [?| <-]; auto. left. lia. Qed.

Lemma U_sub_size N : N ⊆ U -> Z.of_nat (size N) < 2 ^ 32.
Proof. intros Hsub%subseteq_size. lia. Qed.

Lemma file_covers_mono B B' bytes l : B' ⊆ B -> file_covers B bytes l -> file_covers B' bytes l.
Proof. intros Hsub (k & sh & B0 & ? & ? & ? & ? & Hc). exists k, sh, B0. split_and!; auto. Qed.

Lemma run_inv_mono k N B B' ix : B' ⊆ B -> run_inv k N B ix -> run_inv k N B' ix.
Proof.
  intros Hsub []. split; try done. intros bytes Hf. destruct (rn_file0 bytes Hf) as (l & l' & Hc & ? & ?).
  exists l, l'. split_and!; [by eapply file_covers_mono|done|done].
Qed.

(** Without a rewrite, every block noted comes after the last merged one. *)
Lemma rewrites_false l blocks b :
  rewrites (Some l) blocks = false -> b ∈ blocks -> not_before l (b.2, b.1).
Proof.
  destruct l as [n h]. cbn. intros Hr Hb. rewrite <- not_true_iff_false, existsb_exists in Hr.
  destruct b as [h' n']. destruct (decide (n < n')) as [?|Hge]; [by left|right].
  destruct (decide (n' = n /\ h' = h)) as [[-> ->]|Hne]; [done|]. exfalso. apply Hr. exists (h', n').
  split; [by apply list_elem_of_In|]. apply orb_true_iff.
  destruct (decide (n' < n)); [left; by apply bool_decide_eq_true|right].
  apply andb_true_iff. assert (n' = n) as -> by lia. split; apply bool_decide_eq_true; [done|]. intros ->. by apply Hne.
Qed.

(** What noting blocks does to the fields other than the set. *)
Lemma note_blocks_fields blocks : forall ix, let ix' := fold_left note_block blocks ix in
  ix_merging ix' = ix_merging ix /\ ix_last ix' = ix_last ix /\ ix_file ix' = ix_file ix /\
  (ix_recent_last ix' = ix_recent_last ix \/ exists b, b ∈ blocks /\ ix_recent_last ix' = Some (b.2, b.1)).
Proof.
  induction blocks as [|[h n] blocks IH]; intros ix; [cbn; auto|]. cbn zeta. cbn [fold_left].
  destruct (IH (note_block ix (h, n))) as (-> & -> & -> & Hr). split_and!; try done. right.
  destruct Hr as [->|(b & Hb & ->)]; [exists (h, n); split; [left|done] | exists b; split; [by right|done]].
Qed.

(** Noting blocks, about to be written: the file stays right with them. *)
Lemma note_run k N B ix blocks :
  run_inv k N B ix -> list_to_set blocks ⊆ U ->
  run_inv k (list_to_set blocks ∪ N) (list_to_set blocks ∪ B) (note ix blocks).
Proof.
  intros Hi Hsub. pose proof Hi as [Hinv HN Hid Hl Hr Hf].
  assert (Hin : forall b, b ∈ blocks -> b ∈ U) by (intros b Hb; by apply Hsub, elem_of_list_to_set).
  assert (HNU : list_to_set blocks ∪ N ⊆ U) by (by apply union_subseteq).
  assert (index_inv k (list_to_set blocks ∪ N) (note ix blocks)) as Hinv'.
  { apply note_ok; [done| |by apply U_sub_size]. apply Forall_forall. intros [h n] Hb. by apply (U_range h), Hin. }
  unfold note in *. destruct blocks as [|b0 bs]; [by rewrite list_to_set_nil, !(left_id_L ∅ (∪)) in *|].
  set (blocks := b0 :: bs) in *. set (ix1 := if rewrites _ _ then _ else _) in *.
  destruct (note_blocks_fields blocks ix1) as (Hm & Hlast & Hfile & Hrec).
  assert (Hnew : forall b, b ∈ blocks -> b ∈ list_to_set (C := gset (H256 * u32)) blocks ∪ N)
    by (intros b Hb; apply elem_of_union_l; by apply elem_of_list_to_set).
  assert (Hold : forall b, b ∈ N -> b ∈ list_to_set (C := gset (H256 * u32)) blocks ∪ N) by (intros; by apply elem_of_union_r).
  destruct (rewrites (ix_last ix) blocks) eqn:Hrw.
  - assert (ix_last ix1 = None /\ (ix_file ix1 = Some None \/ ix_file ix1 = None) /\ ix_merging ix1 = ix_merging ix /\
      ix_recent_last ix1 = ix_recent_last ix) as (F1 & F2 & F3 & F4).
    { unfold ix1. cbn. destruct (ix_file ix) eqn:?; cbn; auto. }
    split; try done; rewrite ?Hlast, ?Hm, ?Hfile, ?F1, ?F3; try done.
    + intros n h Hlr. split; [|done]. destruct Hrec as [Heq|([h' n'] & Hb & Heq)]; rewrite Heq in Hlr; simplify_eq/=; [|auto].
      apply Hold. rewrite F4 in Hlr. by apply Hr.
    + intros bytes Hb. destruct F2; congruence.
  - subst ix1. split; try done; rewrite ?Hlast, ?Hm, ?Hfile; try done.
    + intros n h Hx. apply Hold. auto.
    + intros n h Hlr. destruct Hrec as [Heq|([h' n'] & Hb & Heq)]; rewrite Heq in Hlr; simplify_eq/=.
      * destruct (Hr n h Hlr) as [? ?]. auto.
      * split; [auto|]. intros l Hll. rewrite Hll in Hrw. by apply (rewrites_false l blocks (h, n)).
    + intros bytes Hb. destruct (Hf bytes Hb) as (l & l' & (k0 & sh & B0 & Hload & Hi0 & Hs0 & Hl0 & Hc0) & Hl' & Hle).
      exists l, l'. split_and!; [|done|done]. exists k0, sh, B0. split_and!; try done.
      intros h n [Hn%elem_of_list_to_set|?]%elem_of_union Hnl; [|auto].
      rewrite Hl' in Hrw. pose proof (rewrites_false _ _ _ Hrw Hn) as Hnb.
      pose proof (not_before_trans _ _ _ Hle Hnb) as [?| ->]; [cbn in *; lia|done].
Qed.

(** *** Saving *)

Lemma saved_covers k N B ix n h :
  index_inv k N ix -> ix_new ix = ∅ -> ix_merging ix = ∅ -> N ⊆ U -> (h, n) ∈ N -> B ⊆ N ->
  file_covers B (save crc32 (ix_shards ix) n h) (n, h).
Proof.
  intros Hi Hn Hm HN Hb HB. destruct (index_inv_wf _ _ _ Hi) as [Hwf Htot].
  destruct (U_range h n (HN _ Hb)) as [Hh Hnu].
  exists k, (ix_shards ix), N. split_and!; [|apply (index_inv_file k N ix); [done|by rewrite Hn|by rewrite Hm|done]|done|done|auto].
  destruct Hi. by apply load_save.
Qed.

Lemma merge_run k N B ix save_after :
  run_inv k N B ix -> (save_after = true -> B ⊆ N) ->
  exists ix', merge crc32 save_after ix = Some ix' /\ run_inv k N B ix'.
Proof.
  intros [Hi HN Hid Hl Hr Hf] HB. destruct (merge_ok crc32 k N save_after ix Hi Hid) as (sh & -> & Hi').
  eexists. split; [done|].
  assert (run_inv k N B (after_merge ix sh)) as Hrun.
  { split; try done; cbn.
    - intros n h. destruct (ix_recent_last ix) as [[n' h']|] eqn:Hrl; [intros [= -> ->]; by apply Hr|apply Hl].
    - intros bytes Hb. destruct (Hf bytes Hb) as (l & l' & Hc & Hl' & Hle).
      destruct (ix_recent_last ix) as [[n' h']|] eqn:Hrl; [|by exists l, l'].
      exists l, (n', h'). split_and!; [done|done|]. eapply not_before_trans; [done|]. by apply Hr. }
  destruct save_after; [|done]. unfold save_to. cbn [after_merge ix_file ix_last].
  destruct (ix_file ix) as [f|] eqn:Hfile; [|by cbn in Hrun].
  destruct (match ix_recent_last ix with Some l => Some l | None => ix_last ix end) as [[n h]|] eqn:Hlast; [|done].
  pose proof Hrun as [Hri HrN Hrid Hrl _ _]. cbn in Hrl. rewrite Hlast in Hrl.
  split; try done; cbn [after_merge set_file ix_file ix_last]; rewrite ?Hlast.
  - by apply (index_inv_file k N (after_merge ix sh)).
  - done.
  - intros bytes [= <-]. exists (n, h), (n, h). split_and!; [|done|by right].
    by apply (saved_covers k N B (after_merge ix sh)); auto.
Qed.

(** *** Opening *)

Lemma index_items_run k B blocks : forall batch cnt N ix,
  run_inv k N B ix -> Forall (.∈ B) blocks -> Forall (.∈ B) batch -> B ⊆ U ->
  exists batch' cnt' ix' N', index_items (E := E) crc32 (map enc_block blocks) batch cnt ix = Ok (batch', cnt', ix') /\
    run_inv k N' B ix' /\ Forall (.∈ B) batch' /\
    forall b, b ∈ blocks \/ b ∈ batch \/ b ∈ N -> b ∈ N' \/ b ∈ batch'.
Proof.
  induction blocks as [|b blocks IH]; intros batch cnt N ix Hi Hbs Hbt HB; cbn [map index_items].
  - exists batch, cnt, ix, N. split_and!; try done. intros b [Hb|[?|?]]; [by apply elem_of_nil in Hb|auto..].
  - inversion Hbs as [|? ? Hb Hbs']; subst. destruct b as [h n]. destruct (U_range h n (HB _ Hb)) as [Hh Hn].
    rewrite scanned_entry_ok, res_bind_ok by done.
    assert (Hbt' : Forall (.∈ B) (batch ++ [(h, n)])) by (apply Forall_app; auto).
    case_decide.
    + set (batch1 := batch ++ [(h, n)]) in *.
      assert (HbB : list_to_set (C := gset (H256 * u32)) batch1 ⊆ B)
        by (intros b Hb'%elem_of_list_to_set; rewrite Forall_forall in Hbt'; auto).
      pose proof (note_run k N B ix batch1 Hi ltac:(by etrans)) as Hi1.
      rewrite (subseteq_union_1_L _ _ HbB) in Hi1.
      destruct (merge_run k _ _ (note ix batch1) false Hi1 ltac:(done)) as (ix2 & -> & Hi2).
      cbn [unwrap]. rewrite res_bind_ok.
      destruct (IH [] (cnt + Z.of_nat (length batch1)) _ ix2 Hi2 Hbs' ltac:(constructor) HB)
        as (batch' & cnt' & ix' & N' & Heq & Hi' & Hb' & Hall).
      exists batch', cnt', ix', N'. split_and!; try done. intros b Hin. apply Hall.
      assert (b ∈ blocks \/ b ∈ batch1 \/ b ∈ N) as [?|[?|?]]; [|by left|right; right..].
      * unfold batch1. rewrite elem_of_app, list_elem_of_singleton. rewrite elem_of_cons in Hin. tauto.
      * apply elem_of_union_l. by apply elem_of_list_to_set.
      * by apply elem_of_union_r.
    + destruct (IH (batch ++ [(h, n)]) cnt N ix Hi Hbs' Hbt' HB) as (batch' & cnt' & ix' & N' & Heq & Hi' & Hb' & Hall).
      exists batch', cnt', ix', N'. split_and!; try done. intros b Hin. apply Hall.
      rewrite elem_of_app, list_elem_of_singleton. rewrite elem_of_cons in Hin. tauto.
Qed.

(** [index_from] adds the blocks from [from] on. *)
Lemma index_from_run k N B ix db from :
  cf3 db B -> B ⊆ U -> run_inv k N B ix -> is_u64 from ->
  (forall h n, (h, n) ∈ B -> n < from -> (h, n) ∈ N) ->
  exists ix' N', index_from crc32 ix db from = Ok ix' /\ run_inv k N' B ix' /\ B ⊆ N'.
Proof.
  intros Hc HB Hi Hfrom Hlow. destruct (cf3_iter db B Hc) as (all & Hit & Hs & Hall). unfold index_from.
  assert (Hr : Forall (fun b => is_u256 b.1 /\ is_u32 b.2) all)
    by (apply Forall_forall; intros [h n] Hb%Hall; by apply (c3_range _ _ Hc)).
  pose proof (scan_blocks_ok db all from None Hit Hr Hfrom ltac:(done)) as Hscan.
  change (encode_block_num <$> None) with (@None bytes) in Hscan. rewrite Hscan, res_bind_ok.
  destruct (index_items_run k B (filter (num_range from None) all) [] 0 N ix Hi) as (batch & cnt & ix1 & N1 & -> & Hi1 & Hb1 & Hin).
  { apply Forall_forall. intros b [_ Hb]%list_elem_of_filter. by apply Hall. }
  { constructor. }
  { done. }
  rewrite res_bind_ok.
  assert (HbB : list_to_set (C := gset (H256 * u32)) batch ⊆ B)
    by (intros b Hb'%elem_of_list_to_set; rewrite Forall_forall in Hb1; auto).
  pose proof (note_run k N1 B ix1 batch Hi1 ltac:(by etrans)) as Hi2. rewrite (subseteq_union_1_L _ _ HbB) in Hi2.
  assert (Hcov : B ⊆ list_to_set batch ∪ N1).
  { intros [h n] Hb. assert ((h, n) ∈ N1 \/ (h, n) ∈ batch) as [?|?]; [|by apply elem_of_union_r|apply elem_of_union_l; by apply elem_of_list_to_set].
    apply Hin. destruct (decide (n < from)); [right; right; auto|left].
    apply list_elem_of_filter. split; [unfold num_range; cbn; lia|by apply Hall]. }
  case_decide; [|eauto]. destruct (merge_run k _ _ (note ix1 batch) true Hi2 ltac:(done)) as (ix2 & -> & Hi3).
  cbn [unwrap]. eauto.
Qed.

(** An index rebuilt from CF 3, which saves itself. An index file beside an
    empty CF 3 is left where it is, hence the condition. *)
Lemma rebuild_run db B file :
  cf3 db B -> B ⊆ U -> (file = None \/ B <> ∅) ->
  exists ix k last, rebuild crc32 db file = Ok ix /\ run_inv k B B ix /\
    newest_block B last /\ k = bucket_bits (block_count last) /\ index_len ix = Z.of_nat (size B) /\
    is_Some (ix_file ix).
Proof.
  intros Hc HB Hne. unfold rebuild. destruct (build_ok db B Hc (U_sub_size B HB)) as (sh & last & k & -> & Hi & Hlast & Hk & Hlen).
  rewrite res_bind_ok. eexists _, k, last. split; [done|]. split; [|split; [done|split; [done|]]].
  - unfold save_to. cbn [set_file new_index ix_file ix_last]. destruct last as [[n h]|].
    + destruct Hlast as [Hb _]. split; try done; cbn [set_file new_index ix_file ix_last].
      * by apply (index_inv_file k B (new_index sh (Some (n, h)))).
      * intros ? ? [= <- <-]. done.
      * intros bytes [= <-]. exists (n, h), (n, h). split_and!; [|done|by right].
        by apply (saved_covers k B B (new_index sh (Some (n, h)))).
    + cbn in Hlast. destruct Hne as [-> |Hne]; [|done]. split; try done.
      by apply (index_inv_file k B (new_index sh None)).
  - rewrite <- Hlen. unfold save_to. cbn [set_file new_index ix_file ix_last]. destruct last as [[n h]|]; split; done || by eexists.
Qed.

(** Opening over a file that covers CF 3, or none, gives an index of CF 3
    whose file is right again. *)
Lemma open_run db B file :
  cf3 db B -> B ⊆ U -> (file = None \/ B <> ∅) ->
  (forall bytes, file = Some bytes -> exists l, file_covers B bytes l) ->
  exists ix k N, open_index crc32 db file = Ok ix /\ run_inv k N B ix /\ B ⊆ N.
Proof.
  intros Hc HB Hne Hf. unfold open_index. destruct (last_block_ok db B Hc) as (o & -> & Hnew). rewrite res_bind_ok.
  assert (Hrebuild : exists ix k N, rebuild crc32 db file = Ok ix /\ run_inv k N B ix /\ B ⊆ N).
  { destruct (rebuild_run db B file Hc HB Hne) as (ix & k & _ & ? & ? & _). by exists ix, k, B. }
  destruct file as [bytes|]; [|by cbn]. destruct (Hf bytes eq_refl) as (l & k & sh & B0 & Hload & Hi0 & HB0 & Hl0 & Hcov).
  unfold accept_file. rewrite Hload, (rk_get db) by apply (c3_ok _ _ Hc). cbn [rocks]. rewrite res_bind_ok.
  repeat case_decide; rewrite res_bind_ok; [done..|]. cbn [set_file new_index ix_last]. destruct l as [n h].
  destruct (U_range h n (HB0 _ Hl0)) as [Hh Hn].
  destruct (index_from_run k B0 B (set_file (new_index sh (Some (n, h))) (Some (Some bytes))) db (n + 1) Hc HB)
    as (ix & N & Heq & Hrun & Hsub).
  - split; try done; cbn [set_file new_index ix_file ix_last].
    + by apply (index_inv_file k B0 (new_index sh (Some (n, h)))).
    + intros ? ? [= <- <-]. done.
    + intros bytes' [= <-]. exists (n, h), (n, h). split_and!; [|done|by right]. exists k, sh, B0. by split_and!.
  - unfold is_u64, is_u32, u32_max, u64_max in *. lia.
  - intros h' n' Hb Hlt. apply Hcov; [done|]. cbn. lia.
  - eauto 10.
Qed.
End run.
