(* ===== verification/BlockIndexTheorems.v ===== *)
(** * What the block index guarantees

    Readers running beside notes and merges find every block noted; an index
    reopened after a restart, a crash before a commit or a rewind finds every
    block CF 3 still has; a saved index loads back. *)

From stdpp Require Import prelude gmap list sorting.
From S2P Require Import Prelude Types KvStore MemKv ArchiveEncoding BlockIndex BlockIndexFacts BlockIndexStore BlockIndexRun.

#[local] Open Scope Z_scope.

(** ** Steps of the index *)

(** The index and the merge in progress, if any. Noting takes the merge lock,
    so it does not run during a merge; lookups run at any time. *)
Inductive index_step (crc32 : bytes -> u32) :
    BlockIndex * option Merging -> list (H256 * u32) -> BlockIndex * option Merging -> Prop :=
| step_note ix blocks : index_step crc32 (ix, None) blocks (note ix blocks, None)
| step_merge_start ix ix' m : merge_start ix = (ix', m) -> index_step crc32 (ix, None) [] (ix', Some m)
| step_merge_shard ix m ix' m' : (mg_shard m < SHARDS)%nat -> merge_shard ix m = Some (ix', m') ->
    index_step crc32 (ix, Some m) [] (ix', Some m')
| step_merge_end ix m save_after : mg_shard m = SHARDS ->
    index_step crc32 (ix, Some m) [] (merge_end crc32 save_after ix m, None).

(** Runs of the index, with the blocks noted so far. *)
Inductive index_steps (crc32 : bytes -> u32) (k : u32) :
    BlockIndex * option Merging -> gset (H256 * u32) -> Prop :=
| steps_start ix B : index_inv k B ix -> ix_merging ix = ∅ -> index_steps crc32 k (ix, None) B
| steps_step s B blocks s' : index_steps crc32 k s B -> index_step crc32 s blocks s' ->
    Forall (fun b : H256 * u32 => is_u32 b.2) blocks ->
    Z.of_nat (size (list_to_set blocks ∪ B)) < 2 ^ 32 ->
    index_steps crc32 k s' (list_to_set blocks ∪ B).

Lemma index_steps_inv crc32 k s B : index_steps crc32 k s B ->
  index_inv k B s.1 /\ match s.2 with Some m => merge_inv k s.1 m | None => ix_merging s.1 = ∅ end.
Proof.
  induction 1 as [ix B Hi He|s B blocks s' _ [Hi Hm] Hstep Hu Hsz]; [done|].
  inversion Hstep as [ix bs|ix ix' m Hst|ix m ix' m' Hlt Hsh|ix m save Hend]; subst; cbn in Hi, Hm.
  - split; [by apply note_ok|]. cbn. unfold note. destruct blocks as [|b blocks]; [done|].
    set (ix1 := if rewrites _ _ then _ else _).
    assert (ix_merging ix1 = ∅) as Hm1 by (unfold ix1; destruct (rewrites _ _); [by destruct (ix_file ix)|done]).
    clearbody ix1. clear - Hm1. revert ix1 Hm1. generalize (b :: blocks). intros l.
    induction l as [|[h n] l IH]; intros ix1 Hm1; [done|]. by apply IH.
  - rewrite list_to_set_nil, (left_id_L ∅ (∪)). destruct (merge_start_ok k B ix ix' m Hi Hm Hst) as (? & ? & _). done.
  - rewrite list_to_set_nil, (left_id_L ∅ (∪)). destruct (merge_shard_ok k B ix m Hi Hm Hlt) as (sh & m2 & Heq & ? & ? & _).
    rewrite Heq in Hsh. by simplify_eq.
  - rewrite list_to_set_nil, (left_id_L ∅ (∪)). by apply merge_end_ok.
Qed.

(** A step that notes nothing. *)
Lemma steps_silent crc32 k s s' B :
  index_steps crc32 k s B -> index_step crc32 s [] s' -> index_steps crc32 k s' B.
Proof.
  intros Hs Hstep. rewrite <- (left_id_L ∅ (∪) B), <- (list_to_set_nil (A := H256 * u32)).
  eapply steps_step; [done|done|constructor|]. rewrite list_to_set_nil, (left_id_L ∅ (∪)).
  apply index_steps_inv in Hs as [[] _]. done.
Qed.

(** C12: at every moment of a run of the block index, in the middle of a merge
    too, a lookup returns without panicking; its numbers are increasing, they
    include every number noted for the hash, and each was noted for a hash of
    the same shard, bucket and fingerprint. *)
Theorem candidates_complete crc32 k ix m B h :
  index_steps crc32 k (ix, m) B ->
  exists l, candidates ix h = Some l /\ StronglySorted Z.lt l /\
    (forall n, (h, n) ∈ B -> n ∈ l) /\
    (forall n, n ∈ l -> exists h', (h', n) ∈ B /\
       shard_of (prefix h') = shard_of (prefix h) /\ code (prefix h') k = code (prefix h) k).
Proof. intros [Hi _]%index_steps_inv. by apply candidates_ok. Qed.

(** *** Examples *)

Definition ex_empty_index : BlockIndex := new_index (replicate SHARDS (from_sorted 0 [])) None.

Lemma empty_entries_ok k : 0 <= k <= 24 -> entries_ok k [].
Proof. intros Hk. split; [done|constructor|constructor|done]. Qed.

Lemma empty_index_inv k : 0 <= k <= 24 ->
  index_inv k ∅ (new_index (replicate SHARDS (from_sorted k [])) None).
Proof.
  intros Hk. split; try done.
  - intros s sh [-> _]%lookup_replicate. exists []. pose proof (empty_entries_ok k Hk).
    split_and!; [done|by apply from_sorted_holds|]. intros e He. by apply elem_of_nil in He.
  - intros e [He|He]; by apply elem_of_empty in He.
Qed.

Definition ex_hash (i : Z) : H256 := i * 2 ^ 248 + 7.
Definition ex_noted : list (H256 * u32) := [(ex_hash 3, 10); (ex_hash 1, 11); (ex_hash 3 + 1, 12)].

(** A merge that has done the first of its 256 shards. *)
Definition ex_mid_merge : option (BlockIndex * Merging) :=
  let '(ix, m) := merge_start (note ex_empty_index ex_noted) in merge_shard ix m.

Lemma candidates_complete_witness :
  exists ix m, ex_mid_merge = Some (ix, m) /\ exists l, candidates ix (ex_hash 3) = Some l /\ 10 ∈ l.
Proof.
  destruct ex_mid_merge as [[ix m]|] eqn:Hmid; [|vm_compute in Hmid; discriminate].
  exists ix, m. split; [done|].
  destruct (candidates_complete (fun _ => 0) 0 ix (Some m) (list_to_set ex_noted ∪ ∅) (ex_hash 3)) as (l & Hl & _ & Hin & _).
  - unfold ex_mid_merge in Hmid. destruct (merge_start _) as [ix1 m1] eqn:Hst.
    apply (steps_silent _ _ (ix1, Some m1)); [|apply step_merge_shard; [|exact Hmid]].
    2:{ injection Hst as _ <-. cbn [mg_shard]. unfold SHARDS. lia. }
    apply (steps_silent _ _ (note ex_empty_index ex_noted, None)); [|by apply step_merge_start].
    eapply steps_step; [apply steps_start; [by apply empty_index_inv|done]|constructor| |by vm_compute].
    repeat constructor; in_range.
  - exists l. split; [done|]. apply Hin, elem_of_union_l, elem_of_list_to_set. left.
Defined.

(** ** Restarts *)

Section recovery.
Context {K E : Type} `{RocksDBOk K E} `{IndexConfig} (crc32 : bytes -> u32).
Context (U : gset (H256 * u32)).

(** CF 3 of [db] has block [h] at number [n]. *)
Definition cf3_has (db : K) (h : H256) (n : u64) : Prop :=
  kv_contents db BlockNumToBlockHash (encode_block_num n) = Some (h256_bytes h).

Definition cf3_within (db : K) : Prop := exists B, cf3 db B /\ B ⊆ U.

(** What the index file holds. *)
Definition file_of (ix : BlockIndex) : option bytes := match ix_file ix with Some f => f | None => None end.

(** The life of an index: it is opened without a file; blocks are noted, they
    are written to CF 3, and [committed] runs; or the process stops, perhaps
    after noting blocks it has not written, an offline rewind may take rows off
    CF 3, and the index is opened again over the file left behind. *)
Inductive index_run : K -> BlockIndex -> Prop :=
| ir_new db ix : cf3_within db -> open_index crc32 db None = Ok ix -> index_run db ix
| ir_commit db ix blocks db' ix' : index_run db ix -> list_to_set blocks ⊆ U -> cf3_within db' ->
    (forall h n, is_u256 h -> is_u64 n -> cf3_has db' h n -> cf3_has db h n \/ (h, n) ∈ blocks) ->
    committed crc32 (note ix blocks) = Some ix' -> index_run db' ix'
| ir_restart db ix blocks db' ix' : index_run db ix -> list_to_set blocks ⊆ U -> cf3_within db' ->
    (exists h n, is_u256 h /\ is_u64 n /\ cf3_has db' h n) ->
    (forall h n, is_u256 h -> is_u64 n -> cf3_has db' h n -> cf3_has db h n) ->
    open_index crc32 db' (file_of (note ix blocks)) = Ok ix' -> index_run db' ix'.

Context (crc32_u32 : forall b, is_u32 (crc32 b)).
Context (U_size : Z.of_nat (size U) < 2 ^ 32).
Context (U_range : forall h n, (h, n) ∈ U -> is_u256 h /\ is_u32 n).

Lemma cf3_has_in db B h n : cf3 db B -> is_u256 h -> is_u64 n -> cf3_has db h n -> (h, n) ∈ B.
Proof.
  intros Hc Hh Hn Hget. apply (c3_get _ _ Hc) in Hget as ([h' n'] & Hb & Heq).
  destruct (c3_range _ _ Hc h' n' Hb) as [Hh' Hn']. apply pair_equal_spec in Heq as [Hk Hv].
  apply encode_block_num_inj in Hk; [|done|by apply u32_u64]. apply h256_inj in Hv; [|done..]. by subst.
Qed.

Lemma cf3_has_of db B h n : cf3 db B -> (h, n) ∈ B -> cf3_has db h n.
Proof. intros Hc Hb. apply (c3_get _ _ Hc). by exists (h, n). Qed.

Definition run_ok (db : K) (ix : BlockIndex) : Prop :=
  exists B k N, cf3 db B /\ B ⊆ U /\ B ⊆ N /\ run_inv (E := E) crc32 U k N B ix.

Lemma committed_ok k N B ix : run_inv (E := E) crc32 U k N B ix -> B ⊆ N ->
  exists ix', committed crc32 ix = Some ix' /\ run_inv (E := E) crc32 U k N B ix'.
Proof.
  intros Hi HB. unfold committed. case_decide; [|eauto]. by apply (merge_run (E := E) crc32 crc32_u32 U U_range).
Qed.

(** A commit: the blocks are noted, written to CF 3, and [committed] runs. *)
Lemma commit_run db ix blocks db' :
  run_ok db ix -> list_to_set blocks ⊆ U -> cf3_within db' ->
  (forall h n, is_u256 h -> is_u64 n -> cf3_has db' h n -> cf3_has db h n \/ (h, n) ∈ blocks) ->
  exists ix', committed crc32 (note ix blocks) = Some ix' /\ run_ok db' ix'.
Proof.
  intros (B & k & N & Hc & HB & HN & Hi) Hbl (B' & Hc' & HB') Hw.
  pose proof (note_run crc32 U U_size U_range k N B ix blocks Hi Hbl) as Hi1.
  assert (B' ⊆ list_to_set blocks ∪ B) as Hsub.
  { intros [h n] Hb. destruct (c3_range _ _ Hc' h n Hb) as [Hh' Hn'].
    destruct (Hw h n) as [Hh|Hh]; [done|by apply u32_u64|by eapply cf3_has_of| |].
    - apply elem_of_union_r. apply (cf3_has_in db); [done|done|by apply u32_u64|done].
    - apply elem_of_union_l. by apply elem_of_list_to_set. }
  apply (run_inv_mono _ _ _ _ _ B') in Hi1; [|done].
  destruct (committed_ok _ _ _ _ Hi1) as (ix2 & Hcm2 & Hi2); [etrans; [done|]; by apply union_mono_l|].
  exists ix2. split; [done|]. exists B', k, (list_to_set blocks ∪ N). split_and!; [done|done| |done].
  etrans; [done|]. by apply union_mono_l.
Qed.

Lemma reopen_ok db ix db' B B' k N blocks :
  run_inv (E := E) crc32 U k N B ix -> cf3 db B -> list_to_set blocks ⊆ U -> cf3 db' B' -> B' ⊆ B ->
  B ⊆ U -> B' <> ∅ ->
  exists ix', open_index crc32 db' (file_of (note ix blocks)) = Ok ix' /\ run_ok db' ix'.
Proof.
  intros Hi Hc Hbl Hc' Hsub HB Hne.
  destruct (open_run crc32 crc32_u32 U U_size U_range db' B' (file_of (note ix blocks))) as (ix' & k' & N' & Ho & Hi' & Hs'); [done|by transitivity B|by right| |].
  - intros bytes Hf. destruct (note_run crc32 U U_size U_range k N B ix blocks Hi Hbl) as [_ _ _ _ _ Hfile].
    destruct (Hfile bytes) as (l & _ & Hcov & _); [unfold file_of in Hf; destruct (ix_file (note ix blocks)); congruence|].
    exists l. eapply file_covers_mono; [|done]. etrans; [done|]. apply union_subseteq_r.
  - exists ix'. split; [done|]. exists B', k', N'. split_and!; [done|by transitivity B|done|done].
Qed.

Lemma index_run_ok db ix : index_run db ix -> run_ok db ix.
Proof.
  induction 1 as [db ix (B & Hc & HB) Ho|db ix blocks db' ix' _ (B & k & N & Hc & HB & HN & Hi) Hbl (B' & Hc' & HB') Hw Hcm
    |db ix blocks db' ix' _ (B & k & N & Hc & HB & HN & Hi) Hbl (B' & Hc' & HB') (h & n & Hh & Hn & Hin) Hw Ho].
  - destruct (open_run crc32 crc32_u32 U U_size U_range db B None) as (ix' & k & N & Ho' & Hi & Hs); [done|done|by left|done|].
    rewrite Ho in Ho'. simplify_eq. exists B, k, N. by split_and!.
  - destruct (commit_run db ix blocks db') as (ix2 & Hcm2 & Hrun); [by exists B, k, N|done|by exists B'|done|].
    rewrite Hcm in Hcm2. by simplify_eq.
  - destruct (reopen_ok db ix db' B B' k N blocks) as (ix2 & Ho2 & Hr); try done.
    + intros [h' n'] Hb. destruct (c3_range _ _ Hc' h' n' Hb).
      apply (cf3_has_in db); [done|done|by apply u32_u64|]. apply Hw; [done|by apply u32_u64|]. by eapply cf3_has_of.
    + intros ->. by apply (elem_of_empty (C := gset (H256 * u32)) (h, n)), (cf3_has_in db').
    + rewrite Ho in Ho2. by simplify_eq.
Qed.

(** C13: whatever a node noted, wrote, merged and saved, and however it was
    stopped, the index in use finds every block CF 3 has: looking up its hash
    gives its number. Nor can the index get stuck: the next commit's merge
    does not panic, and opening again after a crash succeeds. *)
Theorem index_survives_restarts db ix : index_run db ix ->
  (forall h n, is_u256 h -> is_u64 n -> cf3_has db h n -> exists l, candidates ix h = Some l /\ n ∈ l) /\
  (forall blocks, list_to_set blocks ⊆ U -> exists ix', committed crc32 (note ix blocks) = Some ix') /\
  (forall blocks h n, list_to_set blocks ⊆ U -> is_u256 h -> is_u64 n -> cf3_has db h n ->
    exists ix', open_index crc32 db (file_of (note ix blocks)) = Ok ix').
Proof.
  intros (B & k & N & Hc & HB & HN & Hi)%index_run_ok. split_and!.
  - intros h n Hh Hn Hin. apply (cf3_has_in db B) in Hin; [|done..].
    destruct (candidates_ok k N ix h) as (l & Hl & _ & Hf & _); [by destruct Hi|]. exists l. auto.
  - intros blocks Hbl. pose proof (note_run crc32 U U_size U_range k N B ix blocks Hi Hbl) as Hi1.
    destruct (committed_ok _ _ _ _ Hi1) as (ix' & ? & _); [by apply union_mono_l|eauto].
  - intros blocks h n Hbl Hh Hn Hin.
    destruct (reopen_ok db ix db B B k N blocks) as (ix' & ? & _); try done; [|eauto].
    intros ->. by apply (elem_of_empty (C := gset (H256 * u32)) (h, n)), (cf3_has_in db).
Qed.
End recovery.

(** *** Example: a database with one block *)

Definition ex_blocks : gset (H256 * u32) := {[ (ex_hash 3, 5) ]}.

Lemma ex_blocks_range h n : (h, n) ∈ ex_blocks -> is_u256 h /\ is_u32 n.
Proof. intros Hb%elem_of_singleton. injection Hb as -> ->. split; in_range. Qed.

Lemma ex_empty_cf3 : cf3 mem_kv_empty ∅.
Proof.
  split; [done| |].
  - intros k v. split; [done|]. intros (b & Hb & _). by apply elem_of_empty in Hb.
  - intros h n Hb. by apply elem_of_empty in Hb.
Qed.

(** Writing one block to an empty CF 3. *)
Lemma ex_written : exists db, db_write (E := unit) mem_kv_empty
    [OpPut BlockNumToBlockHash (encode_block_num 5) (h256_bytes (ex_hash 3))] = (Ok tt, db) /\ cf3 db ex_blocks.
Proof.
  destruct (rk_write (E := unit) mem_kv_empty [OpPut BlockNumToBlockHash (encode_block_num 5) (h256_bytes (ex_hash 3))])
    as (db & Hw & Hok & Hcon & _); [done|].
  exists db. split; [done|]. split; [done| |apply ex_blocks_range].
  intros k v. rewrite Hcon. cbn [fold_left op_contents]. case_decide as Hk.
  - destruct Hk as [_ <-]. split.
    + intros [= <-]. exists (ex_hash 3, 5). split; [by apply elem_of_singleton|done].
    + intros (b & ->%elem_of_singleton & Heq). unfold enc_block, fst, snd in Heq. congruence.
  - split; [done|]. intros (b & ->%elem_of_singleton & Heq). unfold enc_block, fst, snd in Heq.
    exfalso. apply Hk. split; congruence.
Qed.

Lemma index_survives_restarts_witness :
  exists (db : MemKv) ix l, index_run (E := unit) (H2 := test_config) (fun _ => 0) ex_blocks db ix /\
    cf3_has db (ex_hash 3) 5 /\ candidates ix (ex_hash 3) = Some l /\ 5 ∈ l.
Proof.
  assert (Hcrc : forall b : bytes, is_u32 0) by (intros _; in_range).
  assert (Hsz : Z.of_nat (size ex_blocks) < 2 ^ 32) by (by vm_compute).
  assert (Hbl : list_to_set (C := gset (H256 * u32)) [(ex_hash 3, 5)] ⊆ ex_blocks) by (cbn; by rewrite (right_id_L ∅ (∪))).
  destruct ex_written as (db & _ & Hdb).
  destruct (open_run (E := unit) (H2 := test_config) (fun _ => 0) Hcrc ex_blocks Hsz ex_blocks_range mem_kv_empty ∅ None)
    as (ix0 & k & N & Ho & Hi & HN); [apply ex_empty_cf3|apply empty_subseteq|by left|done|].
  assert (Hrun0 : index_run (E := unit) (H2 := test_config) (fun _ => 0) ex_blocks mem_kv_empty ix0).
  { apply ir_new; [|done]. exists ∅. split; [apply ex_empty_cf3|apply empty_subseteq]. }
  destruct (index_survives_restarts (E := unit) (H2 := test_config) (fun _ => 0) ex_blocks Hcrc Hsz ex_blocks_range _ _ Hrun0)
    as (_ & Hcommit & _).
  destruct (Hcommit _ Hbl) as [ix1 Hix1].
  assert (Hhas : cf3_has db (ex_hash 3) 5) by (eapply cf3_has_of; [done|by apply elem_of_singleton]).
  assert (Hrun1 : index_run (E := unit) (H2 := test_config) (fun _ => 0) ex_blocks db ix1).
  { apply (ir_commit _ _ mem_kv_empty ix0 [(ex_hash 3, 5)] db ix1 Hrun0 Hbl); [exists ex_blocks; split; [exact Hdb|reflexivity]| |exact Hix1].
    intros h n Hh Hn Hin. right. apply (cf3_has_in db ex_blocks) in Hin; [|done..].
    apply elem_of_singleton in Hin. rewrite Hin. left. }
  destruct (index_survives_restarts (E := unit) (H2 := test_config) (fun _ => 0) ex_blocks Hcrc Hsz ex_blocks_range _ _ Hrun1)
    as (Hfind & _ & _).
  destruct (Hfind (ex_hash 3) 5) as (l & Hl & Hin); [in_range|in_range|exact Hhas|].
  exists db, ix1, l. exact (conj Hrun1 (conj Hhas (conj Hl Hin))).
Defined.

(** C14: the file a merge saves is read back as it was: whatever the index
    holds at that moment, [load] of what [save] wrote gives the same bucket
    bits, shards and last block. *)
Theorem index_file_roundtrip {E} crc32 k ix m B n h :
  (forall b, is_u32 (crc32 b)) -> index_steps crc32 k (ix, m) B -> is_u32 n -> is_u256 h ->
  load (E := E) crc32 (Some (save crc32 (ix_shards ix) n h)) = Ok (Some (k, ix_shards ix, (n, h))).
Proof.
  intros Hcrc [Hi _]%index_steps_inv Hn Hh. destruct (index_inv_wf _ _ _ Hi) as [Hwf Htot].
  destruct Hi. by apply load_save.
Qed.

Lemma index_file_roundtrip_witness :
  load (E := unit) (fun _ => 0) (Some (save (fun _ => 0) (ix_shards ex_empty_index) 3 4)) =
    Ok (Some (0, ix_shards ex_empty_index, (3, 4))).
Proof.
  apply (index_file_roundtrip (fun _ => 0) 0 ex_empty_index None ∅); [intros _; in_range| |in_range|in_range].
  apply steps_start; [by apply empty_index_inv|done].
Defined.
