(* ===== verification/Archive.v ===== *)
(** * The archive database: types and reads
    (crates/leafage-evm-storage/src/db_impl/rocksdb_impl/archive/{mod,udt,block_index}.rs)

    [DataBaseRef] is the open database with its caches and block index;
    [StateDB] is a read handle on one block. A read goes through the caches, so
    it returns the database it leaves. A handle's iterators read the database
    as it was when they were created: [sd_iterators] is that database, absent
    under schema v3 and once the iterator tracker has timed the handle out.
    RLP and JSON are dependencies: the codecs are classes. *)

From stdpp Require Import prelude gmap list sorting strings.
From S2P Require Import Prelude Types QuickCache KvStore ArchiveEncoding StateCache BlockIndex.

#[local] Open Scope Z_scope.
#[local] Open Scope state_scope.

(** ** Codecs and configuration *)

(** RLP of [SlimAccount]; [decode] failing is a panic in the source. *)
Class SlimCodec := {
  slim_encode : SlimAccount -> bytes;
  slim_decode : bytes -> option SlimAccount;
}.

Class SlimCodecOk `{SlimCodec} : Prop := {
  slim_roundtrip a : is_u256 (sa_balance a) -> is_u64 (sa_nonce a) -> is_u256 (sa_code_hash a) ->
    slim_decode (slim_encode a) = Some a;
  (** An RLP list is never empty. *)
  slim_nonempty a : slim_encode a <> [];
}.

(** The parts of a stored block info: [encode_header] is the RLP header,
    [encode_other] the JSON of the other fields, empty when there are none;
    [decode_header] gives the block of the header and what follows it
    ([decode_archive_header]), [header_number] the number in a header, stored
    as JSON or as RLP, [add_other] fills in the other fields, or their
    default when they do not parse. *)
Class BlockCodec (E : Type) := {
  encode_header : BlockInfo -> bytes;
  encode_other : BlockInfo -> Res (Error E) bytes;
  decode_header : H256 -> bytes -> Res (Error E) (BlockInfo * bytes);
  header_number : bool -> bytes -> Res (Error E) u64;
  add_other : BlockInfo -> bytes -> BlockInfo;
}.

(** The process-wide encoding flag, the CRC of the block index file, and the
    sizes of the index. *)
Class ArchiveConfig := {
  inverted_block_encoding : bool;
  crc32 : bytes -> u32;
  archive_index_config :: IndexConfig;
}.

(** [ArchiveSchema] of udt.rs. *)
Inductive ArchiveSchema := V1 | V2 | V3.

Definition schema_inverted (s : ArchiveSchema) : bool :=
  match s with V1 => false | _ => true end.

Definition KECCAK256_EMPTY : H256 :=
  0xc5d2460186f7233c927e7db2dcc703c0e500b653ca82273b7bfad8045d85a470.

(** Fewer pending keys than this are read one by one. *)
Definition MIN_MULTIGET_KEYS : nat := 8.

(** [&bytes[from..to]]. *)
Definition slice {E} (bs : bytes) (from to : nat) : Res E bytes :=
  if decide (from <= to /\ to <= length bs)%nat then Ok (take (to - from) (drop from bs)) else Panic.

(** ** Values *)

Section values.
Context {E : Type} `{SlimCodec}.

Definition encode_slim_account (account : NewAccount) : bytes := slim_encode (slim_of_new account).

Definition decode_cached_account (raw : bytes) : Res (Error E) (option CachedAccount) :=
  match raw with
  | [] => Ok None
  | _ =>
      account ← unwrap (slim_decode raw);
      Ok (Some (mkCachedAccount (sa_balance account) (sa_nonce account)
        (if decide (sa_code_hash account = 0) then KECCAK256_EMPTY else sa_code_hash account)))
  end.

Definition decode_account (address : H256) (raw : bytes) : Res (Error E) (option NewAccount) :=
  account ← decode_cached_account raw;
  Ok (option_map (fun a => with_address a address) account).

Context `{BlockCodec E}.

(** The value [write_block_info] stores. *)
Definition encode_block_info (info : BlockInfo) : Res (Error E) bytes :=
  other ← encode_other info;
  Ok (encode_header info ++ other).

Definition decode_block_info (hash : H256) (buf : bytes) : Res (Error E) BlockInfo :=
  '(info, rest) ← decode_header hash buf;
  Ok (match rest with [] => info | _ => add_other info rest end).
End values.

(** ** State *)

Record DataBaseRef (K : Type) (C : Type -> Type -> Type) := mkDataBaseRef {
  dr_db : K;
  dr_code_cache : option (C H256 bytes);
  dr_block_info_cache : option (C H256 BlockInfo);
  dr_block_index : option BlockIndex;
  dr_state_cache : option (StateCache C);
  dr_udt : bool;
}.
Arguments mkDataBaseRef {K C}.
Arguments dr_db {K C}.
Arguments dr_code_cache {K C}.
Arguments dr_block_info_cache {K C}.
Arguments dr_block_index {K C}.
Arguments dr_state_cache {K C}.
Arguments dr_udt {K C}.

Record StateDB (K : Type) := mkStateDB {
  sd_block_num : u64;
  sd_block_info : option BlockInfo;
  sd_iterators : option K;
  sd_cache_view : option ReadView;
  (** [timed_out]: what [check_timeout] reads. *)
  sd_timed_out : bool;
  sd_udt : bool;
}.
Arguments mkStateDB {K}.
Arguments sd_block_num {K}.
Arguments sd_block_info {K}.
Arguments sd_iterators {K}.
Arguments sd_cache_view {K}.
Arguments sd_timed_out {K}.
Arguments sd_udt {K}.

Section setters.
Context {K : Type} {C : Type -> Type -> Type}.
Implicit Types d : DataBaseRef K C.

Definition set_db d x : DataBaseRef K C := mkDataBaseRef x (dr_code_cache d) (dr_block_info_cache d) (dr_block_index d) (dr_state_cache d) (dr_udt d).
Definition set_code_cache d x : DataBaseRef K C := mkDataBaseRef (dr_db d) x (dr_block_info_cache d) (dr_block_index d) (dr_state_cache d) (dr_udt d).
Definition set_block_info_cache d x : DataBaseRef K C := mkDataBaseRef (dr_db d) (dr_code_cache d) x (dr_block_index d) (dr_state_cache d) (dr_udt d).
Definition set_block_index d x : DataBaseRef K C := mkDataBaseRef (dr_db d) (dr_code_cache d) (dr_block_info_cache d) x (dr_state_cache d) (dr_udt d).
Definition set_state_cache d x : DataBaseRef K C := mkDataBaseRef (dr_db d) (dr_code_cache d) (dr_block_info_cache d) (dr_block_index d) x (dr_udt d).
End setters.

(** ** Reads on [DataBaseRef] *)

Section reads.
Context {K E : Type} `{RocksDB K E} {C : Type -> Type -> Type} `{QuickCache C}.
Context `{SlimCodec} `{BlockCodec E} `{ArchiveConfig}.
Implicit Types (d : DataBaseRef K C) (h : StateDB K).

Definition read_block_hash d (block_num : u64) : Res (Error E) H256 :=
  found ← rocks (db_get (dr_db d) BlockNumToBlockHash (encode_block_num block_num));
  match found with
  | None => Ok 0
  | Some hash => h256_from_slice hash
  end.

Definition read_block_info_from_db d (block_hash : H256) : Res (Error E) (option BlockInfo) :=
  found ← rocks (db_get (dr_db d) BlockHashToBlockInfo (h256_bytes block_hash));
  match found with
  | None => Ok None
  | Some raw => info ← decode_block_info block_hash raw; Ok (Some info)
  end.

(** The loop of [read_block_info_by_number] over the candidates. *)
Fixpoint first_candidate d (hash : H256) (numbers : list u64) : Res (Error E) (option BlockInfo) :=
  match numbers with
  | [] => Ok None
  | number :: rest =>
      record ← rocks (db_get (dr_db d) BlockNumToBlockInfo (index_key number));
      match record with
      | Some r =>
          if decide (take 32 r = h256_bytes hash) then
            info ← decode_block_info hash (drop 32 r); Ok (Some info)
          else first_candidate d hash rest
      | None => first_candidate d hash rest
      end
  end.

Definition read_block_info_by_number d (index : BlockIndex) (hash : H256) : Res (Error E) (option BlockInfo) :=
  numbers ← unwrap (candidates index hash);
  first_candidate d hash numbers.

Definition read_block_info d (block_hash : H256) : Res (Error E) (option BlockInfo) * DataBaseRef K C :=
  match match dr_block_info_cache d with Some cache => qc_get cache block_hash | None => None end with
  | Some info => (Ok (Some info), d)
  | None =>
      let! (info, d) :=
        (match dr_block_index d with
         | Some index => read_block_info_by_number d index block_hash
         | None => read_block_info_from_db d block_hash
         end, d) in
      match dr_block_info_cache d, info with
      | Some cache, Some i => (Ok info, set_block_info_cache d (Some (qc_insert cache block_hash i)))
      | _, _ => (Ok info, d)
      end
  end.

Definition read_latest_block_hash d : Res (Error E) H256 :=
  found ← rocks (db_get (dr_db d) LatestBlockHash [1]);
  match found with
  | None => Ok 0
  | Some hash => h256_from_slice hash
  end.

Definition read_code d (code_hash : H256) : Res (Error E) (option bytes) * DataBaseRef K C :=
  match match dr_code_cache d with Some cache => qc_get cache code_hash | None => None end with
  | Some code => (Ok (Some code), d)
  | None =>
      let! (found, d) := (rocks (db_get (dr_db d) HashToCode (h256_bytes code_hash)), d) in
      match found with
      | None => (Ok None, d)
      | Some code =>
          (Ok (Some code),
           match dr_code_cache d with
           | Some cache => set_code_cache d (Some (qc_insert cache code_hash code))
           | None => d
           end)
      end
  end.

(** A loop that threads the database. *)
Fixpoint map_state {A B} (f : DataBaseRef K C -> A -> Res (Error E) B * DataBaseRef K C) d (l : list A)
    : Res (Error E) (list B) * DataBaseRef K C :=
  match l with
  | [] => (Ok [], d)
  | x :: rest =>
      let! (y, d) := f d x in
      let! (ys, d) := map_state f d rest in
      (Ok (y :: ys), d)
  end.

(** Fill the [None]s of [out], in order, with [found]. *)
Fixpoint fill_misses {A} (out : list (option A)) (found : list (option A)) : list (option A) :=
  match out with
  | [] => []
  | Some x :: rest => Some x :: fill_misses rest found
  | None :: rest =>
      match found with
      | y :: found' => y :: fill_misses rest found'
      | [] => None :: fill_misses rest []
      end
  end.

(** The hashes of the entries that missed. *)
Fixpoint pending_of {A B} (keys : list A) (out : list (option B)) : list A :=
  match keys, out with
  | k :: keys', None :: out' => k :: pending_of keys' out'
  | _ :: keys', Some _ :: out' => pending_of keys' out'
  | _, _ => []
  end.

(** One result of the multi-get: returned, and cached if there is a code. *)
Definition take_code d (r : H256 * Res E (option bytes)) : Res (Error E) (option bytes) * DataBaseRef K C :=
  let! (code, d) := (rocks r.2, d) in
  (Ok code,
   match dr_code_cache d, code with
   | Some cache, Some x => set_code_cache d (Some (qc_insert cache r.1 x))
   | _, _ => d
   end).

Definition read_code_many d (hashes : list H256) : Res (Error E) (list (option bytes)) * DataBaseRef K C :=
  let out := map (fun hash => match dr_code_cache d with Some cache => qc_get cache hash | None => None end) hashes in
  let pending := pending_of hashes out in
  if decide (length pending < MIN_MULTIGET_KEYS)%nat then
    let! (found, d) := map_state read_code d pending in
    (Ok (fill_misses out found), d)
  else
    let! (found, d) := map_state take_code d
      (map (fun hash => (hash, db_get (dr_db d) HashToCode (h256_bytes hash))) pending) in
    (Ok (fill_misses out found), d).

Definition read_latest_block_num d : Res (Error E) (option u64) * DataBaseRef K C :=
  let! (latest_hash, d) := (read_latest_block_hash d, d) in
  if decide (latest_hash = 0) then (Ok None, d)
  else
    let! (info, d) := read_block_info d latest_hash in
    (Ok (option_map bi_number info), d).

(** ** Opening a handle *)

(** The head is taken before the iterators are created. *)
Definition new_state_iterators d (block_num : u64) : option K * option ReadView :=
  let view := match dr_state_cache d with Some cache => cache_view cache block_num | None => None end in
  (if dr_udt d then None else Some (dr_db d), view).

Definition new_handle d (block_num : u64) (info : option BlockInfo) : StateDB K :=
  let '(iterators, view) := new_state_iterators d block_num in
  mkStateDB block_num info iterators view false (dr_udt d).

Definition db_at d (block_id : BlockId) : Res (Error E) (option (StateDB K)) * DataBaseRef K C :=
  match block_id with
  | ById hash =>
      let! (info, d) := read_block_info d hash in
      match info with
      | None => (Ok None, d)
      | Some i => (Ok (Some (new_handle d (bi_number i) (Some i))), d)
      end
  | ByNumber Latest | ByNumber Pending =>
      let! (latest_hash, d) := (read_latest_block_hash d, d) in
      let! (info, d) := (if decide (latest_hash = 0) then (Ok None, d) else read_block_info d latest_hash) in
      match info with
      | Some i => (Ok (Some (new_handle d (bi_number i) (Some i))), d)
      | None => (Ok (Some (new_handle d 0 None)), d)
      end
  | ByNumber (Number num) =>
      let! (block_hash, d) := (read_block_hash d num, d) in
      if decide (block_hash = 0) then (Ok None, d)
      else
        let! (info, d) := read_block_info d block_hash in
        match info with
        | None => (Ok None, d)
        | Some i => (Ok (Some (new_handle d num (Some i))), d)
        end
  | _ => (Err (UnsupportedBlockId block_id), d)
  end.

(** [StateDB::clone]. *)
Definition clone_handle d h : StateDB K := new_handle d (sd_block_num h) (sd_block_info h).

(** What the iterator tracker does to a handle it times out. *)
Definition time_out h : StateDB K :=
  mkStateDB (sd_block_num h) (sd_block_info h) None (sd_cache_view h) true (sd_udt h).

Definition check_timeout h : Res (Error E) unit :=
  if sd_timed_out h then Err (IteratorTimedOut (sd_block_num h)) else Ok tt.

(** ** Versioned reads *)

(** [UdtReader::get] of a reader at [block]. *)
Definition udt_get d (block : u64) (col : StorageTypeColumn) (key : bytes) : Res (Error E) (option (u64 * bytes)) :=
  rocks (db_get_ts (dr_db d) col key block).

(** [UdtReader::get_many]: in input order, one by one or as a multi-get. *)
Definition udt_get_many d (block : u64) (col : StorageTypeColumn) (keys : list bytes)
    : Res (Error E) (list (option (u64 * bytes))) :=
  mapM (udt_get d block col) keys.

(** Seek the greatest version of [prefix] at or below [block_num]: the key and
    value the iterator lands on. *)
Definition seek_version (iter : K) (col : StorageTypeColumn) (key : bytes) : Res (Error E) (option (bytes * bytes)) :=
  rocks (if inverted_block_encoding then db_seek iter col key else db_seek_for_prev iter col key).

(** [seek_account], with the key the iterator is left on. *)
Definition seek_account (iter : K) (address : H256) (block_num : u64)
    : Res (Error E) (option NewAccount * option (u64 * bytes)) :=
  let target_key := encode_account_key inverted_block_encoding address block_num in
  landed ← seek_version iter AddressToAccount target_key;
  match landed with
  | None => Ok (None, None)
  | Some (raw_key, raw) =>
      prefix ← slice raw_key 0 32;
      if decide (h256_bytes address <> prefix) then Ok (None, None)
      else
        tail ← slice raw_key 32 64;
        account ← decode_account address raw;
        Ok (account, Some (decode_version_tail inverted_block_encoding tail, raw_key))
  end.

(** [newer_version_bound] of the version at [current]. *)
Definition newer_version_bound (iter : K) (col : StorageTypeColumn) (current prefix : bytes) (block head : u64)
    : Res (Error E) (u64 * bool) :=
  match db_prev iter col current with
  | Ok (Some (raw, _)) =>
      if decide (length raw = length prefix + 32 /\ take (length prefix) raw = prefix)%nat then
        let before_next := saturating_sub (decode_version_tail inverted_block_encoding (drop (length prefix) raw)) 1 in
        if decide (before_next <= head) then Ok (Z.max before_next block, true) else Ok (head, false)
      else Ok (head, false)
  | Ok None => Ok (head, false)
  | Err _ => Ok (block, false)
  | Panic => Panic
  end.

(** [counted_probe]: whether a miss probes. *)
Definition counted_probe (p : Probe) : bool := match p with PYes => true | _ => false end.

(** The span a read of [version] and [value] at [block] starts from. *)
Definition read_span {V} (version : option u64) (block : u64) (value : V) : Span V :=
  mkSpan (default 0 version) block (bool_decide (is_Some version)) value.

(** [udt_record], on the table it records in. *)
Definition udt_record {V} d h (view : ReadView) (table : Table C V) (cached : option (Entry V))
    (col : StorageTypeColumn) (key : bytes) (span : Span V) : Res (Error E) (Table C V) :=
  '(span, newer) ←
    (if counted_probe (probe cached view (sd_block_num h) span) then
       found ← udt_get d (rv_head view) col key;
       match found with
       | Some (newest, _) =>
           if negb (sp_found span) || bool_decide (sp_lo span < newest) then Ok (span, Some newest)
           else Ok (set_hi span (rv_head view), None)
       | None => Ok (set_hi span (rv_head view), None)
       end
     else Ok (span, None));
  Ok (record_udt table key span newer).

(** The span a read under the v1 and v2 schemas records. *)
Definition probed_span {V} h (iter : K) (view : ReadView) (cached : option (Entry V)) (col : StorageTypeColumn)
    (prefix : bytes) (version : option (u64 * bytes)) (span : Span V) : Res (Error E) (Span V * bool) :=
  match version with
  | Some (_, current) =>
      if inverted_block_encoding && counted_probe (probe cached view (sd_block_num h) span) then
        '(hi, next_version_found) ← newer_version_bound iter col current prefix (sd_block_num h) (rv_head view);
        Ok (set_hi span hi, next_version_found)
      else Ok (span, false)
  | None => Ok (span, false)
  end.

(** The handle's state cache and view, when it has both. *)
Definition handle_cache d h : option (ReadView * StateCache C) :=
  match sd_cache_view h, dr_state_cache d with
  | Some view, Some cache => Some (view, cache)
  | _, _ => None
  end.

Definition iterators_of h : Res (Error E) K :=
  match sd_iterators h with
  | Some iter => Ok iter
  | None => Err (IteratorTimedOut (sd_block_num h))
  end.

(** A lookup in the handle's cache: the hit, or the entry that missed. *)
Definition cache_lookup {V} (cache : option (ReadView * StateCache C)) (table : StateCache C -> Table C V)
    (key : bytes) (block : u64) : Lookup V :=
  match cache with
  | Some (_, c) => lookup (table c) key block
  | None => Miss None
  end.

Definition read_storage_and_height d h (address key : H256) : Res (Error E) (U256 * option u64) * DataBaseRef K C :=
  let! (_, d) := (check_timeout h, d) in
  let slot_key := slot_prefix address key in
  let cache := handle_cache d h in
  match cache_lookup cache sc_storage slot_key (sd_block_num h) with
  | Hit span => (Ok (sp_value span, if sp_found span then Some (sp_lo span) else None), d)
  | Miss cached =>
      if sd_udt h then
        let! (found, d) := (udt_get d (sd_block_num h) AddressToStorage slot_key, d) in
        let value := match found with Some (_, raw) => decode_storage raw | None => 0 end in
        let version := option_map fst found in
        match cache with
        | Some (view, c) =>
            let! (t, d) := (udt_record d h view (sc_storage c) cached AddressToStorage slot_key
              (read_span version (sd_block_num h) value), d) in
            (Ok (value, version), set_state_cache d (Some (set_sc_storage c t)))
        | None => (Ok (value, version), d)
        end
      else
        let! (iter, d) := (iterators_of h, d) in
        let! (landed, d) := (seek_version iter AddressToStorage
          (encode_storage_key inverted_block_encoding address key (sd_block_num h)), d) in
        let! (r, d) :=
          (match landed with
           | Some (raw_key, raw) =>
               prefix ← slice raw_key 0 64;
               if decide (prefix = slot_key) then
                 tail ← slice raw_key 64 96;
                 Ok (decode_storage raw, Some (decode_version_tail inverted_block_encoding tail, raw_key))
               else Ok (0, None)
           | None => Ok (0, None)
           end, d) in
        let version := option_map fst r.2 in
        match cache with
        | Some (view, c) =>
            let! (sp, d) := (probed_span h iter view cached AddressToStorage slot_key r.2
              (read_span version (sd_block_num h) r.1), d) in
            (Ok (r.1, version),
             set_state_cache d (Some (set_sc_storage c (record (sc_storage c) slot_key sp.1 sp.2))))
        | None => (Ok (r.1, version), d)
        end
  end.

Definition read_storage d h (address key : H256) : Res (Error E) U256 * DataBaseRef K C :=
  let! (r, d) := read_storage_and_height d h address key in (Ok r.1, d).

Definition read_account d h (address : H256) : Res (Error E) (option NewAccount) * DataBaseRef K C :=
  let! (_, d) := (check_timeout h, d) in
  let cache := handle_cache d h in
  match cache_lookup cache sc_accounts (h256_bytes address) (sd_block_num h) with
  | Hit span => (Ok (option_map (fun a => with_address a address) (sp_value span)), d)
  | Miss cached =>
      if sd_udt h then
        let! (found, d) := (udt_get d (sd_block_num h) AddressToAccount (h256_bytes address), d) in
        let version := option_map fst found in
        let! (account, d) := (match found with Some (_, raw) => decode_account address raw | None => Ok None end, d) in
        match cache with
        | Some (view, c) =>
            let! (t, d) := (udt_record d h view (sc_accounts c) cached AddressToAccount (h256_bytes address)
              (read_span version (sd_block_num h) (option_map cached_of_new account)), d) in
            (Ok account, set_state_cache d (Some (set_sc_accounts c t)))
        | None => (Ok account, d)
        end
      else
        let! (iter, d) := (iterators_of h, d) in
        let! (r, d) := (seek_account iter address (sd_block_num h), d) in
        match cache with
        | Some (view, c) =>
            let! (sp, d) := (probed_span h iter view cached AddressToAccount (h256_bytes address) r.2
              (read_span (option_map fst r.2) (sd_block_num h) (option_map cached_of_new r.1)), d) in
            (Ok r.1,
             set_state_cache d (Some (set_sc_accounts c (record (sc_accounts c) (h256_bytes address) sp.1 sp.2))))
        | None => (Ok r.1, d)
        end
  end.

(** ** Batched reads *)

(** Fill the [None]s of [out], in order, with [values]. *)
Fixpoint fill_values {V} (blank : V) (out : list (option V)) (values : list V) : list V :=
  match out with
  | [] => []
  | Some v :: rest => v :: fill_values blank rest values
  | None :: rest =>
      match values with
      | v :: values' => v :: fill_values blank rest values'
      | [] => blank :: fill_values blank rest []
      end
  end.

(** The keys that missed, with their entries. *)
Fixpoint missed {V} (keys : list bytes) (looked : list (Lookup V)) : list (bytes * option (Entry V)) :=
  match keys, looked with
  | k :: keys', Miss cached :: looked' => (k, cached) :: missed keys' looked'
  | _ :: keys', Hit _ :: looked' => missed keys' looked'
  | _, _ => []
  end.

Section many.
Context {V : Type} (get : StateCache C -> Table C V) (put : StateCache C -> Table C V -> StateCache C).
Context (col : StorageTypeColumn) (decode : bytes -> Res (Error E) V).

(** One result of the batch, recorded as the scalar read records it. *)
Definition take_udt h d (r : bytes * option (Entry V) * option (u64 * bytes)) : Res (Error E) V * DataBaseRef K C :=
  let '(key, cached, found) := r in
  let! (value, d) := (decode (match found with Some (_, raw) => raw | None => [] end), d) in
  match handle_cache d h with
  | Some (view, c) =>
      let! (t, d) := (udt_record d h view (get c) cached col key
        (read_span (option_map fst found) (sd_block_num h) value), d) in
      (Ok value, set_state_cache d (Some (put c t)))
  | None => (Ok value, d)
  end.

Definition read_udt_many d h (keys : list bytes) : Res (Error E) (list V) * DataBaseRef K C :=
  let! (_, d) := (check_timeout h, d) in
  let! (blank, d) := (decode [], d) in
  let looked := map (fun key => cache_lookup (handle_cache d h) get key (sd_block_num h)) keys in
  let out := map (fun l => match l with Hit span => Some (sp_value span) | Miss _ => None end) looked in
  let pending := missed keys looked in
  match pending with
  | [] => (Ok (fill_values blank out []), d)
  | _ =>
      let! (found, d) := (udt_get_many d (sd_block_num h) col (map fst pending), d) in
      let! (values, d) := map_state (take_udt h) d (zip pending found) in
      (Ok (fill_values blank out values), d)
  end.
End many.

Definition read_account_many d h (addresses : list H256) : Res (Error E) (list (option NewAccount)) * DataBaseRef K C :=
  if sd_udt h then
    let! (accounts, d) := read_udt_many sc_accounts set_sc_accounts AddressToAccount decode_cached_account d h
      (map h256_bytes addresses) in
    (Ok (zip_with (fun address account => option_map (fun a => with_address a address) account) addresses accounts), d)
  else map_state (fun d address => read_account d h address) d addresses.

Definition read_storage_many d h (keys : list (H256 * H256)) : Res (Error E) (list U256) * DataBaseRef K C :=
  if sd_udt h then
    read_udt_many sc_storage set_sc_storage AddressToStorage (fun raw => Ok (decode_storage raw)) d h
      (map (fun k => slot_prefix k.1 k.2) keys)
  else map_state (fun d k => read_storage d h k.1 k.2) d keys.

(** ** The slots of an account *)

(** One turn of the loop of [storage_slots], with the iterator [slot_iter]. *)
Definition slots_step h (slot_iter : K) (address : H256)
    (st : DataBaseRef K C * list (H256 * U256) * option U256)
    : (DataBaseRef K C * list (H256 * U256) * option U256) +
      (Res (Error E) (list (H256 * U256)) * DataBaseRef K C) :=
  let '(d, slots, from) := st in
  match from with
  | None => inr (Ok slots, d)
  | Some start =>
      match db_seek_total slot_iter AddressToStorage (h256_bytes address ++ be_bytes 32 start ++ replicate 32 0) with
      | Ok (Some (raw_key, _)) =>
          match slice raw_key 0 32, slice raw_key 32 64 with
          | Ok prefix, slot =>
              if decide (prefix = h256_bytes address) then
                match slot with
                | Ok slot =>
                    match read_storage d h address (from_be slot) with
                    | (Ok value, d) =>
                        inl (d, if decide (value = 0) then slots else slots ++ [(from_be slot, value)],
                          checked_add u256_max (from_be slot) 1)
                    | (Err e, d) => inr (Err e, d)
                    | (Panic, d) => inr (Panic, d)
                    end
                | Err e => inr (Err e, d)
                | Panic => inr (Panic, d)
                end
              else inr (Ok slots, d)
          | Err e, _ => inr (Err e, d)
          | Panic, _ => inr (Panic, d)
          end
      | Ok None => inr (Ok slots, d)
      (* An invalid iterator ends the listing, whatever its status. *)
      | Err _ => inr (Ok slots, d)
      | Panic => inr (Panic, d)
      end
  end.

(** [udt::storage_slots]. *)
Definition udt_storage_slots d (address : H256) (block : u64) : Res (Error E) (list (H256 * U256)) :=
  listed ← rocks (db_scan_ts (dr_db d) AddressToStorage block (h256_bytes address)
    (key_after_prefix (h256_bytes address)));
  slots ← mapM (fun kv : bytes * bytes =>
    let value := decode_storage kv.2 in
    if decide (value = 0) then Ok None else slot ← slice kv.1 32 64; Ok (Some (from_be slot, value))) listed;
  Ok (omap id slots).

(** [storage_slots]: each turn moves past a slot, so [2 ^ 257] turns are
    enough. *)
Definition storage_slots d h (address : H256) : Res (Error E) (list (H256 * U256)) * DataBaseRef K C :=
  if sd_udt h then (udt_storage_slots d address (sd_block_num h), d)
  else
    match loop_pow 257 (slots_step h (dr_db d) address) (d, [], Some 0) with
    | inr r => r
    | inl (d, _, _) => (Panic, d)
    end.

(** ** [StateDBRead for StateDB]: the methods on blocks *)

Definition sd_read_block_hash d h (block_num : u64) : Res (Error E) H256 :=
  match sd_block_info h with
  | Some info => if decide (block_num = sd_block_num h) then Ok (bi_hash info) else read_block_hash d block_num
  | None => read_block_hash d block_num
  end.

Definition sd_read_block_info d h (block_hash : H256) : Res (Error E) (option BlockInfo) * DataBaseRef K C :=
  match sd_block_info h with
  | Some info => if decide (block_hash = bi_hash info) then (Ok (Some info), d) else read_block_info d block_hash
  | None => read_block_info d block_hash
  end.

Definition sd_read_latest_block_hash d h : Res (Error E) H256 :=
  match sd_block_info h with
  | Some info => Ok (bi_hash info)
  | None => read_latest_block_hash d
  end.

Definition read_storage_slots d h (address : H256) : Res (Error E) (option (list (H256 * U256))) * DataBaseRef K C :=
  let! (slots, d) := storage_slots d h address in (Ok (Some slots), d).
End reads.
