(* ===== verification/ArchiveReads.v ===== *)
(** * The archive database: what reads find

    The reference for a versioned read is [KvStore.newest]: look at each block
    from the handle's down to the first. The lemmas here show that the seeks of
    schemas v1 and v2, the timestamped gets of v3 and the state cache of both
    find exactly that, for one key, for a batch, and for the slots of an
    account, and that what the reads record in the cache stays right. *)

From stdpp Require Import prelude gmap list sorting strings.
From S2P Require Import Prelude Types QuickCache KvStore ArchiveEncoding StateCache BlockIndex Archive.

#[local] Open Scope Z_scope.
#[local] Open Scope state_scope.

(** ** Versions *)

(** What a read makes of the newest version: the version and the value. *)
Definition value_of {V} (dec : bytes -> V) (r : option (u64 * bytes)) : option u64 * V :=
  (option_map fst r, dec (match r with Some (_, raw) => raw | None => [] end)).

Definition versioned (col : StorageTypeColumn) : Prop := col = AddressToAccount \/ col = AddressToStorage.

Definition key_wf (col : StorageTypeColumn) (p : bytes) : Prop :=
  length p = prefix_len col /\ Forall is_u8 p.

Section versions.
Context {K : Type} `{RocksDBSpec K} `{SlimCodec} `{ArchiveConfig}.

(** The value of a key's version at block [n]. *)
Definition version_at (udt : bool) (db : K) (col : StorageTypeColumn) (p : bytes) (n : u64) : option bytes :=
  if udt then kv_versions db col p n else kv_contents db col (version_key inverted_block_encoding p n).

(** The account a value stands for. *)
Definition account_value (raw : bytes) : option CachedAccount :=
  match raw with
  | [] => None
  | _ => option_map (fun a => mkCachedAccount (sa_balance a) (sa_nonce a)
           (if decide (sa_code_hash a = 0) then KECCAK256_EMPTY else sa_code_hash a)) (slim_decode raw)
  end.

Definition account_at (udt : bool) (db : K) (key : bytes) (n : u64) : option u64 * option CachedAccount :=
  value_of account_value (newest (version_at udt db AddressToAccount key) n).

Definition storage_at (udt : bool) (db : K) (key : bytes) (n : u64) : option u64 * U256 :=
  value_of decode_storage (newest (version_at udt db AddressToStorage key) n).

(** A database of one schema: its versioned columns hold only keys of their
    form, and accounts that decode. *)
Record db_ok (udt : bool) (db : K) : Prop := {
  do_kv : kv_ok db;
  do_plain col k : udt = false -> versioned col -> is_Some (kv_contents db col k) ->
    exists p n, key_wf col p /\ is_u64 n /\ k = version_key inverted_block_encoding p n;
  do_ts col k n : udt = true -> versioned col -> is_Some (kv_versions db col k n) -> key_wf col k;
  do_account p n raw : is_u64 n -> version_at udt db AddressToAccount p n = Some raw ->
    raw = [] \/ is_Some (slim_decode raw);
}.
End versions.

(** No version in [(n, hi]]: a read at [n] is right for every block of its span. *)
Lemma newest_const f n hi m :
  is_u64 n -> is_u64 m -> (forall b, is_u64 b -> n < b <= hi -> f b = None) ->
  default 0 (option_map fst (newest f n)) <= m <= hi -> newest f m = newest f n.
Proof.
  intros Hn Hm Hnone Hr. apply newest_unique; [done|]. pose proof (newest_ok f n Hn) as Hnew.
  destruct (decide (n <= m)) as [Hle|Hgt].
  - eapply latest_le_raise; [done..|]. intros b Hb Hbm. apply Hnone; [done|lia].
  - destruct (newest f n) as [[b v]|].
    + eapply latest_le_lower; [done|]. cbn in Hr. lia.
    + eapply latest_le_lower_None; [done|lia].
Qed.

(** The span a read starts from, raised to any bound without a newer version. *)
Lemma read_span_ok {V} (dec : bytes -> V) f n hi head :
  is_u64 n -> n <= hi <= head -> (forall b, is_u64 b -> n < b <= hi -> f b = None) ->
  let r := value_of dec (newest f n) in
  span_ok (fun m => value_of dec (newest f m)) head (set_hi (read_span r.1 n r.2) hi).
Proof.
  intros Hn Hhi Hnone r. pose proof (newest_ok f n Hn) as Hnew.
  assert (Hlo : is_u64 (sp_lo (read_span r.1 n r.2)) /\ sp_lo (read_span r.1 n r.2) <= n).
  { unfold r. destruct (newest f n) as [[b v]|]; cbn in *; [by destruct Hnew as (? & ? & _)|].
    unfold is_u64 in *. lia. }
  split; [by apply Hlo|]. split; [cbn in *; lia|]. intros m Hm Hr. cbn in Hr.
  rewrite (newest_const f n hi m) by done. unfold r. by destruct (newest f n) as [[b v]|].
Qed.

Section reads.
Context {K E : Type} `{RocksDBOk K E} {C : Type -> Type -> Type} `{QuickCacheOk C}.
Context `{SlimCodec} `{BlockCodec E} `{ArchiveConfig}.
Implicit Types (d : DataBaseRef K C) (h : StateDB K) (db : K).

(** ** Seeking a version (schemas v1 and v2) *)

Lemma same_prefix_take col p n k :
  key_wf col p -> same_prefix col (version_key inverted_block_encoding p n) k <-> p = take (prefix_len col) k.
Proof. intros [Hl _]. unfold same_prefix. rewrite <- Hl at 1. by rewrite version_key_take. Qed.

(** A present key with the prefix [p] is one of [p]'s versions. *)
Lemma plain_key db col p k :
  db_ok false db -> versioned col -> key_wf col p -> is_Some (kv_contents db col k) ->
  p = take (prefix_len col) k -> exists b, is_u64 b /\ k = version_key inverted_block_encoding p b.
Proof.
  intros Hdb Hc [Hl _] Hk Hp. destruct (do_plain _ _ Hdb col k eq_refl Hc Hk) as (p' & b & [Hl' _] & Hb & ->).
  exists b. split; [done|]. rewrite <- Hl', version_key_take in Hp. by subst.
Qed.

Lemma plain_key_length db col k :
  db_ok false db -> versioned col -> is_Some (kv_contents db col k) -> length k = (prefix_len col + 32)%nat.
Proof.
  intros Hdb Hc Hk. destruct (do_plain _ _ Hdb col k eq_refl Hc Hk) as (p & b & [Hl _] & Hb & ->).
  unfold version_key. by rewrite length_app, length_tail, Hl.
Qed.

Lemma version_key_le p a b :
  is_u64 a -> is_u64 b ->
  (version_key inverted_block_encoding p a ≤ version_key inverted_block_encoding p b)%bytes <->
  if inverted_block_encoding then b <= a else a <= b.
Proof.
  intros Ha Hb. unfold bytes_le. rewrite version_key_cmp by done.
  destruct inverted_block_encoding; [rewrite <- Z.compare_le_iff|]; done.
Qed.

Lemma version_key_lt p a b :
  is_u64 a -> is_u64 b ->
  (version_key inverted_block_encoding p a < version_key inverted_block_encoding p b)%bytes <->
  if inverted_block_encoding then b < a else a < b.
Proof.
  intros Ha Hb. unfold bytes_lt. rewrite version_key_cmp by done.
  destruct inverted_block_encoding; by rewrite Z.compare_lt_iff.
Qed.

(** Where a seek to [p]'s version [n] lands: on the newest one up to [n], or,
    when there is none, not in the prefix. *)
Definition landed_on (db : K) (col : StorageTypeColumn) (p : bytes) (n : u64) (r : option (bytes * bytes)) : Prop :=
  match newest (version_at false db col p) n with
  | Some (b, v) => r = Some (version_key inverted_block_encoding p b, v)
  | None =>
      match r with
      | Some (k, _) => length k = (prefix_len col + 32)%nat /\ p <> take (prefix_len col) k
      | None => True
      end
  end.

Lemma landed_some db col p n b v :
  is_u64 n -> is_u64 b -> b <= n -> kv_contents db col (version_key inverted_block_encoding p b) = Some v ->
  (forall b', is_u64 b' -> b < b' <= n -> kv_contents db col (version_key inverted_block_encoding p b') = None) ->
  landed_on db col p n (Some (version_key inverted_block_encoding p b, v)).
Proof. intros. unfold landed_on. by rewrite (newest_unique _ _ (Some (b, v))). Qed.

Lemma landed_none db col p n r :
  is_u64 n ->
  (forall b, is_u64 b -> b <= n -> kv_contents db col (version_key inverted_block_encoding p b) = None) ->
  match r with
  | Some (k, _) => length k = (prefix_len col + 32)%nat /\ p <> take (prefix_len col) k
  | None => True
  end -> landed_on db col p n r.
Proof. intros. unfold landed_on. by rewrite (newest_unique _ _ None). Qed.

Lemma seek_version_ok db col p n :
  db_ok false db -> versioned col -> key_wf col p -> is_u64 n ->
  exists r, seek_version db col (version_key inverted_block_encoding p n) = Ok r /\ landed_on db col p n r.
Proof.
  intros Hdb Hc Hp Hn. unfold seek_version.
  set (t := version_key inverted_block_encoding p n).
  set (after := fun k => if inverted_block_encoding then (t ≤ k)%bytes else (k ≤ t)%bytes).
  assert (Hafter : forall b, is_u64 b -> after (version_key inverted_block_encoding p b) <-> b <= n).
  { intros b Hb. unfold after, t. pose proof (version_key_le p b n Hb Hn). pose proof (version_key_le p n b Hn Hb).
    by destruct inverted_block_encoding. }
  assert (exists r, (if inverted_block_encoding then db_seek db col t else db_seek_for_prev db col t) = Ok r /\
    match r with
    | Some (k, v) =>
        (kv_contents db col k = Some v /\ same_prefix col t k /\ after k /\
         forall k', is_Some (kv_contents db col k') -> same_prefix col t k' -> after k' ->
           if inverted_block_encoding then (k ≤ k')%bytes else (k' ≤ k)%bytes) \/
        (kv_contents db col k = Some v /\ ~ same_prefix col t k /\
         forall k', is_Some (kv_contents db col k') -> same_prefix col t k' -> ~ after k')
    | None => forall k', is_Some (kv_contents db col k') -> same_prefix col t k' -> ~ after k'
    end) as (r & -> & Hr).
  { unfold after. destruct inverted_block_encoding.
    - destruct (rk_seek db col t (do_kv _ _ Hdb)) as (r & -> & Hr). exists r. split; [done|].
      destruct r as [[k v]|]; exact Hr.
    - destruct (rk_seek_for_prev db col t (do_kv _ _ Hdb)) as (r & -> & Hr). exists r. split; [done|].
      destruct r as [[k v]|]; exact Hr. }
  exists r. split; [done|].
  assert (Hnone : (forall k', is_Some (kv_contents db col k') -> same_prefix col t k' -> ~ after k') ->
    forall b, is_u64 b -> b <= n -> kv_contents db col (version_key inverted_block_encoding p b) = None).
  { intros Hno b Hb Hbn. apply eq_None_not_Some. intros Hs. apply (Hno _ Hs).
    - apply same_prefix_take; [done|]. destruct Hp as [<- _]. by rewrite version_key_take.
    - by apply Hafter. }
  destruct r as [[k v]|]; [destruct Hr as [(Hk & Hpre & Haf & Hbest)|(Hk & Hpre & Hno)]|].
  - apply same_prefix_take in Hpre; [|done].
    destruct (plain_key db col p k) as (b & Hb & ->); [done..|by eexists|done|].
    apply landed_some; try done; [by apply Hafter|].
    intros b' Hb' Hr'. apply eq_None_not_Some. intros Hs.
    assert (Hle := Hbest _ Hs). specialize (Hle ltac:(apply same_prefix_take; [done|]; destruct Hp as [<- _]; by rewrite version_key_take)).
    specialize (Hle ltac:(apply Hafter; [done|lia])).
    pose proof (version_key_le p b b' Hb Hb') as H1'. pose proof (version_key_le p b' b Hb' Hb) as H2'.
    destruct inverted_block_encoding; [apply H1' in Hle|apply H2' in Hle]; lia.
  - apply landed_none; [done|by apply Hnone|]. split; [by eapply plain_key_length|].
    intros Heq. by apply Hpre, same_prefix_take.
  - apply landed_none; [done|by apply Hnone|done].
Qed.

(** ** The bound on the next version *)

Lemma newer_version_bound_ok db col p n b v head :
  db_ok false db -> versioned col -> key_wf col p -> is_u64 n -> inverted_block_encoding = true ->
  newest (version_at false db col p) n = Some (b, v) -> n <= head ->
  exists hi found, newer_version_bound db col (version_key inverted_block_encoding p b) p n head = Ok (hi, found) /\
    n <= hi <= head /\ forall b', is_u64 b' -> n < b' <= hi -> version_at false db col p b' = None.
Proof.
  intros Hdb Hc Hp Hn Hinv Hnew Hhead. unfold newer_version_bound.
  pose proof (newest_ok (version_at false db col p) n Hn) as Hb. rewrite Hnew in Hb.
  destruct Hb as (Hb & Hbn & Hv & Hmax).
  destruct (rk_prev db col (version_key inverted_block_encoding p b) (do_kv _ _ Hdb)) as (r & -> & Hr).
  assert (Hsame : forall b', same_prefix col (version_key inverted_block_encoding p b) (version_key inverted_block_encoding p b')).
  { intros b'. apply same_prefix_take; [done|]. destruct Hp as [<- _]. by rewrite version_key_take. }
  assert (Hlt : forall b', is_u64 b' -> n < b' -> (version_key inverted_block_encoding p b' < version_key inverted_block_encoding p b)%bytes).
  { intros b' Hb' Hnb. apply version_key_lt; [done..|]. rewrite Hinv. lia. }
  assert (Hno : last_upto (kv_contents db col) (same_prefix col (version_key inverted_block_encoding p b))
      (fun k => (k < version_key inverted_block_encoding p b)%bytes) None ->
    forall b', is_u64 b' -> n < b' <= head -> version_at false db col p b' = None).
  { intros Hnone b' Hb' Hr'. apply eq_None_not_Some. intros Hs. apply (Hnone _ Hs (Hsame b')). apply Hlt; [done|lia]. }
  destruct r as [[k v']|]; [destruct Hr as [(Hk & Hpre & Hkb & Hbest)|(Hk & Hpre & Hnone)]|].
  - apply same_prefix_take in Hpre; [|done].
    destruct (plain_key db col p k) as (b2 & Hb2 & ->); [done..|by eexists|done|].
    rewrite decide_True by (unfold version_key; split; [by rewrite length_app, length_tail|by rewrite take_app_length]).
    rewrite version_key_drop, decode_encode_tail by done.
    assert (b < b2) by (apply version_key_lt in Hkb; [by rewrite Hinv in Hkb|done..]).
    assert (n < b2).
    { destruct (decide (n < b2)); [done|]. unfold version_at in Hmax. rewrite (Hmax b2) in Hk; [done|done|lia]. }
    assert (Hgap : forall b', is_u64 b' -> n < b' <= b2 - 1 -> version_at false db col p b' = None).
    { intros b' Hb' Hr'. apply eq_None_not_Some. intros Hs.
      assert (Hle := Hbest _ Hs (Hsame b') ltac:(apply Hlt; [done|lia])).
      apply version_key_le in Hle; [|done..]. rewrite Hinv in Hle. lia. }
    assert (saturating_sub b2 1 = b2 - 1) as -> by (unfold saturating_sub, is_u64 in *; lia).
    case_decide; [exists (b2 - 1), true|exists head, false].
    + rewrite Z.max_l by lia. split_and!; [done|lia..|]. intros b' Hb' Hr'. apply Hgap; [done|lia].
    + split_and!; [done|lia..|]. intros b' Hb' Hr'. apply Hgap; [done|lia].
  - rewrite decide_False; [by exists head, false; split_and!; [done|lia..|apply Hno]|].
    intros [_ Heq]. apply Hpre, same_prefix_take; [done|]. destruct Hp as [Hl _]. rewrite <- Hl. by rewrite Heq.
  - by exists head, false; split_and!; [done|lia..|apply Hno].
Qed.

(** ** Databases and handles *)

(** The state cache tells the truth up to its head. *)
Definition state_cache_ok (udt : bool) db (c : StateCache C) : Prop :=
  is_u64 (sc_head c) /\
  table_ok (account_at udt db) (sc_head c) (sc_accounts c) /\
  table_ok (storage_at udt db) (sc_head c) (sc_storage c).

Record archive_ok d : Prop := {
  ao_db : db_ok (dr_udt d) (dr_db d);
  ao_cache c : dr_state_cache d = Some c -> state_cache_ok (dr_udt d) (dr_db d) c;
}.

(** The last block a handle's iterators must agree with the database on. *)
Definition seen h : u64 :=
  match sd_cache_view h with Some v => rv_head v | None => sd_block_num h end.

(** A handle that has not timed out. Its iterators show a database that agrees
    with the current one up to [seen]. *)
Record handle_ok d h : Prop := {
  ho_block : is_u64 (sd_block_num h);
  ho_live : sd_timed_out h = false;
  ho_udt : sd_udt h = dr_udt d;
  ho_view v c : sd_cache_view h = Some v -> dr_state_cache d = Some c -> sd_block_num h <= rv_head v <= sc_head c;
  ho_seen : sd_block_num h <= seen h;
  ho_iter : dr_udt d = false -> exists it, sd_iterators h = Some it /\ db_ok false it /\
    forall col p n, versioned col -> is_u64 n -> n <= seen h -> version_at false it col p n = version_at false (dr_db d) col p n;
}.

(** [d'] is [d] with other spans in its state cache. *)
Definition recached d d' : Prop :=
  d' = set_state_cache d (dr_state_cache d') /\
  option_map sc_head (dr_state_cache d') = option_map sc_head (dr_state_cache d).

Lemma recached_refl d : recached d d.
Proof. by destruct d. Qed.

Lemma recached_trans d d1 d2 : recached d d1 -> recached d1 d2 -> recached d d2.
Proof. intros [H1' H1h] [H2' H2h]. split; [|by rewrite H2h]. rewrite H2', H1'. done. Qed.

Lemma handle_recached d d' h : recached d d' -> handle_ok d h -> handle_ok d' h.
Proof.
  intros [Hd Hh] []. assert (dr_udt d' = dr_udt d /\ dr_db d' = dr_db d) as [Hu Hdb] by (rewrite Hd; done).
  split; try done; [congruence| |].
  - intros v c' Hv Hc'. rewrite Hc' in Hh. destruct (dr_state_cache d) as [c|] eqn:Hc; [|done].
    injection Hh as ->. by apply ho_view0.
  - rewrite Hu, Hdb. done.
Qed.

(** A changed table of the state cache. *)
Lemma recached_table d c c' :
  dr_state_cache d = Some c -> sc_head c' = sc_head c -> archive_ok d ->
  state_cache_ok (dr_udt d) (dr_db d) c' ->
  archive_ok (set_state_cache d (Some c')) /\ recached d (set_state_cache d (Some c')).
Proof.
  intros Hc Hh [Hdb _] Hok. split; [|split; [done|cbn; rewrite Hc; cbn; by rewrite Hh]].
  split; [done|]. cbn. by intros ? [= <-].
Qed.

(** ** Recording a read *)

Lemma udt_get_ok d n col key :
  kv_ok (dr_db d) -> is_u64 n -> udt_get d n col key = Ok (newest (kv_versions (dr_db d) col key) n).
Proof.
  intros Hkv Hn. unfold udt_get. destruct (rk_get_ts (dr_db d) col key n Hkv) as (r & -> & Hr). cbn.
  f_equal. symmetry. by apply newest_unique.
Qed.

Lemma udt_record_ok {V} (dec : bytes -> V) d h view (table : Table C V) cached col key head :
  let read_of key m := value_of dec (newest (kv_versions (dr_db d) col key) m) in
  let r := read_of key (sd_block_num h) in
  kv_ok (dr_db d) -> is_u64 (sd_block_num h) -> is_u64 head -> sd_block_num h <= rv_head view <= head ->
  table_ok read_of head table ->
  exists t, udt_record d h view table cached col key (read_span r.1 (sd_block_num h) r.2) = Ok t /\
    table_ok read_of head t.
Proof.
  intros read_of r Hkv Hn Hhd Hview Ht. set (n := sd_block_num h) in *.
  assert (is_u64 (rv_head view)) as Hvh by (unfold is_u64 in *; lia).
  pose proof (read_span_ok dec (kv_versions (dr_db d) col key) n) as Hspan.
  unfold udt_record. fold n. destruct (counted_probe _).
  - rewrite udt_get_ok by done. rewrite res_bind_ok.
    pose proof (newest_ok (kv_versions (dr_db d) col key) _ Hvh) as Hnew.
    pose proof (newest_ok (kv_versions (dr_db d) col key) _ Hn) as Hold.
    assert (Hraise : (forall b, is_u64 b -> n < b <= rv_head view -> kv_versions (dr_db d) col key b = None) ->
      table_ok read_of head (record_udt table key (set_hi (read_span r.1 n r.2) (rv_head view)) None)).
    { intros Hnone. apply fold_table_ok; [done|]. apply Hspan; [done|lia|done]. }
    destruct (newest _ (rv_head view)) as [[b' v']|].
    + destruct (negb _ || _) eqn:Hnb.
      * eexists. split; [done|]. apply fold_table_ok; [done|]. apply (Hspan n); [done|lia|lia].
      * eexists. split; [done|]. apply Hraise. apply orb_false_iff in Hnb as [Hf Hlt%bool_decide_eq_false].
        unfold r, read_of in Hf, Hlt. destruct (newest _ n) as [[b v]|]; [|done]. cbn in Hlt.
        intros b'' Hb'' Hr''. apply Hnew; [done|]. destruct Hold as (_ & ? & _). lia.
    + eexists. split; [done|]. apply Hraise. intros b' Hb' Hr'. apply Hnew; [done|lia].
  - eexists. split; [done|]. apply fold_table_ok; [done|]. apply (Hspan n); [done|lia|lia].
Qed.

Lemma probed_span_ok {V} (dec : bytes -> V) h it view (cached : option (Entry V)) col p head :
  let f := version_at false it col p in
  let r := value_of dec (newest f (sd_block_num h)) in
  db_ok false it -> versioned col -> key_wf col p -> is_u64 (sd_block_num h) ->
  sd_block_num h <= rv_head view <= head ->
  exists hi found, probed_span h it view cached col p
      (option_map (fun x => (fst x, version_key inverted_block_encoding p (fst x))) (newest f (sd_block_num h)))
      (read_span r.1 (sd_block_num h) r.2) = Ok (set_hi (read_span r.1 (sd_block_num h) r.2) hi, found) /\
    sd_block_num h <= hi <= rv_head view /\
    forall b, is_u64 b -> sd_block_num h < b <= hi -> f b = None.
Proof.
  intros f r Hdb Hc Hp Hn Hview. unfold probed_span. set (n := sd_block_num h) in *.
  destruct (newest f n) as [[b v]|] eqn:Hnew; cbn [option_map fst].
  2: { exists n, false. split; [done|]. split; lia. }
  destruct (inverted_block_encoding && _) eqn:Hprobe.
  2: { exists n, false. split; [done|]. split; lia. }
  apply andb_true_iff in Hprobe as [Hinv _].
  destruct (newer_version_bound_ok it col p n b v (rv_head view)) as (hi & found & Hb & Hhi & Hnone); [done..|lia|].
  rewrite Hb. exists hi, found. done.
Qed.

(** ** One key *)

Lemma handle_cache_Some d h view c :
  handle_cache d h = Some (view, c) -> sd_cache_view h = Some view /\ dr_state_cache d = Some c.
Proof. unfold handle_cache. destruct (sd_cache_view h), (dr_state_cache d); naive_solver. Qed.

Lemma slot_prefix_wf a k : key_wf AddressToStorage (slot_prefix a k).
Proof. split; [apply length_slot_prefix|]. apply Forall_app. split; apply be_bytes_byte. Qed.

Lemma h256_wf a : key_wf AddressToAccount (h256_bytes a).
Proof. split; [apply length_h256|apply be_bytes_byte]. Qed.

(** A table with a span added that is right in the database the iterators
    show is right in the current one. *)
Lemma record_ok {V} (dec : bytes -> V) d h it view col p (table : Table C V) hi found head :
  let read_of key m := value_of dec (newest (version_at false (dr_db d) col key) m) in
  let r := read_of p (sd_block_num h) in
  is_u64 (sd_block_num h) -> sd_block_num h <= hi <= rv_head view -> rv_head view <= head -> is_u64 head ->
  (forall n, is_u64 n -> n <= rv_head view -> version_at false it col p n = version_at false (dr_db d) col p n) ->
  (forall b, is_u64 b -> sd_block_num h < b <= hi -> version_at false it col p b = None) ->
  table_ok read_of head table ->
  table_ok read_of head (record table p (set_hi (read_span r.1 (sd_block_num h) r.2) hi) found).
Proof.
  intros read_of r Hn Hhi Hvh Hhd Hagree Hnone Ht. apply fold_table_ok; [done|].
  apply read_span_ok; [done|lia|]. intros b Hb Hr. rewrite <- Hagree by (done || lia). auto.
Qed.

Lemma iter_newest d h it col p :
  handle_ok d h ->
  (forall col p n, versioned col -> is_u64 n -> n <= seen h -> version_at false it col p n = version_at false (dr_db d) col p n) ->
  versioned col ->
  newest (version_at false it col p) (sd_block_num h) = newest (version_at false (dr_db d) col p) (sd_block_num h).
Proof.
  intros Ho Hagree Hc. apply newest_ext; [apply Ho|]. intros b Hb Hle. apply Hagree; [done..|].
  pose proof (ho_seen _ _ Ho). lia.
Qed.

Lemma slice_take {E'} (bs : bytes) n : (n <= length bs)%nat -> slice (E := E') bs 0 n = Ok (take n bs).
Proof. intros Hl. unfold slice. rewrite decide_True by lia. by rewrite Nat.sub_0_r. Qed.

Lemma slice_prefix {E'} inv p b n : length p = n -> slice (E := E') (version_key inv p b) 0 n = Ok p.
Proof.
  intros <-. rewrite slice_take by (unfold version_key; rewrite length_app; lia). by rewrite version_key_take.
Qed.

Lemma slice_tail {E'} inv p b n :
  length p = n -> slice (E := E') (version_key inv p b) n (n + 32) = Ok (encode_version_tail inv b).
Proof.
  intros <-. unfold slice. rewrite decide_True by (unfold version_key; rewrite length_app, length_tail; lia).
  rewrite version_key_drop, take_ge; [done|]. rewrite length_tail. lia.
Qed.

(** What a read makes of the entry its seek of a slot lands on. *)
Definition slot_of (a k : H256) (landed : option (bytes * bytes)) : Res (Error E) (U256 * option (u64 * bytes)) :=
  match landed with
  | Some (raw_key, raw) =>
      prefix ← slice raw_key 0 64;
      if decide (prefix = slot_prefix a k) then
        tail ← slice raw_key 64 96;
        Ok (decode_storage raw, Some (decode_version_tail inverted_block_encoding tail, raw_key))
      else Ok (0, None)
  | None => Ok (0, None)
  end.

(** A version and the key that holds it. *)
Definition with_key (p : bytes) (r : option (u64 * bytes)) : option (u64 * bytes) :=
  option_map (fun x => (fst x, version_key inverted_block_encoding p (fst x))) r.

Lemma landed_storage db a k n r :
  landed_on db AddressToStorage (slot_prefix a k) n r -> is_u64 n ->
  let f := version_at false db AddressToStorage (slot_prefix a k) in
  slot_of a k r = Ok ((value_of decode_storage (newest f n)).2, with_key (slot_prefix a k) (newest f n)).
Proof.
  intros Hl Hn f. unfold landed_on in Hl. fold f in Hl. pose proof (newest_ok f n Hn) as Hnew.
  destruct (newest f n) as [[b v]|]; unfold slot_of.
  - subst r. destruct Hnew as (Hb & _). rewrite slice_prefix by apply length_slot_prefix.
    rewrite res_bind_ok, decide_True by done. change 96%nat with (64 + 32)%nat.
    rewrite slice_tail by apply length_slot_prefix. by rewrite res_bind_ok, decode_encode_tail.
  - destruct r as [[k' v']|]; [|done]. destruct Hl as [Hlen Hne]. change (prefix_len AddressToStorage) with 64%nat in *.
    rewrite slice_take by lia. by rewrite res_bind_ok, decide_False.
Qed.

(** The seek of a slot, on the database as it is now. *)
Lemma seek_storage_ok d h a k :
  handle_ok d h -> dr_udt d = false ->
  let f := version_at false (dr_db d) AddressToStorage (slot_prefix a k) in
  exists it landed, iterators_of (E := E) h = Ok it /\ db_ok false it /\
    (forall n, is_u64 n -> n <= seen h -> version_at false it AddressToStorage (slot_prefix a k) n = f n) /\
    seek_version it AddressToStorage (encode_storage_key inverted_block_encoding a k (sd_block_num h)) = Ok landed /\
    slot_of a k landed = Ok ((value_of decode_storage (newest f (sd_block_num h))).2,
      with_key (slot_prefix a k) (newest f (sd_block_num h))).
Proof.
  intros Ho Hu f. destruct (ho_iter _ _ Ho Hu) as (it & Hit & Hdb & Hagree).
  assert (versioned AddressToStorage) as Hc by (by right). pose proof (ho_block _ _ Ho) as Hn.
  destruct (seek_version_ok it AddressToStorage (slot_prefix a k) (sd_block_num h)) as (landed & Hs & Hl);
    [done..|apply slot_prefix_wf|done|].
  exists it, landed. split; [unfold iterators_of; by rewrite Hit|]. split; [done|].
  split; [intros n; by apply Hagree|]. rewrite storage_version_key. split; [done|].
  rewrite (landed_storage it _ _ (sd_block_num h)) by done. unfold f. by rewrite (iter_newest d h it).
Qed.

(** What a read under schemas v1 and v2 records. *)
Lemma record_probed {V} (dec : bytes -> V) d h it view col p cached (table : Table C V) head :
  let read_of key m := value_of dec (newest (version_at false (dr_db d) col key) m) in
  let r := read_of p (sd_block_num h) in
  is_u64 (sd_block_num h) -> is_u64 head -> sd_block_num h <= rv_head view <= head ->
  db_ok false it -> versioned col -> key_wf col p ->
  (forall n, is_u64 n -> n <= rv_head view -> version_at false it col p n = version_at false (dr_db d) col p n) ->
  table_ok read_of head table ->
  exists sp, probed_span h it view cached col p (with_key p (newest (version_at false (dr_db d) col p) (sd_block_num h)))
      (read_span r.1 (sd_block_num h) r.2) = Ok (E := Error E) sp /\
    table_ok read_of head (record table p sp.1 sp.2).
Proof.
  intros read_of r Hn Hhd Hv Hdb Hc Hp Hagree Ht.
  assert (Heq : newest (version_at false it col p) (sd_block_num h) = newest (version_at false (dr_db d) col p) (sd_block_num h)).
  { apply newest_ext; [done|]. intros b Hb Hle. apply Hagree; [done|lia]. }
  destruct (probed_span_ok dec h it view cached col p head) as (hi & found & Hps & Hhi & Hnone); [done..|].
  rewrite Heq in Hps. eexists. split; [exact Hps|]. cbn [fst snd]. eapply record_ok; try done. lia.
Qed.

Lemma read_storage_and_height_ok d h a k :
  archive_ok d -> handle_ok d h ->
  let r := storage_at (dr_udt d) (dr_db d) (slot_prefix a k) (sd_block_num h) in
  exists d', read_storage_and_height d h a k = (Ok (r.2, r.1), d') /\ archive_ok d' /\ recached d d'.
Proof.
  intros Ha Ho r. pose proof (ho_block _ _ Ho) as Hn. pose proof (do_kv _ _ (ao_db _ Ha)) as Hkv.
  unfold read_storage_and_height, check_timeout.
  rewrite (ho_live _ _ Ho), (ho_udt _ _ Ho). cbn [sbind].
  destruct (handle_cache d h) as [[view c]|] eqn:Hhc; cbn [cache_lookup].
  - apply handle_cache_Some in Hhc as [Hv Hc]. destruct (ao_cache _ Ha c Hc) as (Hhd & Hta & Hts).
    pose proof (ho_view _ _ Ho _ _ Hv Hc) as Hvr.
    destruct (lookup (sc_storage c) (slot_prefix a k) (sd_block_num h)) as [span|cached] eqn:Hl.
    { apply (lookup_hit _ _ _ _ _ _ Hts Hn) in Hl. exists d. subst r. rewrite Hl. cbn [fst snd].
      split; [done|]. split; [done|apply recached_refl]. }
    destruct (dr_udt d) eqn:Hu.
    + rewrite udt_get_ok by done. cbn [sbind].
      destruct (udt_record_ok decode_storage d h view (sc_storage c) cached AddressToStorage (slot_prefix a k) (sc_head c))
        as (t & Ht & Htok); [done..|].
      destruct (recached_table d c (set_sc_storage c t)) as [Ha' Hr]; [done..|by rewrite Hu|].
      eexists. split; [|done]. revert Ht. unfold r, storage_at, value_of, version_at. cbn [fst snd].
      destruct (newest _ _) as [[b raw]|]; cbn [option_map fst]; [|change (decode_storage []) with 0]; intros ->; done.
    + destruct (seek_storage_ok d h a k Ho Hu) as (it & landed & -> & Hdb & Hagree & Hs & Hland).
      unfold seen in Hagree. rewrite Hv in Hagree. cbn [sbind]. rewrite Hs. cbn [sbind].
      change (match landed with Some _ => _ | None => _ end) with (slot_of a k landed). rewrite Hland. cbn [sbind fst snd].
      destruct (record_probed decode_storage d h it view AddressToStorage (slot_prefix a k) cached (sc_storage c) (sc_head c))
        as (sp & Hp & Ht); try done; [by right|apply slot_prefix_wf|].
      destruct (recached_table d c (set_sc_storage c (record (sc_storage c) (slot_prefix a k) sp.1 sp.2))) as [Ha' Hr];
        [done..|by rewrite Hu|].
      eexists. split; [|done]. revert Hp. unfold r, storage_at, value_of. cbn [fst snd].
      destruct (newest _ _) as [[b raw]|]; cbn [option_map fst with_key]; intros ->; done.
  - exists d. split; [|split; [done|apply recached_refl]]. unfold r, storage_at, value_of.
    destruct (dr_udt d) eqn:Hu.
    + rewrite udt_get_ok by done. cbn [sbind version_at]. by destruct (newest _ _) as [[b raw]|].
    + destruct (seek_storage_ok d h a k Ho Hu) as (it & landed & -> & Hdb & Hagree & Hs & Hland).
      cbn [sbind]. rewrite Hs. cbn [sbind].
      change (match landed with Some _ => _ | None => _ end) with (slot_of a k landed). rewrite Hland. cbn [sbind fst snd].
      by destruct (newest _ _) as [[b raw]|].
Qed.

(** ** One account *)

Lemma decode_cached_ok raw :
  raw = [] \/ is_Some (slim_decode raw) -> decode_cached_account (E := E) raw = Ok (account_value raw).
Proof.
  intros Hraw. unfold decode_cached_account, account_value. destruct raw as [|x raw]; [done|].
  destruct Hraw as [?|[acc ->]]; done.
Qed.

Lemma decode_account_ok a raw :
  raw = [] \/ is_Some (slim_decode raw) ->
  decode_account (E := E) a raw = Ok (option_map (fun x => with_address x a) (account_value raw)).
Proof. intros Hraw. unfold decode_account. by rewrite decode_cached_ok. Qed.

Lemma cached_with_address a (x : option CachedAccount) :
  option_map cached_of_new (option_map (fun x => with_address x a) x) = x.
Proof. by destruct x as [[]|]. Qed.

Lemma newest_decodes udt db p n b raw :
  db_ok udt db -> is_u64 n -> newest (version_at udt db AddressToAccount p) n = Some (b, raw) ->
  raw = [] \/ is_Some (slim_decode raw).
Proof.
  intros Hdb Hn Hnew. pose proof (newest_ok (version_at udt db AddressToAccount p) n Hn) as Hl. rewrite Hnew in Hl.
  destruct Hl as (Hb & _ & Hv & _). by eapply do_account.
Qed.

Lemma seek_account_ok d h a :
  handle_ok d h -> dr_udt d = false ->
  let f := version_at false (dr_db d) AddressToAccount (h256_bytes a) in
  exists it, iterators_of (E := E) h = Ok it /\ db_ok false it /\
    (forall n, is_u64 n -> n <= seen h -> version_at false it AddressToAccount (h256_bytes a) n = f n) /\
    seek_account it a (sd_block_num h) =
      Ok (option_map (fun x => with_address x a) (value_of account_value (newest f (sd_block_num h))).2,
          with_key (h256_bytes a) (newest f (sd_block_num h))).
Proof.
  intros Ho Hu f. destruct (ho_iter _ _ Ho Hu) as (it & Hit & Hdb & Hagree).
  assert (versioned AddressToAccount) as Hc by (by left). pose proof (ho_block _ _ Ho) as Hn.
  exists it. split; [unfold iterators_of; by rewrite Hit|]. split; [done|]. split; [intros n; by apply Hagree|].
  destruct (seek_version_ok it AddressToAccount (h256_bytes a) (sd_block_num h)) as (landed & Hs & Hl);
    [done..|apply h256_wf|done|].
  unfold seek_account. rewrite account_version_key, Hs, res_bind_ok. unfold landed_on in Hl.
  pose proof (newest_ok (version_at false it AddressToAccount (h256_bytes a)) _ Hn) as Hnew.
  pose proof (newest_decodes false it (h256_bytes a) (sd_block_num h)) as Hdec.
  rewrite (iter_newest d h it) in * by done. fold f in Hl, Hnew, Hdec.
  destruct (newest f (sd_block_num h)) as [[b v]|].
  - subst landed. destruct Hnew as (Hb & _). rewrite slice_prefix by apply length_h256.
    rewrite res_bind_ok, decide_False by naive_solver. change 64%nat with (32 + 32)%nat.
    rewrite slice_tail by apply length_h256. rewrite res_bind_ok, decode_account_ok by (by eapply Hdec).
    by rewrite res_bind_ok, decode_encode_tail.
  - destruct landed as [[k' v']|]; [|done]. destruct Hl as [Hlen Hne]. change (prefix_len AddressToAccount) with 32%nat in *.
    rewrite slice_take by lia. by rewrite res_bind_ok, decide_True.
Qed.

Lemma read_account_ok d h a :
  archive_ok d -> handle_ok d h ->
  let r := account_at (dr_udt d) (dr_db d) (h256_bytes a) (sd_block_num h) in
  exists d', read_account d h a = (Ok (option_map (fun x => with_address x a) r.2), d') /\ archive_ok d' /\ recached d d'.
Proof.
  intros Ha Ho r. pose proof (ho_block _ _ Ho) as Hn. pose proof (do_kv _ _ (ao_db _ Ha)) as Hkv.
  pose proof (newest_decodes (dr_udt d) (dr_db d) (h256_bytes a) (sd_block_num h)) as Hdec.
  unfold read_account, check_timeout. rewrite (ho_live _ _ Ho), (ho_udt _ _ Ho). cbn [sbind].
  assert (Hraw : forall f : u64 -> option bytes, dr_udt d = true -> f = version_at true (dr_db d) AddressToAccount (h256_bytes a) ->
    match newest f (sd_block_num h) with Some (_, raw) => decode_account (E := E) a raw | None => Ok None end =
    Ok (option_map (fun x => with_address x a) (value_of account_value (newest f (sd_block_num h))).2)).
  { intros f Hu ->. rewrite Hu in Hdec. pose proof (ao_db _ Ha) as Hdb. rewrite Hu in Hdb.
    destruct (newest (version_at true _ _ _) _) as [[b raw]|]; [|done]. apply decode_account_ok. by eapply Hdec. }
  destruct (handle_cache d h) as [[view c]|] eqn:Hhc; cbn [cache_lookup].
  - apply handle_cache_Some in Hhc as [Hv Hc]. destruct (ao_cache _ Ha c Hc) as (Hhd & Hta & Hts).
    pose proof (ho_view _ _ Ho _ _ Hv Hc) as Hvr.
    destruct (lookup (sc_accounts c) (h256_bytes a) (sd_block_num h)) as [span|cached] eqn:Hl.
    { apply (lookup_hit _ _ _ _ _ _ Hta Hn) in Hl. exists d. subst r. rewrite Hl. cbn [fst snd].
      split; [done|]. split; [done|apply recached_refl]. }
    destruct (dr_udt d) eqn:Hu.
    + rewrite udt_get_ok by done. cbn [sbind]. rewrite Hraw by done. cbn [sbind]. rewrite cached_with_address.
      destruct (udt_record_ok account_value d h view (sc_accounts c) cached AddressToAccount (h256_bytes a) (sc_head c))
        as (t & Ht & Htok); [done..|].
      destruct (recached_table d c (set_sc_accounts c t)) as [Ha' Hr]; [done..|by rewrite Hu|].
      eexists. split; [|done]. revert Ht. unfold r, account_at, value_of, version_at. cbn [fst snd]. by intros ->.
    + destruct (seek_account_ok d h a Ho Hu) as (it & -> & Hdb & Hagree & Hs).
      unfold seen in Hagree. rewrite Hv in Hagree. cbn [sbind]. rewrite Hs. cbn [sbind fst snd]. rewrite cached_with_address.
      destruct (record_probed account_value d h it view AddressToAccount (h256_bytes a) cached (sc_accounts c) (sc_head c))
        as (sp & Hp & Ht); try done; [by left|apply h256_wf|].
      destruct (recached_table d c (set_sc_accounts c (record (sc_accounts c) (h256_bytes a) sp.1 sp.2))) as [Ha' Hr];
        [done..|by rewrite Hu|].
      eexists. split; [|done]. revert Hp. unfold r, account_at, value_of. cbn [fst snd].
      destruct (newest _ _) as [[b raw]|]; cbn [option_map fst with_key]; intros ->; done.
  - exists d. split; [|split; [done|apply recached_refl]]. unfold r, account_at.
    destruct (dr_udt d) eqn:Hu.
    + rewrite udt_get_ok by done. cbn [sbind]. rewrite Hraw by done. done.
    + destruct (seek_account_ok d h a Ho Hu) as (it & -> & Hdb & Hagree & Hs). cbn [sbind]. by rewrite Hs.
Qed.

(** ** Batches *)

(** A loop over reads that leave the database right. *)
Lemma map_state_ok {A B} (f : DataBaseRef K C -> A -> Res (Error E) B * DataBaseRef K C) (g : A -> B) d l :
  archive_ok d ->
  (forall d' x, x ∈ l -> archive_ok d' -> recached d d' ->
    exists d'', f d' x = (Ok (g x), d'') /\ archive_ok d'' /\ recached d' d'') ->
  exists d', map_state f d l = (Ok (map g l), d') /\ archive_ok d' /\ recached d d'.
Proof.
  revert d. induction l as [|x l IH]; intros d Ha Hf; cbn [map_state map].
  - exists d. split; [done|]. split; [done|apply recached_refl].
  - destruct (Hf d x) as (d1 & -> & Ha1 & Hr1); [by left|done|apply recached_refl|]. cbn [sbind].
    destruct (IH d1) as (d2 & -> & Ha2 & Hr2); [done| |].
    { intros d' y Hy Ha' Hr'. apply Hf; [by right|done|by eapply recached_trans]. }
    exists d2. split; [done|]. split; [done|by eapply recached_trans].
Qed.

(** Hits and the values of the misses, put together in input order. *)
Lemma fill_values_ok {V} (blank : V) (g : bytes -> V) keys (looked : list (Lookup V)) :
  length keys = length looked ->
  (forall i key span, keys !! i = Some key -> looked !! i = Some (Hit span) -> sp_value span = g key) ->
  fill_values blank (map (fun l => match l with Hit span => Some (sp_value span) | Miss _ => None end) looked)
    (map (fun kc => g (fst kc)) (missed keys looked)) = map g keys.
Proof.
  revert looked. induction keys as [|key keys IH]; intros [|l looked] Hlen Hhit; try done.
  assert (Hrest : forall i key span, keys !! i = Some key -> looked !! i = Some (Hit span) -> sp_value span = g key).
  { intros i k sp Hk Hs. by apply (Hhit (S i)). }
  injection Hlen as Hlen. destruct l as [span|cached]; cbn [map fill_values missed fst].
  - rewrite IH by done. by rewrite (Hhit 0%nat key span).
  - by rewrite IH.
Qed.

Section many.
Context {V : Type} (get : StateCache C -> Table C V) (put : StateCache C -> Table C V -> StateCache C).
Context (col : StorageTypeColumn) (decode : bytes -> Res (Error E) V) (dec : bytes -> V).

(** What reading [key] at [n] finds. *)
Let read_of db key n := value_of dec (newest (kv_versions db col key) n).

(** One of the two cached tables. *)
Hypothesis get_ok : forall db c, state_cache_ok true db c -> table_ok (read_of db) (sc_head c) (get c).
Hypothesis put_ok : forall db c t, state_cache_ok true db c -> table_ok (read_of db) (sc_head c) t ->
  state_cache_ok true db (put c t) /\ sc_head (put c t) = sc_head c.

Lemma udt_get_many_ok d n keys :
  kv_ok (dr_db d) -> is_u64 n ->
  udt_get_many d n col keys = Ok (map (fun key => newest (kv_versions (dr_db d) col key) n) keys).
Proof.
  intros Hkv Hn. unfold udt_get_many. apply res_mapM_ok. intros key _. by apply udt_get_ok.
Qed.

Lemma take_udt_ok h d key cached :
  archive_ok d -> handle_ok d h -> dr_udt d = true ->
  let found := newest (kv_versions (dr_db d) col key) (sd_block_num h) in
  decode (match found with Some (_, raw) => raw | None => [] end) = Ok (value_of dec found).2 ->
  exists d', take_udt get put col decode h d (key, cached, found) = (Ok (value_of dec found).2, d') /\
    archive_ok d' /\ recached d d'.
Proof.
  intros Ha Ho Hu found Hdec. pose proof (ho_block _ _ Ho) as Hn. pose proof (do_kv _ _ (ao_db _ Ha)) as Hkv.
  unfold take_udt. rewrite Hdec. cbn [sbind].
  destruct (handle_cache d h) as [[view c]|] eqn:Hhc.
  - apply handle_cache_Some in Hhc as [Hv Hc]. pose proof (ho_view _ _ Ho _ _ Hv Hc) as Hvr.
    pose proof (ao_cache _ Ha c Hc) as Hok. rewrite Hu in Hok.
    destruct (udt_record_ok dec d h view (get c) cached col key (sc_head c)) as (t & Ht & Htok);
      [done|done|apply Hok|done|by apply get_ok|].
    unfold found in *. cbn [value_of fst snd] in *. rewrite Ht. cbn [sbind].
    destruct (put_ok (dr_db d) c t Hok Htok) as [Hput Hh].
    destruct (recached_table d c (put c t)) as [Ha' Hr]; [done..|by rewrite Hu|]. by eexists.
  - exists d. split; [done|]. split; [done|apply recached_refl].
Qed.

Lemma zip_map_found {A B} (f : bytes -> B) (l : list (bytes * A)) :
  zip l (map f (map fst l)) = map (fun kc => (kc, f (fst kc))) l.
Proof. induction l as [|[k a] l IH]; cbn; [done|]. by f_equal. Qed.

Lemma read_udt_many_ok d h keys :
  archive_ok d -> handle_ok d h -> dr_udt d = true ->
  decode [] = Ok (dec []) ->
  (forall key b raw, newest (kv_versions (dr_db d) col key) (sd_block_num h) = Some (b, raw) -> decode raw = Ok (dec raw)) ->
  exists d', read_udt_many get put col decode d h keys =
      (Ok (map (fun key => (read_of (dr_db d) key (sd_block_num h)).2) keys), d') /\ archive_ok d' /\ recached d d'.
Proof.
  intros Ha Ho Hu Hblank Hdec. pose proof (ho_block _ _ Ho) as Hn. pose proof (do_kv _ _ (ao_db _ Ha)) as Hkv.
  unfold read_udt_many, check_timeout. rewrite (ho_live _ _ Ho), Hblank. cbn [sbind].
  set (looked := map _ keys).
  assert (Hlen : length keys = length looked) by (unfold looked; by rewrite length_map).
  assert (Hhit : forall i key span, keys !! i = Some key -> looked !! i = Some (Hit span) ->
    sp_value span = (read_of (dr_db d) key (sd_block_num h)).2).
  { intros i key span Hk Hs. unfold looked in Hs. rewrite list_lookup_fmap, Hk in Hs. injection Hs as Hs.
    unfold cache_lookup in Hs. destruct (handle_cache d h) as [[view c]|] eqn:Hhc; [|done].
    apply handle_cache_Some in Hhc as [Hv Hc]. pose proof (ao_cache _ Ha c Hc) as Hok. rewrite Hu in Hok.
    apply (lookup_hit _ _ _ _ _ _ (get_ok _ _ Hok) Hn) in Hs. by rewrite Hs. }
  pose proof (fill_values_ok (dec []) _ keys looked Hlen Hhit) as Hfill.
  destruct (missed keys looked) as [|kc0 rest] eqn:Hm.
  { cbn [map] in Hfill. exists d. rewrite Hfill. split; [done|]. split; [done|apply recached_refl]. }
  rewrite <- Hm in *. clear Hm kc0 rest.
  rewrite udt_get_many_ok by done. cbn [sbind]. rewrite zip_map_found.
  set (g := fun kc : bytes * option (Entry V) => (read_of (dr_db d) kc.1 (sd_block_num h)).2) in *.
  destruct (map_state_ok (take_udt get put col decode h)
    (fun r => (value_of dec r.2).2) d
    (map (fun kc => (kc, newest (kv_versions (dr_db d) col (fst kc)) (sd_block_num h))) (missed keys looked)))
    as (d' & Hms & Ha' & Hr'); [done| |].
  - intros d1 r ([key cached] & -> & _)%list_elem_of_fmap Ha1 Hr1. cbn [fst snd].
    assert (dr_db d1 = dr_db d /\ dr_udt d1 = dr_udt d) as [Hdb Hud] by (destruct Hr1 as [-> _]; done).
    rewrite <- Hdb. apply take_udt_ok; [done|by eapply handle_recached|congruence|].
    rewrite Hdb. destruct (newest _ _) as [[b raw]|] eqn:Hnew; [by eapply Hdec|done].
  - rewrite Hms. cbn [sbind]. rewrite map_map. exists d'. split; [|done]. f_equal. f_equal. exact Hfill.
Qed.
End many.
End reads.
