(* ===== verification/ArchiveSlots.v ===== *)
(** * The archive database: batched reads and the slots of an account

    A batched read answers what the scalar reads would, and listing an
    account's slots ends and gives exactly the slots that read as non-zero. *)

From stdpp Require Import prelude gmap list sorting strings.
From S2P Require Import Prelude Types QuickCache KvStore ArchiveEncoding StateCache BlockIndex Archive ArchiveReads.

#[local] Open Scope Z_scope.
#[local] Open Scope state_scope.

(** ** The order of slot keys *)

Lemma zeros_le n x : length x = n -> Forall is_u8 x -> (replicate n 0 ≤ x)%bytes.
Proof.
  revert x. induction n as [|n IH]; intros [|b x] Hl Hx; try done.
  inversion Hx as [|? ? Hb Hx']; subst. injection Hl as Hl. unfold bytes_le, is_u8 in *. cbn [replicate bytes_cmp].
  destruct (Z.compare_spec 0 b); [|done|lia]. by apply IH.
Qed.

Lemma tail_bytes inv n : Forall is_u8 (encode_version_tail inv n).
Proof.
  assert (Hnum : forall n, Forall is_u8 (encode_block_num n)).
  { intros m. apply Forall_app. split; [apply Forall_replicate; unfold is_u8, u8_max; lia|apply be_bytes_byte]. }
  destruct inv; apply Hnum.
Qed.

(** The key [storage_slots] seeks to find the slots from [start]. *)
Definition slots_from (a start : H256) : bytes := h256_bytes a ++ be_bytes 32 start ++ replicate 32 0.

Lemma slots_from_le inv a start j b :
  is_u256 start -> is_u256 j -> (slots_from a start ≤ version_key inv (slot_prefix a j) b)%bytes <-> start <= j.
Proof.
  intros Hs Hj. unfold slots_from, version_key, slot_prefix, bytes_le. rewrite <- (assoc_L (++)), bytes_cmp_app_same.
  rewrite bytes_cmp_app by (by rewrite ?length_h256, ?length_be_bytes). unfold h256_bytes.
  rewrite be_bytes_cmp by (by apply is_u256_pow).
  destruct (Z.compare_spec start j) as [->| |]; [|split; [lia|done]|split; [done|lia]].
  split; [lia|]. intros _. apply zeros_le; [apply length_tail|apply tail_bytes].
Qed.

Lemma slot_versions_le inv a i j b b' :
  is_u256 i -> is_u256 j -> (version_key inv (slot_prefix a i) b ≤ version_key inv (slot_prefix a j) b')%bytes -> i <= j.
Proof.
  intros Hi Hj. unfold version_key, slot_prefix, bytes_le. rewrite <- !(assoc_L (++)), bytes_cmp_app_same.
  rewrite bytes_cmp_app by (by rewrite !length_h256). unfold h256_bytes. rewrite be_bytes_cmp by (by apply is_u256_pow).
  destruct (Z.compare_spec i j); [lia|lia|done].
Qed.

(** A 64-byte key that starts with an address is one of its slots. *)
Lemma slot_prefix_of p a :
  key_wf AddressToStorage p -> take 32 p = h256_bytes a ->
  is_u256 (from_be (drop 32 p)) /\ p = slot_prefix a (from_be (drop 32 p)).
Proof.
  intros [Hl Hp] Ht. change (prefix_len AddressToStorage) with 64%nat in Hl.
  assert (length (drop 32 p) = 32%nat) as Hd by (rewrite length_drop; lia).
  assert (Forall is_u8 (drop 32 p)) as Hf by (by apply Forall_drop).
  pose proof (from_be_bound _ Hf) as Hb. pose proof (be_bytes_from_be _ Hf) as He. rewrite Hd in Hb, He.
  split; [by apply is_u256_pow|]. unfold slot_prefix. rewrite <- Ht. unfold h256_bytes. by rewrite He, take_drop.
Qed.

Lemma slot_key_parts inv p b :
  length p = 64%nat ->
  length (version_key inv p b) = 96%nat /\ take 32 (version_key inv p b) = take 32 p /\
  take 32 (drop 32 (version_key inv p b)) = drop 32 p.
Proof.
  intros Hl. unfold version_key. rewrite length_app, length_tail, Hl. split; [done|].
  rewrite take_app_le, drop_app_le, take_app_le by (rewrite ?length_drop; lia).
  split; [done|]. apply take_ge. rewrite length_drop. lia.
Qed.

Lemma take_address a x : take 32 (h256_bytes a ++ x) = h256_bytes a.
Proof. rewrite take_app_le, take_ge by (rewrite length_h256; lia). done. Qed.

Section slots.
Context {K E : Type} `{RocksDBOk K E} {C : Type -> Type -> Type} `{QuickCacheOk C}.
Context `{SlimCodec} `{BlockCodec E} `{ArchiveConfig}.
Implicit Types (d : DataBaseRef K C) (h : StateDB K) (db : K).

(** ** Batched reads *)

Lemma read_storage_ok d h a k :
  archive_ok d -> handle_ok d h ->
  exists d', read_storage d h a k = (Ok (storage_at (dr_udt d) (dr_db d) (slot_prefix a k) (sd_block_num h)).2, d') /\
    archive_ok d' /\ recached d d'.
Proof.
  intros Ha Ho. unfold read_storage. destruct (read_storage_and_height_ok d h a k Ha Ho) as (d' & -> & Ha' & Hr).
  by exists d'.
Qed.

Lemma recached_same d d' : recached d d' -> dr_db d' = dr_db d /\ dr_udt d' = dr_udt d.
Proof. by intros [-> _]. Qed.

Lemma read_storage_many_ok d h keys :
  archive_ok d -> handle_ok d h ->
  exists d', read_storage_many d h keys =
      (Ok (map (fun k => (storage_at (dr_udt d) (dr_db d) (slot_prefix k.1 k.2) (sd_block_num h)).2) keys), d') /\
    archive_ok d' /\ recached d d'.
Proof.
  intros Ha Ho. unfold read_storage_many. rewrite (ho_udt _ _ Ho). destruct (dr_udt d) eqn:Hu.
  - destruct (read_udt_many_ok sc_storage set_sc_storage AddressToStorage (fun raw => Ok (decode_storage raw)) decode_storage)
      with (d := d) (h := h) (keys := map (fun k : H256 * H256 => slot_prefix k.1 k.2) keys)
      as (d' & Hrd & Ha' & Hr); try done.
    + intros db c Hc. apply Hc.
    + intros db c t (Hh & Hta & Hts) Ht. split; [|done]. by split.
    + exists d'. rewrite Hrd, map_map. done.
  - apply map_state_ok; [done|]. intros d' k _ Ha' Hr. destruct (recached_same d d' Hr) as [<- Hu'].
    rewrite <- Hu, <- Hu'. apply read_storage_ok; [done|]. by eapply handle_recached.
Qed.

Lemma zip_with_accounts {A B D} (f : A -> D -> B) (g : A -> D) l : zip_with f l (map g l) = map (fun x => f x (g x)) l.
Proof. induction l as [|x l IH]; cbn; [done|]. by f_equal. Qed.

Lemma read_account_many_ok d h addresses :
  archive_ok d -> handle_ok d h ->
  exists d', read_account_many d h addresses =
      (Ok (map (fun a => option_map (fun x => with_address x a)
         (account_at (dr_udt d) (dr_db d) (h256_bytes a) (sd_block_num h)).2) addresses), d') /\
    archive_ok d' /\ recached d d'.
Proof.
  intros Ha Ho. unfold read_account_many. rewrite (ho_udt _ _ Ho). destruct (dr_udt d) eqn:Hu.
  - destruct (read_udt_many_ok sc_accounts set_sc_accounts AddressToAccount decode_cached_account account_value)
      with (d := d) (h := h) (keys := map h256_bytes addresses) as (d' & Hrd & Ha' & Hr); try done.
    + intros db c Hc. apply Hc.
    + intros db c t (Hh & Hta & Hts) Ht. split; [|done]. by split.
    + intros key b raw Hnew. apply decode_cached_ok. eapply (newest_decodes true); [|apply (ho_block _ _ Ho)|exact Hnew].
      rewrite <- Hu. apply Ha.
    + exists d'. rewrite Hrd, map_map. cbn [sbind]. rewrite zip_with_accounts. done.
  - apply map_state_ok; [done|]. intros d' a _ Ha' Hr. destruct (recached_same d d' Hr) as [<- Hu'].
    rewrite <- Hu, <- Hu'. apply read_account_ok; [done|]. by eapply handle_recached.
Qed.

(** ** Listing the slots *)

(** The slots of [a] below [bound] that read as non-zero at [n], with their
    values. *)
Definition slots_below (udt : bool) db (a : H256) (n bound : Z) (slots : list (H256 * U256)) : Prop :=
  NoDup slots.*1 /\
  forall i v, (i, v) ∈ slots <-> is_u256 i /\ i < bound /\ v <> 0 /\ (storage_at udt db (slot_prefix a i) n).2 = v.

Definition slots_exact (udt : bool) db (a : H256) (n : u64) (slots : list (H256 * U256)) : Prop :=
  NoDup slots.*1 /\
  forall i v, (i, v) ∈ slots <-> is_u256 i /\ v <> 0 /\ (storage_at udt db (slot_prefix a i) n).2 = v.

Lemma slots_below_all udt db a n bound slots :
  slots_below udt db a n bound slots ->
  (forall i, is_u256 i -> bound <= i -> (storage_at udt db (slot_prefix a i) n).2 = 0) -> slots_exact udt db a n slots.
Proof.
  intros [Hnd Hin] Hz. split; [done|]. intros i v. rewrite Hin. split; [naive_solver|].
  intros (Hi & Hv & Hs). split_and!; try done. destruct (decide (i < bound)); [done|].
  rewrite Hz in Hs by (done || lia). congruence.
Qed.

(** The next slot, with the slots before it reading as zero. *)
Lemma slots_below_next udt db a n start i slots :
  slots_below udt db a n start slots -> is_u256 i -> start <= i ->
  (forall j, is_u256 j -> start <= j < i -> (storage_at udt db (slot_prefix a j) n).2 = 0) ->
  let v := (storage_at udt db (slot_prefix a i) n).2 in
  slots_below udt db a n (i + 1) (if decide (v = 0) then slots else slots ++ [(i, v)]).
Proof.
  intros [Hnd Hin] Hi Hle Hz v.
  assert (Hold : forall j w, (j, w) ∈ slots <-> is_u256 j /\ j < i /\ w <> 0 /\ (storage_at udt db (slot_prefix a j) n).2 = w).
  { intros j w. rewrite Hin. split; [intros (? & ? & ? & ?); split_and!; done || lia|].
    intros (Hj & Hji & Hw & Hs). split_and!; try done. destruct (decide (j < start)); [done|].
    rewrite Hz in Hs by (done || lia). congruence. }
  case_decide as Hv.
  - split; [done|]. intros j w. rewrite Hold. split; [intros (? & ? & ? & ?); split_and!; done || lia|].
    intros (Hj & Hji & Hw & Hs). split_and!; try done. destruct (decide (j = i)) as [->|]; [|lia].
    unfold v in Hv. congruence.
  - split.
    + rewrite fmap_app. cbn. apply NoDup_app. split; [done|]. split; [|apply NoDup_singleton].
      intros j Hj ->%list_elem_of_singleton. apply list_elem_of_fmap in Hj as ([j' w] & -> & Hj).
      apply Hold in Hj. cbn in Hj. lia.
    + intros j w. rewrite elem_of_app, list_elem_of_singleton, Hold. split.
      * intros [(? & ? & ? & ?)|[= -> ->]]; split_and!; done || lia.
      * intros (Hj & Hji & Hw & Hs). destruct (decide (j = i)) as [->|]; [right; unfold v; congruence|].
        left. split_and!; done || lia.
Qed.

(** A slot with no version at all reads as zero. *)
Lemma no_version_zero udt db key n :
  is_u64 n -> (forall b, is_u64 b -> version_at udt db AddressToStorage key b = None) -> (storage_at udt db key n).2 = 0.
Proof. intros Hn Hno. unfold storage_at. rewrite (newest_unique _ _ None); [done|done|]. cbn. auto. Qed.

(** The entry the iterator finds from [start]: a slot of [a], or the end. *)
Lemma seek_slot_ok db a start :
  db_ok false db -> is_u256 start ->
  exists r, db_seek_total db AddressToStorage (slots_from a start) = Ok r /\
    match r with
    | Some (k, _) =>
        length k = 96%nat /\
        if decide (take 32 k = h256_bytes a) then
          let i := from_be (take 32 (drop 32 k)) in
          is_u256 i /\ start <= i /\
          forall j b, is_u256 j -> is_u64 b -> start <= j < i -> version_at false db AddressToStorage (slot_prefix a j) b = None
        else forall j b, is_u256 j -> is_u64 b -> start <= j -> version_at false db AddressToStorage (slot_prefix a j) b = None
    | None => forall j b, is_u256 j -> is_u64 b -> start <= j -> version_at false db AddressToStorage (slot_prefix a j) b = None
    end.
Proof.
  intros Hdb Hs. destruct (rk_seek_total db AddressToStorage (slots_from a start) (do_kv _ _ Hdb)) as (r & -> & Hr).
  exists r. split; [done|]. destruct r as [[k v]|]; cbn in Hr.
  - destruct Hr as (Hk & _ & Hge & Hmin).
    destruct (do_plain _ _ Hdb AddressToStorage k eq_refl ltac:(by right) ltac:(by eexists)) as (p & b & Hp & Hb & ->).
    destruct (slot_key_parts inverted_block_encoding p b) as (Hlen & Htk & Hdr); [apply Hp|].
    split; [exact Hlen|].
    rewrite Htk, Hdr. case_decide as Ha.
    + destruct (slot_prefix_of p a Hp Ha) as [Hi Heq]. set (i := from_be (drop 32 p)) in *. rewrite Heq in Hge, Hmin.
      split; [done|]. split; [by apply slots_from_le in Hge|].
      intros j b' Hj Hb' Hr. apply eq_None_not_Some. intros Hsome.
      assert (Hle := Hmin _ Hsome I ltac:(apply slots_from_le; [done..|lia])). apply slot_versions_le in Hle; [lia|done..].
    + intros j b' Hj Hb' Hle. apply eq_None_not_Some. intros Hsome.
      assert (Hkj := Hmin _ Hsome I ltac:(by apply slots_from_le)). apply Ha. rewrite <- Htk.
      rewrite (take_between 32 (slots_from a start) _ (version_key inverted_block_encoding (slot_prefix a j) b')); [|done..|].
      * apply take_address.
      * unfold slots_from, version_key, slot_prefix. rewrite <- (assoc_L (++)). by rewrite !take_address.
  - intros j b Hj Hb Hle. apply eq_None_not_Some. intros Hsome. apply (Hr _ Hsome I). by apply slots_from_le.
Qed.

(** What the loop of [storage_slots] keeps: the slots before the next start. *)
Definition slots_inv d h (a : H256) (st : DataBaseRef K C * list (H256 * U256) * option U256) : Prop :=
  let '(d', slots, from) := st in
  archive_ok d' /\ recached d d' /\
  match from with
  | Some start => is_u256 start /\ slots_below false (dr_db d) a (sd_block_num h) start slots
  | None => slots_exact false (dr_db d) a (sd_block_num h) slots
  end.

Definition slots_left (st : DataBaseRef K C * list (H256 * U256) * option U256) : Z :=
  match st.2 with Some start => u256_max - start + 1 | None => 0 end.

Definition slots_done d h (a : H256) (r : Res (Error E) (list (H256 * U256)) * DataBaseRef K C) : Prop :=
  exists slots d', r = (Ok slots, d') /\ slots_exact (dr_udt d) (dr_db d) a (sd_block_num h) slots /\
    archive_ok d' /\ recached d d'.

Lemma slots_step_ok d h a st :
  handle_ok d h -> dr_udt d = false -> db_ok false (dr_db d) -> slots_inv d h a st ->
  match slots_step h (dr_db d) a st with
  | inl st' => slots_inv d h a st' /\ 0 <= slots_left st' < slots_left st
  | inr r => slots_done d h a r
  end.
Proof.
  intros Ho Hu Hdb. destruct st as [[d' slots] from]. intros (Ha' & Hr' & Hfrom).
  pose proof (ho_block _ _ Ho) as Hn. unfold slots_step.
  assert (Hend : forall sl, slots_exact false (dr_db d) a (sd_block_num h) sl -> slots_done d h a (Ok sl, d')).
  { intros sl Hsl. exists sl, d'. rewrite Hu. done. }
  destruct from as [start|]; [|by apply Hend]. destruct Hfrom as [Hs Hbelow].
  destruct (seek_slot_ok (dr_db d) a start Hdb Hs) as (r & Hseek & Hr). unfold slots_from in Hseek. rewrite Hseek.
  assert (Hstop : (forall j b, is_u256 j -> is_u64 b -> start <= j -> version_at false (dr_db d) AddressToStorage (slot_prefix a j) b = None) ->
    slots_done d h a (Ok slots, d')).
  { intros Hno. apply Hend. eapply slots_below_all; [done|]. intros i Hi Hle. apply no_version_zero; [done|]. intros. by apply Hno. }
  destruct r as [[k v]|]; [|by apply Hstop]. destruct Hr as [Hlen Hr]. rewrite slice_take by (rewrite Hlen; apply Nat.leb_le; reflexivity).
  case_decide as Hpre; [|by apply Hstop].
  destruct Hr as (Hi & Hsi & Hgap). unfold slice. rewrite decide_True by (rewrite Hlen; split; apply Nat.leb_le; reflexivity).
  change (64 - 32)%nat with 32%nat. set (i := from_be (take 32 (drop 32 k))) in *.
  destruct (recached_same d d' Hr') as [Hdb' Hu'].
  destruct (read_storage_ok d' h a i) as (d2 & -> & Ha2 & Hr2); [done|by eapply handle_recached|].
  assert (Hlow : forall j, is_u256 j -> start <= j < i -> (storage_at false (dr_db d) (slot_prefix a j) (sd_block_num h)).2 = 0).
  { intros j Hj Hjr. apply no_version_zero; [done|]. intros b Hb. by apply Hgap. }
  pose proof (slots_below_next _ _ _ _ _ _ _ Hbelow Hi Hsi Hlow) as Hnext.
  rewrite Hu', Hdb', Hu. unfold slots_inv, slots_left, checked_add. cbn [snd].
  split; [split_and!|]; [done|by eapply recached_trans| |].
  - case_decide as Hc; [split; [unfold is_u256 in *; lia|exact Hnext]|].
    eapply slots_below_all; [exact Hnext|]. intros j Hj Hge. unfold is_u256 in *. lia.
  - unfold is_u256 in *. clear Hnext Hlow. case_decide; lia.
Qed.

(** One entry of the timestamped scan. *)
Definition scanned_slot (kv : bytes * bytes) : option (H256 * U256) :=
  let value := decode_storage kv.2 in
  if decide (value = 0) then None else Some (from_be (drop 32 kv.1), value).

Lemma scanned_slots_in l i v :
  (i, v) ∈ omap id (map scanned_slot l) <->
  v <> 0 /\ exists k raw, (k, raw) ∈ l /\ from_be (drop 32 k) = i /\ decode_storage raw = v.
Proof.
  rewrite list_elem_of_omap. split.
  - intros (o & ([k raw] & -> & Hin)%list_elem_of_fmap & Ho). unfold id, scanned_slot in Ho. cbn in Ho.
    case_decide as Hz; [done|]. injection Ho as <- <-. split; [done|]. by exists k, raw.
  - intros (Hv & k & raw & Hin & <- & <-). exists (scanned_slot (k, raw)).
    split; [apply list_elem_of_fmap; by exists (k, raw)|]. unfold id, scanned_slot. cbn. by rewrite decide_False.
Qed.

Lemma scanned_slots_NoDup a l :
  NoDup l.*1 -> (forall k, k ∈ l.*1 -> k = slot_prefix a (from_be (drop 32 k))) ->
  NoDup (omap id (map scanned_slot l)).*1.
Proof.
  induction l as [|[k raw] l IH]; intros Hnd Hk; [constructor|]. cbn in Hnd. apply NoDup_cons in Hnd as [Hnin Hnd].
  assert (Hl : NoDup (omap id (map scanned_slot l)).*1) by (apply IH; [done|]; intros k' Hk'; apply Hk; cbn; by right).
  cbn [map omap list_omap]. change (id (scanned_slot (k, raw))) with (scanned_slot (k, raw)).
  unfold scanned_slot at 1. cbn [fst snd]. case_decide; [done|]. cbn. apply NoDup_cons. split; [|done].
  intros ([i v] & Hi & Hin)%list_elem_of_fmap. cbn in Hi. apply scanned_slots_in in Hin as (_ & k' & raw' & Hin & Hik & _).
  apply Hnin. apply list_elem_of_fmap. exists (k', raw'). split; [|done]. cbn.
  rewrite (Hk k), (Hk k'); [by rewrite Hik, <- Hi| |by left]. cbn. right. apply list_elem_of_fmap. by exists (k', raw').
Qed.

Lemma udt_storage_slots_ok d a n :
  db_ok true (dr_db d) -> is_u256 a -> is_u64 n ->
  exists slots, udt_storage_slots d a n = Ok slots /\ slots_exact true (dr_db d) a n slots.
Proof.
  intros Hdb Ha Hn. unfold udt_storage_slots.
  destruct (rk_scan_ts (dr_db d) AddressToStorage n (h256_bytes a) (key_after_prefix (h256_bytes a)) (do_kv _ _ Hdb))
    as (l & -> & Hsort & Hl). cbn [rocks]. rewrite res_bind_ok.
  assert (Hkey : forall k raw, (k, raw) ∈ l <-> is_u256 (from_be (drop 32 k)) /\ k = slot_prefix a (from_be (drop 32 k)) /\
    exists b, latest_le (kv_versions (dr_db d) AddressToStorage k) n (Some (b, raw))).
  { intros k raw. rewrite Hl. split.
    - intros (Hlo & Hhi & b & Hb).
      assert (Hwf : key_wf AddressToStorage k).
      { destruct Hb as (_ & _ & Hv & _). eapply (do_ts _ _ Hdb AddressToStorage k b); [done|by right|by eexists]. }
      assert (Hpre : h256_bytes a `prefix_of` k) by (apply key_after_prefix_ok; [apply Hwf|done]).
      destruct Hpre as [x Hx]. destruct (slot_prefix_of k a Hwf) as [Hu Hk]; [rewrite Hx; apply take_address|].
      split; [done|]. split; [done|]. by exists b.
    - intros (Hu & Hk & b & Hb).
      assert (h256_bytes a `prefix_of` k) as Hpre by (rewrite Hk; by eexists).
      apply key_after_prefix_ok in Hpre as [? ?]; [|rewrite Hk; apply slot_prefix_wf]. split_and!; try done. by exists b. }
  rewrite (res_mapM_ok _ scanned_slot).
  2: { intros [k raw] Hin. apply Hkey in Hin as (_ & Hk & _). unfold scanned_slot. cbn [fst snd]. case_decide; [done|].
       unfold slice. assert (length k = 64%nat) as Hlk by (rewrite Hk; apply length_slot_prefix).
       rewrite decide_True by (rewrite Hlk; split; apply Nat.leb_le; reflexivity). rewrite res_bind_ok.
       change (64 - 32)%nat with 32%nat. rewrite take_ge; [done|]. by rewrite length_drop, Hlk. }
  rewrite res_bind_ok. eexists. split; [done|]. split.
  - apply (scanned_slots_NoDup a).
    + apply (strictly_sorted_NoDup bytes_lt); [apply bytes_lt_irrefl|done].
    + intros k ([k' raw] & -> & Hin)%list_elem_of_fmap. by apply Hkey in Hin as (_ & ? & _).
  - intros i v. rewrite scanned_slots_in. unfold storage_at, value_of. cbn [snd].
    change (version_at true (dr_db d) AddressToStorage (slot_prefix a i)) with (kv_versions (dr_db d) AddressToStorage (slot_prefix a i)).
    split.
    + intros (Hv & k & raw & Hin & Hi & Hraw). apply Hkey in Hin as (Hu & Hk & b & Hb). rewrite Hi in Hu, Hk. subst k.
      split; [done|]. split; [done|]. by rewrite (newest_unique _ _ _ Hn Hb).
    + intros (Hi & Hv & Hs). split; [done|].
      pose proof (newest_ok (kv_versions (dr_db d) AddressToStorage (slot_prefix a i)) n Hn) as Hnew.
      destruct (newest _ _) as [[b raw]|]; [|by subst v].
      assert (from_be (drop 32 (slot_prefix a i)) = i) as Hdi.
      { unfold slot_prefix. rewrite drop_app_length' by (by rewrite length_h256). by apply from_be_h256. }
      exists (slot_prefix a i), raw. split; [|done]. apply Hkey. rewrite Hdi. split; [done|]. split; [done|]. by exists b.
Qed.

(** [storage_slots] ends, and lists exactly the slots that read as non-zero. *)
Lemma storage_slots_ok d h a :
  archive_ok d -> handle_ok d h -> is_u256 a -> slots_done d h a (storage_slots d h a).
Proof.
  intros Ha Ho Haddr. unfold storage_slots. rewrite (ho_udt _ _ Ho). destruct (dr_udt d) eqn:Hu.
  - destruct (udt_storage_slots_ok d a (sd_block_num h)) as (slots & -> & Hs);
      [rewrite <- Hu; apply Ha|done|apply Ho|]. exists slots, d. rewrite Hu. split; [done|]. split; [done|].
    split; [done|apply recached_refl].
  - destruct (loop_pow_ok (slots_step h (dr_db d) a) (slots_inv d h a) (slots_done d h a) slots_left 257 (d, [], Some 0))
      as (r & -> & Hr); [| | |done].
    + intros st Hst. apply slots_step_ok; [done..| |done]. rewrite <- Hu. apply Ha.
    + split; [done|]. split; [apply recached_refl|]. split; [unfold is_u256, u256_max; lia|].
      split; [constructor|]. intros i v. split; [by intros ?%elem_of_nil|]. unfold is_u256. lia.
    + split; [vm_compute; discriminate|vm_compute; reflexivity].
Qed.
End slots.
