(* ===== verification/ArchiveWrite.v ===== *)
(** * The archive database: writes
    (crates/leafage-evm-storage/src/db_impl/rocksdb_impl/archive/mod.rs)

    A write batch collects the records of a block; [commit] keeps the last
    write of each versioned key, notes the block in the index, writes the batch
    and moves the state cache's head. *)

From stdpp Require Import prelude gmap list sorting strings.
From S2P Require Import Prelude Types QuickCache KvStore ArchiveEncoding StateCache BlockIndex Archive.

#[local] Open Scope Z_scope.
#[local] Open Scope state_scope.

Record ArchiveRocksDBWriteBatch := mkBatch {
  wb_inner : list WriteOp;
  wb_account_writes : list (bytes * bytes);
  wb_storage_writes : list (bytes * bytes);
  wb_sync : bool;
  wb_max_block : option u64;
  wb_block_infos : list (H256 * u32);
}.

Definition new_batch : ArchiveRocksDBWriteBatch := mkBatch [] [] [] false None [].

Implicit Types b : ArchiveRocksDBWriteBatch.

(** [batch.inner.put_cf]. *)
Definition push_op b (op : WriteOp) : ArchiveRocksDBWriteBatch :=
  mkBatch (wb_inner b ++ [op]) (wb_account_writes b) (wb_storage_writes b) (wb_sync b) (wb_max_block b) (wb_block_infos b).
Definition push_account b (w : bytes * bytes) : ArchiveRocksDBWriteBatch :=
  mkBatch (wb_inner b) (wb_account_writes b ++ [w]) (wb_storage_writes b) (wb_sync b) (wb_max_block b) (wb_block_infos b).
Definition push_storage b (w : bytes * bytes) : ArchiveRocksDBWriteBatch :=
  mkBatch (wb_inner b) (wb_account_writes b) (wb_storage_writes b ++ [w]) (wb_sync b) (wb_max_block b) (wb_block_infos b).
Definition push_block_info b (e : H256 * u32) : ArchiveRocksDBWriteBatch :=
  mkBatch (wb_inner b) (wb_account_writes b) (wb_storage_writes b) (wb_sync b) (wb_max_block b) (wb_block_infos b ++ [e]).

Definition note_block b (block_num : u64) : ArchiveRocksDBWriteBatch :=
  mkBatch (wb_inner b) (wb_account_writes b) (wb_storage_writes b) (wb_sync b)
    (Some (match wb_max_block b with Some m => Z.max m block_num | None => block_num end)) (wb_block_infos b).

Definition set_sync b (sync : bool) : ArchiveRocksDBWriteBatch :=
  mkBatch (wb_inner b) (wb_account_writes b) (wb_storage_writes b) sync (wb_max_block b) (wb_block_infos b).

(** [extend_account_writes] and [extend_storage_writes]: pre-encoded writes. *)
Definition extend_account_writes b (items : list (bytes * option bytes)) : ArchiveRocksDBWriteBatch :=
  fold_left (fun b '(k, v) => push_account b (k, default [] v)) items b.
Definition extend_storage_writes b (items : list (bytes * bytes)) : ArchiveRocksDBWriteBatch :=
  fold_left push_storage items b.

(** The order of [sort_by(|a, b| a.0.cmp(&b.0))], which is stable. *)
Definition write_le (w w' : bytes * bytes) : Prop := (w.1 ≤ w'.1)%bytes.

#[export] Instance write_le_dec w w' : Decision (write_le w w').
Proof. unfold write_le. apply _. Defined.

(** Insertion sort: equal keys keep their order, as Rust's [sort_by] does. *)
Fixpoint stable_insert (w : bytes * bytes) (l : list (bytes * bytes)) : list (bytes * bytes) :=
  match l with
  | [] => [w]
  | x :: rest => if decide (write_le w x) then w :: l else x :: stable_insert w rest
  end.

Definition stable_sort (l : list (bytes * bytes)) : list (bytes * bytes) := fold_right stable_insert [] l.

Section writes.
Context {K E : Type} `{RocksDB K E} {C : Type -> Type -> Type} `{QuickCache C}.
Context `{SlimCodec} `{BlockCodec E} `{ArchiveConfig}.
Implicit Types (d : DataBaseRef K C) (h : StateDB K).

Definition prepare_write_batch d : Res (Error E) ArchiveRocksDBWriteBatch := Ok new_batch.

Definition write_block_hash d b (block_num : u64) (block_hash : H256) : Res (Error E) ArchiveRocksDBWriteBatch :=
  Ok (push_op (note_block b block_num)
    (OpPut BlockNumToBlockHash (encode_block_num block_num) (h256_bytes block_hash))).

Definition write_block_info d b (block_info : BlockInfo) : Res (Error E) ArchiveRocksDBWriteBatch :=
  raw ← encode_block_info block_info;
  let hash := bi_hash block_info in
  let number := bi_number block_info in
  match dr_block_index d with
  | Some _ =>
      e ← entry hash number;
      Ok (push_op (push_block_info b e) (OpPut BlockNumToBlockInfo (index_key number) (index_record hash raw)))
  | None => Ok (push_op b (OpPut BlockHashToBlockInfo (h256_bytes hash) raw))
  end.

Definition write_account d b (address : H256) (block_num : u64) (raw_account : option NewAccount)
    : Res (Error E) ArchiveRocksDBWriteBatch :=
  let account_key := encode_account_key inverted_block_encoding address block_num in
  let value := match raw_account with Some a => encode_slim_account a | None => [] end in
  Ok (push_account (note_block b block_num) (account_key, value)).

Definition write_storage d b (address key : H256) (block_num : u64) (value : U256)
    : Res (Error E) ArchiveRocksDBWriteBatch :=
  let storage_key := encode_storage_key inverted_block_encoding address key block_num in
  Ok (push_storage (note_block b block_num) (storage_key, be_bytes 32 value)).

Definition write_code d b (code_hash : H256) (code : bytes) : Res (Error E) ArchiveRocksDBWriteBatch :=
  Ok (push_op b (OpPut HashToCode (h256_bytes code_hash) code)).

Definition write_latest_block_hash d b (block_hash : H256) : Res (Error E) ArchiveRocksDBWriteBatch :=
  Ok (push_op b (OpPut LatestBlockHash [1] (h256_bytes block_hash))).

(** The loop of [clear_storage] over the slots. *)
Fixpoint zero_slots d b (address : H256) (block_num : u64) (slots : list (H256 * U256))
    : Res (Error E) ArchiveRocksDBWriteBatch :=
  match slots with
  | [] => Ok b
  | (slot, _) :: rest => b ← write_storage d b address slot block_num 0; zero_slots d b address block_num rest
  end.

Definition clear_storage d h b (address : H256) (block_num : u64)
    : Res (Error E) ArchiveRocksDBWriteBatch * DataBaseRef K C :=
  let! (slots, d) := storage_slots d h address in
  (zero_slots d b address block_num slots, d).

(** ** Committing *)

(** Schema v3 writes the address or slot with the block as its timestamp. *)
Definition put_account_version (udt : bool) (key value : bytes) : WriteOp :=
  if udt then
    OpPutTs AddressToAccount (take 32 key) (from_le (encode_ts (decode_version_tail inverted_block_encoding (drop 32 key)))) value
  else OpPut AddressToAccount key value.

Definition put_storage_version (udt : bool) (key value : bytes) : WriteOp :=
  if udt then
    OpPutTs AddressToStorage (take 64 key) (from_le (encode_ts (decode_version_tail inverted_block_encoding (drop 64 key))))
      (strip_leading_zeros value)
  else OpPut AddressToStorage key value.

(** One turn of the loop: the write before [w] goes out unless [w] replaces it. *)
Definition flush_step (put : bytes -> bytes -> WriteOp) (acc : list WriteOp * option (bytes * bytes)) (w : bytes * bytes)
    : list WriteOp * option (bytes * bytes) :=
  let '(inner, last_write) := acc in
  match last_write with
  | Some (prev_key, prev_value) =>
      if decide (prev_key <> w.1) then (inner ++ [put prev_key prev_value], Some w) else (inner, Some w)
  | None => (inner, Some w)
  end.

(** The writes of one versioned table, the last of each key. *)
Definition flush_writes (put : bytes -> bytes -> WriteOp) (inner : list WriteOp) (writes : list (bytes * bytes)) : list WriteOp :=
  match writes with
  | [] => inner
  | _ =>
      let '(inner, last_write) := fold_left (flush_step put) (stable_sort writes) (inner, None) in
      match last_write with Some (k, v) => inner ++ [put k v] | None => inner end
  end.

(** What [commit] writes. *)
Definition batch_ops d b : list WriteOp :=
  flush_writes (put_storage_version (dr_udt d))
    (flush_writes (put_account_version (dr_udt d)) (wb_inner b) (wb_account_writes b)) (wb_storage_writes b).

Definition commit d b : Res (Error E) unit * DataBaseRef K C :=
  let ops := batch_ops d b in
  let d := match dr_block_index d with
    | Some index => set_block_index d (Some (note index (wb_block_infos b)))
    | None => d
    end in
  match db_write (dr_db d) ops with
  | (Ok _, db) =>
      let d := set_db d db in
      let! (d, _) :=
        match dr_block_index d with
        | Some index =>
            (match committed crc32 index with Some index => Ok (set_block_index d (Some index)) | None => Panic end, d)
        | None => (Ok d, d)
        end in
      (Ok tt, match dr_state_cache d, wb_max_block b with
        | Some cache, Some max => set_state_cache d (Some (advance_head cache max))
        | _, _ => d
        end)
  | (Err e, db) => (Err (RocksErr e), set_db d db)
  | (Panic, db) => (Panic, set_db d db)
  end.
End writes.
