(* ===== verification/ArchiveCommit.v ===== *)
(** * The archive database: what a commit writes

    A batch may write a versioned key more than once; [commit] sorts the writes
    and keeps the last of each key. The lemmas give the database after a commit
    in terms of the batch, for the versioned columns of all three schemas and
    for the others. *)

From stdpp Require Import prelude gmap list sorting strings.
From S2P Require Import Prelude Types QuickCache KvStore ArchiveEncoding StateCache BlockIndex BlockIndexStore Archive.
From S2P Require Import ArchiveReads ArchiveWrite.

#[local] Open Scope Z_scope.
#[local] Open Scope state_scope.

(** ** The last write of each key *)

Lemma last_assoc_swap {V} (x w : bytes * V) l k :
  x.1 <> w.1 -> last_assoc (x :: w :: l) k = last_assoc (w :: x :: l) k.
Proof.
  intros Hne. destruct x as [kx vx], w as [kw vw]. cbn in *. destruct (last_assoc l k); [done|].
  repeat case_decide; congruence.
Qed.

Lemma last_assoc_cons_eq {V} (x : bytes * V) l l' k :
  last_assoc l k = last_assoc l' k -> last_assoc (x :: l) k = last_assoc (x :: l') k.
Proof. intros Heq. destruct x. cbn. by rewrite Heq. Qed.

Lemma last_assoc_insert w l k : last_assoc (stable_insert w l) k = last_assoc (w :: l) k.
Proof.
  induction l as [|x l IH]; [done|]. cbn [stable_insert]. case_decide as Hle; [done|].
  rewrite (last_assoc_cons_eq x _ (w :: l)) by done. apply last_assoc_swap.
  intros Heq. apply Hle. unfold write_le. rewrite Heq. apply bytes_le_refl.
Qed.

Lemma last_assoc_sort l k : last_assoc (stable_sort l) k = last_assoc l k.
Proof.
  induction l as [|w l IH]; [done|]. cbn [stable_sort fold_right]. rewrite last_assoc_insert.
  by apply last_assoc_cons_eq.
Qed.

Lemma stable_insert_sorted w l : StronglySorted write_le l -> StronglySorted write_le (stable_insert w l).
Proof.
  induction 1 as [|x l Hl IH Hx]; cbn; [repeat constructor|]. case_decide as Hle.
  - constructor; [by constructor|]. constructor; [done|]. eapply Forall_impl; [done|].
    intros y Hy. unfold write_le in *. by eapply bytes_le_trans.
  - constructor; [done|]. assert (write_le x w) as Hxw by (destruct (bytes_le_total x.1 w.1); done).
    clear - Hx Hxw. induction l as [|y l IH]; cbn; [by repeat constructor|].
    inversion Hx; subst. case_decide; repeat constructor; auto.
Qed.

Lemma stable_sort_sorted l : StronglySorted write_le (stable_sort l).
Proof. induction l as [|w l IH]; cbn; [constructor|]. by apply stable_insert_sorted. Qed.

(** What the loop of [commit] keeps of a sorted list. *)
Fixpoint dedup_last (l : list (bytes * bytes)) : list (bytes * bytes) :=
  match l with
  | [] => []
  | w :: rest =>
      match rest with
      | [] => [w]
      | w' :: _ => if decide (w.1 <> w'.1) then w :: dedup_last rest else dedup_last rest
      end
  end.

Lemma fold_flush put l : forall inner w,
  let '(inner', last_write) := fold_left (flush_step put) l (inner, Some w) in
  match last_write with Some (k, v) => inner' ++ [put k v] | None => inner' end =
  inner ++ map (fun w => put w.1 w.2) (dedup_last (w :: l)).
Proof.
  induction l as [|x l IH]; intros inner w; [by destruct w|]. cbn [fold_left].
  destruct w as [k v]. cbn [flush_step dedup_last fst]. case_decide as Hne.
  - specialize (IH (inner ++ [put k v]) x). cbn [flush_step] in IH. rewrite <- (assoc_L (++)) in IH. exact IH.
  - exact (IH inner x).
Qed.

Lemma flush_writes_dedup put inner writes :
  flush_writes put inner writes = inner ++ map (fun w => put w.1 w.2) (dedup_last (stable_sort writes)).
Proof.
  unfold flush_writes. destruct writes as [|w0 ws]; [by rewrite app_nil_r|].
  destruct (stable_sort (w0 :: ws)) as [|w l] eqn:Hs; [cbn; by rewrite app_nil_r|].
  cbn [fold_left]. change (flush_step put (inner, None) w) with (inner, Some w).
  pose proof (fold_flush put l inner w) as Hf. destruct (fold_left _ l _). exact Hf.
Qed.

Lemma dedup_last_assoc l k : last_assoc (dedup_last l) k = last_assoc l k.
Proof.
  induction l as [|w l IH]; [done|]. cbn [dedup_last]. destruct l as [|w' l']; [done|].
  case_decide as Hne; [by apply last_assoc_cons_eq|]. rewrite IH. destruct w as [kw vw], w' as [kw' vw']. cbn in *.
  subst kw'. destruct (last_assoc l' k); [done|]. by case_decide.
Qed.

Lemma dedup_last_NoDup l : StronglySorted write_le l -> NoDup (dedup_last l).*1 /\ Forall (fun k => Forall (fun w => (w.1 ≤ k)%bytes) (take 1 l)) (dedup_last l).*1.
Proof.
  induction 1 as [|w l Hl IH Hw]; [repeat constructor|]. cbn [dedup_last]. destruct l as [|w' l'].
  { cbn. split; [apply NoDup_singleton|]. repeat constructor. apply bytes_le_refl. }
  destruct IH as [Hnd Hge]. inversion Hw as [|? ? Hww' Hwl]; subst. cbn [take] in *.
  assert (Hall : Forall (fun k => (w'.1 ≤ k)%bytes) (dedup_last (w' :: l')).*1).
  { eapply Forall_impl; [done|]. cbn. intros k Hk. by inversion Hk. }
  assert (Hall' : Forall (fun k => Forall (fun x => (x.1 ≤ k)%bytes) [w]) (dedup_last (w' :: l')).*1).
  { eapply Forall_impl; [done|]. cbn. intros k Hk. repeat constructor. unfold write_le in Hww'. by eapply bytes_le_trans. }
  case_decide as Hne; [|done]. rewrite fmap_cons. split; [|constructor; [repeat constructor; apply bytes_le_refl|done]].
  constructor; [|done]. intros Hin. rewrite Forall_forall in Hall. apply Hne, bytes_le_antisym; [done|]. by apply Hall.
Qed.

(** The writes [commit] makes of a table: the last write of each key, once. *)
Lemma flush_writes_spec put inner writes :
  exists l, flush_writes put inner writes = inner ++ map (fun w => put w.1 w.2) l /\
    NoDup l.*1 /\ forall k, last_assoc l k = last_assoc writes k.
Proof.
  exists (dedup_last (stable_sort writes)). split; [apply flush_writes_dedup|].
  split; [apply dedup_last_NoDup, stable_sort_sorted|]. intros k. by rewrite dedup_last_assoc, last_assoc_sort.
Qed.

(** ** The database after a batch *)

Lemma puts_contents c k l : forall old,
  fold_left (op_contents c k) (map (fun w => OpPut c w.1 w.2) l) old =
    match last_assoc l k with Some v => Some v | None => old end.
Proof.
  induction l as [|[k' v] l IH]; intros old; [done|]. cbn [map fold_left op_contents fst snd]. rewrite IH.
  cbn [last_assoc]. destruct (last_assoc l k); [done|]. repeat case_decide; naive_solver.
Qed.

(** Operations that leave a column, or its versions, alone. *)
Lemma contents_untouched c k ops old :
  Forall (fun op => forall o, op_contents c k o op = o) ops -> fold_left (op_contents c k) ops old = old.
Proof. induction 1 as [|op ops Hop _ IH] in old |- *; [done|]. cbn. by rewrite Hop. Qed.

Lemma versions_untouched c k n ops old :
  Forall (fun op => forall o, op_versions c k n o op = o) ops -> fold_left (op_versions c k n) ops old = old.
Proof. induction 1 as [|op ops Hop _ IH] in old |- *; [done|]. cbn. by rewrite Hop. Qed.

Section commit.
Context {K E : Type} `{RocksDBOk K E} {C : Type -> Type -> Type} `{QuickCacheOk C}.
Context `{SlimCodec} `{BlockCodec E} `{ArchiveConfig}.
Implicit Types (d : DataBaseRef K C) (db : K) (b : ArchiveRocksDBWriteBatch).

(** The versioned writes of a batch are versions of block [N]. *)
Definition writes_at (col : StorageTypeColumn) (N : u64) (writes : list (bytes * bytes)) : Prop :=
  Forall (fun w => exists p, key_wf col p /\ w.1 = version_key inverted_block_encoding p N) writes.

Record batch_at (N : u64) b : Prop := {
  ba_inner : Forall (fun op => exists c k v, op = OpPut c k v /\ ~ versioned c) (wb_inner b);
  ba_accounts : writes_at AddressToAccount N (wb_account_writes b);
  ba_storage : writes_at AddressToStorage N (wb_storage_writes b);
}.

(** How a value is stored. *)
Definition stored (udt : bool) (col : StorageTypeColumn) (v : bytes) : bytes :=
  match col with AddressToStorage => if udt then strip_leading_zeros v else v | _ => v end.

Definition put_version (udt : bool) (col : StorageTypeColumn) : bytes -> bytes -> WriteOp :=
  match col with AddressToStorage => put_storage_version udt | _ => put_account_version udt end.

Definition batch_writes b (col : StorageTypeColumn) : list (bytes * bytes) :=
  match col with AddressToStorage => wb_storage_writes b | _ => wb_account_writes b end.

Lemma ts_roundtrip n : is_u64 n -> from_le (encode_ts n) = n.
Proof. intros Hn. apply (from_le_bytes 8 n). by apply is_u64_pow. Qed.

Lemma put_version_ts col p N v :
  versioned col -> key_wf col p -> is_u64 N ->
  put_version true col (version_key inverted_block_encoding p N) v = OpPutTs col p N (stored true col v).
Proof.
  intros [-> | ->] [Hl _] HN; cbn in Hl; cbn [put_version stored]; unfold put_account_version, put_storage_version;
    rewrite <- Hl at 1 2; rewrite version_key_take, version_key_drop, decode_encode_tail, ts_roundtrip by done; done.
Qed.

Lemma puts_versions col p n N l :
  versioned col -> is_u64 N -> writes_at col N l -> forall old,
  fold_left (op_versions col p n) (map (fun w => put_version true col w.1 w.2) l) old =
    if decide (n = N) then
      match last_assoc l (version_key inverted_block_encoding p N) with Some v => Some (stored true col v) | None => old end
    else old.
Proof.
  intros Hc HN. induction 1 as [|[k v] l (q & Hq & Hk) _ IH]; intros old; [by case_decide|]. cbn in Hk. subst k.
  cbn [map fold_left fst snd]. rewrite put_version_ts by done. rewrite IH. cbn [op_versions last_assoc].
  case_decide as Hn; [subst n|by rewrite decide_False by naive_solver].
  destruct (last_assoc l _); [done|]. destruct (decide (q = p)) as [->|Hne].
  - by rewrite !decide_True.
  - rewrite decide_False by naive_solver. rewrite decide_False; [done|]. intros Heq. by apply app_inv_tail in Heq.
Qed.

Lemma version_key_other p n N l col :
  is_u64 n -> is_u64 N -> n <> N -> writes_at col N l ->
  last_assoc l (version_key inverted_block_encoding p n) = None.
Proof.
  intros Hn HN Hne Hl. apply last_assoc_None. intros ([k v] & Hk & Hin)%list_elem_of_fmap.
  unfold writes_at in Hl; rewrite Forall_forall in Hl. destruct (Hl _ Hin) as (p' & _ & Hk'). cbn in *. rewrite <- Hk in Hk'.
  unfold version_key in Hk'. apply app_inj_2 in Hk' as [_ Ht]; [|by rewrite !length_tail].
  apply tail_inj in Ht; [done|done..].
Qed.

(** The operations of a batch: the plain ones, then each table's. *)
Lemma batch_ops_split d b :
  exists la ls, batch_ops d b = wb_inner b ++ map (fun w => put_version (dr_udt d) AddressToAccount w.1 w.2) la ++
      map (fun w => put_version (dr_udt d) AddressToStorage w.1 w.2) ls /\
    (forall k, last_assoc la k = last_assoc (wb_account_writes b) k) /\
    (forall k, last_assoc ls k = last_assoc (wb_storage_writes b) k) /\
    (forall N, batch_at N b -> writes_at AddressToAccount N la /\ writes_at AddressToStorage N ls).
Proof.
  unfold batch_ops.
  destruct (flush_writes_spec (put_account_version (dr_udt d)) (wb_inner b) (wb_account_writes b)) as (la & -> & Hnda & Hla).
  destruct (flush_writes_spec (put_storage_version (dr_udt d))
    (wb_inner b ++ map (fun w => put_account_version (dr_udt d) w.1 w.2) la) (wb_storage_writes b)) as (ls & -> & Hnds & Hls).
  exists la, ls. rewrite <- (assoc_L (++)). split_and!; [done..|].
  assert (Hsub : forall l l' : list (bytes * bytes), NoDup l.*1 -> (forall k, last_assoc l k = last_assoc l' k) -> forall w, w ∈ l -> w ∈ l').
  { intros l l' Hnd Heq [k v] Hin. apply last_assoc_in. rewrite <- Heq. clear Heq l'.
    induction l as [|[k' v'] l IH]; [by apply elem_of_nil in Hin|]. cbn in Hnd. apply NoDup_cons in Hnd as [Hnin Hnd].
    cbn. apply elem_of_cons in Hin as [[= -> ->]|Hin].
    - assert (last_assoc l k' = None) as -> by (by apply last_assoc_None). by rewrite decide_True.
    - by rewrite IH. }
  intros N [_ Ha Hs]. unfold writes_at in *. rewrite Forall_forall in Ha, Hs.
  split; apply Forall_forall; intros w Hw; [apply Ha, (Hsub la)|apply Hs, (Hsub ls)]; done.
Qed.

Lemma inner_plain b N c k :
  batch_at N b -> versioned c -> Forall (fun op => forall o, op_contents c k o op = o) (wb_inner b).
Proof.
  intros [Hi _ _] Hc. eapply Forall_impl; [exact Hi|]. cbn. intros op (c' & k' & v & -> & Hc') o. cbn.
  rewrite decide_False; [done|]. by intros [-> _].
Qed.

Lemma inner_no_versions b N c k n :
  batch_at N b -> Forall (fun op => forall o, op_versions c k n o op = o) (wb_inner b).
Proof. intros [Hi _ _]. eapply Forall_impl; [exact Hi|]. cbn. by intros op (c' & k' & v & -> & Hc') o. Qed.

Lemma other_table udt c c' k l :
  c <> c' -> versioned c' ->
  Forall (fun op => forall o, op_contents c k o op = o) (map (fun w => put_version udt c' w.1 w.2) l).
Proof.
  intros Hne Hc. apply Forall_map, Forall_forall. intros w _ o.
  destruct Hc as [-> | ->], udt; cbn; try done; rewrite decide_False; naive_solver.
Qed.

Lemma other_table_versions udt c c' k n l :
  c <> c' -> versioned c' ->
  Forall (fun op => forall o, op_versions c k n o op = o) (map (fun w => put_version udt c' w.1 w.2) l).
Proof.
  intros Hne Hc. apply Forall_map, Forall_forall. intros w _ o.
  destruct Hc as [-> | ->], udt; cbn; try done; rewrite decide_False; naive_solver.
Qed.

(** What a database holds after the batch, in its plain columns. *)
Lemma batch_plain d b c k old :
  ~ versioned c -> fold_left (op_contents c k) (batch_ops d b) old = fold_left (op_contents c k) (wb_inner b) old.
Proof.
  intros Hc. destruct (batch_ops_split d b) as (la & ls & -> & _). rewrite !fold_left_app.
  rewrite (contents_untouched _ _ (map _ ls)) by (apply other_table; [|by right]; intros ->; by apply Hc; right).
  apply contents_untouched, other_table; [|by left]. intros ->. by apply Hc; left.
Qed.

(** The database a batch leaves. *)
Record written d b db' : Prop := {
  wt_kv : kv_ok db';
  wt_contents c k : kv_contents db' c k = fold_left (op_contents c k) (batch_ops d b) (kv_contents (dr_db d) c k);
  wt_versions c k ts : kv_versions db' c k ts = fold_left (op_versions c k ts) (batch_ops d b) (kv_versions (dr_db d) c k ts);
}.

Lemma write_batch d b : kv_ok (dr_db d) -> exists db', db_write (dr_db d) (batch_ops d b) = (Ok tt, db') /\ written d b db'.
Proof. intros Hkv. destruct (rk_write (dr_db d) (batch_ops d b) Hkv) as (db' & Hw & Hok & Hc & Hv). by exists db'. Qed.

(** Its versioned columns, by the writes of each. *)
Lemma batch_table d b N col db' :
  batch_at N b -> versioned col -> written d b db' ->
  exists l, (forall k, last_assoc l k = last_assoc (batch_writes b col) k) /\ writes_at col N l /\
    (dr_udt d = false -> forall k, kv_contents db' col k =
      match last_assoc l k with Some v => Some v | None => kv_contents (dr_db d) col k end) /\
    (dr_udt d = true -> forall p n, kv_versions db' col p n =
      fold_left (op_versions col p n) (map (fun w => put_version true col w.1 w.2) l) (kv_versions (dr_db d) col p n)).
Proof.
  intros Hb Hc [_ Hcon Hver]. destruct (batch_ops_split d b) as (la & ls & Hops & Hla & Hls & Hat).
  destruct (Hat N Hb) as [Hata Hats]. exists (match col with AddressToStorage => ls | _ => la end).
  split; [by destruct Hc as [-> | ->]|]. split; [by destruct Hc as [-> | ->]|]. split.
  - intros Hu k. rewrite Hcon, Hops, !fold_left_app, Hu. rewrite (contents_untouched _ _ (wb_inner b)) by (by eapply inner_plain).
    destruct Hc as [-> | ->].
    + rewrite contents_untouched by (apply other_table; [done|by right]). apply puts_contents.
    + rewrite (contents_untouched _ _ (map _ la)) by (apply other_table; [done|by left]). apply puts_contents.
  - intros Hu p n. rewrite Hver, Hops, !fold_left_app, Hu. rewrite (versions_untouched _ _ _ (wb_inner b)) by (by eapply inner_no_versions).
    destruct Hc as [-> | ->].
    + apply versions_untouched, other_table_versions; [done|by right].
    + f_equal. apply versions_untouched, other_table_versions; [done|by left].
Qed.

(** The versions a batch at [N] leaves: the last write of each key at [N]. *)
Lemma batch_versions d b N col p n db' :
  batch_at N b -> versioned col -> is_u64 N -> is_u64 n -> written d b db' ->
  version_at (dr_udt d) db' col p n =
    if decide (n = N) then
      match last_assoc (batch_writes b col) (version_key inverted_block_encoding p N) with
      | Some v => Some (stored (dr_udt d) col v)
      | None => version_at (dr_udt d) (dr_db d) col p n
      end
    else version_at (dr_udt d) (dr_db d) col p n.
Proof.
  intros Hb Hc HN Hn Hw. destruct (batch_table d b N col db' Hb Hc Hw) as (l & Hl & Hat & Hplain & Hts).
  unfold version_at. destruct (dr_udt d).
  - rewrite Hts by done. rewrite (puts_versions col p n N) by done. by rewrite Hl.
  - rewrite Hplain by done. assert (forall v, stored false col v = v) as Hst by (by destruct col).
    case_decide as HnN; [subst n; rewrite Hl; case_match; by rewrite ?Hst|].
    by rewrite (version_key_other p n N l col).
Qed.

(** A database of the schema stays one. *)
Lemma batch_db_ok d b N db' :
  db_ok (dr_udt d) (dr_db d) -> batch_at N b -> is_u64 N -> written d b db' ->
  Forall (fun w => w.2 = [] \/ is_Some (slim_decode w.2)) (wb_account_writes b) ->
  db_ok (dr_udt d) db'.
Proof.
  intros Hdb Hb HN Hw Hdec. split; [apply Hw| | |].
  - intros col k Hu Hc Hk. destruct (batch_table d b N col db' Hb Hc Hw) as (l & Hl & Hat & Hplain & _).
    rewrite Hplain in Hk by done. destruct (last_assoc l k) as [v|] eqn:Hv; [|by eapply do_plain].
    apply last_assoc_in in Hv. unfold writes_at in Hat. rewrite Forall_forall in Hat.
    destruct (Hat _ Hv) as (p & Hp & Heq). by exists p, N.
  - intros col k n Hu Hc Hk. destruct (batch_table d b N col db' Hb Hc Hw) as (l & Hl & Hat & _ & Hts).
    rewrite Hts, (puts_versions col k n N) in Hk by done. case_decide; [|by eapply do_ts].
    destruct (last_assoc l _) as [v|] eqn:Hv; [|by eapply do_ts].
    apply last_assoc_in in Hv. unfold writes_at in Hat. rewrite Forall_forall in Hat.
    destruct (Hat _ Hv) as (p & Hp & Heq). cbn [fst] in Heq. unfold version_key in Heq. by apply app_inv_tail in Heq as ->.
  - intros p n raw Hn Hv. rewrite (batch_versions d b N) in Hv by (done || by left). case_decide; [|by eapply do_account].
    cbn [batch_writes] in Hv. destruct (last_assoc (wb_account_writes b) _) as [v|] eqn:Hl; [|by eapply do_account].
    apply last_assoc_in in Hl. rewrite Forall_forall in Hdec. cbn [stored] in Hv. apply (inj Some) in Hv. subst raw. by apply (Hdec _ Hl).
Qed.
End commit.
