(* ===== verification/Wrapper.v ===== *)
(** * The wrapper over a database (crates/leafage-evm-storage/src/db.rs)

    [StateDBRead] and [StateDBWrite] are the traits a backend implements, with
    the database passed along since reads fill its caches. [StateDBWrapper]
    gives the reads of [StateDB], with a process-wide cache of analysed
    bytecode, and writes a block as one batch. A handle of type [S] reads and
    writes the database [D]; [B] is the type of a batch. *)

From stdpp Require Import prelude gmap list sorting.
From S2P Require Import Prelude Types QuickCache Backend.

#[local] Open Scope Z_scope.
#[local] Open Scope state_scope.

Class StateDBRead (D S E : Type) := {
  r_latest_block_hash : D -> S -> Res E H256;
  r_block_info : D -> S -> H256 -> Res E (option BlockInfo) * D;
  r_block_hash : D -> S -> u64 -> Res E H256;
  r_account : D -> S -> H256 -> Res E (option NewAccount) * D;
  r_code : D -> S -> H256 -> Res E (option bytes) * D;
  r_storage : D -> S -> H256 * H256 -> Res E U256 * D;
  r_account_many : D -> S -> list H256 -> Res E (list (option NewAccount)) * D;
  r_code_many : D -> S -> list H256 -> Res E (list (option bytes)) * D;
  r_storage_many : D -> S -> list (H256 * H256) -> Res E (list U256) * D;
  r_supports_batched_reads : D -> S -> bool;
  r_storage_slots : D -> S -> H256 -> Res E (option (list (H256 * U256))) * D;
}.

(** [StateDBProvider::db_at]. *)
Class DbAt (D S E : Type) := db_at : D -> BlockId -> Res E (option S) * D.

Class StateDBWrite (D S B E : Type) := {
  w_prepare_write_batch : D -> S -> Res E B;
  w_latest_block_hash : D -> S -> B -> H256 -> Res E B;
  w_block_info : D -> S -> B -> BlockInfo -> Res E B;
  w_block_hash : D -> S -> B -> u64 -> H256 -> Res E B;
  w_account : D -> S -> B -> H256 -> u64 -> option NewAccount -> Res E B;
  w_code : D -> S -> B -> H256 -> bytes -> Res E B;
  w_storage : D -> S -> B -> H256 -> H256 -> u64 -> U256 -> Res E B;
  w_clear_storage : D -> S -> B -> H256 -> u64 -> Res E B * D;
  w_commit : D -> S -> B -> Res E unit * D;
}.

(** ** The sizes of a byte-weighted cache *)

Definition MIN_SHARD_BYTES : Z := 4 * 1024 * 1024.

(** [byte_weighted_cache]: the number of shards, for [default_shards] on this
    machine. *)
Definition cache_shards (capacity_bytes default_shards : Z) : Z :=
  let shards := Z.min (Z.max (capacity_bytes / MIN_SHARD_BYTES) 1) default_shards in
  Z.shiftl 1 (Z.log2 shards).

Definition ANALYZED_CODE_ENTRY_OVERHEAD : Z := 128.

(** [AnalyzedCodeWeighter::weight], of code of [len] bytes. *)
Definition analyzed_code_weight (len : Z) : Z :=
  len + (len + 7) / 8 + ANALYZED_CODE_ENTRY_OVERHEAD.

Section wrapper.
Context `{RevmBytecode} {C : Type -> Type -> Type} `{QuickCache C}.
Context {D S B E : Type} `{!StateDBRead D S E} `{!StateDBWrite D S B E} `{!DbAt D S E}.

(** The database and [ANALYZED_CODE_CACHE], which may be disabled. *)
Record World := mkWorld {
  wd_db : D;
  wd_code : option (C H256 Bytecode);
}.

Implicit Types (w : World) (s : S).

Definition on_db {A} (f : D -> Res E A * D) w : Res E A * World :=
  let '(r, d) := f (wd_db w) in (r, mkWorld d (wd_code w)).

Definition code_cache_get w (code_hash : H256) : option Bytecode :=
  match wd_code w with Some c => qc_get c code_hash | None => None end.

Definition analyze_and_cache w (code_hash : H256) (code : bytes) : Bytecode * World :=
  let bytecode := new_raw code in
  (bytecode,
   match wd_code w with
   | Some cache => mkWorld (wd_db w) (Some (qc_insert cache code_hash bytecode))
   | None => w
   end).

(** ** Reads *)

(** [BlockContext::block_info]. *)
Definition wr_block_info w s : Res E BlockInfo * World :=
  let! (latest_block_hash, w) := (r_latest_block_hash (wd_db w) s, w) in
  let! (info, w) := on_db (fun d => r_block_info d s latest_block_hash) w in
  (match info with Some i => Ok i | None => Panic end, w).

Definition wr_basic w s (address : H256) : Res E (option AccountInfo) * World :=
  let! (raw, w) := on_db (fun d => r_account d s address) w in
  (Ok (option_map account_info_of_new raw), w).

Definition wr_code_by_hash w s (code_hash : H256) : Res E Bytecode * World :=
  match code_cache_get w code_hash with
  | Some bytecode => (Ok bytecode, w)
  | None =>
      let! (code, w) := on_db (fun d => r_code d s code_hash) w in
      match code with
      | Some c => let '(bytecode, w) := analyze_and_cache w code_hash c in (Ok bytecode, w)
      | None => (Ok bytecode_default, w)
      end
  end.

Definition wr_storage w s (key : H256 * H256) : Res E U256 * World :=
  on_db (fun d => r_storage d s key) w.

Definition wr_block_hash w s (number : u64) : Res E H256 * World := (r_block_hash (wd_db w) s number, w).

Definition wr_basic_many w s (addresses : list H256) : Res E (list (option AccountInfo)) * World :=
  let! (raws, w) := on_db (fun d => r_account_many d s addresses) w in
  (Ok (map (option_map account_info_of_new) raws), w).

(** The hashes that missed the cache. *)
Fixpoint missing_codes (hashes : list H256) (out : list (option Bytecode)) : list H256 :=
  match hashes, out with
  | h :: hashes', None :: out' => h :: missing_codes hashes' out'
  | _ :: hashes', Some _ :: out' => missing_codes hashes' out'
  | _, _ => []
  end.

(** The loop that fills the misses from [read], in order. *)
Fixpoint fill_codes w (hashes : list H256) (out : list (option Bytecode)) (read : list (option bytes))
    : list (option Bytecode) * World :=
  match hashes, out with
  | hash :: hashes', slot :: out' =>
      match slot with
      | Some b => let '(rest, w) := fill_codes w hashes' out' read in (Some b :: rest, w)
      | None =>
          let '(b, w) :=
            match mjoin (hd_error read) with
            | Some code => analyze_and_cache w hash code
            | None => (bytecode_default, w)
            end in
          let '(rest, w) := fill_codes w hashes' out' (tail read) in
          (Some b :: rest, w)
      end
  | _, _ => (out, w)
  end.

Definition wr_code_by_hash_many w s (code_hashes : list H256) : Res E (list Bytecode) * World :=
  let out := map (code_cache_get w) code_hashes in
  let missing := missing_codes code_hashes out in
  let! (out, w) :=
    match missing with
    | [] => (Ok out, w)
    | _ =>
        let! (read, w) := on_db (fun d => r_code_many d s missing) w in
        let '(out, w) := fill_codes w code_hashes out read in (Ok out, w)
    end in
  (Ok (map (default bytecode_default) out), w).

Definition wr_storage_many w s (keys : list (H256 * H256)) : Res E (list U256) * World :=
  on_db (fun d => r_storage_many d s keys) w.

Definition wr_supports_batched_reads w s : bool := r_supports_batched_reads (wd_db w) s.

Definition wr_storage_slots w s (address : H256) : Res E (option (list (H256 * U256))) * World :=
  on_db (fun d => r_storage_slots d s address) w.

(** ** Writing a block *)

(** A loop of writes to a batch, [?] on each. *)
Fixpoint write_all {A} (f : B -> A -> Res E B) (b : B) (l : list A) : Res E B :=
  match l with
  | [] => Ok b
  | x :: rest => b ← f b x; write_all f b rest
  end.

(** The loop over the deleted accounts: the account, then its storage. *)
Fixpoint delete_accounts (d : D) s (b : B) (block_number : u64) (accounts : list H256) : Res E B * D :=
  match accounts with
  | [] => (Ok b, d)
  | account :: rest =>
      let! (b, d) := (w_account d s b account block_number None, d) in
      let! (b, d) := w_clear_storage d s b account block_number in
      delete_accounts d s b block_number rest
  end.

(** [update_block], on the database. *)
Definition store_block (d : D) s (block_info : BlockInfo) (block_diff : BlockStorageDiff) : Res E unit * D :=
  let block_number := bi_number block_info in
  let! (b, d) := (w_prepare_write_batch d s, d) in
  let! (b, d) := (w_block_hash d s b block_number (bi_hash block_info), d) in
  let! (b, d) := (w_block_info d s b block_info, d) in
  let! (b, d) := delete_accounts d s b block_number (bd_deleted_accounts block_diff) in
  let! (b, d) := (write_all (fun b a => w_account d s b (na_address a) block_number (Some a)) b
    (bd_new_accounts block_diff), d) in
  let! (b, d) := (write_all (fun b ad =>
      write_all (fun b iv => w_storage d s b (sd_address ad) (iv_index iv) block_number (iv_value iv)) b (sd_diffs ad))
    b (bd_storage_diffs block_diff), d) in
  let! (b, d) := (write_all (fun b c => w_code d s b (nc_code_hash c) (nc_code c)) b (bd_new_codes block_diff), d) in
  let! (b, d) := (w_latest_block_hash d s b (bi_hash block_info), d) in
  w_commit d s b.

Definition wr_update_block w s (block_info : BlockInfo) (block_diff : BlockStorageDiff) : Res E unit * World :=
  on_db (fun d => store_block d s block_info block_diff) w.

Definition wr_last_committed_block w s : Res E (option BlockInfo) * World :=
  let! (latest_block_hash, w) := (r_latest_block_hash (wd_db w) s, w) in
  on_db (fun d => r_block_info d s latest_block_hash) w.

Definition wr_state_at w (block_arg : BlockId) : Res E (option S) * World := on_db (fun d => db_at d block_arg) w.
End wrapper.

Arguments World {_} C D.
Arguments mkWorld {_ C D}.
Arguments wd_db {_ C D}.
Arguments wd_code {_ C D}.

(** ** Sizes *)

Lemma cache_shards_bounds capacity default_shards :
  0 <= capacity -> 1 <= default_shards ->
  1 <= cache_shards capacity default_shards <= default_shards /\
  (cache_shards capacity default_shards = 1 \/
   MIN_SHARD_BYTES <= capacity / cache_shards capacity default_shards).
Proof.
  intros Hc Hd. unfold cache_shards. set (n := Z.min _ _).
  assert (Hn : 1 <= n) by lia. rewrite Z.shiftl_1_l.
  destruct (Z.log2_spec n) as [Hlo _]; [lia|]. assert (Hp := Z.pow_pos_nonneg 2 (Z.log2 n) ltac:(lia) (Z.log2_nonneg n)).
  split; [lia|]. destruct (decide (n = 1)) as [->|]; [by left|right].
  assert (n <= capacity / MIN_SHARD_BYTES) as Hq by lia. unfold MIN_SHARD_BYTES in *.
  apply Z.div_le_lower_bound; [lia|].
  pose proof (Z.mul_div_le capacity (4 * 1024 * 1024) ltac:(lia)). nia.
Qed.
