(* ===== verification/WrapperFacts.v ===== *)
(** * The wrapper over a database: what is read through it

    [StoreOk] is what a backend promises to [StateDBWrapper]: each read answers
    from the store's contents and leaves them as they are, and writing a block
    moves the latest state on by its diff. The wrapper turns it into what the
    state tree asks for ([Backend.BackendOk]); the cache of analysed bytecode
    never shows. A read may refill the caches of the database; [RefillOk] is what
    a database promises of it: what it holds is unchanged. Then a read leaves a
    wrapper on which every handle shows the state it showed. *)

From stdpp Require Import prelude gmap list sorting.
From S2P Require Import Prelude Types QuickCache Backend Layers LayersFacts TreeReads Wrapper.

#[local] Open Scope Z_scope.
#[local] Open Scope state_scope.

#[export] Instance is_u256_dec x : Decision (is_u256 x).
Proof. unfold is_u256. apply _. Defined.

#[export] Instance is_u64_dec x : Decision (is_u64 x).
Proof. unfold is_u64. apply _. Defined.

(** What a backend holds, as its reads show it. *)
Class StoreSpec (D S : Type) := {
  st_ok : D -> Prop;
  st_usable : D -> S -> Prop;
  st_account : D -> S -> H256 -> option NewAccount;
  st_storage : D -> S -> H256 -> H256 -> U256;
  st_code : D -> H256 -> option bytes;
  st_hash : D -> S -> u64 -> H256;
  st_info : D -> S -> BlockInfo;
  st_valid : BlockInfo -> BlockStorageDiff -> Prop;
}.

Section state.
Context `{RevmBytecode} {D S : Type} `{StoreSpec D S}.

(** The state a handle shows. *)
Definition store_state (d : D) (s : S) : AState :=
  {| as_account a := if decide (is_u256 a) then option_map account_info_of_new (st_account d s a) else None;
     as_storage a i := if decide (is_u256 a /\ is_u256 i) then st_storage d s a i else 0;
     as_code h := if decide (is_u256 h) then match st_code d h with Some c => new_raw c | None => bytecode_default end
                  else bytecode_default;
     as_hash n := if decide (is_u64 n) then st_hash d s n else 0;
     as_info := st_info d s |}.
End state.

Class StoreOk (D S B E : Type) `{RevmBytecode} `{!StateDBRead D S E} `{!StateDBWrite D S B E} `{!DbAt D S E}
    `{!StoreSpec D S} : Prop := {
  so_latest d : st_ok d ->
    exists s d', db_at d (ByNumber Latest) = (Ok (Some s), d') /\ st_usable d s;
  so_account d s a : st_ok d -> st_usable d s -> fst (r_account d s a) = Ok (st_account d s a);
  so_account_many d s l : st_ok d -> st_usable d s -> fst (r_account_many d s l) = Ok (map (st_account d s) l);
  so_storage d s k : st_ok d -> st_usable d s -> fst (r_storage d s k) = Ok (st_storage d s k.1 k.2);
  so_storage_many d s l : st_ok d -> st_usable d s ->
    fst (r_storage_many d s l) = Ok (map (fun k => st_storage d s k.1 k.2) l);
  so_code d s h : st_ok d -> st_usable d s -> fst (r_code d s h) = Ok (st_code d h);
  so_code_many d s l : st_ok d -> st_usable d s -> fst (r_code_many d s l) = Ok (map (st_code d) l);
  so_hash d s n : st_ok d -> st_usable d s -> is_u64 n -> r_block_hash d s n = Ok (st_hash d s n);
  so_info d s : st_ok d -> st_usable d s ->
    exists h, r_latest_block_hash d s = Ok h /\ fst (r_block_info d s h) = Ok (Some (st_info d s));
  so_slots d s a slots : st_ok d -> st_usable d s -> is_u256 a -> fst (r_storage_slots d s a) = Ok (Some slots) ->
    forall i, i ∈ slots.*1 <-> is_u256 i /\ st_storage d s a i <> 0;
  so_update d s bi df : st_ok d -> fst (db_at d (ByNumber Latest)) = Ok (Some s) -> st_valid bi df ->
    explicit_diff df (store_state d s) -> extends (st_info d s) bi df ->
    exists d' s', store_block d s bi df = (Ok tt, d') /\ st_ok d' /\
      fst (db_at d' (ByNumber Latest)) = Ok (Some s') /\
      store_state d' s' ≡ overlay_block bi df (store_state d s) /\
      forall h c, st_code d h = Some c -> st_code d' h = Some c;
}.

Section backend.
Context `{RevmBytecode} {C : Type -> Type -> Type} `{QuickCacheOk C}.
Context {D S B E : Type} `{!StateDBRead D S E} `{!StateDBWrite D S B E} `{!DbAt D S E} `{!StoreSpec D S}.
Context `{!StoreOk D S B E}.
Implicit Types (w : World C D) (s : S).

(** The wrapper as the database of the state tree. A read's refills of the
    caches below do not show ([StoreOk] answers the same after them), so the
    read leaves the database it was given. [state_diff] calls itself through
    [state_diff_arc] until the stack is exhausted. *)
#[export] Instance wrapper_provider : StateDBProvider (World C D) S E := {|
  state_at w id := fst (wr_state_at w id);
  basic w s a := fst (wr_basic w s a);
  storage w s k := fst (wr_storage w s k);
  code_by_hash w s h := fst (wr_code_by_hash w s h);
  block_hash w s n := fst (wr_block_hash w s n);
  basic_many w s l := fst (wr_basic_many w s l);
  storage_many w s l := fst (wr_storage_many w s l);
  code_by_hash_many w s l := fst (wr_code_by_hash_many w s l);
  storage_slots w s a := fst (wr_storage_slots w s a);
  supports_batched_reads w s := wr_supports_batched_reads w s;
  block_info w s := fst (wr_block_info w s);
  state_diff _ _ := Panic;
  db_update_block w s bi df := wr_update_block w s bi df;
|}.

(** Analysed code is that of the store. *)
Definition code_cache_ok w : Prop :=
  forall h bc, code_cache_get w h = Some bc -> exists c, st_code (wd_db w) h = Some c /\ bc = new_raw c.

Definition empty_state : AState :=
  mkAState (fun _ => None) (fun _ _ => 0) (fun _ => bytecode_default) (fun _ => 0) (mkBlockInfo 0 0 0 0 []).

#[export] Instance wrapper_spec : BackendSpec (World C D) S := {|
  healthy w := st_ok (wd_db w) /\ code_cache_ok w;
  usable w s := st_usable (wd_db w) s;
  fresh w s := fst (db_at (wd_db w) (ByNumber Latest)) = Ok (Some s);
  view w s := store_state (wd_db w) s;
  head w := match fst (db_at (wd_db w) (ByNumber Latest)) with
            | Ok (Some s) => store_state (wd_db w) s
            | _ => empty_state
            end;
  valid_block := st_valid;
|}.

Lemma on_db_fst {A} (f : D -> Res E A * D) w : fst (on_db f w) = fst (f (wd_db w)).
Proof. unfold on_db. by destruct (f (wd_db w)). Qed.

(** A read through the database, followed by a pure step. *)
Lemma on_db_map {A A'} (f : D -> Res E A * D) (g : A -> A') w a :
  fst (f (wd_db w)) = Ok a ->
  fst (let! (x, w) := on_db f w in (Ok (g x), w)) = Ok (g a).
Proof. unfold on_db. destruct (f (wd_db w)) as [r d]. cbn. by intros ->. Qed.

(** The code of a hash, analysed. *)
Definition code_at (d : D) (h : H256) : Bytecode :=
  match st_code d h with Some c => new_raw c | None => bytecode_default end.

Lemma code_by_hash_ok w s h :
  st_ok (wd_db w) -> code_cache_ok w -> st_usable (wd_db w) s ->
  fst (wr_code_by_hash w s h) = Ok (code_at (wd_db w) h).
Proof.
  intros Hd Hc Hs. unfold wr_code_by_hash, code_at.
  destruct (code_cache_get w h) as [bc|] eqn:Hget.
  - by destruct (Hc h bc Hget) as (c & -> & ->).
  - pose proof (so_code _ _ h Hd Hs) as Hcode. unfold on_db. destruct (r_code (wd_db w) s h) as [r d]. cbn in Hcode. subst r.
    cbn [sbind]. by destruct (st_code (wd_db w) h).
Qed.

Lemma fill_codes_ok d hashes : forall w out,
  Forall2 (fun h o => o = None \/ o = Some (code_at d h)) hashes out ->
  fst (fill_codes w hashes out (map (st_code d) (missing_codes hashes out))) = map (fun h => Some (code_at d h)) hashes.
Proof.
  induction hashes as [|h hashes IH]; intros w out Hout; inversion Hout as [|? o ? out' Ho Hout']; subst; [done|].
  destruct Ho as [-> | ->]; cbn [fill_codes missing_codes map hd_error tail].
  - destruct (match mjoin (Some (st_code d h)) with Some _ => _ | None => _ end) as [b w1] eqn:Hb.
    specialize (IH w1 out' Hout'). destruct (fill_codes w1 _ _ _) as [rest w2]. cbn in IH |- *. rewrite IH. f_equal. f_equal.
    unfold code_at. cbn in Hb. destruct (st_code d h); by injection Hb as <- _.
  - specialize (IH w out' Hout'). destruct (fill_codes w _ _ _) as [rest w2]. cbn in IH |- *. by rewrite IH.
Qed.

Lemma missing_none hashes out d :
  missing_codes hashes out = [] -> Forall2 (fun h o => o = None \/ o = Some (code_at d h)) hashes out ->
  out = map (fun h => Some (code_at d h)) hashes.
Proof.
  intros Hm. induction 1 as [|h o hashes out [-> | ->] _ IH]; [done|done|]. cbn in *. by rewrite IH.
Qed.

Lemma code_by_hash_many_ok w s l :
  st_ok (wd_db w) -> code_cache_ok w -> st_usable (wd_db w) s ->
  fst (wr_code_by_hash_many w s l) = Ok (map (code_at (wd_db w)) l).
Proof.
  intros Hd Hc Hs. unfold wr_code_by_hash_many.
  assert (Hout : Forall2 (fun h o => o = None \/ o = Some (code_at (wd_db w) h)) l (map (code_cache_get w) l)).
  { clear -Hc. induction l as [|h l IH]; constructor; [|done]. destruct (code_cache_get w h) as [bc|] eqn:Hg; [right|by left].
    destruct (Hc h bc Hg) as (c & Hcode & ->). unfold code_at. by rewrite Hcode. }
  set (out := map (code_cache_get w) l) in *.
  destruct (missing_codes l out) as [|m0 ms] eqn:Hm.
  - cbn [sbind fst]. rewrite (missing_none l out (wd_db w) Hm Hout). by rewrite map_map.
  - rewrite <- Hm. pose proof (so_code_many _ _ (missing_codes l out) Hd Hs) as Hread. unfold on_db.
    destruct (r_code_many (wd_db w) s (missing_codes l out)) as [r d']. cbn in Hread. subst r. cbn [sbind].
    pose proof (fill_codes_ok (wd_db w) l (mkWorld d' (wd_code w)) out Hout) as Hfill.
    destruct (fill_codes _ l out _) as [o w']. cbn in Hfill |- *. subst o. by rewrite map_map.
Qed.

#[export] Instance wrapper_ok : BackendOk (World C D) S E.
Proof.
  split; cbn.
  - intros w [Hd _]. destruct (so_latest _ Hd) as (s & d' & Hs & Hu). exists s.
    unfold wr_state_at. rewrite on_db_fst, Hs. done.
  - intros w s [Hd _] Hf. destruct (so_latest _ Hd) as (s' & d' & Hs & Hu). rewrite Hs in Hf. by injection Hf as ->.
  - intros w s _ ->. done.
  - intros w s a [Hd _] Hs Ha. rewrite decide_True by done. unfold wr_basic.
    rewrite (on_db_map (fun d => r_account d s a) (option_map account_info_of_new) w (st_account (wd_db w) s a)); [done|].
    by apply so_account.
  - intros w s a i [Hd _] Hs Ha Hi. rewrite decide_True by done. unfold wr_storage. rewrite on_db_fst. by apply (so_storage _ _ (a, i)).
  - intros w s h [Hd Hc] Hs Hh. rewrite decide_True by done. by apply code_by_hash_ok.
  - intros w s n [Hd _] Hs Hn. rewrite decide_True by done. by apply so_hash.
  - intros w s [Hd _] Hs. destruct (so_info _ _ Hd Hs) as (h & Hh & Hi). unfold wr_block_info. rewrite Hh. cbn [sbind].
    unfold on_db. destruct (r_block_info (wd_db w) s h) as [r d']. cbn in Hi. by subst r.
  - intros w s a disk [Hd _] Hs Ha Hsl i. unfold wr_storage_slots in Hsl. rewrite on_db_fst in Hsl.
    rewrite (so_slots _ _ _ _ Hd Hs Ha Hsl i). split; intros [Hi Hv]; (split; [done|]);
      [rewrite decide_True by done; done|by rewrite decide_True in Hv by done].
  - intros w s l [Hd _] Hs. unfold wr_basic_many.
    rewrite (on_db_map (fun d => r_account_many d s l) (map (option_map account_info_of_new)) w (map (st_account (wd_db w) s) l))
      by (by apply so_account_many).
    rewrite (res_mapM_ok _ (fun a => option_map account_info_of_new (st_account (wd_db w) s a))); [by rewrite map_map|].
    intros a _. unfold wr_basic.
    rewrite (on_db_map (fun d => r_account d s a) (option_map account_info_of_new) w (st_account (wd_db w) s a)); [done|].
    by apply so_account.
  - intros w s l [Hd _] Hs. unfold wr_storage_many. rewrite on_db_fst, so_storage_many by done.
    symmetry. apply res_mapM_ok. intros k _. unfold wr_storage. rewrite on_db_fst. by apply so_storage.
  - intros w s l [Hd Hc] Hs. rewrite code_by_hash_many_ok by done. symmetry. apply res_mapM_ok.
    intros h _. by apply code_by_hash_ok.
  - intros w s bi df [Hd Hc] Hf Hv Hx He. rewrite Hf in Hx, He |- *.
    destruct (so_update _ _ _ _ Hd Hf Hv Hx He) as (d' & s' & Hst & Hd' & Hs' & Hview & Hcode).
    unfold wr_update_block, on_db. rewrite Hst. eexists. split; [done|]. cbn [wd_db]. rewrite Hs'.
    split; [|done]. split; [done|]. intros h bc Hg. destruct (Hc h bc Hg) as (c & Hc' & ->). exists c. auto.
Qed.
End backend.

(** [refilled d d'] : [d'] is [d] with other contents of its caches. *)
Class RefillSpec (D : Type) := refilled : relation D.

Class RefillOk (D S E : Type) `{!StateDBRead D S E} `{!StoreSpec D S} `{!RefillSpec D} : Prop := {
  rf_refl d : refilled d d;
  rf_trans d1 d2 d3 : refilled d1 d2 -> refilled d2 d3 -> refilled d1 d3;
  rf_ok d d' : st_ok d -> refilled d d' -> st_ok d';
  rf_usable d d' s : refilled d d' -> st_usable d s -> st_usable d' s;
  rf_account d d' s a : refilled d d' -> st_account d' s a = st_account d s a;
  rf_storage d d' s a i : refilled d d' -> st_storage d' s a i = st_storage d s a i;
  rf_code d d' x : refilled d d' -> st_code d' x = st_code d x;
  rf_hash d d' s n : refilled d d' -> st_hash d' s n = st_hash d s n;
  rf_info d d' s : refilled d d' -> st_info d' s = st_info d s;
  rf_r_account d s a : st_ok d -> st_usable d s -> refilled d (snd (r_account d s a));
  rf_r_account_many d s l : st_ok d -> st_usable d s -> refilled d (snd (r_account_many d s l));
  rf_r_storage d s k : st_ok d -> st_usable d s -> refilled d (snd (r_storage d s k));
  rf_r_storage_many d s l : st_ok d -> st_usable d s -> refilled d (snd (r_storage_many d s l));
  rf_r_code d s x : st_ok d -> st_usable d s -> refilled d (snd (r_code d s x));
  rf_r_code_many d s l : st_ok d -> st_usable d s -> refilled d (snd (r_code_many d s l));
}.

Section run.
Context `{RevmBytecode} {C : Type -> Type -> Type} `{QuickCacheOk C}.
Context {D S B E : Type} `{!StateDBRead D S E} `{!StateDBWrite D S B E} `{!DbAt D S E} `{!StoreSpec D S}.
Context `{!StoreOk D S B E} `{!RefillSpec D} `{!RefillOk D S E}.
Implicit Types (w : World C D) (s : S).

(** A read through the wrapper, the wrapper it leaves included. *)
Definition wrap_answer {A} (f : A -> Answer) (r : Res E A * World C D) : Res E Answer * World C D := (f <$> r.1, r.2).

Definition wr_read w s (op : ReadOp) : Res E Answer * World C D :=
  match op with
  | RBasic a => wrap_answer (fun x => AAccounts [x]) (wr_basic w s a)
  | RStorage a i => wrap_answer (fun x => AWords [x]) (wr_storage w s (a, i))
  | RCode x => wrap_answer (fun x => ACodes [x]) (wr_code_by_hash w s x)
  | RBlockHash n => wrap_answer (fun x => AWords [x]) (wr_block_hash w s n)
  | RBasicMany l => wrap_answer AAccounts (wr_basic_many w s l)
  | RStorageMany l => wrap_answer AWords (wr_storage_many w s l)
  | RCodeMany l => wrap_answer ACodes (wr_code_by_hash_many w s l)
  end.

(** Only caches differ, and they are right. *)
Definition rewarmed w w' : Prop := refilled (wd_db w) (wd_db w') /\ (code_cache_ok w -> code_cache_ok w').

Lemma rewarmed_refl w : rewarmed w w.
Proof. split; [apply rf_refl|done]. Qed.

Lemma rewarmed_trans w1 w2 w3 : rewarmed w1 w2 -> rewarmed w2 w3 -> rewarmed w1 w3.
Proof. intros [] []. split; [by eapply rf_trans|auto]. Qed.

Lemma rewarmed_healthy w w' : healthy w -> rewarmed w w' -> healthy w'.
Proof. intros [Hd Hc] [Hr Hc']. split; [by eapply rf_ok|auto]. Qed.

Lemma rewarmed_usable w w' s : rewarmed w w' -> usable w s -> usable w' s.
Proof. intros [Hr _]. by apply rf_usable. Qed.

Lemma rewarmed_view w w' s : rewarmed w w' -> view w' s ≡ view w s.
Proof.
  intros [Hr _]. split; intros; cbn.
  - case_decide; [|done]. by erewrite rf_account.
  - case_decide; [|done]. by erewrite rf_storage.
  - case_decide; [|done]. by erewrite rf_code.
  - case_decide; [|done]. by erewrite rf_hash.
  - by erewrite rf_info.
Qed.

Lemma on_db_rewarmed {A} (f : D -> Res E A * D) w : refilled (wd_db w) (snd (f (wd_db w))) -> rewarmed w (snd (on_db f w)).
Proof.
  intros Hr. unfold on_db. destruct (f (wd_db w)) as [r d]. cbn in *. split; [done|].
  intros Hc h bc Hg. destruct (Hc h bc Hg) as (c & Hcode & ->). exists c. by erewrite rf_code.
Qed.

Lemma on_db_map_rewarmed {A A'} (f : D -> Res E A * D) (g : A -> A') w :
  refilled (wd_db w) (snd (f (wd_db w))) -> rewarmed w (snd (let! (x, w) := on_db f w in (Ok (g x), w))).
Proof. intros Hr%on_db_rewarmed. by destruct (on_db f w) as [[] w']. Qed.

Lemma analyze_rewarmed w h c : st_code (wd_db w) h = Some c -> rewarmed w (snd (analyze_and_cache w h c)).
Proof.
  intros Hc. unfold analyze_and_cache. destruct (wd_code w) as [cache|] eqn:Hw; [|by apply rewarmed_refl].
  split; [apply rf_refl|]. cbn. intros Hok x bc Hg. unfold code_cache_get in Hg. cbn in Hg.
  destruct (decide (x = h)) as [->|Hne].
  - apply qc_get_insert_eq in Hg. exists c. split; [done|congruence].
  - apply qc_get_insert_ne in Hg; [|done]. apply Hok. unfold code_cache_get. by rewrite Hw.
Qed.

Lemma code_read_rewarmed w s x : healthy w -> usable w s -> rewarmed w (snd (wr_code_by_hash w s x)).
Proof.
  intros [Hd Hc] Hs. unfold wr_code_by_hash. destruct (code_cache_get w x); [apply rewarmed_refl|].
  pose proof (so_code _ _ x Hd Hs) as Hcode. pose proof (on_db_rewarmed (fun d => r_code d s x) w (rf_r_code _ _ x Hd Hs)) as Hr.
  pose proof (on_db_fst (fun d => r_code d s x) w) as Hf. cbn beta in Hf. rewrite Hcode in Hf.
  destruct (on_db (fun d => r_code d s x) w) as [r w']. cbn in Hf. subst r. cbn [sbind snd] in *.
  destruct (st_code (wd_db w) x) as [c|] eqn:Hx; [|done].
  eapply rewarmed_trans; [exact Hr|]. pose proof (analyze_rewarmed w' x c) as Ha.
  destruct (analyze_and_cache w' x c). cbn in *. apply Ha. erewrite rf_code; [done|apply Hr].
Qed.

Lemma fill_codes_rewarmed d hashes : forall w out,
  (forall x, st_code (wd_db w) x = st_code d x) ->
  rewarmed w (snd (fill_codes w hashes out (map (st_code d) (missing_codes hashes out)))).
Proof.
  induction hashes as [|h hashes IH]; intros w out Hd; [by apply rewarmed_refl|].
  destruct out as [|[b|] out]; cbn [fill_codes missing_codes map hd_error tail]; [by apply rewarmed_refl|..].
  - specialize (IH w out Hd). by destruct (fill_codes w _ _ _).
  - destruct (match mjoin (Some (st_code d h)) with Some _ => _ | None => _ end) as [b w1] eqn:Hb.
    assert (Hr : rewarmed w w1).
    { cbn in Hb. destruct (st_code d h) as [c|] eqn:Hc; [|injection Hb as _ <-; apply rewarmed_refl].
      pose proof (analyze_rewarmed w h c) as Ha. unfold analyze_and_cache in Hb, Ha. cbn in Ha. injection Hb as _ <-. apply Ha. by rewrite Hd. }
    assert (Hd1 : forall x, st_code (wd_db w1) x = st_code d x) by (intros x; rewrite <- Hd; apply rf_code, Hr).
    specialize (IH w1 out Hd1). destruct (fill_codes w1 _ _ _). cbn in *. by eapply rewarmed_trans.
Qed.

Lemma codes_read_rewarmed w s l : healthy w -> usable w s -> rewarmed w (snd (wr_code_by_hash_many w s l)).
Proof.
  intros [Hd Hc] Hs. unfold wr_code_by_hash_many. set (out := map (code_cache_get w) l).
  destruct (missing_codes l out) as [|m0 ms] eqn:Hm; [by apply rewarmed_refl|]. rewrite <- Hm.
  set (f := fun d => r_code_many d s (missing_codes l out)). pose proof (so_code_many _ _ (missing_codes l out) Hd Hs) as Hread.
  pose proof (on_db_rewarmed f w (rf_r_code_many _ _ (missing_codes l out) Hd Hs)) as Hr.
  pose proof (on_db_fst f w) as Hf. change (f (wd_db w)) with (r_code_many (wd_db w) s (missing_codes l out)) in Hf. rewrite Hread in Hf.
  destruct (on_db f w) as [r w']. cbn in Hf. subst r. cbn [sbind snd] in *.
  pose proof (fill_codes_rewarmed (wd_db w) l w' out) as Hfill. destruct (fill_codes w' l out _) as [o w2]. cbn in *.
  eapply rewarmed_trans; [exact Hr|]. apply Hfill. intros x. apply rf_code, Hr.
Qed.

(** A read answers the state of its handle and leaves only caches behind. *)
Lemma wr_read_ok w s op :
  healthy w -> usable w s -> op_ok op ->
  exists w', wr_read w s op = (Ok (answer_of (view w s) op), w') /\ rewarmed w w'.
Proof.
  intros Hw Hs Hop. pose proof Hw as [Hd Hc]. exists (snd (wr_read w s op)). split.
  - rewrite (surjective_pairing (wr_read w s op)) at 1. f_equal.
    destruct op as [a|a i|x|n|l|l|l]; cbn [wr_read wrap_answer fst answer_of op_ok] in *.
    + change (fst (wr_basic w s a)) with (basic w s a). by rewrite ok_basic.
    + destruct Hop. change (fst (wr_storage w s (a, i))) with (storage w s (a, i)). by rewrite ok_storage.
    + change (fst (wr_code_by_hash w s x)) with (code_by_hash w s x). by rewrite ok_code.
    + change (fst (wr_block_hash w s n)) with (block_hash w s n). by rewrite ok_hash.
    + change (fst (wr_basic_many w s l)) with (basic_many w s l). rewrite ok_basic_many by done.
      rewrite (res_mapM_ok _ (as_account (view w s))); [done|]. intros a Ha. apply ok_basic; [done..|]. by eapply Forall_forall in Hop.
    + change (fst (wr_storage_many w s l)) with (storage_many w s l). rewrite ok_storage_many by done.
      rewrite (res_mapM_ok _ (slot_value (view w s))); [done|]. intros [a i] Ha. eapply Forall_forall in Hop as [? ?]; [|done].
      by apply ok_storage.
    + change (fst (wr_code_by_hash_many w s l)) with (code_by_hash_many w s l). rewrite ok_code_many by done.
      rewrite (res_mapM_ok _ (as_code (view w s))); [done|]. intros a Ha. apply ok_code; [done..|]. by eapply Forall_forall in Hop.
  - destruct op as [a|a i|x|n|l|l|l]; cbn [wr_read wrap_answer snd].
    + by apply on_db_map_rewarmed, rf_r_account.
    + by apply on_db_rewarmed, rf_r_storage.
    + by apply code_read_rewarmed.
    + apply rewarmed_refl.
    + by apply on_db_map_rewarmed, rf_r_account_many.
    + by apply on_db_rewarmed, rf_r_storage_many.
    + by apply codes_read_rewarmed.
Qed.
End run.
