(* ===== verification/ArchiveBackend.v ===== *)
(** * The archive as the wrapper's database: invariant and reads

    The archive implements the traits of the wrapper ([archive_read],
    [archive_write], [archive_db_at]). [node_ok] is the invariant of a node's
    archive over the blocks it may ever hold; this file shows that its reads
    answer from what the database holds, whatever the caches and the block
    index hold. *)

From stdpp Require Import prelude gmap list sorting strings.
From S2P Require Import Prelude Types QuickCache Backend KvStore ArchiveEncoding StateCache BlockIndex BlockIndexFacts.
From S2P Require Import BlockIndexStore BlockIndexRun BlockIndexTheorems Archive ArchiveReads ArchiveSlots ArchiveWrite.
From S2P Require Import ArchiveCommit Wrapper WrapperFacts.

#[local] Open Scope Z_scope.
#[local] Open Scope state_scope.

Section instances.
Context {K E : Type} `{RocksDB K E} {C : Type -> Type -> Type} `{QuickCache C}.
Context `{SlimCodec} `{BlockCodec E} `{ArchiveConfig}.

(** [impl StateDBRead for StateDB]. *)
#[export] Instance archive_read : StateDBRead (DataBaseRef K C) (StateDB K) (Error E) := {|
  r_latest_block_hash := sd_read_latest_block_hash;
  r_block_info := sd_read_block_info;
  r_block_hash := sd_read_block_hash;
  r_account := read_account;
  r_code d _ := read_code d;
  r_storage d h k := read_storage d h k.1 k.2;
  r_account_many := read_account_many;
  r_code_many d _ := read_code_many d;
  r_storage_many := read_storage_many;
  r_supports_batched_reads _ _ := false;
  r_storage_slots := read_storage_slots;
|}.

(** [impl StateDBWrite for StateDB]. *)
#[export] Instance archive_write : StateDBWrite (DataBaseRef K C) (StateDB K) ArchiveRocksDBWriteBatch (Error E) := {|
  w_prepare_write_batch d _ := prepare_write_batch d;
  w_latest_block_hash d _ := write_latest_block_hash d;
  w_block_info d _ := write_block_info d;
  w_block_hash d _ := write_block_hash d;
  w_account d _ := write_account d;
  w_code d _ := write_code d;
  w_storage d _ := write_storage d;
  w_clear_storage d h b a n := clear_storage d h b a n;
  w_commit d _ := commit d;
|}.

#[export] Instance archive_db_at : DbAt (DataBaseRef K C) (StateDB K) (Error E) := Archive.db_at.
End instances.

(** What RLP and JSON promise of a stored block: the header reads back, with
    what follows it left over, and the other fields complete it. [storable]
    are the blocks that have only those parts. *)
Class BlockCodecSpec := storable : BlockInfo -> Prop.

Class BlockCodecOk (E : Type) `{BlockCodec E} `{BlockCodecSpec} : Prop := {
  bc_other info : storable info -> exists other, encode_other info = Ok other;
  bc_header info : storable info -> exists hd,
    (forall rest, decode_header (bi_hash info) (encode_header info ++ rest) = Ok (hd, rest)) /\
    forall other, encode_other info = Ok other -> (match other with [] => hd | _ => add_other hd other end) = info;
  bc_number x raw hd rest : decode_header x raw = Ok (hd, rest) -> header_number false raw = Ok (bi_number hd);
  bc_other_number hd other : bi_number (add_other hd other) = bi_number hd;
}.

Lemma block_info_roundtrip {E} `{BlockCodecOk E} info :
  storable info -> exists raw, encode_block_info info = Ok raw /\ decode_block_info (bi_hash info) raw = Ok info.
Proof.
  intros Hs. destruct (bc_other info Hs) as [other Ho]. destruct (bc_header info Hs) as (hd & Hd & Hadd).
  unfold encode_block_info, decode_block_info. rewrite Ho. rewrite res_bind_ok. eexists. split; [done|].
  rewrite Hd, res_bind_ok. by rewrite Hadd.
Qed.

Lemma stored_number {E} `{BlockCodecOk E} x raw info :
  decode_block_info x raw = Ok (E := Error E) info -> header_number (E := E) false raw = Ok (bi_number info).
Proof.
  unfold decode_block_info. destruct (decode_header x raw) as [[hd rest]|e|] eqn:Hd; [|done..]. rewrite res_bind_ok.
  intros Heq. injection Heq as <-. rewrite (bc_number _ _ _ _ Hd). destruct rest; [done|]. by rewrite bc_other_number.
Qed.

Section node.
Context {K E : Type} `{RocksDBOk K E} {C : Type -> Type -> Type} `{QuickCacheOk C}.
Context `{SlimCodecOk} `{BlockCodecOk E} `{ArchiveConfig}.
Implicit Types (d : DataBaseRef K C) (h : StateDB K) (db : K).

(** Every block and every code the node may ever see, by hash: a hash names
    one block and one code. *)
Context (blocks : gmap H256 BlockInfo) (codes : H256 -> option bytes).

(** The entries of the block index over all of [blocks]. *)
Definition block_entries : gset (H256 * u32) :=
  list_to_set (map (fun x => (fst x, bi_number (snd x))) (map_to_list blocks)).

Record blocks_ok : Prop := {
  bk_hash x bi : blocks !! x = Some bi -> bi_hash bi = x /\ is_u256 x /\ x <> 0;
  bk_number x bi : blocks !! x = Some bi -> is_u32 (bi_number bi);
  bk_storable x bi : blocks !! x = Some bi -> storable bi;
  bk_size : Z.of_nat (size blocks) < 2 ^ 32;
  bk_crc x : is_u32 (crc32 x);
}.

Lemma elem_of_block_entries x n : (x, n) ∈ block_entries <-> exists bi, blocks !! x = Some bi /\ bi_number bi = n.
Proof.
  unfold block_entries. rewrite elem_of_list_to_set, list_elem_of_fmap. split.
  - intros ([x' bi] & Heq & Hin). cbn in Heq. apply elem_of_map_to_list in Hin. exists bi. split; congruence.
  - intros (bi & Hb & <-). exists (x, bi). split; [done|]. by apply elem_of_map_to_list.
Qed.

Lemma entries_range : blocks_ok -> forall x n, (x, n) ∈ block_entries -> is_u256 x /\ is_u32 n.
Proof. intros Hb x n (bi & Hbi & <-)%elem_of_block_entries. split; [by apply Hb in Hbi as (? & ? & ?)|by eapply bk_number]. Qed.

Lemma entries_size : blocks_ok -> Z.of_nat (size block_entries) < 2 ^ 32.
Proof.
  intros Hb. pose proof (bk_size Hb). assert (size block_entries <= size blocks)%nat; [|lia].
  unfold block_entries. rewrite <- length_map_to_list, <- (length_map (fun x => (fst x, bi_number (snd x))) (map_to_list blocks)).
  apply size_list_to_set_le.
Qed.

(** A stored block info, under the schema of the node. *)
Definition info_stored d (info : BlockInfo) : Prop :=
  exists raw, decode_block_info (bi_hash info) raw = Ok info /\
  match dr_block_index d with
  | Some _ => kv_contents (dr_db d) BlockNumToBlockInfo (index_key (bi_number info)) = Some (index_record (bi_hash info) raw)
  | None => kv_contents (dr_db d) BlockHashToBlockInfo (h256_bytes (bi_hash info)) = Some raw
  end.

(** The block infos a database holds are those of [blocks], and the index
    finds them. *)
Record infos_ok d : Prop := {
  io_plain k raw : dr_block_index d = None -> kv_contents (dr_db d) BlockHashToBlockInfo k = Some raw ->
    exists info, blocks !! bi_hash info = Some info /\ k = h256_bytes (bi_hash info) /\ decode_block_info (bi_hash info) raw = Ok info;
  io_indexed k r : is_Some (dr_block_index d) -> kv_contents (dr_db d) BlockNumToBlockInfo k = Some r ->
    exists info raw, blocks !! bi_hash info = Some info /\ k = index_key (bi_number info) /\ r = index_record (bi_hash info) raw /\
      decode_block_info (bi_hash info) raw = Ok info;
  io_index ix : dr_block_index d = Some ix -> run_ok (E := E) crc32 block_entries (dr_db d) ix;
  io_cache c x info : dr_block_info_cache d = Some c -> qc_get c x = Some info -> blocks !! x = Some info;
}.

(** The archive of a node whose last block is [hd]. *)
Record node_ok d (hd : BlockInfo) : Prop := {
  no_archive : archive_ok d;
  no_infos : infos_ok d;
  no_head : blocks !! bi_hash hd = Some hd;
  no_latest : kv_contents (dr_db d) LatestBlockHash [1] = Some (h256_bytes (bi_hash hd));
  no_head_info : info_stored d hd;
  no_head_hash : kv_contents (dr_db d) BlockNumToBlockHash (encode_block_num (bi_number hd)) = Some (h256_bytes (bi_hash hd));
  no_hashes k raw : kv_contents (dr_db d) BlockNumToBlockHash k = Some raw ->
    length raw = 32%nat /\ exists n, is_u64 n /\ k = encode_block_num n;
  no_versions col p n : versioned col -> is_u64 n -> bi_number hd < n -> version_at (dr_udt d) (dr_db d) col p n = None;
  no_cache_head c : dr_state_cache d = Some c -> sc_head c <= bi_number hd;
  no_codes k raw : kv_contents (dr_db d) HashToCode k = Some raw -> codes (from_be k) = Some raw;
  no_code_cache c x code : dr_code_cache d = Some c -> qc_get c x = Some code ->
    kv_contents (dr_db d) HashToCode (h256_bytes x) = Some code;
}.

(** A handle on block [info], opened by [db_at]. *)
Record handle_on d h (info : BlockInfo) : Prop := {
  hn_handle : handle_ok d h;
  hn_info : sd_block_info h = Some info;
  hn_number : sd_block_num h = bi_number info;
}.

(** A block the archive can be asked for: its info and its number. *)
Definition block_stored d (info : BlockInfo) : Prop :=
  blocks !! bi_hash info = Some info /\ info_stored d info /\
  kv_contents (dr_db d) BlockNumToBlockHash (encode_block_num (bi_number info)) = Some (h256_bytes (bi_hash info)).

Context (Hblocks : blocks_ok).

Lemma node_block d hd : node_ok d hd -> block_stored d hd.
Proof. intros []. done. Qed.

Lemma block_u64 info : blocks !! bi_hash info = Some info -> is_u64 (bi_number info).
Proof. intros Hb. by apply u32_u64, (bk_number Hblocks _ _ Hb). Qed.

Lemma block_u256 info : blocks !! bi_hash info = Some info -> is_u256 (bi_hash info).
Proof. intros Hb. by apply (bk_hash Hblocks) in Hb as (_ & ? & _). Qed.

(** *** Block infos *)

Lemma db_kv d hd : node_ok d hd -> kv_ok (dr_db d).
Proof. intros Hn. apply Hn. Qed.

Lemma take_record x raw : take 32 (index_record x raw) = h256_bytes x.
Proof. unfold index_record. apply take_address. Qed.

Lemma drop_record x raw : drop 32 (index_record x raw) = raw.
Proof. unfold index_record. rewrite drop_app_length' by (by rewrite length_h256). done. Qed.

Lemma first_candidate_ok d hd info numbers :
  node_ok d hd -> is_Some (dr_block_index d) -> block_stored d info -> bi_number info ∈ numbers ->
  first_candidate d (bi_hash info) numbers = Ok (Some info).
Proof.
  intros Hn Hix (Hb & (raw & Hdec & Hst) & _) Hin. pose proof (db_kv _ _ Hn) as Hkv. destruct Hix as [ix Hix]. rewrite Hix in Hst.
  induction numbers as [|m numbers IH]; [by apply elem_of_nil in Hin|]. cbn [first_candidate].
  rewrite (rk_get (dr_db d) _ _ Hkv). cbn [rocks]. rewrite res_bind_ok.
  destruct (kv_contents (dr_db d) BlockNumToBlockInfo (index_key m)) as [r|] eqn:Hr.
  - destruct (io_indexed _ (no_infos _ _ Hn) _ _ ltac:(by eexists) Hr) as (info' & raw' & Hb' & Hk & -> & Hdec').
    rewrite take_record, drop_record. case_decide as Heq.
    + apply h256_inj in Heq; [|by apply block_u256..]. rewrite Heq in Hb', Hdec'. rewrite Hdec', res_bind_ok. congruence.
    + apply IH. apply elem_of_cons in Hin as [<-|Hin]; [|done]. rewrite Hst in Hr. apply (inj Some) in Hr.
      apply (f_equal (take 32)) in Hr. rewrite !take_record in Hr. congruence.
  - apply IH. apply elem_of_cons in Hin as [<-|Hin]; [congruence|done].
Qed.

Lemma lookup_block_info d hd info :
  node_ok d hd -> block_stored d info ->
  match dr_block_index d with
  | Some index => read_block_info_by_number d index (bi_hash info)
  | None => read_block_info_from_db d (bi_hash info)
  end = Ok (Some info).
Proof.
  intros Hn Hb. pose proof (db_kv _ _ Hn) as Hkv. destruct (dr_block_index d) as [ix|] eqn:Hix.
  - destruct (io_index _ (no_infos _ _ Hn) ix Hix) as (B & k & N & Hc & HB & HN & Hrun).
    destruct Hb as (Hbl & Hinfo & Hhash). unfold read_block_info_by_number.
    destruct (candidates_ok k N ix (bi_hash info)) as (l & Hl & _ & Hcomplete & _); [by destruct Hrun|].
    rewrite Hl. cbn [unwrap]. rewrite res_bind_ok. apply first_candidate_ok with (hd := hd); [done|by eexists|done|].
    apply Hcomplete, HN. eapply cf3_has_in; [exact Hc|by apply block_u256|by apply block_u64|done].
  - destruct Hb as (Hbl & (raw & Hdec & Hst) & Hhash). rewrite Hix in Hst. unfold read_block_info_from_db.
    rewrite (rk_get (dr_db d) _ _ Hkv), Hst. cbn [rocks]. rewrite res_bind_ok. by rewrite Hdec, res_bind_ok.
Qed.

(** Only the cache of block infos differs, and it is right. *)
Definition reinfo d d' : Prop :=
  d' = set_block_info_cache d (dr_block_info_cache d') /\
  forall c x info, dr_block_info_cache d' = Some c -> qc_get c x = Some info -> blocks !! x = Some info.

Lemma read_block_info_ok d hd info :
  node_ok d hd -> block_stored d info ->
  exists d', read_block_info d (bi_hash info) = (Ok (Some info), d') /\ reinfo d d'.
Proof.
  intros Hn Hb. unfold read_block_info. pose proof (lookup_block_info d hd info Hn Hb) as Hlook.
  pose proof (io_cache _ (no_infos _ _ Hn)) as Hcache. pose proof Hb as (Hbl & _).
  assert (Hsame : reinfo d d) by (by destruct d).
  destruct (dr_block_info_cache d) as [c|] eqn:Hc.
  - destruct (qc_get c (bi_hash info)) as [info'|] eqn:Hg.
    + exists d. split; [|done]. pose proof (Hcache c _ _ eq_refl Hg). congruence.
    + rewrite Hlook. cbn [sbind]. rewrite Hc. eexists. split; [done|]. split; [done|]. cbn.
      intros c' x i [= <-] Hi. destruct (decide (x = bi_hash info)) as [->|Hne].
      * apply qc_get_insert_eq in Hi. congruence.
      * apply qc_get_insert_ne in Hi; [|done]. by eapply Hcache.
  - rewrite Hlook. cbn [sbind]. rewrite Hc. by exists d.
Qed.

(** *** Hashes and codes *)

Lemma read_latest_ok d hd : node_ok d hd -> read_latest_block_hash d = Ok (bi_hash hd).
Proof.
  intros Hn. unfold read_latest_block_hash. rewrite (rk_get (dr_db d) _ _ (db_kv _ _ Hn)), (no_latest _ _ Hn).
  cbn [rocks]. rewrite res_bind_ok. apply h256_from_slice_ok, block_u256, Hn.
Qed.

Definition hash_at (db : K) (n : u64) : H256 :=
  match kv_contents db BlockNumToBlockHash (encode_block_num n) with Some raw => from_be raw | None => 0 end.

Lemma read_block_hash_ok d hd n : node_ok d hd -> read_block_hash d n = Ok (hash_at (dr_db d) n).
Proof.
  intros Hn. unfold read_block_hash, hash_at. rewrite (rk_get (dr_db d) _ _ (db_kv _ _ Hn)). cbn [rocks].
  rewrite res_bind_ok. destruct (kv_contents _ _ _) as [raw|] eqn:Hr; [|done].
  unfold h256_from_slice. by rewrite decide_True by (by eapply no_hashes in Hr as [? _]).
Qed.

Definition code_of (db : K) (x : H256) : option bytes := kv_contents db HashToCode (h256_bytes x).

(** Only the cache of codes differs, and it is right. *)
Definition recoded d d' : Prop :=
  d' = set_code_cache d (dr_code_cache d') /\
  (forall c y code, dr_code_cache d' = Some c -> qc_get c y = Some code -> code_of (dr_db d) y = Some code).

Lemma recoded_refl d hd : node_ok d hd -> recoded d d.
Proof. intros Hn. split; [by destruct d|]. apply (no_code_cache _ _ Hn). Qed.

Lemma recoded_insert d c x code :
  dr_code_cache d = Some c -> code_of (dr_db d) x = Some code ->
  (forall y v, qc_get c y = Some v -> code_of (dr_db d) y = Some v) ->
  recoded d (set_code_cache d (Some (qc_insert c x code))).
Proof.
  intros Hc Hx Hcache. split; [done|]. cbn [dr_code_cache set_code_cache]. intros c' y code' [= <-] Hy.
  destruct (decide (y = x)) as [->|Hne]; [apply qc_get_insert_eq in Hy; congruence|].
  apply qc_get_insert_ne in Hy; [|done]. by apply Hcache.
Qed.

Lemma read_code_ok d hd x :
  node_ok d hd -> exists d', read_code d x = (Ok (code_of (dr_db d) x), d') /\ recoded d d'.
Proof.
  intros Hn. pose proof (no_code_cache _ _ Hn) as Hcache. pose proof (recoded_refl d hd Hn) as Hrefl. unfold read_code.
  rewrite (rk_get (dr_db d) _ _ (db_kv _ _ Hn)). fold (code_of (dr_db d) x).
  destruct (dr_code_cache d) as [c|] eqn:Hc.
  - destruct (qc_get c x) as [code|] eqn:Hg.
    + exists d. split; [|done]. by rewrite (Hcache c x code eq_refl Hg : code_of (dr_db d) x = Some code).
    + cbn [rocks sbind]. destruct (code_of (dr_db d) x) as [code|] eqn:Hk; [|by exists d].
      rewrite Hc. eexists. split; [done|]. apply recoded_insert; [done..|]. intros y v. by eapply Hcache.
  - cbn [rocks sbind]. exists d. rewrite Hc. split; [|done]. by destruct (code_of (dr_db d) x).
Qed.

(** A read changes only caches; each change keeps the node right. *)
Lemma node_recode d d' hd : node_ok d hd -> recoded d d' -> node_ok d' hd.
Proof.
  intros Hn [Hd Hc]. rewrite Hd. destruct Hn as [[Hdb Hsc] [] ]. split; done.
Qed.

Lemma recoded_db d d' : recoded d d' -> dr_db d' = dr_db d.
Proof. by intros [-> _]. Qed.

Lemma recoded_trans d d1 d2 : recoded d d1 -> recoded d1 d2 -> recoded d d2.
Proof.
  intros Hr1 [H2' Hc2]. rewrite (recoded_db d d1 Hr1) in Hc2. destruct Hr1 as [H1' _]. split; [|done].
  rewrite H2', H1'. done.
Qed.

Lemma node_reinfo d d' hd : node_ok d hd -> reinfo d d' -> node_ok d' hd.
Proof.
  intros Hn [Hd Hc]. rewrite Hd. destruct Hn as [[Hdb Hsc] [] ]. split; try done; split; done.
Qed.

Lemma map_state_inv {A B} (P : DataBaseRef K C -> Prop) (f : DataBaseRef K C -> A -> Res (Error E) B * DataBaseRef K C) (g : A -> B) l :
  (forall d x, x ∈ l -> P d -> exists d', f d x = (Ok (g x), d') /\ P d') ->
  forall d, P d -> exists d', map_state f d l = (Ok (map g l), d') /\ P d'.
Proof.
  induction l as [|x l IH]; intros Hf d Hd; cbn [map_state map]; [by exists d|].
  destruct (Hf d x) as (d1 & -> & H1'); [by left|done|]. cbn [sbind].
  destruct (IH (fun d' y Hy => Hf d' y ltac:(by right)) d1 H1') as (d2 & -> & H2'). by exists d2.
Qed.

Lemma fill_misses_ok {A} (g : H256 -> option A) (hit : H256 -> option A) l :
  (forall x v, hit x = Some v -> g x = Some v) ->
  fill_misses (map hit l) (map g (pending_of l (map hit l))) = map g l.
Proof.
  intros Hhit. induction l as [|x l IH]; [done|]. cbn [map pending_of]. destruct (hit x) as [v|] eqn:Hx.
  - cbn [fill_misses]. by rewrite IH, (Hhit x v Hx).
  - cbn [map fill_misses]. by rewrite IH.
Qed.

Lemma take_code_ok d hd x :
  node_ok d hd -> exists d', take_code (E := E) d (x, Ok (code_of (dr_db d) x)) = (Ok (code_of (dr_db d) x), d') /\ recoded d d'.
Proof.
  intros Hn. unfold take_code. cbn [rocks sbind fst snd]. eexists. split; [done|]. pose proof (recoded_refl d hd Hn) as Hrefl.
  destruct (dr_code_cache d) as [c|] eqn:Hc; [|done]. destruct (code_of (dr_db d) x) as [code|] eqn:Hx; [|done].
  apply recoded_insert; [done..|]. intros y v. by eapply no_code_cache.
Qed.

Lemma read_code_many_ok d hd l :
  node_ok d hd -> exists d', read_code_many d l = (Ok (map (code_of (dr_db d)) l), d') /\ recoded d d'.
Proof.
  intros Hn. unfold read_code_many. set (hit := fun x => match dr_code_cache d with Some c => qc_get c x | None => None end).
  assert (Hhit : forall x v, hit x = Some v -> code_of (dr_db d) x = Some v).
  { unfold hit. intros x v. destruct (dr_code_cache d) as [c|] eqn:Hc; [|done]. by eapply no_code_cache. }
  pose proof (fill_misses_ok (code_of (dr_db d)) hit l Hhit) as Hfill. pose proof (recoded_refl d hd Hn) as Hrefl. case_decide.
  - destruct (map_state_inv (recoded d) read_code (code_of (dr_db d)) (pending_of l (map hit l))) with (d := d)
      as (d' & -> & Hr); [|done|].
    + intros d1 x _ Hr1. destruct (read_code_ok d1 hd x (node_recode _ _ _ Hn Hr1)) as (d2 & Hr & Hr2).
      rewrite (recoded_db _ _ Hr1) in Hr. exists d2. split; [done|by eapply recoded_trans].
    + cbn [sbind]. rewrite Hfill. by exists d'.
  - assert (map (fun x => (x, db_get (dr_db d) HashToCode (h256_bytes x))) (pending_of l (map hit l)) =
      map (fun x => (x, Ok (code_of (dr_db d) x))) (pending_of l (map hit l))) as ->.
    { apply map_ext. intros x. by rewrite (rk_get (dr_db d) _ _ (db_kv _ _ Hn)). }
    destruct (map_state_inv (recoded d) take_code (fun r => code_of (dr_db d) (fst r))
      (map (fun x => (x, Ok (E := E) (code_of (dr_db d) x))) (pending_of l (map hit l)))) with (d := d) as (d' & -> & Hr); [|done|].
    + intros d1 r (x & -> & _)%list_elem_of_fmap Hr1. destruct (take_code_ok d1 hd x (node_recode _ _ _ Hn Hr1)) as (d2 & Hr & Hr2).
      rewrite (recoded_db _ _ Hr1) in Hr. exists d2. split; [exact Hr|by eapply recoded_trans].
    + cbn [sbind]. rewrite map_map. exists d'. split; [|done]. f_equal. f_equal. exact Hfill.
Qed.

(** *** Opening a handle *)

Lemma new_handle_on d hd info :
  node_ok d hd -> blocks !! bi_hash info = Some info -> bi_number info <= bi_number hd ->
  handle_on d (new_handle d (bi_number info) (Some info)) info.
Proof.
  intros Hn Hb Hle. split; [|done..]. pose proof (block_u64 info Hb) as Hu.
  unfold new_handle, new_state_iterators. split; cbn; try done.
  - intros v c Hv Hc. rewrite Hc in Hv. unfold cache_view in Hv. case_decide; [|done]. injection Hv as <-. cbn. lia.
  - unfold seen. cbn. destruct (dr_state_cache d) as [c|]; [|lia]. unfold cache_view. case_decide; cbn; lia.
  - intros Hudt. rewrite Hudt. exists (dr_db d). split; [done|]. split; [|done].
    pose proof (ao_db _ (no_archive _ _ Hn)) as Hdb. by rewrite Hudt in Hdb.
Qed.

Lemma new_handle_reinfo d d' n info : reinfo d d' -> new_handle d' n info = new_handle d n info.
Proof. by intros [-> _]. Qed.

Lemma db_at_latest d hd :
  node_ok d hd -> exists d', Archive.db_at d (ByNumber Latest) = (Ok (Some (new_handle d (bi_number hd) (Some hd))), d') /\ reinfo d d'.
Proof.
  intros Hn. unfold Archive.db_at. rewrite (read_latest_ok d hd Hn). cbn [sbind].
  rewrite decide_False by (by apply (bk_hash Hblocks _ _ (no_head _ _ Hn))).
  destruct (read_block_info_ok d hd hd Hn (node_block _ _ Hn)) as (d' & -> & Hr). cbn [sbind].
  exists d'. by rewrite (new_handle_reinfo d d').
Qed.

(** A stored block is found by its hash and by its number. *)
Lemma db_at_block d hd info :
  node_ok d hd -> block_stored d info ->
  (exists d', Archive.db_at d (ById (bi_hash info)) = (Ok (Some (new_handle d (bi_number info) (Some info))), d') /\ reinfo d d') /\
  (exists d', Archive.db_at d (ByNumber (Number (bi_number info))) =
     (Ok (Some (new_handle d (bi_number info) (Some info))), d') /\ reinfo d d').
Proof.
  intros Hn Hb. destruct (read_block_info_ok d hd info Hn Hb) as (d' & Hrd & Hr).
  pose proof (new_handle_reinfo d d' (bi_number info) (Some info) Hr) as Hh.
  pose proof Hb as (Hbl & _ & Hhash). split; exists d'; (split; [|done]); unfold Archive.db_at.
  - rewrite Hrd. cbn [sbind]. by rewrite Hh.
  - rewrite (read_block_hash_ok d hd) by done. unfold hash_at. rewrite Hhash, from_be_h256 by (by apply block_u256). cbn [sbind].
    rewrite decide_False by (by apply (bk_hash Hblocks _ _ Hbl)). rewrite Hrd. cbn [sbind]. by rewrite Hh.
Qed.
End node.
