(* ===== verification/ArchiveUpdate.v ===== *)
(** * The archive as the wrapper's database: writing a block

    [StateDBWrapper::update_block] on the archive: the batch it builds and the
    database that batch leaves. Writing a block to a node's archive leaves a
    node's archive whose latest state is the block applied to the one before,
    deleted storage included, and in which every earlier block reads as it did. *)

From stdpp Require Import prelude gmap list sorting strings.
From S2P Require Import Prelude Types QuickCache Backend KvStore ArchiveEncoding StateCache BlockIndex.
From S2P Require Import BlockIndexFacts BlockIndexStore BlockIndexRun BlockIndexTheorems Archive ArchiveReads.
From S2P Require Import ArchiveSlots ArchiveWrite ArchiveCommit Wrapper WrapperFacts ArchiveBackend.

#[local] Open Scope Z_scope.
#[local] Open Scope state_scope.

(** ** The batch of a block *)

(** A batch with more writes. *)
Definition add_writes (b : ArchiveRocksDBWriteBatch) (ops : list WriteOp) (accounts storage : list (bytes * bytes))
    : ArchiveRocksDBWriteBatch :=
  mkBatch (wb_inner b ++ ops) (wb_account_writes b ++ accounts) (wb_storage_writes b ++ storage) (wb_sync b)
    (wb_max_block b) (wb_block_infos b).

Lemma add_writes_nil b : add_writes b [] [] [] = b.
Proof. unfold add_writes. rewrite !app_nil_r. by destruct b. Qed.

Lemma add_writes_add b o a s o' a' s' : add_writes (add_writes b o a s) o' a' s' = add_writes b (o ++ o') (a ++ a') (s ++ s').
Proof. unfold add_writes. cbn. by rewrite <- !(assoc_L (++)). Qed.

Lemma note_block_same b N : wb_max_block b = Some N -> note_block b N = b.
Proof. intros Hm. unfold note_block. rewrite Hm, Z.max_id. destruct b. cbn in *. by subst. Qed.

Lemma push_account_add b w : push_account b w = add_writes b [] [w] [].
Proof. unfold push_account, add_writes. by rewrite !app_nil_r. Qed.

Lemma push_storage_add b w : push_storage b w = add_writes b [] [] [w].
Proof. unfold push_storage, add_writes. by rewrite !app_nil_r. Qed.

Lemma push_op_add b op : push_op b op = add_writes b [op] [] [].
Proof. unfold push_op, add_writes. by rewrite !app_nil_r. Qed.

Section batch.
Context {K E : Type} `{RocksDBOk K E} {C : Type -> Type -> Type} `{QuickCacheOk C}.
Context `{SlimCodec} `{BlockCodec E} `{ArchiveConfig}.
Implicit Types (d : DataBaseRef K C) (h : StateDB K) (b : ArchiveRocksDBWriteBatch).

Definition account_record (N : u64) (w : H256 * option NewAccount) : bytes * bytes :=
  (encode_account_key inverted_block_encoding w.1 N, match w.2 with Some a => encode_slim_account a | None => [] end).

Definition storage_record (N : u64) (w : (H256 * H256) * U256) : bytes * bytes :=
  (encode_storage_key inverted_block_encoding w.1.1 w.1.2 N, be_bytes 32 w.2).

Definition code_op (w : H256 * bytes) : WriteOp := OpPut HashToCode (h256_bytes w.1) w.2.

(** A loop of writes, each adding to the batch. *)
Lemma write_all_add {A} (f : ArchiveRocksDBWriteBatch -> A -> Res (Error E) ArchiveRocksDBWriteBatch)
    (o : A -> list WriteOp) (a s : A -> list (bytes * bytes)) N l : forall b,
  (forall b x, wb_max_block b = Some N -> f b x = Ok (add_writes b (o x) (a x) (s x))) ->
  wb_max_block b = Some N ->
  write_all f b l = Ok (add_writes b (flat_map o l) (flat_map a l) (flat_map s l)).
Proof.
  induction l as [|x l IH]; intros b Hf Hm; cbn [write_all flat_map]; [by rewrite add_writes_nil|].
  rewrite Hf by done. rewrite res_bind_ok, IH by done. by rewrite add_writes_add.
Qed.

Lemma write_account_add d b N a o :
  wb_max_block b = Some N -> write_account (E := E) d b a N o = Ok (add_writes b [] [account_record N (a, o)] []).
Proof. intros Hm. unfold write_account. by rewrite note_block_same, push_account_add by done. Qed.

Lemma write_storage_add d b N a i v :
  wb_max_block b = Some N -> write_storage (E := E) d b a i N v = Ok (add_writes b [] [] [storage_record N ((a, i), v)]).
Proof. intros Hm. unfold write_storage. by rewrite note_block_same, push_storage_add by done. Qed.

Lemma zero_slots_add d N a slots : forall b,
  wb_max_block b = Some N ->
  zero_slots (E := E) d b a N slots = Ok (add_writes b [] [] (map (fun sv => storage_record N ((a, sv.1), 0)) slots)).
Proof.
  induction slots as [|[i v] slots IH]; intros b Hm; cbn [zero_slots map]; [by rewrite add_writes_nil|].
  rewrite write_storage_add, res_bind_ok, IH by done. by rewrite add_writes_add.
Qed.

(** The zeros written for the deleted accounts: their slots that read as
    non-zero. *)
Definition zeros_ok d h (N : u64) (deleted : list H256) (zs : list ((H256 * H256) * U256)) : Prop :=
  forall a i v, ((a, i), v) ∈ zs <->
    a ∈ deleted /\ is_u256 i /\ v = 0 /\ (storage_at (dr_udt d) (dr_db d) (slot_prefix a i) (sd_block_num h)).2 <> 0.

Lemma delete_accounts_add d h N deleted : forall b,
  archive_ok d -> handle_ok d h -> Forall is_u256 deleted -> wb_max_block b = Some N ->
  exists d' zs, delete_accounts (B := ArchiveRocksDBWriteBatch) (E := Error E) d h b N deleted =
      (Ok (add_writes b [] (map (fun a => account_record N (a, None)) deleted) (map (storage_record N) zs)), d') /\
    archive_ok d' /\ recached d d' /\ zeros_ok d h N deleted zs.
Proof.
  revert d. induction deleted as [|a deleted IH]; intros d b Ha Ho Hu Hm; cbn [delete_accounts map].
  - exists d, []. rewrite add_writes_nil. split; [done|]. split; [done|]. split; [apply recached_refl|].
    intros a i v. rewrite !elem_of_nil. naive_solver.
  - inversion Hu as [|? ? Hua Hud]; subst.
    change (w_account d h b a N None) with (write_account (E := E) d b a N None). rewrite write_account_add by done. cbn [sbind].
    set (b1 := add_writes b _ _ _). change (w_clear_storage d h b1 a N) with (clear_storage d h b1 a N). unfold clear_storage.
    destruct (storage_slots_ok d h a Ha Ho Hua) as (slots & d1 & -> & [_ Hslots] & Ha1 & Hr1). cbn [sbind].
    rewrite zero_slots_add by done. cbn [sbind]. unfold b1. rewrite add_writes_add. set (b2 := add_writes b _ _ _).
    destruct (recached_same d d1 Hr1) as [Hdb1 Hud1].
    destruct (IH d1 b2) as (d2 & zs & -> & Ha2 & Hr2 & Hzs); [done|by eapply handle_recached|done|done|].
    exists d2, (map (fun sv => ((a, sv.1), 0)) slots ++ zs). unfold b2. rewrite add_writes_add.
    split; [by rewrite map_app, map_map|]. split; [done|]. split; [by eapply recached_trans|].
    intros a' i v. rewrite elem_of_app, (Hzs a' i v), elem_of_cons, Hdb1, Hud1, list_elem_of_fmap. split.
    + intros [([j w] & Heq & Hin)|Hz]; [|naive_solver]. injection Heq as -> -> ->. apply Hslots in Hin as (Hi & Hw & Hs).
      split_and!; [by left|done|done|]. cbn [fst]. by rewrite Hs.
    + intros ([->|Hin] & Hi & -> & Hs); [left|right; done]. eexists (i, _). split; [done|]. by apply Hslots.
Qed.

(** Where the block info goes. *)
Definition info_op (indexed : bool) (bi : BlockInfo) (raw : bytes) : WriteOp :=
  if indexed then OpPut BlockNumToBlockInfo (index_key (bi_number bi)) (index_record (bi_hash bi) raw)
  else OpPut BlockHashToBlockInfo (h256_bytes (bi_hash bi)) raw.

Definition block_batch (indexed : bool) (raw : bytes) (bi : BlockInfo) (df : BlockStorageDiff)
    (zs : list ((H256 * H256) * U256)) : ArchiveRocksDBWriteBatch :=
  let N := bi_number bi in
  mkBatch
    ([OpPut BlockNumToBlockHash (encode_block_num N) (h256_bytes (bi_hash bi)); info_op indexed bi raw] ++
     map code_op (code_writes df) ++ [OpPut LatestBlockHash [1] (h256_bytes (bi_hash bi))])
    (map (account_record N) (account_writes df))
    (map (storage_record N) (zs ++ storage_writes df))
    false (Some N) (if indexed then [(bi_hash bi, N)] else []).

Lemma write_block_info_add d b bi raw :
  encode_block_info bi = Ok raw -> is_u32 (bi_number bi) ->
  write_block_info d b bi =
    Ok (push_op (match dr_block_index d with Some _ => push_block_info b (bi_hash bi, bi_number bi) | None => b end)
      (info_op (bool_decide (is_Some (dr_block_index d))) bi raw)).
Proof.
  intros Hraw Hu. unfold write_block_info. rewrite Hraw, res_bind_ok. destruct (dr_block_index d).
  - unfold entry. rewrite decide_True by apply Hu. by rewrite res_bind_ok.
  - done.
Qed.

Lemma flat_map_single {A B} (f : A -> B) l : flat_map (fun x => [f x]) l = map f l.
Proof. induction l as [|x l IH]; cbn; [done|]. by rewrite IH. Qed.

Lemma flat_map_none {A B} (l : list A) : flat_map (fun _ => @nil B) l = [].
Proof. by induction l. Qed.

(** The storage writes of a diff, account by account. *)
Lemma storage_records N df :
  flat_map (fun ad => flat_map (fun iv => [storage_record N ((sd_address ad, iv_index iv), iv_value iv)]) (sd_diffs ad))
    (bd_storage_diffs df) = map (storage_record N) (storage_writes df).
Proof.
  unfold storage_writes. induction (bd_storage_diffs df) as [|ad l IH]; [done|]. cbn [flat_map]. rewrite map_app, IH.
  f_equal. rewrite map_map. apply flat_map_single.
Qed.

Lemma store_block_batch d h bi df raw :
  archive_ok d -> handle_ok d h -> Forall is_u256 (bd_deleted_accounts df) ->
  encode_block_info bi = Ok raw -> is_u32 (bi_number bi) ->
  exists d1 zs, store_block (B := ArchiveRocksDBWriteBatch) (E := Error E) d h bi df =
      commit d1 (block_batch (bool_decide (is_Some (dr_block_index d))) raw bi df zs) /\
    archive_ok d1 /\ recached d d1 /\ zeros_ok d h (bi_number bi) (bd_deleted_accounts df) zs.
Proof.
  intros Ha Ho Hdel Hraw Hu. unfold store_block. set (N := bi_number bi).
  change (w_prepare_write_batch d h) with (Ok (E := Error E) new_batch). cbn [sbind].
  change (w_block_hash d h new_batch N (bi_hash bi)) with (write_block_hash (E := E) d new_batch N (bi_hash bi)).
  unfold write_block_hash. cbn [sbind]. set (b0 := push_op _ _).
  change (w_block_info d h b0 bi) with (write_block_info d b0 bi). rewrite (write_block_info_add _ _ _ raw) by done. cbn [sbind].
  set (b1 := push_op _ _). assert (Hm1 : wb_max_block b1 = Some N) by (unfold b1; by destruct (dr_block_index d)).
  destruct (delete_accounts_add d h N (bd_deleted_accounts df) b1 Ha Ho Hdel Hm1) as (d1 & zs & -> & Ha1 & Hr1 & Hz).
  cbn [sbind]. exists d1, zs. split; [|done].
  rewrite (write_all_add (fun b a => w_account d1 h b (na_address a) N (Some a))
    (fun _ => []) (fun a => [account_record N (na_address a, Some a)]) (fun _ => []) N) by (done || (intros; by apply write_account_add)).
  cbn [sbind]. rewrite (write_all_add _ (fun _ => []) (fun _ => [])
    (fun ad => flat_map (fun iv => [storage_record N ((sd_address ad, iv_index iv), iv_value iv)]) (sd_diffs ad)) N).
  2: { intros b ad Hm. rewrite (write_all_add _ (fun _ => []) (fun _ => [])
         (fun iv => [storage_record N ((sd_address ad, iv_index iv), iv_value iv)]) N); [by rewrite !flat_map_none| |done].
       intros b' iv Hm'. by apply write_storage_add. }
  2: done.
  cbn [sbind]. rewrite (write_all_add _ (fun c => [code_op (nc_code_hash c, nc_code c)]) (fun _ => []) (fun _ => []) N).
  2: { intros b c Hm. unfold w_code. cbn. unfold write_code. by rewrite push_op_add. }
  2: done.
  cbn [sbind]. change (w_latest_block_hash d1 h) with (write_latest_block_hash (E := E) d1). unfold write_latest_block_hash.
  cbn [sbind]. change (w_commit d1 h) with (commit d1). f_equal.
  rewrite push_op_add, !add_writes_add, !flat_map_none, !flat_map_single, storage_records. rewrite !app_nil_r, !app_nil_l.
  unfold block_batch, account_writes, code_writes. rewrite !map_app, !map_map. unfold b1, b0, add_writes.
  destruct (dr_block_index d); reflexivity.
Qed.
End batch.

(** Keys mapped by a function that is injective on them. *)
Lemma last_assoc_inj {A B V W} `{Countable A} `{Countable B} (f : A -> B) (g : V -> W) (P : A -> Prop) l k :
  (forall x y, P x -> P y -> f x = f y -> x = y) -> P k -> (forall x v, (x, v) ∈ l -> P x) ->
  last_assoc (map (fun w => (f w.1, g w.2)) l) (f k) = option_map g (last_assoc l k).
Proof.
  intros Hinj Hk. induction l as [|[x v] l IH]; intros Hl; [done|]. cbn [map last_assoc fst snd].
  rewrite IH by (intros y w Hy; apply (Hl y w); by right). destruct (last_assoc l k); [done|]. cbn.
  destruct (decide (x = k)) as [->|Hne]; [by rewrite decide_True|]. rewrite decide_False; [done|].
  intros Heq. apply Hne, Hinj; [apply (Hl x v); by left|done|done].
Qed.

Section update.
Context {K E : Type} `{RocksDBOk K E} {C : Type -> Type -> Type} `{QuickCacheOk C}.
Context `{SlimCodecOk} `{BlockCodecOk E} `{ArchiveConfig}.
Implicit Types (d : DataBaseRef K C) (h : StateDB K) (db : K).

(** ** Committing a batch *)

(** The database a successful commit leaves. *)
Definition after_commit d db (ix : option BlockIndex) (max : u64) : DataBaseRef K C :=
  mkDataBaseRef db (dr_code_cache d) (dr_block_info_cache d) ix
    (option_map (fun c => advance_head c max) (dr_state_cache d)) (dr_udt d).

Lemma commit_after d b db ix max :
  wb_max_block b = Some max -> db_write (dr_db d) (batch_ops d b) = (Ok tt, db) ->
  match dr_block_index d with
  | Some i => exists i', committed crc32 (note i (wb_block_infos b)) = Some i' /\ ix = Some i'
  | None => ix = None
  end ->
  ArchiveWrite.commit d b = (Ok tt, after_commit d db ix max).
Proof.
  intros Hmax Hw Hix. unfold ArchiveWrite.commit, after_commit. destruct (dr_block_index d) as [i|] eqn:Hi.
  - destruct Hix as (i' & Hc & ->). cbn [dr_db set_block_index]. rewrite Hw. cbn [dr_block_index set_db set_block_index].
    rewrite Hc. cbn [sbind dr_state_cache set_block_index set_db]. rewrite Hmax.
    destruct d; cbn in *. by destruct dr_state_cache.
  - subst ix. rewrite Hw. cbn [dr_block_index set_db]. rewrite Hi. cbn [sbind dr_state_cache set_db]. rewrite Hmax.
    destruct d; cbn in *; subst. by destruct dr_state_cache.
Qed.

(** ** The versions of a block's batch *)

Context (blocks : gmap H256 BlockInfo) (codes : H256 -> option bytes).

(** A block and a diff the archive can store. *)
Record archive_valid (bi : BlockInfo) (df : BlockStorageDiff) : Prop := {
  av_block : blocks !! bi_hash bi = Some bi;
  av_deleted : Forall is_u256 (bd_deleted_accounts df);
  av_accounts : Forall (fun a => is_u256 (na_address a) /\ is_u256 (na_balance a) /\ is_u64 (na_nonce a) /\
    is_u256 (na_code_hash a) /\ na_code_hash a <> 0) (bd_new_accounts df);
  av_storage a i v : ((a, i), v) ∈ storage_writes df -> is_u256 a /\ is_u256 i /\ is_u256 v;
  av_codes x c : (x, c) ∈ code_writes df -> is_u256 x /\ codes x = Some c;
}.

Lemma account_writes_u256 bi df a o : archive_valid bi df -> (a, o) ∈ account_writes df -> is_u256 a.
Proof.
  intros Hv Hin. unfold account_writes in Hin. apply elem_of_app in Hin as [Hin|Hin].
  - apply list_elem_of_fmap in Hin as (a' & Heq & Hin). injection Heq as -> _.
    pose proof (av_deleted _ _ Hv) as Hd. rewrite Forall_forall in Hd. auto.
  - apply list_elem_of_fmap in Hin as (a' & Heq & Hin). injection Heq as -> _.
    pose proof (av_accounts _ _ Hv) as Hd. rewrite Forall_forall in Hd. by apply Hd.
Qed.

Lemma account_records N bi df a :
  archive_valid bi df -> is_u256 a ->
  last_assoc (map (account_record N) (account_writes df)) (version_key inverted_block_encoding (h256_bytes a) N) =
    option_map (fun o => match o with Some x => encode_slim_account x | None => [] end) (last_assoc (account_writes df) a).
Proof.
  intros Hv Ha. rewrite <- account_version_key.
  apply (last_assoc_inj (fun a => encode_account_key inverted_block_encoding a N)
    (fun o => match o with Some x => encode_slim_account x | None => [] end) is_u256); [|done|].
  - intros x y Hx Hy Heq. unfold encode_account_key in Heq. apply app_inv_tail in Heq. by apply h256_inj.
  - intros x o. by eapply account_writes_u256.
Qed.

Lemma storage_key_inj N a i a' i' :
  is_u256 a -> is_u256 i -> is_u256 a' -> is_u256 i' ->
  version_key inverted_block_encoding (slot_prefix a i) N = version_key inverted_block_encoding (slot_prefix a' i') N ->
  (a, i) = (a', i').
Proof.
  intros Ha Hi Ha' Hi' Heq. unfold version_key in Heq. apply app_inv_tail in Heq.
  apply slot_prefix_inj in Heq as [-> ->]; done.
Qed.

Lemma storage_records_assoc N (l : list ((H256 * H256) * U256)) a i :
  (forall a i v, ((a, i), v) ∈ l -> is_u256 a /\ is_u256 i) -> is_u256 a -> is_u256 i ->
  last_assoc (map (storage_record N) l) (version_key inverted_block_encoding (slot_prefix a i) N) =
    option_map (be_bytes 32) (last_assoc l (a, i)).
Proof.
  intros Hl Ha Hi. rewrite <- storage_version_key.
  apply (last_assoc_inj (fun k : H256 * H256 => encode_storage_key inverted_block_encoding k.1 k.2 N) (be_bytes 32)
    (fun k => is_u256 k.1 /\ is_u256 k.2) l (a, i)); [|done|].
  - intros [x1 x2] [y1 y2] [Hx1 Hx2] [Hy1 Hy2]. cbn [fst snd]. rewrite !storage_version_key. by apply storage_key_inj.
  - intros [x1 x2] v Hin. by apply (Hl x1 x2 v).
Qed.

(** Zeros, then the diff's own writes. *)
Lemma zeros_then_writes d h N df zs a i :
  zeros_ok d h N (bd_deleted_accounts df) zs -> is_u256 i ->
  last_assoc (zs ++ storage_writes df) (a, i) =
    match last_assoc (storage_writes df) (a, i) with
    | Some v => Some v
    | None => if decide (a ∈ bd_deleted_accounts df /\ (storage_at (dr_udt d) (dr_db d) (slot_prefix a i) (sd_block_num h)).2 <> 0)
              then Some 0 else None
    end.
Proof.
  intros Hz Hi. rewrite last_assoc_app. destruct (last_assoc (storage_writes df) (a, i)); [done|].
  destruct (last_assoc zs (a, i)) as [v|] eqn:Hl.
  - apply last_assoc_in in Hl. apply Hz in Hl as (Hd & _ & -> & Hs). by rewrite decide_True.
  - rewrite decide_False; [done|]. intros [Hd Hs]. apply last_assoc_None in Hl. apply Hl.
    apply list_elem_of_fmap. exists ((a, i), 0). split; [done|]. by apply Hz.
Qed.

(** ** What the batch of a block writes *)

Lemma block_batch_at indexed raw bi df zs : batch_at (bi_number bi) (block_batch indexed raw bi df zs).
Proof.
  split; cbn [block_batch wb_inner wb_account_writes wb_storage_writes].
  - assert (Hplain : forall c k v, ~ versioned c -> exists c' k' v', OpPut c k v = OpPut c' k' v' /\ ~ versioned c')
      by (intros c k v Hc; by exists c, k, v).
    apply Forall_app. split; [|apply Forall_app; split].
    + constructor; [apply Hplain; by intros [?|?]|]. constructor; [|constructor].
      unfold info_op. destruct indexed; apply Hplain; by intros [?|?].
    + apply Forall_map, Forall_forall. intros w _. apply Hplain. by intros [?|?].
    + constructor; [|constructor]. apply Hplain. by intros [?|?].
  - apply Forall_map, Forall_forall. intros [a o] _. exists (h256_bytes a). split; [apply h256_wf|done].
  - apply Forall_map, Forall_forall. intros [[a i] v] _. exists (slot_prefix a i). split; [apply slot_prefix_wf|].
    unfold storage_record. cbn [fst snd]. apply storage_version_key.
Qed.

Definition block_contents (indexed : bool) (raw : bytes) (bi : BlockInfo) (df : BlockStorageDiff)
    (c : StorageTypeColumn) (k : bytes) (old : option bytes) : option bytes :=
  match c with
  | LatestBlockHash => if decide (k = [1]) then Some (h256_bytes (bi_hash bi)) else old
  | BlockNumToBlockHash => if decide (k = encode_block_num (bi_number bi)) then Some (h256_bytes (bi_hash bi)) else old
  | BlockHashToBlockInfo => if decide (indexed = false /\ k = h256_bytes (bi_hash bi)) then Some raw else old
  | BlockNumToBlockInfo =>
      if decide (indexed = true /\ k = index_key (bi_number bi)) then Some (index_record (bi_hash bi) raw) else old
  | HashToCode =>
      match last_assoc (map (fun w => (h256_bytes w.1, w.2)) (code_writes df)) k with Some x => Some x | None => old end
  | _ => old
  end.

Lemma code_ops_puts df : map code_op (code_writes df) = map (fun w => OpPut HashToCode w.1 w.2) (map (fun w => (h256_bytes w.1, w.2)) (code_writes df)).
Proof. by rewrite map_map. Qed.

Lemma code_ops_other c k df old : c <> HashToCode -> fold_left (op_contents c k) (map code_op (code_writes df)) old = old.
Proof.
  intros Hc. apply contents_untouched, Forall_map, Forall_forall. intros w _ o. cbn. rewrite decide_False; [done|]. naive_solver.
Qed.

Lemma block_contents_ok d indexed raw bi df zs db' c k :
  written d (block_batch indexed raw bi df zs) db' -> ~ versioned c ->
  kv_contents db' c k = block_contents indexed raw bi df c k (kv_contents (dr_db d) c k).
Proof.
  intros Hw Hc. rewrite (wt_contents _ _ _ Hw), batch_plain by done. set (old := kv_contents (dr_db d) c k). clearbody old.
  cbn [block_batch wb_inner]. rewrite !fold_left_app. cbn [fold_left]. unfold info_op, block_contents.
  destruct (decide (c = HashToCode)) as [->|Hne].
  - rewrite code_ops_puts, puts_contents. destruct indexed; cbn [op_contents]; rewrite !(decide_False (P := _ /\ _)) by naive_solver;
      by destruct (last_assoc _ k).
  - rewrite code_ops_other by done.
    destruct c; try done; try (by exfalso; apply Hc; auto using or_introl, or_intror);
      try (by exfalso; apply Hc; (left + right)); destruct indexed; cbn [op_contents];
      repeat (case_decide || destruct_and?); try done; naive_solver.
Qed.

Lemma block_accounts_decode indexed raw bi df zs :
  archive_valid bi df ->
  Forall (fun w => w.2 = [] \/ is_Some (slim_decode w.2)) (wb_account_writes (block_batch indexed raw bi df zs)).
Proof.
  intros Hv. cbn [block_batch wb_account_writes]. apply Forall_map, Forall_forall. intros [a o] Hin. cbn [account_record fst snd].
  unfold account_writes in Hin. apply elem_of_app in Hin as [Hin|Hin]; apply list_elem_of_fmap in Hin as (x & Heq & Hin);
    injection Heq as -> ->; [by left|right].
  pose proof (av_accounts _ _ Hv) as Hac. rewrite Forall_forall in Hac. destruct (Hac x Hin) as (_ & Hb & Hn & Hc & _).
  unfold encode_slim_account. rewrite slim_roundtrip by done. by eexists.
Qed.

(** ** The block index after a block *)

Context (Hblocks : blocks_ok blocks).

Lemma cf3_after db db' B bi :
  cf3 db B -> B ⊆ block_entries blocks -> kv_ok db' -> blocks !! bi_hash bi = Some bi ->
  (forall k, kv_contents db' BlockNumToBlockHash k =
    if decide (k = encode_block_num (bi_number bi)) then Some (h256_bytes (bi_hash bi)) else kv_contents db BlockNumToBlockHash k) ->
  cf3_within (block_entries blocks) db' /\
  forall x n, is_u256 x -> is_u64 n -> cf3_has db' x n -> cf3_has db x n \/ (x, n) ∈ [(bi_hash bi, bi_number bi)].
Proof.
  intros Hc HB Hkv Hbi Hcon. set (N := bi_number bi) in *.
  assert (Hin : (bi_hash bi, N) ∈ block_entries blocks) by (apply elem_of_block_entries; by exists bi).
  destruct (entries_range blocks Hblocks _ _ Hin) as [Hhu HNu]. clearbody N.
  set (B' := {[ (bi_hash bi, N) ]} ∪ filter (fun b => b.2 <> N) B).
  assert (HB' : B' ⊆ block_entries blocks).
  { intros b [->%elem_of_singleton|[_ Hb]%elem_of_filter]%elem_of_union; [done|by apply HB]. }
  assert (Hc' : cf3 db' B').
  { split; [done| |intros x n Hb; by apply (entries_range blocks Hblocks), HB'].
    intros k v. rewrite Hcon. case_decide as Hk.
    - subst k. split.
      + intros [= <-]. exists (bi_hash bi, N). split; [apply elem_of_union_l; by apply elem_of_singleton|done].
      + intros ([x n] & [Hb|[Hne Hb]%elem_of_filter]%elem_of_union & Heq); apply pair_equal_spec in Heq as [Hk Hv].
        * apply elem_of_singleton in Hb. apply pair_equal_spec in Hb as [-> ->]. cbn [fst] in Hv. by rewrite Hv.
        * apply encode_block_num_inj in Hk; [|by apply u32_u64|apply u32_u64; by apply (c3_range _ _ Hc x n)]. by destruct Hne.
    - rewrite (c3_get _ _ Hc). split.
      + intros ([x n] & Hb & Heq). exists (x, n). split; [|done]. apply elem_of_union_r, elem_of_filter. split; [|done].
        cbn. intros ->. apply Hk. by apply pair_equal_spec in Heq as [-> _].
      + intros (b & [->%elem_of_singleton|[_ Hb]%elem_of_filter]%elem_of_union & Heq); [|by exists b].
        exfalso. apply Hk. by apply pair_equal_spec in Heq as [-> _]. }
  split; [by exists B'|]. intros x n Hx Hn Hhas. unfold cf3_has in *. rewrite Hcon in Hhas. case_decide as Hk; [right|by left].
  apply encode_block_num_inj in Hk; [|done|by apply u32_u64]. subst n. apply (inj Some) in Hhas. apply h256_inj in Hhas; [|done..].
  subst x. by left.
Qed.

(** Writing a block: the batch goes out, the index takes the block, the state
    cache's head moves. *)
Lemma store_block_written d h hd bi df :
  node_ok blocks codes d hd -> handle_on d h hd -> archive_valid bi df ->
  exists raw zs d1 db' ix, encode_block_info bi = Ok raw /\ decode_block_info (bi_hash bi) raw = Ok bi /\
    archive_ok d1 /\ recached d d1 /\ zeros_ok d h (bi_number bi) (bd_deleted_accounts df) zs /\
    written d1 (block_batch (bool_decide (is_Some (dr_block_index d))) raw bi df zs) db' /\
    store_block (B := ArchiveRocksDBWriteBatch) (E := Error E) d h bi df = (Ok tt, after_commit d1 db' ix (bi_number bi)) /\
    match dr_block_index d with
    | Some _ => exists i', ix = Some i' /\ run_ok (E := E) crc32 (block_entries blocks) db' i'
    | None => ix = None
    end.
Proof.
  intros Hn Ho Hv. pose proof (av_block _ _ Hv) as Hbi.
  destruct (block_info_roundtrip (E := E) bi (bk_storable _ Hblocks _ _ Hbi)) as (raw & Henc & Hdec).
  destruct (store_block_batch d h bi df raw) as (d1 & zs & Hst & Ha1 & Hr1 & Hz);
    [apply Hn|apply Ho|apply Hv|done|by eapply bk_number|].
  set (b := block_batch _ raw bi df zs) in *. destruct (recached_same d d1 Hr1) as [Hdb1 Hu1].
  assert (Hix1 : dr_block_index d1 = dr_block_index d) by (by destruct Hr1 as [-> _]).
  destruct (write_batch d1 b) as (db' & Hw & Hwr); [apply (ao_db _ Ha1)|].
  assert (exists ix, match dr_block_index d with
    | Some i => exists i', committed crc32 (note i (wb_block_infos b)) = Some i' /\ ix = Some i' /\
        run_ok (E := E) crc32 (block_entries blocks) db' i'
    | None => ix = None
    end) as (ix & Hix).
  { destruct (dr_block_index d) as [i|] eqn:Hi; [|by exists None].
    pose proof (io_index _ _ (no_infos _ _ _ _ Hn) i Hi) as Hrun. pose proof Hrun as (B & k & N & Hc & HB & _).
    destruct (cf3_after (dr_db d) db' B bi Hc HB (wt_kv _ _ _ Hwr) Hbi) as [Hwithin Hhas].
    { intros k'. rewrite (block_contents_ok d1 _ raw bi df zs db') by (done || by intros [?|?]). by rewrite Hdb1. }
    destruct (commit_run (E := E) crc32 (block_entries blocks) (bk_crc _ Hblocks) (entries_size _ Hblocks) (entries_range _ Hblocks)
      (dr_db d) i (wb_block_infos b) db' Hrun) as (i' & Hcm & Hrun'); [|done| |].
    - unfold b. cbn [block_batch wb_block_infos]. rewrite bool_decide_true by (by eexists). cbn. rewrite (right_id_L ∅ (∪)).
      apply singleton_subseteq_l, elem_of_block_entries. by exists bi.
    - unfold b. cbn [block_batch wb_block_infos]. rewrite bool_decide_true by (by eexists). exact Hhas.
    - exists (Some i'), i'. done. }
  exists raw, zs, d1, db', ix. split_and!; try done.
  - rewrite Hst. apply commit_after; [done|done|]. rewrite Hix1. destruct (dr_block_index d); [|done].
    destruct Hix as (i' & Hcm & -> & _). by exists i'.
  - destruct (dr_block_index d); [|done]. destruct Hix as (i' & _ & -> & Hrun). by exists i'.
Qed.

(** ** What a block changes *)

Record effect d h (bi : BlockInfo) (df : BlockStorageDiff) d' : Prop := {
  ef_udt : dr_udt d' = dr_udt d;
  ef_other col p n : versioned col -> is_u64 n -> n <> bi_number bi ->
    version_at (dr_udt d) (dr_db d') col p n = version_at (dr_udt d) (dr_db d) col p n;
  ef_same col p n : versioned col -> is_u64 n -> df = empty_diff ->
    version_at (dr_udt d) (dr_db d') col p n = version_at (dr_udt d) (dr_db d) col p n;
  ef_account a : is_u256 a ->
    version_at (dr_udt d) (dr_db d') AddressToAccount (h256_bytes a) (bi_number bi) =
      match last_assoc (account_writes df) a with
      | Some o => Some (match o with Some x => encode_slim_account x | None => [] end)
      | None => version_at (dr_udt d) (dr_db d) AddressToAccount (h256_bytes a) (bi_number bi)
      end;
  ef_storage a i : is_u256 a -> is_u256 i ->
    version_at (dr_udt d) (dr_db d') AddressToStorage (slot_prefix a i) (bi_number bi) =
      match last_assoc (storage_writes df) (a, i) with
      | Some v => Some (stored (dr_udt d) AddressToStorage (be_bytes 32 v))
      | None =>
          if decide (a ∈ bd_deleted_accounts df /\ (storage_at (dr_udt d) (dr_db d) (slot_prefix a i) (sd_block_num h)).2 <> 0)
          then Some (stored (dr_udt d) AddressToStorage (be_bytes 32 0))
          else version_at (dr_udt d) (dr_db d) AddressToStorage (slot_prefix a i) (bi_number bi)
      end;
  ef_hash n : is_u64 n -> hash_at (dr_db d') n = if decide (n = bi_number bi) then bi_hash bi else hash_at (dr_db d) n;
  ef_code x : is_u256 x ->
    code_of (dr_db d') x = match last_assoc (code_writes df) x with Some c => Some c | None => code_of (dr_db d) x end;
  ef_code_mono x c : code_of (dr_db d) x = Some c -> code_of (dr_db d') x = Some c;
  ef_stored info : block_stored blocks d info -> bi_number info <> bi_number bi -> block_stored blocks d' info;
  ef_cache c' : dr_state_cache d' = Some c' -> exists c, dr_state_cache d = Some c /\ sc_head c <= sc_head c';
  ef_meta k : k <> [1] -> kv_contents (dr_db d') LatestBlockHash k = kv_contents (dr_db d) LatestBlockHash k;
}.

(** The writes of a code's hash agree with the code the database had. *)
Lemma code_writes_agree bi df k x :
  archive_valid bi df -> last_assoc (map (fun w => (h256_bytes w.1, w.2)) (code_writes df)) k = Some x -> codes (from_be k) = Some x.
Proof.
  intros Hv Hl. apply last_assoc_in, list_elem_of_fmap in Hl as ([y c] & Heq & Hin). apply pair_equal_spec in Heq as [-> ->].
  destruct (av_codes _ _ Hv y c Hin) as [Hy Hc]. cbn [fst snd]. by rewrite from_be_h256.
Qed.

Lemma index_key_inj a b : is_u64 a -> is_u64 b -> index_key a = index_key b -> a = b.
Proof. intros Ha Hb. apply be_bytes_inj; by apply is_u64_pow. Qed.

Section written.
Context (d d1 : DataBaseRef K C) (h : StateDB K) (hd bi : BlockInfo) (df : BlockStorageDiff) (raw : bytes).
Context (zs : list ((H256 * H256) * U256)) (db' : K) (ix : option BlockIndex).
Hypothesis Hn : node_ok blocks codes d hd.
Hypothesis Ho : handle_on d h hd.
Hypothesis Hv : archive_valid bi df.
Hypothesis Hx : extends hd bi df.
Hypothesis Hdec : decode_block_info (bi_hash bi) raw = Ok bi.
Hypothesis Ha1 : archive_ok d1.
Hypothesis Hr1 : recached d d1.
Hypothesis Hz : zeros_ok d h (bi_number bi) (bd_deleted_accounts df) zs.
Hypothesis Hw : written d1 (block_batch (bool_decide (is_Some (dr_block_index d))) raw bi df zs) db'.
Hypothesis Hix : match dr_block_index d with
  | Some _ => exists i', ix = Some i' /\ run_ok (E := E) crc32 (block_entries blocks) db' i'
  | None => ix = None
  end.

Let d' := after_commit d1 db' ix (bi_number bi).
Lemma wr_db : dr_db d1 = dr_db d /\ dr_udt d1 = dr_udt d.
Proof. by apply recached_same. Qed.

Lemma wr_block : blocks !! bi_hash bi = Some bi.
Proof. apply Hv. Qed.

Lemma wr_number : is_u64 (bi_number bi).
Proof. by apply (block_u64 blocks Hblocks), wr_block. Qed.

Lemma wr_contents c k : ~ versioned c ->
  kv_contents db' c k = block_contents (bool_decide (is_Some (dr_block_index d))) raw bi df c k (kv_contents (dr_db d) c k).
Proof. intros Hc. rewrite (block_contents_ok d1 _ raw bi df zs db' c k Hw Hc). by rewrite (proj1 wr_db). Qed.

Lemma wr_version col p n : versioned col -> is_u64 n ->
  version_at (dr_udt d) db' col p n =
    if decide (n = bi_number bi) then
      match last_assoc (batch_writes (block_batch (bool_decide (is_Some (dr_block_index d))) raw bi df zs) col) (version_key inverted_block_encoding p (bi_number bi)) with
      | Some v => Some (stored (dr_udt d) col v)
      | None => version_at (dr_udt d) (dr_db d) col p n
      end
    else version_at (dr_udt d) (dr_db d) col p n.
Proof.
  intros Hc Hnn. destruct wr_db as [<- <-]. apply batch_versions; [apply block_batch_at|done|apply wr_number|done|exact Hw].
Qed.

Lemma wr_empty : df = empty_diff -> zs = [].
Proof.
  intros ->. destruct zs as [|[[a i] v] zs']; [done|]. assert (Hin : ((a, i), v) ∈ ((a, i), v) :: zs') by left.
  apply Hz in Hin as (Hd & _). cbn in Hd. by apply elem_of_nil in Hd.
Qed.

Lemma wr_stored info : block_stored blocks d info -> bi_number info <> bi_number bi -> block_stored blocks d' info.
Proof.
  intros (Hb & (r & Hr & Hst) & Hh) Hne. split; [done|].
  assert (Hub := block_u64 blocks Hblocks _ Hb). assert (Hun := wr_number). pose proof wr_contents as Hcon. split.
  - exists r. split; [done|]. cbn [d' after_commit dr_block_index dr_db]. destruct (dr_block_index d) as [i|] eqn:Hi.
    + destruct Hix as (i' & -> & _). rewrite Hcon by (by intros [?|?]). cbn [block_contents].
      rewrite decide_False; [done|]. intros [_ Heq]. apply Hne. by apply index_key_inj.
    + rewrite Hix, Hcon by (by intros [?|?]). cbn [block_contents]. rewrite decide_False; [done|].
      intros [_ Heq]. apply h256_inj in Heq; [|by apply (block_u256 blocks Hblocks)|by apply (block_u256 blocks Hblocks), wr_block].
      pose proof wr_block as Hbb. rewrite <- Heq, Hb in Hbb. apply Hne. congruence.
  - cbn [d' after_commit dr_db]. rewrite Hcon by (by intros [?|?]). cbn [block_contents]. rewrite decide_False; [done|].
    intros Heq. apply Hne. by apply encode_block_num_inj.
Qed.

Lemma wr_effect : effect d h bi df d'.
Proof.
  destruct wr_db as [Hdb1 Hu1]. pose proof wr_number as HN.
  split; cbn [d' after_commit dr_udt dr_db]; try done.
  - intros col p n Hc Hnn Hne. rewrite wr_version by done. by rewrite decide_False.
  - intros col p n Hc Hnn He. rewrite wr_version by done. case_decide; [|done]. rewrite (wr_empty He), He. by destruct Hc as [-> | ->].
  - intros a Ha. rewrite wr_version by (done || by left). rewrite decide_True by done. cbn [batch_writes block_batch wb_account_writes].
    rewrite (account_records _ bi) by done. by destruct (last_assoc (account_writes df) a).
  - intros a i Ha Hi. rewrite wr_version by (done || by right). rewrite decide_True by done. cbn [batch_writes block_batch wb_storage_writes].
    rewrite storage_records_assoc; [|..|done|done].
    2: { intros a' i' v' [Hin|Hin]%elem_of_app; [|by apply (av_storage _ _ Hv) in Hin as (? & ? & _)].
         apply Hz in Hin as (Hd & Hi' & _). pose proof (av_deleted _ _ Hv) as Hdel. rewrite Forall_forall in Hdel. auto. }
    rewrite (zeros_then_writes d h (bi_number bi)) by done. destruct (last_assoc (storage_writes df) (a, i)); [done|]. by case_decide.
  - intros n Hnn. unfold hash_at. rewrite wr_contents by (by intros [?|?]). cbn [block_contents].
    destruct (decide (n = bi_number bi)) as [->|Hne].
    + rewrite decide_True by done. apply from_be_h256. apply (block_u256 blocks Hblocks), wr_block.
    + rewrite decide_False; [done|]. intros Heq. by apply Hne, encode_block_num_inj.
  - intros x Hu. unfold code_of. rewrite wr_contents by (by intros [?|?]). cbn [block_contents].
    pose proof (last_assoc_inj h256_bytes id is_u256 (code_writes df) x h256_inj Hu) as Hl. unfold id in Hl. rewrite Hl.
    + by destruct (last_assoc (code_writes df) x).
    + intros y c Hin. by apply (av_codes _ _ Hv) in Hin as [? _].
  - intros x c Hc. unfold code_of in *. rewrite wr_contents by (by intros [?|?]). cbn [block_contents].
    destruct (last_assoc _ (h256_bytes x)) as [c'|] eqn:Hl; [|done].
    apply (code_writes_agree bi) in Hl; [|done]. apply (no_codes _ _ _ _ Hn) in Hc. congruence.
  - apply wr_stored.
  - cbn [d' after_commit dr_state_cache]. intros c' Hc. destruct (dr_state_cache d1) as [c1|] eqn:Hc1; [|done]. injection Hc as <-.
    destruct Hr1 as [_ Hhead]. rewrite Hc1 in Hhead. destruct (dr_state_cache d) as [c0|] eqn:Hc0; [|done].
    injection Hhead as Hhead. exists c0. split; [done|]. cbn [advance_head sc_head]. lia.
  - intros k Hk. rewrite wr_contents by (by intros [?|?]). cbn [block_contents]. by rewrite decide_False.
Qed.

(** Blocks up to the old head read as before. *)
Lemma wr_old col p n : versioned col -> is_u64 n -> n <= bi_number hd ->
  version_at (dr_udt d) db' col p n = version_at (dr_udt d) (dr_db d) col p n.
Proof.
  intros Hc Hnn Hle. pose proof wr_effect as He. destruct Hx as [Hlt|[_ Hdf]].
  - apply (ef_other _ _ _ _ _ He); [done..|lia].
  - by apply (ef_same _ _ _ _ _ He).
Qed.

Lemma wr_archive : archive_ok d'.
Proof.
  destruct wr_db as [Hdb1 Hu1]. split; cbn [d' after_commit dr_udt dr_db dr_state_cache].
  - eapply batch_db_ok; [apply Ha1|apply block_batch_at|apply wr_number|done|by apply block_accounts_decode].
  - intros c Hc. destruct (dr_state_cache d1) as [c1|] eqn:Hc1; [|done]. injection Hc as <-.
    destruct (ao_cache _ Ha1 c1 Hc1) as (Hhd & Hta & Hts). rewrite Hu1, Hdb1 in Hta, Hts.
    assert (Hle : sc_head c1 <= bi_number hd).
    { destruct Hr1 as [_ Hhead]. rewrite Hc1 in Hhead. destruct (dr_state_cache d) as [c0|] eqn:Hc0; [|done].
      injection Hhead as ->. by apply (no_cache_head _ _ _ _ Hn). }
    pose proof wr_number as HN. rewrite Hu1.
    assert (Hold : forall col key n, versioned col -> is_u64 n -> n <= sc_head c1 ->
      newest (version_at (dr_udt d) (dr_db d) col key) n = newest (version_at (dr_udt d) db' col key) n).
    { intros col key n Hcol Hnn Hnle. apply newest_ext; [done|]. intros b Hb Hbn. symmetry. apply wr_old; [done..|lia]. }
    split; [cbn; unfold is_u64 in *; lia|]. cbn [advance_head sc_head sc_accounts sc_storage]. split.
    + eapply table_ok_append; [| |exact Hta]; [lia|]. intros key n Hnn Hnle. unfold account_at. rewrite Hold; [done|by left|done..].
    + eapply table_ok_append; [| |exact Hts]; [lia|]. intros key n Hnn Hnle. unfold storage_at. rewrite Hold; [done|by right|done..].
Qed.

Lemma wr_infos : infos_ok blocks d'.
Proof.
  pose proof (no_infos _ _ _ _ Hn) as [Hplain Hidx _ Hcache]. pose proof wr_contents as Hcon.
  assert (Hsome : dr_block_index d = None <-> ix = None).
  { destruct (dr_block_index d); [|done]. by destruct Hix as (i' & -> & _). }
  split; cbn [d' after_commit dr_block_index dr_db dr_block_info_cache].
  - intros k r Hi Hk. rewrite Hcon in Hk by (by intros [?|?]). cbn [block_contents] in Hk. case_decide as Hd; [|apply Hplain; [tauto|done]].
    destruct Hd as [_ ->]. injection Hk as <-. exists bi. split; [apply wr_block|done].
  - intros k r Hi Hk. rewrite Hcon in Hk by (by intros [?|?]). cbn [block_contents] in Hk. case_decide as Hd.
    + destruct Hd as [_ ->]. apply (inj Some) in Hk as <-. exists bi, raw. split; [apply wr_block|done].
    + apply Hidx; [|done]. destruct (dr_block_index d); [by eexists|]. destruct Hi as [? Hi]. rewrite (proj1 Hsome eq_refl) in Hi. done.
  - intros i ->. destruct (dr_block_index d); [|done]. destruct Hix as (i' & Heq & Hrun). by injection Heq as ->.
  - intros c x info Hc Hg. apply (Hcache c x info); [|done]. destruct Hr1 as [Heq _]. rewrite Heq in Hc. done.
Qed.

Lemma wr_head_stored : block_stored blocks d' bi.
Proof.
  pose proof wr_contents as Hcon. split; [apply wr_block|]. split.
  - exists raw. split; [done|]. cbn [d' after_commit dr_block_index dr_db]. destruct (dr_block_index d) as [i|].
    + destruct Hix as (i' & -> & _). rewrite Hcon by (by intros [?|?]). cbn [block_contents]. rewrite decide_True; [done|].
      split; [|done]. apply bool_decide_eq_true. by eexists.
    + rewrite Hix, Hcon by (by intros [?|?]). cbn [block_contents]. rewrite decide_True; [done|].
      split; [|done]. apply bool_decide_eq_false. by intros [].
  - cbn [d' after_commit dr_db]. rewrite Hcon by (by intros [?|?]). cbn [block_contents]. by rewrite decide_True.
Qed.

Lemma wr_node : node_ok blocks codes d' bi.
Proof.
  pose proof wr_head_stored as (_ & Hinfo & Hhash). pose proof wr_contents as Hcon. pose proof wr_effect as He.
  destruct wr_db as [Hdb1 Hu1]. pose proof wr_number as HN. pose proof (extends_le _ _ _ Hx) as Hle.
  split; [apply wr_archive|apply wr_infos|apply wr_block|..]; cbn [d' after_commit dr_db dr_udt dr_state_cache dr_code_cache]; try done.
  - rewrite Hcon by (by intros [?|?]). cbn [block_contents]. by rewrite decide_True.
  - intros k r Hk. rewrite Hcon in Hk by (by intros [?|?]). cbn [block_contents] in Hk.
    case_decide as Heq; [|by eapply no_hashes]. apply (inj Some) in Hk as <-. split; [apply length_h256|by exists (bi_number bi)].
  - intros col p n Hc Hnn Hlt. rewrite Hu1, (ef_other _ _ _ _ _ He) by (done || lia). apply (no_versions _ _ _ _ Hn); [done..|lia].
  - intros c Hc. destruct (dr_state_cache d1) as [c1|] eqn:Hc1; [|done]. injection Hc as <-. cbn [advance_head sc_head].
    destruct Hr1 as [_ Hhead]. rewrite Hc1 in Hhead. destruct (dr_state_cache d) as [c0|] eqn:Hc0; [|done].
    injection Hhead as ->. pose proof (no_cache_head _ _ _ _ Hn c0 Hc0). lia.
  - intros k r Hk. rewrite Hcon in Hk by (by intros [?|?]). cbn [block_contents] in Hk.
    destruct (last_assoc _ k) as [x|] eqn:Hl; [|by eapply no_codes]. injection Hk as <-. by eapply code_writes_agree.
  - intros c x code Hc Hg. apply (ef_code_mono _ _ _ _ _ He). eapply no_code_cache; [done| |done].
    destruct Hr1 as [Heq _]. rewrite Heq in Hc. done.
Qed.
End written.

(** Writing a block keeps the node's archive right. *)
Lemma store_block_ok d h hd bi df :
  node_ok blocks codes d hd -> handle_on d h hd -> archive_valid bi df -> extends hd bi df ->
  exists d', store_block (B := ArchiveRocksDBWriteBatch) (E := Error E) d h bi df = (Ok tt, d') /\
    node_ok blocks codes d' bi /\ effect d h bi df d' /\ block_stored blocks d' bi.
Proof.
  intros Hn Ho Hv Hx.
  destruct (store_block_written d h hd bi df Hn Ho Hv) as (raw & zs & d1 & db' & ix & _ & Hdec & Ha1 & Hr1 & Hz & Hw & Hst & Hix).
  exists (after_commit d1 db' ix (bi_number bi)). split; [done|].
  split; [by eapply wr_node|]. split; [by eapply wr_effect|by eapply wr_head_stored].
Qed.
End update.
