(* ===== verification/ArchiveStore.v ===== *)
(** * The archive as the store of a node

    The archive persists what the wrapper asks of a database ([archive_store_ok]),
    so the state tree runs over it; and it travels in time: after any run of
    blocks, the handle of each block of the run reads that block's state. *)

From stdpp Require Import prelude gmap list sorting strings.
From S2P Require Import Prelude Types QuickCache Backend KvStore ArchiveEncoding StateCache BlockIndex BlockIndexFacts.
From S2P Require Import BlockIndexStore BlockIndexRun BlockIndexTheorems Archive ArchiveReads ArchiveSlots ArchiveWrite.
From S2P Require Import ArchiveCommit Wrapper WrapperFacts ArchiveBackend ArchiveUpdate.

#[local] Open Scope Z_scope.
#[local] Open Scope state_scope.

(** The newest version after a write at [n], when the old versions end at [m]. *)
Lemma newest_written f g m n :
  is_u64 m -> is_u64 n -> m < n -> (forall b, is_u64 b -> m < b -> f b = None) ->
  (forall b, is_u64 b -> b <> n -> g b = f b) ->
  newest g n = match g n with Some v => Some (n, v) | None => newest f m end.
Proof.
  intros Hm Hn Hlt Hf Hg. apply newest_unique; [done|]. destruct (g n) as [v|] eqn:Hgn.
  - cbn. split_and!; done || lia.
  - apply (latest_le_ext f).
    + intros b Hb _. destruct (decide (b = n)) as [->|]; [rewrite Hgn; by apply Hf|symmetry; auto].
    + eapply latest_le_raise; [by apply newest_ok|lia|]. intros b Hb Hr. apply Hf; [done|lia].
Qed.

Section store.
Context {K E : Type} `{RocksDBOk K E} {C : Type -> Type -> Type} `{QuickCacheOk C}.
Context `{SlimCodecOk} `{BlockCodecOk E} `{ArchiveConfig} `{RevmBytecode}.
Context (blocks : gmap H256 BlockInfo) (codes : H256 -> option bytes).
Context (Hblocks : blocks_ok blocks).
Implicit Types (d : DataBaseRef K C) (h : StateDB K) (db : K).

Definition account_read d h (a : H256) : option NewAccount :=
  option_map (fun x => with_address x a) (account_at (dr_udt d) (dr_db d) (h256_bytes a) (sd_block_num h)).2.

Definition storage_read d h (a i : H256) : U256 :=
  (storage_at (dr_udt d) (dr_db d) (slot_prefix a i) (sd_block_num h)).2.

Definition hash_read d h (n : u64) : H256 :=
  match sd_block_info h with
  | Some info => if decide (n = sd_block_num h) then bi_hash info else hash_at (dr_db d) n
  | None => hash_at (dr_db d) n
  end.

(** The store of a node whose blocks and codes are among [blocks] and [codes]. *)
#[local] Instance archive_spec : StoreSpec (DataBaseRef K C) (StateDB K) := {|
  st_ok d := exists hd, node_ok blocks codes d hd;
  st_usable d h := exists info, handle_on d h info;
  st_account := account_read;
  st_storage := storage_read;
  st_code d := code_of (dr_db d);
  st_hash := hash_read;
  st_info _ h := default (mkBlockInfo 0 0 0 0 []) (sd_block_info h);
  st_valid := archive_valid blocks codes;
|}.

(** The state of block [info], as a fresh handle on it shows it. *)
Definition block_state d (info : BlockInfo) : AState := store_state d (new_handle d (bi_number info) (Some info)).

Lemma new_handle_num d n o : sd_block_num (new_handle d n o) = n.
Proof. unfold new_handle. by destruct (new_state_iterators d n). Qed.

Lemma new_handle_info d n o : sd_block_info (new_handle d n o) = o.
Proof. unfold new_handle. by destruct (new_state_iterators d n). Qed.

Lemma handle_state d h info : handle_on d h info -> store_state d h ≡ block_state d info.
Proof.
  intros [_ Hi Hn]. unfold block_state. split; intros; cbn; unfold account_read, storage_read, hash_read;
    by rewrite ?new_handle_num, ?new_handle_info, ?Hi, ?Hn.
Qed.

(** ** A block's writes, read back *)

Lemma decode_stored udt v : is_u256 v -> decode_storage (stored udt AddressToStorage (be_bytes 32 v)) = v.
Proof.
  intros Hv. rewrite decode_storage_from_be. cbn [stored]. destruct udt; rewrite ?from_be_strip; by apply from_be_h256.
Qed.

Lemma decode_written bi df a x :
  archive_valid blocks codes bi df -> last_assoc (account_writes df) a = Some (Some x) ->
  account_value (encode_slim_account x) = Some (mkCachedAccount (na_balance x) (na_nonce x) (na_code_hash x)).
Proof.
  intros Hv Hl. apply last_assoc_in in Hl. unfold account_writes in Hl.
  apply elem_of_app in Hl as [(a' & Heq & _)%list_elem_of_fmap|(x' & Heq & Hin)%list_elem_of_fmap]; [done|].
  injection Heq as -> <-. pose proof (av_accounts _ _ _ _ Hv) as Ha. rewrite Forall_forall in Ha.
  destruct (Ha x Hin) as (_ & Hb & Hno & Hc & Hnz). unfold account_value, encode_slim_account.
  destruct (slim_encode (slim_of_new x)) eqn:Hs; [by apply slim_nonempty in Hs|].
  rewrite <- Hs, slim_roundtrip by done. cbn. by rewrite decide_False.
Qed.

Section block.
Context d h (hd bi : BlockInfo) (df : BlockStorageDiff) d'.
Context (Hn : node_ok blocks codes d hd) (Ho : handle_on d h hd) (Hv : archive_valid blocks codes bi df).
Context (Hx : extends hd bi df) (He : effect blocks d h bi df d').

Lemma head_u64 : is_u64 (bi_number hd).
Proof. apply (block_u64 blocks Hblocks), Hn. Qed.

Lemma block_number_u64 : is_u64 (bi_number bi).
Proof. apply (block_u64 blocks Hblocks), Hv. Qed.

(** The newest version at the block. *)
Lemma newest_block col p :
  versioned col ->
  newest (version_at (dr_udt d) (dr_db d') col p) (bi_number bi) =
    if decide (bi_number hd < bi_number bi) then
      match version_at (dr_udt d) (dr_db d') col p (bi_number bi) with
      | Some v => Some (bi_number bi, v)
      | None => newest (version_at (dr_udt d) (dr_db d) col p) (bi_number hd)
      end
    else newest (version_at (dr_udt d) (dr_db d) col p) (bi_number hd).
Proof.
  intros Hc. pose proof head_u64. pose proof block_number_u64. case_decide as Hlt.
  - apply newest_written; [done..| |].
    + intros b Hb Hr. by apply (no_versions _ _ _ _ Hn).
    + intros b Hb Hne. by apply (ef_other _ _ _ _ _ _ He).
  - destruct Hx as [?|[-> Hdf]]; [done|]. apply newest_ext; [done|]. intros b Hb _. by apply (ef_same _ _ _ _ _ _ He).
Qed.

Lemma block_account a : is_u256 a ->
  option_map account_info_of_new (account_read d' (new_handle d' (bi_number bi) (Some bi)) a) =
    match last_assoc (account_writes df) a with
    | Some o => option_map account_info_of_new o
    | None => option_map account_info_of_new (account_read d h a)
    end.
Proof.
  intros Ha. unfold account_read. rewrite new_handle_num, (ef_udt _ _ _ _ _ _ He), (hn_number _ _ _ Ho).
  unfold account_at. rewrite (newest_block AddressToAccount) by (by left). rewrite (ef_account _ _ _ _ _ _ He) by done.
  case_decide as Hlt.
  - destruct (last_assoc (account_writes df) a) as [[x|]|] eqn:Hl; cbn [value_of snd option_map]; [|done|].
    + by rewrite (decode_written bi df a x).
    + by rewrite (no_versions _ _ _ _ Hn _ _ _ ltac:(by left) block_number_u64).
  - by destruct Hx as [?|[-> ->]].
Qed.

Lemma block_storage a i : is_u256 a -> is_u256 i ->
  storage_read d' (new_handle d' (bi_number bi) (Some bi)) a i =
    match last_assoc (storage_writes df) (a, i) with
    | Some v => v
    | None => if decide (a ∈ bd_deleted_accounts df) then 0 else storage_read d h a i
    end.
Proof.
  intros Ha Hi. unfold storage_read. rewrite new_handle_num, (ef_udt _ _ _ _ _ _ He), (hn_number _ _ _ Ho).
  unfold storage_at at 1. rewrite (newest_block AddressToStorage) by (by right). rewrite (ef_storage _ _ _ _ _ _ He) by done.
  rewrite (hn_number _ _ _ Ho). case_decide as Hlt.
  - destruct (last_assoc (storage_writes df) (a, i)) as [v|] eqn:Hl; cbn [value_of snd].
    + apply last_assoc_in, (av_storage _ _ _ _ Hv) in Hl. apply decode_stored, Hl.
    + destruct (decide (a ∈ bd_deleted_accounts df)) as [Hdel|Hdel].
      * case_decide as Hz; [by apply decode_stored|]. rewrite (no_versions _ _ _ _ Hn _ _ _ ltac:(by right) block_number_u64) by done.
        change ((storage_at (dr_udt d) (dr_db d) (slot_prefix a i) (bi_number hd)).2 = 0). destruct (decide ((storage_at (dr_udt d) (dr_db d) (slot_prefix a i) (bi_number hd)).2 = 0)); tauto.
      * rewrite decide_False by tauto. by rewrite (no_versions _ _ _ _ Hn _ _ _ ltac:(by right) block_number_u64).
  - destruct Hx as [?|[-> ->]]; [done|]. cbn. done.
Qed.

(** The state of the block is the diff applied to the state before. *)
Lemma block_state_apply : node_ok blocks codes d' bi -> block_state d' bi ≡ apply_block bi df (store_state d h).
Proof.
  intros Hn'. assert (Hout : forall a i v, last_assoc (storage_writes df) (a, i) = Some v -> is_u256 a /\ is_u256 i).
  { intros a i v Hl. apply last_assoc_in, (av_storage _ _ _ _ Hv) in Hl. tauto. }
  pose proof (proj1 (Forall_forall _ _) (av_deleted _ _ _ _ Hv)) as Hdel.
  split; cbn [block_state store_state apply_block overlay_block as_account as_storage as_code as_hash as_info].
  - intros a. case_decide as Ha; [by apply block_account|]. destruct (last_assoc (account_writes df) a) eqn:Hl; [|done].
    apply last_assoc_in, (account_writes_u256 _ _ _ _ _ _ Hv) in Hl. done.
  - intros a i. destruct (decide (is_u256 a /\ is_u256 i)) as [[Ha Hi]|Hai]; [by apply block_storage|].
    destruct (last_assoc (storage_writes df) (a, i)) eqn:Hl; [by apply Hout in Hl|]. by case_decide.
  - intros x. case_decide as Hxu.
    + cbn [st_code archive_spec]. rewrite (ef_code _ _ _ _ _ _ He) by done. by destruct (last_assoc (code_writes df) x).
    + destruct (last_assoc (code_writes df) x) eqn:Hl; [|done].
      apply last_assoc_in, (av_codes _ _ _ _ Hv) in Hl as [? _]. done.
  - intros n. cbn [st_hash archive_spec]. unfold hash_read. rewrite new_handle_num, new_handle_info. case_decide as Hnn.
    + case_decide; [done|]. rewrite (ef_hash _ _ _ _ _ _ He), decide_False by done.
      rewrite (hn_info _ _ _ Ho), (hn_number _ _ _ Ho). case_decide as Heq; [|done]. subst n.
      unfold hash_at. rewrite (no_head_hash _ _ _ _ Hn). apply from_be_h256, (block_u256 blocks Hblocks), Hn.
    + rewrite decide_False; [done|]. intros ->. by apply Hnn, block_number_u64.
  - cbn [st_info archive_spec]. by rewrite new_handle_info.
Qed.

(** A block before it persists its state. *)
Lemma block_state_persists info :
  bi_number info < bi_number bi \/ bi = hd /\ df = empty_diff -> is_u64 (bi_number info) -> bi_number info <= bi_number hd ->
  persists (block_state d info) (block_state d' info).
Proof.
  intros Hlt Hnu Hle. assert (Hold : forall col p b, versioned col -> is_u64 b -> b <= bi_number info ->
    version_at (dr_udt d') (dr_db d') col p b = version_at (dr_udt d) (dr_db d) col p b).
  { intros col p b Hc Hb Hbi. rewrite (ef_udt _ _ _ _ _ _ He). destruct Hlt as [Hlt|[_ Hdf]].
    - apply (ef_other _ _ _ _ _ _ He); [done..|lia].
    - by apply (ef_same _ _ _ _ _ _ He). }
  split; cbn [block_state store_state as_account as_storage as_code as_hash as_info].
  - intros a. case_decide; [|done]. cbn [st_account archive_spec]. unfold account_read, account_at. rewrite !new_handle_num.
    by rewrite (newest_ext _ _ _ Hnu (fun b => Hold AddressToAccount (h256_bytes a) b ltac:(by left))).
  - intros a i. case_decide; [|done]. cbn [st_storage archive_spec]. unfold storage_read, storage_at. rewrite !new_handle_num.
    by rewrite (newest_ext _ _ _ Hnu (fun b => Hold AddressToStorage (slot_prefix a i) b ltac:(by right))).
  - cbn [st_info archive_spec]. by rewrite !new_handle_info.
  - intros n. cbn [st_info st_hash archive_spec]. unfold hash_read. rewrite !new_handle_info, !new_handle_num. cbn [from_option id].
    intros Hnle. case_decide; [|done]. case_decide; [done|]. rewrite (ef_hash _ _ _ _ _ _ He) by done. case_decide as Heq; [|done].
    destruct Hlt as [?|[-> _]]; [lia|]. subst n. unfold hash_at. rewrite (no_head_hash _ _ _ _ Hn).
    symmetry. apply from_be_h256, (block_u256 blocks Hblocks), Hn.
  - intros x. case_decide; [|by left]. cbn [st_code archive_spec].
    destruct (code_of (dr_db d) x) as [c|] eqn:Hc; [left|by right]. by rewrite (ef_code_mono _ _ _ _ _ _ He _ _ Hc).
Qed.
End block.

(** ** The contract of the wrapper *)

Lemma latest_handle d hd : node_ok blocks codes d hd ->
  exists h d', Archive.db_at d (ByNumber Latest) = (Ok (Some h), d') /\ handle_on d h hd /\ reinfo blocks d d' /\
    node_ok blocks codes d' hd /\ handle_on d' h hd.
Proof.
  intros Hn. destruct (db_at_latest blocks codes Hblocks d hd Hn) as (d' & Hd & Hr). eexists _, d'. split; [done|].
  pose proof (node_reinfo _ _ _ _ _ Hn Hr) as Hn'. split; [eapply (new_handle_on blocks codes); done || apply Hn|].
  split; [done|]. split; [done|]. rewrite <- (new_handle_reinfo blocks d d') by done.
  eapply (new_handle_on blocks codes); done || apply Hn.
Qed.

Lemma slots_read d h a slots :
  slots_exact (dr_udt d) (dr_db d) a (sd_block_num h) slots ->
  forall i, i ∈ slots.*1 <-> is_u256 i /\ storage_read d h a i <> 0.
Proof.
  intros [_ Hex] i. rewrite list_elem_of_fmap. split.
  - intros ([i' v] & -> & Hin). apply Hex in Hin as (Hi & Hv & <-). done.
  - intros [Hi Hv]. exists (i, storage_read d h a i). split; [done|]. by apply Hex.
Qed.

#[local] Instance archive_store_ok : StoreOk (DataBaseRef K C) (StateDB K) ArchiveRocksDBWriteBatch (Error E).
Proof.
  split; cbn [st_ok st_usable st_account st_storage st_code st_hash st_info st_valid archive_spec
    r_account r_account_many r_storage r_storage_many r_code r_code_many r_block_hash r_latest_block_hash r_block_info
    r_storage_slots archive_read db_at archive_db_at].
  - intros d [hd Hn]. destruct (latest_handle d hd Hn) as (h & d' & Hd & Ho & _). exists h, d'. eauto.
  - intros d h a [hd Hn] [info Ho]. by destruct (read_account_ok d h a (no_archive _ _ _ _ Hn) (hn_handle _ _ _ Ho)) as (d' & -> & _).
  - intros d h l [hd Hn] [info Ho]. by destruct (read_account_many_ok d h l (no_archive _ _ _ _ Hn) (hn_handle _ _ _ Ho)) as (d' & -> & _).
  - intros d h k [hd Hn] [info Ho]. by destruct (read_storage_ok d h k.1 k.2 (no_archive _ _ _ _ Hn) (hn_handle _ _ _ Ho)) as (d' & -> & _).
  - intros d h l [hd Hn] [info Ho]. by destruct (read_storage_many_ok d h l (no_archive _ _ _ _ Hn) (hn_handle _ _ _ Ho)) as (d' & -> & _).
  - intros d h x [hd Hn] _. by destruct (read_code_ok blocks codes d hd x Hn) as (d' & -> & _).
  - intros d h l [hd Hn] _. by destruct (read_code_many_ok blocks codes d hd l Hn) as (d' & -> & _).
  - intros d h n [hd Hn] _ _. unfold sd_read_block_hash, hash_read. rewrite (read_block_hash_ok blocks codes d hd n Hn).
    destruct (sd_block_info h); [by case_decide|done].
  - intros d h [hd Hn] [info Ho]. unfold sd_read_latest_block_hash, sd_read_block_info. rewrite (hn_info _ _ _ Ho).
    exists (bi_hash info). by rewrite decide_True.
  - intros d h a slots [hd Hn] [info Ho] Ha.
    destruct (storage_slots_ok d h a (no_archive _ _ _ _ Hn) (hn_handle _ _ _ Ho) Ha) as (l & d' & Heq & Hex & _).
    unfold read_storage_slots. rewrite Heq. cbn [sbind fst]. intros [= <-]. by apply slots_read.
  - intros d h bi df [hd Hn] Hh Hv Hex Hx. destruct (latest_handle d hd Hn) as (h0 & d0 & Hd & Ho & _).
    change (fst (Archive.db_at d (ByNumber Latest)) = Ok (Some h)) in Hh. rewrite Hd in Hh.
    injection Hh as ->. rewrite (hn_info _ _ _ Ho) in Hx. cbn [from_option id] in Hx.
    destruct (store_block_ok blocks codes Hblocks d h hd bi df Hn Ho Hv Hx) as (d' & Hs & Hn' & He & _).
    destruct (latest_handle d' bi Hn') as (h' & d1 & Hd' & Ho' & _). exists d', h'. split; [done|]. split; [by exists bi|].
    split; [by apply (f_equal fst) in Hd'|]. split; [|apply He].
    rewrite (handle_state _ _ _ Ho'), (block_state_apply d h hd bi df d') by done. symmetry. by apply overlay_apply_block.
Qed.
End store.
