(* ===== verification/ArchiveRun.v ===== *)
(** * Runs of a node over the archive

    A node opens handles on the latest block or on any block it committed,
    reads through them and commits further blocks, in any order. Whatever the
    order, a handle reads the state its block had when it was committed, and
    every committed block can be opened. *)

From stdpp Require Import prelude gmap list sorting strings.
From S2P Require Import Prelude Types QuickCache Backend KvStore ArchiveEncoding StateCache BlockIndex BlockIndexFacts.
From S2P Require Import BlockIndexStore BlockIndexRun BlockIndexTheorems Archive ArchiveReads ArchiveSlots ArchiveWrite.
From S2P Require Import ArchiveCommit Layers LayersFacts TreeReads Wrapper WrapperFacts ArchiveBackend.
From S2P Require Import ArchiveUpdate ArchiveStore.

#[local] Open Scope Z_scope.
#[local] Open Scope state_scope.

Section run.
Context {K E : Type} `{RocksDBOk K E} {C : Type -> Type -> Type} `{QuickCacheOk C}.
Context `{SlimCodecOk} `{BlockCodecOk E} `{ArchiveConfig} `{RevmBytecode}.
Context (blocks : gmap H256 BlockInfo) (codes : H256 -> option bytes).
Context (Hblocks : blocks_ok blocks).
Implicit Types (d : DataBaseRef K C) (h : StateDB K) (w : World C (DataBaseRef K C)).

#[local] Existing Instance archive_spec.
#[local] Instance run_spec : StoreSpec (DataBaseRef K C) (StateDB K) := archive_spec blocks codes.
#[local] Instance run_store_ok : StoreOk (DataBaseRef K C) (StateDB K) ArchiveRocksDBWriteBatch (Error E) :=
  archive_store_ok blocks codes Hblocks.

(** ** Refilled caches *)

#[local] Instance archive_refill : RefillSpec (DataBaseRef K C) := fun d d' =>
  dr_db d' = dr_db d /\ dr_udt d' = dr_udt d /\ dr_block_index d' = dr_block_index d /\
  option_map sc_head (dr_state_cache d') = option_map sc_head (dr_state_cache d) /\
  (forall hd, node_ok blocks codes d hd -> node_ok blocks codes d' hd).

Lemma refill_handle d d' h : refilled d d' -> handle_ok d h -> handle_ok d' h.
Proof.
  intros (Hdb & Hu & _ & Hh & _) [Hb Hl Hud Hv Hs Hi]. split; rewrite ?Hu, ?Hdb; try done.
  intros v c Hvw Hc. rewrite Hc in Hh. destruct (dr_state_cache d) as [c0|] eqn:Hc0; [|done]. injection Hh as ->. by eapply Hv.
Qed.

Lemma recached_refill d d' : archive_ok d' -> recached d d' -> refilled d d'.
Proof.
  intros Ha Hr. pose proof Hr as [Hd Hh]. unfold refilled, archive_refill.
  assert (dr_db d' = dr_db d /\ dr_udt d' = dr_udt d /\ dr_block_index d' = dr_block_index d /\
    dr_code_cache d' = dr_code_cache d /\ dr_block_info_cache d' = dr_block_info_cache d) as (Edb & Eu & Ei & Ec & Eb)
    by (rewrite Hd; done).
  split_and!; try done. intros hd Hn. destruct Hn as [Harch [Hp Hidx Hix Hcc] Hhd Hlat Hinfo Hhash Hhs Hver Hcache Hcod Hcodc].
  split; rewrite ?Edb, ?Eu, ?Ec; try done.
  - split; rewrite ?Edb, ?Ei, ?Eb; done.
  - unfold info_stored. by rewrite Edb, Ei.
  - intros c Hc. rewrite Hc in Hh. destruct (dr_state_cache d) as [c0|]; [|done]. injection Hh as ->. by apply Hcache.
Qed.

Lemma reinfo_refill d d' : reinfo blocks d d' -> refilled d d'.
Proof.
  intros Hr. pose proof Hr as [Hd _]. unfold refilled, archive_refill. rewrite Hd. split_and!; try done.
  intros hd Hn. rewrite <- Hd. by eapply node_reinfo.
Qed.

Lemma recoded_refill d d' : recoded d d' -> refilled d d'.
Proof.
  intros Hr. pose proof Hr as [Hd _]. unfold refilled, archive_refill. rewrite Hd. split_and!; try done.
  intros hd Hn. rewrite <- Hd. by eapply node_recode.
Qed.

#[local] Instance archive_refill_ok : RefillOk (DataBaseRef K C) (StateDB K) (Error E).
Proof.
  split; cbn [st_ok st_usable st_account st_storage st_code st_hash st_info run_spec archive_spec
    r_account r_account_many r_storage r_storage_many r_code r_code_many archive_read].
  - intros d. by split_and!.
  - intros d1 d2 d3 (? & ? & ? & ? & Hn) (? & ? & ? & ? & Hn'). split_and!; try congruence. auto.
  - intros d d' [hd Hn] (_ & _ & _ & _ & Hr). exists hd. auto.
  - intros d d' h Hr [info [Ho Hi Hnum]]. exists info. split; [by eapply refill_handle|done..].
  - intros d d' h a (Hdb & Hu & _). unfold account_read. by rewrite Hdb, Hu.
  - intros d d' h a i (Hdb & Hu & _). unfold storage_read. by rewrite Hdb, Hu.
  - intros d d' x (Hdb & _). by rewrite Hdb.
  - intros d d' h n (Hdb & _). unfold hash_read. by rewrite Hdb.
  - done.
  - intros d h a [hd Hn] [info Ho]. destruct (read_account_ok d h a (no_archive _ _ _ _ Hn) (hn_handle _ _ _ Ho)) as (d' & -> & ? & ?).
    by apply recached_refill.
  - intros d h l [hd Hn] [info Ho]. destruct (read_account_many_ok d h l (no_archive _ _ _ _ Hn) (hn_handle _ _ _ Ho)) as (d' & -> & ? & ?).
    by apply recached_refill.
  - intros d h k [hd Hn] [info Ho]. destruct (read_storage_ok d h k.1 k.2 (no_archive _ _ _ _ Hn) (hn_handle _ _ _ Ho)) as (d' & -> & ? & ?).
    by apply recached_refill.
  - intros d h l [hd Hn] [info Ho]. destruct (read_storage_many_ok d h l (no_archive _ _ _ _ Hn) (hn_handle _ _ _ Ho)) as (d' & -> & ? & ?).
    by apply recached_refill.
  - intros d h x [hd Hn] _. destruct (read_code_ok blocks codes d hd x Hn) as (d' & -> & Hr). by apply recoded_refill.
  - intros d h l [hd Hn] _. destruct (read_code_many_ok blocks codes d hd l Hn) as (d' & -> & Hr). by apply recoded_refill.
Qed.

(** ** A commit under open handles *)

Lemma commit_handle d d' h h0 hd bi df info :
  handle_on d h info -> seen h <= bi_number hd -> extends hd bi df -> effect blocks d h0 bi df d' -> handle_on d' h info.
Proof.
  intros [[Hb Hl Hu Hv Hs Hi] Hinfo Hnum] Hseen Hx He. split; [|done..]. pose proof (ef_udt _ _ _ _ _ _ He) as Hud.
  split; rewrite ?Hud; try done.
  - intros v c Hvw Hc. apply (ef_cache _ _ _ _ _ _ He) in Hc as (c0 & Hc0 & Hle). specialize (Hv v c0 Hvw Hc0). lia.
  - intros Hudt. destruct (Hi Hudt) as (it & Hit & Hdb & Hag). exists it. split; [done|]. split; [done|].
    intros col p n Hc Hn Hle. rewrite Hag by done. rewrite <- Hudt. symmetry. destruct Hx as [Hlt|[_ Hdf]].
    + apply (ef_other _ _ _ _ _ _ He); [done..|lia].
    + by apply (ef_same _ _ _ _ _ _ He).
Qed.

(** Two blocks of one number that are both stored are one. *)
Lemma stored_same_number d i j : block_stored blocks d i -> block_stored blocks d j -> bi_number i = bi_number j -> i = j.
Proof.
  intros (Hi & _ & Hni) (Hj & _ & Hnj) Heq. rewrite Heq, Hnj in Hni. apply (inj Some) in Hni.
  apply h256_inj in Hni; [|by apply (block_u256 blocks Hblocks)..]. congruence.
Qed.

Lemma commit_stored d d' h0 hd bi df info :
  node_ok blocks codes d hd -> extends hd bi df -> effect blocks d h0 bi df d' -> block_stored blocks d' bi ->
  block_stored blocks d info -> bi_number info <= bi_number hd -> block_stored blocks d' info.
Proof.
  intros Hn Hx He Hbi Hs Hle. destruct (decide (bi_number info = bi_number bi)) as [Heq|Hne]; [|by apply (ef_stored _ _ _ _ _ _ He)].
  destruct Hx as [?|[-> _]]; [lia|]. by rewrite (stored_same_number d info hd) by (done || by eapply node_block).
Qed.

Lemma extends_before hd bi df n : extends hd bi df -> n <= bi_number hd -> n < bi_number bi \/ bi = hd /\ df = empty_diff.
Proof. intros [?|?] ?; [left; lia|by right]. Qed.

(** ** Nodes *)

(** A node: the wrapper over the archive, the blocks committed so far with
    their states, latest first, and the open handles with the states they are
    on. *)
Record Node := mkNode {
  nd_world : World C (DataBaseRef K C);
  nd_blocks : list (BlockInfo * AState);
  nd_open : list (StateDB K * AState);
}.

Inductive node_step : Node -> Node -> Prop :=
| ns_open_latest w hd st rest open h w' :
    wr_state_at w (ByNumber Latest) = (Ok (Some h), w') ->
    node_step (mkNode w ((hd, st) :: rest) open) (mkNode w' ((hd, st) :: rest) ((h, st) :: open))
| ns_open w known open id info st h w' :
    (info, st) ∈ known -> names id info -> wr_state_at w id = (Ok (Some h), w') ->
    node_step (mkNode w known open) (mkNode w' known ((h, st) :: open))
| ns_read w known open h st op r w' :
    (h, st) ∈ open -> op_ok op -> wr_read w h op = (r, w') ->
    node_step (mkNode w known open) (mkNode w' known open)
| ns_commit w hd st rest open bi df h w1 r w2 :
    archive_valid blocks codes bi df -> extends hd bi df ->
    wr_state_at w (ByNumber Latest) = (Ok (Some h), w1) -> wr_update_block w1 h bi df = (r, w2) ->
    node_step (mkNode w ((hd, st) :: rest) open) (mkNode w2 ((bi, apply_block bi df st) :: (hd, st) :: rest) open).

(** What holds of an open handle when the head is [hd]. *)
Record open_ok d (hd : BlockInfo) h (st : AState) (info : BlockInfo) : Prop := {
  op_on : handle_on d h info;
  op_below : bi_number info <= bi_number hd;
  op_seen : seen h <= bi_number hd;
  op_state : persists st (store_state d h);
}.

Record known_ok d (hd info : BlockInfo) (st : AState) : Prop := {
  kn_stored : block_stored blocks d info;
  kn_below : bi_number info <= bi_number hd;
  kn_state : persists st (block_state blocks codes d info);
}.

Record node_inv (x : Node) (hd : BlockInfo) : Prop := {
  ni_code : code_cache_ok (nd_world x);
  ni_node : node_ok blocks codes (wd_db (nd_world x)) hd;
  ni_head : exists st rest, nd_blocks x = (hd, st) :: rest /\ block_state blocks codes (wd_db (nd_world x)) hd ≡ st;
  ni_known info st : (info, st) ∈ nd_blocks x -> known_ok (wd_db (nd_world x)) hd info st;
  ni_open h st : (h, st) ∈ nd_open x -> exists info, open_ok (wd_db (nd_world x)) hd h st info;
}.

Lemma node_healthy x hd : node_inv x hd -> healthy (nd_world x).
Proof. intros Hi. split; [exists hd|]; apply Hi. Qed.

(** *** Steps *)

Lemma persists_rewarmed w w' h st : rewarmed w w' -> persists st (store_state (wd_db w) h) -> persists st (store_state (wd_db w') h).
Proof. intros Hr. apply persists_equiv; [done|]. symmetry. apply (rewarmed_view w w' h Hr). Qed.

Lemma block_state_rewarmed w w' info :
  rewarmed w w' -> block_state blocks codes (wd_db w') info ≡ block_state blocks codes (wd_db w) info.
Proof.
  intros Hr. unfold block_state. rewrite <- (rewarmed_view w w' (new_handle (wd_db w) (bi_number info) (Some info)) Hr).
  split; intros; cbn; unfold account_read, storage_read, hash_read; by rewrite ?new_handle_num, ?new_handle_info.
Qed.

Lemma stored_refill d d' info : refilled d d' -> block_stored blocks d info -> block_stored blocks d' info.
Proof.
  intros (Hdb & _ & Hi & _) (Hb & (raw & Hr) & Hn). rewrite <- Hdb in Hn.
  split; [done|]. split; [|done]. exists raw. by rewrite Hdb, Hi.
Qed.

Lemma node_rewarmed w w' known open hd :
  rewarmed w w' -> node_inv (mkNode w known open) hd -> node_inv (mkNode w' known open) hd.
Proof.
  intros Hr [Hc Hn (st & rest & Hk & Hst) Hkn Hop]. cbn in *. pose proof Hr as [Hrf Hcc]. split; cbn.
  - auto.
  - by apply Hrf.
  - exists st, rest. split; [done|]. by rewrite (block_state_rewarmed w w').
  - intros info s Hin. destruct (Hkn info s Hin) as [Hs Hle Hkp]. split; [by eapply stored_refill|done|].
    eapply persists_equiv; [done| |exact Hkp]. symmetry. by apply block_state_rewarmed.
  - intros h s Hin. destruct (Hop h s Hin) as (info & [[Ho Hoi Hon] Hb Hse Hkp]). exists info. split; [|done..|by eapply persists_rewarmed].
    split; [by eapply refill_handle|done..].
Qed.

Lemma node_open w known open hd h info st :
  node_inv (mkNode w known open) hd -> open_ok (wd_db w) hd h st info -> node_inv (mkNode w known ((h, st) :: open)) hd.
Proof.
  intros [Hc Hn Hh Hkn Hop] Ho. split; cbn in *; try done. intros h' st' [[= -> ->]|Hin]%elem_of_cons; [by exists info|auto].
Qed.

Lemma new_open d hd info st :
  node_ok blocks codes d hd -> known_ok d hd info st -> open_ok d hd (new_handle d (bi_number info) (Some info)) st info.
Proof.
  intros Hn [Hs Hle Hk]. split; [|done| |done].
  - eapply (new_handle_on blocks codes); [done..| |done]. apply Hs.
  - unfold seen, new_handle, new_state_iterators. cbn. destruct (dr_state_cache d) as [c|] eqn:Hc; [|done].
    pose proof (no_cache_head _ _ _ _ Hn c Hc). unfold cache_view. case_decide; cbn; lia.
Qed.

Lemma open_rewarmed w id h d' :
  Archive.db_at (wd_db w) id = (Ok (Some h), d') -> reinfo blocks (wd_db w) d' ->
  exists w', wr_state_at w id = (Ok (Some h), w') /\ rewarmed w w'.
Proof.
  intros Hd Hr. pose proof (on_db_rewarmed (fun d => Archive.db_at d id) w) as Hw.
  assert (wr_state_at w id = (Ok (Some h), mkWorld d' (wd_code w))) as Hs.
  { unfold wr_state_at, on_db. change (db_at (wd_db w) id) with (Archive.db_at (wd_db w) id). by rewrite Hd. }
  exists (mkWorld d' (wd_code w)). split; [done|]. unfold on_db in Hw. rewrite Hd in Hw. by apply Hw, reinfo_refill.
Qed.

Lemma state_at_names w hd info st known open id :
  node_inv (mkNode w known open) hd -> (info, st) ∈ known -> names id info ->
  exists w', wr_state_at w id = (Ok (Some (new_handle (wd_db w) (bi_number info) (Some info))), w') /\ rewarmed w w'.
Proof.
  intros Hi Hin Hid. pose proof (ni_node _ _ Hi) as Hn. destruct (ni_known _ _ Hi info st Hin) as [Hs _ _]. cbn in Hn, Hs.
  destruct (db_at_block blocks codes Hblocks (wd_db w) hd info Hn Hs) as [Hh Hnu].
  assert (exists d', Archive.db_at (wd_db w) id = (Ok (Some (new_handle (wd_db w) (bi_number info) (Some info))), d') /\
    reinfo blocks (wd_db w) d') as (d' & Hd & Hr) by (by destruct Hid as [-> | ->]).
  by apply (open_rewarmed w id _ d').
Qed.

Lemma state_at_latest w hd known open :
  node_inv (mkNode w known open) hd ->
  exists w', wr_state_at w (ByNumber Latest) = (Ok (Some (new_handle (wd_db w) (bi_number hd) (Some hd))), w') /\ rewarmed w w'.
Proof.
  intros Hi. destruct (db_at_latest blocks codes Hblocks (wd_db w) hd (ni_node _ _ Hi)) as (d' & Hd & Hr).
  by apply (open_rewarmed w _ _ d').
Qed.

(** Committing a block on the latest handle. *)
Lemma node_commit w hd st rest open h bi df :
  node_inv (mkNode w ((hd, st) :: rest) open) hd -> handle_on (wd_db w) h hd ->
  archive_valid blocks codes bi df -> extends hd bi df ->
  exists w', wr_update_block w h bi df = (Ok tt, w') /\
    node_inv (mkNode w' ((bi, apply_block bi df st) :: (hd, st) :: rest) open) bi /\ effect blocks (wd_db w) h bi df (wd_db w').
Proof.
  intros [Hc Hn (st' & rest' & [= <- <-] & Hst) Hkn Hop] Ho Hv Hx. cbn in *.
  destruct (store_block_ok blocks codes Hblocks (wd_db w) h hd bi df Hn Ho Hv Hx) as (d' & Hs & Hn' & He & Hbi).
  exists (mkWorld d' (wd_code w)). split; [unfold wr_update_block, on_db; by rewrite Hs|].
  assert (Happ : block_state blocks codes d' bi ≡ apply_block bi df st).
  { rewrite (block_state_apply blocks codes Hblocks (wd_db w) h hd bi df d') by done.
    by rewrite (handle_state blocks codes _ _ _ Ho), Hst. }
  pose proof (extends_le _ _ _ Hx) as Hle. split; [|done]. split; cbn.
  - intros x bc Hg. destruct (Hc x bc Hg) as (c & Hcode & ->). exists c. split; [|done]. by apply (ef_code_mono _ _ _ _ _ _ He).
  - done.
  - by exists (apply_block bi df st), ((hd, st) :: rest).
  - intros info s [[= -> ->]|Hin]%elem_of_cons.
    + split; [done|lia|]. by apply (persists_equiv _ _ _ _ Happ (reflexivity _)).
    + destruct (Hkn info s Hin) as [Hs' Hb Hk]. split; [by apply (commit_stored (wd_db w) d' h hd bi df)|lia|].
      etransitivity; [exact Hk|]. eapply (block_state_persists blocks codes Hblocks); try done; [by eapply extends_before|].
      apply (block_u64 blocks Hblocks), Hs'.
  - intros h' s Hin. destruct (Hop h' s Hin) as (info & [Hon Hb Hse Hk]). exists info.
    assert (Hon' : handle_on d' h' info) by (by eapply commit_handle). split; [done|lia..|].
    etransitivity; [exact Hk|]. eapply persists_equiv; [symmetry; by apply handle_state|symmetry; by apply handle_state|].
    eapply (block_state_persists blocks codes Hblocks); try done; [by eapply extends_before|]. rewrite <- (hn_number _ _ _ Hon). apply Hon.
Qed.

(** Opening the latest handle and committing on it. *)
Lemma latest_commit w hd st rest open bi df :
  node_inv (mkNode w ((hd, st) :: rest) open) hd -> archive_valid blocks codes bi df -> extends hd bi df ->
  exists h w1 w2, wr_state_at w (ByNumber Latest) = (Ok (Some h), w1) /\ wr_update_block w1 h bi df = (Ok tt, w2) /\
    node_inv (mkNode w2 ((bi, apply_block bi df st) :: (hd, st) :: rest) open) bi /\
    forall k, k <> [1] -> kv_contents (dr_db (wd_db w2)) LatestBlockHash k = kv_contents (dr_db (wd_db w)) LatestBlockHash k.
Proof.
  intros Hi Hv Hx. destruct (state_at_latest w hd _ _ Hi) as (w1 & Hw & Hrw).
  assert (Ho : handle_on (wd_db w1) (new_handle (wd_db w) (bi_number hd) (Some hd)) hd).
  { destruct (new_open (wd_db w) hd hd st (ni_node _ _ Hi)) as [[Hh ? ?] _ _ _]; [apply (ni_known _ _ Hi); by left|].
    split; [|done..]. eapply refill_handle; [apply Hrw|done]. }
  destruct (node_commit w1 hd st rest open _ bi df (node_rewarmed _ _ _ _ _ Hrw Hi) Ho Hv Hx) as (w2 & Hu & Hi2 & He).
  eexists _, w1, w2. split; [done|]. split; [done|]. split; [done|]. intros k Hk. rewrite (ef_meta _ _ _ _ _ _ He) by done.
  destruct Hrw as [(Hdb & _) _]. by rewrite Hdb.
Qed.

Definition meta_of (x : Node) (k : bytes) : option bytes := kv_contents (dr_db (wd_db (nd_world x))) LatestBlockHash k.

(** A step keeps the node right, and what the archive records of itself. *)
Lemma step_inv x x' hd : node_inv x hd -> node_step x x' ->
  exists hd', node_inv x' hd' /\ forall k, k <> [1] -> meta_of x' k = meta_of x k.
Proof.
  assert (Hread : forall w w' known open known' open', rewarmed w w' -> forall k, meta_of (mkNode w' known' open') k = meta_of (mkNode w known open) k).
  { intros w w' known open known' open' [(Hdb & _) _] k. unfold meta_of. cbn [nd_world]. by rewrite Hdb. }
  intros Hi Hs. destruct Hs as [w hd0 st rest open h w' Ha|w known open id info st h w' Hin Hid Ha|w known open h st op r w' Hin Hop Hr
    |w hd0 st rest open bi df h w1 r w2 Hv Hx Ha Hu].
  - assert (hd0 = hd) as -> by (destruct (ni_head _ _ Hi) as (? & ? & [= ->] & _); done).
    destruct (state_at_latest w hd _ _ Hi) as (w1 & Hw & Hrw). rewrite Ha in Hw. injection Hw as -> <-.
    exists hd. split; [|by intros; apply Hread]. eapply node_rewarmed; [done|]. eapply node_open; [done|]. apply new_open; [apply Hi|].
    apply (ni_known _ _ Hi). by left.
  - destruct (state_at_names w hd info st known open id Hi Hin Hid) as (w1 & Hw & Hrw). rewrite Ha in Hw. injection Hw as -> <-.
    exists hd. split; [|by intros; apply Hread]. eapply node_rewarmed; [done|]. eapply node_open; [done|]. apply new_open; [apply Hi|].
    by apply (ni_known _ _ Hi).
  - exists hd. destruct (ni_open _ _ Hi h st Hin) as (info & Ho).
    destruct (wr_read_ok w h op (node_healthy _ _ Hi)) as (w1 & Hw & Hrw); [exists info; apply Ho|done|].
    rewrite Hr in Hw. injection Hw as _ <-. split; [by eapply node_rewarmed|by intros; apply Hread].
  - assert (hd0 = hd) as -> by (destruct (ni_head _ _ Hi) as (? & ? & [= ->] & _); done).
    destruct (latest_commit w hd st rest open bi df Hi Hv Hx) as (h' & w1' & w2' & Ha' & Hu' & Hi' & Hm).
    rewrite Ha in Ha'. injection Ha' as <- <-. rewrite Hu in Hu'. injection Hu' as _ <-. by exists bi.
Qed.

(** An open handle answers from the state it is on. *)
Lemma open_read x hd h st op :
  node_inv x hd -> (h, st) ∈ nd_open x -> op_ok op -> within st op ->
  exists w', wr_read (nd_world x) h op = (Ok (answer_of st op), w').
Proof.
  intros Hi Hin Hop Hwi. destruct (ni_open _ _ Hi h st Hin) as (info & [Hon _ _ Hk]).
  destruct (wr_read_ok (nd_world x) h op (node_healthy _ _ Hi)) as (w' & Hr & _); [by exists info|done|].
  exists w'. rewrite Hr. do 2 f_equal. by apply persists_answer.
Qed.
End run.
