(* ===== verification/ArchiveDisk.v ===== *)
(** * Opening an archive
    (crates/leafage-evm-storage/src/db_impl/rocksdb_impl/archive/{mod,block_index}.rs)

    [Disk] is what a stopped node leaves: the database with its column
    families, the block index file and the schema file. [open_inner] opens it,
    moving the block infos from by-hash to by-number storage when asked to.
    Errors of the file system are not modelled. *)

From stdpp Require Import prelude gmap list sorting strings.
From Stdlib Require Ascii String.
From S2P Require Import Prelude Types QuickCache KvStore MemKv ArchiveEncoding StateCache BlockIndex Archive.

#[local] Open Scope Z_scope.
#[local] Open Scope state_scope.

Record Disk (K : Type) := mkDisk {
  dk_db : K;
  (** The column families of the database. *)
  dk_columns : list StorageTypeColumn;
  (** The file [block_index::FILE], if it exists. *)
  dk_index : option bytes;
  (** The file [SCHEMA_FILE], trimmed, if it exists. *)
  dk_schema : option string;
}.
Arguments mkDisk {K}.
Arguments dk_db {K}.
Arguments dk_columns {K}.
Arguments dk_index {K}.
Arguments dk_schema {K}.

(** The environment variables an open reads, parsed: [ARCHIVE_BLOCK_INDEX],
    [ARCHIVE_CODE_CACHE_MB], [ARCHIVE_BLOCK_INFO_CACHE] and
    [ARCHIVE_STATE_CACHE_MB]; and the sizes of the spans in memory. *)
Class ArchiveEnv := {
  block_index_enabled : bool;
  env_code_cache_mb : option u64;
  env_block_info_cache : option u64;
  env_state_cache_mb : option u64;
  account_span_size : Z;
  storage_span_size : Z;
}.

Definition ARCHIVE_COLUMNS : list StorageTypeColumn :=
  [LatestBlockHash; BlockHashToBlockInfo; BlockNumToBlockHash; AddressToAccount; AddressToStorage; HashToCode].

Definition ENCODING_MARKER_KEY : bytes :=
  map (fun c => Z.of_nat (Ascii.nat_of_ascii c)) (String.list_ascii_of_string "leafage:block_encoding_inverted").

Definition SCHEMA_V3 : string := "3".

Definition DEFAULT_BLOCK_INFO_CACHE_ENTRIES : u64 := 16384.
Definition DEFAULT_CODE_CACHE_MB : u64 := 256.
Definition DEFAULT_STATE_CACHE_MB : u64 := 512.

(** A chunk of this size is written to a file. *)
Definition CHUNK_BYTES : Z := 2 ^ 30.

Section disk.
Context {K E : Type} `{RocksDB K E} {C : Type -> Type -> Type} `{QuickCache C}.
Context `{SlimCodec} `{BlockCodec E} `{ArchiveConfig} `{!RocksDBAdmin K E} `{ArchiveEnv}.
Implicit Types (d : DataBaseRef K C) (dk : Disk K).

Definition set_dk_db dk (db : K) : Disk K := mkDisk db (dk_columns dk) (dk_index dk) (dk_schema dk).
Definition set_dk_columns dk cols : Disk K := mkDisk (dk_db dk) cols (dk_index dk) (dk_schema dk).
Definition set_dk_index dk file : Disk K := mkDisk (dk_db dk) (dk_columns dk) file (dk_schema dk).

Definition has_column dk (col : StorageTypeColumn) : bool := bool_decide (col ∈ dk_columns dk).

Definition is_udt_archive dk : Res (Error E) bool :=
  match dk_schema dk with
  | Some s => if decide (s = SCHEMA_V3) then Ok true else Err (UnSupported "unknown archive schema")
  | None => Ok false
  end.

(** ** Moving block infos from CF 2 to CF 7 *)

(** [Vec::dedup_by_key]: of consecutive entries of one number, the first. *)
Fixpoint dedup_numbers (last : option u64) (chunk : list (u64 * bytes)) : list (u64 * bytes) :=
  match chunk with
  | [] => []
  | (number, record) :: rest =>
      if decide (last = Some number) then dedup_numbers last rest
      else (number, record) :: dedup_numbers (Some number) rest
  end.

Definition number_le (a b : u64 * bytes) : Prop := a.1 <= b.1.

#[export] Instance number_le_dec a b : Decision (number_le a b).
Proof. unfold number_le. apply _. Defined.

(** [write_chunk]: the file it writes. [sort_unstable_by_key] may leave the
    entries of one number in any order; here they keep theirs. *)
Fixpoint put_rows (file : list WriteOp) (rows : list WriteOp) : Res (Error E) (list WriteOp) :=
  match rows with
  | [] => Ok file
  | row :: rest => file ← rocks (sst_put file row); put_rows file rest
  end.

Definition write_chunk (chunk : list (u64 * bytes)) : Res (Error E) (list WriteOp) :=
  put_rows [] (map (fun e => OpPut BlockNumToBlockInfo (index_key e.1) e.2)
    (dedup_numbers None (merge_sort number_le chunk))).

(** The loop of [copy_block_infos] over CF 2, with its chunk and files. *)
Fixpoint copy_rows (index : BlockIndex) (rows : list (bytes * bytes)) (chunk : list (u64 * bytes)) (chunk_bytes : Z)
    (files : list (list WriteOp)) : Res (Error E) (list (list WriteOp)) :=
  match rows with
  | [] =>
      match chunk with
      | [] => Ok files
      | _ => file ← write_chunk chunk; Ok (files ++ [file])
      end
  | (hash, info) :: rest =>
      hash ← h256_from_slice hash;
      number ← header_number false info;
      canonical ← unwrap (index_contains index hash number);
      if canonical : bool then
        let record := index_record hash info in
        let chunk_bytes := chunk_bytes + Z.of_nat (length record) in
        let chunk := chunk ++ [(number, record)] in
        if decide (CHUNK_BYTES <= chunk_bytes) then
          file ← write_chunk chunk;
          copy_rows index rest [] 0 (files ++ [file])
        else copy_rows index rest chunk chunk_bytes files
      else copy_rows index rest chunk chunk_bytes files
  end.

(** [copy_block_infos] from [src] into the empty CF 7 of [dst]: the records
    copied. The compaction after the ingestion changes no content. *)
Definition copy_block_infos (src dst : K) (index : BlockIndex) : Res (Error E) Z * K :=
  let canonical := index_len index in
  let! (rows, dst) := (rocks (db_iter src BlockHashToBlockInfo), dst) in
  let! (files, dst) := (copy_rows index rows [] 0 [], dst) in
  let records := Z.of_nat (length (concat files)) in
  if decide (records <> canonical) then (Err (UnSupported "moving block infos: some canonical blocks were not copied"), dst)
  else
    match files with
    | [] => (Ok records, dst)
    | _ => let! (_, dst) := (let '(r, dst) := db_ingest dst BlockNumToBlockInfo files in (rocks r, dst)) in (Ok records, dst)
    end.

(** ** [open_inner] *)

Definition on_column dk (op : K -> StorageTypeColumn -> Res E unit * K) (col : StorageTypeColumn) (cols : list StorageTypeColumn)
    : Res (Error E) unit * Disk K :=
  let '(r, db) := op (dk_db dk) col in
  (rocks r, match r with Ok _ => set_dk_columns (set_dk_db dk db) cols | _ => set_dk_db dk db end).

Definition drop_cf dk (col : StorageTypeColumn) : Res (Error E) unit * Disk K :=
  on_column dk db_drop_cf col (filter (fun c => c <> col) (dk_columns dk)).

Definition create_cf dk (col : StorageTypeColumn) : Res (Error E) unit * Disk K :=
  on_column dk db_create_cf col (dk_columns dk ++ [col]).

(** [open_cf_descriptors] with the columns [cols]. *)
Definition open_columns dk (cols : list StorageTypeColumn) (create : bool) : Res (Error E) unit * Disk K :=
  let! (_, dk) := (let '(r, db) := db_open (dk_db dk) (dk_columns dk) cols create in (rocks r, set_dk_db dk db)) in
  (Ok tt, set_dk_columns dk cols).

(** [BlockIndex::open], which may save the index it rebuilds. *)
Definition load_index dk : Res (Error E) (option BlockIndex) * Disk K :=
  let! (index, dk) := (open_index crc32 (dk_db dk) (dk_index dk), dk) in
  (Ok (Some index), set_dk_index dk (match ix_file index with Some f => f | None => dk_index dk end)).

(** The index is rebuilt, the infos are copied, and CF 2 is dropped. *)
Definition move_infos dk : Res (Error E) (option BlockIndex) * Disk K :=
  let! (index, dk) := (rebuild crc32 (dk_db dk) (dk_index dk), dk) in
  let dk := set_dk_index dk (match ix_file index with Some f => f | None => dk_index dk end) in
  let! (_, dk) := (let '(r, db) := copy_block_infos (dk_db dk) (dk_db dk) index in (r, set_dk_db dk db)) in
  let! (_, dk) := drop_cf dk BlockHashToBlockInfo in
  (Ok (Some index), dk).

(** The block infos are both by hash and by number: the latter were left by an
    interrupted move, which is done again if it is still asked for. [had] is
    whether CF 7 existed before. *)
Definition settle_infos dk (had by_number : bool) : Res (Error E) (option BlockIndex) * Disk K :=
  let! (_, dk) := (if had then drop_cf dk BlockNumToBlockInfo else (Ok tt, dk)) in
  if by_number then
    let! (_, dk) := (if had then create_cf dk BlockNumToBlockInfo else (Ok tt, dk)) in
    move_infos dk
  else (Ok None, dk).

Definition saturating_mib (mb : u64) : u64 := Z.min (mb * (1024 * 1024)) u64_max.

Definition build_block_info_cache : option (C H256 BlockInfo) :=
  let entries := default DEFAULT_BLOCK_INFO_CACHE_ENTRIES env_block_info_cache in
  if decide (entries = 0) then None else Some (qc_with _ _ (Z.to_nat entries)).

(** The capacity is in bytes, and an entry weighs its key and code. *)
Definition build_code_cache : option (C H256 bytes) :=
  let mb := default DEFAULT_CODE_CACHE_MB env_code_cache_mb in
  if decide (mb = 0) then None else Some (qc_with _ _ (Z.to_nat (saturating_mib mb))).

Definition state_cache_from_env : option (StateCache C) :=
  let mb := default DEFAULT_STATE_CACHE_MB env_state_cache_mb in
  if decide (mb = 0) then None
  else Some (new_state_cache account_span_size storage_span_size (saturating_mib mb)).

(** The cache's head is the latest block. *)
Definition align_head d : Res (Error E) unit * DataBaseRef K C :=
  match dr_state_cache d with
  | Some _ =>
      let! (latest, d) := read_latest_block_num d in
      (Ok tt, set_state_cache d (option_map (fun c => advance_head c (default 0 latest)) (dr_state_cache d)))
  | None => (Ok tt, d)
  end.

Definition open_inner dk (bulk_load maintenance : bool) : Res (Error E) (DataBaseRef K C) * Disk K :=
  let! (udt, dk) := (is_udt_archive dk, dk) in
  let serving := negb bulk_load && negb maintenance in
  let by_number := negb maintenance && block_index_enabled in
  let had := has_column dk BlockNumToBlockInfo in
  let headers_cf := has_column dk BlockHashToBlockInfo || negb (by_number || had) in
  let index_cf := by_number || had in
  let cols := filter (fun col => col <> BlockHashToBlockInfo \/ headers_cf = true) ARCHIVE_COLUMNS ++
    (if index_cf then [BlockNumToBlockInfo] else []) in
  let! (_, dk) := open_columns dk cols (negb maintenance) in
  let! (block_index, dk) :=
    (if headers_cf && index_cf then settle_infos dk had by_number
     else if index_cf then load_index dk else (Ok None, dk)) in
  let d := mkDataBaseRef (dk_db dk) build_code_cache build_block_info_cache
    block_index (if serving then state_cache_from_env else None) udt in
  match align_head d with
  | (Ok _, d) => (Ok d, dk)
  | (Err e, _) => (Err e, dk)
  | (Panic, _) => (Panic, dk)
  end.

(** What a node leaves on disk when it stops. *)
Definition close_archive dk d : Disk K :=
  mkDisk (dr_db d) (dk_columns dk)
    (match dr_block_index d with Some ix => match ix_file ix with Some f => f | None => dk_index dk end | None => dk_index dk end)
    (dk_schema dk).

(** ** The encoding marker *)

Definition read_encoding_marker d : Res (Error E) (option bool) :=
  found ← rocks (db_get (dr_db d) LatestBlockHash ENCODING_MARKER_KEY);
  Ok (match found with Some (b :: _) => Some (bool_decide (b = 1)) | _ => None end).

Definition write_encoding_marker d (inverted : bool) : Res (Error E) unit * DataBaseRef K C :=
  let '(r, db) := db_write (dr_db d) [OpPut LatestBlockHash ENCODING_MARKER_KEY [if inverted then 1 else 0]] in
  (rocks r, set_db d db).

(** The process-wide flag after [align_encoding_from_marker]. *)
Definition align_encoding_from_marker d (configured : bool) : bool :=
  match read_encoding_marker d with Ok (Some inverted) => inverted | _ => configured end.
End disk.
