(* ===== verification/ArchiveExample.v ===== *)
(** * An archive in memory

    A concrete archive on which the theorems are applied: the key-value store
    of [MemKv], fixed-width codecs and the caches of [QuickCache.FifoCache]. It
    shows that what is asked of the libraries below can be met. *)

From stdpp Require Import prelude gmap list sorting strings.
From S2P Require Import Prelude Types QuickCache Backend KvStore MemKv ArchiveEncoding StateCache BlockIndex BlockIndexFacts.
From S2P Require Import BlockIndexStore BlockIndexRun BlockIndexTheorems Archive ArchiveReads ArchiveSlots ArchiveWrite.
From S2P Require Import ArchiveCommit Wrapper WrapperFacts ArchiveBackend ArchiveUpdate ArchiveStore.
From S2P Require Import ArchiveDisk.

#[local] Open Scope Z_scope.

(** ** Codecs *)

#[export] Instance fixed_slim : SlimCodec := {|
  slim_encode a := be_bytes 32 (sa_balance a) ++ be_bytes 8 (sa_nonce a) ++ be_bytes 32 (sa_code_hash a);
  slim_decode raw :=
    if decide (length raw = 72%nat)
    then Some (mkSlimAccount (from_be (take 32 raw)) (from_be (take 8 (drop 32 raw))) (from_be (drop 40 raw)))
    else None;
|}.

Lemma take_be n z rest : take n (be_bytes n z ++ rest) = be_bytes n z.
Proof. apply take_app_length'. by rewrite length_be_bytes. Qed.

Lemma drop_be n k z rest : Nat.leb n k = true -> drop k (be_bytes n z ++ rest) = drop (k - n) rest.
Proof. intros Hle%Nat.leb_le. rewrite drop_app_ge by (by rewrite length_be_bytes). by rewrite length_be_bytes. Qed.

Lemma from_be_u256 z : is_u256 z -> from_be (be_bytes 32 z) = z.
Proof. apply from_be_h256. Qed.

Lemma from_be_u64 z : is_u64 z -> from_be (be_bytes 8 z) = z.
Proof. intros Hz. apply from_be_be_bytes_small. by apply is_u64_pow. Qed.

#[export] Instance fixed_slim_ok : SlimCodecOk.
Proof.
  split.
  - intros [b n c] Hb Hn Hc. cbn [slim_decode slim_encode fixed_slim sa_balance sa_nonce sa_code_hash] in *.
    rewrite !length_app, !length_be_bytes, decide_True by done. rewrite !take_be, !drop_be by done.
    cbn [Nat.sub]. rewrite drop_0, take_be. rewrite drop_be by done. rewrite drop_be by done. cbn [Nat.sub]. rewrite drop_0. by rewrite !from_be_u256, from_be_u64.
  - intros a Heq. apply (f_equal length) in Heq. cbn [slim_encode fixed_slim] in Heq.
    rewrite !length_app, !length_be_bytes in Heq. done.
Qed.

#[export] Instance fixed_blocks : BlockCodec unit := {|
  encode_header info := be_bytes 8 (bi_number info) ++ be_bytes 32 (bi_parent_hash info) ++ be_bytes 8 (bi_timestamp info);
  encode_other info := Ok (bi_extra info);
  decode_header hash raw :=
    Ok (mkBlockInfo (from_be (take 8 raw)) hash (from_be (take 32 (drop 8 raw))) (from_be (take 8 (drop 40 raw))) [], drop 48 raw);
  header_number _ raw := Ok (from_be (take 8 raw));
  add_other hd other := mkBlockInfo (bi_number hd) (bi_hash hd) (bi_parent_hash hd) (bi_timestamp hd) other;
|}.

#[export] Instance fixed_blocks_spec : BlockCodecSpec := fun info =>
  is_u64 (bi_number info) /\ is_u256 (bi_parent_hash info) /\ is_u64 (bi_timestamp info).

#[export] Instance fixed_blocks_ok : BlockCodecOk unit.
Proof.
  split.
  - intros info _. by eexists.
  - intros [n x p t e] (Hn & Hp & Ht). cbn [bi_number bi_parent_hash bi_timestamp] in *.
    exists (mkBlockInfo n x p t []). split.
    + intros rest. cbn [decode_header encode_header fixed_blocks bi_number bi_hash bi_parent_hash bi_timestamp]. rewrite <- !app_assoc.
      rewrite (drop_be 8 8), (drop_be 8 40), (drop_be 8 48) by done. rewrite (drop_be 32 (40 - 8)), (drop_be 32 (48 - 8)) by done.
      rewrite (drop_be 8 (48 - 8 - 32)) by done. cbn [Nat.sub]. rewrite !drop_0, !take_be. by rewrite !from_be_u64, from_be_u256.
    + cbn [encode_other fixed_blocks bi_extra add_other bi_number bi_hash bi_parent_hash bi_timestamp].
      intros other [= <-]. by destruct e.
  - intros x raw hd rest Heq. cbn [decode_header fixed_blocks] in Heq. injection Heq as <- _. done.
  - done.
Qed.

#[export] Instance ex_config : ArchiveConfig := {|
  inverted_block_encoding := true;
  crc32 _ := 0;
  archive_index_config := test_config;
|}.

(** ** A node at block 5 *)

Definition ex_block (n : u64) : BlockInfo := mkBlockInfo n (100 + n) (99 + n) (1000 + n) [].

Definition ex_chain : gmap H256 BlockInfo := list_to_map (map (fun n => (100 + n, ex_block n)) [5; 6; 7]).

Definition ex_code : bytes := [96; 1].

Definition ex_codes (x : H256) : option bytes := if decide (x = 7) then Some ex_code else None.

Lemma ex_chain_in x bi : ex_chain !! x = Some bi -> exists n, (n = 5 \/ n = 6 \/ n = 7) /\ x = 100 + n /\ bi = ex_block n.
Proof.
  unfold ex_chain. intros Hx. apply elem_of_list_to_map_2 in Hx. cbn [map] in Hx.
  apply elem_of_cons in Hx as [Hx|Hx]; [injection Hx as -> ->; by exists 5; auto|].
  apply elem_of_cons in Hx as [Hx|Hx]; [injection Hx as -> ->; by exists 6; auto|].
  apply elem_of_cons in Hx as [Hx|Hx]; [injection Hx as -> ->; by exists 7; auto|]. by apply elem_of_nil in Hx.
Qed.

Lemma ex_blocks_ok : blocks_ok ex_chain.
Proof.
  assert (Hrange : forall n, n = 5 \/ n = 6 \/ n = 7 -> is_u32 n /\ is_u64 (1000 + n) /\ is_u256 (100 + n) /\ is_u256 (99 + n)).
  { intros n [-> |[-> | ->]]; split_and!; in_range. }
  split.
  - intros x bi (n & Hn & -> & ->)%ex_chain_in. split; [done|]. split; [by apply Hrange|lia].
  - intros x bi (n & Hn & -> & ->)%ex_chain_in. by apply Hrange.
  - intros x bi (n & Hn & -> & ->)%ex_chain_in. apply Hrange in Hn as (H32 & Ht & _ & Hp).
    split; [by apply u32_u64|done].
  - done.
  - intros x. cbn. autounfold with ints. lia.
Qed.

Definition ex_raw : bytes := encode_header (E := unit) (ex_block 5).

Definition ex_plain : gmap (StorageTypeColumn * bytes) bytes :=
  <[(LatestBlockHash, [1]) := h256_bytes 105]>
  (<[(BlockNumToBlockHash, encode_block_num 5) := h256_bytes 105]>
  (<[(BlockHashToBlockInfo, h256_bytes 105) := ex_raw]>
  (<[(LatestBlockHash, ENCODING_MARKER_KEY) := [1]]> ∅))).

(** The archive of a node that holds block 5 alone, in either layout, with
    every cache on. *)
Definition ex_archive (udt : bool) : DataBaseRef MemKv FifoCache :=
  mkDataBaseRef (mkMemKv ex_plain ∅) (Some (qc_with _ _ 4)) (Some (qc_with _ _ 4)) None
    (Some (mkStateCache (new_table 32 16 4096) (new_table 64 16 4096) 5)) udt.

Lemma ex_versions udt col p n : versioned col -> version_at udt (dr_db (ex_archive udt)) col p n = None.
Proof.
  intros Hc. unfold version_at. destruct udt; [apply lookup_empty|]. cbn [kv_contents mem_rocksdb_spec dr_db ex_archive mk_plain].
  unfold ex_plain. rewrite !lookup_insert_ne by (intros [= <- _]; by destruct Hc). apply lookup_empty.
Qed.

Lemma ex_archive_ok udt : archive_ok (ex_archive udt).
Proof.
  split.
  - change (db_ok udt (dr_db (ex_archive udt))). split; [done|..].
    + intros col k -> Hc Hk. exfalso. revert Hk. cbn [kv_contents mem_rocksdb_spec dr_db ex_archive mk_plain].
      unfold ex_plain. rewrite !lookup_insert_ne by (intros [= <- _]; by destruct Hc). rewrite lookup_empty. by intros [].
    + intros col k n -> Hc Hk. cbn in Hk. rewrite lookup_empty in Hk. by destruct Hk.
    + intros p n raw Hn Hv. rewrite ex_versions in Hv by (by left). done.
  - intros c Hc. apply (inj Some) in Hc as <-. split; [cbn [sc_head]; in_range|]. split; apply table_ok_new.
Qed.

Lemma ex_contents c k v : ex_plain !! (c, k) = Some v ->
  c = LatestBlockHash \/ (c = BlockNumToBlockHash /\ k = encode_block_num 5 /\ v = h256_bytes 105) \/
  (c = BlockHashToBlockInfo /\ k = h256_bytes 105 /\ v = ex_raw).
Proof.
  unfold ex_plain. intros Hk. apply lookup_insert_Some in Hk as [[Heq <-]|[_ Hk]]; [injection Heq as <- _; by left|].
  apply lookup_insert_Some in Hk as [[Heq <-]|[_ Hk]]; [apply pair_equal_spec in Heq as [<- <-]; by right; left|].
  apply lookup_insert_Some in Hk as [[Heq <-]|[_ Hk]]; [apply pair_equal_spec in Heq as [<- <-]; by right; right|].
  apply lookup_insert_Some in Hk as [[Heq <-]|[_ Hk]]; [injection Heq as <- _; by left|]. by rewrite lookup_empty in Hk.
Qed.

Lemma ex_decode : decode_block_info (E := unit) 105 ex_raw = Ok (ex_block 5).
Proof. by vm_compute. Qed.

Lemma ex_node_ok udt : node_ok (E := unit) ex_chain ex_codes (ex_archive udt) (ex_block 5).
Proof.
  split; cbn [dr_db ex_archive kv_contents mem_rocksdb_spec mk_plain dr_code_cache dr_state_cache].
  - apply ex_archive_ok.
  - split; cbn [dr_db ex_archive kv_contents mem_rocksdb_spec mk_plain dr_block_index dr_block_info_cache].
    + intros k raw _ [?|[[? _]|(_ & -> & ->)]]%ex_contents; [done..|]. exists (ex_block 5). split; [by vm_compute|].
      split; [done|apply ex_decode].
    + by intros k r [].
    + done.
    + intros c x info [= <-] Hg. done.
  - by vm_compute.
  - unfold ex_plain. by rewrite lookup_insert_eq.
  - exists ex_raw. split; [apply ex_decode|]. cbn [dr_block_index ex_archive dr_db kv_contents mem_rocksdb_spec mk_plain].
    unfold ex_plain. rewrite !lookup_insert_ne by done. by rewrite lookup_insert_eq.
  - unfold ex_plain. rewrite lookup_insert_ne by done. by rewrite lookup_insert_eq.
  - intros k raw [?|[(_ & -> & ->)|(? & _)]]%ex_contents; [done| |done].
    split; [apply length_h256|]. exists 5. split; [in_range|done].
  - intros col p n Hc _ _. by apply ex_versions.
  - intros c [= <-]. done.
  - by intros k raw [?|[[? _]|(? & _)]]%ex_contents.
  - intros c x code [= <-] Hg. done.
Qed.

(** ** Two more blocks *)

Definition ex_diff : BlockStorageDiff :=
  mkBlockStorageDiff 106 105 [mkNewAccount 1 10 1 7] [3] [mkAccountStorageDiff 1 [mkIndexValuePair 2 9]] [mkNewCode 7 ex_code].

Lemma ex_diff_valid : archive_valid ex_chain ex_codes (ex_block 6) ex_diff.
Proof.
  split.
  - by vm_compute.
  - repeat constructor; in_range.
  - constructor; [|constructor]. cbn [na_address na_balance na_nonce na_code_hash]. split_and!; in_range || done.
  - intros a i v [Heq|Hin]%elem_of_cons; [|by apply elem_of_nil in Hin]. injection Heq as -> -> ->. split_and!; in_range.
  - intros x c [Heq|Hin]%elem_of_cons; [|by apply elem_of_nil in Hin]. injection Heq as -> ->. split; [in_range|done].
Qed.

Definition ex_diff' : BlockStorageDiff :=
  mkBlockStorageDiff 107 106 [] [] [mkAccountStorageDiff 1 [mkIndexValuePair 2 11]] [].

Lemma ex_diff_valid' : archive_valid ex_chain ex_codes (ex_block 7) ex_diff'.
Proof.
  split.
  - by vm_compute.
  - constructor.
  - constructor.
  - intros a i v [Heq|Hin]%elem_of_cons; [|by apply elem_of_nil in Hin]. injection Heq as -> -> ->. split_and!; in_range.
  - intros x c Hin. by apply elem_of_nil in Hin.
Qed.

Lemma ex_storage udt h a i : is_u64 (sd_block_num h) -> storage_read (ex_archive udt) h a i = 0.
Proof.
  intros Hn. unfold storage_read, storage_at. change (dr_udt (ex_archive udt)) with udt.
  rewrite (newest_unique _ _ None Hn); [done|]. intros b _ _. apply ex_versions. by right.
Qed.
