(* ===== verification/ArchiveTheorems.v ===== *)
(** * The archive: theorems

    The properties of db_impl/rocksdb/archive under the wrapper of db.rs, on
    any key-value store that behaves as RocksDB documents, with examples on
    the archive of [ArchiveExample]. *)

From stdpp Require Import prelude gmap list sorting strings.
From S2P Require Import Prelude Types QuickCache Backend KvStore MemKv ArchiveEncoding StateCache BlockIndex BlockIndexFacts.
From S2P Require Import BlockIndexStore BlockIndexRun BlockIndexTheorems Archive ArchiveReads ArchiveSlots ArchiveWrite.
From S2P Require Import ArchiveCommit Layers LayersFacts TreeReads Wrapper WrapperFacts ArchiveBackend.
From S2P Require Import ArchiveUpdate ArchiveStore ArchiveRun ArchiveExample.

#[local] Open Scope Z_scope.
#[local] Open Scope state_scope.

(** ** Runs *)

Section runs.
Context {K E : Type} `{RocksDBOk K E} {C : Type -> Type -> Type} `{QuickCacheOk C}.
Context `{SlimCodecOk} `{BlockCodecOk E} `{ArchiveConfig} `{RevmBytecode}.
Context (blocks : gmap H256 BlockInfo) (codes : H256 -> option bytes).
Implicit Types (d : DataBaseRef K C) (h : StateDB K) (w : World C (DataBaseRef K C)).

(** A node that has just opened an archive whose last block is [hd]. *)
Definition start_node d (hd : BlockInfo) (cache : option (C H256 Bytecode)) : Node :=
  mkNode (mkWorld d cache) [(hd, block_state blocks codes d hd)] [].

Definition reachable_node d (hd : BlockInfo) (x : Node) : Prop :=
  exists cap, rtc (node_step (E := E) blocks codes)
    (start_node d hd (option_map (qc_with H256 Bytecode) cap)) x.

Lemma start_inv d hd cap :
  blocks_ok blocks -> node_ok blocks codes d hd ->
  node_inv (E := E) blocks codes (start_node d hd (option_map (qc_with H256 Bytecode) cap)) hd.
Proof.
  intros Hb Hn. split; cbn.
  - intros x bc Hg. unfold code_cache_get in Hg. cbn in Hg. destruct cap; cbn in Hg; [|done]. by rewrite qc_get_with in Hg.
  - done.
  - by exists (block_state blocks codes d hd), [].
  - intros info st [[= -> ->]|Hin]%elem_of_cons; [|by apply elem_of_nil in Hin]. split; [by eapply node_block|lia|done].
  - intros h st Hin. by apply elem_of_nil in Hin.
Qed.

Lemma reachable_node_inv d hd x :
  blocks_ok blocks -> node_ok blocks codes d hd -> reachable_node d hd x -> exists hd', node_inv (E := E) blocks codes x hd' /\
    forall k, k <> [1] -> meta_of x k = kv_contents (dr_db d) LatestBlockHash k.
Proof.
  intros Hb Hn (cap & Hrun). set (x0 := start_node d hd (option_map (qc_with H256 Bytecode) cap)) in Hrun.
  assert (Hi : exists hd', node_inv (E := E) blocks codes x0 hd') by (exists hd; by apply start_inv).
  assert (exists hd', node_inv (E := E) blocks codes x hd' /\ forall k, k <> [1] -> meta_of x k = meta_of x0 k) as Hx; [|exact Hx].
  clearbody x0. induction Hrun as [x0|x0 y z Hs _ IH]; [destruct Hi as [hd' Hi]; by exists hd'|]. destruct Hi as [hd0 Hi].
  destruct (step_inv blocks codes Hb x0 y hd0 Hi Hs) as (hd1 & Hi1 & Hm1).
  destruct IH as (hd' & Hi' & Hm'); [by exists hd1|]. exists hd'. split; [done|]. intros k Hk. rewrite Hm' by done. by apply Hm1.
Qed.

End runs.

(** ** Correctness *)

Section theorems.
Context {K E : Type} `{RocksDBOk K E} {C : Type -> Type -> Type} `{QuickCacheOk C}.
Context `{SlimCodecOk} `{BlockCodecOk E} `{ArchiveConfig} `{RevmBytecode}.
Context (blocks : gmap H256 BlockInfo) (codes : H256 -> option bytes).
Implicit Types (d : DataBaseRef K C) (h : StateDB K) (w : World C (DataBaseRef K C)).

(** C15: the archive travels in time. However a node opened handles, read and
    committed since it opened a right archive, each block it committed can be
    opened by its hash and by its number, and the handle reads the state the
    diffs up to that block led to, one by one or batched. *)
Theorem node_time_travel d hd x info st id op :
  blocks_ok blocks -> node_ok blocks codes d hd -> reachable_node (E := E) blocks codes d hd x ->
  (info, st) ∈ nd_blocks x -> names id info -> op_ok op -> within st op ->
  exists h w w', wr_state_at (nd_world x) id = (Ok (Some h), w) /\ sd_block_info h = Some info /\
    wr_read w h op = (Ok (answer_of st op), w').
Proof.
  intros Hb Hn Hr Hin Hid Hop Hwi. destruct (reachable_node_inv blocks codes d hd x Hb Hn Hr) as (hd' & Hi & _).
  destruct x as [w known open]. cbn in *.
  destruct (state_at_names blocks codes Hb w hd' info st known open id Hi Hin Hid) as (w1 & Hw & Hrw).
  pose proof (new_open blocks codes Hb (wd_db w) hd' info st (ni_node _ _ _ _ Hi) (ni_known _ _ _ _ Hi info st Hin)) as Ho.
  pose proof (node_rewarmed _ _ _ _ _ _ _ Hrw (node_open _ _ _ _ _ _ _ _ _ Hi Ho)) as Hi1.
  destruct (open_read blocks codes Hb _ _ (new_handle (wd_db w) (bi_number info) (Some info)) st op Hi1) as (w2 & Hrd); [by left|done..|].
  eexists _, w1, w2. split; [exact Hw|]. split; [|exact Hrd]. apply new_handle_info.
Qed.

(** C16: a handle is a snapshot. Whatever blocks were committed and whatever
    was read since it was opened, an open handle that has not timed out reads
    the state of its block. *)
Theorem node_snapshot_reads d hd x h st op :
  blocks_ok blocks -> node_ok blocks codes d hd -> reachable_node (E := E) blocks codes d hd x ->
  (h, st) ∈ nd_open x -> op_ok op -> within st op ->
  exists w', wr_read (nd_world x) h op = (Ok (answer_of st op), w').
Proof.
  intros Hb Hn Hr Hin Hop Hwi. destruct (reachable_node_inv blocks codes d hd x Hb Hn Hr) as (hd' & Hi & _).
  by eapply (open_read blocks codes Hb).
Qed.

(** C17: writing a block applies its diff. On every reachable node, a block
    above the latest one (or the latest again, with nothing to write) is
    written without an error, and the latest state is then the diff applied to
    the state before: the last write of each account, slot and code, and a
    deleted account without the storage it held. *)
Theorem archive_commit_applies d hd x last st rest bi df :
  blocks_ok blocks -> node_ok blocks codes d hd -> reachable_node (E := E) blocks codes d hd x ->
  nd_blocks x = (last, st) :: rest -> archive_valid blocks codes bi df -> extends last bi df ->
  exists h w w', wr_state_at (E := Error E) (nd_world x) (ByNumber Latest) = (Ok (Some h), w) /\
    wr_update_block (E := Error E) w h bi df = (Ok tt, w') /\
    block_state blocks codes (wd_db w') bi ≡ apply_block bi df st /\
    reachable_node (E := E) blocks codes d hd (mkNode w' ((bi, apply_block bi df st) :: nd_blocks x) (nd_open x)).
Proof.
  intros Hb Hn Hr Hx Hv He. destruct (reachable_node_inv blocks codes d hd x Hb Hn Hr) as (hd' & Hi & _).
  destruct x as [w known open]. cbn in Hx. subst known.
  assert (last = hd') as -> by (destruct (ni_head _ _ _ _ Hi) as (? & ? & [= ->] & _); done).
  destruct (latest_commit blocks codes Hb w hd' st rest open bi df Hi Hv He) as (h & w1 & w2 & Hw & Hu & Hi2 & _).
  exists h, w1, w2. split; [exact Hw|]. split; [exact Hu|]. split.
  - destruct (ni_head _ _ _ _ Hi2) as (st2 & rest2 & [= <- <-] & Hst). exact Hst.
  - destruct Hr as (cap & Hrun). exists cap. eapply rtc_r; [exact Hrun|]. by eapply ns_commit.
Qed.
End theorems.

(** ** Reads of a handle *)

Section reads.
Context {K E : Type} `{RocksDBOk K E} {C : Type -> Type -> Type} `{QuickCacheOk C}.
Context `{SlimCodecOk} `{BlockCodec E} `{ArchiveConfig}.
Implicit Types (d : DataBaseRef K C) (h : StateDB K).

(** C18: a read finds the newest version at or below its block, in every
    schema, whether the answer comes from the state cache, from an iterator or
    from a timestamped lookup; and it leaves the archive right. *)
Theorem archive_reads_newest d h a i :
  archive_ok d -> handle_ok d h ->
  (exists d', read_account d h a =
     (Ok (option_map (fun x => with_address x a) (account_at (dr_udt d) (dr_db d) (h256_bytes a) (sd_block_num h)).2), d') /\
     archive_ok d' /\ recached d d') /\
  (exists d', read_storage d h a i =
     (Ok (storage_at (dr_udt d) (dr_db d) (slot_prefix a i) (sd_block_num h)).2, d') /\ archive_ok d' /\ recached d d').
Proof. intros Ha Ho. split; [by apply read_account_ok|by apply read_storage_ok]. Qed.

(** C19: a batched read answers what the scalar reads of its keys answer, in
    order. *)
Theorem archive_batch_is_scalar d h addresses keys :
  archive_ok d -> handle_ok d h ->
  fst (read_account_many d h addresses) = mapM (fun a => fst (read_account d h a)) addresses /\
  fst (read_storage_many d h keys) = mapM (fun k => fst (read_storage d h k.1 k.2)) keys.
Proof.
  intros Ha Ho. split.
  - destruct (read_account_many_ok d h addresses Ha Ho) as (d' & -> & _). symmetry. apply res_mapM_ok.
    intros a _. by destruct (read_account_ok d h a Ha Ho) as (d1 & -> & _).
  - destruct (read_storage_many_ok d h keys Ha Ho) as (d' & -> & _). symmetry. apply res_mapM_ok.
    intros k _. by destruct (read_storage_ok d h k.1 k.2 Ha Ho) as (d1 & -> & _).
Qed.

(** C20: listing an account's storage terminates and lists exactly its
    non-zero slots with the values they have at the handle's block, each once. *)
Theorem storage_slots_exact d h a :
  archive_ok d -> handle_ok d h -> is_u256 a ->
  exists slots d', storage_slots d h a = (Ok slots, d') /\ NoDup slots.*1 /\
    (forall i v, (i, v) ∈ slots <-> is_u256 i /\ v <> 0 /\ fst (read_storage d h a i) = Ok v) /\
    archive_ok d' /\ recached d d'.
Proof.
  intros Ha Ho Haddr. destruct (storage_slots_ok d h a Ha Ho Haddr) as (slots & d' & Hs & [Hnd Hex] & Ha' & Hr).
  exists slots, d'. split_and!; try done. intros i v. rewrite Hex.
  destruct (read_storage_ok d h a i Ha Ho) as (d1 & -> & _). cbn [fst]. split; intros (? & ? & Heq); split_and!; congruence.
Qed.

(** The handle without its view of the state cache. *)
Definition no_view h : StateDB K :=
  mkStateDB (sd_block_num h) (sd_block_info h) (sd_iterators h) None (sd_timed_out h) (sd_udt h).

Lemma uncached_ok d h : archive_ok d -> handle_ok d h ->
  archive_ok (set_state_cache d None) /\ handle_ok (set_state_cache d None) (no_view h).
Proof.
  intros [Hdb _] [Hb Hl Hu Hv Hs Hi]. split; [by split|]. split; cbn; try done.
  intros Hud. destruct (Hi Hud) as (it & Hit & Hok & Hag). exists it. split_and!; try done.
  intros col p n Hc Hn Hle. apply Hag; [done..|]. cbn in Hle. lia.
Qed.

(** C21: the state cache never shows. A read through a handle with a view of
    the cache answers what it would answer on the same archive with no state
    cache at all. *)
Theorem state_cache_transparent d h a i addresses keys :
  archive_ok d -> handle_ok d h ->
  let d0 := set_state_cache d None in let h0 := no_view h in
  fst (read_account d h a) = fst (read_account d0 h0 a) /\
  fst (read_storage d h a i) = fst (read_storage d0 h0 a i) /\
  fst (read_account_many d h addresses) = fst (read_account_many d0 h0 addresses) /\
  fst (read_storage_many d h keys) = fst (read_storage_many d0 h0 keys).
Proof.
  intros Ha Ho d0 h0. destruct (uncached_ok d h Ha Ho) as [Ha0 Ho0]. split_and!.
  - destruct (read_account_ok d h a Ha Ho) as (d1 & -> & _). by destruct (read_account_ok d0 h0 a Ha0 Ho0) as (d2 & -> & _).
  - destruct (read_storage_ok d h a i Ha Ho) as (d1 & -> & _). by destruct (read_storage_ok d0 h0 a i Ha0 Ho0) as (d2 & -> & _).
  - destruct (read_account_many_ok d h addresses Ha Ho) as (d1 & -> & _).
    by destruct (read_account_many_ok d0 h0 addresses Ha0 Ho0) as (d2 & -> & _).
  - destruct (read_storage_many_ok d h keys Ha Ho) as (d1 & -> & _).
    by destruct (read_storage_many_ok d0 h0 keys Ha0 Ho0) as (d2 & -> & _).
Qed.

(** C22: a handle whose iterators timed out answers with that error, and with
    nothing else; the archive is left as it was. *)
Theorem timed_out_reads_fail d h a i addresses keys :
  addresses <> [] -> keys <> [] ->
  let timed_out {A} : Res (Error E) A * DataBaseRef K C := (Err (IteratorTimedOut (sd_block_num h)), d) in
  read_account d (time_out h) a = timed_out /\ read_storage d (time_out h) a i = timed_out /\
  read_account_many d (time_out h) addresses = timed_out /\ read_storage_many d (time_out h) keys = timed_out.
Proof.
  intros Hne Hke timed_out. split_and!; try done.
  - destruct addresses; [done|]. unfold read_account_many. by destruct (sd_udt (time_out h)).
  - destruct keys; [done|]. unfold read_storage_many. by destruct (sd_udt (time_out h)).
Qed.
End reads.

(** ** Keys *)

(** C23: the versions of a key are told apart and sorted by block. In both
    encodings of the block number distinct accounts or slots, or distinct
    blocks, have distinct database keys; the block is read back from the key;
    and the versions of an account or slot sort newest first in the inverted
    encoding, oldest first in the other. *)
Theorem version_keys_sorted inv a i a' i' m n :
  is_u256 a -> is_u256 i -> is_u256 a' -> is_u256 i' -> is_u64 m -> is_u64 n ->
  (encode_account_key inv a m = encode_account_key inv a' n <-> a = a' /\ m = n) /\
  (encode_storage_key inv a i m = encode_storage_key inv a' i' n <-> a = a' /\ i = i' /\ m = n) /\
  decode_version_tail inv (drop 32 (encode_account_key inv a m)) = m /\
  decode_version_tail inv (drop 64 (encode_storage_key inv a i m)) = m /\
  ((encode_account_key inv a m < encode_account_key inv a n)%bytes <-> if inv then n < m else m < n) /\
  ((encode_storage_key inv a i m < encode_storage_key inv a i n)%bytes <-> if inv then n < m else m < n).
Proof.
  intros Ha Hi Ha' Hi' Hm Hn. rewrite !storage_version_key, !account_version_key.
  assert (Hcmp : forall p, (version_key inv p m < version_key inv p n)%bytes <-> if inv then n < m else m < n).
  { intros p. unfold bytes_lt. rewrite version_key_cmp by done. by destruct inv; rewrite Z.compare_lt_iff. }
  split_and!; try done.
  - split; [|by intros [-> ->]]. intros Heq. apply version_key_inj in Heq as [Hp ->]; [|by rewrite !length_h256|done..].
    split; [|done]. by apply h256_inj.
  - split; [|by intros (-> & -> & ->)]. intros Heq. apply version_key_inj in Heq as [Hp ->]; [|by rewrite !length_slot_prefix|done..].
    by apply slot_prefix_inj in Hp as [-> ->].
  - rewrite <- (length_h256 a), version_key_drop. by apply decode_encode_tail.
  - rewrite <- (length_slot_prefix a i), version_key_drop. by apply decode_encode_tail.
Qed.

(** ** Examples *)

Lemma version_keys_sorted_witness :
  (encode_storage_key true 1 2 9 < encode_storage_key true 1 2 8)%bytes /\
  decode_version_tail false (drop 32 (encode_account_key false 1 8)) = 8.
Proof.
  split.
  - apply (version_keys_sorted true 1 2 1 2 9 8); in_range || lia.
  - apply (version_keys_sorted false 1 2 1 2 8 8); in_range.
Defined.

Definition ex_state (udt : bool) : AState := block_state ex_chain ex_codes (ex_archive udt) (ex_block 5).

Abbreviation ex_reachable udt := (reachable_node (E := unit) ex_chain ex_codes (ex_archive udt) (ex_block 5)).

(** A node that opened a handle on block 5 and then committed block 6. *)
Lemma ex_run udt : exists w h,
  ex_reachable udt (mkNode w [(ex_block 6, apply_block (ex_block 6) ex_diff (ex_state udt)); (ex_block 5, ex_state udt)]
    [(h, ex_state udt)]).
Proof.
  pose proof (start_inv (E := unit) ex_chain ex_codes (ex_archive udt) (ex_block 5) (Some 4%nat) ex_blocks_ok (ex_node_ok udt)) as Hi.
  unfold start_node in Hi. fold (ex_state udt) in Hi. set (w0 := mkWorld _ _) in Hi.
  destruct (state_at_latest ex_chain ex_codes ex_blocks_ok w0 (ex_block 5) _ _ Hi) as (w1 & Hw1 & Hr1).
  set (h := new_handle (wd_db w0) (bi_number (ex_block 5)) (Some (ex_block 5))) in Hw1.
  pose proof (ns_open_latest (E := unit) ex_chain ex_codes _ _ _ [] [] _ _ Hw1 : node_step _ _ (mkNode w0 [(ex_block 5, ex_state udt)] []) _) as Hs1.
  destruct (step_inv ex_chain ex_codes ex_blocks_ok _ _ _ Hi Hs1) as (hd1 & Hi1 & _).
  assert (hd1 = ex_block 5) as -> by (by destruct (ni_head _ _ _ _ Hi1) as (? & ? & [= <-] & _)).
  destruct (latest_commit ex_chain ex_codes ex_blocks_ok w1 (ex_block 5) (ex_state udt) [] [(h, ex_state udt)] (ex_block 6) ex_diff Hi1)
    as (h2 & w2 & w3 & Hw2 & Hu & _); [apply ex_diff_valid|by left|].
  exists w3, h. exists (Some 4%nat). eapply rtc_l; [exact Hs1|]. apply rtc_once.
  eapply ns_commit; [apply ex_diff_valid|by left|exact Hw2|exact Hu].
Qed.

Lemma node_time_travel_witness :
  exists x w w' h, ex_reachable false x /\ length (nd_blocks x) = 2%nat /\
    wr_state_at (nd_world x) (ByNumber (Number 6)) = (Ok (Some h), w) /\
    wr_read (E := Error unit) w h (RStorage 1 2) = (Ok (AWords [9]), w').
Proof.
  destruct (ex_run false) as (w0 & h0 & Hr).
  edestruct (node_time_travel (E := unit) ex_chain ex_codes (ex_archive false) (ex_block 5) _ (ex_block 6)
    (apply_block (ex_block 6) ex_diff (ex_state false)) (ByNumber (Number 6)) (RStorage 1 2) ex_blocks_ok (ex_node_ok false) Hr)
    as (h & w & w' & Hat & _ & Hrd); [by left|by right|split; in_range|done|].
  eexists _, w, w', h. split; [exact Hr|]. split; [done|]. split; [exact Hat|exact Hrd].
Defined.

Lemma node_snapshot_reads_witness :
  exists x h w', ex_reachable true x /\ (h, ex_state true) ∈ nd_open x /\ length (nd_blocks x) = 2%nat /\
    wr_read (E := Error unit) (nd_world x) h (RBasic 1) = (Ok (AAccounts [None]), w').
Proof.
  destruct (ex_run true) as (w0 & h0 & Hr).
  edestruct (node_snapshot_reads (E := unit) ex_chain ex_codes (ex_archive true) (ex_block 5) _ h0 (ex_state true) (RBasic 1)
    ex_blocks_ok (ex_node_ok true) Hr) as (w' & Hrd); [by left|in_range|done|].
  eexists _, h0, w'. split; [exact Hr|]. split; [by left|]. split; [done|]. rewrite Hrd. by vm_compute.
Defined.

Lemma archive_commit_applies_witness :
  exists x, ex_reachable true x /\
    nd_blocks x = [(ex_block 6, apply_block (ex_block 6) ex_diff (ex_state true)); (ex_block 5, ex_state true)] /\
    block_state ex_chain ex_codes (wd_db (nd_world x)) (ex_block 6) ≡ apply_block (ex_block 6) ex_diff (ex_state true).
Proof.
  edestruct (archive_commit_applies (E := unit) ex_chain ex_codes (ex_archive true) (ex_block 5)
    (start_node ex_chain ex_codes (ex_archive true) (ex_block 5) None) (ex_block 5) (ex_state true) [] (ex_block 6) ex_diff)
    as (h & w & w' & _ & _ & Hst & Hr).
  - apply ex_blocks_ok.
  - apply ex_node_ok.
  - by exists None.
  - done.
  - apply ex_diff_valid.
  - by left.
  - eexists. split; [exact Hr|]. split; [done|exact Hst].
Defined.

Definition ex_handle (udt : bool) : StateDB MemKv := new_handle (ex_archive udt) 5 (Some (ex_block 5)).

Lemma ex_handle_ok udt : handle_ok (ex_archive udt) (ex_handle udt).
Proof. eapply (new_handle_on (E := unit) ex_chain ex_codes ex_blocks_ok (ex_archive udt) (ex_block 5) (ex_block 5)); [apply ex_node_ok|by vm_compute|done]. Qed.

Lemma archive_reads_newest_witness :
  fst (read_account (E := unit) (ex_archive true) (ex_handle true) 1) = Ok None /\
  fst (read_storage (E := unit) (ex_archive false) (ex_handle false) 1 2) = Ok 0.
Proof.
  destruct (archive_reads_newest (E := unit) (ex_archive true) (ex_handle true) 1 2 (ex_archive_ok true) (ex_handle_ok true))
    as [(d1 & -> & _) _].
  destruct (archive_reads_newest (E := unit) (ex_archive false) (ex_handle false) 1 2 (ex_archive_ok false) (ex_handle_ok false))
    as [_ (d2 & -> & _)].
  by split; vm_compute.
Defined.

Lemma archive_batch_is_scalar_witness :
  fst (read_account_many (E := unit) (ex_archive true) (ex_handle true) [1; 2]) = Ok [None; None] /\
  fst (read_storage_many (E := unit) (ex_archive true) (ex_handle true) [(1, 2)]) = Ok [0].
Proof.
  destruct (archive_batch_is_scalar (E := unit) (ex_archive true) (ex_handle true) [1; 2] [(1, 2)] (ex_archive_ok true) (ex_handle_ok true))
    as [-> ->].
  by split; vm_compute.
Defined.

Lemma storage_slots_exact_witness :
  exists slots d', storage_slots (E := unit) (ex_archive true) (ex_handle true) 1 = (Ok slots, d') /\ NoDup slots.*1.
Proof.
  destruct (storage_slots_exact (E := unit) (ex_archive true) (ex_handle true) 1 (ex_archive_ok true) (ex_handle_ok true))
    as (slots & d' & Hs & Hnd & _); [in_range|]. by exists slots, d'.
Defined.

Lemma state_cache_transparent_witness :
  fst (read_account (E := unit) (ex_archive true) (ex_handle true) 1) =
    fst (read_account (set_state_cache (ex_archive true) None) (no_view (ex_handle true)) 1).
Proof. apply (state_cache_transparent (E := unit) (ex_archive true) (ex_handle true) 1 2 [] [] (ex_archive_ok true) (ex_handle_ok true)). Defined.

Lemma timed_out_reads_fail_witness :
  read_account_many (E := unit) (ex_archive true) (time_out (ex_handle true)) [1] = (Err (IteratorTimedOut 5), ex_archive true).
Proof. apply (timed_out_reads_fail (E := unit) (ex_archive true) (ex_handle true) 1 2 [1] [(1, 2)]); done. Defined.
