(* ===== verification/ArchiveTree.v ===== *)
(** * The whole stack: the state tree over the wrapper over the archive

    The archive under the wrapper is a database that remembers
    ([TreeArchive.ArchivalOk]), so a node on it serves every block it has
    imported: the indexed ones from their layers, the older ones from the
    archive. *)

From stdpp Require Import prelude gmap list sorting strings.
From S2P Require Import Prelude Types QuickCache Backend Layers LayersFacts CommitFacts StateTree TreeSpec TreeFacts.
From S2P Require Import TreeUpdate TreeReads TreeTheorems TreeArchive KvStore MemKv ArchiveEncoding StateCache BlockIndex.
From S2P Require Import BlockIndexFacts BlockIndexStore BlockIndexRun BlockIndexTheorems Archive ArchiveReads ArchiveSlots.
From S2P Require Import ArchiveWrite ArchiveCommit Wrapper WrapperFacts ArchiveBackend ArchiveUpdate.
From S2P Require Import ArchiveStore ArchiveRun ArchiveExample.

#[local] Open Scope Z_scope.

Section stack.
Context {K E : Type} `{RocksDBOk K E} {C : Type -> Type -> Type} `{QuickCacheOk C}.
Context `{SlimCodecOk} `{BlockCodecOk E} `{ArchiveConfig} `{RevmBytecode}.
Context (blocks : gmap H256 BlockInfo) (codes : H256 -> option bytes).
Context (Hblocks : blocks_ok blocks).
Implicit Types (d : DataBaseRef K C) (h : StateDB K) (w : World C (DataBaseRef K C)).

#[local] Instance stack_spec : StoreSpec (DataBaseRef K C) (StateDB K) := archive_spec blocks codes.
#[local] Instance stack_ok : StoreOk (DataBaseRef K C) (StateDB K) ArchiveRocksDBWriteBatch (Error E) :=
  archive_store_ok blocks codes Hblocks.

(** The head of the wrapper is the archive's latest block. *)
Lemma stack_head w hd :
  node_ok blocks codes (wd_db w) hd ->
  as_info (Backend.head w) = hd /\ Backend.head w ≡ block_state blocks codes (wd_db w) hd.
Proof.
  intros Hn. destruct (latest_handle blocks codes Hblocks (wd_db w) hd Hn) as (h & d' & Hd & Ho & _).
  assert (Hw : Backend.head w = store_state (wd_db w) h).
  { change (Backend.head w) with (match fst (Archive.db_at (wd_db w) (ByNumber Latest)) with
      | Ok (Some s) => store_state (wd_db w) s | _ => empty_state end). by rewrite Hd. }
  rewrite Hw. split; [|by apply handle_state]. cbn. by rewrite (hn_info _ _ _ Ho).
Qed.

(** A fresh handle of the wrapper is one on the latest block. *)
Lemma stack_fresh w hd h : node_ok blocks codes (wd_db w) hd -> fresh w h -> handle_on (wd_db w) h hd.
Proof.
  intros Hn Hf. destruct (latest_handle blocks codes Hblocks (wd_db w) hd Hn) as (h' & d' & Hd & Ho & _).
  change (fst (Archive.db_at (wd_db w) (ByNumber Latest)) = Ok (Some h)) in Hf. rewrite Hd in Hf. by injection Hf as ->.
Qed.

#[local] Instance stack_remembers : ArchivalSpec (World C (DataBaseRef K C)) := fun w info st =>
  block_stored blocks (wd_db w) info /\ bi_number info <= bi_number (as_info (Backend.head w)) /\
  persists st (block_state blocks codes (wd_db w) info).

#[local] Instance stack_archival : ArchivalOk (World C (DataBaseRef K C)) (StateDB K) (Error E).
Proof.
  split.
  - intros w info s s' Heq (Hs & Hle & Hp). split_and!; try done. by apply (persists_equiv s s' _ _ Heq (reflexivity _)).
  - intros w [[hd Hn] _]. destruct (stack_head w hd Hn) as [Hi Hst]. rewrite Hi. split_and!; [by eapply node_block|by rewrite Hi|].
    by apply (persists_equiv _ _ _ _ (symmetry Hst) (reflexivity _)).
  - intros w h bi df w' [[hd Hn] _] Hf Hv _ Hx Hup info st (Hs & Hle & Hp). destruct (stack_head w hd Hn) as [Hi _]. rewrite Hi in Hx, Hle.
    pose proof (stack_fresh w hd h Hn Hf) as Ho.
    destruct (store_block_ok blocks codes Hblocks (wd_db w) h hd bi df Hn Ho Hv Hx) as (d' & Hst & Hn' & He & Hbi).
    assert (w' = mkWorld d' (wd_code w)) as ->.
    { cbn in Hup. unfold wr_update_block, on_db in Hup. rewrite Hst in Hup. by injection Hup as <-. }
    destruct (stack_head (mkWorld d' (wd_code w)) bi Hn') as [Hi' _]. pose proof (extends_le _ _ _ Hx).
    split_and!; [by apply (commit_stored blocks codes Hblocks (wd_db w) d' h hd bi df)|rewrite Hi'; lia|].
    etransitivity; [exact Hp|]. eapply (block_state_persists blocks codes Hblocks); try done; [by eapply extends_before|].
    apply (block_u64 blocks Hblocks), Hs.
  - intros w info st id [[hd Hn] _] (Hs & Hle & Hp) Hid. destruct (stack_head w hd Hn) as [Hi _]. rewrite Hi in Hle.
    destruct (db_at_block blocks codes Hblocks (wd_db w) hd info Hn Hs) as [Hh Hnu].
    pose proof (new_handle_on blocks codes Hblocks (wd_db w) hd info Hn (proj1 Hs) Hle) as Ho.
    exists (new_handle (wd_db w) (bi_number info) (Some info)). split; [|split].
    + change (fst (wr_state_at w id) = Ok (Some (new_handle (wd_db w) (bi_number info) (Some info)))).
      unfold wr_state_at. rewrite on_db_fst.
      change (fst (Archive.db_at (wd_db w) id) = Ok (Some (new_handle (wd_db w) (bi_number info) (Some info)))).
      destruct Hid as [-> | ->]; [destruct Hh as (d' & -> & _)|destruct Hnu as (d' & -> & _)]; done.
    + by exists info.
    + exact Hp.
Qed.

(** A node can start on a right archive whose last block is not its own
    parent. *)
Lemma stack_can_start w hd :
  code_cache_ok w -> node_ok blocks codes (wd_db w) hd -> bi_parent_hash hd <> bi_hash hd -> can_start w.
Proof.
  intros Hc Hn Hp. destruct (stack_head w hd Hn) as [Hi Hst]. split; rewrite ?Hi; try done.
  - split; [by exists hd|done].
  - apply (block_u64 blocks Hblocks), Hn.
  - split; [apply Hn|constructor|constructor|..]; intros *; by intros ?%elem_of_nil.
  - rewrite (ae_hash _ _ Hst). cbn. rewrite decide_True by (apply (block_u64 blocks Hblocks), Hn).
    unfold hash_read. by rewrite decide_True.
Qed.

(** C24: a node on the archive serves every block it imported. From a right
    archive, any chain of well-formed blocks is imported without an error, and
    afterwards each block of the chain, opened by its hash, reads the state
    that applying the diffs up to it leads to: from the diff layers when it is
    recent, from the archive when it was committed. *)
Theorem stack_serves_chain w hd config bs p q op :
  code_cache_ok w -> node_ok blocks codes (wd_db w) hd -> bi_parent_hash hd <> bi_hash hd ->
  (1 <= diff_tree_depth_limit config)%nat ->
  chain_ok (S := StateDB K) (start_tree (Backend.head w)) hd bs -> bs = p ++ q ->
  op_ok op -> within (chain_state (Backend.head w) p) op ->
  exists t0 t handle c, new_tree (C := C) (E := Error E) w config = Ok t0 /\ import t0 bs = (Ok tt, t) /\
    tree_state_at (E := Error E) t (ById (bi_hash (chain_head hd p))) = Ok (Some handle) /\
    run_op (E := Error E) (t_db t) handle (t_cache_layer t) op = (Ok (answer_of (chain_state (Backend.head w) p) op), c).
Proof.
  intros Hc Hn Hp Hl Hok Hpq Hop Hwi. pose proof (stack_can_start w hd Hc Hn Hp) as Hstart.
  destruct (stack_head w hd Hn) as [Hinfo _].
  destruct (new_tree_ok (C := C) (E := Error E) w config Hstart Hl) as (t0 & Hnew & Hi & _).
  assert (Hs : start_tree (Backend.head w) !! bi_hash (as_info (Backend.head w)) =
    Some (as_info (Backend.head w), Backend.head w)) by (by apply start_lookup).
  rewrite Hinfo in Hs, Hi.
  destruct (import_run (E := Error E) _ _ _ _ _ Hi Hs Hok) as (t & T & Himp & Hrun & _ & Hall).
  destruct (Hall p q Hpq) as (s & Hh & Heq & Hd).
  assert (Hx : archival_inv (t, T, chain_head hd bs)).
  { apply (archival_reachable (E := Error E) w config); [done..|]. exists t0. rewrite Hinfo. by split. }
  destruct (ancestor_reads (E := Error E) t T _ _ _ s op Hx Hh Hd Hop) as (handle & c & Hat & Hrd); [by rewrite Heq|].
  exists t0, t, handle, c. split_and!; [done..|]. by rewrite Hrd, Heq.
Qed.
End stack.

(** ** Example *)

Definition ex_world : World FifoCache (DataBaseRef MemKv FifoCache) := mkWorld (ex_archive true) None.

Definition ex_blocks : list (BlockInfo * BlockStorageDiff) := [(ex_block 6, ex_diff); (ex_block 7, ex_diff')].

#[local] Instance ex_spec : StoreSpec (DataBaseRef MemKv FifoCache) (StateDB MemKv) := archive_spec ex_chain ex_codes.

Lemma ex_head : as_info (Backend.head ex_world) = ex_block 5 /\ forall a i, as_storage (Backend.head ex_world) a i = 0.
Proof.
  destruct (stack_head (E := unit) ex_chain ex_codes ex_blocks_ok ex_world (ex_block 5) (ex_node_ok true)) as [Hi Hst].
  split; [exact Hi|]. intros a i. rewrite (ae_storage _ _ Hst). cbn [block_state store_state as_storage]. case_decide; [|done].
  apply ex_storage. rewrite new_handle_num. in_range.
Qed.

Lemma ex_chain_blocks_ok (B : AState) :
  as_info B = ex_block 5 -> (forall a i, as_storage B a i = 0) ->
  chain_ok (D := World FifoCache (DataBaseRef MemKv FifoCache)) (S := StateDB MemKv) (start_tree B) (ex_block 5) ex_blocks.
Proof.
  intros Hi Hz. set (T := start_tree B).
  assert (HT : forall h x, T !! h = Some x -> h = 105 /\ x = (ex_block 5, B)).
  { intros h x [-> ->]%start_lookup. by rewrite Hi. }
  assert (H5 : T !! 105 = Some (ex_block 5, B)) by (apply start_lookup; by rewrite Hi).
  assert (Hb6 : block_ok (D := World FifoCache (DataBaseRef MemKv FifoCache)) (S := StateDB MemKv) T (ex_block 6) ex_diff (ex_block 5) B).
  { split; [| |done|done|by apply (is_u64_pow 6)|apply ex_diff_valid|intros a i _ _; apply Hz].
    - destruct (T !! bi_hash (ex_block 6)) eqn:Hl; [|done]. by apply HT in Hl as [? _].
    - by intros h bi' s [_ [= -> _]]%HT. }
  split; [done|]. split; [by eexists _, _|]. split; [done|]. split; [|done].
  exists (ex_block 6), (overlay_block (ex_block 6) ex_diff B).
  assert (Hlk := fun h => add_block_lookup T (ex_block 6) ex_diff (ex_block 5) B h Hb6).
  split; [| | |done|by apply (is_u64_pow 7)|apply ex_diff_valid'|].
  - rewrite Hlk. rewrite decide_False by done. destruct (T !! bi_hash (ex_block 7)) eqn:Hl; [|done]. by apply HT in Hl as [? _].
  - intros h bi' s. rewrite Hlk. case_decide; [by intros [= <- <-]|]. by intros [_ [= -> _]]%HT.
  - rewrite Hlk. by rewrite decide_True.
  - intros a i Ha. by apply elem_of_nil in Ha.
Qed.

Lemma stack_serves_chain_witness :
  exists t0 t handle c, new_tree (C := FifoCache) (E := Error unit) ex_world (mkConfig 1 8 8 8 true) = Ok t0 /\
    import t0 ex_blocks = (Ok tt, t) /\
    tree_state_at (E := Error unit) t (ById 106) = Ok (Some handle) /\
    run_op (E := Error unit) (t_db t) handle (t_cache_layer t) (RStorage 1 2) = (Ok (AWords [9]), c).
Proof.
  destruct (stack_serves_chain (E := unit) ex_chain ex_codes ex_blocks_ok ex_world (ex_block 5) (mkConfig 1 8 8 8 true) ex_blocks
    [(ex_block 6, ex_diff)] [(ex_block 7, ex_diff')] (RStorage 1 2)) as (t0 & t & handle & c & Hnew & Himp & Hat & Hrd).
  - done.
  - apply ex_node_ok.
  - done.
  - cbn. lia.
  - by apply ex_chain_blocks_ok; apply ex_head.
  - done.
  - split; in_range.
  - done.
  - exists t0, t, handle, c. split; [exact Hnew|]. split; [exact Himp|]. split; [exact Hat|exact Hrd].
Defined.
