(* ===== verification/ArchiveOpen.v ===== *)
(** * Opening an archive: correctness

    A disk that a right node may have left ([disk_ok]) opens, with its caches
    empty and its block index loaded or rebuilt, into a right node with the
    same blocks and states. *)

From stdpp Require Import prelude gmap list sorting strings.
From S2P Require Import Prelude Types QuickCache Backend KvStore MemKv ArchiveEncoding StateCache BlockIndex.
From S2P Require Import BlockIndexFacts BlockIndexStore BlockIndexRun BlockIndexTheorems Archive ArchiveReads ArchiveSlots.
From S2P Require Import ArchiveWrite ArchiveCommit Wrapper WrapperFacts ArchiveBackend ArchiveUpdate ArchiveStore.
From S2P Require Import ArchiveDisk.

#[local] Open Scope Z_scope.
#[local] Open Scope state_scope.

Section opening.
Context {K E : Type} `{RocksDBOk K E} {C : Type -> Type -> Type} `{QuickCacheOk C}.
Context `{SlimCodecOk} `{BlockCodecOk E} `{ArchiveConfig} `{RevmBytecode}.
Context `{!RocksDBAdmin K E} `{!RocksDBAdminOk K E} `{ArchiveEnv}.
Context (blocks : gmap H256 BlockInfo) (codes : H256 -> option bytes).
Context (Hblocks : blocks_ok blocks).
Implicit Types (d : DataBaseRef K C) (dk : Disk K) (db : K).

#[local] Existing Instance archive_spec.

(** An archive without caches. *)
Definition bare (db : K) (ix : option BlockIndex) (udt : bool) : DataBaseRef K C := mkDataBaseRef db None None ix None udt.

(** The blocks of [d] up to [n] are in [d'] with their states. *)
Definition carries (n : u64) d d' : Prop :=
  forall i, block_stored blocks d i -> bi_number i <= n ->
    block_stored blocks d' i /\ persists (block_state blocks codes d i) (block_state blocks codes d' i).

Lemma carries_trans n m d1 d2 d3 : carries n d1 d2 -> carries m d2 d3 -> m <= n -> carries m d1 d3.
Proof.
  intros H12 H23 Hle i Hs Hi. destruct (H12 i Hs ltac:(lia)) as [Hs2 Hp2]. destruct (H23 i Hs2 Hi) as [Hs3 Hp3].
  split; [done|by etransitivity].
Qed.

(** What a block's state depends on. *)
Lemma kept_persists d d' i :
  is_u64 (bi_number i) -> dr_udt d' = dr_udt d ->
  (forall col p b, versioned col -> is_u64 b -> b <= bi_number i ->
    version_at (dr_udt d) (dr_db d') col p b = version_at (dr_udt d) (dr_db d) col p b) ->
  (forall b, is_u64 b -> b <= bi_number i -> hash_at (dr_db d') b = hash_at (dr_db d) b) ->
  (forall x, code_of (dr_db d') x = code_of (dr_db d) x) ->
  persists (block_state blocks codes d i) (block_state blocks codes d' i).
Proof.
  intros Hn Hu Hv Hh Hc. split; cbn [block_state store_state as_account as_storage as_code as_hash as_info].
  - intros a. case_decide; [|done]. cbn [st_account archive_spec]. unfold account_read, account_at. rewrite !new_handle_num, Hu.
    by rewrite (newest_ext _ _ _ Hn (fun b => Hv AddressToAccount (h256_bytes a) b ltac:(by left))).
  - intros a j. case_decide; [|done]. cbn [st_storage archive_spec]. unfold storage_read, storage_at. rewrite !new_handle_num, Hu.
    by rewrite (newest_ext _ _ _ Hn (fun b => Hv AddressToStorage (slot_prefix a j) b ltac:(by right))).
  - cbn [st_info archive_spec]. by rewrite !new_handle_info.
  - intros n. cbn [st_info st_hash archive_spec]. unfold hash_read. rewrite !new_handle_info, !new_handle_num. cbn [from_option id].
    intros Hle. case_decide as Hnn; [|done]. case_decide; [done|]. by apply Hh.
  - intros x. left. case_decide; [|done]. cbn [st_code archive_spec]. by rewrite Hc.
Qed.

(** ** Empty caches *)

Definition empty_cache {A B} `{EqDecision A} (o : option (C A B)) : Prop := forall c k, o = Some c -> qc_get c k = None.

Definition fresh d : Prop :=
  empty_cache (dr_code_cache d) /\ empty_cache (dr_block_info_cache d) /\
  forall c, dr_state_cache d = Some c -> exists sp sp' cap, c = new_state_cache sp sp' cap.

Lemma bare_node d hd : node_ok blocks codes d hd -> node_ok blocks codes (bare (dr_db d) (dr_block_index d) (dr_udt d)) hd.
Proof. intros [[Hdb Hsc] [] ]. split; try done; split; done. Qed.

Lemma fresh_node d hd :
  node_ok blocks codes (bare (dr_db d) (dr_block_index d) (dr_udt d)) hd -> fresh d -> node_ok blocks codes d hd.
Proof.
  intros [[Hdb _] [] Hhd Hlat Hinfo Hhash Hhs Hver _ Hcod _] (Hcc & Hbc & Hst).
  pose proof (block_u64 blocks Hblocks hd Hhd) as Hu. split; try done.
  - split; [done|]. intros c Hc. destruct (Hst c Hc) as (sp & sp' & cap & ->). split; [cbn; in_range|].
    split; apply table_ok_new.
  - split; try done. intros c x info Hc Hg. by rewrite (Hbc c x Hc) in Hg.
  - intros c Hc. destruct (Hst c Hc) as (sp & sp' & cap & ->). cbn. unfold is_u64 in Hu. lia.
  - intros c x code Hc Hg. by rewrite (Hcc c x Hc) in Hg.
Qed.

Lemma stored_bare d i : block_stored blocks (bare (dr_db d) (dr_block_index d) (dr_udt d)) i <-> block_stored blocks d i.
Proof. done. Qed.

(** The head of the state cache, raised to the latest block. *)
Lemma align_head_ok d hd :
  node_ok blocks codes d hd -> fresh d -> exists d', align_head d = (Ok tt, d') /\ node_ok blocks codes d' hd /\
    dr_db d' = dr_db d /\ dr_block_index d' = dr_block_index d /\ dr_udt d' = dr_udt d.
Proof.
  intros Hn (Hcc & Hbc & Hst). unfold align_head. destruct (dr_state_cache d) as [c|] eqn:Hsc; [|by exists d].
  unfold read_latest_block_num. rewrite (read_latest_ok blocks codes Hblocks d hd Hn). cbn [sbind].
  rewrite decide_False by (by apply (bk_hash _ Hblocks _ _ (no_head _ _ _ _ Hn))).
  destruct (read_block_info_ok blocks codes Hblocks d hd hd Hn (node_block _ _ _ _ Hn)) as (d1 & -> & Hr).
  cbn [sbind]. pose proof (node_reinfo _ _ _ _ _ Hn Hr) as Hn1. destruct Hr as [Hd1 _].
  assert (Hsc1 : dr_state_cache d1 = Some c) by (rewrite Hd1; done). rewrite Hsc1. cbn [option_map from_option id].
  eexists. split; [done|]. cbn [dr_db dr_block_index dr_udt set_state_cache]. split; [|rewrite Hd1; done].
  destruct (Hst c eq_refl) as (sp & sp' & cap & ->). pose proof (block_u64 blocks Hblocks hd (no_head _ _ _ _ Hn)) as Hu.
  assert (Hmax : Z.max 0 (bi_number hd) = bi_number hd) by (unfold is_u64 in Hu; lia).
  destruct Hn1 as [[Hdb _] [] ]. split; try done.
  - split; [done|]. intros c Hc. apply (inj Some) in Hc as <-. unfold advance_head. cbn [sc_head new_state_cache]. rewrite Hmax.
    split; [done|]. split; apply table_ok_new.
  - intros c Hc. apply (inj Some) in Hc as <-. unfold advance_head. cbn [sc_head new_state_cache]. lia.
Qed.

(** ** Disks *)

(** An index file covers the blocks of CF 3 up to its last one. *)
Definition index_file_ok (db : K) (file : option bytes) : Prop :=
  exists B, cf3 db B /\ B ⊆ block_entries blocks /\
    forall bytes, file = Some bytes -> exists l, file_covers (E := E) crc32 (block_entries blocks) B bytes l.

(** The file an index leaves: its own, or the one before if it has none. *)
Definition left_file (ix : BlockIndex) (file : option bytes) : option bytes :=
  match ix_file ix with Some f => f | None => file end.

Lemma run_file_ok db ix file :
  run_ok (E := E) crc32 (block_entries blocks) db ix -> (ix_file ix = None -> index_file_ok db file) ->
  index_file_ok db (left_file ix file).
Proof.
  intros (B & k & N & Hc & HB & _ & Hi) Hold. unfold left_file. destruct (ix_file ix) as [f|] eqn:Hf; [|auto].
  exists B. split; [done|]. split; [done|]. intros bytes ->. destruct (rn_file _ _ _ _ _ _ Hi bytes Hf) as (l & _ & Hcov & _). eauto.
Qed.

Lemma load_index_ok db file hd ix udt :
  node_ok blocks codes (bare db ix udt) hd -> index_file_ok db file ->
  exists ix', open_index crc32 db file = Ok ix' /\ run_ok (E := E) crc32 (block_entries blocks) db ix' /\
    index_file_ok db (left_file ix' file).
Proof.
  intros Hn Hf. pose proof Hf as (B & Hc & HB & Hfile). pose proof (no_head _ _ _ _ Hn) as Hhd.
  assert (Hin : (bi_hash hd, bi_number hd) ∈ B).
  { apply (cf3_has_in db B); [done|by apply (block_u256 blocks Hblocks)|by apply (block_u64 blocks Hblocks)|]. apply (no_head_hash _ _ _ _ Hn). }
  destruct (open_run (E := E) crc32 (bk_crc _ Hblocks) (block_entries blocks) (entries_size _ Hblocks) (entries_range _ Hblocks) db B file)
    as (ix' & k & N & Ho & Hi & HN); [done..|right; intros ->; by apply elem_of_empty in Hin|done|].
  assert (Hrun : run_ok (E := E) crc32 (block_entries blocks) db ix') by (by exists B, k, N).
  exists ix'. split; [done|]. split; [done|]. by apply run_file_ok.
Qed.

(** A disk with the archive of a node whose last block is [hd]: its block
    infos are by hash, or by number under the index [ix]. *)
Record disk_ok dk (ix : option BlockIndex) (udt : bool) (hd : BlockInfo) : Prop := {
  do_udt : is_udt_archive (E := E) dk = Ok udt;
  do_node : node_ok blocks codes (bare (dk_db dk) ix udt) hd;
  do_known : dk_columns dk ⊆ (ARCHIVE_COLUMNS ++ [BlockNumToBlockInfo]);
  do_columns c : c ∈ ARCHIVE_COLUMNS -> c <> BlockHashToBlockInfo -> c ∈ dk_columns dk;
  do_layout : match ix with
    | None => BlockHashToBlockInfo ∈ dk_columns dk
    | Some i => ~ (BlockHashToBlockInfo ∈ dk_columns dk) /\ BlockNumToBlockInfo ∈ dk_columns dk /\
        index_file_ok (dk_db dk) (dk_index dk)
    end;
}.

(** A database that differs in CF 7 alone, when the block infos are by hash. *)
Lemma node_without_infos db db' udt hd :
  kv_ok db' -> (forall c k, c <> BlockNumToBlockInfo -> kv_contents db' c k = kv_contents db c k) ->
  (forall c k ts, c <> BlockNumToBlockInfo -> kv_versions db' c k ts = kv_versions db c k ts) ->
  node_ok blocks codes (bare db None udt) hd -> node_ok blocks codes (bare db' None udt) hd.
Proof.
  intros Hkv Hcon Hver Hn.
  assert (Hva : forall col p n, versioned col -> version_at udt db' col p n = version_at udt db col p n).
  { intros col p n Hc. unfold version_at. destruct udt; [apply Hver|apply Hcon]; by destruct Hc as [-> | ->]. }
  destruct Hn as [[[Hok Hpl Hts Hac] _] [Hio _ _ _] Hhd Hlat Hinfo Hhash Hhs Hvs _ Hcod _]. cbn [bare dr_db dr_udt dr_block_index] in *.
  split; cbn [bare dr_db dr_udt dr_block_index dr_code_cache dr_state_cache]; try done.
  - split; [|done]. cbn [bare dr_db dr_udt]. split; [done| | |].
    + intros col k Hu Hc. rewrite Hcon by (by destruct Hc as [-> | ->]). by apply Hpl.
    + intros col k n Hu Hc. rewrite Hver by (by destruct Hc as [-> | ->]). by apply Hts.
    + intros p n raw Hnu. rewrite Hva by (by left). by apply Hac.
  - split; cbn [bare dr_db dr_block_index dr_block_info_cache]; try done.
    intros k raw _. rewrite Hcon by done. by apply Hio.
  - by rewrite Hcon.
  - destruct Hinfo as (raw & Hdec & Hst). exists raw. split; [done|]. cbn [bare dr_db dr_block_index] in *. by rewrite Hcon.
  - by rewrite Hcon.
  - intros k raw. rewrite Hcon by done. apply Hhs.
  - intros col p n Hc Hnu Hlt. rewrite Hva by done. by apply Hvs.
  - intros k raw. rewrite Hcon by done. apply Hcod.
Qed.

(** A database with the same contents, block infos apart. *)
Lemma carries_same n db db' ix ix' udt :
  (forall c k, c <> BlockHashToBlockInfo -> c <> BlockNumToBlockInfo -> kv_contents db' c k = kv_contents db c k) ->
  (forall c k ts, versioned c -> kv_versions db' c k ts = kv_versions db c k ts) ->
  (forall i, block_stored blocks (bare db ix udt) i -> bi_number i <= n -> info_stored (E := E) (bare db' ix' udt) i) ->
  carries n (bare db ix udt) (bare db' ix' udt).
Proof.
  intros Hcon Hver Hinfo i Hs Hle. pose proof Hs as (Hb & _ & Hh). split.
  - split; [done|]. split; [by apply Hinfo|]. cbn [bare dr_db] in *. by rewrite Hcon.
  - apply kept_persists; cbn [bare dr_db dr_udt]; [by apply (block_u64 blocks Hblocks)|done| | |].
    + intros col p b Hc _ _. unfold version_at. destruct udt; [by apply Hver|]. apply Hcon; by destruct Hc as [-> | ->].
    + intros b _ _. unfold hash_at. by rewrite Hcon.
    + intros x. unfold code_of. by rewrite Hcon.
Qed.

Lemma carries_refl n d : carries n d d.
Proof. by intros i Hs Hle. Qed.

(** Only caches differ. *)
Lemma carries_bare n d d' :
  dr_db d' = dr_db d -> dr_block_index d' = dr_block_index d -> dr_udt d' = dr_udt d -> carries n d d'.
Proof.
  intros Hdb Hix Hu i Hs Hle. pose proof Hs as (Hb & Hi & Hh). split.
  - split; [done|]. unfold info_stored. by rewrite Hdb, Hix.
  - apply kept_persists; rewrite ?Hdb; try done. by apply (block_u64 blocks Hblocks).
Qed.

(** The archive a fresh reference to a right database opens as. *)
Lemma opened db ix udt hd (serving : bool) :
  node_ok blocks codes (bare db ix udt) hd ->
  let d := mkDataBaseRef db build_code_cache build_block_info_cache ix (if serving then state_cache_from_env else None) udt in
  exists d', align_head d = (Ok tt, d') /\ node_ok blocks codes d' hd /\
    dr_db d' = db /\ dr_block_index d' = ix /\ dr_udt d' = udt.
Proof.
  intros Hn d. assert (Hf : fresh d).
  { unfold d, fresh. cbn [dr_code_cache dr_block_info_cache dr_state_cache]. split_and!.
    - intros c k. unfold build_code_cache. case_decide; [done|]. intros [= <-]. apply qc_get_with.
    - intros c k. unfold build_block_info_cache. case_decide; [done|]. intros [= <-]. apply qc_get_with.
    - intros c. destruct serving; [|done]. unfold state_cache_from_env. case_decide; [done|]. intros [= <-]. eauto. }
  by apply align_head_ok; [apply fresh_node|].
Qed.

(** What opening gives, whatever the layout it ends with. *)
Definition opens_as dk (ix : option BlockIndex) (udt : bool) (hd : BlockInfo) d dk' : Prop :=
  node_ok blocks codes d hd /\ dr_udt d = udt /\ disk_ok (close_archive dk' d) (dr_block_index d) udt hd /\
  (forall n, carries n (bare (dk_db dk) ix udt) d) /\
  (forall c k, c <> BlockHashToBlockInfo -> c <> BlockNumToBlockInfo ->
    kv_contents (dr_db d) c k = kv_contents (dk_db dk) c k) /\
  (forall c k ts, versioned c -> kv_versions (dr_db d) c k ts = kv_versions (dk_db dk) c k ts).

Lemma open_columns_ok dk cols create :
  kv_ok (dk_db dk) -> dk_columns dk ⊆ cols -> cols ⊆ dk_columns dk ->
  open_columns dk cols create = (Ok tt, set_dk_columns dk cols).
Proof. intros Hkv Hs Hc. unfold open_columns. by rewrite rk_open. Qed.

Lemma create_columns_ok dk cols :
  kv_ok (dk_db dk) -> dk_columns dk ⊆ cols ->
  exists db', open_columns dk cols true = (Ok tt, set_dk_columns (set_dk_db dk db') cols) /\ kv_ok db' /\
    (forall c k, kv_contents db' c k = if decide (c ∈ cols /\ ~ c ∈ dk_columns dk) then None else kv_contents (dk_db dk) c k) /\
    (forall c k ts, kv_versions db' c k ts = if decide (c ∈ cols /\ ~ c ∈ dk_columns dk) then None else kv_versions (dk_db dk) c k ts).
Proof.
  intros Hkv Hs. unfold open_columns. destruct (rk_open_create (dk_db dk) (dk_columns dk) cols Hkv Hs) as (db' & -> & Hrest).
  by exists db'.
Qed.

(** Block infos by number beside those by hash are dropped. *)
Lemma keep_by_hash dk udt hd (had : bool) :
  node_ok blocks codes (bare (dk_db dk) None udt) hd ->
  exists dk', (if had then settle_infos dk had false else if had then load_index dk else (Ok None, dk)) = (Ok None, dk') /\
    node_ok blocks codes (bare (dk_db dk') None udt) hd /\ dk_schema dk' = dk_schema dk /\
    (forall c, c ∈ dk_columns dk' <-> c ∈ dk_columns dk /\ (had = true -> c <> BlockNumToBlockInfo)) /\
    (forall c k, c <> BlockNumToBlockInfo -> kv_contents (dk_db dk') c k = kv_contents (dk_db dk) c k) /\
    (forall c k ts, c <> BlockNumToBlockInfo -> kv_versions (dk_db dk') c k ts = kv_versions (dk_db dk) c k ts).
Proof.
  intros Hn. pose proof (db_kv _ _ _ _ Hn) as Hkv. cbn [bare dr_db] in Hkv. destruct had; [|exists dk; split_and!; naive_solver].
  unfold settle_infos, drop_cf, on_column.
  destruct (rk_drop_cf (dk_db dk) BlockNumToBlockInfo Hkv) as (db' & -> & Hkv' & Hcon & Hver). cbn [rocks sbind].
  eexists. split; [done|]. cbn [set_dk_columns set_dk_db dk_db dk_columns dk_schema].
  assert (Hc7 : forall c k, c <> BlockNumToBlockInfo -> kv_contents db' c k = kv_contents (dk_db dk) c k)
    by (intros c k Hne; by rewrite Hcon, decide_False).
  assert (Hv7 : forall c k ts, c <> BlockNumToBlockInfo -> kv_versions db' c k ts = kv_versions (dk_db dk) c k ts)
    by (intros c k ts Hne; by rewrite Hver, decide_False).
  split; [by apply (node_without_infos (dk_db dk))|]. split; [done|]. split; [|done].
  intros c. rewrite list_elem_of_filter. naive_solver.
Qed.

Lemma archive_columns_infos : ~ (BlockNumToBlockInfo ∈ ARCHIVE_COLUMNS).
Proof. unfold ARCHIVE_COLUMNS. rewrite !elem_of_cons, elem_of_nil. naive_solver. Qed.

(** Block infos by hash, which stay so. *)
Lemma open_by_hash dk udt hd bulk_load maintenance :
  disk_ok dk None udt hd -> negb maintenance && block_index_enabled = false ->
  exists d dk', open_inner dk bulk_load maintenance = (Ok d, dk') /\ opens_as dk None udt hd d dk' /\ dr_block_index d = None /\
    forall k, kv_contents (dr_db d) BlockHashToBlockInfo k = kv_contents (dk_db dk) BlockHashToBlockInfo k.
Proof.
  intros Hd Hby. pose proof (do_node _ _ _ _ Hd) as Hn. pose proof (do_layout _ _ _ _ Hd) as Hl. cbn in Hl.
  pose proof (db_kv _ _ _ _ Hn) as Hkv. cbn [bare dr_db] in Hkv.
  unfold open_inner. rewrite (do_udt _ _ _ _ Hd), Hby. cbn [sbind orb].
  assert (has_column dk BlockHashToBlockInfo = true) as -> by (by apply bool_decide_true). cbn [orb andb].
  set (had := has_column dk BlockNumToBlockInfo).
  set (cols := filter _ ARCHIVE_COLUMNS ++ (if had then [BlockNumToBlockInfo] else [])).
  assert (Hcols : forall c, c ∈ cols <-> c ∈ dk_columns dk).
  { intros c. unfold cols, had, has_column. change (filter _ ARCHIVE_COLUMNS) with ARCHIVE_COLUMNS. rewrite elem_of_app. split.
    - intros [Hc|Hc].
      + destruct (decide (c = BlockHashToBlockInfo)) as [->|Hne]; [done|by apply (do_columns _ _ _ _ Hd)].
      + case_bool_decide; [|by apply elem_of_nil in Hc]. by apply list_elem_of_singleton in Hc as ->.
    - intros Hc. pose proof (do_known _ _ _ _ Hd c Hc) as [?|Heq%list_elem_of_singleton]%elem_of_app; [by left|right]. subst c.
      rewrite bool_decide_true by done. by left. }
  rewrite open_columns_ok; [|done|intros c; apply Hcols|intros c; apply Hcols]. cbn [sbind].
  destruct (keep_by_hash (set_dk_columns dk cols) udt hd had Hn) as (dk1 & Hs & Hn1 & Hsch & Hc1 & Hcon & Hver).
  cbn [set_dk_columns dk_db dk_columns dk_schema] in Hsch, Hc1, Hcon, Hver.
  rewrite Hs. cbn [sbind].
  destruct (opened (dk_db dk1) None udt hd (negb bulk_load && negb maintenance) Hn1) as (d & -> & Hnd & Hdb & Hix & Hu).
  exists d, dk1. split; [done|]. split; [|split; [done|intros k; rewrite Hdb; by apply Hcon]]. split; [done|]. split; [done|]. rewrite Hix.
  assert (Hcar : forall n, carries n (bare (dk_db dk) None udt) d).
  { intros n. eapply carries_trans; [|by apply carries_bare with (d := bare (dk_db dk1) None udt)|reflexivity].
    apply carries_same; [by intros; apply Hcon|by intros c k ts [-> | ->]; apply Hver|].
    intros i (_ & (raw & Hdec & Hst) & _) _. exists raw. split; [done|]. cbn [bare dr_db dr_block_index] in *. by rewrite Hcon. }
  split; [|split; [done|rewrite Hdb; split; [by intros; apply Hcon|by intros c k ts [-> | ->]; apply Hver]]].
  split; cbn [close_archive dk_columns dk_db dk_index dk_schema]; rewrite ?Hdb; try done.
  - unfold is_udt_archive. cbn [close_archive dk_schema]. rewrite Hsch. apply (do_udt _ _ _ _ Hd).
  - intros c [Hc _]%Hc1. by apply (do_known _ _ _ _ Hd), Hcols.
  - intros c Hc Hne. apply Hc1. split; [by apply Hcols, (do_columns _ _ _ _ Hd)|]. intros _ ->. by apply archive_columns_infos.
  - apply Hc1. split; [by apply Hcols|done].
Qed.

Lemma node_reindex db ix ix' udt hd :
  node_ok blocks codes (bare db (Some ix) udt) hd -> run_ok (E := E) crc32 (block_entries blocks) db ix' ->
  node_ok blocks codes (bare db (Some ix') udt) hd.
Proof.
  intros [[Hdb _] [Hp Hi Hx Hcc] ] Hrun. split; try done. split; try done.
  - intros k r _. apply Hi. by eexists.
  - intros i Heq. apply (inj Some) in Heq. by subst i.
Qed.

(** Block infos by number, which stay so: the index is loaded. *)
Lemma open_by_number dk ix udt hd bulk_load maintenance :
  disk_ok dk (Some ix) udt hd ->
  exists d dk', open_inner dk bulk_load maintenance = (Ok d, dk') /\ opens_as dk (Some ix) udt hd d dk' /\
    is_Some (dr_block_index d).
Proof.
  intros Hd. pose proof (do_node _ _ _ _ Hd) as Hn. pose proof (do_layout _ _ _ _ Hd) as (Hc2 & Hc7 & Hfile).
  pose proof (db_kv _ _ _ _ Hn) as Hkv. cbn [bare dr_db] in Hkv.
  unfold open_inner. rewrite (do_udt _ _ _ _ Hd). cbn [sbind].
  assert (has_column dk BlockHashToBlockInfo = false) as -> by (by apply bool_decide_false).
  assert (has_column dk BlockNumToBlockInfo = true) as -> by (by apply bool_decide_true).
  rewrite !orb_true_r. cbn [orb andb negb]. set (cols := filter _ ARCHIVE_COLUMNS ++ [BlockNumToBlockInfo]).
  assert (Hcols : forall c, c ∈ cols <-> c ∈ dk_columns dk).
  { intros c. unfold cols. rewrite elem_of_app, list_elem_of_filter, list_elem_of_singleton. split.
    - intros [[[Hne|?] Hc]| ->]; [by apply (do_columns _ _ _ _ Hd)|done..].
    - intros Hc. pose proof (do_known _ _ _ _ Hd c Hc) as [Ha|Heq%list_elem_of_singleton]%elem_of_app; [left|by right].
      split; [left; by intros ->|done]. }
  rewrite open_columns_ok; [|done|intros c; apply Hcols|intros c; apply Hcols]. cbn [sbind].
  unfold load_index. cbn [set_dk_columns dk_db dk_index].
  destruct (load_index_ok (dk_db dk) (dk_index dk) hd (Some ix) udt Hn Hfile) as (ix' & -> & Hrun & Hfile'). cbn [sbind].
  fold (left_file ix' (dk_index dk)). cbn [set_dk_index set_dk_columns dk_db dk_index dk_columns dk_schema].
  destruct (opened (dk_db dk) (Some ix') udt hd (negb bulk_load && negb maintenance)) as (d & -> & Hnd & Hdb & Hix & Hu); [by eapply node_reindex|].
  eexists d, _. split; [done|]. rewrite Hix. split; [|by eexists]. split; [done|]. split; [done|]. rewrite Hix.
  split; [|split; [|by rewrite Hdb]].
  - split; cbn [close_archive dk_columns dk_db dk_index dk_schema]; rewrite ?Hdb, ?Hix; try done.
    + apply (do_udt _ _ _ _ Hd).
    + by eapply node_reindex.
    + intros c Hc%Hcols. by apply (do_known _ _ _ _ Hd).
    + intros c Hc Hne. by apply Hcols, (do_columns _ _ _ _ Hd).
    + rewrite !Hcols. split_and!; try done. change (index_file_ok (dk_db dk) (left_file ix' (left_file ix' (dk_index dk)))).
      apply run_file_ok; done.
  - intros n. eapply carries_trans; [|by apply carries_bare with (d := bare (dk_db dk) (Some ix') udt)|reflexivity].
    apply carries_same; [done..|]. by intros i (_ & Hi & _) _.
Qed.

(** A disk whose block infos do not move when it is opened. *)
Lemma open_settled dk ix udt hd bulk_load maintenance :
  disk_ok dk ix udt hd -> negb maintenance && block_index_enabled = false \/ is_Some ix ->
  exists d dk', open_inner dk bulk_load maintenance = (Ok d, dk') /\ opens_as dk ix udt hd d dk' /\
    (is_Some (dr_block_index d) <-> is_Some ix) /\
    (ix = None -> forall k, kv_contents (dr_db d) BlockHashToBlockInfo k = kv_contents (dk_db dk) BlockHashToBlockInfo k).
Proof.
  intros Hd Hby. destruct ix as [ix|].
  - destruct (open_by_number dk ix udt hd bulk_load maintenance Hd) as (d & dk' & Ho & Hop & Hs). exists d, dk'.
    split; [done|]. split; [done|]. split; [|done]. split; [by eexists|done].
  - destruct (open_by_hash dk udt hd bulk_load maintenance Hd) as (d & dk' & Ho & Hop & Hs & Hcon); [by destruct Hby as [?|[? ?]]|].
    exists d, dk'. split; [done|]. split; [done|]. by rewrite Hs.
Qed.

(** ** A stopped node *)

(** What a node that stops leaves on disk. *)
Definition disk_of d : Disk K :=
  mkDisk (dr_db d)
    (match dr_block_index d with
     | None => ARCHIVE_COLUMNS
     | Some _ => filter (fun c => c <> BlockHashToBlockInfo) ARCHIVE_COLUMNS ++ [BlockNumToBlockInfo]
     end)
    (match dr_block_index d with Some ix => file_of ix | None => None end)
    (if dr_udt d then Some SCHEMA_V3 else None).

Lemma disk_of_ok d hd : node_ok blocks codes d hd -> disk_ok (disk_of d) (dr_block_index d) (dr_udt d) hd.
Proof.
  intros Hn. split; cbn [disk_of dk_db dk_columns dk_index dk_schema].
  - unfold is_udt_archive. cbn [disk_of dk_schema]. destruct (dr_udt d); [|done]. by rewrite decide_True.
  - by apply bare_node.
  - intros c Hc. destruct (dr_block_index d); [|by apply elem_of_app; left]. revert Hc. rewrite !elem_of_app, list_elem_of_filter. tauto.
  - intros c Hc Hne. destruct (dr_block_index d); [|done]. apply elem_of_app. left. by apply list_elem_of_filter.
  - destruct (dr_block_index d) as [ix|] eqn:Hix; [|by right; left]. split.
    { rewrite elem_of_app, list_elem_of_filter, list_elem_of_singleton. intros [[? _]|?]; done. }
    split; [apply elem_of_app; right; by left|]. pose proof (io_index _ _ (no_infos _ _ _ _ Hn) ix Hix) as Hrun.
    apply (run_file_ok _ _ None Hrun). intros _. destruct Hrun as (B & k & N & Hc & HB & _). by exists B.
Qed.
End opening.
