(* ===== verification/Migrate.v ===== *)
(** * Offline conversions of an archive
    (crates/leafage-evm-storage/src/db_impl/rocksdb_impl/sst.rs and
    rocksdb_impl/archive/{mod,udt}.rs)

    [reencode_legacy_to_inverted] rewrites an archive from ascending to
    inverted version tails (v1 to v2) and [convert_inverted_to_udt] from
    inverted tails to timestamps (v2 to v3). Both stream the source into sorted
    files, shard by shard of the key space, and ingest them into a new
    database. The workers share nothing but the queue of shards and join in
    order, so they are a loop over the shards; progress reports are left out.
    A file is the list of its rows. *)

From stdpp Require Import prelude gmap list sorting strings.
From S2P Require Import Prelude Types QuickCache KvStore MemKv ArchiveEncoding StateCache BlockIndex Archive.
From S2P Require Import ArchiveWrite ArchiveDisk.

#[local] Open Scope Z_scope.
#[local] Open Scope state_scope.

Definition REENCODE_ROLL_BYTES : Z := 512 * 1024 * 1024.
Definition ROLL_BYTES : Z := 2 ^ 27.

(** [size_of::<(Vec<u8>, Vec<u8>)>()]. *)
Definition BUFFERED_OVERHEAD : Z := 48.

(** [shard_bounds]: the first bytes from [lo] up to [hi], if there is one. *)
Definition clamp (lo hi z : Z) : Z := Z.max lo (Z.min hi z).

Definition shard_bounds (jobs : Z) : list (Z * option Z) :=
  let jobs := clamp 1 256 jobs in
  map (fun i =>
    let hi_idx := (Z.of_nat i + 1) * 256 / jobs in
    (Z.of_nat i * 256 / jobs, if decide (256 <= hi_idx) then None else Some hi_idx)) (seq 0 (Z.to_nat jobs)).

Section sink.
Context {K E : Type} `{!RocksDBAdmin K E}.

(** ** [SstSink] *)

(** The file being written, if one is open, and the finished files. *)
Record SstSink := mkSstSink {
  sk_writer : option (list WriteOp);
  sk_paths : list (list WriteOp);
}.

Definition new_sink : SstSink := mkSstSink None [].

Definition finish_file (s : SstSink) : SstSink :=
  match sk_writer s with
  | Some (row :: rows) => mkSstSink None (sk_paths s ++ [row :: rows])
  | _ => mkSstSink None (sk_paths s)
  end.

Definition sink_finish (s : SstSink) : list (list WriteOp) := sk_paths (finish_file s).

(** [put_with_ts], and what [put] does before it rolls. *)
Definition sink_append (s : SstSink) (row : WriteOp) : Res (Error E) SstSink :=
  rows ← rocks (sst_put (K := K) (default [] (sk_writer s)) row);
  Ok (mkSstSink (Some rows) (sk_paths s)).

Definition roll_if_full (roll_bytes : Z) (s : SstSink) : SstSink :=
  match sk_writer s with
  | Some rows => if decide (roll_bytes <= sst_file_size (K := K) (E := E) rows) then finish_file s else s
  | None => s
  end.

Definition sink_put (roll_bytes : Z) (s : SstSink) (row : WriteOp) : Res (Error E) SstSink :=
  s ← sink_append s row;
  Ok (roll_if_full roll_bytes s).

Fixpoint sink_puts (roll_bytes : Z) (s : SstSink) (rows : list WriteOp) : Res (Error E) SstSink :=
  match rows with
  | [] => Ok s
  | row :: rest => s ← sink_put roll_bytes s row; sink_puts roll_bytes s rest
  end.
End sink.

Section migrate.
Context {K E : Type} `{RocksDB K E} {C : Type -> Type -> Type} `{QuickCache C}.
Context `{SlimCodec} `{BlockCodec E} `{ArchiveConfig} `{!RocksDBAdmin K E} `{ArchiveEnv}.
Implicit Types (dk : Disk K) (db : K).

(** The rows of a shard, between iterate bounds of one byte. *)
Definition in_shard (bounds : Z * option Z) (key : bytes) : Prop :=
  ([bounds.1] ≤ key)%bytes /\ before (option_map (fun h => [h]) bounds.2) key.

#[export] Instance in_shard_dec bounds key : Decision (in_shard bounds key).
Proof. unfold in_shard, before. destruct bounds as [lo [hi|]]; cbn; apply _. Defined.

Definition scan_shard db (col : StorageTypeColumn) (bounds : Z * option Z) : Res (Error E) (list (bytes * bytes)) :=
  rows ← rocks (db_iter db col);
  Ok (filter (fun kv : bytes * bytes => in_shard bounds kv.1) rows).

(** [u64::from_be_bytes(key[klen - 8..])]. *)
Definition tail_number (key : bytes) : Res (Error E) u64 :=
  if decide (8 <= length key)%nat then Ok (from_be (drop (length key - 8) key)) else Panic.

Definition ingest dk (col : StorageTypeColumn) (files : list (list WriteOp)) : Res (Error E) unit * Disk K :=
  match files with
  | [] => (Ok tt, dk)
  | _ => let '(r, db) := db_ingest (dk_db dk) col files in (rocks r, set_dk_db dk db)
  end.

(** [cf_handle(col).unwrap()]. *)
Definition cf_handle (cols : list StorageTypeColumn) (col : StorageTypeColumn) : Res (Error E) unit :=
  if decide (col ∈ cols) then Ok tt else Panic.

(** Copy a column as it is. *)
Definition copy_column (src : K) (roll_bytes : Z) (col : StorageTypeColumn) : Res (Error E) (list (list WriteOp)) :=
  rows ← rocks (db_iter src col);
  sink ← sink_puts (K := K) roll_bytes new_sink (map (fun kv => OpPut col kv.1 kv.2) rows);
  Ok (sink_finish sink).

(** ** Ascending to inverted tails *)

(** A worker: the versions of the current prefix, and what it wrote. *)
Record Reencoder := mkReencoder {
  re_buf : list (bytes * bytes);
  re_buffered : Z;
  re_prefix : option bytes;
  re_sink : SstSink;
  re_kept : Z;
  re_dropped : Z;
}.

Definition flush_prefix (col : StorageTypeColumn) (roll_bytes : Z) (w : Reencoder) : Res (Error E) Reencoder :=
  sink ← sink_puts (K := K) roll_bytes (re_sink w) (map (fun kv => OpPut col kv.1 kv.2) (merge_sort write_le (re_buf w)));
  Ok (mkReencoder [] 0 (re_prefix w) sink (re_kept w + Z.of_nat (length (re_buf w))) (re_dropped w)).

(** A row of a new prefix first writes out the last one. *)
Definition enter_prefix (col : StorageTypeColumn) (roll_bytes : Z) (w : Reencoder) (prefix : bytes) : Res (Error E) Reencoder :=
  if decide (re_prefix w = Some prefix) then Ok w
  else
    w ← match re_buf w with [] => Ok w | _ => flush_prefix col roll_bytes w end;
    Ok (mkReencoder (re_buf w) (re_buffered w) (Some prefix) (re_sink w) (re_kept w) (re_dropped w)).

Definition reencode_row (col : StorageTypeColumn) (plen : nat) (buffer_limit roll_bytes : Z) (w : Reencoder)
    (row : bytes * bytes) : Res (Error E) Reencoder :=
  let '(key, value) := row in
  block ← tail_number key;
  if decide (block = u64_max) then
    Ok (mkReencoder (re_buf w) (re_buffered w) (re_prefix w) (re_sink w) (re_kept w) (re_dropped w + 1))
  else
    prefix ← slice key 0 plen;
    w ← enter_prefix col roll_bytes w prefix;
    let new_key := take (length key - 8) key ++ be_bytes 8 (u64_max - block) in
    let buffered := re_buffered w + Z.of_nat (length new_key) + Z.of_nat (length value) + BUFFERED_OVERHEAD in
    let w := mkReencoder (re_buf w ++ [(new_key, value)]) buffered (re_prefix w) (re_sink w) (re_kept w) (re_dropped w) in
    if decide (buffer_limit <> 0 /\ buffer_limit <= buffered) then
      w ← flush_prefix col roll_bytes w;
      Ok (mkReencoder (re_buf w) (re_buffered w) (re_prefix w) (finish_file (re_sink w)) (re_kept w) (re_dropped w))
    else Ok w.

Fixpoint reencode_rows (col : StorageTypeColumn) (plen : nat) (buffer_limit roll_bytes : Z) (w : Reencoder)
    (rows : list (bytes * bytes)) : Res (Error E) Reencoder :=
  match rows with
  | [] => match re_buf w with [] => Ok w | _ => flush_prefix col roll_bytes w end
  | row :: rest => w ← reencode_row col plen buffer_limit roll_bytes w row; reencode_rows col plen buffer_limit roll_bytes w rest
  end.

(** What joining a worker gives: a panic is an error. *)
Definition joined {A} (r : Res (Error E) A) : Res (Error E) A :=
  match r with Panic => Err (UnSupported "worker panicked") | _ => r end.

Definition reencode_shard (src : K) (col : StorageTypeColumn) (plen : nat) (buffer_limit roll_bytes : Z) (bounds : Z * option Z)
    : Res (Error E) (list (list WriteOp) * Z * Z) :=
  joined (
    rows ← scan_shard src col bounds;
    w ← reencode_rows col plen buffer_limit roll_bytes (mkReencoder [] 0 None new_sink 0 0) rows;
    Ok (sink_finish (re_sink w), re_kept w, re_dropped w)).

(** [reencode_versioned_cf]: the rows kept and dropped. *)
Definition reencode_versioned_cf (src : K) dk (col : StorageTypeColumn) (plen : nat) (jobs buffer_limit roll_bytes : Z)
    : Res (Error E) (Z * Z) * Disk K :=
  let! (shards, dk) := (mapM (reencode_shard src col plen buffer_limit roll_bytes) (shard_bounds jobs), dk) in
  let! (_, dk) := ingest dk col (concat (map (fun s => s.1.1) shards)) in
  (Ok (fold_right Z.add 0 (map (fun s => s.1.2) shards), fold_right Z.add 0 (map snd shards)), dk).

Definition first_byte (o : option bytes) : option Z := match o with Some (b :: _) => Some b | _ => None end.

Definition is_versioned_column (col : StorageTypeColumn) : bool :=
  match col with AddressToAccount | AddressToStorage => true | _ => false end.

Fixpoint copy_columns (src : K) dk (roll_bytes : Z) (cols : list StorageTypeColumn) : Res (Error E) unit * Disk K :=
  match cols with
  | [] => (Ok tt, dk)
  | col :: rest =>
      let! (files, dk) := (copy_column src roll_bytes col, dk) in
      let! (_, dk) := ingest dk col files in
      copy_columns src dk roll_bytes rest
  end.

(** [existing_columns]. *)
Definition existing_columns dk : list StorageTypeColumn :=
  filter (fun col => col ∈ dk_columns dk) (ARCHIVE_COLUMNS ++ [BlockNumToBlockInfo]).

(** [.expect()]. *)
Definition expect {A} (r : Res (Error E) A) : Res (Error E) A := match r with Err _ => Panic | _ => r end.

(** The columns, then the mark. *)
Definition write_reencoded (src : K) dst (cols : list StorageTypeColumn) (jobs buffer_limit : Z) : Res (Error E) unit * Disk K :=
  let! (_, dst) := copy_columns src dst REENCODE_ROLL_BYTES (filter (fun col => is_versioned_column col = false) cols) in
  let! (_, dst) := (joined (cf_handle cols AddressToAccount), dst) in
  let! (_, dst) := reencode_versioned_cf src dst AddressToAccount 32 jobs buffer_limit REENCODE_ROLL_BYTES in
  let! (_, dst) := (joined (cf_handle cols AddressToStorage), dst) in
  let! (_, dst) := reencode_versioned_cf src dst AddressToStorage 64 jobs buffer_limit REENCODE_ROLL_BYTES in
  let '(r, db) := db_write (dk_db dst) [OpPut LatestBlockHash ENCODING_MARKER_KEY [1]] in
  (rocks r, set_dk_db dst db).

(** [cores] is [available_parallelism]. The new database is opened at the end
    to compact it, which changes no content. *)
Definition reencode_legacy_to_inverted (src dst : Disk K) (cores : option Z) (jobs buffer_mb : Z) : Res (Error E) unit * Disk K :=
  let buffer_limit := Z.min (buffer_mb * (1024 * 1024)) u64_max in
  let jobs := if decide (jobs = 0) then clamp 1 16 (default 4 cores) else clamp 1 16 jobs in
  let cols := existing_columns src in
  let! (_, dst) := (rocks (db_open (dk_db src) (dk_columns src) cols false).1, dst) in
  let! (_, dst) := (cf_handle cols LatestBlockHash, dst) in
  let! (marker, dst) := (rocks (db_get (dk_db src) LatestBlockHash ENCODING_MARKER_KEY), dst) in
  if decide (first_byte marker = Some 1) then (Err (UnSupported "source archive is already inverted"), dst)
  else
    let! (_, dst) := open_columns dst cols true in
    let! (_, dst) := write_reencoded (dk_db src) dst cols jobs buffer_limit in
    let '(r, dst) := open_inner (C := C) dst false false in
    let! (d, dst) := (expect r, dst) in
    (Ok tt, close_archive dst d).

(** ** Inverted tails to timestamps *)

Inductive Task :=
| Copy (col : StorageTypeColumn)
| BlockInfos
| Versioned (col : StorageTypeColumn) (shard : nat) (bounds : Z * option Z).

Record UdtConvertReport := mkReport {
  ur_accounts : Z;
  ur_storage : Z;
  ur_other : Z;
  ur_files : Z;
}.

(** The rows of a versioned shard: the key without its tail, the block as the
    timestamp. Files roll between keys only. *)
Fixpoint convert_rows (col : StorageTypeColumn) (prev : bytes) (sink : SstSink) (rows : list (bytes * bytes))
    : Res (Error E) SstSink :=
  match rows with
  | [] => Ok sink
  | (key, value) :: rest =>
      user ← slice key 0 (prefix_len col);
      raw ← tail_number key;
      let sink := if decide (user = prev) then sink else roll_if_full (K := K) (E := E) ROLL_BYTES sink in
      let value := if decide (col = AddressToStorage) then strip_leading_zeros value else value in
      sink ← sink_append (K := K) sink (OpPutTs col user (u64_max - raw) value);
      convert_rows col user sink rest
  end.

Definition convert_shard (src : K) (col : StorageTypeColumn) (bounds : Z * option Z) : Res (Error E) (list (list WriteOp)) :=
  rows ← scan_shard src col bounds;
  sink ← convert_rows col [] new_sink rows;
  Ok (sink_finish sink).

(** What the workers have put out so far: files by column and shard, and the
    records copied of block infos. *)
Definition Output : Type := StorageTypeColumn * nat * list (list WriteOp).

Definition run_task (src : K) (src_cols : list StorageTypeColumn) dk (outputs : list Output) (infos : Z) (task : Task) : Res (Error E) (list Output * Z) * Disk K :=
  match task with
  | BlockInfos =>
      let! (index, dk) := (build src, dk) in
      let! (n, dk) := (let '(r, db) := copy_block_infos src (dk_db dk) index in (r, set_dk_db dk db)) in
      let saved := save_to crc32 (set_file index (Some (dk_index dk))) in
      (Ok (outputs, infos + n), set_dk_index dk (match ix_file saved with Some f => f | None => dk_index dk end))
  | Copy col =>
      let! (files, dk) := (copy_column src ROLL_BYTES col, dk) in
      (Ok (outputs ++ [(col, 0%nat, files)], infos), dk)
  | Versioned col shard bounds =>
      let! (_, dk) := (cf_handle src_cols col, dk) in
      let! (files, dk) := (convert_shard src col bounds, dk) in
      (Ok (outputs ++ [(col, shard, files)], infos), dk)
  end.

Fixpoint run_tasks (src : K) (src_cols : list StorageTypeColumn) dk (outputs : list Output) (infos : Z) (tasks : list Task)
    : Res (Error E) (list Output * Z) * Disk K :=
  match tasks with
  | [] => (Ok (outputs, infos), dk)
  | task :: rest =>
      let! (r, dk) := (let '(r, dk) := run_task src src_cols dk outputs infos task in (joined r, dk)) in
      run_tasks src src_cols dk r.1 r.2 rest
  end.

(** The order of [sort_by_key(|(col, shard, _)| (col as u16, shard))]. *)
Definition output_le (a b : Output) : Prop :=
  column_number a.1.1 < column_number b.1.1 \/ (column_number a.1.1 = column_number b.1.1 /\ (a.1.2 <= b.1.2)%nat).

#[export] Instance output_le_dec a b : Decision (output_le a b).
Proof. unfold output_le. apply _. Defined.

(** The files of one column. *)
Definition files_of (outputs : list Output) (col : StorageTypeColumn) : list (list WriteOp) :=
  concat (map snd (filter (fun o : Output => o.1.1 = col) outputs)).

Fixpoint ingest_columns dk (outputs : list Output) (cols : list StorageTypeColumn) : Res (Error E) unit * Disk K :=
  match cols with
  | [] => (Ok tt, dk)
  | col :: rest => let! (_, dk) := ingest dk col (files_of outputs col) in ingest_columns dk outputs rest
  end.

Definition disk_empty dk : bool :=
  bool_decide (dk_columns dk = []) && bool_decide (dk_index dk = None) && bool_decide (dk_schema dk = None).

(** The shards of a versioned column, numbered. *)
Definition versioned_tasks (jobs : Z) (col : StorageTypeColumn) : list Task :=
  imap (fun shard bounds => Versioned col shard bounds) (shard_bounds (4 * jobs)).

Definition convert_tasks (jobs : Z) (move_infos : bool) (src_cols : list StorageTypeColumn) : list Task :=
  (if move_infos then [BlockInfos] else []) ++
  versioned_tasks jobs AddressToStorage ++ versioned_tasks jobs AddressToAccount ++
  map Copy (filter (fun col => ~ (move_infos = true /\ col = BlockHashToBlockInfo) /\ is_versioned_column col = false) src_cols).

Definition convert_columns (move_infos : bool) (src_cols : list StorageTypeColumn) : list StorageTypeColumn :=
  if move_infos then
    filter (fun col => col <> BlockHashToBlockInfo) src_cols ++
    (if decide (BlockNumToBlockInfo ∈ src_cols) then [] else [BlockNumToBlockInfo])
  else src_cols.

Definition column_records (outputs : list Output) (col : StorageTypeColumn) : Z :=
  Z.of_nat (length (concat (files_of outputs col))).

(** [convert_inverted_to_udt]. The reports of records written are the rows of
    the files, and the block infos moved. *)
Definition convert_inverted_to_udt (src dst : Disk K) (jobs : Z) : Res (Error E) UdtConvertReport * Disk K :=
  if negb (disk_empty dst) then (Err (UnSupported "destination is not empty"), dst)
  else
    let jobs := clamp 1 64 jobs in
    let src_cols := existing_columns src in
    let! (_, dst) := (rocks (db_open (dk_db src) (dk_columns src) src_cols false).1, dst) in
    let! (_, dst) := (cf_handle src_cols LatestBlockHash, dst) in
    let! (marker, dst) := (rocks (db_get (dk_db src) LatestBlockHash ENCODING_MARKER_KEY), dst) in
    if decide (first_byte marker <> Some 1) then (Err (UnSupported "source must be a v2 archive"), dst)
    else
      let move_infos := block_index_enabled && bool_decide (BlockHashToBlockInfo ∈ src_cols) in
      let cols := convert_columns move_infos src_cols in
      let! (_, dst) := open_columns dst cols true in
      let! (r, dst) := run_tasks (dk_db src) src_cols dst [] 0 (convert_tasks jobs move_infos src_cols) in
      let outputs := merge_sort output_le r.1 in
      let! (_, dst) := ingest_columns dst outputs cols in
      let other := fold_right Z.add r.2 (map (column_records outputs) (filter (fun col => is_versioned_column col = false) cols)) in
      (Ok (mkReport (column_records outputs AddressToAccount) (column_records outputs AddressToStorage) other
         (fold_right Z.add 0 (map (fun col => Z.of_nat (length (files_of outputs col))) cols))),
       mkDisk (dk_db dst) (dk_columns dst) (dk_index dst) (Some SCHEMA_V3)).
End migrate.
