(* ===== verification/MigrateFacts.v ===== *)
(** * Offline conversions: shards, files and rows

    The shards of [shard_bounds] split the keys; a sink writes sorted rows to
    sorted files, in order; ingesting files puts their rows; and the worker of
    [reencode_versioned_cf] writes each version once, with its tail inverted,
    whatever its buffer. *)

From stdpp Require Import prelude gmap list sorting strings.
From S2P Require Import Prelude Types QuickCache KvStore MemKv ArchiveEncoding StateCache BlockIndex BlockIndexStore.
From S2P Require Import Archive ArchiveReads ArchiveWrite ArchiveDisk Migrate.

#[local] Open Scope Z_scope.
#[local] Open Scope state_scope.

(** ** Shards *)

Lemma clamp_bounds lo hi z : lo <= hi -> lo <= clamp lo hi z <= hi.
Proof. unfold clamp. lia. Qed.

Lemma shard_lookup jobs i b :
  shard_bounds jobs !! i = Some b <->
  let n := clamp 1 256 jobs in
  Z.of_nat i < n /\ b = (Z.of_nat i * 256 / n,
    if decide (256 <= (Z.of_nat i + 1) * 256 / n) then None else Some ((Z.of_nat i + 1) * 256 / n)).
Proof.
  pose proof (clamp_bounds 1 256 jobs ltac:(lia)) as Hn. unfold shard_bounds. set (n := clamp 1 256 jobs) in *.
  match goal with |- context [map ?f ?l] => change (map f l) with (f <$> l) end. rewrite list_lookup_fmap. destruct (decide (i < Z.to_nat n)%nat) as [Hi|Hi].
  - rewrite lookup_seq_lt by done. cbn [fmap option_fmap option_map]. split; [intros [= <-]|intros [_ ->]; done]. split; [lia|done].
  - rewrite lookup_seq_ge by lia. split; [done|]. intros [? _]. lia.
Qed.

Lemma head_shard b x k : is_u8 x ->
  in_shard b (x :: k) <-> b.1 <= x /\ match b.2 with Some hi => x < hi | None => True end.
Proof.
  intros Hx. destruct b as [lo hi]. unfold in_shard, before. cbn [fst snd].
  assert (([lo] ≤ x :: k)%bytes <-> lo <= x) as ->.
  { unfold bytes_le. cbn. destruct (Z.compare_spec lo x); [|split; [lia|done]|split; [done|lia]].
    split; [lia|]. by destruct k. }
  destruct hi as [hi|]; cbn [option_map]; [|tauto].
  assert ((x :: k < [hi])%bytes <-> x < hi) as ->; [|done].
  unfold bytes_lt. cbn. destruct (Z.compare_spec x hi); [|split; [lia|done]|split; [done|lia]].
  split; [|lia]. by destruct k.
Qed.

(** Every key is in a shard, and in one only. *)
Lemma shards_cover jobs k : k <> [] -> Forall is_u8 k -> exists i b, shard_bounds jobs !! i = Some b /\ in_shard b k.
Proof.
  intros Hne Hk. destruct k as [|x k]; [done|]. inversion Hk as [|? ? Hx _]; subst. unfold is_u8, u8_max in Hx.
  pose proof (clamp_bounds 1 256 jobs ltac:(lia)) as Hn. set (n := clamp 1 256 jobs) in *.
  set (i := ((x + 1) * n - 1) / 256).
  assert (Hi : 256 * i <= (x + 1) * n - 1 < 256 * i + 256).
  { unfold i. pose proof (Z.div_mod ((x + 1) * n - 1) 256 ltac:(lia)). pose proof (Z.mod_pos_bound ((x + 1) * n - 1) 256 ltac:(lia)). lia. }
  assert (Hi0 : 0 <= i) by nia. exists (Z.to_nat i). eexists. split.
  - apply shard_lookup. fold n. split; [nia|done].
  - apply head_shard; [unfold is_u8, u8_max; lia|]. cbn [fst snd]. fold n. rewrite Z2Nat.id by done. split.
    + apply Z.lt_succ_r, Z.div_lt_upper_bound; nia.
    + case_decide; [done|]. assert (x + 1 <= (i + 1) * 256 / n) by (apply Z.div_le_lower_bound; nia). lia.
Qed.

Lemma shards_apart jobs i j b b' k :
  shard_bounds jobs !! i = Some b -> shard_bounds jobs !! j = Some b' -> k <> [] -> Forall is_u8 k ->
  in_shard b k -> in_shard b' k -> i = j.
Proof.
  intros Hi Hj Hne Hk Hb Hb'. destruct k as [|x k]; [done|]. inversion Hk as [|? ? Hx _]; subst.
  apply head_shard in Hb as [Hlo Hhi]; [|done]. apply head_shard in Hb' as [Hlo' Hhi']; [|done].
  apply shard_lookup in Hi as [Hin ->]. apply shard_lookup in Hj as [Hjn ->]. cbn [fst snd] in *.
  pose proof (clamp_bounds 1 256 jobs ltac:(lia)) as Hn. set (n := clamp 1 256 jobs) in *. unfold is_u8, u8_max in Hx.
  assert (Hmono : forall a c, (a < c)%nat -> x < (Z.of_nat a + 1) * 256 / n \/ 256 <= (Z.of_nat a + 1) * 256 / n -> Z.of_nat c * 256 / n <= x -> False).
  { intros a c Hac Hx' Hc. assert ((Z.of_nat a + 1) * 256 / n <= Z.of_nat c * 256 / n) by (apply Z.div_le_mono; nia).
    lia. }
  destruct (lt_eq_lt_dec i j) as [[Hlt|Heq]|Hlt]; [|done|]; exfalso.
  - apply (Hmono i j Hlt); [|done]. destruct (decide (256 <= (Z.of_nat i + 1) * 256 / n)); [by right|by left].
  - apply (Hmono j i Hlt); [|done]. destruct (decide (256 <= (Z.of_nat j + 1) * 256 / n)); [by right|by left].
Qed.

(** ** Sinks *)

Lemma row_lt_trans a b c : row_lt a b -> row_lt b c -> row_lt a c.
Proof.
  unfold row_lt. intros [Hk|[Hk Ht]] [Hk'|[Hk' Ht']].
  - left. by eapply bytes_lt_trans.
  - left. by rewrite <- Hk'.
  - left. by rewrite Hk.
  - right. split; [congruence|lia].
Qed.

Lemma row_lt_irrefl a : ~ row_lt a a.
Proof. intros [Hk|[_ Ht]]; [by apply bytes_lt_irrefl in Hk|lia]. Qed.

(** A finished file. *)
Definition file_ok (f : list WriteOp) : Prop := f <> [] /\ StronglySorted row_lt f.

Section sinks.
Context {K E : Type} `{RocksDBSpec K} `{!RocksDBAdmin K E} `{!RocksDBAdminOk K E}.

(** The rows of the open file, and all that a sink was given. *)
Definition open_rows (s : SstSink) : list WriteOp := default [] (sk_writer s).
Definition sink_rows (s : SstSink) : list WriteOp := concat (sk_paths s) ++ open_rows s.

Definition sink_ok (s : SstSink) : Prop := Forall file_ok (sk_paths s) /\ StronglySorted row_lt (open_rows s).

Lemma finish_file_ok s : sink_ok s -> sink_ok (finish_file s) /\ sink_rows (finish_file s) = sink_rows s /\ sk_writer (finish_file s) = None.
Proof.
  intros [Hf Hw]. unfold finish_file, sink_ok, sink_rows, open_rows in *.
  destruct (sk_writer s) as [[|row rows]|] eqn:Hs; cbn [sk_writer sk_paths default from_option] in *.
  - split; [split; [done|constructor]|done].
  - split; [|split; [|done]].
    + split; [|constructor]. apply Forall_app. split; [done|]. constructor; [|constructor]. by split.
    + by rewrite concat_app, app_nil_r; cbn [concat]; rewrite app_nil_r.
  - split; [split; [done|constructor]|done].
Qed.

Lemma sorted_snoc l row : StronglySorted row_lt l -> (forall r, r ∈ l -> row_lt r row) -> StronglySorted row_lt (l ++ [row]).
Proof.
  intros Hl Hr. apply StronglySorted_app. split_and!; [|done|repeat constructor].
  intros x y Hx ->%list_elem_of_singleton. by apply Hr.
Qed.

Lemma sink_append_ok s row :
  sink_ok s -> (forall r, r ∈ open_rows s -> row_lt r row) ->
  exists s', sink_append (K := K) (E := E) s row = Ok s' /\ sink_ok s' /\ sink_rows s' = sink_rows s ++ [row] /\
    open_rows s' = open_rows s ++ [row] /\ sk_paths s' = sk_paths s.
Proof.
  intros [Hf Hw] Hr. unfold sink_append. fold (open_rows s). rewrite rk_sst_put by done. cbn [rocks]. rewrite res_bind_ok.
  eexists. split; [done|]. split; [split; [done|by apply sorted_snoc]|]. split; [|done].
  unfold sink_rows, open_rows. cbn [sk_paths sk_writer default from_option id]. by rewrite (assoc_L (++)).
Qed.

Lemma roll_if_full_ok roll s :
  sink_ok s -> let s' := roll_if_full (K := K) (E := E) roll s in
  sink_ok s' /\ sink_rows s' = sink_rows s /\ (open_rows s' = open_rows s \/ open_rows s' = []).
Proof.
  intros Hs. cbn zeta. unfold roll_if_full. destruct (sk_writer s) as [rows|] eqn:Hw; [|by auto]. case_decide; [|by auto].
  destruct (finish_file_ok s Hs) as (? & ? & Hn). split_and!; try done. right. unfold open_rows. by rewrite Hn.
Qed.

Lemma sink_puts_ok roll rows : forall s,
  sink_ok s -> StronglySorted row_lt rows -> (forall r r', r ∈ open_rows s -> r' ∈ rows -> row_lt r r') ->
  exists s', sink_puts (K := K) (E := E) roll s rows = Ok s' /\ sink_ok s' /\ sink_rows s' = sink_rows s ++ rows /\
    forall r, r ∈ open_rows s' -> r ∈ open_rows s \/ r ∈ rows.
Proof.
  induction rows as [|row rows IH]; intros s Hs Hrows Hlt; cbn [sink_puts].
  - exists s. rewrite app_nil_r. split_and!; auto.
  - inversion Hrows as [|? ? Hsorted Hall]; subst. rewrite Forall_forall in Hall. unfold sink_put.
    destruct (sink_append_ok s row Hs) as (s1 & -> & Hs1 & Hr1 & Ho1 & _); [intros r Hr; apply Hlt; [done|by left]|].
    rewrite !res_bind_ok. destruct (roll_if_full_ok roll s1 Hs1) as (Hs2 & Hr2 & Ho2).
    set (s2 := roll_if_full roll s1) in *.
    assert (Hopen : forall r, r ∈ open_rows s2 -> r ∈ open_rows s \/ r = row).
    { intros r Hr. destruct Ho2 as [Ho2|Ho2]; rewrite Ho2 in Hr; [|by apply elem_of_nil in Hr].
      rewrite Ho1 in Hr. apply elem_of_app in Hr as [?|?%list_elem_of_singleton]; auto. }
    destruct (IH s2 Hs2 Hsorted) as (s' & Heq & Hs' & Hr' & Ho').
    { intros r r' Hr Hr'. destruct (Hopen r Hr) as [Hin| ->]; [apply Hlt; [done|by right]|by apply Hall]. }
    exists s'. split; [done|]. split; [done|]. split; [by rewrite Hr', Hr2, Hr1, <- (assoc_L (++))|].
    intros r Hr. destruct (Ho' r Hr) as [Hin|Hin]; [|right; by right]. destruct (Hopen r Hin) as [?| ->]; [by left|right; by left].
Qed.

Lemma sink_finish_ok s : sink_ok s -> Forall file_ok (sink_finish s) /\ concat (sink_finish s) = sink_rows s.
Proof.
  intros Hs. destruct (finish_file_ok s Hs) as ([Hf _] & Hr & Hw). split; [done|].
  rewrite <- Hr. unfold sink_finish, sink_rows, open_rows. rewrite Hw. cbn. by rewrite app_nil_r.
Qed.

Lemma new_sink_ok : sink_ok new_sink.
Proof. split; constructor. Qed.
End sinks.

(** ** Ingesting files *)

Lemma elem_of_concat {A} (x : A) ls : x ∈ concat ls <-> exists l, x ∈ l /\ l ∈ ls.
Proof.
  rewrite list_elem_of_In, in_concat. split; intros (l & H1 & H2); exists l; by rewrite ?list_elem_of_In in *.
Qed.

Definition is_put (op : WriteOp) : Prop := exists c, row_in c op.

Lemma fold_puts_out c k ops : forall old, Forall is_put ops -> (forall v, ~ OpPut c k v ∈ ops) ->
  fold_left (op_contents c k) ops old = old.
Proof.
  induction ops as [|op ops IH]; intros old Hput Hno; [done|]. inversion Hput as [|? ? [c' Hc'] Hput']; subst. cbn [fold_left].
  rewrite IH; [|done|intros v Hv; apply (Hno v); by right]. destruct op as [c0 k0 v0|c0 k0 ts v0| |]; cbn in *; try done.
  case_decide as Hd; [|done]. destruct Hd as [-> ->]. exfalso. apply (Hno v0). by left.
Qed.

Lemma fold_puts_in c k v ops : forall old, Forall is_put ops -> OpPut c k v ∈ ops -> (forall v', OpPut c k v' ∈ ops -> v' = v) ->
  fold_left (op_contents c k) ops old = Some v.
Proof.
  induction ops as [|op ops IH]; intros old Hput Hin Huniq; [by apply elem_of_nil in Hin|].
  inversion Hput as [|? ? Hop Hput']; subst. cbn [fold_left].
  destruct (decide (OpPut c k v ∈ ops)) as [Hin'|Hin']; [apply IH; [done..|intros v' Hv'; apply Huniq; by right]|].
  apply elem_of_cons in Hin as [<-|?]; [|done]. rewrite fold_puts_out; [cbn; by rewrite decide_True|done|].
  intros v' Hv'. assert (v' = v) as -> by (apply Huniq; by right). done.
Qed.

Lemma fold_versions_out c k ts ops : forall old, Forall is_put ops -> (forall v, ~ OpPutTs c k ts v ∈ ops) ->
  fold_left (op_versions c k ts) ops old = old.
Proof.
  induction ops as [|op ops IH]; intros old Hput Hno; [done|]. inversion Hput as [|? ? [c' Hc'] Hput']; subst. cbn [fold_left].
  rewrite IH; [|done|intros v Hv; apply (Hno v); by right]. destruct op as [c0 k0 v0|c0 k0 ts0 v0| |]; cbn in *; try done.
  case_decide as Hd; [|done]. destruct Hd as (-> & -> & ->). exfalso. apply (Hno v0). by left.
Qed.

Lemma fold_versions_in c k ts v ops : forall old,
  Forall is_put ops -> OpPutTs c k ts v ∈ ops -> (forall v', OpPutTs c k ts v' ∈ ops -> v' = v) ->
  fold_left (op_versions c k ts) ops old = Some v.
Proof.
  induction ops as [|op ops IH]; intros old Hput Hin Huniq; [by apply elem_of_nil in Hin|].
  inversion Hput as [|? ? Hop Hput']; subst. cbn [fold_left].
  destruct (decide (OpPutTs c k ts v ∈ ops)) as [Hin'|Hin']; [apply IH; [done..|intros v' Hv'; apply Huniq; by right]|].
  apply elem_of_cons in Hin as [<-|?]; [|done]. rewrite fold_versions_out; [cbn; by rewrite decide_True|done|].
  intros v' Hv'. assert (v' = v) as -> by (apply Huniq; by right). done.
Qed.

(** Versions put once, where there was none. *)
Lemma fold_versions_iff c k ts v ops :
  Forall is_put ops -> (forall v v', OpPutTs c k ts v ∈ ops -> OpPutTs c k ts v' ∈ ops -> v = v') ->
  fold_left (op_versions c k ts) ops None = Some v <-> OpPutTs c k ts v ∈ ops.
Proof.
  intros Hput Huniq. split; [|intros Hin; by apply fold_versions_in; [..|intros v' Hv'; eapply Huniq]].
  intros Hf. set (here r := match r with OpPutTs c' k' ts' _ => bool_decide (c' = c /\ k' = k /\ ts' = ts) | _ => false end).
  destruct (decide (Exists (fun r => here r = true) ops)) as [(r & Hr & Heq)%Exists_exists|Hno].
  - destruct r as [|c' k' ts' v'| |]; try done. apply bool_decide_eq_true in Heq as (-> & -> & ->).
    rewrite (fold_versions_in c k ts v') in Hf; [congruence|done..|intros v2 Hv2; by eapply Huniq].
  - rewrite fold_versions_out in Hf; [done..|]. intros v' Hv'. apply Hno, Exists_exists. eexists. split; [done|].
    cbn. by apply bool_decide_eq_true.
Qed.

(** Files of one column that can be ingested together. *)
Definition files_ok (col : StorageTypeColumn) (files : list (list WriteOp)) : Prop :=
  Forall (fun f => file_ok f /\ Forall (row_in col) f) files /\
  forall i j f g, i <> j -> files !! i = Some f -> files !! j = Some g ->
    rows_apart f g \/ forall r, r ∈ f ++ g -> exists k v, r = OpPut col k v.

Lemma files_puts col files : files_ok col files -> Forall is_put (concat files).
Proof.
  intros [Hf _]. apply Forall_concat. eapply Forall_impl; [exact Hf|]. intros f [_ Hr].
  eapply Forall_impl; [exact Hr|]. intros op Hop. by exists col.
Qed.

Section ingesting.
Context {K E : Type} `{RocksDBOk K E} `{!RocksDBAdmin K E} `{!RocksDBAdminOk K E}.

Lemma ingest_ok (dk : Disk K) col files :
  kv_ok (dk_db dk) -> files_ok col files ->
  exists db', ingest (E := E) dk col files = (Ok tt, set_dk_db dk db') /\ kv_ok db' /\
    (forall c k, kv_contents db' c k = fold_left (op_contents c k) (concat files) (kv_contents (dk_db dk) c k)) /\
    (forall c k ts, kv_versions db' c k ts = fold_left (op_versions c k ts) (concat files) (kv_versions (dk_db dk) c k ts)).
Proof.
  intros Hkv [Hf Hap]. unfold ingest. destruct files as [|f fs] eqn:Hfs; [exists (dk_db dk); by destruct dk|]. rewrite <- Hfs in *.
  destruct (rk_ingest (dk_db dk) col files Hkv) as (db' & -> & Hkv' & Hcon & Hver); [|done|by exists db'].
  eapply Forall_impl; [exact Hf|]. by intros g [[? ?] ?].
Qed.

(** Rows of other columns are left. *)
Lemma ingest_other col files c k old : files_ok col files -> c <> col -> fold_left (op_contents c k) (concat files) old = old.
Proof.
  intros Hf Hc. apply fold_puts_out; [by eapply files_puts|]. intros v (f & Hv & Hin)%elem_of_concat.
  destruct Hf as [Hf _]. rewrite Forall_forall in Hf. destruct (Hf f Hin) as [_ Hr]. rewrite Forall_forall in Hr. by apply Hc, (Hr _ Hv).
Qed.

Lemma ingest_other_versions col files c k ts old :
  files_ok col files -> c <> col -> fold_left (op_versions c k ts) (concat files) old = old.
Proof.
  intros Hf Hc. apply fold_versions_out; [by eapply files_puts|]. intros v (f & Hv & Hin)%elem_of_concat.
  destruct Hf as [Hf _]. rewrite Forall_forall in Hf. destruct (Hf f Hin) as [_ Hr]. rewrite Forall_forall in Hr. by apply Hc, (Hr _ Hv).
Qed.

(** *** Copying a column *)

Lemma sorted_puts col (rows : list (bytes * bytes)) :
  StronglySorted bytes_lt rows.*1 -> StronglySorted row_lt (map (fun kv => OpPut col kv.1 kv.2) rows).
Proof.
  induction rows as [|[k v] rows IH]; cbn; [constructor|]. intros Hs. inversion Hs as [|? ? Hs' Hall]; subst. constructor; [auto|].
  apply Forall_map, Forall_forall. intros [k' v'] Hin. left. cbn. rewrite Forall_forall in Hall. apply Hall.
  by apply (list_elem_of_fmap_2 fst) in Hin.
Qed.

Lemma plain_files_ok col files :
  Forall file_ok files -> (forall r, r ∈ concat files -> exists k v, r = OpPut col k v) -> files_ok col files.
Proof.
  intros Hf Hr. assert (Hin : forall f r, f ∈ files -> r ∈ f -> exists k v, r = OpPut col k v)
    by (intros f r Hf' Hr'; apply Hr, elem_of_concat; eauto). split.
  - rewrite Forall_forall in Hf |- *. intros f Hf'. split; [auto|]. apply Forall_forall. intros r Hr'.
    destruct (Hin f r Hf' Hr') as (k & v & ->). done.
  - intros i j f g _ Hi Hj. right. intros r [Hr'|Hr']%elem_of_app; [apply (Hin f)|apply (Hin g)]; try done; by eapply list_elem_of_lookup_2.
Qed.

Lemma copy_column_ok src roll col :
  kv_ok src -> exists files, copy_column (E := E) src roll col = Ok files /\ files_ok col files /\
    forall r, r ∈ concat files <-> exists k v, kv_contents src col k = Some v /\ r = OpPut col k v.
Proof.
  intros Hkv. unfold copy_column. destruct (rk_iter src col Hkv) as (rows & -> & Hs & Hrows). cbn [rocks]. rewrite res_bind_ok.
  destruct (sink_puts_ok (K := K) (E := E) roll (map (fun kv => OpPut col kv.1 kv.2) rows) new_sink) as (s & -> & Hok & Hr & _);
    [apply new_sink_ok|by apply sorted_puts|intros r r' Hr; by apply elem_of_nil in Hr|].
  rewrite res_bind_ok. destruct (sink_finish_ok s Hok) as [Hf Hc]. rewrite Hr in Hc. cbn in Hc.
  eexists. split; [done|]. split.
  - apply plain_files_ok; [done|]. rewrite Hc. intros r ([k v] & -> & _)%list_elem_of_fmap. eauto.
  - intros r. rewrite Hc. split.
    + intros ([k v] & -> & Hin)%list_elem_of_fmap. exists k, v. split; [by apply Hrows|done].
    + intros (k & v & Hk & ->). apply list_elem_of_fmap. exists (k, v). split; [done|by apply Hrows].
Qed.

(** Plain rows ingested into an empty column become its contents. *)
Definition takes_rows (db db' : K) (col : StorageTypeColumn) (row : bytes -> bytes -> Prop) : Prop :=
  kv_ok db' /\ (forall k v, kv_contents db' col k = Some v <-> row k v) /\
  (forall c k, c <> col -> kv_contents db' c k = kv_contents db c k) /\
  (forall c k ts, kv_versions db' c k ts = kv_versions db c k ts).

Lemma db_ingest_plain (db : K) col files row :
  kv_ok db -> (forall k, kv_contents db col k = None) -> files_ok col files ->
  (forall r, r ∈ concat files <-> exists k v, row k v /\ r = OpPut col k v) -> (forall k v v', row k v -> row k v' -> v = v') ->
  exists db', db_ingest db col files = (Ok tt, db') /\ takes_rows db db' col row.
Proof.
  intros Hkv Hnew Hf Hrows Huniq. pose proof Hf as [Hff Hap].
  destruct (rk_ingest db col files Hkv) as (db' & -> & Hkv' & Hcon & Hver); [|done|].
  { eapply Forall_impl; [exact Hff|]. by intros g [[? ?] ?]. }
  exists db'. split; [done|]. pose proof (files_puts _ _ Hf) as Hputs.
  assert (Hin : forall k v, OpPut col k v ∈ concat files <-> row k v).
  { intros k v. rewrite Hrows. split; [intros (k' & v' & Hr & Heq); congruence|eauto]. }
  split; [done|]. split; [|split].
  - intros k v. rewrite Hcon. split.
    + intros Hk. apply Hin. destruct (decide (OpPut col k v ∈ concat files)) as [|Hno]; [done|exfalso].
      destruct (decide (Exists (fun r => row_key r = k) (concat files))) as [(r & Hr & Hrk)%Exists_exists|Hnone].
      * pose proof Hr as (k' & v' & Hrow & ->)%Hrows. cbn in Hrk. subst k'.
        rewrite (fold_puts_in col k v') in Hk; [|done..|intros v2 Hv2%Hin; by eapply Huniq]. congruence.
      * rewrite fold_puts_out, Hnew in Hk; [done..|]. intros v' Hv'. apply Hnone, Exists_exists. by eexists.
    + intros Hrow. apply fold_puts_in; [done|by apply Hin|]. intros v' Hv'%Hin. by eapply Huniq.
  - intros c k Hc. rewrite Hcon. by apply (ingest_other col).
  - intros c k ts. rewrite Hver. apply fold_versions_out; [done|]. intros v (k' & v' & _ & [=])%Hrows.
Qed.

Lemma takes_none (db : K) col row :
  kv_ok db -> (forall k, kv_contents db col k = None) -> (forall k v, ~ row k v) -> takes_rows db db col row.
Proof. intros Hkv Hnew Hno. split; [done|]. split; [|done]. intros k v. rewrite Hnew. split; [done|]. by intros ?%Hno. Qed.

Lemma ingest_plain_ok (dk : Disk K) col files row :
  kv_ok (dk_db dk) -> (forall k, kv_contents (dk_db dk) col k = None) -> files_ok col files ->
  (forall r, r ∈ concat files <-> exists k v, row k v /\ r = OpPut col k v) -> (forall k v v', row k v -> row k v' -> v = v') ->
  exists db', ingest (E := E) dk col files = (Ok tt, set_dk_db dk db') /\ takes_rows (dk_db dk) db' col row.
Proof.
  intros Hkv Hnew Hf Hrows Huniq. destruct (db_ingest_plain (dk_db dk) col files row Hkv Hnew Hf Hrows Huniq) as (db' & Hing & Ht).
  unfold ingest. destruct files as [|f fs] eqn:Hfs; [|rewrite Hing; by exists db'].
  exists (dk_db dk). split; [by destruct dk|]. apply takes_none; [done..|]. intros k v Hr.
  assert (Hnil : OpPut col k v ∈ concat (@nil (list WriteOp))) by (apply Hrows; eauto). by apply elem_of_nil in Hnil.
Qed.
End ingesting.
