(* ===== verification/MoveInfos.v ===== *)
(** * Moving block infos from CF 2 to CF 7: correctness

    When an archive whose block infos are by hash is opened with the block
    index on, [copy_block_infos] writes those of the canonical blocks, in
    chunks sorted by number, into CF 7. If every canonical block has its info
    and the index tells forks from canonical blocks ([movable]), all of them
    are moved, and the archive opens with the same blocks and states. *)

From stdpp Require Import prelude gmap list sorting strings.
From S2P Require Import Prelude Types QuickCache Backend KvStore MemKv ArchiveEncoding StateCache BlockIndex.
From S2P Require Import BlockIndexFacts BlockIndexStore BlockIndexRun BlockIndexTheorems Archive ArchiveReads ArchiveSlots.
From S2P Require Import ArchiveWrite ArchiveCommit Wrapper WrapperFacts ArchiveBackend ArchiveUpdate ArchiveStore.
From S2P Require Import ArchiveDisk ArchiveOpen Migrate MigrateFacts.

#[local] Open Scope Z_scope.
#[local] Open Scope state_scope.

(** ** A chunk *)

#[local] Instance number_le_trans : Transitive number_le.
Proof. intros a b c. unfold number_le. lia. Qed.

#[local] Instance number_le_total : Total number_le.
Proof. intros a b. unfold number_le. lia. Qed.

Definition number_lt (a b : u64 * bytes) : Prop := a.1 < b.1.

(** Distinct numbers, sorted, are strictly so. *)
Lemma chunk_sorted (chunk : list (u64 * bytes)) : NoDup chunk.*1 -> StronglySorted number_lt (merge_sort number_le chunk).
Proof.
  intros Hnd. pose proof (StronglySorted_merge_sort number_le chunk) as Hs.
  assert (Hnd' : NoDup (merge_sort number_le chunk).*1) by (by rewrite merge_sort_Permutation).
  clear Hnd. induction Hs as [|x l Hs IH Hx]; [constructor|]. inversion Hnd' as [|? ? Hni Hnd]; subst. constructor; [auto|].
  rewrite Forall_forall in Hx |- *. intros y Hy. pose proof (Hx y Hy) as Hle. unfold number_le, number_lt in *.
  assert (x.1 <> y.1); [|lia]. intros Heq. apply Hni. rewrite Heq. by apply (list_elem_of_fmap_2 fst).
Qed.

Lemma dedup_strict chunk : forall last,
  StronglySorted number_lt chunk -> (forall n e, last = Some n -> e ∈ chunk -> n < e.1) -> dedup_numbers last chunk = chunk.
Proof.
  induction chunk as [|[n r] chunk IH]; intros last Hs Hlast; [done|]. cbn [dedup_numbers]. inversion Hs as [|? ? Hs' Hx]; subst.
  rewrite decide_False by (intros ->; pose proof (Hlast n (n, r) eq_refl ltac:(by left)); cbn in *; lia).
  f_equal. apply IH; [done|]. intros m e [= <-] He. rewrite Forall_forall in Hx. by apply (Hx e).
Qed.

Definition info_row (e : u64 * bytes) : WriteOp := OpPut BlockNumToBlockInfo (index_key e.1) e.2.

Lemma index_key_lt n m : is_u64 n -> is_u64 m -> n < m -> (index_key n < index_key m)%bytes.
Proof.
  intros Hn Hm Hlt. unfold bytes_lt, index_key. rewrite be_bytes_cmp by (by apply is_u64_pow). by apply Z.compare_lt_iff.
Qed.

Lemma info_rows_sorted l : StronglySorted number_lt l -> Forall (fun e => is_u64 e.1) l -> StronglySorted row_lt (map info_row l).
Proof.
  induction 1 as [|x l Hs IH Hx]; intros Hu; [constructor|]. inversion Hu as [|? ? Hux Hul]; subst. cbn [map]. constructor; [auto|].
  apply Forall_forall. intros r (y & -> & Hy)%list_elem_of_fmap. left. cbn. rewrite Forall_forall in Hx. rewrite Forall_forall in Hul.
  apply index_key_lt; [done|auto|by apply Hx].
Qed.

Section move.
Context {K E : Type} `{RocksDBOk K E} {C : Type -> Type -> Type} `{QuickCacheOk C}.
Context `{SlimCodecOk} `{BlockCodecOk E} `{ArchiveConfig} `{RevmBytecode}.
Context `{!RocksDBAdmin K E} `{!RocksDBAdminOk K E} `{ArchiveEnv}.

Lemma put_rows_ok rows : forall file, StronglySorted row_lt (file ++ rows) -> put_rows (K := K) (E := E) file rows = Ok (file ++ rows).
Proof.
  induction rows as [|row rows IH]; intros file Hs; cbn [put_rows]; [by rewrite app_nil_r|].
  rewrite rk_sst_put; [|apply StronglySorted_app in Hs as (Hlt & _ & _); intros r Hr; apply Hlt; [done|by left]].
  cbn [rocks]. rewrite res_bind_ok, IH by (by rewrite <- (assoc_L (++))). by rewrite <- (assoc_L (++)).
Qed.

Lemma write_chunk_ok chunk :
  NoDup chunk.*1 -> Forall (fun e => is_u64 e.1) chunk ->
  exists file, write_chunk (K := K) (E := E) chunk = Ok file /\ file ≡ₚ map info_row chunk /\ StronglySorted row_lt file.
Proof.
  intros Hnd Hu. pose proof (chunk_sorted chunk Hnd) as Hs. unfold write_chunk.
  rewrite dedup_strict; [|done|by intros]. change (fun e : Z * list Z => OpPut BlockNumToBlockInfo (index_key e.1) e.2) with info_row.
  assert (Hu' : Forall (fun e => is_u64 e.1) (merge_sort number_le chunk)) by (by rewrite merge_sort_Permutation).
  pose proof (info_rows_sorted _ Hs Hu') as Hsr. rewrite put_rows_ok by done. eexists. split; [done|]. cbn [app].
  split; [by rewrite merge_sort_Permutation|done].
Qed.

(** What the loop makes of a row of CF 2: its entry, if it is canonical. *)
Definition row_entry (index : BlockIndex) (row : bytes * bytes) (o : option (u64 * bytes)) : Prop :=
  exists hash number canonical, h256_from_slice (E := E) row.1 = Ok hash /\ header_number (E := E) false row.2 = Ok number /\
    index_contains index hash number = Some canonical /\ o = if canonical : bool then Some (number, index_record hash row.2) else None.

Lemma chunk_file chunk file : chunk <> [] -> file ≡ₚ map info_row chunk -> StronglySorted row_lt file -> file_ok file.
Proof. intros Hne Hp Hs. split; [|done]. intros ->. apply Permutation_nil in Hp. by destruct chunk. Qed.

Lemma copy_rows_ok index rows : forall entries chunk chunk_bytes files,
  Forall2 (row_entry index) rows entries -> NoDup (chunk ++ omap id entries).*1 -> Forall (fun e => is_u64 e.1) (chunk ++ omap id entries) ->
  exists files', copy_rows (K := K) (E := E) index rows chunk chunk_bytes files = Ok (files ++ files') /\ Forall file_ok files' /\
    concat files' ≡ₚ map info_row (chunk ++ omap id entries).
Proof.
  induction rows as [|[k v] rows IH]; intros entries chunk chunk_bytes files Hr Hnd Hu; inversion Hr as [|? o ? os Ho Hos]; subst; cbn [copy_rows].
  - cbn [omap list_omap]. rewrite app_nil_r in *. destruct chunk as [|e chunk0] eqn:Hch; [exists []; by rewrite app_nil_r|]. rewrite <- Hch in *.
    destruct (write_chunk_ok chunk Hnd Hu) as (file & -> & Hp & Hs). rewrite res_bind_ok. exists [file]. split; [done|].
    split; [constructor; [eapply chunk_file; [|done..]; by rewrite Hch|constructor]|]. cbn [concat]. by rewrite app_nil_r.
  - destruct Ho as (hash & number & canonical & Hh & Hn & Hc & ->). cbn [fst snd] in *. rewrite Hh, res_bind_ok, Hn, res_bind_ok, Hc.
    cbn [unwrap]. rewrite res_bind_ok. destruct canonical; cbn [omap list_omap id] in *; [|by apply IH].
    set (e := (number, index_record hash v)) in *.
    assert (Happ : chunk ++ e :: omap id os = (chunk ++ [e]) ++ omap id os) by (by rewrite <- (assoc_L (++))). rewrite Happ in Hnd, Hu |- *. case_decide.
    + rewrite fmap_app in Hnd. apply NoDup_app in Hnd as (Hnd1 & Hdis & Hnd2).
      apply Forall_app in Hu as [Hu1 Hu2].
      destruct (write_chunk_ok (chunk ++ [e]) Hnd1 Hu1) as (file & -> & Hp & Hs). rewrite res_bind_ok.
      destruct (IH os [] 0 (files ++ [file])) as (files' & -> & Hf' & Hp'); [done..|].
      exists (file :: files'). split; [by rewrite <- (assoc_L (++))|]. split.
      * constructor; [|done]. eapply chunk_file; [|done..]. by destruct chunk.
      * cbn [concat]. rewrite Hp, Hp'. by rewrite (map_app info_row (chunk ++ [e])).
    + by apply IH.
Qed.

(** ** The rows of CF 2 *)

Context (blocks : gmap H256 BlockInfo) (Hblocks : blocks_ok blocks).

(** CF 2 holds infos of [blocks] alone. *)
Definition plain_infos (src : K) : Prop := forall k raw, kv_contents src BlockHashToBlockInfo k = Some raw ->
  exists info, blocks !! bi_hash info = Some info /\ k = h256_bytes (bi_hash info) /\ decode_block_info (bi_hash info) raw = Ok (E := Error E) info.

(** The index tells a fork block from the canonical one of its number. *)
Definition forks_apart (k : u32) (B : gset (H256 * u32)) (src : K) : Prop :=
  forall info h, blocks !! bi_hash info = Some info -> is_Some (kv_contents src BlockHashToBlockInfo (h256_bytes (bi_hash info))) ->
    (h, bi_number info) ∈ B -> shard_of (prefix h) = shard_of (prefix (bi_hash info)) ->
    code (prefix h) k = code (prefix (bi_hash info)) k -> h = bi_hash info.

(** The canonical blocks are [B], and each has its info. *)
Record infos_complete (B : gset (H256 * u32)) (src : K) : Prop := {
  ic_cf3 : cf3 src B;
  ic_known : B ⊆ block_entries blocks;
  ic_info h n : (h, n) ∈ B -> is_Some (kv_contents src BlockHashToBlockInfo (h256_bytes h));
}.

(** The records of CF 7. *)
Definition info_record (B : gset (H256 * u32)) (src : K) (key r : bytes) : Prop :=
  exists h n raw, (h, n) ∈ B /\ kv_contents src BlockHashToBlockInfo (h256_bytes h) = Some raw /\
    key = index_key n /\ r = index_record h raw.

Definition canonical_row (B : gset (H256 * u32)) (row : bytes * bytes) : option (H256 * u32 * bytes) :=
  let h := from_be row.1 in
  match header_number (E := E) false row.2 with
  | Ok n => if decide ((h, n) ∈ B) then Some (h, n, row.2) else None
  | _ => None
  end.

Definition entry_of (x : H256 * u32 * bytes) : u64 * bytes := (x.1.2, index_record x.1.1 x.2).

Section rows.
Context (src : K) (B : gset (H256 * u32)) (k : u32) (index : BlockIndex).
Context (Hplain : plain_infos src) (Hic : infos_complete B src) (Hforks : forks_apart k B src) (Hix : index_inv k B index).

Lemma canonical_row_info info raw :
  blocks !! bi_hash info = Some info -> decode_block_info (bi_hash info) raw = Ok (E := Error E) info ->
  canonical_row B (h256_bytes (bi_hash info), raw) =
    if decide ((bi_hash info, bi_number info) ∈ B) then Some (bi_hash info, bi_number info, raw) else None.
Proof.
  intros Hb Hdec. unfold canonical_row. cbn [fst snd]. rewrite (stored_number _ _ _ Hdec).
  by rewrite from_be_h256 by (by apply (block_u256 blocks Hblocks)).
Qed.

Lemma canonical_row_entry key raw : kv_contents src BlockHashToBlockInfo key = Some raw ->
  row_entry index (key, raw) (option_map entry_of (canonical_row B (key, raw))).
Proof.
  intros Hk. destruct (Hplain key raw Hk) as (info & Hb & -> & Hdec). rewrite (canonical_row_info info raw Hb Hdec).
  pose proof (block_u256 blocks Hblocks info Hb) as Hu.
  destruct (candidates_ok k B index (bi_hash info) Hix) as (l & Hl & _ & Hin & Hout).
  exists (bi_hash info), (bi_number info), (bool_decide (bi_number info ∈ l)). cbn [fst snd]. split_and!.
  - by apply h256_from_slice_ok.
  - by apply (stored_number _ _ _ Hdec).
  - unfold index_contains. by rewrite Hl.
  - destruct (decide ((bi_hash info, bi_number info) ∈ B)) as [HB|HB]; [by rewrite bool_decide_true by auto|].
    rewrite bool_decide_false; [done|]. intros Hn%Hout. destruct Hn as (h & HhB & Hs & Hc). apply HB.
    by rewrite <- (Hforks info h Hb ltac:(by eexists) HhB Hs Hc).
Qed.

Lemma elem_of_canonical (rows : list (bytes * bytes)) h n raw :
  (forall key v, (key, v) ∈ rows <-> kv_contents src BlockHashToBlockInfo key = Some v) ->
  (h, n, raw) ∈ omap (canonical_row B) rows <-> (h, n) ∈ B /\ kv_contents src BlockHashToBlockInfo (h256_bytes h) = Some raw.
Proof.
  intros Hrows. rewrite list_elem_of_omap. split.
  - intros ([key v] & Hk%Hrows & Hc). destruct (Hplain key v Hk) as (info & Hb & -> & Hdec).
    rewrite (canonical_row_info info v Hb Hdec) in Hc. case_decide; [|done]. injection Hc as <- <- <-. done.
  - intros [HB Hk]. exists (h256_bytes h, raw). split; [by apply Hrows|]. destruct (Hplain _ _ Hk) as (info & Hb & Heq & Hdec).
    apply (ic_known _ _ Hic) in HB as HE. apply elem_of_block_entries in HE as (bi & Hbi & <-).
    pose proof (bk_hash _ Hblocks _ _ Hbi) as (Hhash & Hu & _). rewrite <- Hhash in Hu, Heq, Hbi.
    apply h256_inj in Heq; [|done|by apply (block_u256 blocks Hblocks)]. assert (info = bi) as -> by congruence.
    rewrite <- Hhash. rewrite (canonical_row_info bi raw Hb Hdec). rewrite Hhash. by rewrite decide_True.
Qed.

(** Blocks of one number are the same. *)
Lemma canonical_unique h h' n : (h, n) ∈ B -> (h', n) ∈ B -> h = h'.
Proof.
  intros Hh Hh'. pose proof (ic_cf3 _ _ Hic) as Hc. destruct (c3_range _ _ Hc _ _ Hh) as [Hu Hn]. destruct (c3_range _ _ Hc _ _ Hh') as [Hu' _].
  pose proof (cf3_has_of src B h n Hc Hh) as Ha. pose proof (cf3_has_of src B h' n Hc Hh') as Hb. unfold cf3_has in *.
  rewrite Ha in Hb. apply (inj Some) in Hb. by apply h256_inj.
Qed.

Lemma canonical_nodup (rows : list (bytes * bytes)) :
  NoDup rows.*1 -> (forall key v, (key, v) ∈ rows <-> kv_contents src BlockHashToBlockInfo key = Some v) ->
  NoDup (omap (canonical_row B) rows).*1.
Proof.
  intros Hnd Hrows. assert (Hkeys : forall key v, (key, v) ∈ rows -> key = h256_bytes (from_be key)).
  { intros key v Hk%Hrows. destruct (Hplain _ _ Hk) as (info & Hb & -> & _). by rewrite from_be_h256 by (by apply (block_u256 blocks Hblocks)). }
  assert (Hfst : forall row x, canonical_row B row = Some x -> x.1.1 = from_be row.1).
  { intros row x. unfold canonical_row. destruct (header_number (E := E) false row.2); [|done..]. case_decide; [|done]. by intros [= <-]. }
  clear Hrows. induction rows as [|[key v] rows IH]; [constructor|]. inversion Hnd as [|? ? Hni Hnd']; subst.
  assert (IH' : NoDup (omap (canonical_row B) rows).*1) by (apply IH; [done|intros ? ? ?; eapply Hkeys; by right]).
  cbn [omap list_omap]. destruct (canonical_row B (key, v)) as [x|] eqn:Hx; [|done]. cbn [fmap list_fmap]. constructor; [|done].
  intros (y & Heq & ([key' v'] & Hin & Hy)%list_elem_of_omap)%list_elem_of_fmap. apply Hni. apply list_elem_of_fmap. exists (key', v').
  split; [|done]. cbn. rewrite (Hkeys key v ltac:(by left)), (Hkeys key' v' ltac:(by right)). f_equal.
  pose proof (Hfst (key, v) x Hx) as Ha. pose proof (Hfst (key', v') y Hy) as Hb. cbn [fst] in Ha, Hb. congruence.
Qed.

Lemma entries_nodup (found : list (H256 * u32 * bytes)) :
  NoDup found.*1 -> (forall h n raw, (h, n, raw) ∈ found <-> (h, n) ∈ B /\ kv_contents src BlockHashToBlockInfo (h256_bytes h) = Some raw) ->
  NoDup (map entry_of found).*1.
Proof.
  intros Hnd Hel. replace ((map entry_of found).*1) with (snd <$> found.*1) by (by rewrite <- !list_fmap_compose).
  apply NoDup_fmap_2_strong; [|done]. intros [h n] [h' n'] Hin Hin' Heq. cbn in Heq. subst n'. f_equal.
  apply list_elem_of_fmap in Hin as ([b raw] & Hb & Hin). apply list_elem_of_fmap in Hin' as ([b' raw'] & Hb' & Hin').
  cbn in Hb, Hb'. subst b b'. destruct (proj1 (Hel _ _ _) Hin) as [HB _]. destruct (proj1 (Hel _ _ _) Hin') as [HB' _]. by eapply canonical_unique.
Qed.

Lemma info_record_unique key v v' : info_record B src key v -> info_record B src key v' -> v = v'.
Proof.
  intros (h & n & raw & HB & Hk & -> & ->) (h' & n' & raw' & HB' & Hk' & Heq & ->). pose proof (ic_cf3 _ _ Hic) as Hc.
  assert (n = n') as <-.
  { unfold index_key in Heq. apply (f_equal from_be) in Heq.
    rewrite !from_be_be_bytes_small in Heq; [done|apply is_u64_pow, u32_u64; by eapply (c3_range _ _ Hc)..]. }
  assert (h = h') as <- by (by eapply canonical_unique). congruence.
Qed.

(** The infos of all canonical blocks are copied. *)
Lemma copy_block_infos_ok (dst : K) :
  kv_ok src -> kv_ok dst -> (forall key, kv_contents dst BlockNumToBlockInfo key = None) -> index_len index = Z.of_nat (size B) ->
  exists db', copy_block_infos (E := E) src dst index = (Ok (Z.of_nat (size B)), db') /\
    takes_rows dst db' BlockNumToBlockInfo (info_record B src).
Proof.
  intros Hsrc Hdst Hnew Hlen. unfold copy_block_infos. destruct (rk_iter src BlockHashToBlockInfo Hsrc) as (rows & -> & Hs & Hrows).
  cbn [rocks sbind]. set (found := omap (canonical_row B) rows).
  assert (Hnd : NoDup found.*1) by (apply canonical_nodup; [eapply strictly_sorted_NoDup; [apply bytes_lt_irrefl|done]|done]).
  assert (Hel : forall h n raw, (h, n, raw) ∈ found <-> (h, n) ∈ B /\ kv_contents src BlockHashToBlockInfo (h256_bytes h) = Some raw)
    by (intros h n raw; by apply elem_of_canonical).
  assert (Hsize : length found = size B).
  { rewrite <- (length_fmap fst). rewrite <- (size_list_to_set (C := gset (H256 * u32)) found.*1) by done. f_equal. apply set_eq. intros [h n].
    rewrite elem_of_list_to_set, list_elem_of_fmap. split.
    - intros ([b raw] & -> & Hin). destruct b. by apply Hel in Hin as [? _].
    - intros HB. destruct (ic_info _ _ Hic h n HB) as [raw Hraw]. exists (h, n, raw). split; [done|]. by apply Hel. }
  assert (Hent : Forall2 (row_entry index) rows (map (fun row => option_map entry_of (canonical_row B row)) rows)).
  { apply Forall2_fmap_r, Forall_Forall2_diag, Forall_forall. intros [key raw] Hin%Hrows. by apply canonical_row_entry. }
  assert (Homap : omap id (map (fun row => option_map entry_of (canonical_row B row)) rows) = map entry_of found).
  { unfold found. clear. induction rows as [|row rows IH]; [done|]. cbn [map omap list_omap]. by destruct (canonical_row B row); cbn; rewrite IH. }
  destruct (copy_rows_ok index rows _ [] 0 [] Hent) as (files & -> & Hf & Hp).
  { rewrite Homap. cbn [app]. by apply entries_nodup. }
  { rewrite Homap. cbn [app]. apply Forall_forall. intros e ([[h n] raw] & -> & [HB _]%Hel)%list_elem_of_fmap. cbn.
    apply u32_u64, (c3_range _ _ (ic_cf3 _ _ Hic) h n HB). }
  rewrite Homap in Hp. cbn [app] in *. cbn [sbind].
  rewrite decide_False by (rewrite Hp, !length_map, Hsize, Hlen; lia).
  assert (Hrec : Z.of_nat (length (concat files)) = Z.of_nat (size B)) by (rewrite Hp, !length_map, Hsize; done).
  assert (Hrow : forall r, r ∈ concat files <-> exists key v, info_record B src key v /\ r = OpPut BlockNumToBlockInfo key v).
  { intros r. rewrite Hp. split.
    - intros (e & -> & ([[h n] raw] & -> & [HB Hk]%Hel)%list_elem_of_fmap)%list_elem_of_fmap. eexists _, _. split; [|done]. by exists h, n, raw.
    - intros (key & v & (h & n & raw & HB & Hk & -> & ->) & ->). apply list_elem_of_fmap. exists (n, index_record h raw). split; [done|].
      apply list_elem_of_fmap. exists (h, n, raw). split; [done|]. by apply Hel. }
  destruct (db_ingest_plain (E := E) dst BlockNumToBlockInfo files (info_record B src) Hdst Hnew) as (db' & Hing & Ht); [|done| |].
  { apply plain_files_ok; [done|]. intros r (key & v & _ & ->)%Hrow. eauto. }
  { apply info_record_unique. }
  rewrite Hrec. destruct files as [|f fs]; [|rewrite Hing; by exists db']. exists dst. split; [done|]. apply takes_none; [done..|].
  intros key v Hr. assert (Hnil : OpPut BlockNumToBlockInfo key v ∈ concat (@nil (list WriteOp))) by (apply Hrow; eauto).
  by apply elem_of_nil in Hnil.
Qed.
End rows.

(** ** Opening *)

Context (codes : H256 -> option bytes).
Implicit Types (dk : Disk K) (db : K).

(** An archive whose block infos can be moved, whatever the number of buckets. *)
Definition movable db : Prop := exists B, infos_complete B db /\ forall k, 0 <= k <= 24 -> forks_apart k B db.

(** Two databases alike but for CF 7. *)
Definition alike db db' : Prop :=
  kv_ok db' /\ (forall c k, c <> BlockNumToBlockInfo -> kv_contents db' c k = kv_contents db c k) /\
  (forall c k ts, c <> BlockNumToBlockInfo -> kv_versions db' c k ts = kv_versions db c k ts).

Lemma alike_trans db1 db2 db3 : alike db1 db2 -> alike db2 db3 -> alike db1 db3.
Proof.
  intros (_ & Hc & Hv) (Hk & Hc' & Hv'). split; [done|]. split; [intros c k Hne; by rewrite Hc', Hc|intros c k ts Hne; by rewrite Hv', Hv].
Qed.

(** Only CF 2 and CF 3 matter. *)
Lemma movable_same db db' :
  kv_ok db' -> (forall k, kv_contents db' BlockNumToBlockHash k = kv_contents db BlockNumToBlockHash k) ->
  (forall k, kv_contents db' BlockHashToBlockInfo k = kv_contents db BlockHashToBlockInfo k) -> movable db -> movable db'.
Proof.
  intros Hkv Hc3 Hc2 (B & [Hc HB Hi] & Hforks). exists B. split; [split; [by eapply cf3_same|done|]|].
  - intros h n Hin. rewrite Hc2. by eapply Hi.
  - intros k Hk info h Hb Hs. rewrite Hc2 in Hs. by apply Hforks.
Qed.

Lemma alike_movable db db' : alike db db' -> movable db -> movable db'.
Proof. intros (Hkv & Hcon & _). by apply movable_same; [|intros; apply Hcon..]. Qed.

(** The archive with its infos moved. *)
Lemma moved_node db db' B ix udt hd :
  node_ok blocks codes (bare (C := C) db None udt) hd -> infos_complete B db -> kv_ok db' -> run_ok (E := E) crc32 (block_entries blocks) db' ix ->
  (forall c k, c <> BlockHashToBlockInfo -> c <> BlockNumToBlockInfo -> kv_contents db' c k = kv_contents db c k) ->
  (forall c k ts, versioned c -> kv_versions db' c k ts = kv_versions db c k ts) ->
  (forall k v, kv_contents db' BlockNumToBlockInfo k = Some v <-> info_record B db k v) ->
  node_ok blocks codes (bare (C := C) db' (Some ix) udt) hd /\
  forall n, carries blocks codes n (bare (C := C) db None udt) (bare (C := C) db' (Some ix) udt).
Proof.
  intros Hn Hic Hkv Hrun Hcon Hver Hinfos.
  assert (Hstored : forall i, block_stored blocks (bare (C := C) db None udt) i -> info_stored (E := E) (bare (C := C) db' (Some ix) udt) i).
  { intros i (Hb & (raw & Hdec & Hst) & Hh). exists raw. split; [done|]. cbn [bare dr_db dr_block_index] in *. apply Hinfos.
    exists (bi_hash i), (bi_number i), raw. split_and!; try done.
    eapply (cf3_has_in db B); [apply Hic|by apply (block_u256 blocks Hblocks)|by apply (block_u64 blocks Hblocks)|done]. }
  split; [|intros n; apply (carries_same blocks codes Hblocks); [done..|by intros i Hi _; apply Hstored]].
  assert (Hva : forall col p n, versioned col -> version_at udt db' col p n = version_at udt db col p n).
  { intros col p n Hc. unfold version_at. destruct udt; [by apply Hver|apply Hcon]; by destruct Hc as [-> | ->]. }
  pose proof (Hstored hd (node_block _ _ _ _ Hn)) as Hhi.
  destruct Hn as [[[Hok Hpl Hts Hac] _] [Hio _ _ _] Hhd Hlat _ Hhash Hhs Hvs _ Hcod _]. cbn [bare dr_db dr_udt dr_block_index] in *.
  split; cbn [bare dr_db dr_udt dr_block_index dr_code_cache dr_state_cache]; rewrite ?Hcon by done; try done.
  - split; [|done]. cbn [bare dr_db dr_udt]. split; [done| | |].
    + intros col k Hu Hc. rewrite Hcon by (by destruct Hc as [-> | ->]). by apply Hpl.
    + intros col k n Hu Hc. rewrite Hver by done. by apply Hts.
    + intros p n raw Hnu. rewrite Hva by (by left). by apply Hac.
  - split; cbn [bare dr_db dr_block_index dr_block_info_cache]; try done.
    + intros k r _ (h & n & raw & HB & Hraw & -> & ->)%Hinfos. apply (ic_known _ _ Hic), elem_of_block_entries in HB as (bi & Hbi & <-).
      destruct (Hio _ _ eq_refl Hraw) as (info & Hb & Heq & Hdec). pose proof (bk_hash _ Hblocks _ _ Hbi) as (Hhash' & Hu & _).
      apply h256_inj in Heq; [|done|by apply (block_u256 blocks Hblocks)]. assert (info = bi) as -> by congruence. exists bi, raw. by rewrite Heq.
    + intros i Heq. apply (inj Some) in Heq. by subst i.
  - intros k raw. rewrite Hcon by done. apply Hhs.
  - intros col p n Hc Hnu Hlt. rewrite Hva by done. by apply Hvs.
  - intros k raw. rewrite Hcon by done. apply Hcod.
Qed.

(** The columns opened, and CF 7 emptied. *)
Lemma empty_infos dk (had : bool) :
  kv_ok (dk_db dk) -> (had = false -> forall k, kv_contents (dk_db dk) BlockNumToBlockInfo k = None) ->
  exists db', (let! (_, dk) := (if had then drop_cf dk BlockNumToBlockInfo else (Ok tt, dk)) in
     if had then create_cf dk BlockNumToBlockInfo else (Ok tt, dk)) =
     (Ok (E := Error E) tt, mkDisk db' (if had then filter (fun c => c <> BlockNumToBlockInfo) (dk_columns dk) ++ [BlockNumToBlockInfo] else dk_columns dk)
        (dk_index dk) (dk_schema dk)) /\
    alike (dk_db dk) db' /\ forall k, kv_contents db' BlockNumToBlockInfo k = None.
Proof.
  intros Hkv Hno. destruct had; [|exists (dk_db dk); cbn [sbind]; split; [by destruct dk|]; split; [done|auto]].
  unfold drop_cf, create_cf, on_column.
  destruct (rk_drop_cf (dk_db dk) BlockNumToBlockInfo Hkv) as (db1 & -> & Hkv1 & Hcon1 & Hver1). cbn [rocks sbind set_dk_columns set_dk_db dk_db].
  destruct (rk_create_cf db1 BlockNumToBlockInfo Hkv1) as (db2 & -> & Hkv2 & Hcon2 & Hver2). cbn [rocks]. exists db2.
  split; [done|]. split; [|intros k; by rewrite Hcon2, decide_True].
  split; [done|]. split; [intros c k Hne; by rewrite Hcon2, Hcon1, !decide_False|intros c k ts Hne; by rewrite Hver2, Hver1, !decide_False].
Qed.

Lemma move_infos_ok dk udt hd :
  node_ok blocks codes (bare (C := C) (dk_db dk) None udt) hd -> movable (dk_db dk) ->
  (forall k, kv_contents (dk_db dk) BlockNumToBlockInfo k = None) ->
  exists ix db' file, move_infos (E := E) dk = (Ok (Some ix), mkDisk db' (filter (fun c => c <> BlockHashToBlockInfo) (dk_columns dk)) file (dk_schema dk)) /\
    node_ok blocks codes (bare (C := C) db' (Some ix) udt) hd /\ index_file_ok (E := E) blocks db' file /\ left_file ix file = file /\
    (forall n, carries blocks codes n (bare (C := C) (dk_db dk) None udt) (bare (C := C) db' (Some ix) udt)) /\
    (forall c k, c <> BlockHashToBlockInfo -> c <> BlockNumToBlockInfo -> kv_contents db' c k = kv_contents (dk_db dk) c k) /\
    (forall c k ts, versioned c -> kv_versions db' c k ts = kv_versions (dk_db dk) c k ts).
Proof.
  intros Hn (B & Hic & Hforks) Hnew. pose proof (db_kv _ _ _ _ Hn) as Hkv. cbn [bare dr_db] in Hkv.
  assert (Hplain : plain_infos (dk_db dk)) by (intros k raw Hk; by apply (io_plain _ _ (no_infos _ _ _ _ Hn))).
  assert (Hin : (bi_hash hd, bi_number hd) ∈ B).
  { pose proof (no_head _ _ _ _ Hn) as Hhd. eapply (cf3_has_in (dk_db dk) B); [apply Hic|by apply (block_u256 blocks Hblocks)|by apply (block_u64 blocks Hblocks)|].
    apply (no_head_hash _ _ _ _ Hn). }
  unfold move_infos. destruct (rebuild_run (E := E) crc32 (bk_crc _ Hblocks) (block_entries blocks) (entries_size _ Hblocks) (entries_range _ Hblocks)
    (dk_db dk) B (dk_index dk)) as (ix & k & last & -> & Hrun & Hlast & Hk & Hlen & [f Hf]);
    [apply Hic|apply Hic|right; intros ->; by apply elem_of_empty in Hin|].
  cbn [sbind set_dk_index dk_db]. rewrite Hf.
  destruct (copy_block_infos_ok (dk_db dk) B k ix Hplain Hic) with (dst := dk_db dk) as (db1 & -> & Hkv1 & Hrec1 & Hcon1 & Hver1); [..|done|].
  { rewrite Hk. apply Hforks, bucket_bits_range. } { apply Hrun. } { done. } { done. } { done. }
  cbn [sbind]. unfold drop_cf, on_column. cbn [set_dk_db dk_db].
  destruct (rk_drop_cf db1 BlockHashToBlockInfo Hkv1) as (db2 & -> & Hkv2 & Hcon2 & Hver2). cbn [rocks sbind].
  assert (Hcon : forall c k, c <> BlockHashToBlockInfo -> c <> BlockNumToBlockInfo -> kv_contents db2 c k = kv_contents (dk_db dk) c k)
    by (intros c k' H2' H7'; by rewrite Hcon2, decide_False, Hcon1).
  assert (Hver : forall c k ts, versioned c -> kv_versions db2 c k ts = kv_versions (dk_db dk) c k ts)
    by (intros c k' ts Hc; rewrite Hver2, decide_False by (by destruct Hc as [-> | ->]); apply Hver1).
  assert (Hc3 : cf3 db2 B) by (apply (cf3_same (dk_db dk)); [done|by intros; apply Hcon|apply Hic]).
  assert (Hrun2 : run_ok (E := E) crc32 (block_entries blocks) db2 ix) by (exists B, k, B; split_and!; [done|apply Hic|done|done]).
  destruct (moved_node (dk_db dk) db2 B ix udt hd Hn Hic Hkv2 Hrun2 Hcon Hver) as [Hn2 Hcar].
  { intros k' v. rewrite Hcon2, decide_False by done. apply Hrec1. }
  exists ix, db2, f. split; [done|]. split; [done|]. split; [|split; [by unfold left_file; rewrite Hf|done]].
  pose proof (run_file_ok blocks db2 ix None Hrun2) as Hfile. unfold left_file in Hfile. rewrite Hf in Hfile. by apply Hfile.
Qed.

(** The infos of [dk] settled in CF 7. *)
Lemma settle_moves dk (had : bool) udt hd :
  node_ok blocks codes (bare (C := C) (dk_db dk) None udt) hd -> movable (dk_db dk) ->
  (had = false -> forall k, kv_contents (dk_db dk) BlockNumToBlockInfo k = None) ->
  exists ix db' cols file, settle_infos (E := E) dk had true = (Ok (Some ix), mkDisk db' cols file (dk_schema dk)) /\
    (forall c, c ∈ cols <-> c <> BlockHashToBlockInfo /\ (c ∈ dk_columns dk \/ had = true /\ c = BlockNumToBlockInfo)) /\
    node_ok blocks codes (bare (C := C) db' (Some ix) udt) hd /\ index_file_ok (E := E) blocks db' file /\ left_file ix file = file /\
    (forall n, carries blocks codes n (bare (C := C) (dk_db dk) None udt) (bare (C := C) db' (Some ix) udt)) /\
    (forall c k, c <> BlockHashToBlockInfo -> c <> BlockNumToBlockInfo -> kv_contents db' c k = kv_contents (dk_db dk) c k) /\
    (forall c k ts, versioned c -> kv_versions db' c k ts = kv_versions (dk_db dk) c k ts).
Proof.
  intros Hn Hmov Hno. pose proof (db_kv _ _ _ _ Hn) as Hkv. cbn [bare dr_db] in Hkv.
  destruct (empty_infos dk had Hkv Hno) as (db1 & Hemp & Hal & Hnew).
  assert (Hset : settle_infos (E := E) dk had true = let! (_, dk) := (let! (_, dk) := (if had then drop_cf dk BlockNumToBlockInfo else (Ok tt, dk)) in
    if had then create_cf dk BlockNumToBlockInfo else (Ok tt, dk)) in move_infos dk).
  { unfold settle_infos. by destruct (if had then drop_cf dk BlockNumToBlockInfo else (Ok tt, dk)) as [[]]. }
  rewrite Hset, Hemp. cbn [sbind]. set (dk1 := mkDisk db1 _ _ _).
  assert (Hn1 : node_ok blocks codes (bare (C := C) (dk_db dk1) None udt) hd) by (eapply node_without_infos; [apply Hal..|done]).
  assert (Hmov1 : movable (dk_db dk1)) by (by eapply alike_movable).
  destruct (move_infos_ok dk1 udt hd Hn1 Hmov1 Hnew) as (ix & db' & file & -> & Hn' & Hfile & Hleft & Hcar & Hcon & Hver).
  eexists ix, db', _, file. split; [done|]. split; [|split; [done|split; [done|split; [done|]]]].
  - intros c. rewrite list_elem_of_filter. unfold dk1. cbn [dk_columns]. destruct had; [|naive_solver].
    rewrite elem_of_app, list_elem_of_filter, list_elem_of_singleton. destruct (decide (c = BlockNumToBlockInfo)); naive_solver.
  - split; [|split].
    + intros n. eapply carries_trans; [|apply Hcar|reflexivity]. apply (carries_same blocks codes Hblocks).
      * intros c k _ Hne. by apply Hal.
      * intros c k ts Hc. apply Hal. by destruct Hc as [-> | ->].
      * intros i (_ & (raw & Hdec & Hst) & _) _. exists raw. split; [done|]. cbn [bare dr_db dr_block_index] in *.
        destruct Hal as (_ & Hc & _). unfold dk1. cbn [dk_db]. by rewrite Hc.
    + intros c k H2' H7'. rewrite Hcon by done. by apply Hal.
    + intros c k ts Hc. rewrite Hver by done. apply Hal. by destruct Hc as [-> | ->].
Qed.

(** CF 7 is created if it is not there. *)
Lemma create_infos dk udt hd :
  disk_ok (C := C) blocks codes dk None udt hd ->
  exists db', open_columns (E := E) dk (ARCHIVE_COLUMNS ++ [BlockNumToBlockInfo]) true =
      (Ok tt, mkDisk db' (ARCHIVE_COLUMNS ++ [BlockNumToBlockInfo]) (dk_index dk) (dk_schema dk)) /\
    alike (dk_db dk) db' /\ (has_column dk BlockNumToBlockInfo = false -> forall k, kv_contents db' BlockNumToBlockInfo k = None).
Proof.
  intros Hd. pose proof (db_kv _ _ _ _ (do_node _ _ _ _ _ _ Hd)) as Hkv. pose proof (do_layout _ _ _ _ _ _ Hd) as Hl. cbn in Hl. cbn [bare dr_db] in Hkv.
  destruct (create_columns_ok (E := E) dk (ARCHIVE_COLUMNS ++ [BlockNumToBlockInfo]) Hkv (do_known _ _ _ _ _ _ Hd)) as (db' & -> & Hkv' & Hcon & Hver).
  exists db'. split; [done|].
  assert (Hnew : forall c, c ∈ ARCHIVE_COLUMNS ++ [BlockNumToBlockInfo] -> ~ c ∈ dk_columns dk -> c = BlockNumToBlockInfo).
  { intros c [Hc|Hc%list_elem_of_singleton]%elem_of_app Hni; [|done]. exfalso. apply Hni.
    destruct (decide (c = BlockHashToBlockInfo)) as [->|Hne]; [done|by apply (do_columns _ _ _ _ _ _ Hd)]. }
  split; [split; [done|]|].
  - split; [intros c k Hne; rewrite Hcon|intros c k ts Hne; rewrite Hver]; rewrite decide_False; try done; intros [Hc Hni]; by apply Hne, Hnew.
  - intros Hh%bool_decide_eq_false k. rewrite Hcon, decide_True; [done|]. split; [apply elem_of_app; right; by left|done].
Qed.

(** Block infos by hash, opened by number. *)
Lemma open_moving dk udt hd bulk_load :
  disk_ok (C := C) blocks codes dk None udt hd -> block_index_enabled = true -> movable (dk_db dk) ->
  exists d dk', open_inner (C := C) dk bulk_load false = (Ok d, dk') /\ opens_as (E := E) blocks codes dk None udt hd d dk' /\ is_Some (dr_block_index d).
Proof.
  intros Hd Hby Hmov. pose proof (do_node _ _ _ _ _ _ Hd) as Hn. pose proof (do_layout _ _ _ _ _ _ Hd) as Hl. cbn in Hl.
  unfold open_inner. rewrite (do_udt _ _ _ _ _ _ Hd), Hby. cbn [sbind orb negb andb].
  assert (has_column dk BlockHashToBlockInfo = true) as -> by (by apply bool_decide_true). cbn [orb andb].
  change (filter _ ARCHIVE_COLUMNS) with ARCHIVE_COLUMNS.
  destruct (create_infos dk udt hd Hd) as (db1 & -> & Hal & Hnew). cbn [sbind].
  assert (Hn1 : node_ok blocks codes (bare (C := C) db1 None udt) hd) by (eapply node_without_infos; [apply Hal..|done]).
  destruct (settle_moves (mkDisk db1 (ARCHIVE_COLUMNS ++ [BlockNumToBlockInfo]) (dk_index dk) (dk_schema dk)) _ udt hd Hn1 (alike_movable _ _ Hal Hmov) Hnew)
    as (ix & db' & cols' & file & -> & Hcols & Hn' & Hfile & Hleft & Hcar & Hcon & Hver).
  cbn [sbind dk_db dk_columns dk_schema] in Hcols, Hcar, Hcon, Hver |- *.
  destruct (opened blocks codes Hblocks db' (Some ix) udt hd (negb bulk_load && true) Hn') as (d & -> & Hnd & Hdb & Hix & Hu).
  eexists d, _. split; [done|]. rewrite Hix. split; [|by eexists]. split; [done|]. split; [done|]. rewrite Hix, Hdb. destruct Hal as (_ & Hcon1 & Hver1). split; [|split; [|split]].
  - split; cbn [close_archive dk_columns dk_db dk_index dk_schema]; rewrite ?Hdb, ?Hix; try done; [apply (do_udt _ _ _ _ _ _ Hd)| | |].
    + intros c [_ [Hc|[_ ->]]]%Hcols; [done|apply elem_of_app; right; by left].
    + intros c Hc Hne. apply Hcols. split; [done|]. left. apply elem_of_app. by left.
    + rewrite !Hcols. split; [by intros [? _]|]. split; [split; [done|left; apply elem_of_app; right; by left]|].
      change (index_file_ok (E := E) blocks db' (left_file ix file)). by rewrite Hleft.
  - intros n. eapply carries_trans; [|by apply (carries_bare blocks codes Hblocks) with (d := bare db' (Some ix) udt)|reflexivity].
    eapply carries_trans; [|apply Hcar|reflexivity]. apply (carries_same blocks codes Hblocks);
      [by intros; apply Hcon1|intros c k ts Hc; apply Hver1; by destruct Hc as [-> | ->]|].
    intros i (_ & (raw & Hdec & Hst) & _) _. exists raw. split; [done|]. cbn [bare dr_db dr_block_index] in *. by rewrite Hcon1.
  - intros c k H2' H7'. rewrite Hcon by done. by apply Hcon1.
  - intros c k ts Hc. rewrite Hver by done. apply Hver1. by destruct Hc as [-> | ->].
Qed.

(** The index is off, the infos are by number already, or they can be moved. *)
Definition can_settle db (ix : option BlockIndex) : Prop := block_index_enabled = false \/ is_Some ix \/ movable db.

Lemma open_right dk ix udt hd bulk_load maintenance :
  disk_ok (C := C) blocks codes dk ix udt hd -> maintenance = true \/ can_settle (dk_db dk) ix ->
  exists d dk', open_inner (C := C) dk bulk_load maintenance = (Ok d, dk') /\ opens_as (E := E) blocks codes dk ix udt hd d dk' /\
    (maintenance = false -> block_index_enabled = false \/ is_Some (dr_block_index d)).
Proof.
  intros Hd Hcan. assert (Hcase : (negb maintenance && block_index_enabled = false \/ is_Some ix) \/
    (maintenance = false /\ block_index_enabled = true /\ ix = None /\ movable (dk_db dk))).
  { destruct maintenance; [by left; left|]. destruct Hcan as [?|[->|[?|?]]]; [done|by left; left|by left; right|].
    destruct block_index_enabled; [|by left; left]. destruct ix as [ix|]; [left; right; by eexists|by right]. }
  destruct Hcase as [Hset|(-> & Hon & -> & Hmov)].
  - destruct (open_settled blocks codes Hblocks dk ix udt hd bulk_load maintenance Hd Hset) as (d & dk' & Ho & Hop & Hix & _).
    exists d, dk'. split; [done|]. split; [done|]. intros ->. cbn in Hset. destruct Hset as [?|?]; [by left|right; by apply Hix].
  - destruct (open_moving dk udt hd bulk_load Hd Hon Hmov) as (d & dk' & ? & ? & ?). exists d, dk'. auto.
Qed.
End move.
