(* ===== verification/Rewind.v ===== *)
(** * Rewinding an archive

    crates/leafage-evm-storage/src/db_impl/rewind.rs and
    db_impl/rocksdb_impl/archive/rewind.rs, with the checks and the trim of
    archive/udt.rs: the versions, numbers and block infos above a block are
    deleted, table by table in bounded batches, and the block is published as
    the latest one at the end. *)

From stdpp Require Import prelude gmap list sorting strings.
From S2P Require Import Prelude Types QuickCache KvStore MemKv ArchiveEncoding StateCache BlockIndex Archive.
From S2P Require Import ArchiveDisk.

#[local] Open Scope Z_scope.
#[local] Open Scope state_scope.

Inductive RewindTable := Accounts | Storage | BlockNumbers | Headers.

Definition REWIND_TABLES : list RewindTable := [Accounts; Storage; BlockNumbers; Headers].

Definition REWIND_BATCH_BYTES : Z := 1024 * 1024.
Definition REWIND_BATCH_SIZE : Z := 10000.

#[export] Instance RewindTable_eq_dec : EqDecision RewindTable.
Proof. solve_decision. Defined.

Definition table_key_len (table : RewindTable) : nat :=
  match table with Accounts => 64 | Storage => 96 | _ => 32 end.

Definition is_versioned (table : RewindTable) : bool :=
  match table with Accounts | Storage => true | _ => false end.

Definition table_column (table : RewindTable) : StorageTypeColumn :=
  match table with
  | Accounts => AddressToAccount
  | Storage => AddressToStorage
  | BlockNumbers => BlockNumToBlockHash
  | Headers => BlockHashToBlockInfo
  end.

Section rewind.
Context {K E : Type} `{RocksDB K E} {C : Type -> Type -> Type} `{QuickCache C}.
Context `{SlimCodec} `{BlockCodec E} `{ArchiveConfig} `{!RocksDBAdmin K E} `{ArchiveEnv}.
Implicit Types (d : DataBaseRef K C) (dk : Disk K).

(** Whether a record is above [target]. The texts of the errors are
    shortened. *)
Definition remove_record (table : RewindTable) (key value : bytes) (target : u64) (inverted json_headers : bool)
    : Res (Error E) bool :=
  let key_len := table_key_len table in
  if decide (length key <> key_len) then Err (UnSupported "invalid key length during archive rewind")
  else if decide (table = Headers) then
    number ← header_number json_headers value;
    Ok (bool_decide (target < number))
  else
    let tail := drop (key_len - 32) key in
    if decide (take 24 tail <> replicate 24 0) then Err (UnSupported "invalid archive block height")
    else
      let raw := from_be (drop 24 tail) in
      if is_versioned table && negb inverted && bool_decide (raw = u64_max) then Ok true
      else
        let height := if is_versioned table && inverted then u64_max - raw else raw in
        Ok (bool_decide (target < height)).

(** [cf_handle]: an open archive has its block infos by hash or, with a block
    index, by number ([open_inner]). *)
Definition has_cf d (col : StorageTypeColumn) : bool :=
  match col with
  | BlockHashToBlockInfo => bool_decide (dr_block_index d = None)
  | BlockNumToBlockInfo => bool_decide (dr_block_index d <> None)
  | _ => true
  end.

(** ** [rewind_layout] *)

(** The first record of a versioned table must have a key of its form. *)
Definition first_record d (table : RewindTable) : Res (Error E) bool :=
  rows ← rocks (db_iter (dr_db d) (table_column table));
  match rows with
  | (key, value) :: _ => _ ← remove_record table key value 0 false false; Ok true
  | [] => Ok false
  end.

Definition rewind_layout d : Res (Error E) (option bytes * bool) :=
  marker ← rocks (db_get (dr_db d) LatestBlockHash ENCODING_MARKER_KEY);
  if dr_udt d then Ok (marker, false)
  else
    accounts ← first_record d Accounts;
    storage ← first_record d Storage;
    Ok (marker, accounts || storage).

(** ** [rewind_to] *)

Definition batch_full (batch : list WriteOp) : bool :=
  bool_decide (REWIND_BATCH_SIZE <= Z.of_nat (length batch)) || bool_decide (REWIND_BATCH_BYTES <= batch_size batch).

Definition write_ops d (ops : list WriteOp) : Res (Error E) unit * DataBaseRef K C :=
  let '(r, db) := db_write (dr_db d) ops in (rocks r, set_db d db).

(** The loop over the rows of a table, which a snapshot of it gives. *)
Fixpoint truncate_rows d (table : RewindTable) (target : u64) (inverted : bool) (rows : list (bytes * bytes))
    (batch : list WriteOp) : Res (Error E) unit * DataBaseRef K C :=
  match rows with
  | [] => write_ops d batch
  | (key, value) :: rest =>
      let! (remove, d) := (remove_record table key value target inverted false, d) in
      if remove : bool then
        let batch := batch ++ [OpDelete (table_column table) key] in
        if batch_full batch then
          let! (_, d) := write_ops d batch in
          truncate_rows d table target inverted rest []
        else truncate_rows d table target inverted rest batch
      else truncate_rows d table target inverted rest batch
  end.

Definition truncate_table d (table : RewindTable) (target : u64) (inverted : bool)
    : Res (Error E) unit * DataBaseRef K C :=
  if dr_udt d && is_versioned table then (Ok tt, d)
  else if has_cf d (table_column table) then
    let! (rows, d) := (rocks (db_iter (dr_db d) (table_column table)), d) in
    truncate_rows d table target inverted rows []
  else (Ok tt, d).

Fixpoint truncate_tables d (tables : list RewindTable) (target : u64) (inverted : bool)
    : Res (Error E) unit * DataBaseRef K C :=
  match tables with
  | [] => (Ok tt, d)
  | table :: rest =>
      let! (_, d) := truncate_table d table target inverted in
      truncate_tables d rest target inverted
  end.

Definition rewind_to d (target : BlockInfo) (inverted : bool) : Res (Error E) unit * DataBaseRef K C :=
  let! (_, d) := truncate_tables d REWIND_TABLES (bi_number target) inverted in
  (* [target.header.number + 1] wraps, as [index_key] does. *)
  let! (_, d) :=
    (if has_cf d BlockNumToBlockInfo
     then write_ops d [OpDeleteRange BlockNumToBlockInfo (index_key (bi_number target + 1)) (replicate 9 255)]
     else (Ok tt, d)) in
  write_ops d [OpPut LatestBlockHash [1] (h256_bytes (bi_hash target))].

(** ** [rewind_archive] *)

Definition rewind_block d (number : option u64) : Res (Error E) BlockInfo * DataBaseRef K C :=
  let! (hash, d) := (match number with Some n => read_block_hash d n | None => read_latest_block_hash d end, d) in
  let! (block, d) := read_block_info d hash in
  match block with
  | None => (Err (UnSupported "archive block not found"), d)
  | Some block =>
      if bool_decide (hash = 0) || bool_decide (hash <> bi_hash block) ||
        match number with Some n => bool_decide (n <> bi_number block) | None => false end
      then (Err (UnSupported "inconsistent archive block index/header"), d)
      else (Ok block, d)
  end.

Definition stored_encoding (disk_encoding : option bytes) : Res (Error E) (option bool) :=
  match disk_encoding with
  | None => Ok None
  | Some [0] => Ok (Some false)
  | Some [1] => Ok (Some true)
  | Some _ => Err (UnSupported "invalid archive encoding marker")
  end.

(** The block rewound to and the encoding it sets for the process. Resetting
    the offset file is [reset]. *)
Definition rewind_archive d (number : u64) (encoding : option bool) (reset : Res (Error E) unit)
    : Res (Error E) (BlockInfo * bool) * DataBaseRef K C :=
  let! (layout, d) := (rewind_layout d, d) in
  let! (stored, d) := (stored_encoding layout.1, d) in
  if match stored, encoding with Some a, Some b => negb (eqb a b) | _, _ => false end
  then (Err (UnSupported "requested archive encoding conflicts with stored encoding"), d)
  else
    let inverted := default false (match stored with Some a => Some a | None => encoding end) in
    if negb layout.2 && bool_decide (stored = None)
    then (Err (UnSupported "cannot identify an empty unmarked database as archive"), d)
    else
      let! (head, d) := rewind_block d None in
      if decide (bi_number head < number) then (Err (UnSupported "rewind target is above the committed head"), d)
      else
        let! (target, d) := rewind_block d (Some number) in
        let! (_, d) := (reset, d) in
        let! (_, d) := rewind_to d target inverted in
        (Ok (target, inverted), d).

(** ** [check_rewind_target] and [rewind_archive_offline] *)

(** The number in the header of a block, by its hash. *)
Definition number_of_hash dk (hash : option bytes) : Res (Error E) (option u64) :=
  match hash with
  | None => Ok None
  | Some hash =>
      raw ← rocks (db_get (dk_db dk) BlockHashToBlockInfo hash);
      match raw with
      | None => Ok None
      | Some raw => number ← header_number false raw; Ok (Some number)
      end
  end.

Definition starts_with (record hash : bytes) : bool := bool_decide (take (length hash) record = hash).

(** The latest block info with the hash of the head, from the end of CF 7:
    [u64::from_be_bytes(key.try_into().unwrap())] is its number. *)
Fixpoint find_head (latest : bytes) (rows : list (bytes * bytes)) : Res (Error E) (option u64) :=
  match rows with
  | [] => Ok None
  | (key, record) :: rest =>
      if starts_with record latest then if decide (length key = 8%nat) then Ok (Some (from_be key)) else Panic
      else find_head latest rest
  end.

Definition check_rewind_target dk (number : u64) : Res (Error E) unit :=
  latest ← rocks (db_get (dk_db dk) LatestBlockHash [1]);
  target_hash ← rocks (db_get (dk_db dk) BlockNumToBlockHash (encode_block_num number));
  '(head, target) ←
    (if has_column dk BlockHashToBlockInfo then
       head ← number_of_hash dk latest;
       target ← number_of_hash dk target_hash;
       Ok (head, target)
     else
       head ←
         match latest with
         | Some latest => rows ← rocks (db_iter (dk_db dk) BlockNumToBlockInfo); find_head latest (rev rows)
         | None => Ok None
         end;
       record ← rocks (db_get (dk_db dk) BlockNumToBlockInfo (index_key number));
       Ok (head,
         match target_hash, record with
         | Some hash, Some record => if starts_with record hash then Some number else None
         | _, _ => None
         end));
  match head, target with
  | Some head, Some target =>
      if decide (target = number /\ number <= head) then Ok tt
      else Err (UnSupported "archive block is missing or above the committed head")
  | _, _ => Err (UnSupported "archive block is missing or above the committed head")
  end.

Definition trim_history dk (number : u64) : Res (Error E) unit * Disk K :=
  let '(r, db) := db_trim (dk_db dk) number in (rocks r, set_dk_db dk db).

(** [CURRENT] is a file once the database has column families. *)
Definition open_for_archive_rewind dk : Res (Error E) (DataBaseRef K C) * Disk K :=
  if decide (dk_columns dk = []) then (Err (UnSupported "archive database does not exist"), dk)
  else open_inner dk false true.

(** The rewind of a RocksDB archive. [reset] is what resetting the offset file
    returns. *)
Definition rewind_archive_offline dk (number : u64) (encoding : option bool) (reset : Res (Error E) unit)
    : Res (Error E) (BlockInfo * bool) * Disk K :=
  let! (udt, dk) := (is_udt_archive dk, dk) in
  let! (_, dk) :=
    (if udt : bool then
       let! (_, dk) := (check_rewind_target dk number, dk) in
       let! (_, dk) := (reset, dk) in
       trim_history dk number
     else (Ok tt, dk)) in
  let! (d, dk) := open_for_archive_rewind dk in
  let '(r, d) := rewind_archive d number encoding reset in
  (r, close_archive dk d).
End rewind.
