(* ===== verification/RewindFacts.v ===== *)
(** * Rewinding an archive: correctness

    Truncating the tables removes exactly the rows above the target
    ([keep_row]), whatever the batches; the archive is then right with the
    target as its last block. *)

From stdpp Require Import prelude gmap list sorting strings.
From S2P Require Import Prelude Types QuickCache Backend KvStore MemKv ArchiveEncoding StateCache BlockIndex.
From S2P Require Import BlockIndexFacts BlockIndexStore BlockIndexRun BlockIndexTheorems Archive ArchiveReads ArchiveSlots.
From S2P Require Import ArchiveWrite ArchiveCommit Wrapper WrapperFacts ArchiveBackend ArchiveUpdate ArchiveStore.
From S2P Require Import ArchiveDisk ArchiveOpen Rewind.

#[local] Open Scope Z_scope.
#[local] Open Scope state_scope.

(** The effect of deleting keys of one column. *)
Lemma fold_deletes c k col keys old :
  fold_left (op_contents c k) (map (OpDelete col) keys) old = if decide (c = col /\ k ∈ keys) then None else old.
Proof.
  revert old. induction keys as [|k' keys IH]; intros old; cbn [map fold_left].
  - rewrite decide_False; [done|]. by intros [_ Hk%elem_of_nil].
  - rewrite IH. cbn [op_contents]. repeat case_decide; rewrite ?elem_of_cons in *; naive_solver.
Qed.

Lemma fold_deletes_versions c k ts col keys old : fold_left (op_versions c k ts) (map (OpDelete col) keys) old = old.
Proof. revert old. by induction keys as [|k' keys IH]. Qed.

(** Case analysis on which rows are listed. *)
Ltac rows_decide :=
  repeat case_decide;
  repeat match goal with
  | Hx : context [_ ∈ _ ++ _] |- _ => rewrite elem_of_app in Hx
  | Hx : context [_ ∈ _ :: _] |- _ => rewrite elem_of_cons in Hx
  | Hx : context [_ ∈ []] |- _ => rewrite elem_of_nil in Hx
  end; naive_solver.

Section rewind_facts.
Context {K E : Type} `{RocksDBOk K E} {C : Type -> Type -> Type} `{QuickCacheOk C}.
Context `{SlimCodecOk} `{BlockCodecOk E} `{ArchiveConfig} `{RevmBytecode}.
Context `{!RocksDBAdmin K E} `{!RocksDBAdminOk K E} `{ArchiveEnv}.
Implicit Types (d : DataBaseRef K C) (dk : Disk K) (db : K).

(** ** Truncating a table *)

Lemma write_ops_ok d ops : kv_ok (dr_db d) -> exists db', write_ops d ops = (Ok tt, set_db d db') /\ kv_ok db' /\
  (forall c k, kv_contents db' c k = fold_left (op_contents c k) ops (kv_contents (dr_db d) c k)) /\
  (forall c k ts, kv_versions db' c k ts = fold_left (op_versions c k ts) ops (kv_versions (dr_db d) c k ts)).
Proof.
  intros Hkv. unfold write_ops. destruct (rk_write (dr_db d) ops Hkv) as (db' & -> & Hkv' & Hcon & Hver). by exists db'.
Qed.

(** The keys of the rows to remove. *)
Definition removed (rm : bytes -> bytes -> bool) (rows : list (bytes * bytes)) : list bytes :=
  map fst (filter (fun e : bytes * bytes => rm e.1 e.2 = true) rows).

Lemma elem_of_removed rm rows k : k ∈ removed rm rows <-> exists v, (k, v) ∈ rows /\ rm k v = true.
Proof.
  unfold removed. rewrite list_elem_of_fmap. split.
  - intros ([k' v] & -> & [Hr Hin]%list_elem_of_filter). eauto.
  - intros (v & Hin & Hr). exists (k, v). split; [done|]. by apply list_elem_of_filter.
Qed.

Lemma removed_cons rm k v rows : removed rm ((k, v) :: rows) = (if rm k v then [k] else []) ++ removed rm rows.
Proof. unfold removed. rewrite filter_cons. cbn [fst snd]. by destruct (rm k v). Qed.

(** The rows a loop deletes: those of the pending batch and those to remove. *)
Lemma truncate_rows_ok table target inverted (rm : bytes -> bytes -> bool) rows : forall d keys,
  kv_ok (dr_db d) ->
  (forall k v, (k, v) ∈ rows -> remove_record (E := E) table k v target inverted false = Ok (rm k v)) ->
  exists db', truncate_rows d table target inverted rows (map (OpDelete (table_column table)) keys) = (Ok tt, set_db d db') /\
    kv_ok db' /\
    (forall c k, kv_contents db' c k =
      if decide (c = table_column table /\ k ∈ keys ++ removed rm rows) then None
      else kv_contents (dr_db d) c k) /\
    (forall c k ts, kv_versions db' c k ts = kv_versions (dr_db d) c k ts).
Proof.
  induction rows as [|[key value] rows IH]; intros d keys Hkv Hrm; cbn [truncate_rows].
  - destruct (write_ops_ok d (map (OpDelete (table_column table)) keys) Hkv) as (db' & Hw & Hkv' & Hcon & Hver).
    exists db'. split; [done|]. split; [done|]. split; [|intros; by rewrite Hver, fold_deletes_versions].
    intros c k. by rewrite Hcon, fold_deletes, app_nil_r.
  - assert (Hrest : forall k v, (k, v) ∈ rows -> remove_record (E := E) table k v target inverted false = Ok (rm k v))
      by (intros k v Hin; apply Hrm; by right).
    rewrite removed_cons, Hrm by (by left). cbn [sbind]. destruct (rm key value) eqn:Hr.
    + rewrite <- (map_app (OpDelete (table_column table)) keys [key] : _ = _ ++ [_]). destruct (batch_full _).
      * destruct (write_ops_ok d (map (OpDelete (table_column table)) (keys ++ [key])) Hkv) as (db1 & -> & Hkv1 & Hcon1 & Hver1).
        cbn [sbind]. destruct (IH (set_db d db1) [] Hkv1 Hrest) as (db' & Ht & Hkv' & Hcon & Hver). cbn [map] in Ht.
        exists db'. split; [exact Ht|]. split; [done|]. split; [|intros; by rewrite Hver; cbn; rewrite Hver1, fold_deletes_versions].
        intros c k. rewrite Hcon. cbn [set_db dr_db]. rewrite Hcon1, fold_deletes.
        rows_decide.
      * destruct (IH d (keys ++ [key]) Hkv Hrest) as (db' & Ht & Hkv' & Hcon & Hver).
        exists db'. split; [done|]. split; [done|]. split; [|done].
        intros c k. rewrite Hcon. rows_decide.
    + destruct (IH d keys Hkv Hrest) as (db' & Ht & Hkv' & Hcon & Hver). exists db'. split; [done|]. split; [done|]. split; [|done].
      intros c k. rewrite Hcon. rows_decide.
Qed.

(** ** What a rewind keeps *)

(** Whether a rewind to block [n] keeps a row. *)
Definition keep_row d (n : u64) (c : StorageTypeColumn) (k v : bytes) : bool :=
  match c with
  | AddressToAccount | AddressToStorage =>
      dr_udt d || bool_decide (decode_version_tail inverted_block_encoding (drop (prefix_len c) k) <= n)
  | BlockNumToBlockHash => bool_decide (from_be k <= n)
  | BlockHashToBlockInfo =>
      match dr_block_index d, header_number (E := E) false v with
      | None, Ok m => bool_decide (m <= n)
      | _, _ => true
      end
  | BlockNumToBlockInfo =>
      match dr_block_index d with
      | Some _ => negb (bool_decide ((index_key (n + 1) ≤ k)%bytes /\ (k < replicate 9 255)%bytes))
      | None => true
      end
  | _ => true
  end.

Definition kept d (n : u64) (c : StorageTypeColumn) (k : bytes) (o : option bytes) : option bytes :=
  match o with Some v => if keep_row d n c k v then Some v else None | None => None end.

(** The rows of a table can be read, and say what to keep. *)
Definition rows_right d (n : u64) (table : RewindTable) : Prop :=
  dr_udt d && is_versioned table = false -> has_cf d (table_column table) = true ->
  forall k v, kv_contents (dr_db d) (table_column table) k = Some v ->
    remove_record (E := E) table k v n inverted_block_encoding false = Ok (negb (keep_row d n (table_column table) k v)).

Lemma truncate_table_ok d n table :
  kv_ok (dr_db d) -> rows_right d n table ->
  exists db', truncate_table d table n inverted_block_encoding = (Ok tt, set_db d db') /\ kv_ok db' /\
    (forall c k, kv_contents db' c k =
      if decide (c = table_column table) then kept d n c k (kv_contents (dr_db d) c k) else kv_contents (dr_db d) c k) /\
    (forall c k ts, kv_versions db' c k ts = kv_versions (dr_db d) c k ts).
Proof.
  intros Hkv Hrr. unfold truncate_table.
  assert (Hskip : (forall k v, keep_row d n (table_column table) k v = true) -> forall c k,
    kv_contents (dr_db d) c k = if decide (c = table_column table) then kept d n c k (kv_contents (dr_db d) c k) else kv_contents (dr_db d) c k).
  { intros Hk c k. case_decide as Hc; [|done]. subst c. unfold kept. destruct (kv_contents _ _ _); [by rewrite Hk|done]. }
  destruct (dr_udt d && is_versioned table) eqn:Hu.
  { exists (dr_db d). split; [by destruct d|]. split; [done|]. split; [|done]. apply Hskip. intros k v.
    apply andb_true_iff in Hu as [Hu Ht]. destruct table; cbn in *; by rewrite ?Hu. }
  destruct (has_cf d (table_column table)) eqn:Hcf.
  2:{ exists (dr_db d). split; [by destruct d|]. split; [done|]. split; [|done]. apply Hskip. intros k v.
      destruct table; cbn in *; try done. apply bool_decide_eq_false in Hcf. by destruct (dr_block_index d). }
  destruct (rk_iter (dr_db d) (table_column table) Hkv) as (rows & -> & _ & Hrows). cbn [rocks sbind].
  destruct (truncate_rows_ok table n inverted_block_encoding (fun k v => negb (keep_row d n (table_column table) k v)) rows d [] Hkv)
    as (db' & Ht & Hkv' & Hcon & Hver); [intros k v Hin; by apply Hrr, Hrows|].
  exists db'. split; [exact Ht|]. split; [done|]. split; [|done]. intros c k. rewrite Hcon.
  destruct (decide (c = table_column table)) as [->|Hc]; [|by rewrite decide_False by tauto]. unfold kept.
  destruct (kv_contents (dr_db d) (table_column table) k) as [v|] eqn:Hk.
  - destruct (keep_row d n (table_column table) k v) eqn:Hkeep.
    + rewrite decide_False; [done|]. intros [_ (v' & Hv' & Hne)%elem_of_removed]. apply Hrows in Hv'.
      assert (v' = v) as -> by congruence. by rewrite Hkeep in Hne.
    + rewrite decide_True; [done|]. split; [done|]. apply elem_of_removed. exists v. split; [by apply Hrows|by rewrite Hkeep].
  - by case_decide.
Qed.

Lemma truncate_tables_ok n tables : forall d,
  NoDup (map table_column tables) -> kv_ok (dr_db d) -> Forall (rows_right d n) tables ->
  exists db', truncate_tables d tables n inverted_block_encoding = (Ok tt, set_db d db') /\ kv_ok db' /\
    (forall c k, kv_contents db' c k =
      if decide (c ∈ map table_column tables) then kept d n c k (kv_contents (dr_db d) c k) else kv_contents (dr_db d) c k) /\
    (forall c k ts, kv_versions db' c k ts = kv_versions (dr_db d) c k ts).
Proof.
  induction tables as [|t tables IH]; intros d Hnd Hkv Hall; cbn [truncate_tables map].
  - exists (dr_db d). split; [by destruct d|]. split; [done|]. split; [|done]. intros c k.
    rewrite decide_False; [done|apply not_elem_of_nil].
  - inversion Hall as [|? ? Ht Hts]; subst. apply NoDup_cons in Hnd as [Hn Hnd].
    destruct (truncate_table_ok d n t Hkv Ht) as (db1 & -> & Hkv1 & Hcon1 & Hver1). cbn [sbind].
    destruct (IH (set_db d db1) Hnd Hkv1) as (db' & Hr & Hkv' & Hcon & Hver).
    { rewrite Forall_forall in Hts |- *. intros t' Hin Hu Hcf k v Hk. apply (Hts t' Hin Hu Hcf). revert Hk. cbn [set_db dr_db].
      rewrite Hcon1, decide_False; [done|]. intros Heq. apply Hn. rewrite <- Heq. by apply list_elem_of_fmap_2. }
    exists db'. split; [exact Hr|]. split; [done|]. split; [|intros; rewrite Hver; apply Hver1].
    intros c k. rewrite Hcon. cbn [set_db dr_db]. rewrite Hcon1. change (kept (set_db d db1)) with (kept d).
    rows_decide.
Qed.

(** ** The rows of a right archive *)

Lemma remove_version table p m v n inverted :
  is_versioned table = true -> key_wf (table_column table) p -> is_u64 m -> is_u32 n ->
  remove_record (E := E) table (version_key inverted p m) v n inverted false = Ok (bool_decide (n < m)).
Proof.
  intros Ht [Hl _] Hm Hn. unfold remove_record, version_key.
  assert (Hlen : length (p ++ encode_version_tail inverted m) = table_key_len table)
    by (rewrite length_app, length_tail, Hl; by destruct table).
  rewrite decide_False by (by intros []). rewrite decide_False by (by destruct table).
  assert ((table_key_len table - 32)%nat = length p) as -> by (rewrite Hl; by destruct table). rewrite drop_app_length, Ht.
  assert (Htail : exists r, is_u64 r /\ encode_version_tail inverted m = encode_block_num r /\ m = if inverted then u64_max - r else r).
  { destruct inverted; [exists (u64_max - m); split; [by apply is_u64_inv|split; [done|lia]]|by exists m]. }
  destruct Htail as (r & Hr & -> & Hmr). unfold encode_block_num. rewrite take_app_length' by (by rewrite length_replicate).
  rewrite decide_False by (by intros []). rewrite drop_app_length' by (by rewrite length_replicate).
  rewrite from_be_be_bytes_small by (by apply is_u64_pow). cbn [andb]. subst m.
  destruct inverted; cbn [negb andb]; [done|]. case_bool_decide as Hmax; [|done].
  rewrite bool_decide_true; [done|]. subst r. unfold is_u32, u32_max, u64_max in *. lia.
Qed.

(** A key of one encoding is one of the other. *)
Lemma version_key_flip inv flag p m : is_u64 m -> exists m', is_u64 m' /\ version_key inv p m = version_key flag p m'.
Proof.
  intros Hm. destruct (eqb inv flag) eqn:Hf; [apply eqb_prop in Hf as ->; eauto|].
  exists (u64_max - m). split; [by apply is_u64_inv|]. unfold version_key, encode_version_tail, encode_block_num_desc.
  destruct inv, flag; try done. do 2 f_equal. lia.
Qed.

Context (blocks : gmap H256 BlockInfo) (codes : H256 -> option bytes).
Context (Hblocks : blocks_ok blocks).

Lemma node_rows_right d hd n : node_ok blocks codes d hd -> is_u32 n -> Forall (rows_right d n) REWIND_TABLES.
Proof.
  intros Hn Hnu. apply Forall_forall. intros table _ Hu Hcf k v Hk.
  destruct (is_versioned table) eqn:Ht.
  - rewrite andb_true_r in Hu. assert (Hc : versioned (table_column table)) by (destruct table; [by left|by right|done..]).
    destruct (do_plain _ _ (ao_db _ (no_archive _ _ _ _ Hn)) _ k Hu Hc ltac:(by eexists)) as (p & m & Hp & Hm & ->).
    rewrite remove_version by done. f_equal.
    assert (Hkeep : keep_row d n (table_column table) (version_key inverted_block_encoding p m) v = bool_decide (m <= n)).
    { destruct Hp as [Hl _]. pose proof (version_key_drop inverted_block_encoding p m) as Hd. rewrite Hl in Hd.
      destruct table; try done; cbn [keep_row table_column] in *; by rewrite Hu, Hd, decode_encode_tail. }
    rewrite Hkeep. repeat case_bool_decide; try done; lia.
  - destruct table; try done; cbn [table_column keep_row].
    + cbn [table_column] in Hk. destruct (no_hashes _ _ _ _ Hn k v Hk) as (_ & m & Hm & ->).
      rewrite from_be_block_num by done. unfold remove_record. cbn [table_key_len is_versioned andb].
      rewrite length_block_num, decide_False by (by intros []). rewrite decide_False by done. cbn [Nat.sub]. rewrite drop_0.
      unfold encode_block_num. rewrite take_app_length' by (by rewrite length_replicate).
      rewrite decide_False by (by intros []). rewrite drop_app_length' by (by rewrite length_replicate).
      rewrite from_be_be_bytes_small by (by apply is_u64_pow). f_equal. repeat case_bool_decide; try done; lia.
    + cbn [has_cf table_column] in Hcf, Hk. apply bool_decide_eq_true in Hcf. rewrite Hcf.
      destruct (io_plain _ _ (no_infos _ _ _ _ Hn) k v Hcf Hk) as (info & _ & -> & Hdec).
      unfold remove_record. cbn [table_key_len]. rewrite length_h256, decide_False by (by intros []). rewrite decide_True by done.
      rewrite (stored_number _ _ _ Hdec), res_bind_ok. f_equal. repeat case_bool_decide; try done; lia.
Qed.

(** What [rewind_to] leaves in the database. *)
Record rewound d (n : u64) (hash : H256) db' : Prop := {
  rw_kv : kv_ok db';
  rw_contents c k : kv_contents db' c k =
    if decide (c = LatestBlockHash /\ k = [1]) then Some (h256_bytes hash) else kept d n c k (kv_contents (dr_db d) c k);
  rw_versions c k ts : kv_versions db' c k ts = kv_versions (dr_db d) c k ts;
}.

Lemma rewind_to_ok d hd target :
  node_ok blocks codes d hd -> is_u32 (bi_number target) ->
  exists db', rewind_to d target inverted_block_encoding = (Ok tt, set_db d db') /\ rewound d (bi_number target) (bi_hash target) db'.
Proof.
  intros Hn Hnu. set (n := bi_number target) in *. pose proof (db_kv _ _ _ _ Hn) as Hkv. unfold rewind_to. fold n.
  destruct (truncate_tables_ok n REWIND_TABLES d) as (db1 & -> & Hkv1 & Hcon1 & Hver1); [|done|by eapply node_rows_right|].
  { cbn. repeat constructor; rewrite ?elem_of_cons, ?elem_of_nil; naive_solver. }
  cbn [sbind]. change (map table_column REWIND_TABLES) with [AddressToAccount; AddressToStorage; BlockNumToBlockHash; BlockHashToBlockInfo] in Hcon1.
  assert (exists db2, (if has_cf (set_db d db1) BlockNumToBlockInfo
     then write_ops (set_db d db1) [OpDeleteRange BlockNumToBlockInfo (index_key (n + 1)) (replicate 9 255)]
     else (Ok tt, set_db d db1)) = (Ok (E := Error E) tt, set_db d db2) /\ kv_ok db2 /\
    (forall c k, kv_contents db2 c k = kept d n c k (kv_contents (dr_db d) c k)) /\
    (forall c k ts, kv_versions db2 c k ts = kv_versions (dr_db d) c k ts)) as (db2 & -> & Hkv2 & Hcon2 & Hver2).
  { assert (Hother : forall c k, c <> BlockNumToBlockInfo -> kv_contents db1 c k = kept d n c k (kv_contents (dr_db d) c k)).
    { intros c k Hc. rewrite Hcon1. case_decide as Hin; [done|]. unfold kept.
      destruct (kv_contents (dr_db d) c k); [|done]. destruct c; try done; exfalso; apply Hin; rewrite !elem_of_cons; tauto. }
    assert (Hinfo : forall k, kv_contents db1 BlockNumToBlockInfo k = kv_contents (dr_db d) BlockNumToBlockInfo k).
    { intros k. rewrite Hcon1, decide_False; [done|]. rewrite !elem_of_cons, elem_of_nil. naive_solver. }
    cbn [has_cf set_db dr_block_index]. destruct (bool_decide_reflect (dr_block_index d <> None)) as [Hix|Hix].
    - destruct (write_ops_ok (set_db d db1) [OpDeleteRange BlockNumToBlockInfo (index_key (n + 1)) (replicate 9 255)] Hkv1)
        as (db2 & -> & Hkv2 & Hcon2 & Hver2). exists db2. split; [done|]. split; [done|]. cbn [set_db dr_db fold_left] in *.
      split; [|intros; rewrite Hver2; apply Hver1]. intros c k. rewrite Hcon2. cbn [op_contents].
      destruct (decide (c = BlockNumToBlockInfo)) as [->|Hc]; [|rewrite decide_False by (by intros [<- _]); by apply Hother].
      rewrite Hinfo. unfold kept, keep_row. destruct (dr_block_index d); [|done].
      destruct (kv_contents (dr_db d) BlockNumToBlockInfo k); [|by case_decide].
      case_decide as Hd; case_bool_decide as Hb; cbn [negb]; try done; exfalso; tauto.
    - exists db1. split; [done|]. split; [done|]. split; [|done]. intros c k.
      destruct (decide (c = BlockNumToBlockInfo)) as [->|Hc]; [|by apply Hother]. rewrite Hinfo. unfold kept, keep_row.
      destruct (dr_block_index d); [by destruct Hix|]. by destruct (kv_contents (dr_db d) BlockNumToBlockInfo k). }
  cbn [sbind]. destruct (write_ops_ok (set_db d db2) [OpPut LatestBlockHash [1] (h256_bytes (bi_hash target))] Hkv2)
    as (db' & -> & Hkv' & Hcon' & Hver'). exists db'. split; [done|]. cbn [set_db dr_db fold_left] in *. split; [done| |].
  - intros c k. rewrite Hcon'. cbn [op_contents]. rewrite Hcon2. repeat case_decide; naive_solver.
  - intros c k ts. rewrite Hver'. apply Hver2.
Qed.
End rewind_facts.
