(* ===== verification/RewindTheorems.v ===== *)
(** * Rewinding an archive: the node afterwards

    A rewind to a stored block leaves a disk whose last block is that one,
    with every block up to it and its state as before, and no block above. *)

From stdpp Require Import prelude gmap list sorting strings.
From S2P Require Import Prelude Types QuickCache Backend KvStore MemKv ArchiveEncoding StateCache BlockIndex.
From S2P Require Import BlockIndexFacts BlockIndexStore BlockIndexRun BlockIndexTheorems Archive ArchiveReads ArchiveSlots.
From S2P Require Import ArchiveWrite ArchiveCommit Wrapper WrapperFacts ArchiveBackend ArchiveUpdate ArchiveStore.
From S2P Require Import Layers LayersFacts TreeReads ArchiveRun ArchiveExample ArchiveTheorems.
From S2P Require Import ArchiveDisk ArchiveOpen MoveInfos Rewind RewindFacts.

#[local] Open Scope Z_scope.
#[local] Open Scope state_scope.

Section rewound.
Context {K E : Type} `{RocksDBOk K E} {C : Type -> Type -> Type} `{QuickCacheOk C}.
Context `{SlimCodecOk} `{BlockCodecOk E} `{ArchiveConfig} `{RevmBytecode}.
Context `{!RocksDBAdmin K E} `{!RocksDBAdminOk K E} `{ArchiveEnv}.
Context (blocks : gmap H256 BlockInfo) (codes : H256 -> option bytes).
Context (Hblocks : blocks_ok blocks).
Implicit Types (d : DataBaseRef K C) (dk : Disk K) (db : K).

(** ** What the rows of a rewound database are *)

Section rows.
Context d (n : u64) (hash : H256) (db' : K) (Hr : rewound d n hash db').

Lemma rewound_sub c k v : kv_contents db' c k = Some v -> c <> LatestBlockHash -> kv_contents (dr_db d) c k = Some v.
Proof.
  rewrite (rw_contents _ _ _ _ Hr). intros Hk Hc. rewrite decide_False in Hk by (by intros [? _]). unfold kept in Hk.
  destruct (kv_contents (dr_db d) c k) as [w|]; [|done]. by destruct (keep_row d n c k w).
Qed.

Lemma rewound_keep c k v :
  c <> LatestBlockHash -> kv_contents (dr_db d) c k = Some v -> keep_row (E := E) d n c k v = true -> kv_contents db' c k = Some v.
Proof.
  intros Hc Hk Hkeep. rewrite (rw_contents _ _ _ _ Hr), decide_False by (by intros [? _]). unfold kept. by rewrite Hk, Hkeep.
Qed.

Lemma rewound_version col p m : versioned col -> length p = prefix_len col -> is_u64 m ->
  version_at (dr_udt d) db' col p m =
    if decide (m <= n \/ dr_udt d = true) then version_at (dr_udt d) (dr_db d) col p m else None.
Proof.
  intros Hc Hl Hm. unfold version_at. destruct (dr_udt d) eqn:Hu.
  - rewrite decide_True by (by right). apply (rw_versions _ _ _ _ Hr).
  - rewrite (rw_contents _ _ _ _ Hr), decide_False by (intros [-> _]; by destruct Hc). unfold kept.
    assert (Hkeep : forall v, keep_row (E := E) d n col (version_key inverted_block_encoding p m) v = bool_decide (m <= n)).
    { intros v. pose proof (version_key_drop inverted_block_encoding p m) as Hd. rewrite Hl in Hd.
      destruct Hc as [-> | ->]; cbn [keep_row]; by rewrite Hu, Hd, decode_encode_tail. }
    destruct (kv_contents (dr_db d) col _) as [v|]; [|by case_decide]. rewrite Hkeep.
    case_bool_decide; case_decide; naive_solver.
Qed.

Lemma rewound_hash m : is_u64 m ->
  kv_contents db' BlockNumToBlockHash (encode_block_num m) =
    if decide (m <= n) then kv_contents (dr_db d) BlockNumToBlockHash (encode_block_num m) else None.
Proof.
  intros Hm. rewrite (rw_contents _ _ _ _ Hr), decide_False by (by intros [? _]). unfold kept, keep_row.
  rewrite from_be_block_num by done. destruct (kv_contents _ _ _); [|by case_decide]. case_bool_decide; by case_decide.
Qed.

Lemma rewound_code x : code_of db' x = code_of (dr_db d) x.
Proof.
  unfold code_of. rewrite (rw_contents _ _ _ _ Hr), decide_False by (by intros [? _]). by destruct (kv_contents _ _ _).
Qed.

Lemma rewound_info i : blocks !! bi_hash i = Some i -> is_u32 n -> bi_number i <= n ->
  info_stored (E := E) d i -> info_stored (E := E) (C := C) (bare db' (dr_block_index d) (dr_udt d)) i.
Proof.
  intros Hb Hn Hle (raw & Hdec & Hst). exists raw. split; [done|]. cbn [bare dr_block_index dr_db].
  pose proof (bk_number _ Hblocks _ _ Hb) as Hi.
  destruct (dr_block_index d) as [ix|] eqn:Hix; (apply rewound_keep; [done..|]); cbn [keep_row]; rewrite Hix.
  - rewrite bool_decide_false; [done|]. intros [Hge _]. revert Hge. unfold bytes_le, index_key.
    rewrite be_bytes_cmp by (apply is_u64_pow; unfold is_u64, is_u32, u32_max, u64_max in *; lia).
    intros Hge. apply Hge. apply Z.compare_gt_iff. lia.
  - rewrite (stored_number _ _ _ Hdec). by apply bool_decide_true.
Qed.
End rows.

(** Versions of keys of the wrong length are not there. *)
Lemma version_short d hd col p m v :
  node_ok blocks codes d hd -> versioned col -> is_u64 m -> version_at (dr_udt d) (dr_db d) col p m = Some v -> key_wf col p.
Proof.
  intros Hn Hc Hm. pose proof (ao_db _ (no_archive _ _ _ _ Hn)) as Hdb. unfold version_at. destruct (dr_udt d) eqn:Hu; intros Hv.
  - apply (do_ts _ _ Hdb col p m eq_refl Hc). by eexists.
  - destruct (do_plain _ _ Hdb col _ eq_refl Hc (mk_is_Some _ _ Hv)) as (p' & m' & Hp & Hm' & Heq).
    by apply app_inj_2 in Heq as [-> _]; [|by rewrite !length_tail].
Qed.

(** The blocks left in CF 3. *)
Lemma rewound_cf3 d n hash db' B : rewound d n hash db' -> cf3 (dr_db d) B ->
  exists B', cf3 db' B' /\ B' ⊆ B /\ forall b, b ∈ B' -> b.2 <= n.
Proof.
  intros Hr Hc. assert (Hsub : filter (fun b => b.2 <= n) B ⊆ B) by (by intros b [_ Hin]%elem_of_filter).
  exists (filter (fun b => b.2 <= n) B). split; [|split; [done|by intros b [? _]%elem_of_filter]].
  split; [apply Hr| |intros h m Hin%Hsub; by apply (c3_range _ _ Hc)]. intros k' v. split.
  - intros Hk. pose proof (rewound_sub _ _ _ _ Hr _ _ _ Hk ltac:(done)) as Hold.
    apply (c3_get _ _ Hc) in Hold as ([h m] & Hin & Heq). apply pair_equal_spec in Heq as [-> ->].
    exists (h, m). split; [|done]. apply elem_of_filter. split; [|done]. cbn [snd] in *.
    rewrite (rewound_hash _ _ _ _ Hr) in Hk by (apply u32_u64; by apply (c3_range _ _ Hc h m)). by case_decide.
  - intros ([h m] & [Hle Hin]%elem_of_filter & Heq). apply pair_equal_spec in Heq as [-> ->]. cbn [fst snd] in *.
    rewrite (rewound_hash _ _ _ _ Hr) by (apply u32_u64; by apply (c3_range _ _ Hc h m)). rewrite decide_True by done.
    apply (c3_get _ _ Hc). by exists (h, m).
Qed.

(** The block index and its file are right for them. *)
Lemma rewound_index d n hash db' ix :
  rewound d n hash db' -> run_ok (E := E) crc32 (block_entries blocks) (dr_db d) ix ->
  run_ok (E := E) crc32 (block_entries blocks) db' ix.
Proof.
  intros Hr (B & k & N & Hc & HB & HN & Hrun). destruct (rewound_cf3 _ _ _ _ B Hr Hc) as (B' & Hc' & Hsub & _).
  exists B', k, N. split_and!; [done|by etransitivity..|by eapply run_inv_mono].
Qed.

Lemma rewound_file d n hash db' file :
  rewound d n hash db' -> index_file_ok (E := E) blocks (dr_db d) file -> index_file_ok (E := E) blocks db' file.
Proof.
  intros Hr (B & Hc & HB & Hf). destruct (rewound_cf3 _ _ _ _ B Hr Hc) as (B' & Hc' & Hsub & _).
  exists B'. split; [done|]. split; [by etransitivity|]. intros bytes Hb. destruct (Hf bytes Hb) as (l & Hl).
  exists l. by eapply file_covers_mono.
Qed.

(** What is left of the block infos can be moved if all of them could. *)
Lemma rewound_movable d hd n hash db' :
  node_ok blocks codes d hd -> dr_block_index d = None -> is_u32 n -> rewound d n hash db' ->
  movable blocks (dr_db d) -> movable blocks db'.
Proof.
  intros Hn Hix Hnu Hr (B & [Hc HB Hi] & Hforks). destruct (rewound_cf3 _ _ _ _ B Hr Hc) as (B' & Hc' & Hsub & Hle).
  exists B'. split; [split; [done|by etransitivity|]|].
  - intros h m Hin. pose proof (Hle _ Hin) as Hm. apply Hsub in Hin. destruct (Hi h m Hin) as [raw Hraw].
    apply HB, elem_of_block_entries in Hin as (bi & Hb & <-). pose proof (bk_hash _ Hblocks _ _ Hb) as (Hh & Hu & _).
    destruct (io_plain _ _ (no_infos _ _ _ _ Hn) _ _ Hix Hraw) as (info & Hbi & Heq & Hdec).
    apply h256_inj in Heq; [|done|by apply (block_u256 blocks Hblocks)]. assert (info = bi) as -> by congruence.
    destruct (rewound_info _ _ _ _ Hr bi) as (raw' & _ & Hst); [by rewrite Hh|done|done|exists raw; by rewrite Hix, Hh in *|].
    cbn [bare dr_db dr_block_index] in Hst. rewrite Hix, Hh in Hst. by eexists.
  - intros k Hk info h Hb [raw Hs] Hin. apply (Hforks k Hk info h Hb); [|by apply Hsub]. eexists. by eapply rewound_sub.
Qed.

(** The rewound archive is right, and has the blocks up to the target. *)
Lemma node_rewound d hd info db' :
  node_ok blocks codes d hd -> block_stored blocks d info -> rewound d (bi_number info) (bi_hash info) db' ->
  (dr_udt d = true -> forall col k ts, versioned col -> bi_number info < ts -> kv_versions (dr_db d) col k ts = None) ->
  node_ok blocks codes (bare db' (dr_block_index d) (dr_udt d)) info /\
  carries blocks codes (bi_number info) d (bare db' (dr_block_index d) (dr_udt d)).
Proof.
  intros Hn Hs Hr Htrim. pose proof Hs as (Hb & Hinfo & Hhash). pose proof (bk_number _ Hblocks _ _ Hb) as Hnu.
  set (n := bi_number info) in *. pose proof (u32_u64 _ Hnu) as Hn64.
  assert (Hvs : forall col p m v, versioned col -> is_u64 m -> version_at (dr_udt d) db' col p m = Some v ->
    version_at (dr_udt d) (dr_db d) col p m = Some v).
  { intros col p m v Hc Hm. unfold version_at. destruct (dr_udt d); [by rewrite (rw_versions _ _ _ _ Hr)|].
    intros Hv. apply (rewound_sub _ _ _ _ Hr) in Hv; [done|]. by destruct Hc as [-> | ->]. }
  pose proof Hn as [[[Hok Hpl Hts Hac] _] [Hio Hii Hix Hic] Hhd Hlat Hhi Hhh Hhs Hver _ Hcod _]. split.
  - split; cbn [bare dr_db dr_udt dr_block_index dr_code_cache dr_state_cache]; try done.
    + split; [|done]. cbn [bare dr_db dr_udt]. split; [apply Hr| | |].
      * intros col k Hu Hc [v Hv]. apply (Hpl col k Hu Hc). exists v. apply (rewound_sub _ _ _ _ Hr); [done|]. by destruct Hc as [-> | ->].
      * intros col k m Hu Hc. rewrite (rw_versions _ _ _ _ Hr). by apply Hts.
      * intros p m raw Hm Hv. eapply Hac; [done|]. apply Hvs; [by left|done..].
    + split; cbn [bare dr_db dr_block_index dr_block_info_cache]; try done.
      * intros k raw Hi Hk. apply (Hio k raw Hi). by apply (rewound_sub _ _ _ _ Hr).
      * intros k r Hi Hk. apply (Hii k r Hi). by apply (rewound_sub _ _ _ _ Hr).
      * intros ix Hi. by apply (rewound_index d (bi_number info) (bi_hash info)), Hix.
    + rewrite (rw_contents _ _ _ _ Hr). by rewrite decide_True.
    + by apply (rewound_info _ _ _ _ Hr).
    + rewrite (rewound_hash _ _ _ _ Hr) by done. by rewrite decide_True.
    + intros k raw Hk. apply (Hhs k raw). by apply (rewound_sub _ _ _ _ Hr).
    + intros col p m Hc Hm Hlt. destruct (version_at (dr_udt d) db' col p m) as [v|] eqn:Hv; [|done].
      pose proof (Hvs _ _ _ _ Hc Hm Hv) as Hold. pose proof (version_short d hd col p m v Hn Hc Hm Hold) as [Hl _].
      rewrite (rewound_version _ _ _ _ Hr) in Hv by done. case_decide as Hd; [|done]. destruct Hd as [?|Hu]; [lia|].
      unfold version_at in Hold. by rewrite Hu, (Htrim Hu col p m Hc) in Hold by done.
    + intros k raw Hk. apply Hcod. by apply (rewound_sub _ _ _ _ Hr).
  - intros i (Hbi & Hii' & Hhi') Hle. pose proof (block_u64 blocks Hblocks i Hbi) as Hiu. split.
    + split; [done|]. split; [by apply (rewound_info _ _ _ _ Hr)|]. cbn [bare dr_db].
      rewrite (rewound_hash _ _ _ _ Hr) by done. by rewrite decide_True.
    + apply kept_persists; cbn [bare dr_db dr_udt]; [done..| | |apply (rewound_code _ _ _ _ Hr)].
      * intros col p b Hc Hbu Hbi'. destruct (version_at (dr_udt d) (dr_db d) col p b) as [v|] eqn:Hv.
        -- pose proof (version_short d hd col p b v Hn Hc Hbu Hv) as [Hl _]. rewrite (rewound_version _ _ _ _ Hr) by done.
           rewrite decide_True by (left; lia). done.
        -- destruct (version_at (dr_udt d) db' col p b) as [v|] eqn:Hv'; [|done]. apply Hvs in Hv'; [|done..]. congruence.
      * intros b Hbu Hbi'. unfold hash_at. rewrite (rewound_hash _ _ _ _ Hr) by done. rewrite decide_True by lia. done.
Qed.

(** ** [rewind_archive] *)

Lemma rewind_block_ok d hd number info :
  node_ok blocks codes d hd -> block_stored blocks d info ->
  match number with Some n => n = bi_number info | None => info = hd end ->
  exists d', rewind_block d number = (Ok info, d') /\ reinfo blocks d d'.
Proof.
  intros Hn Hs Hnum. pose proof Hs as (Hb & _ & Hhash). destruct (bk_hash _ Hblocks _ _ Hb) as (_ & Hu & Hnz). unfold rewind_block.
  assert (match number with Some n => read_block_hash d n | None => read_latest_block_hash d end = Ok (bi_hash info)) as ->.
  { destruct number as [n|]; subst.
    - rewrite (read_block_hash_ok blocks codes d hd) by done. unfold hash_at. by rewrite Hhash, from_be_h256.
    - by apply (read_latest_ok blocks codes Hblocks). }
  cbn [sbind]. destruct (read_block_info_ok blocks codes Hblocks d hd info Hn Hs) as (d' & -> & Hr). cbn [sbind].
  exists d'. split; [|done]. rewrite (bool_decide_false (bi_hash info = 0)) by done. rewrite bool_decide_false by (by intros []).
  destruct number as [n|]; [|done]. subst n. by rewrite bool_decide_false by (by intros []).
Qed.

(** The encoding of an archive can be told, and the encoding asked for is it:
    it is marked, or an encoding is given (ascending by default) for a
    database that has versions. *)
Definition encoding_known d (encoding : option bool) : Prop :=
  (kv_contents (dr_db d) LatestBlockHash ENCODING_MARKER_KEY = Some [if inverted_block_encoding then 1 else 0] /\
   (encoding = None \/ encoding = Some inverted_block_encoding)) \/
  (kv_contents (dr_db d) LatestBlockHash ENCODING_MARKER_KEY = None /\ default false encoding = inverted_block_encoding /\
   dr_udt d = false /\ exists col k, versioned col /\ is_Some (kv_contents (dr_db d) col k)).

Lemma first_record_ok d hd table :
  node_ok blocks codes d hd -> dr_udt d = false -> is_versioned table = true ->
  exists b, first_record (E := E) d table = Ok b /\
    forall k, is_Some (kv_contents (dr_db d) (table_column table) k) -> b = true.
Proof.
  intros Hn Hu Ht. unfold first_record.
  destruct (rk_iter (dr_db d) (table_column table) (db_kv _ _ _ _ Hn)) as (rows & -> & _ & Hrows). cbn [rocks]. rewrite res_bind_ok.
  destruct rows as [|[key value] rows].
  - exists false. split; [done|]. intros k [v Hv]. apply Hrows in Hv. by apply elem_of_nil in Hv.
  - assert (Hk : kv_contents (dr_db d) (table_column table) key = Some value) by (apply Hrows; by left).
    assert (Hc : versioned (table_column table)) by (destruct table; [by left|by right|done..]).
    destruct (do_plain _ _ (ao_db _ (no_archive _ _ _ _ Hn)) _ key Hu Hc ltac:(by eexists)) as (p & m & Hp & Hm & ->).
    destruct (version_key_flip inverted_block_encoding false p m Hm) as (m' & Hm' & ->).
    rewrite remove_version by (done || in_range). rewrite res_bind_ok. by exists true.
Qed.

Lemma rewind_layout_ok d hd encoding :
  node_ok blocks codes d hd -> encoding_known d encoding ->
  exists marker populated stored, rewind_layout (E := E) d = Ok (marker, populated) /\ stored_encoding (E := E) marker = Ok stored /\
    match stored, encoding with Some a, Some b => a = b | _, _ => True end /\
    default false (match stored with Some a => Some a | None => encoding end) = inverted_block_encoding /\
    negb populated && bool_decide (stored = None) = false.
Proof.
  intros Hn Henc. unfold rewind_layout. rewrite (rk_get (dr_db d) _ _ (db_kv _ _ _ _ Hn)). cbn [rocks]. rewrite res_bind_ok.
  assert (exists populated, (if dr_udt d then Ok (kv_contents (dr_db d) LatestBlockHash ENCODING_MARKER_KEY, false) else
      accounts ← first_record d Accounts; storage ← first_record d Storage;
      Ok (kv_contents (dr_db d) LatestBlockHash ENCODING_MARKER_KEY, accounts || storage)) =
      Ok (E := Error E) (kv_contents (dr_db d) LatestBlockHash ENCODING_MARKER_KEY, populated) /\
    (dr_udt d = false -> (exists col k, versioned col /\ is_Some (kv_contents (dr_db d) col k)) -> populated = true))
    as (populated & -> & Hpop).
  { destruct (dr_udt d) eqn:Hu; [by exists false|].
    destruct (first_record_ok d hd Accounts Hn Hu eq_refl) as (a & -> & Ha).
    destruct (first_record_ok d hd Storage Hn Hu eq_refl) as (b & -> & Hb). rewrite !res_bind_ok.
    exists (a || b). split; [done|]. intros _ (col & k & [-> | ->] & Hk); [by rewrite (Ha k Hk)|by rewrite (Hb k Hk), orb_true_r]. }
  destruct Henc as [[-> Henc]|(-> & Henc & Hu & Hrow)].
  - eexists _, populated, (Some inverted_block_encoding). split; [done|]. split; [by destruct inverted_block_encoding|].
    split; [by destruct Henc as [-> | ->]|]. split; [done|]. by rewrite andb_false_r.
  - eexists None, populated, None. split; [done|]. split; [done|]. split; [done|]. split; [done|]. by rewrite (Hpop Hu Hrow).
Qed.

Lemma rewind_archive_ok d hd info encoding :
  node_ok blocks codes d hd -> block_stored blocks d info -> bi_number info <= bi_number hd -> encoding_known d encoding ->
  exists d', rewind_archive d (bi_number info) encoding (Ok tt) = (Ok (info, inverted_block_encoding), d') /\
    dr_block_index d' = dr_block_index d /\ dr_udt d' = dr_udt d /\ rewound d (bi_number info) (bi_hash info) (dr_db d').
Proof.
  intros Hn Hs Hle Henc. unfold rewind_archive.
  destruct (rewind_layout_ok d hd encoding Hn Henc) as (marker & populated & stored & -> & Hst & Hconf & Hinv & Hpop).
  cbn [sbind fst snd]. rewrite Hst. cbn [sbind].
  assert (match stored, encoding with Some a, Some b => negb (eqb a b) | _, _ => false end = false) as ->.
  { destruct stored, encoding; try done. subst. by rewrite eqb_reflx. }
  rewrite Hinv, Hpop. destruct (rewind_block_ok d hd None hd Hn (node_block _ _ _ _ Hn) eq_refl) as (d1 & -> & Hr1). cbn [sbind].
  rewrite decide_False by lia. pose proof (node_reinfo _ _ _ _ _ Hn Hr1) as Hn1. destruct Hr1 as [Hd1 _].
  assert (Hs1 : block_stored blocks d1 info) by (rewrite Hd1; exact Hs).
  destruct (rewind_block_ok d1 hd (Some (bi_number info)) info Hn1 Hs1 eq_refl) as (d2 & -> & Hr2). cbn [sbind].
  pose proof (node_reinfo _ _ _ _ _ Hn1 Hr2) as Hn2. destruct Hr2 as [Hd2 _].
  destruct (rewind_to_ok blocks codes d2 hd info Hn2) as (db' & -> & Hrw); [eapply (bk_number _ Hblocks), Hs|].
  cbn [sbind]. eexists. split; [done|]. cbn [set_db dr_block_index dr_udt dr_db].
  assert (Hsame : dr_block_index d2 = dr_block_index d /\ dr_udt d2 = dr_udt d /\ dr_db d2 = dr_db d) by (rewrite Hd2, Hd1; done).
  destruct Hsame as (Hi & Hu & Hdb). split; [done|]. split; [done|]. destruct Hrw as [Hkv Hcon Hver].
  split; [done| |by rewrite <- Hdb]. intros c k. rewrite Hcon, Hdb. unfold kept, keep_row. by rewrite Hi, Hu.
Qed.

(** ** Schema v3: the check and the trim *)

Lemma starts_with_hash x y raw : is_u256 x -> is_u256 y -> starts_with (index_record x raw) (h256_bytes y) = bool_decide (x = y).
Proof.
  intros Hx Hy. unfold starts_with. rewrite length_h256. unfold index_record. rewrite take_address.
  case_bool_decide as Ha; case_bool_decide as Hb; subst; try done. exfalso. by apply Hb, h256_inj.
Qed.

(** The head's record is found from the end of CF 7. *)
Lemma find_head_ok hd rows :
  blocks !! bi_hash hd = Some hd ->
  (forall k r, (k, r) ∈ rows -> exists info raw, blocks !! bi_hash info = Some info /\ k = index_key (bi_number info) /\ r = index_record (bi_hash info) raw) ->
  (exists raw, (index_key (bi_number hd), index_record (bi_hash hd) raw) ∈ rows) ->
  find_head (E := E) (h256_bytes (bi_hash hd)) rows = Ok (Some (bi_number hd)).
Proof.
  intros Hb. induction rows as [|[k r] rows IH]; intros Hrows (raw & Hin); [by apply elem_of_nil in Hin|]. cbn [find_head].
  destruct (Hrows k r ltac:(by left)) as (info & raw' & Hb' & -> & ->).
  rewrite starts_with_hash by (by apply (block_u256 blocks Hblocks)). case_bool_decide as Heq.
  - assert (info = hd) as -> by (rewrite Heq in Hb'; congruence). unfold index_key. rewrite length_be_bytes, decide_True by done.
    rewrite from_be_be_bytes_small; [done|]. by apply is_u64_pow, (block_u64 blocks Hblocks).
  - apply IH; [intros k' r' Hin'; apply Hrows; by right|]. exists raw. apply elem_of_cons in Hin as [Hin|Hin]; [|done].
    exfalso. apply Heq. apply pair_equal_spec in Hin as [_ Hr]. apply (f_equal (take 32)) in Hr. unfold index_record in Hr.
    rewrite !take_address in Hr. symmetry. apply h256_inj; [by apply (block_u256 blocks Hblocks)..|done].
Qed.

Lemma check_rewind_target_ok dk ix udt hd info :
  disk_ok (C := C) blocks codes dk ix udt hd -> block_stored blocks (bare (C := C) (dk_db dk) ix udt) info -> bi_number info <= bi_number hd ->
  check_rewind_target (E := E) dk (bi_number info) = Ok tt.
Proof.
  intros Hd (Hb & (raw & Hdec & Hst) & Hhash) Hle. pose proof (do_node _ _ _ _ _ _ Hd) as Hn. pose proof (do_layout _ _ _ _ _ _ Hd) as Hl.
  pose proof (db_kv _ _ _ _ Hn) as Hkv. pose proof (no_head_info _ _ _ _ Hn) as (hraw & Hhdec & Hhst).
  pose proof (no_latest _ _ _ _ Hn) as Hlat. cbn [bare dr_db dr_block_index] in *. unfold check_rewind_target.
  rewrite !(rk_get (dk_db dk) _ _ Hkv), Hlat, Hhash. cbn [rocks]. rewrite !res_bind_ok. destruct ix as [ix|].
  - destruct Hl as (Hc2 & _). assert (has_column dk BlockHashToBlockInfo = false) as -> by (by apply bool_decide_false).
    destruct (rk_iter (dk_db dk) BlockNumToBlockInfo Hkv) as (rows & -> & _ & Hrows). cbn [rocks]. rewrite res_bind_ok.
    rewrite (rev_alt rows : rev rows = reverse rows), (find_head_ok hd); [|apply Hn| |].
    + rewrite res_bind_ok, Hst. cbn [rocks]. rewrite !res_bind_ok.
      rewrite starts_with_hash by (by apply (block_u256 blocks Hblocks)). rewrite bool_decide_true by done. by rewrite decide_True.
    + intros k r Hin. apply elem_of_reverse, Hrows in Hin.
      destruct (io_indexed _ _ (no_infos _ _ _ _ Hn) k r ltac:(by eexists) Hin) as (i & raw' & Hbi & -> & -> & _). eauto.
    + exists hraw. apply elem_of_reverse, Hrows. exact Hhst.
  - assert (has_column dk BlockHashToBlockInfo = true) as -> by (by apply bool_decide_true). unfold number_of_hash.
    rewrite !(rk_get (dk_db dk) _ _ Hkv), Hst, Hhst. cbn [rocks]. rewrite !res_bind_ok.
    rewrite (stored_number _ _ _ Hdec), (stored_number _ _ _ Hhdec). rewrite !res_bind_ok. by rewrite decide_True.
Qed.

(** Versions above the target are dropped, and nothing else. *)
Lemma trim_history_ok dk ix hd n :
  disk_ok (C := C) blocks codes dk ix true hd -> is_u64 n ->
  exists dk', trim_history (E := E) dk n = (Ok tt, dk') /\ disk_ok (C := C) blocks codes dk' ix true hd /\
    carries blocks codes n (bare (C := C) (dk_db dk) ix true) (bare (C := C) (dk_db dk') ix true) /\
    (forall c k, kv_contents (dk_db dk') c k = kv_contents (dk_db dk) c k) /\
    (forall c k ts, n < ts -> kv_versions (dk_db dk') c k ts = None).
Proof.
  intros Hd Hnu. pose proof (do_node _ _ _ _ _ _ Hd) as Hn. pose proof (db_kv _ _ _ _ Hn) as Hkv. cbn [bare dr_db] in Hkv.
  unfold trim_history. destruct (rk_trim (dk_db dk) n Hkv) as (db' & -> & Hkv' & Hcon & Hver). cbn [rocks].
  eexists. split; [done|]. cbn [set_dk_db dk_db].
  assert (Hc3 : forall B, cf3 (dk_db dk) B -> cf3 db' B).
  { intros B [_ Hget Hrange]. split; [done| |done]. intros k v. by rewrite Hcon. }
  split; [|split; [|split; [done|]]].
  - split; cbn [set_dk_db dk_db dk_columns dk_index dk_schema]; try apply Hd.
    + destruct Hn as [[[_ Hpl Hts Hac] _] [Hio Hii Hix Hic] Hhd Hlat Hhi Hhh Hhs Hvs _ Hcod _]. cbn [bare dr_db dr_udt] in *.
      split; cbn [bare dr_db dr_udt dr_code_cache dr_state_cache]; rewrite ?Hcon; try done.
      * split; [|done]. split; [done|done| |].
        -- intros col k m _ Hc. cbn [bare dr_db]. rewrite Hver. case_decide; [by apply Hts|by intros []].
        -- intros p m raw Hm. unfold version_at. cbn [bare dr_udt dr_db]. rewrite Hver. case_decide; [by apply Hac|done].
      * split; cbn [bare dr_db dr_block_index dr_block_info_cache]; try done.
        -- intros k raw. rewrite Hcon. apply Hio.
        -- intros k r. rewrite Hcon. apply Hii.
        -- intros i Hi. destruct (Hix i Hi) as (B & k & N & Hc & Hrest). exists B, k, N. split; [by apply Hc3|done].
      * destruct Hhi as (raw & Hdec & Hst). exists raw. split; [done|]. cbn [bare dr_db dr_block_index] in *. by destruct ix; rewrite Hcon.
      * intros k raw. rewrite Hcon. apply Hhs.
      * intros col p m Hc Hm Hlt. unfold version_at. cbn [bare dr_udt dr_db]. rewrite Hver. case_decide; [by apply Hvs|done].
      * intros k raw. rewrite Hcon. apply Hcod.
    + pose proof (do_layout _ _ _ _ _ _ Hd) as Hl. destruct ix as [ix|]; [|done].
      destruct Hl as (? & ? & B & Hc & Hrest). split; [done|]. split; [done|]. exists B. split; [by apply Hc3|done].
  - intros i (Hbi & (raw & Hdec & Hst) & Hh) Hle. split.
    + split; [done|]. split; [|by cbn [bare dr_db] in *; rewrite Hcon]. exists raw. split; [done|].
      cbn [bare dr_db dr_block_index] in *. by destruct ix; rewrite Hcon.
    + apply kept_persists; cbn [bare dr_db dr_udt]; [by apply (block_u64 blocks Hblocks)|done| | |].
      * intros col p b _ _ Hb. unfold version_at. rewrite Hver. by rewrite decide_True by lia.
      * intros b _ _. unfold hash_at. by rewrite Hcon.
      * intros x. unfold code_of. by rewrite Hcon.
  - intros c k ts Hlt. rewrite Hver, decide_False; [done|lia].
Qed.

(** ** [rewind_archive_offline] *)

(** The encoding of the archive on a disk, as [encoding_known]. *)
Lemma encoding_same d d' encoding :
  dr_udt d' = dr_udt d ->
  (forall c k, c <> BlockHashToBlockInfo -> c <> BlockNumToBlockInfo -> kv_contents (dr_db d') c k = kv_contents (dr_db d) c k) ->
  encoding_known d encoding -> encoding_known d' encoding.
Proof.
  intros Hu Hcon Henc. unfold encoding_known. rewrite Hu, Hcon by done.
  destruct Henc as [?|(? & ? & ? & col & k & Hc & Hk)]; [by left|right]. split_and!; try done. exists col, k.
  split; [done|]. rewrite Hcon; [done|by destruct Hc as [-> | ->]..].
Qed.

(** Opening the disk and rewinding it, once its versions are trimmed. *)
Lemma rewind_opened dk ix udt hd info encoding :
  disk_ok (C := C) blocks codes dk ix udt hd -> block_stored blocks (bare (C := C) (dk_db dk) ix udt) info ->
  bi_number info <= bi_number hd -> encoding_known (bare (C := C) (dk_db dk) ix udt) encoding ->
  (udt = true -> forall c k ts, bi_number info < ts -> kv_versions (dk_db dk) c k ts = None) ->
  exists d dk1 d' dk' ix', open_inner (C := C) dk false true = (Ok d, dk1) /\
    rewind_archive d (bi_number info) encoding (Ok tt) = (Ok (info, inverted_block_encoding), d') /\ dk' = close_archive dk1 d' /\
    disk_ok (C := C) blocks codes dk' ix' udt info /\ (is_Some ix' <-> is_Some ix) /\
    carries blocks codes (bi_number info) (bare (C := C) (dk_db dk) ix udt) (bare (C := C) (dk_db dk') ix' udt) /\
    (forall m, is_u64 m -> bi_number info < m -> hash_at (dk_db dk') m = 0) /\
    (ix = None -> movable blocks (dk_db dk) -> movable blocks (dk_db dk')).
Proof.
  intros Hd Hs Hle Henc Htrim.
  destruct (open_settled blocks codes Hblocks dk ix udt hd false true Hd) as (d & dk1 & Ho & (Hn & Hu & Hdk & Hcar & Hcon & Hver) & Hix & Hc2); [by left|].
  destruct (Hcar _ info Hs Hle) as [Hs1 _].
  destruct (rewind_archive_ok d hd info encoding Hn Hs1 Hle) as (d' & Hr & Hi' & Hu' & Hrw).
  { by apply (encoding_same (bare (dk_db dk) ix udt)). }
  destruct (node_rewound d hd info (dr_db d') Hn Hs1 Hrw) as [Hn' Hcar'].
  { intros Hudt col k ts Hc Hlt. rewrite Hver by done. apply Htrim; [congruence|done]. }
  eexists d, dk1, d', _, (dr_block_index d). split; [done|]. split; [done|]. split; [done|].
  rewrite Hu in Hn', Hcar'. split; [|split; [done|split; [|split]]].
  - split; cbn [close_archive dk_db dk_columns dk_index dk_schema]; [apply (do_udt _ _ _ _ _ _ Hdk)|done|
      apply (do_known _ _ _ _ _ _ Hdk)|apply (do_columns _ _ _ _ _ _ Hdk)|].
    pose proof (do_layout _ _ _ _ _ _ Hdk) as Hl. unfold close_archive in Hl. cbn [dk_db dk_columns dk_index] in Hl.
    rewrite Hi'. destruct (dr_block_index d); [|done]. destruct Hl as (? & ? & Hf). split; [done|]. split; [done|].
    by eapply rewound_file.
  - eapply carries_trans; [apply Hcar|exact Hcar'|reflexivity].
  - intros m Hm Hlt. cbn [close_archive dk_db]. unfold hash_at. rewrite (rewound_hash _ _ _ _ Hrw) by done. by rewrite decide_False by lia.
  - intros -> Hmov. cbn [close_archive dk_db]. assert (Hnone : dr_block_index d = None) by (destruct (dr_block_index d); [by destruct (proj1 Hix ltac:(by eexists))|done]).
    eapply (rewound_movable d hd); [done|done|eapply (bk_number _ Hblocks), Hs|done|].
    eapply movable_same; [apply (db_kv _ _ _ _ Hn)|by intros; apply Hcon|by apply Hc2|done].
Qed.

Lemma open_for_rewind dk ix udt hd : disk_ok (C := C) blocks codes dk ix udt hd ->
  open_for_archive_rewind (C := C) dk = open_inner (E := E) dk false true.
Proof.
  intros Hd. unfold open_for_archive_rewind. case_decide as Hc; [|done]. exfalso.
  pose proof (do_columns _ _ _ _ _ _ Hd LatestBlockHash) as Hin. rewrite Hc in Hin.
  assert (LatestBlockHash ∈ []) as ?%elem_of_nil; [|done]. apply Hin; [by left|done].
Qed.

Lemma rewind_offline_ok dk ix udt hd info encoding :
  disk_ok (C := C) blocks codes dk ix udt hd -> block_stored blocks (bare (C := C) (dk_db dk) ix udt) info ->
  bi_number info <= bi_number hd -> encoding_known (bare (C := C) (dk_db dk) ix udt) encoding ->
  exists dk' ix', rewind_archive_offline (C := C) dk (bi_number info) encoding (Ok tt) = (Ok (info, inverted_block_encoding), dk') /\
    disk_ok (C := C) blocks codes dk' ix' udt info /\ (is_Some ix' <-> is_Some ix) /\
    carries blocks codes (bi_number info) (bare (C := C) (dk_db dk) ix udt) (bare (C := C) (dk_db dk') ix' udt) /\
    (forall m, is_u64 m -> bi_number info < m -> hash_at (dk_db dk') m = 0) /\
    (ix = None -> movable blocks (dk_db dk) -> movable blocks (dk_db dk')).
Proof.
  intros Hd Hs Hle Henc. unfold rewind_archive_offline. rewrite (do_udt _ _ _ _ _ _ Hd). cbn [sbind]. destruct udt.
  - rewrite (check_rewind_target_ok dk ix true hd info) by done. cbn [sbind].
    destruct (trim_history_ok dk ix hd (bi_number info) Hd) as (dk0 & -> & Hd0 & Hcar0 & Hcon0 & Hver0);
      [apply (block_u64 blocks Hblocks), Hs|]. cbn [sbind].
    destruct (Hcar0 info Hs ltac:(reflexivity)) as [Hs0 _].
    rewrite (open_for_rewind dk0 ix true hd) by done.
    destruct (rewind_opened dk0 ix true hd info encoding Hd0 Hs0 Hle) as (d & dk1 & d' & dk' & ix' & -> & Hr & -> & Hd' & Hix & Hcar & Hh & Hmov);
      [by apply (encoding_same (bare (dk_db dk) ix true))|by intros _; apply Hver0|].
    cbn [sbind]. rewrite Hr. eexists _, ix'. split; [done|]. split; [done|]. split; [done|]. split; [|split; [done|]].
    + eapply carries_trans; [exact Hcar0|exact Hcar|reflexivity].
    + intros Hix0 Hm0. apply Hmov; [done|]. eapply movable_same; [apply (db_kv _ _ _ _ (do_node _ _ _ _ _ _ Hd0))|by intros; apply Hcon0..|done].
  - cbn [sbind]. rewrite (open_for_rewind dk ix false hd) by done.
    destruct (rewind_opened dk ix false hd info encoding Hd Hs Hle Henc) as (d & dk1 & d' & dk' & ix' & -> & Hr & -> & Hd' & Hix & Hcar & Hh & Hmov);
      [done|]. cbn [sbind]. rewrite Hr. by eexists _, ix'.
Qed.

(** C25: a rewind goes back in time and nothing else. When a node that ran
    since it opened a right archive stops, and the archive is rewound offline
    to a block it committed, the rewind succeeds and the archive opens again
    with that block as the latest one; every block up to it can be opened and
    has the state the diffs up to it led to, and no number above it has a
    block. The archive records its encoding, and no other is asked for. *)
Theorem rewind_restores d hd x info st encoding :
  node_ok blocks codes d hd -> reachable_node (E := E) blocks codes d hd x -> (info, st) ∈ nd_blocks x ->
  kv_contents (dr_db d) LatestBlockHash ENCODING_MARKER_KEY = Some [if inverted_block_encoding then 1 else 0] ->
  encoding = None \/ encoding = Some inverted_block_encoding ->
  let d1 := wd_db (nd_world x) in
  can_settle blocks (dr_db d1) (dr_block_index d1) ->
  exists dk1 d' dk2,
    rewind_archive_offline (C := C) (disk_of d1) (bi_number info) encoding (Ok tt) = (Ok (info, inverted_block_encoding), dk1) /\
    open_inner (C := C) dk1 false false = (Ok d', dk2) /\ node_ok blocks codes d' info /\
    (forall i s, (i, s) ∈ nd_blocks x -> bi_number i <= bi_number info ->
      block_stored blocks d' i /\ persists s (block_state blocks codes d' i)) /\
    (forall m, is_u64 m -> bi_number info < m -> read_block_hash (E := E) d' m = Ok 0).
Proof.
  intros Hn Hr Hin Hmark Henc d1 Hby. destruct (reachable_node_inv blocks codes d hd x Hblocks Hn Hr) as (hd' & Hi & Hmeta).
  assert (Hknown : encoding_known d1 encoding) by (left; split; [rewrite <- Hmark; by apply Hmeta|done]).
  destruct (ni_known _ _ _ _ Hi info st Hin) as [Hs Hle _]. fold d1 in Hs. pose proof (ni_node _ _ _ _ Hi : node_ok blocks codes d1 hd') as Hn1.
  destruct (rewind_offline_ok (disk_of d1) (dr_block_index d1) (dr_udt d1) hd' info encoding) as (dk1 & ix1 & Hrw & Hd1 & Hix & Hcar & Hh & Hmov);
    [by apply disk_of_ok|done..|].
  destruct (open_right blocks Hblocks codes dk1 ix1 (dr_udt d1) info false false Hd1) as (d' & dk2 & Ho & (Hn' & Hu & Hdk & Hcar' & Hcon & _) & _).
  { right. destruct Hby as [?|[?|?]]; [by left|right; left; by apply Hix|]. right.
    destruct (dr_block_index d1); [left; apply Hix; by eexists|right; by apply Hmov]. }
  exists dk1, d', dk2. split; [done|]. split; [done|]. split; [done|]. split.
  - intros i s Hi' Hile. destruct (ni_known _ _ _ _ Hi i s Hi') as [Hsi _ Hp].
    destruct (carries_trans _ _ _ _ _ _ _ Hcar (Hcar' (bi_number info)) (reflexivity _) i Hsi Hile) as [Hst Hpp].
    split; [done|]. etransitivity; [exact Hp|]. eapply persists_equiv; [|reflexivity|exact Hpp].
    split; intros; cbn; unfold account_read, storage_read, hash_read; by rewrite ?new_handle_num, ?new_handle_info.
  - intros m Hm Hlt. rewrite (read_block_hash_ok blocks codes d' info m Hn'). f_equal.
    rewrite <- (Hh m Hm Hlt). unfold hash_at. by rewrite Hcon.
Qed.
End rewound.

(** *** Example *)

#[export] Instance ex_env : ArchiveEnv := {|
  block_index_enabled := false;
  env_code_cache_mb := Some 0;
  env_block_info_cache := Some 4;
  env_state_cache_mb := Some 1;
  account_span_size := 104;
  storage_span_size := 56;
|}.

(** Block 6 committed, and rewound. *)
Lemma rewind_restores_witness :
  exists x dk1 d' dk2, ex_reachable true x /\ length (nd_blocks x) = 2%nat /\
    rewind_archive_offline (disk_of (wd_db (nd_world x))) 5 None (Ok tt) = (Ok (E := Error unit) (ex_block 5, true), dk1) /\
    open_inner dk1 false false = (Ok d', dk2) /\ read_block_hash (E := unit) d' 6 = Ok 0.
Proof.
  destruct (ex_run true) as (w0 & h0 & Hr).
  edestruct (rewind_restores (E := unit) ex_chain ex_codes ex_blocks_ok (ex_archive true) (ex_block 5) _ (ex_block 5)
    (ex_state true) None (ex_node_ok true) Hr) as (dk1 & d' & dk2 & Hrw & Ho & _ & _ & Hh);
    [by right; left|by vm_compute|by left|by left|].
  eexists _, dk1, d', dk2. split; [exact Hr|]. split; [done|]. split; [exact Hrw|]. split; [exact Ho|].
  apply Hh; [in_range|done].
Defined.
