(* ===== verification/Migrated.v ===== *)
(** * Archives in another encoding: correctness

    A database whose versions are those of another in a different encoding,
    and whose other columns are the same, is a right archive with the same
    blocks and states. The archives are read under different configurations,
    which differ in the direction of the tails. *)

From stdpp Require Import prelude gmap list sorting strings.
From S2P Require Import Prelude Types QuickCache Backend KvStore MemKv ArchiveEncoding StateCache BlockIndex.
From S2P Require Import BlockIndexFacts BlockIndexStore BlockIndexRun BlockIndexTheorems Archive ArchiveReads ArchiveSlots.
From S2P Require Import ArchiveWrite ArchiveCommit Wrapper WrapperFacts ArchiveBackend ArchiveUpdate ArchiveStore.
From S2P Require Import ArchiveDisk ArchiveOpen Migrate MigrateFacts MoveInfos.

#[local] Open Scope Z_scope.
#[local] Open Scope state_scope.

(** A configuration, with the tails in a given direction. *)
Definition with_encoding (inv : bool) (cfg : ArchiveConfig) : ArchiveConfig :=
  {| inverted_block_encoding := inv; crc32 := @crc32 cfg; archive_index_config := @archive_index_config cfg |}.

Lemma newest_map f g (h : bytes -> bytes) n :
  is_u64 n -> (forall b, is_u64 b -> b <= n -> g b = option_map h (f b)) ->
  newest g n = option_map (fun r => (r.1, h r.2)) (newest f n).
Proof.
  intros Hn Hg. apply newest_unique; [done|]. pose proof (newest_ok f n Hn) as Hf.
  destruct (newest f n) as [[b v]|]; cbn in *.
  - destruct Hf as (Hb & Hle & Hv & Hno). split_and!; try done; [by rewrite Hg, Hv|].
    intros b' Hb' Hr. rewrite Hg by (done || lia). by rewrite Hno.
  - intros b Hb Hle. rewrite Hg by done. by rewrite Hf.
Qed.

Section migrated.
Context {K E : Type} `{RocksDBOk K E} {C : Type -> Type -> Type} `{QuickCacheOk C}.
Context `{SlimCodecOk} `{BlockCodecOk E} `{RevmBytecode}.
Context `{!RocksDBAdmin K E} `{!RocksDBAdminOk K E} `{ArchiveEnv}.
Context (blocks : gmap H256 BlockInfo) (codes : H256 -> option bytes).
Implicit Types (d : DataBaseRef K C) (dk : Disk K) (db : K).

(** The predicates on archives, under a configuration. *)
Definition node_under (cfg : ArchiveConfig) d hd : Prop := node_ok blocks codes d hd.
Definition infos_under (cfg : ArchiveConfig) d : Prop := infos_ok (E := E) blocks d.
Definition state_under (cfg : ArchiveConfig) d info : AState := block_state blocks codes d info.
Definition disk_under (cfg : ArchiveConfig) dk ix udt hd : Prop := disk_ok (C := C) blocks codes dk ix udt hd.
Definition known_under (cfg : ArchiveConfig) : Prop := blocks_ok blocks.

Lemma known_any (cfg : ArchiveConfig) inv inv' : known_under (with_encoding inv cfg) -> known_under (with_encoding inv' cfg).
Proof. intros []. by split. Qed.

(** The blocks of [d] are in [d'] with their states. *)
Definition carries_under (cfg cfg' : ArchiveConfig) d d' : Prop :=
  forall i, block_stored blocks d i -> block_stored blocks d' i /\ persists (state_under cfg d i) (state_under cfg' d' i).

Definition version_of (inv udt : bool) db (col : StorageTypeColumn) (p : bytes) (n : u64) : option bytes :=
  if udt then kv_versions db col p n else kv_contents db col (version_key inv p n).

(** The plain columns that matter: block infos are by hash or by number. *)
Definition in_use (ix : option BlockIndex) (c : StorageTypeColumn) : Prop :=
  ~ versioned c /\ (c = BlockHashToBlockInfo -> ix = None) /\ (c = BlockNumToBlockInfo -> is_Some ix).

(** [db'] holds in its encoding what [db] does. *)
Record migrated (ix : option BlockIndex) (inv udt inv' udt' : bool) db db' : Prop := {
  mg_kv : kv_ok db';
  mg_plain c k : in_use ix c -> (c, k) <> (LatestBlockHash, ENCODING_MARKER_KEY) -> kv_contents db' c k = kv_contents db c k;
  mg_version col p n : versioned col -> is_u64 n -> n <> u64_max ->
    version_of inv' udt' db' col p n = option_map (stored udt' col) (version_of inv udt db col p n);
  mg_last col p : versioned col -> version_of inv' udt' db' col p u64_max = None;
  mg_keys col k : udt' = false -> versioned col -> is_Some (kv_contents db' col k) ->
    exists p n, key_wf col p /\ is_u64 n /\ k = version_key inv' p n;
  mg_ts col k n : udt' = true -> versioned col -> is_Some (kv_versions db' col k n) -> key_wf col k;
}.

Section databases.
Context (cfg : ArchiveConfig) (inv udt inv' udt' : bool) (db db' : K) (ix : option BlockIndex) (hd : BlockInfo).
Context (Hblocks : known_under (with_encoding inv cfg)).
Context (Hm : migrated ix inv udt inv' udt' db db').

Lemma migrated_version col p n : versioned col -> is_u64 n -> is_u32 n ->
  version_of inv' udt' db' col p n = option_map (stored udt' col) (version_of inv udt db col p n).
Proof. intros Hc Hn Hu. apply (mg_version _ _ _ _ _ _ _ Hm); [done..|]. unfold is_u32, u32_max, u64_max in *. lia. Qed.

Lemma migrated_plain c k : c = BlockNumToBlockHash \/ c = HashToCode -> kv_contents db' c k = kv_contents db c k.
Proof. intros Hc. apply (mg_plain _ _ _ _ _ _ _ Hm); [|by destruct Hc as [-> | ->]]. split_and!; [intros [?|?]| |]; by destruct Hc as [-> | ->]. Qed.

Lemma migrated_info_column k :
  match ix with
  | Some _ => kv_contents db' BlockNumToBlockInfo k = kv_contents db BlockNumToBlockInfo k
  | None => kv_contents db' BlockHashToBlockInfo k = kv_contents db BlockHashToBlockInfo k
  end.
Proof. destruct ix; apply (mg_plain _ _ _ _ _ _ _ Hm); (by intros [=]) || (split; [by intros [?|?]|split; done]). Qed.

Lemma migrated_cf3 B : cf3 db B -> cf3 db' B.
Proof. intros [_ Hget Hrange]. split; [apply Hm| |done]. intros k v. rewrite <- Hget. by rewrite migrated_plain by (by left). Qed.

Lemma migrated_info i : info_stored (E := E) (bare (C := C) db ix udt) i -> info_stored (E := E) (bare (C := C) db' ix udt') i.
Proof.
  intros (raw & Hdec & Hst). exists raw. split; [done|]. cbn [bare dr_db dr_block_index] in *.
  pose proof migrated_info_column as Hc. by destruct ix; rewrite Hc.
Qed.

Lemma migrated_carries :
  carries_under (with_encoding inv cfg) (with_encoding inv' cfg) (bare db ix udt) (bare db' ix udt').
Proof.
  intros i (Hb & Hi & Hh). pose proof (bk_number _ Hblocks _ _ Hb) as Hu. pose proof (u32_u64 _ Hu) as Hu'.
  assert (Hv : forall col p b, versioned col -> is_u64 b -> b <= bi_number i ->
    version_of inv' udt' db' col p b = option_map (stored udt' col) (version_of inv udt db col p b)).
  { intros col p b Hc Hbu Hle. apply migrated_version; [done..|]. unfold is_u64, is_u32, u32_max in *. lia. }
  split; [split; [done|split; [by apply migrated_info|]]; cbn [bare dr_db] in *; by rewrite migrated_plain by (by left)|].
  split; cbn [state_under block_state store_state as_account as_storage as_code as_hash as_info].
  - intros a. case_decide; [|done]. cbn [st_account archive_spec]. unfold account_read, account_at. rewrite !new_handle_num.
    cbn [bare dr_db dr_udt]. do 2 f_equal. unfold value_of. cbn [snd].
    change (@version_at K _ (with_encoding inv' cfg)) with (fun u => version_of inv' u).
    change (@version_at K _ (with_encoding inv cfg)) with (fun u => version_of inv u). cbv beta.
    rewrite (newest_map _ _ _ _ Hu' (fun b => Hv AddressToAccount (h256_bytes a) b ltac:(by left))).
    by destruct (newest _ _) as [[]|].
  - intros a j. case_decide; [|done]. cbn [st_storage archive_spec]. unfold storage_read, storage_at. rewrite !new_handle_num.
    cbn [bare dr_db dr_udt]. unfold value_of. cbn [snd].
    change (@version_at K _ (with_encoding inv' cfg)) with (fun u => version_of inv' u).
    change (@version_at K _ (with_encoding inv cfg)) with (fun u => version_of inv u). cbv beta.
    rewrite (newest_map _ _ _ _ Hu' (fun b => Hv AddressToStorage (slot_prefix a j) b ltac:(by right))).
    destruct (newest _ _) as [[b v]|]; [|done]. cbn [option_map snd fst stored]. destruct udt'; [|done].
    by rewrite !decode_storage_from_be, from_be_strip.
  - cbn [st_info archive_spec]. by rewrite !new_handle_info.
  - intros n. cbn [st_info st_hash archive_spec]. unfold hash_read. rewrite !new_handle_info, !new_handle_num. cbn [from_option id].
    intros Hle. case_decide as Hnn; [|done]. case_decide; [done|]. unfold hash_at. cbn [bare dr_db]. by rewrite migrated_plain by (by left).
  - intros x. left. case_decide; [|done]. cbn [st_code archive_spec bare dr_db]. unfold code_of. by rewrite migrated_plain by (by right).
Qed.

Lemma migrated_account p n raw : is_u64 n -> node_under (with_encoding inv cfg) (bare db ix udt) hd ->
  version_of inv' udt' db' AddressToAccount p n = Some raw -> raw = [] \/ is_Some (slim_decode raw).
Proof.
  intros Hn Hnode Hv. destruct (decide (n = u64_max)) as [->|Hne]; [by rewrite (mg_last _ _ _ _ _ _ _ Hm) in Hv by (by left)|].
  rewrite (mg_version _ _ _ _ _ _ _ Hm) in Hv by (done || by left).
  apply (do_account _ _ (ao_db _ (no_archive _ _ _ _ Hnode)) p n raw Hn). cbn [bare dr_db dr_udt].
  change (version_of inv udt db AddressToAccount p n = Some raw). by destruct (version_of inv udt db AddressToAccount p n).
Qed.

Lemma migrated_infos : node_under (with_encoding inv cfg) (bare db ix udt) hd ->
  infos_under (with_encoding inv' cfg) (bare db' ix udt').
Proof.
  intros Hnode. destruct (no_infos _ _ _ _ Hnode) as [Hio Hii Hix Hic]. split; cbn [bare dr_db dr_block_index dr_block_info_cache] in *; try done.
  - intros k raw Hi. pose proof (migrated_info_column k) as Hc. rewrite Hi in Hc. rewrite Hc. by apply Hio.
  - intros k r Hs. pose proof (migrated_info_column k) as Hc. destruct Hs as [i Hi]. rewrite Hi in Hc. rewrite Hc. apply Hii. by eexists.
  - intros i Hi. destruct (Hix i Hi) as (B & k & N & Hc & Hrest). exists B, k, N. split; [by apply migrated_cf3|done].
Qed.

Lemma migrated_node : node_under (with_encoding inv cfg) (bare db ix udt) hd -> node_under (with_encoding inv' cfg) (bare db' ix udt') hd.
Proof.
  intros Hnode. pose proof (migrated_infos Hnode) as Hinfos. pose proof (fun p n raw Hn => migrated_account p n raw Hn Hnode) as Hacc.
  pose proof (no_head_info _ _ _ _ Hnode) as Hhi%migrated_info.
  destruct Hnode as [_ _ Hhd Hlat _ Hhh Hhs Hvs _ Hcod _]. cbn [bare dr_db dr_udt] in *.
  split; cbn [bare dr_db dr_udt dr_code_cache dr_state_cache]; rewrite ?(migrated_plain BlockNumToBlockHash) by (by left); try done.
  - split; [|done]. cbn [bare dr_db dr_udt]. split; [apply Hm|apply Hm|apply Hm|done].
  - rewrite (mg_plain _ _ _ _ _ _ _ Hm); [done| |by intros [=]]. split_and!; [by intros [?|?]|done..].
  - intros k raw. rewrite migrated_plain by (by left). apply Hhs.
  - intros col p n Hc Hn Hlt. change (version_of inv' udt' db' col p n = None).
    destruct (decide (n = u64_max)) as [->|Hne]; [by apply (mg_last _ _ _ _ _ _ _ Hm)|].
    rewrite (mg_version _ _ _ _ _ _ _ Hm) by done. pose proof (Hvs col p n Hc Hn Hlt) as Hv.
    change (version_of inv udt db col p n = None) in Hv. by rewrite Hv.
  - intros k raw. rewrite migrated_plain by (by right). apply Hcod.
Qed.
End databases.

(** The disk of a migrated archive, before it is opened. *)
Lemma migrated_disk (cfg : ArchiveConfig) dk db' ix udt inv inv' udt' hd cols schema file :
  known_under (with_encoding inv cfg) ->
  disk_under (with_encoding inv cfg) dk ix udt hd -> migrated ix inv udt inv' udt' (dk_db dk) db' ->
  (forall c, c ∈ cols <-> c ∈ dk_columns dk) -> file = None ->
  is_udt_archive (E := E) (mkDisk db' cols file schema) = Ok udt' ->
  disk_under (with_encoding inv' cfg) (mkDisk db' cols file schema) ix udt' hd.
Proof.
  intros Hb Hd Hm Hcols -> Hudt. pose proof (do_node _ _ _ _ _ _ Hd) as Hn. split; cbn [dk_db dk_columns dk_index dk_schema]; try done.
  - by apply (migrated_node cfg inv udt inv' udt' (dk_db dk) db' ix hd Hm).
  - intros c Hc%Hcols. by apply (do_known _ _ _ _ _ _ Hd).
  - intros c Hc Hne. by apply Hcols, (do_columns _ _ _ _ _ _ Hd).
  - pose proof (do_layout _ _ _ _ _ _ Hd) as Hl. destruct ix as [ix|]; [|by apply Hcols]. destruct Hl as (Hc2 & Hc7 & B & Hc3 & HB & _).
    rewrite !Hcols. split_and!; try done. exists B. split; [|done]. by apply (migrated_cf3 inv udt inv' udt' (dk_db dk) db' (Some ix)).
Qed.

Definition open_under (cfg : ArchiveConfig) dk : Res (Error E) (DataBaseRef K C) * Disk K := open_inner dk false false.

(** Opening the disk of a migrated archive. *)
Lemma open_migrated cfg dk ix udt hd :
  known_under cfg -> disk_under cfg dk ix udt hd -> can_settle blocks (dk_db dk) ix ->
  exists d dk', open_under cfg dk = (Ok d, dk') /\ node_under cfg d hd /\ dr_udt d = udt /\
    (block_index_enabled = false \/ is_Some (dr_block_index d)) /\
    disk_under cfg (close_archive dk' d) (dr_block_index d) udt hd /\
    carries_under cfg cfg (bare (dk_db dk) ix udt) (bare (dr_db d) (dr_block_index d) udt) /\
    carries_under cfg cfg (bare (dk_db dk) ix udt) d /\
    (forall k, kv_contents (dr_db d) LatestBlockHash k = kv_contents (dk_db dk) LatestBlockHash k).
Proof.
  intros Hb Hd Hset. unfold open_under.
  destruct (open_right blocks Hb codes dk ix udt hd false false Hd) as (d & dk' & Ho & (Hn & Hu & Hdk & Hcar & Hcon & _) & Hix); [by right|].
  exists d, dk'. split; [done|]. split; [done|]. split; [done|]. split; [auto|]. split; [done|].
  assert (Hcar' : forall n, carries blocks codes n (bare (dk_db dk) ix udt) (bare (dr_db d) (dr_block_index d) udt)).
  { intros n. eapply carries_trans; [apply Hcar|by apply carries_bare|reflexivity]. }
  split; [|split; [|by intros; apply Hcon]]; intros i Hi.
  - exact (Hcar' (bi_number i) i Hi (Z.le_refl _)).
  - exact (Hcar (bi_number i) i Hi (Z.le_refl _)).
Qed.

(** Block infos that could be moved still can. *)
Lemma migrated_settle ix inv udt inv' udt' db db' :
  migrated ix inv udt inv' udt' db db' -> can_settle blocks db ix -> can_settle blocks db' ix.
Proof.
  intros Hm [?|[?|Hmov]]; [by left|by right; left|]. destruct ix as [i|]; [right; left; by eexists|]. right; right.
  eapply movable_same; [apply Hm| | |exact Hmov]; intros k; apply (mg_plain _ _ _ _ _ _ _ Hm);
    (by intros [=]) || (split; [by intros [?|?]|split; done]).
Qed.

Lemma carries_under_trans cfg1 cfg2 cfg3 d1 d2 d3 :
  carries_under cfg1 cfg2 d1 d2 -> carries_under cfg2 cfg3 d2 d3 -> carries_under cfg1 cfg3 d1 d3.
Proof.
  intros H12 H23 i Hi. destruct (H12 i Hi) as [Hi2 Hp2]. destruct (H23 i Hi2) as [Hi3 Hp3]. split; [done|by etransitivity].
Qed.

(** A node that stops, and its archive without caches. *)
Lemma stopped_carries (cfg : ArchiveConfig) d :
  known_under cfg -> carries_under cfg cfg d (bare (dr_db d) (dr_block_index d) (dr_udt d)).
Proof.
  intros Hb i Hi. assert (Hcar : carries blocks codes (bi_number i) d (bare (dr_db d) (dr_block_index d) (dr_udt d))) by (by apply carries_bare).
  exact (Hcar i Hi (Z.le_refl _)).
Qed.

Lemma stopped_disk (cfg : ArchiveConfig) d hd :
  node_under cfg d hd -> disk_under cfg (disk_of d) (dr_block_index d) (dr_udt d) hd.
Proof. apply disk_of_ok. Qed.
End migrated.
