(* ===== verification/ReencodeTheorems.v ===== *)
(** * From ascending to inverted tails

    The worker of [reencode_versioned_cf] writes each version of its shard once
    with its tail inverted, whatever its buffer; so the new database has the
    versions of the old one, and [reencode_legacy_to_inverted] on the disk of a
    right archive with ascending tails leaves the disk of a right archive with
    inverted ones, which has the same blocks with the same states, for any number
    of workers and any buffer. *)

From stdpp Require Import prelude gmap list sorting strings.
From S2P Require Import Prelude Types QuickCache Backend KvStore MemKv ArchiveEncoding StateCache.
From S2P Require Import BlockIndex BlockIndexFacts BlockIndexStore BlockIndexRun BlockIndexTheorems Archive.
From S2P Require Import ArchiveReads ArchiveSlots ArchiveWrite ArchiveCommit Wrapper WrapperFacts.
From S2P Require Import ArchiveBackend ArchiveUpdate ArchiveStore ArchiveDisk ArchiveOpen Migrate.
From S2P Require Import MigrateFacts MoveInfos Migrated.

#[local] Open Scope Z_scope.
#[local] Open Scope state_scope.

Lemma take_mono n a b : (a ≤ b)%bytes -> (take n a ≤ take n b)%bytes.
Proof.
  revert a b. induction n as [|n IH]; intros [|x a] [|y b]; cbn; try done. unfold bytes_le. cbn.
  destruct (x ?= y); [apply IH|done..].
Qed.

(** ** Keys *)

Lemma version_key_app inv p m : version_key inv p m = p ++ replicate 24 0 ++ be_bytes 8 (if inv then u64_max - m else m).
Proof. unfold version_key, encode_version_tail, encode_block_num_desc, encode_block_num. by destruct inv. Qed.

Lemma length_version_key inv p m : length (version_key inv p m) = (length p + 32)%nat.
Proof. rewrite version_key_app, !length_app, length_replicate, length_be_bytes. lia. Qed.

Lemma tail_number_key {E} inv p m : is_u64 m -> tail_number (E := E) (version_key inv p m) = Ok (if inv then u64_max - m else m).
Proof.
  intros Hm. unfold tail_number. rewrite length_version_key, decide_True by lia. f_equal. rewrite version_key_app, (assoc_L (++)).
  rewrite drop_app_length' by (rewrite length_app, length_replicate; lia).
  apply from_be_be_bytes_small, is_u64_pow. destruct inv; [by apply is_u64_inv|done].
Qed.

(** The key [reencode_row] makes. *)
Lemma inverted_key p m : take (length (version_key false p m) - 8) (version_key false p m) ++ be_bytes 8 (u64_max - m) = version_key true p m.
Proof.
  rewrite length_version_key, !version_key_app. rewrite (assoc_L (++) p (replicate 24 0) (be_bytes 8 m)).
  rewrite take_app_length' by (rewrite length_app, length_replicate; lia). by rewrite <- (assoc_L (++)).
Qed.

Lemma slice_key {E} inv p m n : length p = n -> slice (E := E) (version_key inv p m) 0 n = Ok p.
Proof.
  intros <-. unfold slice. rewrite length_version_key, decide_True by lia. rewrite drop_0, Nat.sub_0_r. by rewrite version_key_take.
Qed.

Section reencode.
Context {K E : Type} `{RocksDBOk K E} `{!RocksDBAdmin K E} `{!RocksDBAdminOk K E}.
Context (col : StorageTypeColumn) (buffer_limit roll : Z).

(** The row of a version of the rows [P], inverted; sentinels have none. *)
Definition inverted_row (P : list (bytes * bytes)) (r : WriteOp) : Prop :=
  exists p m v, key_wf col p /\ is_u64 m /\ m <> u64_max /\ (version_key false p m, v) ∈ P /\ r = OpPut col (version_key true p m) v.

Definition buf_rows (w : Reencoder) : list WriteOp := map (fun kv => OpPut col kv.1 kv.2) (re_buf w).

(** A worker that has read the rows [P]. *)
Record worker_ok (P : list (bytes * bytes)) (w : Reencoder) : Prop := {
  wo_sink : sink_ok (re_sink w);
  wo_rows r : r ∈ sink_rows (re_sink w) ++ buf_rows w <-> inverted_row P r;
  wo_buf k v : (k, v) ∈ re_buf w -> re_prefix w = Some (take (prefix_len col) k);
  wo_nodup : NoDup (re_buf w).*1;
  wo_open r : r ∈ open_rows (re_sink w) -> exists q, re_prefix w = Some q /\ (take (prefix_len col) (row_key r) < q)%bytes;
  wo_prefix q : re_prefix w = Some q -> exists k v, (k, v) ∈ P /\ q = take (prefix_len col) k;
}.

Lemma worker_start : worker_ok [] (mkReencoder [] 0 None new_sink 0 0).
Proof.
  split; cbn; try done.
  - apply new_sink_ok.
  - intros r. rewrite elem_of_nil. split; [done|]. intros (p & m & v & _ & _ & _ & Hin & _). by apply elem_of_nil in Hin.
  - intros k v Hin. by apply elem_of_nil in Hin.
  - constructor.
  - intros r Hin. by apply elem_of_nil in Hin.
Qed.

(** The buffer, in key order. *)
Lemma sorted_buf (buf : list (bytes * bytes)) :
  NoDup buf.*1 -> StronglySorted row_lt (map (fun kv => OpPut col kv.1 kv.2) (merge_sort write_le buf)).
Proof.
  intros Hnd. apply sorted_puts. apply (sorted_keys buf) in Hnd. exact Hnd.
Qed.

(** Writing out the buffer. *)
Lemma flush_prefix_ok P w :
  worker_ok P w -> exists w', flush_prefix (K := K) (E := E) col roll w = Ok w' /\ sink_ok (re_sink w') /\ re_buf w' = [] /\
    re_prefix w' = re_prefix w /\ (forall r, r ∈ sink_rows (re_sink w') <-> inverted_row P r) /\
    (forall r, r ∈ open_rows (re_sink w') -> exists q, re_prefix w = Some q /\ (take (prefix_len col) (row_key r) ≤ q)%bytes).
Proof.
  intros Hw. unfold flush_prefix. set (rows := map _ (merge_sort write_le (re_buf w))).
  assert (Hel : forall r, r ∈ rows <-> r ∈ buf_rows w).
  { intros r. unfold rows, buf_rows. rewrite !list_elem_of_fmap. by setoid_rewrite merge_sort_Permutation. }
  assert (Hpre : forall r, r ∈ rows -> re_prefix w = Some (take (prefix_len col) (row_key r))).
  { intros r Hr. apply Hel in Hr. unfold buf_rows in Hr. apply list_elem_of_fmap in Hr as ([k v] & -> & Hin). by eapply (wo_buf _ _ Hw). }
  destruct (sink_puts_ok (K := K) (E := E) roll rows (re_sink w)) as (s & -> & Hs & Hr & Ho).
  - apply Hw.
  - apply sorted_buf, Hw.
  - intros r r' Hr Hr'. destruct (wo_open _ _ Hw r Hr) as (q & Hq & Hlt). rewrite (Hpre r' Hr') in Hq. injection Hq as <-. left.
    apply bytes_lt_not_le. intros Hle%(take_mono (prefix_len col)). by apply bytes_lt_not_le in Hlt.
  - rewrite res_bind_ok. eexists. split; [done|]. cbn [re_sink re_buf re_prefix]. split_and!; try done.
    + intros r. rewrite Hr, <- (wo_rows _ _ Hw r), !elem_of_app. by rewrite Hel.
    + intros r Hin. destruct (Ho r Hin) as [Hin'|Hin'].
      * destruct (wo_open _ _ Hw r Hin') as (q & Hq & Hlt). exists q. split; [done|by apply bytes_lt_le].
      * exists (take (prefix_len col) (row_key r)). split; [by apply Hpre|apply bytes_le_refl].
Qed.

(** Entering the prefix of the next row. *)
Lemma enter_prefix_ok P w p :
  worker_ok P w -> (forall q, re_prefix w = Some q -> (q ≤ p)%bytes) ->
  exists w', enter_prefix (K := K) (E := E) col roll w p = Ok w' /\ sink_ok (re_sink w') /\ re_prefix w' = Some p /\
    (forall r, r ∈ sink_rows (re_sink w') ++ buf_rows w' <-> inverted_row P r) /\
    (forall k v, (k, v) ∈ re_buf w' -> take (prefix_len col) k = p) /\ NoDup (re_buf w').*1 /\
    (forall r, r ∈ open_rows (re_sink w') -> (take (prefix_len col) (row_key r) < p)%bytes).
Proof.
  intros Hw Hle. unfold enter_prefix. case_decide as Hp.
  { exists w. split; [done|]. split_and!; try apply Hw; try done.
    - intros k v Hin. pose proof (wo_buf _ _ Hw k v Hin). congruence.
    - intros r Hr. destruct (wo_open _ _ Hw r Hr) as (q & Hq & Hlt). congruence. }
  assert (exists w1, (match re_buf w with [] => Ok w | _ => flush_prefix (K := K) (E := E) col roll w end) = Ok w1 /\ sink_ok (re_sink w1) /\
    re_buf w1 = [] /\ (forall r, r ∈ sink_rows (re_sink w1) <-> inverted_row P r) /\
    (forall r, r ∈ open_rows (re_sink w1) -> exists q, re_prefix w = Some q /\ (take (prefix_len col) (row_key r) ≤ q)%bytes))
    as (w1 & -> & Hs & Hb & Hr & Ho).
  { destruct (re_buf w) eqn:Hbuf.
    - exists w. split; [done|]. split; [apply Hw|]. split; [done|]. split.
      + intros r. rewrite <- (wo_rows _ _ Hw r). unfold buf_rows. by rewrite Hbuf, app_nil_r.
      + intros r Hin. destruct (wo_open _ _ Hw r Hin) as (q & Hq & Hlt). exists q. split; [done|by apply bytes_lt_le].
    - destruct (flush_prefix_ok P w Hw) as (w1 & Heq & Hs & Hb & _ & Hr & Ho). by exists w1. }
  rewrite res_bind_ok. eexists. split; [done|]. unfold buf_rows. cbn [re_sink re_prefix re_buf]. rewrite Hb. split_and!; try done.
  - intros r. cbn [map]. by rewrite app_nil_r.
  - intros k v Hin. by apply elem_of_nil in Hin.
  - constructor.
  - intros r Hin. destruct (Ho r Hin) as (q & Hq & Hrq). apply (bytes_le_lt_trans _ q); [done|].
    pose proof (Hle q Hq) as [?| ->]%bytes_le_lt_eq; [done|]. by destruct Hp.
Qed.

Lemma inverted_row_snoc P p m v r :
  key_wf col p -> is_u64 m -> m <> u64_max ->
  inverted_row (P ++ [(version_key false p m, v)]) r <-> inverted_row P r \/ r = OpPut col (version_key true p m) v.
Proof.
  intros Hp Hm Hmax. split.
  - intros (p' & m' & v' & Hp' & Hm' & Hmax' & [Hin|Heq%list_elem_of_singleton]%elem_of_app & ->).
    + left. by exists p', m', v'.
    + right. apply pair_equal_spec in Heq as [Hk ->]. apply version_key_inj in Hk as [-> ->]; [done| |done..].
      destruct Hp as [-> _], Hp' as [-> _]. done.
  - intros [(p' & m' & v' & Hp' & Hm' & Hmax' & Hin & ->)| ->].
    + exists p', m', v'. split_and!; try done. apply elem_of_app. by left.
    + exists p, m, v. split_and!; try done. apply elem_of_app. right. by left.
Qed.

(** A version pushed to the buffer of its prefix. *)
Lemma push_row_ok P w1 p m v buffered :
  key_wf col p -> is_u64 m -> m <> u64_max -> (forall v', ~ (version_key false p m, v') ∈ P) ->
  sink_ok (re_sink w1) -> re_prefix w1 = Some p ->
  (forall r, r ∈ sink_rows (re_sink w1) ++ buf_rows w1 <-> inverted_row P r) ->
  (forall k v, (k, v) ∈ re_buf w1 -> take (prefix_len col) k = p) -> NoDup (re_buf w1).*1 ->
  (forall r, r ∈ open_rows (re_sink w1) -> (take (prefix_len col) (row_key r) < p)%bytes) ->
  worker_ok (P ++ [(version_key false p m, v)])
    (mkReencoder (re_buf w1 ++ [(version_key true p m, v)]) buffered (re_prefix w1) (re_sink w1) (re_kept w1) (re_dropped w1)).
Proof.
  intros Hp Hm Hmax Hnew Hs1 Hp1 Hr1 Hb1 Hn1 Ho1. pose proof Hp as [Hl _]. set (k := version_key true p m).
  assert (Htk : take (prefix_len col) k = p) by (unfold k; rewrite <- Hl; apply version_key_take).
  split; cbn [re_sink re_buf re_prefix].
  - done.
  - intros r. unfold buf_rows. cbn [re_buf]. rewrite map_app, (assoc_L (++)), elem_of_app, Hr1, inverted_row_snoc by done.
    cbn [map]. by rewrite list_elem_of_singleton.
  - intros k' v' [Hin'|Heq%list_elem_of_singleton]%elem_of_app; rewrite Hp1; f_equal; [by rewrite (Hb1 k' v')|].
    apply pair_equal_spec in Heq as [-> _]. done.
  - rewrite fmap_app. apply NoDup_app. split_and!; [done| |apply NoDup_singleton].
    intros k' Hk' ->%list_elem_of_singleton. apply list_elem_of_fmap in Hk' as ([k0 v0] & Heq & Hk0). cbn in Heq. subst k0.
    assert (inverted_row P (OpPut col k v0)) as (p' & m' & v' & Hp' & Hm' & _ & HinP & Heq).
    { apply Hr1, elem_of_app. right. apply list_elem_of_fmap. by exists (k, v0). }
    injection Heq as Hk _. apply version_key_inj in Hk as [-> ->]; [|by destruct Hp' as [-> _]|done..]. by apply (Hnew v').
  - intros r Hr. exists p. split; [done|auto].
  - intros q Hq. exists (version_key false p m), v. split; [apply elem_of_app; right; by left|].
    rewrite Hp1 in Hq. injection Hq as <-. by rewrite <- Hl, version_key_take.
Qed.

Lemma reencode_row_ok P w p m v :
  worker_ok P w -> key_wf col p -> is_u64 m -> (forall k v', (k, v') ∈ P -> (k < version_key false p m)%bytes) ->
  exists w', reencode_row (K := K) (E := E) col (prefix_len col) buffer_limit roll w (version_key false p m, v) = Ok w' /\
    worker_ok (P ++ [(version_key false p m, v)]) w'.
Proof.
  intros Hw Hp Hm Hlt. pose proof Hp as [Hl _]. unfold reencode_row. rewrite tail_number_key, res_bind_ok by done.
  assert (Hpre : forall q, re_prefix w = Some q -> (q ≤ p)%bytes).
  { intros q Hq. destruct (wo_prefix _ _ Hw q Hq) as (k & v' & Hin & ->).
    rewrite <- (version_key_take false p m), Hl. by apply take_mono, bytes_lt_le, (Hlt k v'). }
  assert (Hin : forall k v', (k, v') ∈ P -> (k, v') ∈ P ++ [(version_key false p m, v)]) by (intros; apply elem_of_app; by left).
  case_decide as Hmax.
  { eexists. split; [done|]. destruct Hw as [Hs Hr Hb Hn Ho Hq]. split; try done; cbn [re_sink re_buf re_prefix].
    - intros r. unfold buf_rows in *. cbn [re_buf]. rewrite Hr. split.
      + intros (p' & m' & v' & ? & ? & ? & Hin' & ->). exists p', m', v'. split_and!; auto.
      + intros (p' & m' & v' & Hp' & Hm' & Hmax' & [Hin'|Heq%list_elem_of_singleton]%elem_of_app & ->); [by exists p', m', v'|].
        apply pair_equal_spec in Heq as [Hk _]. apply version_key_inj in Hk as [_ ->]; [done| |done..].
        by destruct Hp' as [-> _], Hp as [-> _].
    - intros q Hqq. destruct (Hq q Hqq) as (k & v' & Hk & ->). eauto. }
  rewrite (slice_key false p m _ Hl), res_bind_ok. destruct (enter_prefix_ok P w p Hw Hpre) as (w1 & -> & Hs1 & Hp1 & Hr1 & Hb1 & Hn1 & Ho1).
  rewrite res_bind_ok, inverted_key. set (k := version_key true p m). set (w2 := mkReencoder (re_buf w1 ++ [(k, v)]) _ _ _ _ _).
  assert (Hw2 : worker_ok (P ++ [(version_key false p m, v)]) w2).
  { apply push_row_ok; try done. intros v' HinP. by apply (bytes_lt_irrefl (version_key false p m)), (Hlt _ v'). }
  case_decide; [|by exists w2].
  destruct (flush_prefix_ok _ w2 Hw2) as (w3 & -> & Hs3 & Hb3 & Hp3 & Hr3 & _). rewrite res_bind_ok. eexists. split; [done|].
  destruct (finish_file_ok (re_sink w3) Hs3) as (Hs4 & Hr4 & Hn4). split; cbn [re_sink re_buf re_prefix].
  - done.
  - intros r. unfold buf_rows. cbn [re_buf]. rewrite Hb3, Hr4. cbn [map]. rewrite app_nil_r. apply Hr3.
  - intros k' v' Hk'. rewrite Hb3 in Hk'. by apply elem_of_nil in Hk'.
  - rewrite Hb3. constructor.
  - intros r. unfold open_rows. rewrite Hn4. cbn. intros Hr. by apply elem_of_nil in Hr.
  - intros q Hq. rewrite Hp3 in Hq. by apply (wo_prefix _ _ Hw2).
Qed.

Lemma reencode_rows_ok rows : forall P w,
  worker_ok P w -> (forall k v, (k, v) ∈ rows -> exists p m, key_wf col p /\ is_u64 m /\ k = version_key false p m) ->
  StronglySorted bytes_lt (P ++ rows).*1 ->
  exists w', reencode_rows (K := K) (E := E) col (prefix_len col) buffer_limit roll w rows = Ok w' /\ sink_ok (re_sink w') /\
    forall r, r ∈ sink_rows (re_sink w') <-> inverted_row (P ++ rows) r.
Proof.
  induction rows as [|[k v] rows IH]; intros P w Hw Hwf Hs; cbn [reencode_rows].
  - rewrite app_nil_r. destruct (re_buf w) eqn:Hb.
    + exists w. split; [done|]. split; [apply Hw|]. intros r. rewrite <- (wo_rows _ _ Hw r). unfold buf_rows. by rewrite Hb, app_nil_r.
    + destruct (flush_prefix_ok P w Hw) as (w' & Heq & Hs' & _ & _ & Hr & _). by exists w'.
  - destruct (Hwf k v ltac:(by left)) as (p & m & Hp & Hm & ->).
    destruct (reencode_row_ok P w p m v Hw Hp Hm) as (w1 & -> & Hw1).
    { intros k v' Hin. rewrite fmap_app in Hs. apply StronglySorted_app in Hs as (Hlt & _ & _). apply Hlt.
      - by apply (list_elem_of_fmap_2 fst) in Hin.
      - by left. }
    rewrite res_bind_ok. rewrite cons_middle, (assoc_L (++)) in Hs |- *. apply IH; [done| |done].
    intros k' v' Hin. apply (Hwf k' v'). by right.
Qed.

(** Legacy versions, in a database. *)
Definition legacy_column (src : K) : Prop :=
  forall k, is_Some (kv_contents src col k) -> exists p m, key_wf col p /\ is_u64 m /\ k = version_key false p m.

Lemma filter_sorted_keys (Q : bytes -> Prop) `{forall k, Decision (Q k)} (rows : list (bytes * bytes)) :
  StronglySorted bytes_lt rows.*1 -> StronglySorted bytes_lt (filter (fun kv : bytes * bytes => Q kv.1) rows).*1.
Proof.
  induction rows as [|[k v] rows IH]; [done|]. intros Hs. inversion Hs as [|? ? Hs' Hall]; subst. rewrite filter_cons. case_decide; [|auto].
  constructor; [auto|]. rewrite Forall_forall in Hall |- *. intros k' Hk'. apply Hall.
  apply list_elem_of_fmap in Hk' as ([k0 v0] & -> & [_ Hin]%list_elem_of_filter). by apply (list_elem_of_fmap_2 fst) in Hin.
Qed.

Lemma reencode_shard_ok src bounds :
  kv_ok src -> legacy_column src ->
  exists files kept dropped, reencode_shard (E := E) src col (prefix_len col) buffer_limit roll bounds = Ok (files, kept, dropped) /\
    Forall file_ok files /\
    forall r, r ∈ concat files <-> exists p m v, key_wf col p /\ is_u64 m /\ m <> u64_max /\ in_shard bounds (version_key false p m) /\
      kv_contents src col (version_key false p m) = Some v /\ r = OpPut col (version_key true p m) v.
Proof.
  intros Hkv Hleg. unfold reencode_shard, scan_shard. destruct (rk_iter src col Hkv) as (rows & -> & Hs & Hrows). cbn [rocks].
  rewrite !res_bind_ok. set (rows' := filter _ rows).
  assert (Hin : forall k v, (k, v) ∈ rows' <-> in_shard bounds k /\ kv_contents src col k = Some v).
  { intros k v. unfold rows'. by rewrite list_elem_of_filter, Hrows. }
  destruct (reencode_rows_ok rows' [] _ worker_start) as (w & -> & Hok & Hr).
  { intros k v [_ Hk]%Hin. apply Hleg. by eexists. }
  { cbn. by apply (filter_sorted_keys (in_shard bounds)). }
  rewrite res_bind_ok. destruct (sink_finish_ok _ Hok) as [Hf Hc]. eexists _, _, _. split; [done|]. split; [done|].
  intros r. rewrite Hc, Hr. cbn [app]. unfold inverted_row. split.
  - intros (p & m & v & Hp & Hm & Hmax & [Hsh Hk]%Hin & ->). eauto 10.
  - intros (p & m & v & Hp & Hm & Hmax & Hsh & Hk & ->). exists p, m, v. split_and!; try done. by apply Hin.
Qed.

(** What the new column holds: the versions of the old one. *)
Definition inverted_version (src : K) (k v : bytes) : Prop :=
  exists p m, key_wf col p /\ is_u64 m /\ m <> u64_max /\ kv_contents src col (version_key false p m) = Some v /\ k = version_key true p m.

Lemma reencode_shards_ok src shards :
  kv_ok src -> legacy_column src ->
  exists outs, mapM (reencode_shard (E := E) src col (prefix_len col) buffer_limit roll) shards = Ok outs /\
    Forall file_ok (concat (map (fun s => s.1.1) outs)) /\
    forall r, r ∈ concat (concat (map (fun s => s.1.1) outs)) <-> exists p m v b, key_wf col p /\ is_u64 m /\ m <> u64_max /\
      b ∈ shards /\ in_shard b (version_key false p m) /\
      kv_contents src col (version_key false p m) = Some v /\ r = OpPut col (version_key true p m) v.
Proof.
  intros Hkv Hleg. induction shards as [|b shards IH].
  - exists []. split; [done|]. split; [constructor|]. intros r. cbn. split; [by intros ?%elem_of_nil|].
    by intros (p & m & v & b & _ & _ & _ & ?%elem_of_nil & _).
  - destruct (reencode_shard_ok src b Hkv Hleg) as (files & kept & dropped & Hb & Hf & Hr). destruct IH as (outs & Ho & Hfo & Hro).
    exists ((files, kept, dropped) :: outs). cbn [mapM]. rewrite Hb, res_bind_ok, Ho, res_bind_ok. split; [done|].
    cbn [map concat fst]. split; [by apply Forall_app|]. intros r. rewrite concat_app, elem_of_app, Hr, Hro. split.
    + intros [(p & m & v & ? & ? & ? & ? & ? & ->)|(p & m & v & b' & ? & ? & ? & ? & ? & ? & ->)].
      * exists p, m, v, b. split_and!; try done. by left.
      * exists p, m, v, b'. split_and!; try done. by right.
    + intros (p & m & v & b' & ? & ? & ? & [->|?]%elem_of_cons & ? & ? & ->); [left|right]; eauto 12.
Qed.

Lemma reencode_versioned_cf_ok src (dk : Disk K) jobs :
  versioned col -> kv_ok src -> legacy_column src -> kv_ok (dk_db dk) -> (forall k, kv_contents (dk_db dk) col k = None) ->
  exists n db', reencode_versioned_cf (E := E) src dk col (prefix_len col) jobs buffer_limit roll = (Ok n, set_dk_db dk db') /\
    takes_rows (dk_db dk) db' col (inverted_version src).
Proof.
  intros Hc Hsrc Hleg Hkv Hnew. unfold reencode_versioned_cf.
  destruct (reencode_shards_ok src (shard_bounds jobs) Hsrc Hleg) as (outs & -> & Hf & Hr). cbn [sbind].
  assert (Hrows : forall r, r ∈ concat (concat (map (fun s => s.1.1) outs)) <-> exists k v, inverted_version src k v /\ r = OpPut col k v).
  { intros r. rewrite Hr. split.
    - intros (p & m & v & b & ? & ? & ? & _ & _ & ? & ->). eexists _, v. split; [|done]. exists p, m. done.
    - intros (k & v & (p & m & Hp & Hm & Hmax & Hk & ->) & ->).
      destruct (shards_cover jobs (version_key false p m)) as (i & b & Hb & Hin).
      + destruct Hp as [Hl _]. destruct p; [by destruct Hc as [-> | ->]|done].
      + rewrite version_key_app. apply Forall_app. split; [apply Hp|]. apply Forall_app. split; [by apply Forall_replicate|apply be_bytes_byte].
      + apply list_elem_of_lookup_2 in Hb. eauto 12. }
  destruct (ingest_plain_ok (E := E) dk col (concat (map (fun s => s.1.1) outs)) (inverted_version src) Hkv Hnew) as (db' & -> & Htakes);
    [|exact Hrows| |cbn [sbind]; eauto].
  - apply plain_files_ok; [done|]. intros r (k & v & _ & ->)%Hrows. eauto.
  - intros k v v' (p & m & [Hp _] & Hm & _ & Hk & ->) (p' & m' & [Hp' _] & Hm' & _ & Hk' & Heq).
    apply version_key_inj in Heq as [-> ->]; [congruence|congruence|done..].
Qed.
End reencode.

(** ** Copying columns *)

Section copying.
Context {K E : Type} `{RocksDBOk K E} `{!RocksDBAdmin K E} `{!RocksDBAdminOk K E}.
Implicit Types (dk : Disk K).

(** A database with nothing in the columns [cols]. *)
Definition blank (cols : list StorageTypeColumn) (db : K) : Prop :=
  kv_ok db /\ (forall c k, c ∈ cols -> kv_contents db c k = None) /\ (forall c k ts, c ∈ cols -> kv_versions db c k ts = None).

(** A disk with no database on it. *)
Definition blank_disk dk : Prop := kv_ok (dk_db dk) /\ dk_columns dk = [] /\ dk_index dk = None /\ dk_schema dk = None.

Lemma create_blank dk cols : blank_disk dk ->
  exists db', open_columns (E := E) dk cols true = (Ok tt, mkDisk db' cols None None) /\ blank cols db'.
Proof.
  intros (Hkv & Hc & Hi & Hs). destruct (create_columns_ok (E := E) dk cols Hkv) as (db' & -> & Hkv' & Hcon & Hver); [rewrite Hc; by intros c ?%elem_of_nil|].
  exists db'. unfold set_dk_columns, set_dk_db. cbn [dk_db dk_index dk_schema]. rewrite Hi, Hs. split; [done|]. split; [done|].
  rewrite Hc in Hcon, Hver. split.
  - intros c k Hin. rewrite Hcon. by rewrite decide_True by (split; [done|by intros ?%elem_of_nil]).
  - intros c k ts Hin. rewrite Hver. by rewrite decide_True by (split; [done|by intros ?%elem_of_nil]).
Qed.

Lemma copy_columns_ok src roll cols : forall dk,
  kv_ok src -> kv_ok (dk_db dk) -> NoDup cols -> (forall c k, c ∈ cols -> kv_contents (dk_db dk) c k = None) ->
  exists db', copy_columns (E := E) src dk roll cols = (Ok tt, set_dk_db dk db') /\ kv_ok db' /\
    (forall c k, kv_contents db' c k = if decide (c ∈ cols) then kv_contents src c k else kv_contents (dk_db dk) c k) /\
    (forall c k ts, kv_versions db' c k ts = kv_versions (dk_db dk) c k ts).
Proof.
  induction cols as [|col cols IH]; intros dk Hsrc Hkv Hnd Hnew; cbn [copy_columns].
  - exists (dk_db dk). split; [by destruct dk|]. done.
  - inversion Hnd as [|? ? Hni Hnd']; subst.
    destruct (copy_column_ok (E := E) src roll col Hsrc) as (files & -> & Hf & Hrows). cbn [sbind].
    destruct (ingest_plain_ok (E := E) dk col files (fun k v => kv_contents src col k = Some v) Hkv) as (db1 & -> & Hkv1 & Hin & Hout & Hver);
      [intros k; apply Hnew; by left|done|exact Hrows|congruence|].
    cbn [sbind].
    destruct (IH (set_dk_db dk db1) Hsrc Hkv1 Hnd') as (db' & -> & Hkv' & Hcon' & Hver').
    { intros c k Hc. cbn [set_dk_db dk_db]. rewrite Hout by (by intros ->). apply Hnew. by right. }
    exists db'. split; [done|]. split; [done|]. cbn [set_dk_db dk_db] in *. split; [|intros c k ts; by rewrite Hver', Hver].
    intros c k. rewrite Hcon'. destruct (decide (c = col)) as [->|Hne].
    + rewrite decide_False by done. rewrite decide_True by (by left).
      apply option_eq. intros v. apply Hin.
    + rewrite Hout by done. case_decide as Hd; case_decide as Hd'; try done; exfalso; [apply Hd'; by right|].
      apply elem_of_cons in Hd' as [?|?]; done.
Qed.

(** The columns of a disk. *)
Lemma elem_of_existing dk c : c ∈ existing_columns dk <-> c ∈ dk_columns dk /\ c ∈ ARCHIVE_COLUMNS ++ [BlockNumToBlockInfo].
Proof. unfold existing_columns. by rewrite list_elem_of_filter. Qed.

Lemma archive_column c : c <> BlockNumToBlockInfo -> c ∈ ARCHIVE_COLUMNS.
Proof. intros Hc. unfold ARCHIVE_COLUMNS. rewrite !elem_of_cons. destruct c; tauto. Qed.

Lemma existing_nodup dk : NoDup (existing_columns dk).
Proof. unfold existing_columns. apply NoDup_filter, (bool_decide_unpack _). by vm_compute. Qed.

Lemma cf_handle_ok cols col : col ∈ cols -> cf_handle (E := E) cols col = Ok tt.
Proof. intros Hc. unfold cf_handle. by rewrite decide_True. Qed.

Lemma is_versioned_column_spec col : is_versioned_column col = false <-> ~ versioned col.
Proof. unfold versioned. destruct col; cbn; naive_solver. Qed.

(** The columns of a legacy database, re-encoded into an empty one. *)
Lemma write_reencoded_ok src dk cols jobs limit :
  kv_ok src -> (forall col, versioned col -> legacy_column col src) -> blank cols (dk_db dk) -> NoDup cols ->
  AddressToAccount ∈ cols -> AddressToStorage ∈ cols ->
  exists db', write_reencoded (E := E) src dk cols jobs limit = (Ok tt, set_dk_db dk db') /\ kv_ok db' /\
    (forall c k, c ∈ cols -> ~ versioned c -> (c, k) <> (LatestBlockHash, ENCODING_MARKER_KEY) -> kv_contents db' c k = kv_contents src c k) /\
    (forall col k v, versioned col -> kv_contents db' col k = Some v <-> inverted_version col src k v) /\
    kv_contents db' LatestBlockHash ENCODING_MARKER_KEY = Some [1].
Proof.
  intros Hsrc Hleg (Hkv & Hcon & Hver) Hnd Ha Hs. unfold write_reencoded. set (plain := filter _ cols).
  destruct (copy_columns_ok src REENCODE_ROLL_BYTES plain dk Hsrc Hkv) as (db1 & -> & Hkv1 & Hcon1 & _);
    [by apply NoDup_filter|intros c k [_ Hc]%list_elem_of_filter; by apply Hcon|]. cbn [sbind].
  assert (Hplain : forall c, c ∈ plain <-> c ∈ cols /\ ~ versioned c).
  { intros c. unfold plain. rewrite list_elem_of_filter, is_versioned_column_spec. tauto. }
  assert (Hnew : forall col k, versioned col -> kv_contents db1 col k = None).
  { intros col k Hc. rewrite Hcon1, decide_False by (by intros [_ ?]%Hplain). apply Hcon. by destruct Hc as [-> | ->]. }
  rewrite !cf_handle_ok by done. cbn [joined sbind].
  change 64%nat with (prefix_len AddressToStorage). change 32%nat with (prefix_len AddressToAccount).
  destruct (reencode_versioned_cf_ok AddressToAccount limit REENCODE_ROLL_BYTES src (set_dk_db dk db1) jobs) as (n2 & db2 & -> & Hkv2 & Hin2 & Hout2 & _);
    [by left|done|apply Hleg; by left|done|intros k; apply Hnew; by left|].
  cbn [sbind]. change (set_dk_db (set_dk_db dk db1) db2) with (set_dk_db dk db2). cbn [set_dk_db dk_db] in Hout2.
  destruct (reencode_versioned_cf_ok AddressToStorage limit REENCODE_ROLL_BYTES src (set_dk_db dk db2) jobs) as (n3 & db3 & -> & Hkv3 & Hin3 & Hout3 & _);
    [by right|done|apply Hleg; by right|done| |].
  { intros k. cbn [set_dk_db dk_db]. rewrite Hout2 by done. apply Hnew. by right. }
  cbn [sbind]. change (set_dk_db (set_dk_db dk db2) db3) with (set_dk_db dk db3). cbn [set_dk_db dk_db] in Hout3 |- *.
  destruct (rk_write db3 [OpPut LatestBlockHash ENCODING_MARKER_KEY [1]] Hkv3) as (db4 & -> & Hkv4 & Hcon4 & _). cbn [rocks].
  exists db4. split; [done|]. split; [done|]. cbn [fold_left op_contents] in Hcon4. split; [|split].
  - intros c k Hc Hnv Hne. rewrite Hcon4. rewrite decide_False by (intros [? ?]; by subst).
    rewrite Hout3, Hout2, Hcon1 by (intros ->; apply Hnv; by (left + right)). by rewrite decide_True by (by apply Hplain).
  - intros col k v Hc. rewrite Hcon4, decide_False by (intros [? _]; subst; by destruct Hc).
    destruct Hc as [-> | ->]; [by rewrite Hout3, Hin2|by rewrite Hin3].
  - rewrite Hcon4. by rewrite decide_True.
Qed.
End copying.

(** ** The archive *)

Section archive.
Context {K E : Type} `{RocksDBOk K E} {C : Type -> Type -> Type} `{QuickCacheOk C}.
Context `{SlimCodecOk} `{BlockCodecOk E} `{RevmBytecode}.
Context `{!RocksDBAdmin K E} `{!RocksDBAdminOk K E} `{ArchiveEnv}.
Context (blocks : gmap H256 BlockInfo) (codes : H256 -> option bytes) (cfg : ArchiveConfig).
Implicit Types (dk : Disk K) (db : K).

Lemma legacy_archive db ix hd col :
  node_under (C := C) blocks codes (with_encoding false cfg) (bare db ix false) hd -> versioned col -> legacy_column col db.
Proof. intros Hn Hc k Hk. by apply (do_plain _ _ (ao_db _ (no_archive _ _ _ _ Hn)) col k eq_refl Hc). Qed.

Lemma reencoded_migrated src db' ix :
  (forall col, versioned col -> legacy_column col src) -> kv_ok db' ->
  (forall c k, in_use ix c -> (c, k) <> (LatestBlockHash, ENCODING_MARKER_KEY) -> kv_contents db' c k = kv_contents src c k) ->
  (forall col k v, versioned col -> kv_contents db' col k = Some v <-> inverted_version col src k v) ->
  migrated ix false false true false src db'.
Proof.
  intros Hleg Hkv Hplain Hver. split; try done.
  - intros col p n Hc Hn Hmax. cbn [version_of]. apply option_eq. intros v. rewrite Hver by done.
    assert (option_map (stored false col) (kv_contents src col (version_key false p n)) = kv_contents src col (version_key false p n)) as ->.
    { destruct (kv_contents src col (version_key false p n)); [|done]. by destruct col. }
    split.
    + intros (p' & m & [Hl _] & Hm & _ & Hk & Heq). pose proof (f_equal length Heq) as Hlen. rewrite !length_version_key in Hlen.
      apply version_key_inj in Heq as [-> ->]; [done|lia|done..].
    + intros Hk. destruct (Hleg col Hc (version_key false p n) ltac:(by eexists)) as (p' & m & Hp & Hm & Heq).
      pose proof (f_equal length Heq) as Hlen. rewrite !length_version_key in Hlen.
      apply version_key_inj in Heq as [-> ->]; [|lia|done..]. by exists p', m.
  - intros col p Hc. cbn [version_of]. destruct (kv_contents db' col (version_key true p u64_max)) as [v|] eqn:Hv; [|done].
    apply Hver in Hv as (p' & m & _ & Hm & Hmax & _ & Heq); [|done]. pose proof (f_equal length Heq) as Hlen.
    rewrite !length_version_key in Hlen. apply version_key_inj in Heq as [_ <-]; [done|lia|in_range|done].
  - intros col k _ Hc [v (p & m & Hp & Hm & _ & _ & ->)%Hver]; [|done]. by exists p, m.
Qed.

(** The columns of the source: those that matter are there. *)
Lemma source_columns c1 dk ix udt hd c : disk_under (C := C) blocks codes c1 dk ix udt hd -> c ∈ existing_columns dk <-> c ∈ dk_columns dk.
Proof. intros Hd. rewrite elem_of_existing. split; [tauto|]. intros Hc. split; [done|by apply (do_known _ _ _ _ _ _ Hd)]. Qed.

Lemma versioned_column c1 dk ix udt hd c : disk_under (C := C) blocks codes c1 dk ix udt hd -> versioned c -> c ∈ existing_columns dk.
Proof.
  intros Hd Hc. eapply source_columns; [done|]. apply (do_columns _ _ _ _ _ _ Hd); [apply archive_column|]; by destruct Hc as [-> | ->].
Qed.

Lemma used_column c1 dk ix udt hd c : disk_under (C := C) blocks codes c1 dk ix udt hd -> in_use ix c -> c ∈ existing_columns dk.
Proof.
  intros Hd (Hnv & Hu2 & Hu7). eapply source_columns; [done|]. pose proof (do_layout _ _ _ _ _ _ Hd) as Hl.
  destruct (decide (c = BlockNumToBlockInfo)) as [->|Hne7]; [destruct (Hu7 eq_refl) as [i ->]; apply Hl|].
  destruct (decide (c = BlockHashToBlockInfo)) as [->|Hne2]; [by rewrite (Hu2 eq_refl) in Hl|].
  apply (do_columns _ _ _ _ _ _ Hd); [by apply archive_column|done].
Qed.

Lemma latest_in_use ix : in_use ix LatestBlockHash.
Proof. split; [by intros [?|?]|done]. Qed.

Lemma open_source c1 dk ix udt hd :
  disk_under (C := C) blocks codes c1 dk ix udt hd -> db_open (dk_db dk) (dk_columns dk) (existing_columns dk) false = (Ok tt, dk_db dk).
Proof.
  intros Hd. apply rk_open; [apply (db_kv _ _ _ _ (do_node _ _ _ _ _ _ Hd))|intros c; by eapply source_columns..].
Qed.

(** Opening does not depend on the direction of the tails. *)
Lemma open_any_encoding inv dk : open_inner (C := C) dk false false = open_under (C := C) (with_encoding inv cfg) dk.
Proof. reflexivity. Qed.

Lemma reencode_ok src dst ix hd cores jobs buffer_mb :
  known_under blocks (with_encoding false cfg) -> disk_under (C := C) blocks codes (with_encoding false cfg) src ix false hd ->
  first_byte (kv_contents (dk_db src) LatestBlockHash ENCODING_MARKER_KEY) <> Some 1 -> blank_disk dst ->
  can_settle blocks (dk_db src) ix ->
  exists dst' ix', reencode_legacy_to_inverted (C := C) src dst cores jobs buffer_mb = (Ok tt, dst') /\ (block_index_enabled = false \/ is_Some ix') /\
    disk_under (C := C) blocks codes (with_encoding true cfg) dst' ix' false hd /\
    carries_under (C := C) blocks codes (with_encoding false cfg) (with_encoding true cfg) (bare (dk_db src) ix false) (bare (dk_db dst') ix' false) /\
    kv_contents (dk_db dst') LatestBlockHash ENCODING_MARKER_KEY = Some [1].
Proof.
  intros Hb Hd Hmark Hblank Hset. pose proof (do_node _ _ _ _ _ _ Hd) as Hn.
  pose proof (db_kv _ _ _ _ Hn) as Hkv. cbn [bare dr_db] in Hkv. unfold reencode_legacy_to_inverted.
  rewrite (open_source _ _ _ _ _ Hd). cbn [fst rocks sbind]. set (cols := existing_columns src).
  rewrite cf_handle_ok by (exact (used_column _ _ _ _ _ _ Hd (latest_in_use ix))). cbn [sbind].
  rewrite (rk_get (dk_db src) _ _ Hkv). cbn [rocks sbind]. rewrite decide_False by done.
  destruct (create_blank dst cols Hblank) as (db0 & -> & Hdb0). cbn [sbind].
  destruct (write_reencoded_ok (dk_db src) (mkDisk db0 cols None None) cols
    (if decide (jobs = 0) then clamp 1 16 (default 4 cores) else clamp 1 16 jobs) (Z.min (buffer_mb * (1024 * 1024)) u64_max))
    as (db' & -> & Hkv' & Hplain & Hver & Hmarked);
    [done|by intros; eapply legacy_archive|done|apply existing_nodup|apply (versioned_column _ _ _ _ _ _ Hd); by (left + right)..|].
  cbn [sbind]. unfold set_dk_db. cbn [dk_columns dk_index dk_schema].
  assert (Hm : migrated ix false false true false (dk_db src) db').
  { apply reencoded_migrated; [by intros; eapply legacy_archive|done| |done]. intros c k Huse Hne.
    apply Hplain; [exact (used_column _ _ _ _ _ _ Hd Huse)|apply Huse|done]. }
  pose proof (migrated_disk blocks codes cfg src db' ix false false true false hd cols None None Hb Hd Hm
    (fun c => source_columns _ _ _ _ _ c Hd) eq_refl eq_refl) as Hd'.
  destruct (open_migrated blocks codes (with_encoding true cfg) _ ix false hd (known_any _ _ _ _ Hb) Hd' (migrated_settle _ _ _ _ _ _ _ _ Hm Hset))
    as (d & dk' & Ho & _ & _ & Hix & Hdk & Hcar & _ & Hlat).
  rewrite (open_any_encoding true), Ho. cbn [expect sbind]. eexists _, _. split; [done|]. split; [exact Hix|]. split; [exact Hdk|].
  split; [|by cbn [close_archive dk_db]; rewrite Hlat].
  apply (carries_under_trans blocks codes (with_encoding false cfg) (with_encoding true cfg) (with_encoding true cfg) _ (bare db' ix false));
    [exact (migrated_carries blocks codes cfg false false true false _ _ ix Hb Hm)|exact Hcar].
Qed.
End archive.
