(* ===== verification/ConvertTheorems.v ===== *)
(** * From inverted tails to timestamps

    [convert_rows] writes the versions of a shard as timestamped rows, newest
    first, in files that share no key; the files of all shards are then
    ingested together. So [convert_inverted_to_udt] on the disk of a right archive
    with inverted tails leaves the disk of a right archive with timestamps, which
    has the same blocks with the same states, for any number of workers. *)

From stdpp Require Import prelude gmap list sorting strings.
From S2P Require Import Prelude Types QuickCache Backend KvStore MemKv ArchiveEncoding StateCache.
From S2P Require Import BlockIndex BlockIndexFacts BlockIndexStore BlockIndexRun BlockIndexTheorems Archive.
From S2P Require Import ArchiveReads ArchiveSlots ArchiveWrite ArchiveCommit Wrapper WrapperFacts.
From S2P Require Import ArchiveBackend ArchiveUpdate ArchiveStore ArchiveDisk ArchiveOpen Migrate.
From S2P Require Import MigrateFacts MoveInfos ReencodeTheorems Migrated.

#[local] Open Scope Z_scope.
#[local] Open Scope state_scope.

(** The row of a version. *)
Definition ts_row (col : StorageTypeColumn) (kv : bytes * bytes) : WriteOp :=
  OpPutTs col (take (prefix_len col) kv.1) (u64_max - from_be (drop (length kv.1 - 8) kv.1)) (stored true col kv.2).

Lemma ts_row_key col p m v :
  key_wf col p -> is_u64 m -> ts_row col (version_key true p m, v) = OpPutTs col p m (stored true col v).
Proof.
  intros [Hl _] Hm. unfold ts_row. cbn [fst snd]. rewrite <- Hl, version_key_take.
  pose proof (tail_number_key (E := unit) true p m Hm) as Ht. unfold tail_number in Ht. case_decide; [|done].
  injection Ht as Ht. rewrite Ht. f_equal. lia.
Qed.

(** Inverted tails sort the newest version of a key first. *)
Lemma ts_row_lt col p m v p' m' v' :
  key_wf col p -> is_u64 m -> key_wf col p' -> is_u64 m' -> (version_key true p m < version_key true p' m')%bytes ->
  row_lt (ts_row col (version_key true p m, v)) (ts_row col (version_key true p' m', v')).
Proof.
  intros Hp Hm Hp' Hm' Hlt. rewrite !ts_row_key by done. unfold row_lt. cbn [row_key row_ts].
  destruct (decide (p = p')) as [->|Hne].
  - right. split; [done|]. unfold bytes_lt in Hlt. rewrite version_key_cmp in Hlt by done. cbn in Hlt. by apply Z.compare_lt_iff.
  - left. pose proof (take_mono (prefix_len col) _ _ (bytes_lt_le _ _ Hlt)) as Hle.
    destruct Hp as [Hl _], Hp' as [Hl' _]. rewrite <- Hl in Hle at 1. rewrite <- Hl' in Hle. rewrite !version_key_take in Hle.
    by apply bytes_le_lt_eq in Hle as [?|?].
Qed.

(** Files in the order of their keys, none in common. *)
Definition before_file (f g : list WriteOp) : Prop := forall a b, a ∈ f -> b ∈ g -> (row_key a < row_key b)%bytes.
Definition ordered_files (fs : list (list WriteOp)) : Prop := StronglySorted before_file fs.

Lemma ordered_snoc fs f : ordered_files fs -> (forall g, g ∈ fs -> before_file g f) -> ordered_files (fs ++ [f]).
Proof.
  intros Hs Hlt. apply StronglySorted_app. split_and!; [|done|repeat constructor].
  intros g h Hg ->%list_elem_of_singleton. by apply Hlt.
Qed.

Section convert.
Context {K E : Type} `{RocksDBOk K E} `{!RocksDBAdmin K E} `{!RocksDBAdminOk K E}.
Context (col : StorageTypeColumn).
Implicit Types (dk : Disk K) (src : K).

Definition inverted_keys (rows : list (bytes * bytes)) : Prop :=
  forall k v, (k, v) ∈ rows -> exists p m, key_wf col p /\ is_u64 m /\ k = version_key true p m.

(** A sink given the rows of [P], the last of the key [prev]. *)
Record shard_ok (P : list (bytes * bytes)) (prev : bytes) (s : SstSink) : Prop := {
  so_sink : sink_ok s;
  so_rows : sink_rows s = map (ts_row col) P;
  so_files : ordered_files (sk_paths s);
  so_done r : r ∈ concat (sk_paths s) -> (row_key r < prev)%bytes;
  so_open r : r ∈ open_rows s -> (row_key r ≤ prev)%bytes;
  so_last r r' : r ∈ concat (sk_paths s) -> r' ∈ open_rows s -> (row_key r < row_key r')%bytes;
}.

Lemma shard_start : shard_ok [] [] new_sink.
Proof. split; cbn; try done; try (by intros r ?%elem_of_nil); [apply new_sink_ok|constructor|by intros r r' ?%elem_of_nil]. Qed.

Lemma finish_paths s : sk_paths (finish_file s) = sk_paths s ++ match open_rows s with [] => [] | rows => [rows] end.
Proof. unfold finish_file, open_rows. destruct (sk_writer s) as [[|row rows]|]; cbn; by rewrite ?app_nil_r. Qed.

(** The files of a finished shard. *)
Lemma finish_ordered P prev s : shard_ok P prev s -> ordered_files (sk_paths (finish_file s)).
Proof.
  intros [_ _ Hf _ _ Hlast]. rewrite finish_paths. destruct (open_rows s) as [|r rows]; [by rewrite app_nil_r|].
  apply ordered_snoc; [done|]. intros g Hg a b Ha Hb. apply Hlast; [|done]. apply elem_of_concat. eauto.
Qed.

(** A new key may close the file. *)
Lemma shard_enter P prev s user :
  shard_ok P prev s -> (prev ≤ user)%bytes ->
  shard_ok P user (if decide (user = prev) then s else roll_if_full (K := K) (E := E) ROLL_BYTES s).
Proof.
  intros Hok Hle. case_decide as Heq; [by subst|]. assert (Hlt : (prev < user)%bytes).
  { apply bytes_le_lt_eq in Hle as [?|?]; [done|congruence]. }
  pose proof (finish_ordered _ _ _ Hok) as Hord. destruct Hok as [Hs Hr Hf Hd Ho Hlast].
  assert (Hall : forall r, r ∈ sink_rows s -> (row_key r < user)%bytes).
  { intros r [Hin|Hin]%elem_of_app; [by eapply bytes_lt_trans, Hlt; apply Hd|by eapply bytes_le_lt_trans, Hlt; apply Ho]. }
  unfold roll_if_full. destruct (sk_writer s) as [rows|] eqn:Hw; [|split; try done; intros r Hin; [|apply bytes_lt_le]; apply Hall, elem_of_app; auto].
  case_decide; [|split; try done; intros r Hin; [|apply bytes_lt_le]; apply Hall, elem_of_app; auto].
  destruct (finish_file_ok s Hs) as (Hs' & Hr' & Hw'). split; try done.
  - by rewrite Hr'.
  - intros r Hin. apply Hall. rewrite <- Hr'. apply elem_of_app. by left.
  - intros r. unfold open_rows. rewrite Hw'. by intros ?%elem_of_nil.
  - intros r r' _. unfold open_rows. rewrite Hw'. by intros ?%elem_of_nil.
Qed.

Lemma shard_append P s p m v :
  shard_ok P p s -> key_wf col p -> is_u64 m -> inverted_keys P ->
  (forall k v', (k, v') ∈ P -> (k < version_key true p m)%bytes) ->
  exists s', sink_append (K := K) (E := E) s (OpPutTs col p m (stored true col v)) = Ok s' /\
    shard_ok (P ++ [(version_key true p m, v)]) p s'.
Proof.
  intros [Hs Hr Hf Hd Ho Hlast] Hp Hm Hkeys Hlt. rewrite <- ts_row_key by done. set (row := ts_row col (version_key true p m, v)).
  assert (Hk : row_key row = p) by (unfold row; by rewrite ts_row_key).
  destruct (sink_append_ok (K := K) (E := E) s row Hs) as (s' & Happ & Hs' & Hr' & Ho' & Hp').
  { intros r Hin. assert (Hin' : r ∈ map (ts_row col) P) by (rewrite <- Hr; apply elem_of_app; by right).
    apply list_elem_of_fmap in Hin' as ([k v'] & -> & HP). destruct (Hkeys k v' HP) as (p' & m' & Hwf' & Hm' & ->).
    apply ts_row_lt; try done. by eapply Hlt. }
  exists s'. split; [done|]. split; rewrite ?Hp'; try done.
  - by rewrite Hr', Hr, map_app.
  - rewrite Ho'. intros r [Hin| ->%list_elem_of_singleton]%elem_of_app; [by apply Ho|]. rewrite Hk. apply bytes_le_refl.
  - intros r r' Hin. rewrite Ho'. intros [Hin'| ->%list_elem_of_singleton]%elem_of_app; [by apply Hlast|]. rewrite Hk. by apply Hd.
Qed.

Lemma convert_rows_ok rows : forall P prev s,
  shard_ok P prev s -> StronglySorted bytes_lt (P ++ rows).*1 -> inverted_keys (P ++ rows) ->
  (forall k v, (k, v) ∈ rows -> (prev ≤ take (prefix_len col) k)%bytes) ->
  exists s' last, convert_rows (K := K) (E := E) col prev s rows = Ok s' /\ shard_ok (P ++ rows) last s'.
Proof.
  induction rows as [|[k v] rows IH]; intros P prev s Hok Hsort Hkeys Hprev; cbn [convert_rows].
  - exists s, prev. by rewrite app_nil_r.
  - destruct (Hkeys k v ltac:(apply elem_of_app; right; by left)) as (p & m & Hp & Hm & ->). pose proof Hp as [Hl _].
    rewrite slice_key, tail_number_key by done. rewrite !res_bind_ok.
    assert (Hle : (prev ≤ p)%bytes).
    { pose proof (Hprev _ v ltac:(by left)) as Hle. by rewrite <- Hl, version_key_take in Hle. }
    assert (Hrow : OpPutTs col p (u64_max - (u64_max - m)) (if decide (col = AddressToStorage) then strip_leading_zeros v else v) =
      OpPutTs col p m (stored true col v)) by (f_equal; [lia|by destruct col]).
    rewrite Hrow. clear Hrow. pose proof Hsort as Hsort'. rewrite fmap_app in Hsort'. apply StronglySorted_app in Hsort' as (Hlt & _ & Hrest).
    destruct (shard_append P _ p m v (shard_enter P prev s p Hok Hle) Hp Hm) as (s2 & -> & Hok2).
    { intros k' v' Hin. apply (Hkeys k' v'), elem_of_app. by left. }
    { intros k' v' Hin. apply Hlt; [by apply (list_elem_of_fmap_2 fst) in Hin|by left]. }
    rewrite res_bind_ok. rewrite cons_middle, (assoc_L (++)) in Hsort, Hkeys |- *. apply (IH _ p); [done..|].
    intros k' v' Hin. rewrite <- (version_key_take true p m), Hl. apply take_mono, bytes_lt_le.
    inversion Hrest as [|? ? _ Hall]; subst. rewrite Forall_forall in Hall. apply Hall. by apply (list_elem_of_fmap_2 fst) in Hin.
Qed.

(** A shard of a column with inverted tails. *)
Definition inverted_column (src : K) : Prop :=
  forall k, is_Some (kv_contents src col k) -> exists p m, key_wf col p /\ is_u64 m /\ k = version_key true p m.

Lemma convert_shard_ok src bounds :
  kv_ok src -> inverted_column src ->
  exists files, convert_shard (E := E) src col bounds = Ok files /\ Forall file_ok files /\ ordered_files files /\
    forall r, r ∈ concat files <-> exists p m v, key_wf col p /\ is_u64 m /\ in_shard bounds (version_key true p m) /\
      kv_contents src col (version_key true p m) = Some v /\ r = OpPutTs col p m (stored true col v).
Proof.
  intros Hkv Hinv. unfold convert_shard, scan_shard. destruct (rk_iter src col Hkv) as (rows & -> & Hs & Hrows). cbn [rocks].
  rewrite !res_bind_ok. set (rows' := filter _ rows).
  assert (Hin : forall k v, (k, v) ∈ rows' <-> in_shard bounds k /\ kv_contents src col k = Some v).
  { intros k v. unfold rows'. by rewrite list_elem_of_filter, Hrows. }
  assert (Hkeys : inverted_keys rows') by (intros k v [_ Hk]%Hin; apply Hinv; by eexists).
  destruct (convert_rows_ok rows' [] [] new_sink shard_start) as (s & last & -> & Hok); [|done| |].
  { cbn. by apply (filter_sorted_keys (in_shard bounds)). }
  { intros k v _. by destruct (take (prefix_len col) k). }
  rewrite res_bind_ok. destruct (sink_finish_ok s (so_sink _ _ _ Hok)) as [Hf Hc]. eexists. split; [done|]. split; [done|].
  split; [by eapply finish_ordered|]. intros r. rewrite Hc, (so_rows _ _ _ Hok). cbn [app]. split.
  - intros ([k v] & -> & HP)%list_elem_of_fmap. destruct (Hkeys k v HP) as (p & m & Hp & Hm & ->). apply Hin in HP as [? ?].
    exists p, m, v. split_and!; try done. by apply ts_row_key.
  - intros (p & m & v & Hp & Hm & Hsh & Hk & ->). apply list_elem_of_fmap. exists (version_key true p m, v).
    split; [by rewrite ts_row_key|by apply Hin].
Qed.
End convert.

(** ** Pairs in a list *)

Lemma sorted_lookup {A} (R : A -> A -> Prop) l :
  (forall i j x y, (i < j)%nat -> l !! i = Some x -> l !! j = Some y -> R x y) -> StronglySorted R l.
Proof.
  induction l as [|x l IH]; intros HR; constructor.
  - apply IH. intros i j a b Hij. apply (HR (S i) (S j)). lia.
  - apply Forall_forall. intros y [j Hj]%list_elem_of_lookup. apply (HR 0%nat (S j) x y); [lia|done..].
Qed.

Lemma sorted_pair {A} (R : A -> A -> Prop) l i j x y :
  StronglySorted R l -> (i < j)%nat -> l !! i = Some x -> l !! j = Some y -> R x y.
Proof.
  intros Hs. revert i j. induction Hs as [|z l Hs IH Hz]; intros i j Hij; [done|]. destruct i as [|i], j as [|j]; cbn; try lia.
  - intros [= ->] Hj. rewrite Forall_forall in Hz. apply Hz. by eapply list_elem_of_lookup_2.
  - apply IH. lia.
Qed.

Lemma sorted_perm {A} (R : A -> A -> Prop) l l' : Symmetric R -> l ≡ₚ l' -> StronglySorted R l -> StronglySorted R l'.
Proof.
  intros Hsym Hp Hs. symmetry in Hp. apply Permutation_inj in Hp as [_ (f & Hf & Hl)]. apply sorted_lookup. intros i j x y Hij Hx Hy.
  rewrite Hl in Hx, Hy. destruct (decide (f i < f j)%nat); [by eapply sorted_pair|]. symmetry. eapply (sorted_pair R l (f j) (f i)); [done| |done..].
  assert (f i <> f j) by (intros Heq%Hf; lia). lia.
Qed.

Lemma sorted_filter {A} (R : A -> A -> Prop) (Q : A -> Prop) `{forall x, Decision (Q x)} l : StronglySorted R l -> StronglySorted R (filter Q l).
Proof.
  induction 1 as [|x l Hs IH Hx]; [constructor|]. rewrite filter_cons. case_decide; [|done]. constructor; [done|].
  rewrite Forall_forall in Hx |- *. intros y [_ Hy]%list_elem_of_filter. auto.
Qed.

Lemma sorted_concat {A B} (R : A -> A -> Prop) (f : B -> list A) l :
  (forall x, x ∈ l -> StronglySorted R (f x)) -> StronglySorted (fun x y => forall a b, a ∈ f x -> b ∈ f y -> R a b) l ->
  StronglySorted R (concat (map f l)).
Proof.
  intros Hf Hs. induction Hs as [|x l Hs IH Hx]; [constructor|]. cbn [map concat]. apply StronglySorted_app. split_and!.
  - intros a b Ha (m & Hb & (y & -> & Hy)%list_elem_of_fmap)%elem_of_concat. rewrite Forall_forall in Hx. by apply (Hx y).
  - apply Hf. by left.
  - apply IH. intros y Hy. apply Hf. by right.
Qed.

Lemma sorted_forall2 {A B} (T : A -> A -> Prop) (O : A -> B -> Prop) (R : B -> B -> Prop) l l' :
  (forall t t' o o', T t t' -> O t o -> O t' o' -> R o o') -> Forall2 O l l' -> StronglySorted T l -> StronglySorted R l'.
Proof.
  intros HR Hl. induction Hl as [|t o l l' Hto Hl IH]; intros Hs; [constructor|]. inversion Hs as [|? ? Hs' Ht]; subst.
  constructor; [auto|]. apply Forall_forall. intros o' [i Ho']%list_elem_of_lookup.
  destruct (Forall2_lookup_r _ _ _ _ _ Hl Ho') as (t' & Ht'%list_elem_of_lookup_2 & Hto'). rewrite Forall_forall in Ht. eauto.
Qed.

Lemma rows_apart_sym : Symmetric rows_apart.
Proof. intros f g Hfg a b Ha Hb Heq. by apply (Hfg b a). Qed.

Lemma ordered_apart fs : ordered_files fs -> StronglySorted rows_apart fs.
Proof.
  intros Hs. apply sorted_lookup. intros i j f g Hij Hf Hg a b Ha Hb Heq.
  apply (bytes_lt_irrefl (row_key a)). rewrite Heq at 2. by apply (sorted_pair _ _ _ _ _ _ Hs Hij Hf Hg).
Qed.

(** ** Tasks *)

Section tasks.
Context {K E : Type} `{RocksDBOk K E} {C : Type -> Type -> Type} `{QuickCache C}.
Context `{BlockCodec E} `{ArchiveConfig} `{!RocksDBAdmin K E} `{!RocksDBAdminOk K E} `{ArchiveEnv}.
Implicit Types (dk : Disk K).

Definition task_column (t : Task) : StorageTypeColumn :=
  match t with Copy col | Versioned col _ _ => col | BlockInfos => BlockNumToBlockInfo end.

(** The rows a task writes. *)
Definition task_row (src : K) (t : Task) (r : WriteOp) : Prop :=
  match t with
  | BlockInfos => False
  | Copy col => ~ versioned col /\ exists k v, kv_contents src col k = Some v /\ r = OpPut col k v
  | Versioned col i bounds => exists p m v, key_wf col p /\ is_u64 m /\ in_shard bounds (version_key true p m) /\
      kv_contents src col (version_key true p m) = Some v /\ r = OpPutTs col p m (stored true col v)
  end.

(** What the worker of a task puts out. *)
Record task_output (src : K) (t : Task) (o : Output) : Prop := {
  to_column : o.1.1 = task_column t;
  to_files : Forall file_ok o.2;
  to_ordered : versioned (task_column t) -> ordered_files o.2;
  to_rows r : r ∈ concat o.2 <-> task_row src t r;
}.

(** A task that writes no block infos, on a column of the source. *)
Definition plain_task (src : K) (cols : list StorageTypeColumn) (t : Task) : Prop :=
  match t with
  | BlockInfos => False
  | Copy col => ~ versioned col
  | Versioned col _ _ => versioned col /\ col ∈ cols /\ inverted_column col src
  end.

Lemma run_tasks_ok src cols dk tasks : forall outs n,
  kv_ok src -> Forall (plain_task src cols) tasks ->
  exists outs', run_tasks (E := E) src cols dk outs n tasks = (Ok (outs ++ outs', n), dk) /\ Forall2 (task_output src) tasks outs'.
Proof.
  induction tasks as [|t tasks IH]; intros outs n Hkv Ht; cbn [run_tasks].
  - exists []. by rewrite app_nil_r.
  - inversion Ht as [|? ? Hpt Ht']; subst.
    assert (exists o, run_task (E := E) src cols dk outs n t = (Ok (outs ++ [o], n), dk) /\ task_output src t o) as (o & -> & Ho).
    { destruct t as [col| |col i b]; cbn [run_task plain_task] in *; [|done|].
      - destruct (copy_column_ok (E := E) src ROLL_BYTES col Hkv) as (files & -> & [Hf _] & Hr). cbn [sbind].
        exists (col, 0%nat, files). split; [done|]. split; try done; [|intros r; cbn; rewrite Hr; tauto].
        eapply Forall_impl; [exact Hf|]. by intros f [? _].
      - unfold cf_handle. rewrite decide_True by apply Hpt. cbn [sbind].
        destruct (convert_shard_ok (E := E) col src b Hkv) as (files & -> & Hf & Hord & Hr); [apply Hpt|]. cbn [sbind].
        by exists (col, i, files). }
    cbn [joined sbind fst snd]. destruct (IH (outs ++ [o]) n Hkv Ht') as (outs' & -> & Houts').
    exists (o :: outs'). split; [by rewrite <- (assoc_L (++))|by constructor].
Qed.

(** Tasks whose files share no key of a timestamped column. *)
Definition tasks_apart (t t' : Task) : Prop :=
  match t, t' with
  | Versioned col _ b, Versioned col' _ b' => col = col' -> forall k, k <> [] -> Forall is_u8 k -> in_shard b k -> in_shard b' k -> False
  | _, _ => True
  end.

Definition outputs_apart (o o' : Output) : Prop :=
  o.1.1 = o'.1.1 -> versioned o.1.1 -> forall f g, f ∈ o.2 -> g ∈ o'.2 -> rows_apart f g.

Lemma in_shard_prefix b p m m' : p <> [] -> Forall is_u8 p -> in_shard b (version_key true p m) -> in_shard b (version_key true p m').
Proof.
  intros Hne Hp. destruct p as [|x p]; [by destruct Hne|]. inversion Hp; subst. rewrite !version_key_app, <- !app_comm_cons.
  rewrite !head_shard by assumption. exact id.
Qed.

Lemma prefix_nonempty col p : versioned col -> key_wf col p -> p <> [].
Proof. intros Hc [Hl _] ->. by destruct Hc as [-> | ->]. Qed.

Lemma version_key_bytes inv p m : Forall is_u8 p -> Forall is_u8 (version_key inv p m).
Proof.
  intros Hp. rewrite version_key_app. apply Forall_app. split; [done|]. apply Forall_app. split; [by apply Forall_replicate|apply be_bytes_byte].
Qed.

Lemma outputs_apart_ok src t t' o o' :
  tasks_apart t t' -> task_output src t o -> task_output src t' o' -> outputs_apart o o'.
Proof.
  intros Ht Ho Ho' Heq Hc f g Hf Hg a b Ha Hb Hk.
  assert (Ha' : task_row src t a) by (apply (to_rows _ _ _ Ho), elem_of_concat; eauto).
  assert (Hb' : task_row src t' b) by (apply (to_rows _ _ _ Ho'), elem_of_concat; eauto).
  rewrite (to_column _ _ _ Ho) in Hc. rewrite (to_column _ _ _ Ho), (to_column _ _ _ Ho') in Heq.
  destruct t as [c| |c i bs], t' as [c'| |c' i' bs']; cbn [task_row task_column] in *; subst; try tauto.
  destruct Ha' as (p & m & v & Hp & Hm & Hsh & _ & ->), Hb' as (p' & m' & v' & Hp' & Hm' & Hsh' & _ & ->). cbn in Hk. subst p'.
  pose proof (prefix_nonempty _ _ Hc Hp) as Hne.
  apply (Ht eq_refl (version_key true p m)); [by destruct p|apply version_key_bytes, Hp|done|].
  by apply (in_shard_prefix _ p m'); [|apply Hp|].
Qed.

Lemma convert_tasks_apart jobs cols : StronglySorted tasks_apart (convert_tasks jobs false cols).
Proof.
  assert (Hver : forall col, StronglySorted tasks_apart (versioned_tasks jobs col)).
  { intros col. apply sorted_lookup. intros i j x y Hij Hx Hy. unfold versioned_tasks in *. rewrite list_lookup_imap in Hx, Hy.
    destruct (shard_bounds (4 * jobs) !! i) as [b|] eqn:Hi; [|done]. destruct (shard_bounds (4 * jobs) !! j) as [b'|] eqn:Hj; [|done].
    injection Hx as <-. injection Hy as <-. intros _ k Hne Hk Hb Hb'. pose proof (shards_apart _ _ _ _ _ _ Hi Hj Hne Hk Hb Hb'). lia. }
  assert (Hcol : forall col t, t ∈ versioned_tasks jobs col -> exists i b, t = Versioned col i b).
  { intros col t [i Hi]%list_elem_of_lookup. unfold versioned_tasks in Hi. rewrite list_lookup_imap in Hi.
    destruct (shard_bounds (4 * jobs) !! i) as [b|]; [|done]. injection Hi as <-. eauto. }
  unfold convert_tasks. cbn [app]. apply StronglySorted_app. split_and!; [|apply Hver|apply StronglySorted_app; split_and!; [|apply Hver|]].
  - intros t t' (i & b & ->)%Hcol [(i' & b' & ->)%Hcol|(c & -> & _)%list_elem_of_fmap]%elem_of_app; [|done]. by intros [=].
  - intros t t' (i & b & ->)%Hcol (c & -> & _)%list_elem_of_fmap. done.
  - apply sorted_lookup. intros i j x y _ Hx%list_elem_of_lookup_2 _. by apply list_elem_of_fmap in Hx as (c & -> & _).
Qed.

(** The files of a column, once sorted. *)
Lemma files_of_ok src tasks outs col :
  Forall2 (task_output src) tasks outs -> StronglySorted tasks_apart tasks ->
  let files := files_of (merge_sort output_le outs) col in
  Forall file_ok files /\ (versioned col -> StronglySorted rows_apart files) /\
  forall r, r ∈ concat files <-> exists t, t ∈ tasks /\ task_column t = col /\ task_row src t r.
Proof.
  intros Hout Hap. set (sorted := merge_sort output_le outs). cbn zeta.
  assert (Hperm : sorted ≡ₚ outs) by apply merge_sort_Permutation.
  assert (Hmem : forall o, o ∈ sorted -> exists t, t ∈ tasks /\ task_output src t o).
  { intros o Ho. rewrite Hperm in Ho. apply list_elem_of_lookup in Ho as [i Hi].
    destruct (Forall2_lookup_r _ _ _ _ _ Hout Hi) as (t & Ht%list_elem_of_lookup_2 & Hto). eauto. }
  assert (Hin : forall f, f ∈ files_of sorted col <-> exists o, o ∈ sorted /\ o.1.1 = col /\ f ∈ o.2).
  { intros f. unfold files_of. rewrite elem_of_concat. split.
    - intros (l & Hf & (o & -> & [Hc Ho]%list_elem_of_filter)%list_elem_of_fmap). eauto.
    - intros (o & Ho & Hc & Hf). exists o.2. split; [done|]. apply list_elem_of_fmap. exists o. split; [done|]. by apply list_elem_of_filter. }
  split_and!.
  - apply Forall_forall. intros f (o & Ho & _ & Hf)%Hin. destruct (Hmem o Ho) as (t & _ & Hto).
    pose proof (to_files _ _ _ Hto) as Hall. rewrite Forall_forall in Hall. auto.
  - intros Hc. unfold files_of. apply sorted_concat.
    + intros o [Heq Ho]%list_elem_of_filter. destruct (Hmem o Ho) as (t & _ & Hto). apply ordered_apart, (to_ordered _ _ _ Hto).
      by rewrite <- (to_column _ _ _ Hto), Heq.
    + apply (sorted_perm _ (filter (fun o : Output => o.1.1 = col) outs)); [intros o o' Ha f g Hf Hg; apply rows_apart_sym; auto|by rewrite Hperm|].
      pose proof (sorted_filter _ (fun o : Output => o.1.1 = col) _ (sorted_forall2 _ _ _ _ _ (outputs_apart_ok src) Hout Hap)) as Hs.
      apply sorted_lookup. intros i j o o' Hij Hi Hj f g Hf Hg. pose proof (sorted_pair _ _ _ _ _ _ Hs Hij Hi Hj) as Hoo.
      pose proof (proj1 (proj1 (list_elem_of_filter _ _ _) (list_elem_of_lookup_2 _ _ _ Hi))) as Hci.
      pose proof (proj1 (proj1 (list_elem_of_filter _ _ _) (list_elem_of_lookup_2 _ _ _ Hj))) as Hcj.
      apply Hoo; congruence || done.
  - intros r. rewrite elem_of_concat. split.
    + intros (f & Hr & (o & Ho & Hc & Hf)%Hin). destruct (Hmem o Ho) as (t & Ht & Hto). exists t.
      rewrite <- (to_column _ _ _ Hto). split_and!; try done. apply (to_rows _ _ _ Hto), elem_of_concat. eauto.
    + intros (t & [i Ht]%list_elem_of_lookup & Hc & Hr). destruct (Forall2_lookup_l _ _ _ _ _ Hout Ht) as (o & Ho%list_elem_of_lookup_2 & Hto).
      pose proof (proj2 (to_rows _ _ _ Hto r) Hr) as Hr'. apply elem_of_concat in Hr' as (f & Hrf & Hf). exists f. split; [done|]. apply Hin. exists o.
      rewrite Hperm, (to_column _ _ _ Hto). done.
Qed.

(** ** Ingesting the outputs *)

Lemma ingest_columns_ok outs cols : forall dk,
  kv_ok (dk_db dk) -> NoDup cols -> (forall col, col ∈ cols -> files_ok col (files_of outs col)) ->
  exists db', ingest_columns (E := E) dk outs cols = (Ok tt, set_dk_db dk db') /\ kv_ok db' /\
    (forall c k, kv_contents db' c k =
      if decide (c ∈ cols) then fold_left (op_contents c k) (concat (files_of outs c)) (kv_contents (dk_db dk) c k) else kv_contents (dk_db dk) c k) /\
    (forall c k ts, kv_versions db' c k ts =
      if decide (c ∈ cols) then fold_left (op_versions c k ts) (concat (files_of outs c)) (kv_versions (dk_db dk) c k ts)
      else kv_versions (dk_db dk) c k ts).
Proof.
  induction cols as [|col cols IH]; intros dk Hkv Hnd Hf; cbn [ingest_columns].
  - exists (dk_db dk). split; [by destruct dk|done].
  - inversion Hnd as [|? ? Hni Hnd']; subst. pose proof (Hf col ltac:(by left)) as Hfc.
    destruct (ingest_ok (E := E) dk col _ Hkv Hfc) as (db1 & -> & Hkv1 & Hcon1 & Hver1). cbn [sbind].
    destruct (IH (set_dk_db dk db1) Hkv1 Hnd') as (db' & -> & Hkv' & Hcon' & Hver'); [intros c Hc; apply Hf; by right|].
    exists db'. split; [done|]. split; [done|]. cbn [set_dk_db dk_db] in *. split.
    + intros c k. rewrite Hcon', Hcon1. destruct (decide (c = col)) as [->|Hne].
      * rewrite decide_False by done. by rewrite decide_True by (by left).
      * rewrite (ingest_other col (files_of outs col)) by done. destruct (decide (c ∈ cols)) as [Hd|Hd]; [by rewrite decide_True by (by right)|].
        by rewrite decide_False by (by intros [?|?]%elem_of_cons).
    + intros c k ts. rewrite Hver', Hver1. destruct (decide (c = col)) as [->|Hne].
      * rewrite decide_False by done. by rewrite decide_True by (by left).
      * rewrite (ingest_other_versions col (files_of outs col)) by done. destruct (decide (c ∈ cols)) as [Hd|Hd]; [by rewrite decide_True by (by right)|].
        by rewrite decide_False by (by intros [?|?]%elem_of_cons).
Qed.

(** The tasks of a conversion, and their rows by column. *)
Lemma elem_of_convert_tasks jobs cols t :
  t ∈ convert_tasks jobs false cols <->
  (exists col i b, versioned col /\ t = Versioned col i b /\ shard_bounds (4 * jobs) !! i = Some b) \/
  (exists col, col ∈ cols /\ ~ versioned col /\ t = Copy col).
Proof.
  assert (Hver : forall col, t ∈ versioned_tasks jobs col <-> exists i b, t = Versioned col i b /\ shard_bounds (4 * jobs) !! i = Some b).
  { intros col. unfold versioned_tasks. rewrite list_elem_of_lookup. split.
    - intros [i Hi]. rewrite list_lookup_imap in Hi. destruct (shard_bounds (4 * jobs) !! i) as [b|] eqn:Hb; [|done]. injection Hi as <-. eauto.
    - intros (i & b & -> & Hb). exists i. by rewrite list_lookup_imap, Hb. }
  unfold convert_tasks. cbn [app]. rewrite !elem_of_app, !Hver, list_elem_of_fmap. setoid_rewrite list_elem_of_filter. split.
  - intros [(i & b & -> & Hb)|[(i & b & -> & Hb)|(c & -> & [_ Hv] & Hc)]].
    + left. exists AddressToStorage, i, b. split; [by right|done].
    + left. exists AddressToAccount, i, b. split; [by left|done].
    + right. exists c. split; [done|]. split; [|done]. intros [-> | ->]; done.
  - intros [(c & i & b & [-> | ->] & -> & Hb)|(c & Hc & Hv & ->)]; [right; left; eauto|left; eauto|].
    right; right. exists c. split; [done|]. split; [|done]. split; [by intros []|]. destruct c; try done; exfalso; apply Hv; by (left + right).
Qed.

Lemma convert_tasks_plain src jobs cols :
  AddressToAccount ∈ cols -> AddressToStorage ∈ cols -> (forall col, versioned col -> inverted_column col src) ->
  Forall (plain_task src cols) (convert_tasks jobs false cols).
Proof.
  intros Ha Hs Hinv. apply Forall_forall. intros t [(c & i & b & Hc & -> & _)|(c & _ & Hv & ->)]%elem_of_convert_tasks; [|done].
  split; [done|]. split; [by destruct Hc as [-> | ->]|by apply Hinv].
Qed.

Lemma convert_row src jobs cols col r : col ∈ cols ->
  (exists t, t ∈ convert_tasks jobs false cols /\ task_column t = col /\ task_row src t r) <->
  (~ versioned col /\ exists k v, kv_contents src col k = Some v /\ r = OpPut col k v) \/
  (versioned col /\ exists p m v, key_wf col p /\ is_u64 m /\ kv_contents src col (version_key true p m) = Some v /\
     r = OpPutTs col p m (stored true col v)).
Proof.
  intros Hcol. split.
  - intros (t & [(c & i & b & Hc & -> & _)|(c & _ & Hv & ->)]%elem_of_convert_tasks & Heq & Hr); cbn [task_column task_row] in *; subst; [right|by left].
    split; [done|]. destruct Hr as (p & m & v & ? & ? & _ & ? & ->). eauto 10.
  - intros [[Hv Hr]|[Hv (p & m & v & Hp & Hm & Hk & ->)]].
    + exists (Copy col). split; [apply elem_of_convert_tasks; right; eauto|done].
    + destruct (shards_cover (4 * jobs) (version_key true p m)) as (i & b & Hb & Hin);
        [pose proof (prefix_nonempty _ _ Hv Hp); by destruct p|apply version_key_bytes, Hp|].
      exists (Versioned col i b). split; [apply elem_of_convert_tasks; left; eauto 10|]. split; [done|].
      exists p, m, v. done.
Qed.
End tasks.

Section columns.
Context {K E : Type} `{RocksDBOk K E} `{BlockCodec E} `{ArchiveConfig} `{!RocksDBAdmin K E} `{!RocksDBAdminOk K E} `{ArchiveEnv}.
Implicit Types (dk : Disk K).

(** The files of a column can be ingested together. *)
Lemma convert_files_ok src jobs cols outs col :
  Forall2 (task_output src) (convert_tasks jobs false cols) outs -> col ∈ cols ->
  files_ok col (files_of (merge_sort output_le outs) col) /\
  forall r, r ∈ concat (files_of (merge_sort output_le outs) col) <->
    (~ versioned col /\ exists k v, kv_contents src col k = Some v /\ r = OpPut col k v) \/
    (versioned col /\ exists p m v, key_wf col p /\ is_u64 m /\ kv_contents src col (version_key true p m) = Some v /\
       r = OpPutTs col p m (stored true col v)).
Proof.
  intros Hout Hcol. destruct (files_of_ok src _ outs col Hout (convert_tasks_apart jobs cols)) as (Hf & Hap & Hr).
  set (files := files_of _ col) in *.
  assert (Hrows : forall r, r ∈ concat files <->
    (~ versioned col /\ exists k v, kv_contents src col k = Some v /\ r = OpPut col k v) \/
    (versioned col /\ exists p m v, key_wf col p /\ is_u64 m /\ kv_contents src col (version_key true p m) = Some v /\
       r = OpPutTs col p m (stored true col v))) by (intros r; rewrite Hr; by apply convert_row).
  split; [|done]. clearbody files. clear Hr.
  assert (Hin : forall f r, f ∈ files -> r ∈ f -> r ∈ concat files) by (intros f r ? ?; apply elem_of_concat; eauto). split.
  - apply Forall_forall. intros f Hff. rewrite Forall_forall in Hf. split; [auto|]. apply Forall_forall. intros r Hrf.
    by destruct (proj1 (Hrows r) (Hin f r Hff Hrf)) as [(_ & k & v & _ & ->)|(_ & p & m & v & _ & _ & _ & ->)].
  - intros i j f g Hij Hi Hj. destruct (decide (versioned col)) as [Hv|Hv].
    + left. destruct (decide (i < j)%nat); [by eapply sorted_pair; [apply Hap| |..]|].
      apply rows_apart_sym. eapply (sorted_pair _ _ j i); [by apply Hap|lia|done..].
    + right. intros r Hrf. assert (Hc : r ∈ concat files).
      { apply elem_of_app in Hrf as [?|?]; [eapply (Hin f)|eapply (Hin g)]; try done; by eapply list_elem_of_lookup_2. }
      apply Hrows in Hc as [(_ & k & v & _ & ->)|[? _]]; [eauto|done].
Qed.

(** What the new database holds. *)
Lemma convert_columns_ok src dk jobs cols :
  kv_ok src -> blank cols (dk_db dk) -> NoDup cols -> AddressToAccount ∈ cols -> AddressToStorage ∈ cols ->
  (forall col, versioned col -> inverted_column col src) ->
  exists outs db', run_tasks (E := E) src cols dk [] 0 (convert_tasks jobs false cols) = (Ok (outs, 0), dk) /\
    ingest_columns (E := E) dk (merge_sort output_le outs) cols = (Ok tt, set_dk_db dk db') /\ kv_ok db' /\
    (forall c k, c ∈ cols -> ~ versioned c -> kv_contents db' c k = kv_contents src c k) /\
    (forall c p m v, versioned c -> kv_versions db' c p m = Some v <->
       exists v', key_wf c p /\ is_u64 m /\ kv_contents src c (version_key true p m) = Some v' /\ v = stored true c v').
Proof.
  intros Hsrc (Hkv & Hcon & Hver) Hnd Ha Hs Hinv.
  destruct (run_tasks_ok (E := E) src cols dk _ [] 0 Hsrc (convert_tasks_plain src jobs cols Ha Hs Hinv)) as (outs & Hrun & Hout).
  pose proof (fun col => convert_files_ok src jobs cols outs col Hout) as Hfiles.
  destruct (ingest_columns_ok (E := E) (merge_sort output_le outs) cols dk Hkv Hnd) as (db' & Hing & Hkv' & Hcon' & Hver');
    [by intros col Hc; apply Hfiles|].
  exists outs, db'. split; [done|]. split; [done|]. split; [done|]. split.
  - intros c k Hc Hv. destruct (Hfiles c Hc) as [Hf Hr]. rewrite Hcon', decide_True, Hcon by done. pose proof (files_puts _ _ Hf) as Hputs.
    destruct (kv_contents src c k) as [v|] eqn:Hk.
    + apply fold_puts_in; [done|apply Hr; left; eauto|]. intros v' [(_ & k' & v2 & Hk' & Heq)|[? _]]%Hr; [congruence|done].
    + apply fold_puts_out; [done|]. intros v' [(_ & k' & v2 & Hk' & Heq)|[? _]]%Hr; [congruence|done].
  - intros c p m v Hv. assert (Hc : c ∈ cols) by (by destruct Hv as [-> | ->]). destruct (Hfiles c Hc) as [Hf Hr].
    rewrite Hver', decide_True, Hver by done. pose proof (files_puts _ _ Hf) as Hputs.
    assert (Hrow : forall w, OpPutTs c p m w ∈ concat (files_of (merge_sort output_le outs) c) <->
      exists v', key_wf c p /\ is_u64 m /\ kv_contents src c (version_key true p m) = Some v' /\ w = stored true c v').
    { intros w. rewrite Hr. split.
      - intros [(_ & k' & v2 & _ & [=])|(_ & p' & m' & v' & Hp & Hm & Hk & Heq)]. injection Heq as -> -> ->. eauto.
      - intros (v' & Hp & Hm & Hk & ->). right. eauto 10. }
    rewrite <- Hrow. apply fold_versions_iff; [done|]. intros w w' (v1 & _ & _ & Hk1 & ->)%Hrow (v2 & _ & _ & Hk2 & ->)%Hrow. congruence.
Qed.
End columns.

Section archive.
Context {K E : Type} `{RocksDBOk K E} {C : Type -> Type -> Type} `{QuickCacheOk C}.
Context `{SlimCodecOk} `{BlockCodecOk E} `{RevmBytecode}.
Context `{!RocksDBAdmin K E} `{!RocksDBAdminOk K E} `{ArchiveEnv}.
Context (blocks : gmap H256 BlockInfo) (codes : H256 -> option bytes) (cfg : ArchiveConfig).
Implicit Types (dk : Disk K) (db : K).

Lemma inverted_archive db ix hd col :
  node_under (C := C) blocks codes (with_encoding true cfg) (bare db ix false) hd -> versioned col -> inverted_column col db.
Proof. intros Hn Hc k Hk. by apply (do_plain _ _ (ao_db _ (no_archive _ _ _ _ Hn)) col k eq_refl Hc). Qed.

Lemma converted_migrated src db' ix hd :
  known_under blocks (with_encoding true cfg) -> node_under (C := C) blocks codes (with_encoding true cfg) (bare src ix false) hd -> kv_ok db' ->
  (forall c k, in_use ix c -> kv_contents db' c k = kv_contents src c k) ->
  (forall c p m v, versioned c -> kv_versions db' c p m = Some v <->
     exists v', key_wf c p /\ is_u64 m /\ kv_contents src c (version_key true p m) = Some v' /\ v = stored true c v') ->
  migrated ix true false true true src db'.
Proof.
  intros Hb Hn Hkv Hplain Hver. split; try done.
  - auto.
  - intros col p n Hc Hnu Hmax. cbn [version_of]. apply option_eq. intros v. rewrite Hver by done. split.
    + intros (v' & _ & _ & -> & ->). done.
    + destruct (kv_contents src col (version_key true p n)) as [v'|] eqn:Hk; [|done]. cbn. intros [= <-]. exists v'.
      destruct (inverted_archive _ _ _ _ Hn Hc (version_key true p n) ltac:(by eexists)) as (p' & m & Hp & Hm & Heq).
      pose proof (f_equal length Heq) as Hlen. rewrite !length_version_key in Hlen. apply version_key_inj in Heq as [-> ->]; [done|lia|done..].
  - intros col p Hc. cbn [version_of]. destruct (kv_versions db' col p u64_max) as [v|] eqn:Hv; [|done].
    apply Hver in Hv as (v' & _ & _ & Hk & _); [|done]. pose proof (no_versions _ _ _ _ Hn col p u64_max Hc ltac:(in_range)) as Hno.
    cbn [bare dr_db dr_udt] in Hno. unfold version_at in Hno. cbn [inverted_block_encoding with_encoding] in Hno. rewrite Hno in Hk; [done|].
    pose proof (bk_number _ Hb _ _ (no_head _ _ _ _ Hn)) as Hu. unfold is_u32, u32_max, u64_max in *. lia.
  - intros col k n _ Hc [v (v' & Hp & _)%Hver]; done.
Qed.

Lemma convert_ok src dst ix hd jobs :
  known_under blocks (with_encoding true cfg) -> disk_under (C := C) blocks codes (with_encoding true cfg) src ix false hd ->
  kv_contents (dk_db src) LatestBlockHash ENCODING_MARKER_KEY = Some [1] -> blank_disk dst ->
  block_index_enabled = false \/ is_Some ix ->
  exists report dst', convert_inverted_to_udt src dst jobs = (Ok report, dst') /\
    disk_under (C := C) blocks codes (with_encoding true cfg) dst' ix true hd /\
    carries_under (C := C) blocks codes (with_encoding true cfg) (with_encoding true cfg) (bare (dk_db src) ix false) (bare (dk_db dst') ix true) /\
    kv_contents (dk_db dst') LatestBlockHash ENCODING_MARKER_KEY = Some [1].
Proof.
  intros Hb Hd Hmark Hblank Hset. pose proof Hblank as (_ & Hcd & Hid & Hsd). pose proof (do_node _ _ _ _ _ _ Hd) as Hn.
  pose proof (db_kv _ _ _ _ Hn) as Hkv. cbn [bare dr_db] in Hkv. unfold convert_inverted_to_udt, disk_empty. rewrite Hcd, Hid, Hsd.
  cbn [negb andb bool_decide decide_rel].
  rewrite (open_source blocks codes _ _ _ _ _ Hd). cbn [fst rocks sbind]. set (cols := existing_columns src).
  rewrite cf_handle_ok by (exact (used_column blocks codes _ _ _ _ _ _ Hd (latest_in_use ix))). cbn [sbind].
  rewrite (rk_get (dk_db src) _ _ Hkv), Hmark. cbn [rocks sbind first_byte]. rewrite decide_False by (intros Hne; by destruct Hne).
  assert (block_index_enabled && bool_decide (BlockHashToBlockInfo ∈ cols) = false) as ->.
  { destruct Hset as [->|[i ->]]; [done|]. apply andb_false_intro2, bool_decide_eq_false_2. intros Hc%(source_columns blocks codes _ _ _ _ _ _ Hd). revert Hc.
    apply (do_layout _ _ _ _ _ _ Hd). }
  cbn [convert_columns]. destruct (create_blank dst cols Hblank) as (db0 & -> & Hdb0). cbn [sbind].
  destruct (convert_columns_ok (dk_db src) (mkDisk db0 cols None None) (clamp 1 64 jobs) cols)
    as (outs & db' & -> & Hing & Hkv' & Hplain & Hver);
    [done|done|apply existing_nodup|apply (versioned_column blocks codes _ _ _ _ _ _ Hd); by (left + right)..|by intros; eapply inverted_archive|].
  cbn [sbind fst snd]. rewrite Hing. cbn [sbind]. eexists _, _. split; [done|].
  unfold set_dk_db. cbn [dk_columns dk_index dk_schema dk_db].
  assert (Huse : forall c k, in_use ix c -> kv_contents db' c k = kv_contents (dk_db src) c k).
  { intros c k Hc. apply Hplain; [exact (used_column blocks codes _ _ _ _ _ _ Hd Hc)|apply Hc]. }
  pose proof (converted_migrated (dk_db src) db' ix hd Hb Hn Hkv' Huse Hver) as Hm. split_and!.
  - by apply (migrated_disk blocks codes cfg src db' ix false true true true hd cols (Some SCHEMA_V3) None Hb Hd Hm
      (fun c => source_columns blocks codes _ _ _ _ _ c Hd)).
  - exact (migrated_carries blocks codes cfg true false true true _ _ ix Hb Hm).
  - rewrite Huse by apply latest_in_use. done.
Qed.
End archive.
