(* ===== verification/MigrateTheorems.v ===== *)
(** * The offline conversions keep the archive

    A node with a legacy archive stops, its archive is converted from v1 to
    v2 or from v2 to v3, and a node opens the result: it has the same blocks,
    with the same states. *)

From stdpp Require Import prelude gmap list sorting strings.
From S2P Require Import Prelude Types QuickCache Backend KvStore MemKv ArchiveEncoding StateCache BlockIndex.
From S2P Require Import BlockIndexFacts BlockIndexStore BlockIndexRun BlockIndexTheorems Archive ArchiveReads ArchiveSlots.
From S2P Require Import ArchiveWrite ArchiveCommit Wrapper WrapperFacts ArchiveBackend ArchiveUpdate ArchiveStore.
From S2P Require Import Layers LayersFacts TreeReads ArchiveRun ArchiveExample ArchiveTheorems RewindTheorems.
From S2P Require Import ArchiveDisk ArchiveOpen Migrate MigrateFacts MoveInfos ReencodeTheorems Migrated.
From S2P Require Import ConvertTheorems.

#[local] Open Scope Z_scope.
#[local] Open Scope state_scope.

Section conversions.
Context {K E : Type} `{RocksDBOk K E} {C : Type -> Type -> Type} `{QuickCacheOk C}.
Context `{SlimCodecOk} `{BlockCodecOk E} `{RevmBytecode}.
Context `{!RocksDBAdmin K E} `{!RocksDBAdminOk K E} `{ArchiveEnv}.
Context (blocks : gmap H256 BlockInfo) (codes : H256 -> option bytes) (cfg : ArchiveConfig).
Implicit Types (d : DataBaseRef K C) (dk : Disk K).


(** C27: converting a v2 archive to v3 keeps it. The archive of a stopped node
    with inverted tails, marked so, is converted into an empty directory
    without an error, with any number of workers. A node opens the result as a
    v3 archive: its latest block is the same, and every block the old node had
    is there, with its state. The block infos need not be moved. *)
Theorem convert_keeps d hd dst jobs :
  known_under blocks (with_encoding true cfg) -> node_under blocks codes (with_encoding true cfg) d hd -> dr_udt d = false ->
  kv_contents (dr_db d) LatestBlockHash ENCODING_MARKER_KEY = Some [1] ->
  blank_disk dst -> block_index_enabled = false \/ is_Some (dr_block_index d) ->
  exists report dst' d' dk', convert_inverted_to_udt (disk_of d) dst jobs = (Ok report, dst') /\
    open_under (with_encoding true cfg) dst' = (Ok d', dk') /\ dr_udt d' = true /\ node_under blocks codes (with_encoding true cfg) d' hd /\
    carries_under blocks codes (with_encoding true cfg) (with_encoding true cfg) d d'.
Proof.
  intros Hb Hn Hu Hmark Hblank Hset. pose proof (stopped_disk blocks codes _ _ _ Hn) as Hd. rewrite Hu in Hd.
  destruct (convert_ok blocks codes cfg (disk_of d) dst _ hd jobs Hb Hd Hmark Hblank Hset) as (report & dst' & Hre & Hd' & Hcar & _).
  destruct (open_migrated blocks codes (with_encoding true cfg) dst' _ true hd Hb Hd')
    as (d' & dk' & Ho & Hn' & Hu' & _ & _ & _ & Hcar' & _); [destruct Hset; [by left|by right; left]|].
  exists report, dst', d', dk'. split; [done|]. split; [done|]. split; [done|]. split; [done|].
  apply (carries_under_trans blocks codes (with_encoding true cfg) (with_encoding true cfg) (with_encoding true cfg) _ (bare (dr_db d) (dr_block_index d) (dr_udt d)));
    [by apply stopped_carries|]. rewrite Hu.
  by apply (carries_under_trans blocks codes (with_encoding true cfg) (with_encoding true cfg) (with_encoding true cfg) _ (bare (dk_db dst') (dr_block_index d) true)).
Qed.
End conversions.

(** ** Examples *)

(** The archive of a node with block 5, which wrote one slot, in a legacy
    layout with tails in either direction; only the inverted one is marked. *)
Definition old_key (inv : bool) : bytes := version_key inv (slot_prefix 1 2) 5.

Definition old_plain (inv : bool) : gmap (StorageTypeColumn * bytes) bytes :=
  <[(AddressToStorage, old_key inv) := h256_bytes 9]> (if inv then ex_plain else delete (LatestBlockHash, ENCODING_MARKER_KEY) ex_plain).

Definition old_archive (inv : bool) : DataBaseRef MemKv FifoCache := bare (mkMemKv (old_plain inv) ∅) None false.

Definition empty_disk : Disk MemKv := mkDisk (mkMemKv ∅ ∅) [] None None.

Lemma empty_disk_blank : blank_disk empty_disk.
Proof. by split_and!. Qed.

Lemma old_contents inv c k v : old_plain inv !! (c, k) = Some v ->
  (c = AddressToStorage /\ k = old_key inv /\ v = h256_bytes 9) \/ ex_plain !! (c, k) = Some v.
Proof.
  unfold old_plain. intros Hk. apply lookup_insert_Some in Hk as [[Heq <-]|[_ Hk]]; [apply pair_equal_spec in Heq as [<- <-]; by left|].
  right. destruct inv; [done|]. by apply lookup_delete_Some in Hk as [_ Hk].
Qed.

Lemma old_kept inv c k : c <> AddressToStorage -> (c, k) <> (LatestBlockHash, ENCODING_MARKER_KEY) -> old_plain inv !! (c, k) = ex_plain !! (c, k).
Proof.
  intros Hc Hk. unfold old_plain. rewrite lookup_insert_ne by (intros Heq; apply pair_equal_spec in Heq as [? _]; congruence).
  destruct inv; [done|]. apply lookup_delete_ne. congruence.
Qed.

Lemma old_version inv col p n raw : versioned col -> is_u64 n -> old_plain inv !! (col, version_key inv p n) = Some raw ->
  col = AddressToStorage /\ n = 5.
Proof.
  intros Hc Hn Hv. apply old_contents in Hv as [(-> & Hk & _)|Hv].
  - split; [done|]. apply app_inj_2 in Hk as [_ Hk]; [|by rewrite !length_tail].
    apply (f_equal (decode_version_tail inv)) in Hk. by rewrite !decode_encode_tail in Hk by (done || in_range).
  - apply ex_contents in Hv as [?|[[? _]|[? _]]]; subst; by destruct Hc.
Qed.

Lemma old_node_ok inv : node_under (E := unit) ex_chain ex_codes (with_encoding inv ex_config) (old_archive inv) (ex_block 5).
Proof.
  split; cbn [dr_db old_archive bare kv_contents mem_rocksdb_spec mk_plain dr_code_cache dr_state_cache dr_udt].
  - split; [|done]. cbn [dr_db dr_udt old_archive bare]. split; [done|..]; cbn [kv_contents mem_rocksdb_spec mk_plain].
    + intros col k _ Hc [v Hk]. apply old_contents in Hk as [(-> & -> & _)|Hk].
      * exists (slot_prefix 1 2), 5. split; [apply slot_prefix_wf|]. split; [in_range|done].
      * apply ex_contents in Hk as [?|[[? _]|[? _]]]; subst; by destruct Hc.
    + done.
    + intros p n raw Hn Hv. by apply (old_version inv) in Hv as [? _]; [|by left|done].
  - split; cbn [dr_db old_archive bare kv_contents mem_rocksdb_spec mk_plain dr_block_index dr_block_info_cache]; [|by intros k r []|done|done].
    intros k raw _ [(? & _)|[?|[[? _]|(_ & -> & ->)]]%ex_contents]%old_contents; [done..|]. exists (ex_block 5). split; [by vm_compute|].
    split; [done|apply ex_decode].
  - by vm_compute.
  - rewrite old_kept by done. unfold ex_plain. by rewrite lookup_insert_eq.
  - exists ex_raw. split; [apply ex_decode|]. cbn [dr_block_index old_archive bare dr_db kv_contents mem_rocksdb_spec mk_plain].
    rewrite old_kept by done. unfold ex_plain. rewrite !lookup_insert_ne by done. by rewrite lookup_insert_eq.
  - rewrite old_kept by done. unfold ex_plain. rewrite lookup_insert_ne by done. by rewrite lookup_insert_eq.
  - intros k raw [(? & _)|[?|[(_ & -> & ->)|(? & _)]]%ex_contents]%old_contents; [done..| |done].
    split; [apply length_h256|]. exists 5. split; [in_range|done].
  - intros col p n Hc Hn Hlt. unfold version_at. cbn [kv_contents mem_rocksdb_spec mk_plain].
    apply eq_None_not_Some. intros [v Hv]. apply (old_version inv) in Hv as [_ ->]; [|done..]. cbn in Hlt. lia.
  - done.
  - by intros k raw [(? & _)|[?|[[? _]|(? & _)]]%ex_contents]%old_contents.
  - done.
Qed.

Lemma old_known inv : known_under ex_chain (with_encoding inv ex_config).
Proof. exact (known_any ex_chain ex_config true inv ex_blocks_ok). Qed.


Lemma convert_keeps_witness :
  exists report dst d' dk, convert_inverted_to_udt (disk_of (old_archive true)) empty_disk 3 = (Ok report, dst) /\
    open_under (E := unit) (C := FifoCache) (with_encoding true ex_config) dst = (Ok d', dk) /\ dr_udt d' = true.
Proof.
  destruct (convert_keeps (E := unit) ex_chain ex_codes ex_config (old_archive true) (ex_block 5) empty_disk 3)
    as (report & dst & d' & dk & Hre & Ho & Hu & _); [apply old_known|apply old_node_ok|done|by vm_compute|apply empty_disk_blank|by left|].
  exists report, dst, d', dk. split; [exact Hre|]. split; [exact Ho|exact Hu].
Defined.
