(* ===== verification/TempoEvm.v ===== *)
(** * Storage of the Tempo precompiles

    crates/leafage-evm-chains/src/tempo: the hard forks (hardfork.rs), the
    errors (precompile/error.rs), the storage a precompile sees
    (precompile/storage.rs), the storage credits that writes are charged with
    (precompile/storage_credits.rs) and the typed slots, mappings and vectors
    over it (precompile/storage_types.rs). Gas is not modelled. *)

From stdpp Require Import prelude gmap list strings.
From S2P Require Import Prelude.

#[local] Open Scope Z_scope.

Abbreviation Address := Z.
Abbreviation B256 := Z.
Abbreviation U256 := Z.
Abbreviation u128 := Z.
Abbreviation i16 := Z.
Abbreviation u64 := Z (only parsing).

Definition u128_max : Z := 2 ^ 128 - 1.
Definition i16_min : Z := -32768.
Definition i16_max : Z := 32767.

Definition is_u128 (x : Z) : Prop := 0 <= x <= u128_max.
Definition is_i16 (x : Z) : Prop := i16_min <= x <= i16_max.
Definition is_address (x : Z) : Prop := 0 <= x < 2 ^ 160.

Definition checked_sub (a b : u128) : option u128 := if decide (b <= a) then Some (a - b) else None.

(** ** Hard forks *)

Inductive TempoHardfork :=
| Genesis | T1 | T1A | T1B | T1C | T2 | T3 | T4 | T5 | T6 | T7 | T8 | T9 | T10 | T11 | T12 | T13.

Definition fork_index (f : TempoHardfork) : Z :=
  match f with
  | Genesis => 0 | T1 => 1 | T1A => 2 | T1B => 3 | T1C => 4 | T2 => 5 | T3 => 6 | T4 => 7 | T5 => 8
  | T6 => 9 | T7 => 10 | T8 => 11 | T9 => 12 | T10 => 13 | T11 => 14 | T12 => 15 | T13 => 16
  end.

(** The fork of the block. *)
Class TempoSpec := spec : TempoHardfork.

Definition since `{TempoSpec} (f : TempoHardfork) : bool := fork_index f <=? fork_index spec.

Section forks.
Context `{TempoSpec}.

Definition is_t1a : bool := since T1A.
Definition is_t1c : bool := since T1C.
Definition is_t2 : bool := since T2.
Definition is_t3 : bool := since T3.
Definition is_t4 : bool := since T4.
Definition is_t5 : bool := since T5.
Definition is_t6 : bool := since T6.
Definition is_t7 : bool := since T7.
Definition is_t8 : bool := since T8.
Definition is_t9 : bool := since T9.
Definition is_t12 : bool := since T12.
End forks.

(** ** Errors

    Revert data is the ABI encoding of an error with its arguments. *)

Inductive TempoPrecompileError :=
| OutOfGas
| UnknownFunctionSelector (selector : Z)
| Revert (error : string) (args : list Z)
| Fatal (message : string).

#[export] Instance TempoPrecompileError_eq_dec : EqDecision TempoPrecompileError.
Proof. solve_decision. Defined.

Definition under_overflow : TempoPrecompileError := Revert "Panic" [17].

Definition is_system_error (e : TempoPrecompileError) : bool :=
  match e with
  | OutOfGas | Fatal _ => true
  | Revert error _ => bool_decide (error = "Panic"%string)
  | UnknownFunctionSelector _ => false
  end.

(** ** State

    A slot is a number, the slot of a key in a mapping, or the data of a
    vector, and an offset from it. In the code the last two are Keccak hashes;
    here distinct keys have distinct slots. *)

Inductive Slot :=
| At (n : Z)
| Mapped (key : Z) (base : Slot) (off : Z)
| DataOf (base : Slot) (off : Z).

#[export] Instance Slot_eq_dec : EqDecision Slot.
Proof. solve_decision. Defined.

Fixpoint slot_tree (s : Slot) : gen_tree Z :=
  match s with
  | At n => GenLeaf n
  | Mapped key base off => GenNode 0 [GenLeaf key; slot_tree base; GenLeaf off]
  | DataOf base off => GenNode 1 [slot_tree base; GenLeaf off]
  end.

Fixpoint tree_slot (t : gen_tree Z) : Slot :=
  match t with
  | GenLeaf n => At n
  | GenNode 0 [GenLeaf key; base; GenLeaf off] => Mapped key (tree_slot base) off
  | GenNode 1 [base; GenLeaf off] => DataOf (tree_slot base) off
  | _ => At 0
  end.

#[export] Instance Slot_countable : Countable Slot.
Proof. apply (inj_countable' slot_tree tree_slot). intros s. induction s as [n|k s IH o|s IH o]; cbn; by rewrite ?IH. Defined.

Definition slot_add (s : Slot) (n : Z) : Slot :=
  match s with
  | At m => At (m + n)
  | Mapped key base off => Mapped key base (off + n)
  | DataOf base off => DataOf base (off + n)
  end.

Definition mapping_slot (key : Z) (base : Slot) : Slot := Mapped key base 0.
Definition calc_data_slot (len_slot : Slot) : Slot := DataOf len_slot 0.

(** An argument of an event: a word, the selector of an error by name, or bytes. *)
Inductive LogArg := Word (w : Z) | Selector (error : string) | Text (data : bytes).

Record LogData := mkLog {
  log_event : string;
  log_args : list LogArg;
}.

Record Evm := mkEvm {
  evm_storage : gmap (Address * Slot) U256;
  evm_transient : gmap (Address * Slot) U256;
  evm_logs : list (Address * LogData);
  (** [tip1060_storage_credits_enabled] and [.._minting_enabled]. *)
  evm_credits : bool;
  evm_minting : bool;
  (** The accounts with code. *)
  evm_code : gset Address;
}.

Definition set_storage (s : Evm) m : Evm := mkEvm m (evm_transient s) (evm_logs s) (evm_credits s) (evm_minting s) (evm_code s).
Definition set_transient (s : Evm) m : Evm := mkEvm (evm_storage s) m (evm_logs s) (evm_credits s) (evm_minting s) (evm_code s).
Definition set_logs (s : Evm) l : Evm := mkEvm (evm_storage s) (evm_transient s) l (evm_credits s) (evm_minting s) (evm_code s).

(** ** Computations *)

Definition M (A : Type) : Type := Evm -> Res TempoPrecompileError A * Evm.

#[export] Instance M_ret : MRet M := fun _ a s => (Ok a, s).
#[export] Instance M_bind : MBind M := fun _ _ k m s =>
  match m s with
  | (Ok a, s) => k a s
  | (Err e, s) => (Err e, s)
  | (Panic, s) => (Panic, s)
  end.

Definition throw {A} (e : TempoPrecompileError) : M A := fun s => (Err e, s).

Definition ok_or {A} (e : TempoPrecompileError) (o : option A) : M A :=
  match o with Some a => mret a | None => throw e end.

Definition when (b : bool) (m : M unit) : M unit := if b then m else mret tt.

(** The result of a call as a value. *)
Definition try {A} (m : M A) : M (A + TempoPrecompileError) := fun s =>
  match m s with
  | (Ok a, s) => (Ok (inl a), s)
  | (Err e, s) => (Ok (inr e), s)
  | (Panic, s) => (Panic, s)
  end.

Fixpoint iterM {A} (f : A -> M unit) (l : list A) : M unit :=
  match l with
  | [] => mret tt
  | x :: l => _ ← f x; iterM f l
  end.

(** The addresses of the system contracts. *)
Class TempoAddresses := {
  STABLECOIN_DEX_ADDRESS : Address;
  STORAGE_CREDITS_ADDRESS : Address;
  PATH_USD_ADDRESS : Address;
  dex_not_credits : STABLECOIN_DEX_ADDRESS <> STORAGE_CREDITS_ADDRESS;
}.

(** [StorageCreditDeltas]: a [BTreeMap], sorted by address. *)
Abbreviation StorageCreditDeltas := (list (Address * u64)).

(** [alloy::primitives::keccak256]. *)
Class Keccak := keccak256 : bytes -> B256.
Class KeccakOk `{Keccak} : Prop := keccak_range : forall bs, is_u256 (keccak256 bs).

Section storage.
Context `{TempoSpec} `{TempoAddresses}.

Definition word_at (m : gmap (Address * Slot) U256) (address : Address) (slot : Slot) : U256 := default 0 (m !! (address, slot)).

Definition sload (address : Address) (slot : Slot) : M U256 := fun s => (Ok (word_at (evm_storage s) address slot), s).

Definition tload (address : Address) (slot : Slot) : M U256 := fun s => (Ok (word_at (evm_transient s) address slot), s).

Definition sstore_raw (address : Address) (slot : Slot) (value : U256) : M unit := fun s =>
  (Ok tt, set_storage s (<[(address, slot) := value]> (evm_storage s))).

Definition tstore (address : Address) (slot : Slot) (value : U256) : M unit := fun s =>
  (Ok tt, set_transient s (<[(address, slot) := value]> (evm_transient s))).

Definition emit_event (address : Address) (event : LogData) : M unit := fun s =>
  (Ok tt, set_logs s (evm_logs s ++ [(address, event)])).

Definition set_code (address : Address) : M unit := fun s =>
  (Ok tt, mkEvm (evm_storage s) (evm_transient s) (evm_logs s) (evm_credits s) (evm_minting s) ({[ address ]} ∪ evm_code s)).

Definition has_code (address : Address) : M bool := fun s => (Ok (bool_decide (address ∈ evm_code s)), s).

Definition get_flag (f : Evm -> bool) : M bool := fun s => (Ok (f s), s).

(** ** Storage credits *)

Inductive CreditMode := Refund | Preserve | Direct.

Record TransientState := mkTransient {
  ts_mode : CreditMode;
  ts_budget : u64;
  ts_pending : u64;
}.

Definition mode_of_u8 (n : Z) : option CreditMode :=
  if decide (n = 0) then Some Refund else if decide (n = 1) then Some Preserve else if decide (n = 2) then Some Direct else None.

Definition u8_of_mode (m : CreditMode) : Z := match m with Refund => 0 | Preserve => 1 | Direct => 2 end.

Definition limb (w : U256) (i : Z) : Z := w / 2 ^ (64 * i) mod 2 ^ 64.

Definition transient_of_word (w : U256) : option TransientState :=
  mode ← mode_of_u8 (limb w 0 mod 256);
  Some (mkTransient mode (limb w 1) (limb w 3)).

Definition word_of_transient (t : TransientState) : U256 :=
  u8_of_mode (ts_mode t) + ts_budget t * 2 ^ 64 + ts_pending t * 2 ^ 192.

Definition credit_slot (account : Address) : Slot := At account.

(** [account_storage_write]: a cleared slot is a credit for its owner; a new one
    takes a credit when the owner spends them. *)
Definition account_storage_write (owner : Address) (present new : U256) : M unit :=
  if decide (bool_decide (present = 0) = bool_decide (new = 0) \/ owner = STORAGE_CREDITS_ADDRESS) then mret tt
  else
    credit ← sload STORAGE_CREDITS_ADDRESS (credit_slot owner);
    if decide (u64_max < credit) then throw (Fatal "storage credit accounting failed")
    else if decide (new = 0) then
      minting ← get_flag evm_minting;
      when minting (sstore_raw STORAGE_CREDITS_ADDRESS (credit_slot owner) (Z.min u64_max (credit + 1)))
    else
      word ← tload STORAGE_CREDITS_ADDRESS (credit_slot owner);
      match transient_of_word word with
      | None => throw (Fatal "storage credit accounting failed")
      | Some t =>
          match ts_mode t with
          | Direct =>
              when (bool_decide (0 < credit) && bool_decide (0 < ts_budget t))
                (_ ← when (bool_decide (ts_budget t <> u64_max))
                   (tstore STORAGE_CREDITS_ADDRESS (credit_slot owner)
                      (word_of_transient (mkTransient Direct (ts_budget t - 1) (ts_pending t))));
                 sstore_raw STORAGE_CREDITS_ADDRESS (credit_slot owner) (credit - 1))
          | Preserve => mret tt
          | Refund =>
              tstore STORAGE_CREDITS_ADDRESS (credit_slot owner)
                (word_of_transient (mkTransient Refund (ts_budget t) (Z.min u64_max (ts_pending t + 1))))
          end
      end.

Definition sstore (address : Address) (slot : Slot) (value : U256) : M unit :=
  present ← sload address slot;
  _ ← sstore_raw address slot value;
  credits ← get_flag evm_credits;
  when credits (account_storage_write address present value).

(** A checkpoint is taken from T1C on: dropped before its commit, it reverts what
    was done since. *)
Definition checkpoint {A} (m : M A) : M A := fun s =>
  match m s with
  | (Ok a, s') => (Ok a, s')
  | (r, s') =>
      (r, if is_t1c then mkEvm (evm_storage s) (evm_transient s) (evm_logs s) (evm_credits s') (evm_minting s') (evm_code s) else s')
  end.

Definition credits_balance_of (account : Address) : M u64 :=
  w ← sload STORAGE_CREDITS_ADDRESS (credit_slot account);
  if decide (w <= u64_max) then mret w else throw under_overflow.

Definition credit_state_of (account : Address) : M TransientState :=
  w ← tload STORAGE_CREDITS_ADDRESS (credit_slot account);
  ok_or (Revert "InvalidMode" []) (transient_of_word w).

Definition write_credit_state_of (account : Address) (t : TransientState) : M unit :=
  tstore STORAGE_CREDITS_ADDRESS (credit_slot account) (word_of_transient t).

Definition write_mode_with_budget (account : Address) (mode : CreditMode) (budget : u64) : M unit :=
  t ← credit_state_of account;
  write_credit_state_of account (mkTransient mode budget (ts_pending t)).

Definition set_budget (account : Address) (budget : u64) : M unit := write_mode_with_budget account Direct budget.

Definition preserve (account : Address) : M unit := write_mode_with_budget account Preserve 0.

Definition track_minted_credits {A} (account : Address) (f : M A) : M (A * u64) :=
  if is_t7 then
    before ← credits_balance_of account;
    value ← f;
    after ← credits_balance_of account;
    if decide (after < before) then throw (Fatal "storage credit operation consumed credits")
    else mret (value, after - before)
  else value ← f; mret (value, 0).

Definition with_budget {A} (account : Address) (limit : u64) (f : M A) : M (A * Z) :=
  if is_t7 then
    if decide (limit = 0) then
      before ← credits_balance_of account;
      value ← f;
      after ← credits_balance_of account;
      mret (value, after - before)
    else
      _ ← set_budget account limit;
      before ← credits_balance_of account;
      result ← try f;
      after ← credits_balance_of account;
      t ← credit_state_of account;
      _ ← write_credit_state_of account (mkTransient Preserve 0 (ts_pending t));
      match result with
      | inl value => mret (value, after - before)
      | inr e => throw e
      end
  else value ← f; mret (value, 0).

Fixpoint credit_slots (d : StorageCreditDeltas) (user : Address) (slots : u64) : StorageCreditDeltas :=
  if decide (slots = 0) then d
  else
    match d with
    | [] => [(user, slots)]
    | (u, n) :: rest =>
        if decide (u = user) then (u, Z.min u64_max (n + slots)) :: rest
        else if decide (user < u) then (user, slots) :: d
        else (u, n) :: credit_slots rest user slots
    end.

Definition flush_credits (d : StorageCreditDeltas) (apply : Address -> u64 -> M unit) : M unit :=
  iterM (fun e => apply e.1 e.2) d.
End storage.

(** ** Packed words *)

(** [create_element_mask]. *)
Definition create_element_mask (byte_count : Z) : U256 :=
  if decide (32 <= byte_count) then u256_max else Z.shiftl 1 (byte_count * 8) - 1.

(** The bytes of a word from an offset, counted from its low end. *)
Definition get_field (w : U256) (offset bytes : Z) : Z := Z.land (Z.shiftr w (offset * 8)) (create_element_mask bytes).

Definition set_field (w : U256) (offset bytes value : Z) : U256 :=
  let mask := create_element_mask bytes in
  Z.lor (Z.ldiff w (Z.shiftl mask (offset * 8))) (Z.shiftl (Z.land value mask) (offset * 8)).

(** [bytes[a..b]] of [word.to_be_bytes::<32>()], and [copy_from_slice] into it. *)
Definition be_slice (w : U256) (a b : Z) : Z := get_field w (32 - b) (b - a).
Definition copy_be (w : U256) (a b value : Z) : U256 := set_field w (32 - b) (b - a) value.

(** [x as u16] and [x as i16]. *)
Definition u16_of_i16 (x : i16) : Z := x mod 2 ^ 16.
Definition i16_of_u16 (x : Z) : i16 := if decide (x < 2 ^ 15) then x else x - 2 ^ 16.

(** The primitive types that pack. *)
Inductive Prim := PU8 | PU32 | PU64 | PU128 | PI16 | PAddress | PU256.

Definition prim_bytes (p : Prim) : Z :=
  match p with PU8 => 1 | PU32 => 4 | PU64 => 8 | PU128 => 16 | PI16 => 2 | PAddress => 20 | PU256 => 32 end.

Definition to_word (p : Prim) (value : Z) : U256 := match p with PI16 => u16_of_i16 value | _ => value end.

Definition from_word (p : Prim) (w : U256) : M Z :=
  match p with
  | PU256 => mret w
  | PAddress => mret (w mod 2 ^ 160)
  | PI16 => if decide (w < 2 ^ 16) then mret (i16_of_u16 w) else throw under_overflow
  | _ => if decide (w < 2 ^ (8 * prim_bytes p)) then mret w else throw under_overflow
  end.

Definition spans : TempoPrecompileError := Fatal "value would span slot boundary".

Definition extract_from_word (p : Prim) (w : U256) (offset : Z) : M Z :=
  if decide (32 < offset + prim_bytes p) then throw spans else from_word p (get_field w offset (prim_bytes p)).

Definition insert_into_word (p : Prim) (w : U256) (value offset : Z) : M U256 :=
  if decide (32 < offset + prim_bytes p) then throw spans
  else mret (set_field w offset (prim_bytes p) (to_word p value)).

Definition delete_from_word (w : U256) (offset bytes : Z) : M U256 :=
  if decide (32 < offset + bytes) then throw spans
  else mret (Z.ldiff w (Z.shiftl (create_element_mask bytes) (offset * 8))).

(** ** Typed slots *)

Record FieldLocation := mkLoc {
  loc_slots : Z;
  loc_bytes : Z;
  loc_size : Z;
}.

(** A [Slot<T>] of a contract: its slot and, when it is packed, its offset. *)
Record Handle := mkHandle {
  h_address : Address;
  h_slot : Slot;
  h_offset : option Z;
}.

Definition full_slot (address : Address) (slot : Slot) : Handle := mkHandle address slot None.

Definition new_at_loc (base : Slot) (loc : FieldLocation) (address : Address) : Handle :=
  mkHandle address (slot_add base (loc_slots loc)) (Some (loc_bytes loc)).

Section handles.
Context `{TempoSpec} `{TempoAddresses}.

Definition h_read (p : Prim) (h : Handle) : M Z :=
  w ← sload (h_address h) (h_slot h);
  match h_offset h with
  | None => from_word p w
  | Some offset => extract_from_word p w offset
  end.

Definition h_write (p : Prim) (h : Handle) (value : Z) : M unit :=
  match h_offset h with
  | None => sstore (h_address h) (h_slot h) (to_word p value)
  | Some offset =>
      w ← sload (h_address h) (h_slot h);
      w ← insert_into_word p w value offset;
      sstore (h_address h) (h_slot h) w
  end.

Definition h_delete (p : Prim) (h : Handle) : M unit :=
  match h_offset h with
  | None => sstore (h_address h) (h_slot h) 0
  | Some offset =>
      w ← sload (h_address h) (h_slot h);
      w ← delete_from_word w offset (prim_bytes p);
      sstore (h_address h) (h_slot h) w
  end.

(** The entry of a mapping. The bytes of a key are padded on the left. *)
Definition mapping_at (address : Address) (base : Slot) (key : Z) : Handle := full_slot address (mapping_slot key base).

(** [VecHandler] with elements of one slot. *)
Definition vec_len (address : Address) (len_slot : Slot) : M Z :=
  raw ← sload address len_slot;
  if decide (u32_max < raw) then throw under_overflow else mret raw.

Definition vec_element (address : Address) (len_slot : Slot) (index : Z) : Handle :=
  full_slot address (slot_add (calc_data_slot len_slot) index).

Definition vec_at (address : Address) (len_slot : Slot) (index : Z) : M (option Handle) :=
  len ← vec_len address len_slot;
  mret (if decide (len <= index) then None else Some (vec_element address len_slot index)).

Definition vec_push (address : Address) (len_slot : Slot) (value : Z) : M unit :=
  len ← vec_len address len_slot;
  if decide (u32_max <= len) then throw (Fatal "Vec is at max capacity")
  else
    _ ← h_write PU256 (vec_element address len_slot len) value;
    h_write PU256 (full_slot address len_slot) (len + 1).
End handles.
