(* ===== verification/TempoBytes.v ===== *)
(** * Strings in storage, address formats and virtual addresses

    precompile/storage_types.rs, [Bytes] and [String] in the layout of Solidity;
    tempo/address.rs, the formats of addresses; precompile/address_registry.rs,
    the masters of virtual addresses. *)

From stdpp Require Import prelude gmap list strings.
From S2P Require Import Prelude TempoEvm.

#[local] Open Scope Z_scope.

(** ** Strings *)

(** [word.to_be_bytes::<32>()]. *)
Definition word_bytes (w : U256) : bytes := be_bytes 32 w.

Definition is_long_string (base_value : U256) : bool := bool_decide (Z.land base_value 1 <> 0).

Definition calc_string_length (base_value : U256) (is_long : bool) : M Z :=
  if is_long then
    let len := Z.shiftr (base_value - 1) 1 in
    if decide (u32_max < len) then throw under_overflow else mret len
  else
    let len := base_value mod 256 / 2 in
    if decide (31 < len) then throw (Fatal "short bytes length exceeds maximum of 31 bytes") else mret len.

(** [len.div_ceil(32)]. *)
Definition slots_of (len : Z) : Z := (len + 31) / 32.

(** The words of a string, the last one padded with zeros. *)
Definition chunk (data : bytes) (i : Z) : U256 :=
  let part := take 32 (drop (Z.to_nat (32 * i)) data) in
  from_be (part ++ replicate (32 - length part)%nat 0).

Section strings.
Context `{TempoSpec} `{TempoAddresses}.

Fixpoint load_words (address : Address) (start : Slot) (i : Z) (n : nat) : M bytes :=
  match n with
  | O => mret []
  | S n =>
      word ← sload address (slot_add start i);
      rest ← load_words address start (i + 1) n;
      mret (word_bytes word ++ rest)
  end.

(** [Bytes::load]. *)
Definition bytes_load (address : Address) (slot : Slot) : M bytes :=
  base_value ← sload address slot;
  let is_long := is_long_string base_value in
  len ← calc_string_length base_value is_long;
  if is_long then
    data ← load_words address (calc_data_slot slot) 0 (Z.to_nat (slots_of len));
    mret (take (Z.to_nat len) data)
  else mret (take (Z.to_nat len) (word_bytes base_value)).

(** From T5 on the words that the new string does not need are cleared. *)
Definition clear_tail (address : Address) (slot : Slot) (new_slots : Z) : M unit :=
  previous ← sload address slot;
  if is_long_string previous then
    len ← calc_string_length previous true;
    iterM (fun i => sstore address (slot_add (calc_data_slot slot) i) 0) (seqZ new_slots (slots_of len - new_slots))
  else mret tt.

(** [Bytes::store]. *)
Definition bytes_store (address : Address) (slot : Slot) (data : bytes) : M unit :=
  let len := Z.of_nat (length data) in
  let is_long := bool_decide (32 <= len) in
  _ ← when is_t5 (clear_tail address slot (if is_long then slots_of len else 0));
  if is_long then
    _ ← sstore address slot (len * 2 + 1);
    iterM (fun i => sstore address (slot_add (calc_data_slot slot) i) (chunk data i)) (seqZ 0 (slots_of len))
  else sstore address slot (from_be (data ++ replicate (31 - length data)%nat 0 ++ [len * 2])).

(** [std::str::from_utf8]: the sequences of one to four bytes. *)
Definition continuation (b : Z) : bool := bool_decide (128 <= b < 192).

Fixpoint utf8_valid (bs : bytes) : bool :=
  match bs with
  | [] => true
  | a :: rest =>
      if decide (a < 128) then utf8_valid rest
      else
        match rest with
        | b :: rest2 =>
            if decide (194 <= a < 224) then continuation b && utf8_valid rest2
            else
              match rest2 with
              | c :: rest3 =>
                  if decide (224 <= a < 240) then
                    continuation b && continuation c &&
                    bool_decide ((a = 224 -> 160 <= b) /\ (a = 237 -> b < 160)) && utf8_valid rest3
                  else
                    match rest3 with
                    | d :: rest4 =>
                        bool_decide (240 <= a < 245) && continuation b && continuation c && continuation d &&
                        bool_decide ((a = 240 -> 144 <= b) /\ (a = 244 -> b < 144)) && utf8_valid rest4
                    | [] => false
                    end
              | [] => false
              end
        | [] => false
        end
  end.

(** [String::load]. *)
Definition string_load (address : Address) (slot : Slot) : M bytes :=
  data ← bytes_load address slot;
  if utf8_valid data then mret data else throw (Fatal "Invalid UTF-8 in storage string").

Definition read_bool (h : Handle) : M bool := w ← h_read PU256 h; mret (bool_decide (w <> 0)).
Definition write_bool (h : Handle) (b : bool) : M unit := h_write PU256 h (if b then 1 else 0).
End strings.

(** ** Addresses *)

(** The first twelve bytes of an address. *)
Definition prefix12 (a : Address) : Z := Z.shiftr a 64.

Definition TIP20_TOKEN_PREFIX : Z := 8384 * 2 ^ 80.
Definition ZONE_PORTAL_PREFIX : Z := 23248 * 2 ^ 80.
Definition VIRTUAL_MAGIC : Z := from_be (replicate 10 253).

Definition has_tip20_prefix (token : Address) : bool := bool_decide (prefix12 token = TIP20_TOKEN_PREFIX).
Definition is_zone_portal (a : Address) : bool := bool_decide (prefix12 a = ZONE_PORTAL_PREFIX).

(** Bytes 4 to 14. *)
Definition is_virtual (a : Address) : bool := bool_decide (Z.shiftr a 48 mod 2 ^ 80 = VIRTUAL_MAGIC).

Definition is_valid_master (a : Address) : bool := bool_decide (a <> 0) && negb (is_virtual a) && negb (has_tip20_prefix a).

(** The master id and the user tag. *)
Definition decode_virtual (a : Address) : option (Z * Z) :=
  if is_virtual a then Some (Z.shiftr a 128, a mod 2 ^ 48) else None.

Definition new_virtual (master_id user_tag : Z) : Address := master_id * 2 ^ 128 + VIRTUAL_MAGIC * 2 ^ 48 + user_tag.

(** ** The address registry *)

(** The system contracts a token deals with. *)
Class TokenAddresses `{TempoAddresses} := {
  TIP403_REGISTRY_ADDRESS : Address;
  ADDRESS_REGISTRY_ADDRESS : Address;
  RECEIVE_POLICY_GUARD_ADDRESS : Address;
  TIP20_CHANNEL_RESERVE_ADDRESS : Address;
  TIP_FEE_MANAGER_ADDRESS : Address;
  TIP20_FACTORY_ADDRESS : Address;
  ACCOUNT_KEYCHAIN_ADDRESS : Address;
}.

Definition system_addresses `{TokenAddresses} : list Address :=
  [STABLECOIN_DEX_ADDRESS; STORAGE_CREDITS_ADDRESS; TIP403_REGISTRY_ADDRESS; ADDRESS_REGISTRY_ADDRESS; RECEIVE_POLICY_GUARD_ADDRESS;
   TIP20_CHANNEL_RESERVE_ADDRESS; TIP_FEE_MANAGER_ADDRESS; TIP20_FACTORY_ADDRESS; ACCOUNT_KEYCHAIN_ADDRESS].

(** The system contracts are different accounts; none is a token, has the form of
    a virtual address or is the zero address. *)
Class TokenAddressesOk `{TokenAddresses} : Prop := {
  system_distinct : NoDup system_addresses;
  system_plain a : a ∈ system_addresses -> a <> 0 /\ has_tip20_prefix a = false /\ is_virtual a = false;
}.

Definition err_invalid_master : TempoPrecompileError := Revert "InvalidMasterAddress" [].
Definition err_pow_failed : TempoPrecompileError := Revert "ProofOfWorkFailed" [].
Definition err_master_collision (master : Address) : TempoPrecompileError := Revert "MasterIdCollision" [master].
Definition err_virtual_unregistered : TempoPrecompileError := Revert "VirtualAddressUnregistered" [].

Section address_registry.
Context `{TempoSpec} `{TempoAddresses} `{!TokenAddresses} `{Keccak}.

(** [RegistryData] at the key of a master id; its reserved bytes and its type are
    zero. *)
Definition master_slot (master_id : Z) : Slot := mapping_slot master_id (At 0).

Definition get_master (master_id : Z) : M (option Address) :=
  word ← sload ADDRESS_REGISTRY_ADDRESS (master_slot master_id);
  let master := be_slice word 12 32 in
  mret (if decide (master = 0) then None else Some master).

Definition write_master (master_id : Z) (master : Address) : M unit :=
  word ← (if is_t4 then mret 0 else sload ADDRESS_REGISTRY_ADDRESS (master_slot master_id));
  sstore ADDRESS_REGISTRY_ADDRESS (master_slot master_id) (copy_be (copy_be (copy_be word 0 1 0) 1 12 0) 12 32 master).

Definition register_virtual_master (msg_sender : Address) (salt : B256) : M Z :=
  if negb (is_valid_master msg_sender) then throw err_invalid_master
  else
    let registration_hash := keccak256 (be_bytes 20 msg_sender ++ be_bytes 32 salt) in
    if decide (be_slice registration_hash 0 4 <> 0) then throw err_pow_failed
    else
      let master_id := be_slice registration_hash 4 8 in
      existing ← get_master master_id;
      match existing with
      | Some existing => throw (err_master_collision existing)
      | None =>
          _ ← write_master master_id msg_sender;
          _ ← emit_event ADDRESS_REGISTRY_ADDRESS (mkLog "MasterRegistered" [Word master_id; Word msg_sender]);
          mret master_id
      end.

Definition resolve_recipient (to : Address) : M Address :=
  if negb is_t3 then mret to
  else
    match decode_virtual to with
    | None => mret to
    | Some (master_id, _) => master ← get_master master_id; ok_or err_virtual_unregistered master
    end.

Definition resolve_virtual_address (addr : Address) : M Address :=
  match decode_virtual addr with
  | None => mret 0
  | Some (master_id, _) => master ← get_master master_id; mret (default 0 master)
  end.

(** [IMPLICIT_APPROVAL_LIST]. *)
Definition is_implicitly_approved (address : Address) : bool :=
  is_t5 && bool_decide (address = TIP_FEE_MANAGER_ADDRESS \/ address = STABLECOIN_DEX_ADDRESS \/ address = TIP20_CHANNEL_RESERVE_ADDRESS).
End address_registry.
