(* ===== verification/Tip403.v ===== *)
(** * The registry of transfer policies

    precompile/tip403_registry.rs, [TIP403Registry]: whitelists, blacklists and
    compound policies, which policy a token has, and the policies of accounts on
    what they receive. *)

From stdpp Require Import prelude gmap list strings.
From S2P Require Import Prelude TempoEvm TempoBytes.

#[local] Open Scope Z_scope.

Definition REJECT_ALL_POLICY_ID : Z := 0.
Definition ALLOW_ALL_POLICY_ID : Z := 1.

Definition err_policy_unauthorized : TempoPrecompileError := Revert "Unauthorized" [].
Definition err_policy_not_found : TempoPrecompileError := Revert "PolicyNotFound" [].
Definition err_policy_not_simple : TempoPrecompileError := Revert "PolicyNotSimple" [].
Definition err_invalid_policy_type : TempoPrecompileError := Revert "InvalidPolicyType" [].
Definition err_incompatible_policy_type : TempoPrecompileError := Revert "IncompatiblePolicyType" [].
Definition err_virtual_address_not_allowed : TempoPrecompileError := Revert "VirtualAddressNotAllowed" [].
Definition err_invalid_receive_policy_type : TempoPrecompileError := Revert "InvalidReceivePolicyType" [].
Definition err_invalid_recovery_authority : TempoPrecompileError := Revert "InvalidRecoveryAuthority" [].

(** [ITIP403Registry::PolicyType], with its discriminants. *)
Inductive PolicyType := WHITELIST | BLACKLIST | COMPOUND | InvalidType.

#[export] Instance PolicyType_eq_dec : EqDecision PolicyType.
Proof. solve_decision. Defined.

Definition u8_of_policy_type (t : PolicyType) : Z := match t with WHITELIST => 0 | BLACKLIST => 1 | COMPOUND => 2 | InvalidType => 255 end.
Definition policy_type_of_u8 (n : Z) : option PolicyType :=
  if decide (n = 0) then Some WHITELIST else if decide (n = 1) then Some BLACKLIST else if decide (n = 2) then Some COMPOUND else None.

Inductive AuthRole := Transfer | Sender | Recipient | MintRecipient.

Record PolicyData := mkPolicy {
  pd_type : Z;
  pd_admin : Address;
}.

Record CompoundPolicyData := mkCompound {
  cp_sender : u64;
  cp_recipient : u64;
  cp_mint_recipient : u64;
}.

Inductive RecoveryMode := Originator | Receiver | ThirdParty.

Definition recovery_encode (authority account : Address) : RecoveryMode * Address :=
  if decide (authority = 0) then (Originator, 0)
  else if decide (authority = account) then (Receiver, 0)
  else (ThirdParty, authority).

Definition u8_of_recovery (m : RecoveryMode) : Z := match m with Originator => 0 | Receiver => 1 | ThirdParty => 2 end.
Definition recovery_decode (value : Z) : M RecoveryMode :=
  if decide (value = 0) then mret Originator
  else if decide (value = 1) then mret Receiver
  else if decide (value = 2) then mret ThirdParty
  else throw err_invalid_receive_policy_type.

Record ReceivePolicy := mkReceive {
  rp_has : bool;
  rp_sender_policy_id : u64;
  rp_sender_policy_type : Z;
  rp_token_filter_id : u64;
  rp_token_filter_type : Z;
  rp_recovery_mode : RecoveryMode;
  rp_recovery_address : Address;
}.

Inductive BlockedReason := TOKEN_FILTER | RECEIVE_POLICY.
Definition u8_of_reason (r : BlockedReason) : Z := match r with TOKEN_FILTER => 1 | RECEIVE_POLICY => 2 end.

(** [SYSTEM_PRECOMPILES]: the system contracts of a fork. *)
Class SystemPrecompiles := is_system_precompile : TempoHardfork -> Address -> bool.

(** [is_precompile]. *)
Definition is_precompile `{SystemPrecompiles} (spec : TempoHardfork) (a : Address) : bool := has_tip20_prefix a || is_system_precompile spec a.

Section registry.
Context `{TempoSpec} `{TempoAddresses} `{!TokenAddresses} `{SystemPrecompiles}.

Definition transfer_or (t2_variant : AuthRole) : AuthRole := if is_t2 then t2_variant else Transfer.
Definition role_sender : AuthRole := transfer_or Sender.
Definition role_recipient : AuthRole := transfer_or Recipient.
Definition role_mint_recipient : AuthRole := transfer_or MintRecipient.

Definition POLICY_ID_COUNTER : Handle := full_slot TIP403_REGISTRY_ADDRESS (At 0).
Definition policy_record (policy_id : u64) : Slot := mapping_slot policy_id (At 1).
Definition policy_set (policy_id : u64) (account : Address) : Handle := mapping_at TIP403_REGISTRY_ADDRESS (mapping_slot policy_id (At 2)) account.
Definition receive_slot (account : Address) : Slot := mapping_slot account (At 3).
Definition token_policy_slot (token : Address) : Slot := mapping_slot token (At 4).

Definition tip403_emit (event : string) (args : list LogArg) : M unit := emit_event TIP403_REGISTRY_ADDRESS (mkLog event args).

Definition registry_load (slot : Slot) : M U256 := sload TIP403_REGISTRY_ADDRESS slot.
Definition registry_store (slot : Slot) (value : U256) : M unit := sstore TIP403_REGISTRY_ADDRESS slot value.

(** ** Layouts *)

Definition policy_load (slot : Slot) : M PolicyData := word ← registry_load slot; mret (mkPolicy (be_slice word 31 32) (be_slice word 11 31)).

Definition policy_store (slot : Slot) (d : PolicyData) : M unit :=
  word ← (if is_t4 then mret 0 else registry_load slot);
  registry_store slot (copy_be (copy_be word 31 32 (pd_type d)) 11 31 (pd_admin d)).

Definition compound_load (slot : Slot) : M CompoundPolicyData :=
  word ← registry_load slot; mret (mkCompound (be_slice word 24 32) (be_slice word 16 24) (be_slice word 8 16)).

Definition compound_store (slot : Slot) (c : CompoundPolicyData) : M unit :=
  word ← (if is_t4 then mret 0 else registry_load slot);
  registry_store slot (copy_be (copy_be (copy_be word 24 32 (cp_sender c)) 16 24 (cp_recipient c)) 8 16 (cp_mint_recipient c)).

(** [ReceivePolicy::load_config]. *)
Definition receive_load_config (slot : Slot) : M ReceivePolicy :=
  word ← registry_load slot;
  mode ← recovery_decode (be_slice word 12 13);
  mret (mkReceive (bool_decide (be_slice word 31 32 <> 0)) (be_slice word 23 31) (be_slice word 22 23) (be_slice word 14 22) (be_slice word 13 14) mode 0).

Definition receive_store (slot : Slot) (p : ReceivePolicy) : M unit :=
  let word := copy_be 0 31 32 (if rp_has p then 1 else 0) in
  let word := copy_be word 23 31 (rp_sender_policy_id p) in
  let word := copy_be word 22 23 (rp_sender_policy_type p) in
  let word := copy_be word 14 22 (rp_token_filter_id p) in
  let word := copy_be word 13 14 (rp_token_filter_type p) in
  let word := copy_be word 12 13 (u8_of_recovery (rp_recovery_mode p)) in
  _ ← registry_store slot word;
  registry_store (slot_add slot 1) (copy_be 0 12 32 (rp_recovery_address p)).

(** [PolicyData::policy_type]. *)
Definition policy_type (d : PolicyData) : M PolicyType :=
  match policy_type_of_u8 (pd_type d) with
  | Some t => if is_t2 || bool_decide (t <> COMPOUND) then mret t else throw under_overflow
  | None => throw (if is_t2 then err_invalid_policy_type else under_overflow)
  end.

Definition is_simple_type (d : PolicyData) : bool := bool_decide (pd_type d = u8_of_policy_type WHITELIST \/ pd_type d = u8_of_policy_type BLACKLIST).
Definition is_compound (d : PolicyData) : bool := bool_decide (pd_type d = u8_of_policy_type COMPOUND).
Definition is_default_policy (d : PolicyData) : bool := bool_decide (pd_type d = 0 /\ pd_admin d = 0).

(** ** Lookups *)

Definition policy_id_counter : M u64 := counter ← h_read PU64 POLICY_ID_COUNTER; mret (Z.max counter 2).

Definition builtin_authorization (policy_id : u64) : option bool :=
  if decide (policy_id = ALLOW_ALL_POLICY_ID) then Some true
  else if decide (policy_id = REJECT_ALL_POLICY_ID) then Some false
  else None.

Definition policy_exists (policy_id : u64) : M bool :=
  match builtin_authorization policy_id with
  | Some _ => mret true
  | None => counter ← policy_id_counter; mret (bool_decide (policy_id < counter))
  end.

Definition get_policy_data (policy_id : u64) : M PolicyData :=
  data ← policy_load (policy_record policy_id);
  if is_t2 && is_default_policy data then
    counter ← policy_id_counter;
    if decide (counter <= policy_id) then throw err_policy_not_found else mret data
  else mret data.

Definition set_policy_data (policy_id : u64) (data : PolicyData) : M unit := policy_store (policy_record policy_id) data.

Definition get_compound_policy_data (policy_id : u64) : M CompoundPolicyData := compound_load (slot_add (policy_record policy_id) 1).

Definition set_policy_set (policy_id : u64) (account : Address) (value : bool) : M unit := write_bool (policy_set policy_id account) value.

(** ** Authorization *)

(** [is_simple]: the set is read before the type is looked at. *)
Definition is_simple (policy_id : u64) (user : Address) (data : PolicyData) : M bool :=
  is_in_set ← read_bool (policy_set policy_id user);
  t ← policy_type data;
  match t with
  | WHITELIST => mret is_in_set
  | BLACKLIST => mret (negb is_in_set)
  | COMPOUND => throw err_incompatible_policy_type
  | InvalidType => fun s => (Panic, s)
  end.

Definition is_authorized_simple_cached (policy_id : u64) (user : Address) (cached : option PolicyData) : M bool :=
  match builtin_authorization policy_id with
  | Some auth => mret auth
  | None =>
      data ← match cached with Some data => mret data | None => get_policy_data policy_id end;
      is_simple policy_id user data
  end.

Definition is_authorized_simple (policy_id : u64) (user : Address) : M bool := is_authorized_simple_cached policy_id user None.

Definition is_authorized_as (policy_id : u64) (user : Address) (role : AuthRole) : M bool :=
  if is_t6 && bool_decide (user = RECEIVE_POLICY_GUARD_ADDRESS) then mret true
  else
    match builtin_authorization policy_id with
    | Some auth => mret auth
    | None =>
        data ← get_policy_data policy_id;
        if is_compound data then
          compound ← get_compound_policy_data policy_id;
          match role with
          | Sender => is_authorized_simple (cp_sender compound) user
          | Recipient => is_authorized_simple (cp_recipient compound) user
          | MintRecipient => is_authorized_simple (cp_mint_recipient compound) user
          | Transfer =>
              sender_auth ← is_authorized_simple (cp_sender compound) user;
              if is_t2 && negb sender_auth then mret false
              else
                recipient_auth ← is_authorized_simple (cp_recipient compound) user;
                mret (sender_auth && recipient_auth)
          end
        else is_simple policy_id user data
    end.

Definition is_policy_lookup_error (e : TempoPrecompileError) : bool :=
  if is_t2 then bool_decide (e = err_invalid_policy_type \/ e = err_policy_not_found) else bool_decide (e = under_overflow).

(** The type and admin of a policy; the built-in ones are not stored. *)
Definition policy_data (policy_id : u64) : M (PolicyType * Address) :=
  let stored := data ← get_policy_data policy_id; t ← policy_type data; mret (t, pd_admin data) in
  if is_t2 then
    match builtin_authorization policy_id with
    | Some _ => t ← ok_or err_invalid_policy_type (policy_type_of_u8 (policy_id mod 256)); mret (t, 0)
    | None => stored
    end
  else
    exists_ ← policy_exists policy_id;
    if negb exists_ then throw err_policy_not_found else stored.

Definition compound_policy_data (policy_id : u64) : M CompoundPolicyData :=
  data ← get_policy_data policy_id;
  if is_compound data then get_compound_policy_data policy_id
  else
    exists_ ← policy_exists policy_id;
    throw (if exists_ : bool then err_incompatible_policy_type else err_policy_not_found).

(** ** Policies of tokens *)

Definition registered_token_transfer_policy_id (token : Address) : M (option u64) :=
  word ← registry_load (token_policy_slot token);
  mret (if decide (be_slice word 23 24 <> 0) then Some (be_slice word 24 32) else None).

Definition set_token_transfer_policy (token : Address) (policy_id : u64) : M unit :=
  registry_store (token_policy_slot token) (copy_be (copy_be 0 24 32 policy_id) 23 24 1).

(** ** Creating and changing policies *)

(** [ensure_is_simple]: before T2 other types are stored as 255. *)
Definition ensure_is_simple (t : PolicyType) : M Z :=
  match t with
  | WHITELIST | BLACKLIST => mret (u8_of_policy_type t)
  | _ => if is_t2 then throw err_incompatible_policy_type else mret 255
  end.

Definition new_policy_id : M u64 :=
  id ← policy_id_counter;
  next ← ok_or under_overflow (if decide (id + 1 <= u64_max) then Some (id + 1) else None);
  _ ← h_write PU64 POLICY_ID_COUNTER next;
  mret id.

Definition create_policy (msg_sender admin : Address) (t : PolicyType) : M u64 :=
  type ← ensure_is_simple t;
  id ← new_policy_id;
  _ ← set_policy_data id (mkPolicy type admin);
  _ ← tip403_emit "PolicyCreated" [Word id; Word msg_sender; Word type];
  _ ← tip403_emit "PolicyAdminUpdated" [Word id; Word msg_sender; Word admin];
  mret id.

Definition create_policy_with_accounts (msg_sender admin : Address) (t : PolicyType) (accounts : list Address) : M u64 :=
  type ← ensure_is_simple t;
  if is_t3 && existsb is_virtual accounts then throw err_virtual_address_not_allowed
  else
    id ← new_policy_id;
    _ ← set_policy_data id (mkPolicy type admin);
    _ ← iterM (fun account =>
          _ ← set_policy_set id account true;
          match t with
          | WHITELIST => tip403_emit "WhitelistUpdated" [Word id; Word msg_sender; Word account; Word 1]
          | BLACKLIST => tip403_emit "BlacklistUpdated" [Word id; Word msg_sender; Word account; Word 1]
          | _ => throw err_incompatible_policy_type
          end) accounts;
    _ ← tip403_emit "PolicyCreated" [Word id; Word msg_sender; Word type];
    _ ← tip403_emit "PolicyAdminUpdated" [Word id; Word msg_sender; Word admin];
    mret id.

Definition set_policy_admin (msg_sender : Address) (policy_id : u64) (admin : Address) : M unit :=
  data ← get_policy_data policy_id;
  if decide (pd_admin data <> msg_sender) then throw err_policy_unauthorized
  else
    _ ← set_policy_data policy_id (mkPolicy (pd_type data) admin);
    tip403_emit "PolicyAdminUpdated" [Word policy_id; Word msg_sender; Word admin].

(** [modify_policy_whitelist] and [modify_policy_blacklist]. *)
Definition modify_policy (list_type : PolicyType) (event : string) (msg_sender : Address) (policy_id : u64) (account : Address) (value : bool) : M unit :=
  if is_t3 && is_virtual account then throw err_virtual_address_not_allowed
  else
    data ← get_policy_data policy_id;
    if decide (pd_admin data <> msg_sender) then throw err_policy_unauthorized
    else
      t ← policy_type data;
      if decide (t <> list_type) then throw err_incompatible_policy_type
      else
        _ ← set_policy_set policy_id account value;
        tip403_emit event [Word policy_id; Word msg_sender; Word account; Word (if value then 1 else 0)].

Definition modify_policy_whitelist := modify_policy WHITELIST "WhitelistUpdated".
Definition modify_policy_blacklist := modify_policy BLACKLIST "BlacklistUpdated".

Definition validate_simple_policy (policy_id : u64) : M unit :=
  match builtin_authorization policy_id with
  | Some _ => mret tt
  | None =>
      counter ← policy_id_counter;
      if decide (counter <= policy_id) then throw err_policy_not_found
      else
        data ← get_policy_data policy_id;
        if is_simple_type data then mret tt else throw err_policy_not_simple
  end.

Definition create_compound_policy (msg_sender : Address) (c : CompoundPolicyData) : M u64 :=
  _ ← validate_simple_policy (cp_sender c);
  _ ← validate_simple_policy (cp_recipient c);
  _ ← validate_simple_policy (cp_mint_recipient c);
  id ← new_policy_id;
  _ ← policy_store (policy_record id) (mkPolicy (u8_of_policy_type COMPOUND) 0);
  _ ← compound_store (slot_add (policy_record id) 1) c;
  _ ← tip403_emit "CompoundPolicyCreated" [Word id; Word msg_sender; Word (cp_sender c); Word (cp_recipient c); Word (cp_mint_recipient c)];
  mret id.

(** ** Policies of receivers *)

Definition receive_policy_config (account : Address) : M ReceivePolicy := receive_load_config (receive_slot account).

Definition receive_policy_recovery (account : Address) (mode : RecoveryMode) : M Address :=
  match mode with
  | Originator => mret 0
  | Receiver => mret account
  | ThirdParty => word ← registry_load (slot_add (receive_slot account) 1); mret (be_slice word 12 32)
  end.

Definition check_receive_policy (token sender receiver : Address) : M (option (BlockedReason * Address)) :=
  policy ← receive_policy_config receiver;
  if negb (rp_has policy) then mret None
  else
    token_ok ← is_authorized_simple_cached (rp_token_filter_id policy) token (Some (mkPolicy (rp_token_filter_type policy) 0));
    if negb token_ok then
      authority ← receive_policy_recovery receiver (rp_recovery_mode policy);
      mret (Some (TOKEN_FILTER, authority))
    else
      sender_ok ← is_authorized_simple_cached (rp_sender_policy_id policy) sender (Some (mkPolicy (rp_sender_policy_type policy) 0));
      if negb sender_ok then
        authority ← receive_policy_recovery receiver (rp_recovery_mode policy);
        mret (Some (RECEIVE_POLICY, authority))
      else mret None.

Definition validate_receive_policy (token sender receiver : Address) : M (option BlockedReason) :=
  r ← check_receive_policy token sender receiver; mret (fst <$> r).

Definition validate_receive_policy_id (policy_id : u64) : M Z :=
  match builtin_authorization policy_id with
  | Some _ => mret policy_id
  | None =>
      counter ← policy_id_counter;
      if decide (counter <= policy_id) then throw err_policy_not_found
      else
        data ← get_policy_data policy_id;
        if is_simple_type data then mret (pd_type data) else throw err_invalid_receive_policy_type
  end.

Definition set_receive_policy (msg_sender : Address) (sender_policy_id token_filter_id : u64) (recovery_authority : Address) : M unit :=
  if is_virtual msg_sender then throw err_virtual_address_not_allowed
  else if is_precompile spec recovery_authority || is_virtual recovery_authority then throw err_invalid_recovery_authority
  else
    sender_policy_type ← validate_receive_policy_id sender_policy_id;
    token_filter_type ← validate_receive_policy_id token_filter_id;
    let '(mode, recovery_address) := recovery_encode recovery_authority msg_sender in
    _ ← receive_store (receive_slot msg_sender)
          (mkReceive true sender_policy_id sender_policy_type token_filter_id token_filter_type mode recovery_address);
    tip403_emit "ReceivePolicyUpdated" [Word msg_sender; Word sender_policy_id; Word token_filter_id; Word recovery_authority].
End registry.
