(* ===== verification/Keychain.v ===== *)
(** * Access keys and their spending limits

    precompile/account_keychain.rs, [AccountKeychain]: the keys an account has
    authorized, what each of them may still spend of a token, and the checks that
    transfers and approvals run. The call scopes of a key are not modelled. *)

From stdpp Require Import prelude gmap list strings.
From S2P Require Import Prelude TempoEvm TempoBytes.

#[local] Open Scope Z_scope.

(** The block, and the recovery of signers. *)
Class BlockEnv := {
  timestamp : U256;
  chain_id : Z;
  recover_signer (digest : B256) (v : Z) (r s : B256) : option Address;
}.

Record AuthorizedKey := mkKey {
  k_signature_type : Z;
  k_expiry : u64;
  k_enforce_limits : bool;
  k_is_revoked : bool;
  k_is_admin : bool;
}.

Record SpendingLimitState := mkLimit {
  sl_remaining : U256;
  sl_max : u128;
  sl_period : u64;
  sl_period_end : u64;
}.

(** [saturating_add] and [saturating_mul] of [u64]. *)
Definition u64_add (a b : u64) : u64 := Z.min u64_max (a + b).
Definition u64_mul (a b : u64) : u64 := Z.min u64_max (a * b).

(** The end of the window that a time is in, past the end of the last one. *)
Definition next_period_end (period period_end current_timestamp : u64) : u64 :=
  let elapsed := saturating_sub current_timestamp period_end in
  let periods_elapsed := u64_add (elapsed / period) 1 in
  u64_add period_end (u64_mul period periods_elapsed).

Definition compute_next_period_end (state : SpendingLimitState) (current_timestamp : u64) : u64 :=
  next_period_end (sl_period state) (sl_period_end state) current_timestamp.

Definition ZERO_PERIODIC_REMAINING_SENTINEL : U256 := u256_max.

Definition err_unauthorized_caller : TempoPrecompileError := Revert "UnauthorizedCaller" [].
Definition err_key_already_exists : TempoPrecompileError := Revert "KeyAlreadyExists" [].
Definition err_key_not_found : TempoPrecompileError := Revert "KeyNotFound" [].
Definition err_key_expired : TempoPrecompileError := Revert "KeyExpired" [].
Definition err_spending_limit_exceeded : TempoPrecompileError := Revert "SpendingLimitExceeded" [].
Definition err_invalid_signature_type : TempoPrecompileError := Revert "InvalidSignatureType" [].
Definition err_zero_public_key : TempoPrecompileError := Revert "ZeroPublicKey" [].
Definition err_expiry_in_past : TempoPrecompileError := Revert "ExpiryInPast" [].
Definition err_key_already_revoked : TempoPrecompileError := Revert "KeyAlreadyRevoked" [].
Definition err_signature_type_mismatch (expected actual : Z) : TempoPrecompileError := Revert "SignatureTypeMismatch" [expected; actual].
Definition err_invalid_spending_limit : TempoPrecompileError := Revert "InvalidSpendingLimit" [].
Definition err_witness_already_burned : TempoPrecompileError := Revert "KeyAuthorizationWitnessAlreadyBurned" [].
Definition err_invalid_key_id : TempoPrecompileError := Revert "InvalidKeyId" [].
Definition err_legacy_selector (selector : Z) : TempoPrecompileError := Revert "LegacyAuthorizeKeySelectorChanged" [selector].

Section keychain.
Context `{TempoSpec} `{TempoAddresses} `{!TokenAddresses} `{Keccak} `{BlockEnv}.

Definition flag (b : bool) : Z := if b then 1 else 0.

(** ** Layouts *)

Definition key_slot (account key_id : Address) : Slot := mapping_slot key_id (mapping_slot account (At 0)).

(** [AuthorizedKey::load]. *)
Definition key_load (account key_id : Address) : M AuthorizedKey :=
  word ← sload ACCOUNT_KEYCHAIN_ADDRESS (key_slot account key_id);
  mret (mkKey (be_slice word 31 32) (be_slice word 23 31) (bool_decide (be_slice word 22 23 <> 0))
    (bool_decide (be_slice word 21 22 <> 0)) (bool_decide (be_slice word 20 21 <> 0))).

Definition key_store (account key_id : Address) (key : AuthorizedKey) : M unit :=
  word ← (if is_t4 then mret 0 else sload ACCOUNT_KEYCHAIN_ADDRESS (key_slot account key_id));
  let word := copy_be word 31 32 (k_signature_type key) in
  let word := copy_be word 23 31 (k_expiry key) in
  let word := copy_be word 22 23 (flag (k_enforce_limits key)) in
  let word := copy_be word 21 22 (flag (k_is_revoked key)) in
  let word := copy_be word 20 21 (flag (k_is_admin key)) in
  sstore ACCOUNT_KEYCHAIN_ADDRESS (key_slot account key_id) word.

Definition spending_limit_key (account key_id : Address) : B256 := keccak256 (be_bytes 20 account ++ be_bytes 20 key_id).

Definition limit_slot (limit_key : B256) (token : Address) : Slot := mapping_slot token (mapping_slot limit_key (At 1)).

(** The fields of [SpendingLimitStateHandler]. *)
Definition limit_remaining (limit_key : B256) (token : Address) : Handle := full_slot ACCOUNT_KEYCHAIN_ADDRESS (limit_slot limit_key token).
Definition limit_field (limit_key : B256) (token : Address) (offset : Z) : Handle :=
  mkHandle ACCOUNT_KEYCHAIN_ADDRESS (slot_add (limit_slot limit_key token) 1) (Some offset).
Definition limit_max (limit_key : B256) (token : Address) : Handle := limit_field limit_key token 0.
Definition limit_period (limit_key : B256) (token : Address) : Handle := limit_field limit_key token 16.
Definition limit_period_end (limit_key : B256) (token : Address) : Handle := limit_field limit_key token 24.

Definition limit_read (limit_key : B256) (token : Address) : M SpendingLimitState :=
  remaining ← sload ACCOUNT_KEYCHAIN_ADDRESS (limit_slot limit_key token);
  packed ← sload ACCOUNT_KEYCHAIN_ADDRESS (slot_add (limit_slot limit_key token) 1);
  max ← extract_from_word PU128 packed 0;
  period ← extract_from_word PU64 packed 16;
  period_end ← extract_from_word PU64 packed 24;
  mret (mkLimit remaining max period period_end).

Definition limit_write (limit_key : B256) (token : Address) (value : SpendingLimitState) : M unit :=
  _ ← h_write PU256 (limit_remaining limit_key token) (sl_remaining value);
  packed ← (if is_t4 then mret 0 else sload ACCOUNT_KEYCHAIN_ADDRESS (slot_add (limit_slot limit_key token) 1));
  packed ← insert_into_word PU128 packed (sl_max value) 0;
  packed ← insert_into_word PU64 packed (sl_period value) 16;
  packed ← insert_into_word PU64 packed (sl_period_end value) 24;
  sstore ACCOUNT_KEYCHAIN_ADDRESS (slot_add (limit_slot limit_key token) 1) packed.

Definition transient_slots : Z * Z := if is_t5 then (4, 5) else if is_t3 then (3, 4) else (2, 3).

Definition t_read_address (slot : Z) : M Address := w ← tload ACCOUNT_KEYCHAIN_ADDRESS (At slot); from_word PAddress w.

Definition transaction_key : M Address := t_read_address transient_slots.1.
Definition tx_origin : M Address := t_read_address transient_slots.2.
Definition set_transaction_key (key_id : Address) : M unit := tstore ACCOUNT_KEYCHAIN_ADDRESS (At transient_slots.1) key_id.
Definition set_tx_origin (origin : Address) : M unit := tstore ACCOUNT_KEYCHAIN_ADDRESS (At transient_slots.2) origin.

Definition keychain_emit (event : string) (args : list LogArg) : M unit := emit_event ACCOUNT_KEYCHAIN_ADDRESS (mkLog event args).

(** [timestamp().saturating_to::<u64>()]. *)
Definition now : u64 := Z.min u64_max timestamp.

(** ** Keys *)

Definition load_active_key (account key_id : Address) (current_timestamp : u64) : M AuthorizedKey :=
  key ← key_load account key_id;
  if k_is_revoked key then throw err_key_already_revoked
  else if decide (k_expiry key = 0) then throw err_key_not_found
  else if decide (k_expiry key <= current_timestamp) then throw err_key_expired
  else mret key.

(** An error that is the system's stays one; any other gives a default. *)
Definition unless_system {A} (m : M A) (default : A) : M A :=
  r ← try m;
  match r with
  | inl a => mret a
  | inr e => if is_system_error e then throw e else mret default
  end.

Definition validate_keychain_authorization (account key_id : Address) (current_timestamp : u64) (expected_sig_type : option Z) : M AuthorizedKey :=
  key ← load_active_key account key_id current_timestamp;
  match expected_sig_type with
  | Some sig_type => if decide (k_signature_type key <> sig_type) then throw (err_signature_type_mismatch (k_signature_type key) sig_type) else mret key
  | None => mret key
  end.

Definition is_active_key (account key_id : Address) : M bool :=
  unless_system (_ ← validate_keychain_authorization account key_id now None; mret true) false.

Definition is_admin_key (account key_id : Address) : M bool :=
  if decide (key_id = account) then mret true
  else unless_system (key ← load_active_key account key_id now; mret (k_is_admin key)) false.

Definition ensure_admin_caller (msg_sender : Address) : M unit :=
  key ← transaction_key;
  refused ←
    (if decide (key = 0) then mret false
     else if negb is_t6 then mret true
     else admin ← is_admin_key msg_sender key; mret (negb admin));
  if refused : bool then throw err_unauthorized_caller
  else if is_t2 then
    origin ← tx_origin;
    if decide (origin = 0 \/ origin <> msg_sender) then throw err_unauthorized_caller else mret tt
  else mret tt.

Definition revoke_key (msg_sender key_id : Address) : M unit :=
  _ ← ensure_admin_caller msg_sender;
  key ← key_load msg_sender key_id;
  if decide (k_expiry key = 0) then throw err_key_not_found
  else
    _ ← key_store msg_sender key_id (mkKey 0 0 false true false);
    keychain_emit "KeyRevoked" [Word msg_sender; Word key_id].

Definition witness_handle (account : Address) (witness : B256) : Handle := mapping_at ACCOUNT_KEYCHAIN_ADDRESS (mapping_slot account (At 3)) witness.

Definition is_key_authorization_witness_burned (account : Address) (witness : B256) : M bool := read_bool (witness_handle account witness).

Definition ensure_key_authorization_witness_not_burned (account : Address) (witness : B256) : M unit :=
  burned ← is_key_authorization_witness_burned account witness;
  if burned : bool then throw err_witness_already_burned else mret tt.

Definition burn_key_authorization_witness (msg_sender : Address) (witness : B256) : M unit :=
  _ ← ensure_admin_caller msg_sender;
  _ ← ensure_key_authorization_witness_not_burned msg_sender witness;
  _ ← write_bool (witness_handle msg_sender witness) true;
  keychain_emit "KeyAuthorizationWitnessBurned" [Word msg_sender; Word witness].

(** ** Limits *)

Definition t3_spending_limit_cap (limit : U256) : M u128 :=
  if decide (u128_max < limit) then throw err_invalid_spending_limit else mret limit.

Definition enable_limits (key : AuthorizedKey) : AuthorizedKey :=
  mkKey (k_signature_type key) (k_expiry key) true (k_is_revoked key) (k_is_admin key).

Definition update_spending_limit (msg_sender key_id token : Address) (new_limit : U256) : M unit :=
  _ ← ensure_admin_caller msg_sender;
  key ← load_active_key msg_sender key_id now;
  if k_is_admin key then throw err_invalid_key_id
  else
    _ ← when (negb (k_enforce_limits key)) (key_store msg_sender key_id (enable_limits key));
    let limit_key := spending_limit_key msg_sender key_id in
    _ ← (if is_t3 then
           max ← t3_spending_limit_cap new_limit;
           state ← limit_read limit_key token;
           limit_write limit_key token (mkLimit new_limit max (sl_period state) (sl_period_end state))
         else h_write PU256 (limit_remaining limit_key token) new_limit);
    keychain_emit "SpendingLimitUpdated" [Word msg_sender; Word key_id; Word token; Word new_limit].

(** The stored remainder of a window, as a number. *)
Definition decode_remaining (remaining : U256) : U256 :=
  if is_t7 && bool_decide (remaining = ZERO_PERIODIC_REMAINING_SENTINEL) then 0 else remaining.

Definition effective_limit_state (account key_id token : Address) : M (U256 * u64) :=
  if bool_decide (key_id = 0) && is_t3 then mret (0, 0)
  else
    key ← key_load account key_id;
    if decide (k_expiry key = 0 \/ k_is_revoked key = true) then mret (0, 0)
    else if is_t3 && bool_decide (k_expiry key <= now) then mret (0, 0)
    else
      let limit_key := spending_limit_key account key_id in
      remaining ← h_read PU256 (limit_remaining limit_key token);
      if negb is_t3 then mret (remaining, 0)
      else
        period ← h_read PU64 (limit_period limit_key token);
        if decide (period = 0) then mret (remaining, 0)
        else
          let remaining := decode_remaining remaining in
          period_end ← h_read PU64 (limit_period_end limit_key token);
          if decide (now < period_end) then mret (remaining, period_end)
          else
            max ← h_read PU128 (limit_max limit_key token);
            mret (max, next_period_end period period_end now).

Definition get_remaining_limit (account key_id token : Address) : M U256 :=
  if negb is_t2 then h_read PU256 (limit_remaining (spending_limit_key account key_id) token)
  else r ← effective_limit_state account key_id token; mret r.1.

Definition verify_and_update_spending (account key_id token : Address) (amount : U256) : M unit :=
  if decide (key_id = 0) then mret tt
  else
    key ← load_active_key account key_id now;
    if negb (k_enforce_limits key) then mret tt
    else
      let limit_key := spending_limit_key account key_id in
      if negb is_t3 then
        remaining ← h_read PU256 (limit_remaining limit_key token);
        if decide (remaining < amount) then throw err_spending_limit_exceeded
        else h_write PU256 (limit_remaining limit_key token) (remaining - amount)
      else
        state ← limit_read limit_key token;
        let is_periodic := bool_decide (sl_period state <> 0) in
        let rolled := is_periodic && bool_decide (sl_period_end state <= now) in
        let period_end := if rolled then compute_next_period_end state now else sl_period_end state in
        let remaining := if rolled then sl_max state else if is_periodic then decode_remaining (sl_remaining state) else sl_remaining state in
        if decide (remaining < amount) then throw err_spending_limit_exceeded
        else
          let new_remaining := remaining - amount in
          _ ← (if is_periodic then
                 let stored := if is_t7 && bool_decide (new_remaining = 0) then ZERO_PERIODIC_REMAINING_SENTINEL else new_remaining in
                 limit_write limit_key token (mkLimit stored (sl_max state) (sl_period state) period_end)
               else h_write PU256 (limit_remaining limit_key token) new_remaining);
          keychain_emit "AccessKeySpend" [Word account; Word key_id; Word token; Word amount; Word new_remaining].

Definition saturating_add_u256 (a b : U256) : U256 := Z.min u256_max (a + b).

Definition refund_state (state : SpendingLimitState) (amount : U256) : SpendingLimitState :=
  let refunded :=
    if is_t7 && bool_decide (sl_period state <> 0) && bool_decide (sl_remaining state = ZERO_PERIODIC_REMAINING_SENTINEL) then amount
    else saturating_add_u256 (sl_remaining state) amount in
  mkLimit (if decide (sl_max state = 0) then refunded else Z.min refunded (sl_max state)) (sl_max state) (sl_period state) (sl_period_end state).

(** Whether the transaction is the account's, and by which key. *)
Definition spending_key (account : Address) : M (option Address) :=
  key ← transaction_key;
  if decide (key = 0) then mret None
  else
    origin ← tx_origin;
    mret (if decide (account <> origin) then None else Some key).

Definition refund_spending_limit (account token : Address) (amount : U256) : M unit :=
  key_id ← spending_key account;
  match key_id with
  | None => mret tt
  | Some key_id =>
      key ← unless_system (key ← load_active_key account key_id now; mret (Some key)) None;
      match key with
      | None => mret tt
      | Some key =>
          if negb (k_enforce_limits key) then mret tt
          else
            let limit_key := spending_limit_key account key_id in
            if is_t3 then state ← limit_read limit_key token; limit_write limit_key token (refund_state state amount)
            else
              remaining ← h_read PU256 (limit_remaining limit_key token);
              h_write PU256 (limit_remaining limit_key token) (saturating_add_u256 remaining amount)
      end
  end.

Definition authorize_transfer (account token : Address) (amount : U256) : M unit :=
  key ← spending_key account;
  match key with
  | None => mret tt
  | Some key => verify_and_update_spending account key token amount
  end.

Definition authorize_approve (account token : Address) (old_approval new_approval : U256) : M unit :=
  key ← spending_key account;
  match key with
  | None => mret tt
  | Some key =>
      let approval_increase := saturating_sub new_approval old_approval in
      if decide (approval_increase = 0) then mret tt
      else verify_and_update_spending account key token approval_increase
  end.
End keychain.
