(* ===== verification/Tip20.v ===== *)
(** * TIP-20 tokens

    precompile/tip20.rs, [TIP20Token]: balances, allowances, roles, supply,
    transfers under a policy, rewards; precompile/receive_policy_guard.rs, the
    custody of transfers that a receiver does not accept; precompile/
    tip20_factory.rs, the creation of tokens. A token is its address. *)

From stdpp Require Import prelude gmap list strings.
From S2P Require Import Prelude TempoEvm TempoBytes Tip403 Keychain.

#[local] Open Scope Z_scope.

(** [ClaimReceiptV1]. *)
Record ClaimReceipt := mkReceipt {
  cr_version : Z;
  cr_token : Address;
  cr_recovery_authority : Address;
  cr_originator : Address;
  cr_recipient : Address;
  cr_blocked_at : u64;
  cr_blocked_nonce : u64;
  cr_blocked_reason : Z;
  cr_kind : Z;
  cr_memo : B256;
}.

#[export] Instance ClaimReceipt_eq_dec : EqDecision ClaimReceipt.
Proof. solve_decision. Defined.

(** Its ABI encoding. *)
Class ReceiptAbi := {
  receipt_encode : ClaimReceipt -> bytes;
  receipt_decode : bytes -> option ClaimReceipt;
}.

Definition text (s : string) : bytes := (fun c => Z.of_N (Ascii.N_of_ascii c)) <$> String.list_ascii_of_string s.

Definition ACC_PRECISION : U256 := 10 ^ 18.
Definition DEFAULT_ADMIN_ROLE : B256 := 0.
Definition UNGRANTABLE_ROLE : B256 := u256_max.
Definition MAX_LOGO_URI_BYTES : Z := 256.
Definition BLOCKED_RECEIPT_VERSION : Z := 1.
Definition RESERVED_SIZE : Z := 1024.

Record Recipient := mkRecipient {
  r_target : Address;
  r_virtual : option Address;
}.

Definition recipient_direct (target : Address) : Recipient := mkRecipient target None.
Definition event_address (r : Recipient) : Address := default (r_target r) (r_virtual r).

Record UserRewardInfo := mkReward {
  rw_recipient : Address;
  rw_per_token : U256;
  rw_balance : U256;
}.

Definition err_invalid_recipient : TempoPrecompileError := Revert "InvalidRecipient" [].
Definition err_contract_paused : TempoPrecompileError := Revert "ContractPaused" [].
Definition err_policy_forbids : TempoPrecompileError := Revert "PolicyForbids" [].
Definition err_unauthorized_role : TempoPrecompileError := Revert "Unauthorized" [].
Definition err_token_balance (available required token : Z) : TempoPrecompileError := Revert "InsufficientBalance" [available; required; token].
Definition err_insufficient_allowance : TempoPrecompileError := Revert "InsufficientAllowance" [].
Definition err_supply_cap_exceeded : TempoPrecompileError := Revert "SupplyCapExceeded" [].
Definition err_invalid_supply_cap : TempoPrecompileError := Revert "InvalidSupplyCap" [].
Definition err_invalid_quote_token : TempoPrecompileError := Revert "InvalidQuoteToken" [].
Definition err_invalid_token_address : TempoPrecompileError := Revert "InvalidToken" [].
Definition err_protected_address : TempoPrecompileError := Revert "ProtectedAddress" [].
Definition err_address_reserved : TempoPrecompileError := Revert "AddressReserved" [].
Definition err_invalid_receipt : TempoPrecompileError := Revert "InvalidReceipt" [].
Definition err_invalid_claim_address : TempoPrecompileError := Revert "InvalidClaimAddress" [].
Definition err_unauthorized_claimer : TempoPrecompileError := Revert "UnauthorizedClaimer" [].

Definition err_invalid_transfer_policy_id : TempoPrecompileError := Revert "InvalidTransferPolicyId" [].
Definition err_permit_expired : TempoPrecompileError := Revert "PermitExpired" [].
Definition err_invalid_signature : TempoPrecompileError := Revert "InvalidSignature" [].
Definition err_invalid_amount : TempoPrecompileError := Revert "InvalidAmount" [].
Definition err_no_opted_in_supply : TempoPrecompileError := Revert "NoOptedInSupply" [].
Definition err_invalid_currency : TempoPrecompileError := Revert "InvalidCurrency" [].
Definition err_token_already_exists (token : Address) : TempoPrecompileError := Revert "TokenAlreadyExists" [token].
Definition err_address_not_reserved : TempoPrecompileError := Revert "AddressNotReserved" [].
Definition err_logo_too_long : TempoPrecompileError := Revert "LogoURITooLong" [].
Definition err_invalid_logo : TempoPrecompileError := Revert "InvalidLogoURI" [].

(** ** Logo addresses *)

Definition is_upper (b : Z) : bool := bool_decide (65 <= b <= 90).
Definition is_alphabetic (b : Z) : bool := is_upper b || bool_decide (97 <= b <= 122).
Definition is_alphanumeric (b : Z) : bool := is_alphabetic b || bool_decide (48 <= b <= 57).
Definition to_lower (b : Z) : Z := if is_upper b then b + 32 else b.

(** [split_once(':')]: what precedes the first colon. *)
Fixpoint split_scheme (uri : bytes) : option bytes :=
  match uri with
  | [] => None
  | b :: rest => if decide (b = 58) then Some [] else cons b <$> split_scheme rest
  end.

Definition ALLOWED_LOGO_URI_SCHEMES : list bytes := text <$> ["https"; "http"; "ipfs"; "data"]%string.

Definition is_allowed_logo_uri (uri : bytes) : bool :=
  match split_scheme uri with
  | Some (first :: rest) =>
      is_alphabetic first && forallb (fun b => is_alphanumeric b || bool_decide (b = 43 \/ b = 45 \/ b = 46)) rest &&
      bool_decide (to_lower <$> (first :: rest) ∈ ALLOWED_LOGO_URI_SCHEMES)
  | _ => false
  end.

Definition validate_logo_uri (uri : bytes) : M unit :=
  if decide (MAX_LOGO_URI_BYTES < Z.of_nat (length uri)) then throw err_logo_too_long
  else if bool_decide (uri <> []) && negb (is_allowed_logo_uri uri) then throw err_invalid_logo
  else mret tt.

Section tip20.
Context `{TempoSpec} `{TempoAddresses} `{!TokenAddresses} `{Keccak} `{SystemPrecompiles} `{BlockEnv} `{ReceiptAbi}.

Definition PAUSE_ROLE : B256 := keccak256 (text "PAUSE_ROLE").
Definition UNPAUSE_ROLE : B256 := keccak256 (text "UNPAUSE_ROLE").
Definition ISSUER_ROLE : B256 := keccak256 (text "ISSUER_ROLE").
Definition BURN_BLOCKED_ROLE : B256 := keccak256 (text "BURN_BLOCKED_ROLE").
Definition BURN_AT_ROLE : B256 := keccak256 (text "BURN_AT_ROLE").

(** [checked_add] and [checked_mul] of [U256]. *)
Definition u256_add (a b : U256) : M U256 := ok_or under_overflow (checked_add u256_max a b).
Definition u256_sub (a b : U256) : M U256 := ok_or under_overflow (checked_sub a b).
Definition u256_mul (a b : U256) : M U256 := ok_or under_overflow (if decide (a * b <= u256_max) then Some (a * b) else None).
(** [try_into] of [u128]. *)
Definition into_u128 (a : U256) : M u128 := ok_or under_overflow (if decide (a <= u128_max) then Some a else None).

Definition recipient_resolve (address : Address) : M Recipient :=
  target ← resolve_recipient address;
  mret (if decide (target = address) then recipient_direct address else mkRecipient target (Some address)).

Definition recipient_validate (r : Recipient) : M unit :=
  if decide (r_target r = 0 \/ has_tip20_prefix (r_target r) = true) then throw err_invalid_recipient else mret tt.

Section token.
Context (token : Address).

(** ** Storage *)

Definition roles (account : Address) (role : B256) : Handle := mapping_at token (mapping_slot account (At 0)) role.
Definition role_admins (role : B256) : Handle := mapping_at token (At 1) role.
Definition NAME : Slot := At 2.
Definition SYMBOL : Slot := At 3.
Definition CURRENCY : Slot := At 4.
Definition LOGO_URI : Slot := At 5.
Definition quote_token_handle : Handle := full_slot token (At 6).
Definition next_quote_token_handle : Handle := mkHandle token (At 7) (Some 0).
Definition transfer_policy_handle : Handle := mkHandle token (At 7) (Some 20).
Definition total_supply_handle : Handle := full_slot token (At 8).
Definition balances (account : Address) : Handle := mapping_at token (At 9) account.
Definition allowances (owner spender : Address) : Handle := mapping_at token (mapping_slot owner (At 10)) spender.
Definition permit_nonces (owner : Address) : Handle := mapping_at token (At 11) owner.
Definition paused_handle : Handle := full_slot token (At 12).
Definition supply_cap_handle : Handle := full_slot token (At 13).
Definition reward_per_token_handle : Handle := full_slot token (At 15).
Definition opted_in_supply_handle : Handle := full_slot token (At 16).
Definition reward_slot (account : Address) : Slot := mapping_slot account (At 17).

Definition tip20_emit (event : string) (args : list LogArg) : M unit := emit_event token (mkLog event args).

Definition reward_load (account : Address) : M UserRewardInfo :=
  word0 ← sload token (reward_slot account);
  word1 ← sload token (slot_add (reward_slot account) 1);
  word2 ← sload token (slot_add (reward_slot account) 2);
  recipient ← from_word PAddress word0;
  mret (mkReward recipient word1 word2).

Definition reward_store (account : Address) (info : UserRewardInfo) : M unit :=
  current ← (if is_t4 then mret 0 else sload token (reward_slot account));
  word ← insert_into_word PAddress current (rw_recipient info) 0;
  _ ← sstore token (reward_slot account) word;
  _ ← sstore token (slot_add (reward_slot account) 1) (rw_per_token info);
  sstore token (slot_add (reward_slot account) 2) (rw_balance info).

Definition get_balance (account : Address) : M U256 := h_read PU256 (balances account).
Definition token_set_balance (account : Address) (amount : U256) : M unit := h_write PU256 (balances account) amount.
Definition get_allowance (owner spender : Address) : M U256 := h_read PU256 (allowances owner spender).
Definition set_allowance (owner spender : Address) (amount : U256) : M unit := h_write PU256 (allowances owner spender) amount.
Definition total_supply : M U256 := h_read PU256 total_supply_handle.
Definition set_total_supply (amount : U256) : M unit := h_write PU256 total_supply_handle amount.
Definition supply_cap : M U256 := h_read PU256 supply_cap_handle.
Definition token_quote_token : M Address := h_read PAddress quote_token_handle.
Definition next_quote_token : M Address := h_read PAddress next_quote_token_handle.
Definition paused : M bool := read_bool paused_handle.
Definition currency : M bytes := string_load token CURRENCY.
Definition get_opted_in_supply : M u128 := h_read PU128 opted_in_supply_handle.
Definition set_opted_in_supply (value : u128) : M unit := h_write PU128 opted_in_supply_handle value.
Definition get_global_reward_per_token : M U256 := h_read PU256 reward_per_token_handle.
Definition set_global_reward_per_token (value : U256) : M unit := h_write PU256 reward_per_token_handle value.

Definition legacy_transfer_policy_id : M u64 := h_read PU64 transfer_policy_handle.

Definition token_transfer_policy_id : M u64 :=
  registered ← (if is_t9 then registered_token_transfer_policy_id token else mret None);
  match registered with
  | Some policy_id => mret policy_id
  | None => legacy_transfer_policy_id
  end.

Definition token_not_paused : M unit :=
  p ← paused;
  if p : bool then throw err_contract_paused else mret tt.

(** ** Policies *)

Definition is_transfer_authorized (from to : Address) : M bool :=
  policy_id ← token_transfer_policy_id;
  sender_auth ← is_authorized_as policy_id from role_sender;
  if is_t2 && negb sender_auth then mret false
  else
    recipient_auth ← is_authorized_as policy_id to role_recipient;
    mret (sender_auth && recipient_auth).

Definition token_transfer_authorized (from to : Address) : M unit :=
  ok ← is_transfer_authorized from to;
  if ok : bool then mret tt else throw err_policy_forbids.

Definition ensure_authorized_as (checks : list (Address * AuthRole)) : M unit :=
  policy_id ← token_transfer_policy_id;
  iterM (fun c => ok ← is_authorized_as policy_id c.1 c.2; if ok : bool then mret tt else throw err_policy_forbids) checks.

Definition ensure_receive_policy_authorized (sender receiver : Address) : M unit :=
  blocked ← validate_receive_policy token sender receiver;
  match blocked with Some _ => throw err_policy_forbids | None => mret tt end.

(** ** Roles *)

Definition has_role (account : Address) (role : B256) : M bool := read_bool (roles account role).
Definition get_role_admin (role : B256) : M B256 := h_read PU256 (role_admins role).
Definition set_role_admin_internal (role admin_role : B256) : M unit := h_write PU256 (role_admins role) admin_role.

Definition check_role (account : Address) (role : B256) : M unit :=
  ok ← has_role account role;
  if ok : bool then mret tt else throw err_unauthorized_role.

Definition role_updated (role : B256) (account sender : Address) (has : bool) : M unit :=
  tip20_emit "RoleMembershipUpdated" [Word role; Word account; Word sender; Word (if has then 1 else 0)].

Definition grant_default_admin (msg_sender admin : Address) : M unit :=
  _ ← write_bool (roles admin DEFAULT_ADMIN_ROLE) true;
  role_updated DEFAULT_ADMIN_ROLE admin msg_sender true.

Definition grant_role (msg_sender : Address) (role : B256) (account : Address) : M unit :=
  admin_role ← get_role_admin role;
  _ ← check_role msg_sender admin_role;
  _ ← write_bool (roles account role) true;
  role_updated role account msg_sender true.

Definition revoke_role (msg_sender : Address) (role : B256) (account : Address) : M unit :=
  admin_role ← get_role_admin role;
  _ ← check_role msg_sender admin_role;
  _ ← write_bool (roles account role) false;
  role_updated role account msg_sender false.

Definition renounce_role (msg_sender : Address) (role : B256) : M unit :=
  _ ← check_role msg_sender role;
  _ ← write_bool (roles msg_sender role) false;
  role_updated role msg_sender msg_sender false.

Definition set_role_admin (msg_sender : Address) (role admin_role : B256) : M unit :=
  current_admin_role ← get_role_admin role;
  _ ← check_role msg_sender current_admin_role;
  _ ← set_role_admin_internal role admin_role;
  tip20_emit "RoleAdminUpdated" [Word role; Word admin_role; Word msg_sender].

(** ** Rewards *)

(** The reward recipient of the holder, once what it earned is settled. *)
Definition update_rewards (holder : Address) : M Address :=
  if is_t8 then mret 0
  else
    info ← reward_load holder;
    let cached_delegate := rw_recipient info in
    global ← get_global_reward_per_token;
    delta ← u256_sub global (rw_per_token info);
    if decide (delta = 0) then mret cached_delegate
    else
      info ←
        (if decide (cached_delegate = 0) then mret info
         else
           holder_balance ← get_balance holder;
           product ← u256_mul holder_balance delta;
           let reward := product / ACC_PRECISION in
           if decide (cached_delegate = holder) then
             earned ← u256_add (rw_balance info) reward;
             mret (mkReward (rw_recipient info) (rw_per_token info) earned)
           else
             delegate_info ← reward_load cached_delegate;
             earned ← u256_add (rw_balance delegate_info) reward;
             _ ← reward_store cached_delegate (mkReward (rw_recipient delegate_info) (rw_per_token delegate_info) earned);
             mret info);
      _ ← reward_store holder (mkReward (rw_recipient info) global (rw_balance info));
      mret cached_delegate.

Definition add_opted_in (amount : U256) : M unit :=
  supply ← get_opted_in_supply;
  updated ← u256_add supply amount;
  updated ← into_u128 updated;
  set_opted_in_supply updated.

Definition sub_opted_in (amount : U256) : M unit :=
  supply ← get_opted_in_supply;
  updated ← u256_sub supply amount;
  updated ← into_u128 updated;
  set_opted_in_supply updated.

Definition handle_rewards_on_transfer (from to : Address) (amount : U256) : M unit :=
  from_delegate ← update_rewards from;
  to_delegate ← update_rewards to;
  if decide (from_delegate <> 0) then when (bool_decide (to_delegate = 0)) (sub_opted_in amount)
  else when (bool_decide (to_delegate <> 0)) (add_opted_in amount).

Definition handle_rewards_on_mint (to : Address) (amount : U256) : M unit :=
  to_delegate ← update_rewards to;
  when (bool_decide (to_delegate <> 0)) (add_opted_in amount).

(** ** Moving tokens *)

(** [_transfer_to]. *)
Definition transfer_to (from : Address) (to : Recipient) (amount : U256) : M unit :=
  from_balance ← get_balance from;
  if decide (from_balance < amount) then throw (err_token_balance from_balance amount token)
  else
    _ ← handle_rewards_on_transfer from (r_target to) amount;
    new_from_balance ← u256_sub from_balance amount;
    _ ← token_set_balance from new_from_balance;
    _ ← (if decide (r_target to = 0) then mret tt
         else
           to_balance ← get_balance (r_target to);
           new_to_balance ← ok_or err_supply_cap_exceeded (checked_add u256_max to_balance amount);
           token_set_balance (r_target to) new_to_balance);
    tip20_emit "Transfer" [Word from; Word (event_address to); Word amount].

Definition emit_virtual_hop (to : Recipient) (amount : U256) : M unit :=
  match r_virtual to with
  | Some virtual_address => tip20_emit "Transfer" [Word virtual_address; Word (r_target to); Word amount]
  | None => mret tt
  end.

(** [_transfer]. *)
Definition transfer_resolved (from to : Address) (amount : U256) : M unit :=
  to ← recipient_resolve to;
  _ ← transfer_to from to amount;
  emit_virtual_hop to amount.

(** [_mint_to]. *)
Definition mint_to (to : Recipient) (supply amount : U256) : M unit :=
  new_supply ← u256_add supply amount;
  cap ← supply_cap;
  if decide (cap < new_supply) then throw err_supply_cap_exceeded
  else
    _ ← handle_rewards_on_mint (r_target to) amount;
    _ ← set_total_supply new_supply;
    to_balance ← get_balance (r_target to);
    new_to_balance ← ok_or err_supply_cap_exceeded (checked_add u256_max to_balance amount);
    _ ← token_set_balance (r_target to) new_to_balance;
    tip20_emit "Transfer" [Word 0; Word (event_address to); Word amount].
End token.

(** ** The guard *)

Definition guard_nonce : Handle := full_slot RECEIVE_POLICY_GUARD_ADDRESS (At 0).
Definition guard_balance (key : B256) : Handle := mapping_at RECEIVE_POLICY_GUARD_ADDRESS (At 1) key.
Definition guard_emit (event : string) (args : list LogArg) : M unit := emit_event RECEIVE_POLICY_GUARD_ADDRESS (mkLog event args).

Definition receipt_key (receipt : ClaimReceipt) : B256 := keccak256 (receipt_encode receipt).

Definition next_receipt_nonce : M u64 :=
  nonce ← h_read PU64 guard_nonce;
  let nonce := Z.max nonce 1 in
  next ← ok_or under_overflow (checked_add u64_max nonce 1);
  _ ← h_write PU64 guard_nonce next;
  mret nonce.

(** [InboundKind]: every other number is its [__Invalid]. *)
Definition KIND_TRANSFER : Z := 0.
Definition KIND_MINT : Z := 1.

Definition store_blocked (token originator recipient receiver recovery_authority : Address) (amount : U256) (blocked_reason kind : Z) (memo : B256) : M unit :=
  if decide (~ (blocked_reason = 1 \/ blocked_reason = 2) \/ ~ (kind = KIND_TRANSFER \/ kind = KIND_MINT)) then throw err_invalid_receipt
  else
    nonce ← next_receipt_nonce;
    let receipt := mkReceipt BLOCKED_RECEIPT_VERSION token recovery_authority originator recipient (Z.min u64_max timestamp) nonce blocked_reason kind memo in
    _ ← h_write PU256 (guard_balance (receipt_key receipt)) amount;
    guard_emit "TransferBlocked" [Word token; Word receiver; Word nonce; Word amount; Word BLOCKED_RECEIPT_VERSION; Text (receipt_encode receipt)].

Section operations.
Context (token : Address).

(** What a receiver does not accept goes to the guard. *)
Definition validate_inbound_or_block (originator : Address) (to : Recipient) (amount : U256) (mint_total_supply : option U256) (memo : B256) : M bool :=
  if negb is_t6 then mret false
  else if decide (r_target to = RECEIVE_POLICY_GUARD_ADDRESS) then throw err_address_reserved
  else
    blocked ← check_receive_policy token originator (r_target to);
    match blocked with
    | None => mret false
    | Some (reason, recovery_authority) =>
        let guard := recipient_direct RECEIVE_POLICY_GUARD_ADDRESS in
        kind ←
          match mint_total_supply with
          | Some supply =>
              _ ← mint_to token guard supply amount;
              _ ← tip20_emit token "Mint" [Word (r_target guard); Word amount];
              mret KIND_MINT
          | None => _ ← transfer_to token originator guard amount; mret KIND_TRANSFER
          end;
        _ ← store_blocked token originator (event_address to) (r_target to) recovery_authority amount (u8_of_reason reason) kind memo;
        mret true
    end.

Definition consume_allowance (owner spender : Address) (amount : U256) : M unit :=
  allowed ← get_allowance token owner spender;
  if decide (allowed < amount) then throw err_insufficient_allowance
  else if decide (allowed = u256_max) then mret tt
  else
    rest ← ok_or err_insufficient_allowance (checked_sub allowed amount);
    set_allowance token owner spender rest.

(** The recipient, unless the tokens went to the guard. *)
Definition validate_transfer (spender : option Address) (from to : Address) (amount : U256) (memo : B256) : M (option Recipient) :=
  to ← recipient_resolve to;
  _ ← token_not_paused token;
  _ ← recipient_validate to;
  _ ← token_transfer_authorized token from (r_target to);
  _ ← match spender with
      | Some spender => consume_allowance from spender amount
      | None => authorize_transfer from token amount
      end;
  blocked ← validate_inbound_or_block from to amount None memo;
  mret (if blocked : bool then None else Some to).

Definition finish_transfer (from : Address) (to : option Recipient) (amount : U256) (memo : M unit) : M unit :=
  match to with
  | None => mret tt
  | Some to => _ ← transfer_to token from to amount; _ ← memo; emit_virtual_hop token to amount
  end.

Definition memo_event (from to : Address) (amount : U256) (memo : B256) : M unit :=
  tip20_emit token "TransferWithMemo" [Word from; Word to; Word amount; Word memo].

Definition token_transfer (msg_sender to : Address) (amount : U256) : M unit :=
  r ← validate_transfer None msg_sender to amount 0; finish_transfer msg_sender r amount (mret tt).

Definition token_transfer_from (msg_sender from to : Address) (amount : U256) : M unit :=
  r ← validate_transfer (Some msg_sender) from to amount 0; finish_transfer from r amount (mret tt).

Definition transfer_from_with_memo (msg_sender from to : Address) (amount : U256) (memo : B256) : M unit :=
  r ← validate_transfer (Some msg_sender) from to amount memo; finish_transfer from r amount (memo_event from to amount memo).

Definition transfer_with_memo (msg_sender to : Address) (amount : U256) (memo : B256) : M unit :=
  r ← validate_transfer None msg_sender to amount memo; finish_transfer msg_sender r amount (memo_event msg_sender to amount memo).

Definition token_system_transfer_from (caller from : Address) (amount : U256) : M unit :=
  if is_t5 && negb (is_implicitly_approved caller) then throw err_unauthorized_role
  else r ← validate_transfer None from caller amount 0; finish_transfer from r amount (mret tt).

Definition channel_reserve_transfer (from : Address) (to : Recipient) (amount : U256) (receive_policy_sender : Address) : M unit :=
  if decide (from <> TIP20_CHANNEL_RESERVE_ADDRESS /\ event_address to <> TIP20_CHANNEL_RESERVE_ADDRESS) then throw err_unauthorized_role
  else
    _ ← token_not_paused token;
    _ ← recipient_validate to;
    _ ← authorize_transfer from token amount;
    if decide (r_target to = RECEIVE_POLICY_GUARD_ADDRESS) then throw err_address_reserved
    else
      _ ← ensure_receive_policy_authorized token receive_policy_sender (r_target to);
      _ ← transfer_to token from to amount;
      emit_virtual_hop token to amount.

(** ** Minting and burning *)

Definition validate_mint (msg_sender to : Address) (amount : U256) (memo : B256) : M (option (U256 * Recipient)) :=
  to ← recipient_resolve to;
  _ ← check_role token msg_sender ISSUER_ROLE;
  supply ← total_supply token;
  _ ← when is_t3 (_ ← token_not_paused token; recipient_validate to);
  policy_id ← token_transfer_policy_id token;
  ok ← is_authorized_as policy_id (r_target to) role_mint_recipient;
  if negb ok then throw err_policy_forbids
  else
    blocked ← validate_inbound_or_block msg_sender to amount (Some supply) memo;
    mret (if blocked : bool then None else Some (supply, to)).

Definition finish_mint (to : Address) (r : option (U256 * Recipient)) (amount : U256) (memo : M unit) : M unit :=
  match r with
  | None => mret tt
  | Some (supply, recipient) =>
      _ ← mint_to token recipient supply amount;
      _ ← memo;
      _ ← tip20_emit token "Mint" [Word to; Word amount];
      emit_virtual_hop token recipient amount
  end.

Definition mint (msg_sender to : Address) (amount : U256) : M unit :=
  r ← validate_mint msg_sender to amount 0; finish_mint to r amount (mret tt).

Definition mint_with_memo (msg_sender to : Address) (amount : U256) (memo : B256) : M unit :=
  r ← validate_mint msg_sender to amount memo; finish_mint to r amount (memo_event 0 to amount memo).

(** The tokens leave a balance and the supply. *)
Definition burn_from (from : Address) (amount : U256) : M unit :=
  _ ← transfer_resolved token from 0 amount;
  supply ← total_supply token;
  new_supply ← ok_or (err_token_balance supply amount token) (checked_sub supply amount);
  set_total_supply token new_supply.

(** [_burn]. *)
Definition burn_own (msg_sender : Address) (amount : U256) : M unit :=
  _ ← when is_t3 (token_not_paused token);
  _ ← check_role token msg_sender ISSUER_ROLE;
  burn_from msg_sender amount.

Definition burn_event (from : Address) (amount : U256) : M unit := tip20_emit token "Burn" [Word from; Word amount].

Definition burn (msg_sender : Address) (amount : U256) : M unit := _ ← burn_own msg_sender amount; burn_event msg_sender amount.

Definition burn_with_memo (msg_sender : Address) (amount : U256) (memo : B256) : M unit :=
  _ ← burn_own msg_sender amount;
  _ ← memo_event msg_sender 0 amount memo;
  burn_event msg_sender amount.

Definition check_burn_address (from : Address) : M unit :=
  if decide (from = TIP_FEE_MANAGER_ADDRESS \/ from = STABLECOIN_DEX_ADDRESS) then throw err_protected_address
  else if is_t5 && bool_decide (from = TIP20_CHANNEL_RESERVE_ADDRESS \/ from = token) then throw err_protected_address
  else if is_t6 && bool_decide (from = RECEIVE_POLICY_GUARD_ADDRESS) then throw err_protected_address
  else if is_t12 && is_zone_portal from then throw err_protected_address
  else mret tt.

(** Burns what an account that the policy blocks owns, or what the guard holds
    for it. *)
Definition burn_blocked_internal (msg_sender owner : Address) (amount : U256) (check_protected : bool) : M unit :=
  _ ← when is_t3 (token_not_paused token);
  _ ← check_role token msg_sender BURN_BLOCKED_ROLE;
  _ ← when check_protected (check_burn_address owner);
  policy_id ← token_transfer_policy_id token;
  ok ← is_authorized_as policy_id owner role_sender;
  if ok : bool then throw err_policy_forbids
  else
    _ ← burn_from (if check_protected then owner else RECEIVE_POLICY_GUARD_ADDRESS) amount;
    tip20_emit token "BurnBlocked" [Word owner; Word amount].

Definition burn_blocked (msg_sender from : Address) (amount : U256) : M unit := burn_blocked_internal msg_sender from amount true.

Definition burn_at (msg_sender from : Address) (amount : U256) : M unit :=
  _ ← token_not_paused token;
  _ ← check_role token msg_sender BURN_AT_ROLE;
  _ ← check_burn_address from;
  _ ← authorize_transfer from token amount;
  _ ← burn_from from amount;
  tip20_emit token "BurnAt" [Word msg_sender; Word from; Word amount].
(** ** Administration *)

Definition USD : bytes := text "USD".

(** [TIP20Token::from_address]. *)
Definition token_from_address (address : Address) : M unit := if has_tip20_prefix address then mret tt else throw err_invalid_token_address.

(** [TIP20Factory::is_tip20]: a token that is deployed. *)
Definition factory_is_tip20 (address : Address) : M bool := if negb (has_tip20_prefix address) then mret false else has_code address.

Definition write_transfer_policy (policy_id : u64) : M unit :=
  if is_t9 then set_token_transfer_policy token policy_id else h_write PU64 (transfer_policy_handle token) policy_id.

Definition initialize (msg_sender : Address) (name_ symbol currency_ : bytes) (quote admin : Address) : M unit :=
  _ ← set_code token;
  _ ← bytes_store token NAME name_;
  _ ← bytes_store token SYMBOL symbol;
  _ ← bytes_store token CURRENCY currency_;
  _ ← h_write PAddress (quote_token_handle token) quote;
  _ ← h_write PAddress (next_quote_token_handle token) quote;
  _ ← h_write PU256 (supply_cap_handle token) u128_max;
  _ ← write_transfer_policy ALLOW_ALL_POLICY_ID;
  _ ← set_role_admin_internal token UNGRANTABLE_ROLE UNGRANTABLE_ROLE;
  grant_default_admin token msg_sender admin.

Definition set_supply_cap (msg_sender : Address) (new_supply_cap : U256) : M unit :=
  _ ← check_role token msg_sender DEFAULT_ADMIN_ROLE;
  supply ← total_supply token;
  if decide (new_supply_cap < supply) then throw err_invalid_supply_cap
  else if decide (u128_max < new_supply_cap) then throw err_supply_cap_exceeded
  else
    _ ← h_write PU256 (supply_cap_handle token) new_supply_cap;
    tip20_emit token "SupplyCapUpdate" [Word msg_sender; Word new_supply_cap].

Definition set_paused (msg_sender : Address) (role : B256) (value : bool) : M unit :=
  _ ← check_role token msg_sender role;
  _ ← write_bool (paused_handle token) value;
  tip20_emit token "PauseStateUpdate" [Word msg_sender; Word (flag value)].

Definition pause (msg_sender : Address) : M unit := set_paused msg_sender PAUSE_ROLE true.
Definition unpause (msg_sender : Address) : M unit := set_paused msg_sender UNPAUSE_ROLE false.

Definition change_transfer_policy_id (msg_sender : Address) (new_policy_id : u64) : M unit :=
  _ ← check_role token msg_sender DEFAULT_ADMIN_ROLE;
  known ← policy_exists new_policy_id;
  if negb known then throw err_invalid_transfer_policy_id
  else
    _ ← write_transfer_policy new_policy_id;
    tip20_emit token "TransferPolicyUpdate" [Word msg_sender; Word new_policy_id].

Definition write_logo_uri (msg_sender : Address) (uri : bytes) : M unit :=
  _ ← bytes_store token LOGO_URI uri;
  tip20_emit token "LogoURIUpdated" [Word msg_sender; Text uri].

Definition set_logo_uri (msg_sender : Address) (uri : bytes) : M unit :=
  _ ← check_role token msg_sender DEFAULT_ADMIN_ROLE;
  _ ← validate_logo_uri uri;
  write_logo_uri msg_sender uri.

Definition set_next_quote_token (msg_sender new_quote_token : Address) : M unit :=
  _ ← check_role token msg_sender DEFAULT_ADMIN_ROLE;
  if decide (token = PATH_USD_ADDRESS) then throw err_invalid_quote_token
  else
    known ← factory_is_tip20 new_quote_token;
    if negb known then throw err_invalid_quote_token
    else
      own ← currency token;
      _ ← (if decide (own = USD) then
             _ ← token_from_address new_quote_token;
             theirs ← currency new_quote_token;
             if decide (theirs <> USD) then throw err_invalid_quote_token else mret tt
           else mret tt);
      _ ← h_write PAddress (next_quote_token_handle token) new_quote_token;
      tip20_emit token "NextQuoteTokenSet" [Word msg_sender; Word new_quote_token].

(** The loop of the cycle detection, at most [fuel] tokens long. *)
Fixpoint walk_quotes (fuel : nat) (current : Address) : M unit :=
  if decide (current = PATH_USD_ADDRESS) then mret tt
  else if decide (current = token) then throw err_invalid_quote_token
  else
    match fuel with
    | O => fun s => (Panic, s)
    | S fuel => _ ← token_from_address current; next ← token_quote_token current; walk_quotes fuel next
    end.

Definition complete_quote_token_update (fuel : nat) (msg_sender : Address) : M unit :=
  _ ← check_role token msg_sender DEFAULT_ADMIN_ROLE;
  next ← next_quote_token token;
  _ ← walk_quotes fuel next;
  _ ← h_write PAddress (quote_token_handle token) next;
  tip20_emit token "QuoteTokenUpdate" [Word msg_sender; Word next].

(** ** Allowances *)

Definition approve (msg_sender spender : Address) (amount : U256) : M unit :=
  old_allowance ← get_allowance token msg_sender spender;
  _ ← authorize_approve msg_sender token old_allowance amount;
  _ ← set_allowance token msg_sender spender amount;
  tip20_emit token "Approval" [Word msg_sender; Word spender; Word amount].

(** [abi_encode] of words. *)
Definition abi_words (ws : list Z) : bytes := ws ≫= be_bytes 32.

Definition EIP712_DOMAIN_TYPEHASH : B256 := keccak256 (text "EIP712Domain(string name,string version,uint256 chainId,address verifyingContract)").
Definition PERMIT_TYPEHASH : B256 := keccak256 (text "Permit(address owner,address spender,uint256 value,uint256 nonce,uint256 deadline)").

Definition domain_separator : M B256 :=
  name_ ← string_load token NAME;
  mret (keccak256 (abi_words [EIP712_DOMAIN_TYPEHASH; keccak256 name_; keccak256 (text "1"); chain_id; token])).

(** [storage.recover_signer]. *)
Definition recover_signer_checked (digest : B256) (v : Z) (r s : B256) : option Address :=
  if decide (v <> 27 /\ v <> 28) then None
  else recovered ← recover_signer digest v r s; if decide (recovered = 0) then None else Some recovered.

Definition permit (owner spender : Address) (value deadline : U256) (v : Z) (r s : B256) : M unit :=
  if decide (deadline < timestamp) then throw err_permit_expired
  else
    nonce ← h_read PU256 (permit_nonces token owner);
    let struct_hash := keccak256 (abi_words [PERMIT_TYPEHASH; owner; spender; value; nonce; deadline]) in
    separator ← domain_separator;
    let digest := keccak256 ([25; 1] ++ be_bytes 32 separator ++ be_bytes 32 struct_hash) in
    recovered ← ok_or err_invalid_signature (recover_signer_checked digest v r s);
    if decide (recovered <> owner) then throw err_invalid_signature
    else
      next ← u256_add nonce 1;
      _ ← h_write PU256 (permit_nonces token owner) next;
      _ ← set_allowance token owner spender value;
      tip20_emit token "Approval" [Word owner; Word spender; Word value].

(** ** Reward pool *)

Definition distribute_reward (msg_sender : Address) (amount : U256) : M unit :=
  if is_t7 then mret tt
  else
    _ ← token_not_paused token;
    if decide (amount = 0) then throw err_invalid_amount
    else
      _ ← token_transfer_authorized token msg_sender token;
      _ ← authorize_transfer msg_sender token amount;
      _ ← transfer_resolved token msg_sender token amount;
      opted_in ← get_opted_in_supply token;
      if decide (opted_in = 0) then throw err_no_opted_in_supply
      else
        scaled ← u256_mul amount ACC_PRECISION;
        let delta_rpt := scaled / opted_in in
        current_rpt ← get_global_reward_per_token token;
        new_rpt ← u256_add current_rpt delta_rpt;
        _ ← set_global_reward_per_token token new_rpt;
        tip20_emit token "RewardDistributed" [Word msg_sender; Word amount].

Definition set_reward_recipient (msg_sender recipient : Address) : M unit :=
  if is_t7 then mret tt
  else
    _ ← token_not_paused token;
    if is_t3 && is_virtual recipient then throw err_invalid_recipient
    else
      _ ← when (bool_decide (recipient <> 0)) (token_transfer_authorized token msg_sender recipient);
      from_delegate ← update_rewards token msg_sender;
      holder_balance ← get_balance token msg_sender;
      _ ← (if decide (from_delegate <> 0) then when (bool_decide (recipient = 0)) (sub_opted_in token holder_balance)
           else when (bool_decide (recipient <> 0)) (add_opted_in token holder_balance));
      info ← reward_load token msg_sender;
      _ ← reward_store token msg_sender (mkReward recipient (rw_per_token info) (rw_balance info));
      tip20_emit token "RewardRecipientSet" [Word msg_sender; Word recipient].

Definition claim_rewards (msg_sender : Address) : M U256 :=
  _ ← token_not_paused token;
  _ ← token_transfer_authorized token token msg_sender;
  reward_recipient ← update_rewards token msg_sender;
  info ← reward_load token msg_sender;
  let amount := rw_balance info in
  contract_balance ← get_balance token token;
  let max_amount := Z.min amount contract_balance in
  rest ← u256_sub amount max_amount;
  _ ← reward_store token msg_sender (mkReward (rw_recipient info) (rw_per_token info) rest);
  _ ← (if decide (0 < max_amount) then
         new_contract_balance ← u256_sub contract_balance max_amount;
         _ ← token_set_balance token token new_contract_balance;
         balance ← get_balance token msg_sender;
         recipient_balance ← u256_add balance max_amount;
         _ ← token_set_balance token msg_sender recipient_balance;
         _ ← when (bool_decide (reward_recipient <> 0)) (add_opted_in token max_amount);
         tip20_emit token "Transfer" [Word token; Word msg_sender; Word max_amount]
       else mret tt);
  mret max_amount.

Definition get_pending_rewards (account : Address) : M u128 :=
  info ← reward_load token account;
  if is_t8 then into_u128 (rw_balance info)
  else if decide (rw_recipient info = account) then
    holder_balance ← get_balance token account;
    if decide (0 < holder_balance) then
      global ← get_global_reward_per_token token;
      delta ← u256_sub global (rw_per_token info);
      if decide (0 < delta) then
        product ← u256_mul holder_balance delta;
        pending ← u256_add (rw_balance info) (product / ACC_PRECISION);
        into_u128 pending
      else into_u128 (rw_balance info)
    else into_u128 (rw_balance info)
  else into_u128 (rw_balance info).

(** ** Funds at the guard *)

Definition policy_subject (mode : RecoveryMode) (originator receiver : Address) : Address :=
  match mode with Originator => originator | Receiver | ThirdParty => receiver end.
Definition is_reroute (mode : RecoveryMode) (to receiver : Address) : bool :=
  match mode with Originator => true | Receiver | ThirdParty => bool_decide (to <> receiver) end.
Definition spending_account (mode : RecoveryMode) (recovery_authority : Address) : option Address :=
  match mode with Originator | Receiver => Some recovery_authority | ThirdParty => None end.

Definition release_blocked_funds (originator receiver to : Address) (amount : U256) (mode : RecoveryMode) (recovery_authority : Address) : M unit :=
  _ ← token_not_paused token;
  destination ← recipient_resolve to;
  _ ← recipient_validate destination;
  _ ← (if is_reroute mode to receiver then
         let subject := policy_subject mode originator receiver in
         _ ← token_transfer_authorized token subject (r_target destination);
         _ ← ensure_receive_policy_authorized token subject (r_target destination);
         match spending_account mode recovery_authority with
         | Some account => authorize_transfer account token amount
         | None => mret tt
         end
       else ensure_authorized_as token [(r_target destination, role_recipient)]);
  _ ← transfer_to token RECEIVE_POLICY_GUARD_ADDRESS destination amount;
  emit_virtual_hop token destination amount.
End operations.

(** ** Receipts *)

Definition recovery_from (receipt : ClaimReceipt) (receiver : Address) : RecoveryMode :=
  if decide (cr_recovery_authority receipt = 0) then Originator
  else if decide (cr_recovery_authority receipt = receiver) then Receiver
  else ThirdParty.

Definition authority (mode : RecoveryMode) (receipt : ClaimReceipt) : Address :=
  match mode with Originator => cr_originator receipt | Receiver | ThirdParty => cr_recovery_authority receipt end.

Definition decode_receipt (receipt : bytes) : M ClaimReceipt := ok_or err_invalid_receipt (receipt_decode receipt).

(** Any error of [resolve_recipient] becomes [InvalidClaimAddress]. *)
Definition resolve_receipt (receipt : bytes) : M (ClaimReceipt * Address * RecoveryMode) :=
  receipt ← decode_receipt receipt;
  r ← try (resolve_recipient (cr_recipient receipt));
  match r with
  | inl receiver => mret (receipt, receiver, recovery_from receipt receiver)
  | inr _ => throw err_invalid_claim_address
  end.

Definition guard_balance_of (receipt : bytes) : M U256 :=
  receipt ← decode_receipt receipt;
  h_read PU256 (guard_balance (receipt_key receipt)).

(** The words the events of a receipt share. *)
Definition receipt_words (receipt : ClaimReceipt) (receiver caller : Address) : list LogArg :=
  [Word (cr_token receipt); Word receiver; Word (cr_blocked_nonce receipt); Word (cr_blocked_at receipt); Word (cr_version receipt);
   Word (cr_originator receipt); Word (cr_recipient receipt); Word (cr_recovery_authority receipt); Word caller].

Definition claim (msg_sender to : Address) (receipt : bytes) : M unit :=
  if decide (to = RECEIVE_POLICY_GUARD_ADDRESS) then throw err_invalid_claim_address
  else
    '(receipt, receiver, mode) ← resolve_receipt receipt;
    let recovery_authority := authority mode receipt in
    if decide (msg_sender <> recovery_authority) then throw err_unauthorized_claimer
    else
      let key := receipt_key receipt in
      amount ← h_read PU256 (guard_balance key);
      if decide (amount = 0) then throw err_invalid_receipt
      else
        _ ← h_write PU256 (guard_balance key) 0;
        _ ← token_from_address (cr_token receipt);
        _ ← release_blocked_funds (cr_token receipt) (cr_originator receipt) receiver to amount mode recovery_authority;
        guard_emit "ReceiptClaimed" (receipt_words receipt receiver msg_sender ++ [Word to; Word amount]).

Definition burn_blocked_receipt (msg_sender : Address) (receipt : bytes) : M unit :=
  '(receipt, receiver, mode) ← resolve_receipt receipt;
  let key := receipt_key receipt in
  amount ← h_read PU256 (guard_balance key);
  if decide (amount = 0) then throw err_invalid_receipt
  else
    let owner := policy_subject mode (cr_originator receipt) receiver in
    _ ← token_from_address (cr_token receipt);
    _ ← burn_blocked_internal (cr_token receipt) msg_sender owner amount false;
    _ ← h_write PU256 (guard_balance key) 0;
    guard_emit "ReceiptBurned" (receipt_words receipt receiver msg_sender ++ [Word amount]).

(** ** The factory *)

Definition compute_tip20_address (sender : Address) (salt : B256) : Address * u64 :=
  let lower_bytes := be_slice (keccak256 (abi_words [sender; salt])) 0 8 in
  (TIP20_TOKEN_PREFIX * 2 ^ 64 + lower_bytes, lower_bytes).

Definition get_token_address (sender : Address) (salt : B256) : M Address :=
  let '(address, lower_bytes) := compute_tip20_address sender salt in
  if decide (lower_bytes < RESERVED_SIZE) then throw err_address_reserved else mret address.

Definition require_usd_quote (currency_ : bytes) (quote : Address) : M unit :=
  if decide (currency_ = USD) then
    _ ← token_from_address quote;
    theirs ← currency quote;
    if decide (theirs <> USD) then throw err_invalid_quote_token else mret tt
  else mret tt.

Definition token_created (token : Address) (name_ symbol currency_ : bytes) (quote admin : Address) (salt : B256) : M unit :=
  emit_event TIP20_FACTORY_ADDRESS
    (mkLog "TokenCreated" [Word token; Text name_; Text symbol; Text currency_; Word quote; Word admin; Word salt]).

Definition create_token (sender : Address) (name_ symbol currency_ : bytes) (quote admin : Address) (salt : B256) : M Address :=
  let '(token, lower_bytes) := compute_tip20_address sender salt in
  exists_ ← factory_is_tip20 token;
  if exists_ : bool then throw (err_token_already_exists token)
  else
    known ← factory_is_tip20 quote;
    if negb known then throw err_invalid_quote_token
    else
      _ ← require_usd_quote currency_ quote;
      if decide (lower_bytes < RESERVED_SIZE) then throw err_address_reserved
      else
        _ ← token_from_address token;
        _ ← initialize token sender name_ symbol currency_ quote admin;
        _ ← token_created token name_ symbol currency_ quote admin salt;
        mret token.

Definition create_token_with_logo (sender : Address) (name_ symbol currency_ : bytes) (quote admin : Address) (salt : B256) (logo : bytes) : M Address :=
  _ ← when (bool_decide (logo <> [])) (validate_logo_uri logo);
  token ← create_token sender name_ symbol currency_ quote admin salt;
  _ ← when (bool_decide (logo <> [])) (_ ← token_from_address token; write_logo_uri token sender logo);
  mret token.

Definition create_token_reserved_address (address : Address) (name_ symbol currency_ : bytes) (quote admin : Address) : M Address :=
  if negb (has_tip20_prefix address) then throw err_invalid_token_address
  else
    exists_ ← factory_is_tip20 address;
    if exists_ : bool then throw (err_token_already_exists address)
    else
      _ ← (if decide (quote = 0) then mret tt
           else
             known ← (if decide (address = PATH_USD_ADDRESS) then mret false else factory_is_tip20 quote);
             if negb known then throw err_invalid_quote_token else require_usd_quote currency_ quote);
      if decide (RESERVED_SIZE <= address mod 2 ^ 64) then throw err_address_not_reserved
      else
        _ ← token_from_address address;
        _ ← initialize address admin name_ symbol currency_ quote admin;
        _ ← token_created address name_ symbol currency_ quote admin 0;
        mret address.

(** [validate_usd_currency] of fee_manager.rs. *)
Definition token_validate_usd (token : Address) : M unit :=
  _ ← token_from_address token;
  theirs ← currency token;
  if decide (theirs <> USD) then throw err_invalid_currency else mret tt.

(** [migrate_transfer_policy_ids] of tip403_registry.rs; the count does not pass
    the number of tokens of a call. *)
Fixpoint migrate_transfer_policy_ids (tokens : list Address) (migrated : U256) : M U256 :=
  match tokens with
  | [] => mret migrated
  | token :: rest =>
      known ← factory_is_tip20 token;
      bound ← (if known : bool then registered_token_transfer_policy_id token else mret None);
      if negb known || bool_decide (is_Some bound) then migrate_transfer_policy_ids rest migrated
      else
        _ ← token_from_address token;
        policy_id ← legacy_transfer_policy_id token;
        _ ← set_token_transfer_policy token policy_id;
        _ ← h_delete PU64 (transfer_policy_handle token);
        migrate_transfer_policy_ids rest (migrated + 1)
  end.

(** [token_transfer_policy_id] of tip403_registry.rs. *)
Definition registry_token_policy (token : Address) : M (bool * u64) :=
  known ← factory_is_tip20 token;
  if negb known then throw err_invalid_token_address
  else
    registered ← registered_token_transfer_policy_id token;
    policy_id ← match registered with Some policy_id => mret policy_id | None => _ ← token_from_address token; legacy_transfer_policy_id token end;
    mret (bool_decide (is_Some registered), policy_id).
End tip20.
