(* ===== verification/DexTypes.v ===== *)
(** * The stablecoin exchange: prices, orders and their layouts

    crates/leafage-evm-chains/src/tempo/precompile/stablecoin_dex.rs: the
    conversions between base and quote amounts at a tick, orders and price
    levels, and the three ways an order is laid out in storage words. *)

From stdpp Require Import prelude gmap list strings.
From S2P Require Import Prelude TempoEvm.

#[local] Open Scope Z_scope.

Definition MIN_ORDER_AMOUNT : u128 := 100000000.
Definition TICK_SPACING : i16 := 10.
Definition MIN_TICK : i16 := -2000.
Definition MAX_TICK : i16 := 2000.
Definition PRICE_SCALE : Z := 100000.
Definition MIN_PRICE : Z := 98000.
Definition MAX_PRICE : Z := 102000.

Definition err_order_does_not_exist := Revert "OrderDoesNotExist" [].
Definition err_unauthorized := Revert "Unauthorized" [].
Definition err_insufficient_balance := Revert "InsufficientBalance" [].
Definition err_insufficient_liquidity := Revert "InsufficientLiquidity" [].
Definition err_insufficient_output := Revert "InsufficientOutput" [].
Definition err_max_input_exceeded := Revert "MaxInputExceeded" [].
Definition err_invalid_base_token := Revert "InvalidBaseToken" [].
Definition err_invalid_token := Revert "InvalidToken" [].
Definition err_pair_already_exists := Revert "PairAlreadyExists" [].
Definition err_pair_does_not_exist := Revert "PairDoesNotExist" [].
Definition err_tick_out_of_bounds (tick : i16) := Revert "TickOutOfBounds" [tick].
Definition err_invalid_tick := Revert "InvalidTick" [].
Definition err_invalid_flip_tick := Revert "InvalidFlipTick" [].
Definition err_below_minimum_order_size (amount : u128) := Revert "BelowMinimumOrderSize" [amount].
Definition err_identical_tokens := Revert "IdenticalTokens" [].
Definition err_order_not_stale := Revert "OrderNotStale" [].
Definition err_index_already_set := Revert "IndexAlreadySet" [].

(** ** Prices *)

Inductive RoundingDirection := Down | Up.

(** [(PRICE_SCALE as i32 + tick as i32) as u32]. *)
Definition tick_to_price (tick : i16) : Z := (PRICE_SCALE + tick) mod 2 ^ 32.

Definition div_ceil_u256 (a b : Z) : Z := (a + b - 1) / b.

(** [U256] to [u128]. *)
Definition to_u128 (x : Z) : option u128 := if decide (x <= u128_max) then Some x else None.

Definition base_to_quote (base_amount : u128) (tick : i16) (rounding : RoundingDirection) : option u128 :=
  let numerator := base_amount * tick_to_price tick in
  to_u128 (match rounding with Down => numerator / PRICE_SCALE | Up => div_ceil_u256 numerator PRICE_SCALE end).

Definition quote_to_base (quote_amount : u128) (tick : i16) (rounding : RoundingDirection) : option u128 :=
  let numerator := quote_amount * PRICE_SCALE in
  to_u128 (match rounding with Down => numerator / tick_to_price tick | Up => div_ceil_u256 numerator (tick_to_price tick) end).

Definition price_to_tick (price : Z) : M i16 :=
  if decide (MIN_PRICE <= price <= MAX_PRICE) then mret (price - PRICE_SCALE)
  else throw (err_tick_out_of_bounds (i16_of_u16 ((price - PRICE_SCALE) mod 2 ^ 16))).

Definition validate_tick_spacing (tick : i16) : M unit :=
  if decide (Z.rem tick TICK_SPACING <> 0) then throw err_invalid_tick else mret tt.

Definition compute_book_key `{Keccak} (base quote : Address) : B256 := keccak256 (be_bytes 20 base ++ be_bytes 20 quote).

(** ** Price levels and orders *)

Record TickLevel := mkLevel {
  tl_head : u128;
  tl_tail : u128;
  tl_total_liquidity : u128;
}.

Record Order := mkOrder {
  o_order_id : u128;
  o_maker : Address;
  o_book_key : B256;
  o_is_bid : bool;
  o_tick : i16;
  o_amount : u128;
  o_remaining : u128;
  o_prev : u128;
  o_next : u128;
  o_is_flip : bool;
  o_flip_tick : i16;
}.

Definition new_bid (order_id : u128) (maker : Address) (book_key : B256) (amount : u128) (tick : i16) : Order :=
  mkOrder order_id maker book_key true tick amount amount 0 0 false 0.

Definition new_ask (order_id : u128) (maker : Address) (book_key : B256) (amount : u128) (tick : i16) : Order :=
  mkOrder order_id maker book_key false tick amount amount 0 0 false 0.

Definition invalid_flip `{TempoSpec} (tick : i16) (is_bid : bool) (flip_tick : i16) : bool :=
  if is_bid then bool_decide (flip_tick < tick) || (negb is_t5 && bool_decide (flip_tick = tick))
  else bool_decide (tick < flip_tick) || (negb is_t5 && bool_decide (flip_tick = tick)).

Definition new_flip `{TempoSpec} (order_id : u128) (maker : Address) (book_key : B256) (amount : u128) (tick : i16)
    (is_bid : bool) (flip_tick : i16) : M Order :=
  if invalid_flip tick is_bid flip_tick then throw err_invalid_flip_tick
  else mret (mkOrder order_id maker book_key is_bid tick amount amount 0 0 true flip_tick).

Definition create_flipped_order (o : Order) (new_order_id : u128) : Order :=
  mkOrder new_order_id (o_maker o) (o_book_key o) (negb (o_is_bid o)) (o_flip_tick o) (o_amount o) (o_amount o) 0 0
    true (o_tick o).

Definition set_prev (o : Order) (prev : u128) : Order :=
  mkOrder (o_order_id o) (o_maker o) (o_book_key o) (o_is_bid o) (o_tick o) (o_amount o) (o_remaining o) prev
    (o_next o) (o_is_flip o) (o_flip_tick o).

Definition set_next (o : Order) (next : u128) : Order :=
  mkOrder (o_order_id o) (o_maker o) (o_book_key o) (o_is_bid o) (o_tick o) (o_amount o) (o_remaining o) (o_prev o)
    next (o_is_flip o) (o_flip_tick o).

Definition set_remaining (o : Order) (remaining : u128) : Order :=
  mkOrder (o_order_id o) (o_maker o) (o_book_key o) (o_is_bid o) (o_tick o) (o_amount o) remaining (o_prev o)
    (o_next o) (o_is_flip o) (o_flip_tick o).

(** ** A trade across one order *)

Record OrderStep := mkStep {
  st_fill_amount : u128;
  st_accumulate : u128;
  st_next_amount : u128;
}.

Definition taker_output (fill_amount : u128) (tick : i16) (is_bid : bool) : option u128 :=
  if is_bid then base_to_quote fill_amount tick Down else Some fill_amount.

Definition step_exact_in (amount_in : u128) (order : Order) (is_bid : bool) : option OrderStep :=
  let remaining := o_remaining order in
  let tick := o_tick order in
  '(fill_amount, next_amount) ←
    (if is_bid then Some (Z.min amount_in remaining, saturating_sub amount_in remaining)
     else
       base_out ← quote_to_base amount_in tick Down;
       next_amount ←
         (if decide (remaining < base_out) then
            quote_needed ← base_to_quote remaining tick Up;
            checked_sub amount_in quote_needed
          else Some 0);
       Some (Z.min base_out remaining, next_amount));
  accumulate ← taker_output fill_amount tick (o_is_bid order);
  Some (mkStep fill_amount accumulate next_amount).

Definition step_exact_out (amount_out : u128) (order : Order) (is_bid : bool) : option OrderStep :=
  let remaining := o_remaining order in
  let tick := o_tick order in
  '(fill_amount, accumulate, demand) ←
    (if is_bid then
       base_needed ← quote_to_base amount_out tick Up;
       let fill_amount := Z.min base_needed remaining in
       Some (fill_amount, fill_amount, base_needed)
     else
       let fill_amount := Z.min amount_out remaining in
       amount_in ← base_to_quote fill_amount tick Up;
       Some (fill_amount, amount_in, amount_out));
  next_amount ←
    (if decide (remaining < demand) then
       amount_out_received ← taker_output remaining tick (o_is_bid order);
       checked_sub amount_out amount_out_received
     else Some 0);
  Some (mkStep fill_amount accumulate next_amount).

(** ** Layouts *)

Inductive OrderVersion := Legacy | V1 | V2.

Definition order_version_of (slot0 : U256) : M OrderVersion :=
  version ← extract_from_word PU8 slot0 31;
  if decide (version = 0) then mret Legacy
  else if decide (version = 1) then mret V1
  else if decide (version = 2) then mret V2
  else throw (Fatal "unknown stablecoin DEX order storage version").

Definition u8_of_version (v : OrderVersion) : Z := match v with Legacy => 0 | V1 => 1 | V2 => 2 end.

(** [OrderFlags]. *)
Definition IS_BID : Z := 1.
Definition IS_FLIP : Z := 2.

Definition bool_u8 (b : bool) : Z := if b then 1 else 0.

Definition pack_flags (o : Order) : Z := Z.lor (bool_u8 (o_is_bid o) * IS_BID) (bool_u8 (o_is_flip o) * IS_FLIP).
Definition flags_is_bid (metadata : Z) : bool := bool_decide (Z.land metadata IS_BID <> 0).
Definition flags_is_flip (metadata : Z) : bool := bool_decide (Z.land metadata IS_FLIP <> 0).

Definition LEGACY_MAKER_LOC := mkLoc 1 0 20.
Definition LEGACY_REMAINING_LOC := mkLoc 4 0 16.
Definition LEGACY_PREV_LOC := mkLoc 4 16 16.
Definition LEGACY_NEXT_LOC := mkLoc 5 0 16.
Definition COMPACT_MAKER_LOC := mkLoc 0 0 20.
Definition COMPACT_REMAINING_LOC := mkLoc 1 16 16.
Definition COMPACT_PREV_LOC := mkLoc 2 0 16.
Definition COMPACT_NEXT_LOC := mkLoc 2 16 16.

Definition version_slots (v : OrderVersion) : Z := match v with Legacy => 6 | V1 => 4 | V2 => 3 end.

Record V1Order := mkV1 {
  v1_maker : Address;
  v1_metadata : Z;
  v1_tick : i16;
  v1_flip_tick : i16;
  v1_amount : u128;
  v1_remaining : u128;
  v1_prev : u128;
  v1_next : u128;
  v1_book_key : B256;
}.

Definition v1_from_order (o : Order) : V1Order :=
  mkV1 (o_maker o) (pack_flags o) (o_tick o) (o_flip_tick o) (o_amount o) (o_remaining o) (o_prev o) (o_next o) (o_book_key o).

Definition v1_into_order (v : V1Order) (order_id : u128) : Order :=
  mkOrder order_id (v1_maker v) (v1_book_key v) (flags_is_bid (v1_metadata v)) (v1_tick v) (v1_amount v) (v1_remaining v)
    (v1_prev v) (v1_next v) (flags_is_flip (v1_metadata v)) (v1_flip_tick v).

Record V2Order := mkV2 {
  v2_maker : Address;
  v2_metadata : Z;
  v2_tick : i16;
  v2_flip_tick : i16;
  v2_book_index : Z;
  v2_amount : u128;
  v2_remaining : u128;
  v2_prev : u128;
  v2_next : u128;
}.

Definition v2_from_order (o : Order) (book_index : Z) : V2Order :=
  mkV2 (o_maker o) (pack_flags o) (o_tick o) (o_flip_tick o) book_index (o_amount o) (o_remaining o) (o_prev o) (o_next o).

Definition v2_into_order (v : V2Order) (order_id : u128) (book_key : B256) : Order :=
  mkOrder order_id (v2_maker v) book_key (flags_is_bid (v2_metadata v)) (v2_tick v) (v2_amount v) (v2_remaining v)
    (v2_prev v) (v2_next v) (flags_is_flip (v2_metadata v)) (v2_flip_tick v).

(** [BookId]: an index plus one, zero before a book has one. *)
Definition book_id_from_index (index : Z) : Z := index + 1.
Definition book_id_index (id : Z) : option Z := if decide (1 <= id) then Some (id - 1) else None.

Record OrderbookData := mkBookData {
  bd_base : Address;
  bd_quote : Address;
  bd_best_bid_tick : i16;
  bd_best_ask_tick : i16;
  bd_book_id : Z;
}.

Definition new_book (base quote : Address) : OrderbookData := mkBookData base quote i16_min i16_max 0.
Definition new_book_with_index (base quote : Address) (index : Z) : OrderbookData :=
  mkBookData base quote i16_min i16_max (book_id_from_index index).
Definition book_initialized (b : OrderbookData) : bool := bool_decide (bd_base b <> 0).
