(* ===== verification/DexBook.v ===== *)
(** * The stablecoin exchange: orders and books in storage

    stablecoin_dex.rs: loading and storing orders in their three layouts
    ([Order], [V1Order], [V2Order], [OrderHandler]), price levels, the data of
    a book, its bitmaps of ticks and the search for the next initialized tick
    ([OrderbookHandle]). *)

From stdpp Require Import prelude gmap list strings.
From S2P Require Import Prelude TempoEvm DexTypes.

#[local] Open Scope Z_scope.

Section handles.
Context `{TempoSpec} `{TempoAddresses}.

(** Words of the exchange. *)
Definition dex_load (slot : Slot) : M U256 := sload STABLECOIN_DEX_ADDRESS slot.
Definition dex_store (slot : Slot) (value : U256) : M unit := sstore STABLECOIN_DEX_ADDRESS slot value.

(** From T4 on a word is written from zero, before over what it held. *)
Definition word_to_fill (slot : Slot) : M U256 := if is_t4 then mret 0 else dex_load slot.

(** ** Price levels *)

Definition level_load (slot : Slot) : M TickLevel :=
  word0 ← dex_load slot;
  let head := be_slice word0 16 32 in
  let tail := be_slice word0 0 16 in
  if is_t12 then mret (mkLevel head tail 0)
  else
    word1 ← dex_load (slot_add slot 1);
    mret (mkLevel head tail (be_slice word1 16 32)).

Definition level_store (level : TickLevel) (slot : Slot) : M unit :=
  bytes0 ← word_to_fill slot;
  let bytes0 := copy_be bytes0 16 32 (tl_head level) in
  let bytes0 := copy_be bytes0 0 16 (tl_tail level) in
  _ ← dex_store slot bytes0;
  if is_t12 then mret tt
  else
    bytes1 ← word_to_fill (slot_add slot 1);
    dex_store (slot_add slot 1) (copy_be bytes1 16 32 (tl_total_liquidity level)).

Definition level_delete (slot : Slot) : M unit :=
  _ ← dex_store slot 0;
  when (negb is_t12) (dex_store (slot_add slot 1) 0).

(** ** The layouts of an order *)

Definition order_load (slot : Slot) : M Order :=
  w0 ← dex_load slot;
  w1 ← dex_load (slot_add slot 1);
  w2 ← dex_load (slot_add slot 2);
  w3 ← dex_load (slot_add slot 3);
  w4 ← dex_load (slot_add slot 4);
  w5 ← dex_load (slot_add slot 5);
  mret (mkOrder (be_slice w0 16 32) (be_slice w1 12 32) w2 (bool_decide (be_slice w3 31 32 <> 0))
    (i16_of_u16 (be_slice w3 29 31)) (be_slice w3 13 29) (be_slice w4 16 32) (be_slice w4 0 16)
    (be_slice w5 16 32) (bool_decide (be_slice w5 15 16 <> 0)) (i16_of_u16 (be_slice w5 13 15))).

Definition order_store (o : Order) (slot : Slot) : M unit :=
  b0 ← word_to_fill slot;
  _ ← dex_store slot (copy_be b0 16 32 (o_order_id o));
  b1 ← word_to_fill (slot_add slot 1);
  _ ← dex_store (slot_add slot 1) (copy_be b1 12 32 (o_maker o));
  _ ← dex_store (slot_add slot 2) (o_book_key o);
  b3 ← word_to_fill (slot_add slot 3);
  let b3 := copy_be b3 31 32 (bool_u8 (o_is_bid o)) in
  let b3 := copy_be b3 29 31 (u16_of_i16 (o_tick o)) in
  let b3 := copy_be b3 13 29 (o_amount o) in
  _ ← dex_store (slot_add slot 3) b3;
  b4 ← word_to_fill (slot_add slot 4);
  let b4 := copy_be b4 16 32 (o_remaining o) in
  let b4 := copy_be b4 0 16 (o_prev o) in
  _ ← dex_store (slot_add slot 4) b4;
  b5 ← word_to_fill (slot_add slot 5);
  let b5 := copy_be b5 16 32 (o_next o) in
  let b5 := copy_be b5 15 16 (bool_u8 (o_is_flip o)) in
  let b5 := copy_be b5 13 15 (u16_of_i16 (o_flip_tick o)) in
  dex_store (slot_add slot 5) b5.

Definition v1_load (slot : Slot) : M V1Order :=
  word0 ← dex_load slot;
  word1 ← dex_load (slot_add slot 1);
  word2 ← dex_load (slot_add slot 2);
  word3 ← dex_load (slot_add slot 3);
  maker ← extract_from_word PAddress word0 0;
  metadata ← extract_from_word PU8 word0 20;
  tick ← extract_from_word PI16 word0 21;
  flip_tick ← extract_from_word PI16 word0 23;
  amount ← extract_from_word PU128 word1 0;
  remaining ← extract_from_word PU128 word1 16;
  prev ← extract_from_word PU128 word2 0;
  next ← extract_from_word PU128 word2 16;
  mret (mkV1 maker metadata tick flip_tick amount remaining prev next word3).

Definition v1_store (v : V1Order) (slot : Slot) : M unit :=
  word0 ← insert_into_word PAddress 0 (v1_maker v) 0;
  word0 ← insert_into_word PU8 word0 (v1_metadata v) 20;
  word0 ← insert_into_word PI16 word0 (v1_tick v) 21;
  word0 ← insert_into_word PI16 word0 (v1_flip_tick v) 23;
  word0 ← insert_into_word PU8 word0 (u8_of_version V1) 31;
  _ ← dex_store slot word0;
  word1 ← insert_into_word PU128 0 (v1_amount v) 0;
  word1 ← insert_into_word PU128 word1 (v1_remaining v) 16;
  _ ← dex_store (slot_add slot 1) word1;
  word2 ← insert_into_word PU128 0 (v1_prev v) 0;
  word2 ← insert_into_word PU128 word2 (v1_next v) 16;
  _ ← dex_store (slot_add slot 2) word2;
  dex_store (slot_add slot 3) (v1_book_key v).

Definition v2_load (slot : Slot) : M V2Order :=
  word0 ← dex_load slot;
  word1 ← dex_load (slot_add slot 1);
  word2 ← dex_load (slot_add slot 2);
  maker ← extract_from_word PAddress word0 0;
  metadata ← extract_from_word PU8 word0 20;
  tick ← extract_from_word PI16 word0 21;
  flip_tick ← extract_from_word PI16 word0 23;
  book_index ← extract_from_word PU32 word0 25;
  amount ← extract_from_word PU128 word1 0;
  remaining ← extract_from_word PU128 word1 16;
  prev ← extract_from_word PU128 word2 0;
  next ← extract_from_word PU128 word2 16;
  mret (mkV2 maker metadata tick flip_tick book_index amount remaining prev next).

Definition v2_store (v : V2Order) (slot : Slot) : M unit :=
  word0 ← insert_into_word PAddress 0 (v2_maker v) 0;
  word0 ← insert_into_word PU8 word0 (v2_metadata v) 20;
  word0 ← insert_into_word PI16 word0 (v2_tick v) 21;
  word0 ← insert_into_word PI16 word0 (v2_flip_tick v) 23;
  word0 ← insert_into_word PU32 word0 (v2_book_index v) 25;
  word0 ← insert_into_word PU8 word0 (u8_of_version V2) 31;
  _ ← dex_store slot word0;
  word1 ← insert_into_word PU128 0 (v2_amount v) 0;
  word1 ← insert_into_word PU128 word1 (v2_remaining v) 16;
  _ ← dex_store (slot_add slot 1) word1;
  word2 ← insert_into_word PU128 0 (v2_prev v) 0;
  word2 ← insert_into_word PU128 word2 (v2_next v) 16;
  dex_store (slot_add slot 2) word2.

(** ** The data of a book *)

Definition BOOKS : Slot := At 0.
Definition BOOK_KEYS : Slot := At 4.

Definition book_slot (pair_key : B256) : Slot := mapping_slot pair_key BOOKS.

Definition read_data (slot : Slot) : M OrderbookData :=
  w0 ← dex_load slot;
  w1 ← dex_load (slot_add slot 1);
  w4 ← dex_load (slot_add slot 4);
  mret (mkBookData (be_slice w0 12 32) (be_slice w1 12 32) (i16_of_u16 (be_slice w4 30 32))
    (i16_of_u16 (be_slice w4 28 30)) (be_slice w4 24 28)).

Definition write_data (slot : Slot) (data : OrderbookData) : M unit :=
  b0 ← word_to_fill slot;
  _ ← dex_store slot (copy_be b0 12 32 (bd_base data));
  b1 ← word_to_fill (slot_add slot 1);
  _ ← dex_store (slot_add slot 1) (copy_be b1 12 32 (bd_quote data));
  b4 ← word_to_fill (slot_add slot 4);
  let b4 := copy_be b4 30 32 (u16_of_i16 (bd_best_bid_tick data)) in
  let b4 := copy_be b4 28 30 (u16_of_i16 (bd_best_ask_tick data)) in
  dex_store (slot_add slot 4) (copy_be b4 24 28 (bd_book_id data)).

Definition write_best_bid_tick (slot : Slot) (tick : i16) : M unit :=
  current ← dex_load (slot_add slot 4);
  updated ← insert_into_word PI16 current tick 0;
  dex_store (slot_add slot 4) updated.

Definition write_best_ask_tick (slot : Slot) (tick : i16) : M unit :=
  current ← dex_load (slot_add slot 4);
  updated ← insert_into_word PI16 current tick 2;
  dex_store (slot_add slot 4) updated.

Definition write_book_id (slot : Slot) (book_id : Z) : M unit :=
  current ← dex_load (slot_add slot 4);
  updated ← insert_into_word PU32 current book_id 4;
  dex_store (slot_add slot 4) updated.

(** [bids] and [asks], keyed by the two bytes of a tick. *)
Definition level_slot (book : Slot) (tick : i16) (is_bid : bool) : Slot :=
  mapping_slot (u16_of_i16 tick) (slot_add book (if is_bid then 2 else 3)).

Definition read_tick_level (book : Slot) (tick : i16) (is_bid : bool) : M TickLevel := level_load (level_slot book tick is_bid).
Definition write_tick_level (book : Slot) (tick : i16) (is_bid : bool) (level : TickLevel) : M unit :=
  level_store level (level_slot book tick is_bid).
Definition delete_tick_level (book : Slot) (tick : i16) (is_bid : bool) : M unit := level_delete (level_slot book tick is_bid).

(** ** Bitmaps *)

Definition bitmap_slot (book : Slot) (word_index : i16) (is_bid : bool) : Slot :=
  mapping_slot (u16_of_i16 word_index) (slot_add book (if is_bid then 5 else 6)).

Definition set_tick_bit (book : Slot) (tick : i16) (is_bid : bool) : M unit :=
  let word_index := Z.shiftr tick 8 in
  current ← dex_load (bitmap_slot book word_index is_bid);
  let bit_index := Z.land tick 255 in
  dex_store (bitmap_slot book word_index is_bid) (Z.lor current (Z.shiftl 1 bit_index)).

Definition delete_tick_bit (book : Slot) (tick : i16) (is_bid : bool) : M unit :=
  let word_index := Z.shiftr tick 8 in
  current ← dex_load (bitmap_slot book word_index is_bid);
  let bit_index := Z.land tick 255 in
  dex_store (bitmap_slot book word_index is_bid) (Z.ldiff current (Z.shiftl 1 bit_index)).

(** [trailing_zeros] of a non-zero word, by halving. *)
Fixpoint trailing_zeros_pos (p : positive) : Z :=
  match p with
  | xO p => 1 + trailing_zeros_pos p
  | _ => 0
  end.

Definition trailing_zeros (w : U256) : Z := match w with Zpos p => trailing_zeros_pos p | _ => 256 end.

Definition leading_zeros (w : U256) : Z := if decide (w <= 0) then 256 else 255 - Z.log2 w.

(** The loop over the words of the bitmap: at most 256 of them, the range of
    [word_index]. *)
Fixpoint search_ask (fuel : nat) (book : Slot) (next_tick : i16) : M (i16 * bool) :=
  match fuel with
  | O => fun s => (Panic, s)
  | S fuel =>
      let max_word_index := Z.shiftr MAX_TICK 8 in
      let word_index := Z.shiftr next_tick 8 in
      if decide (max_word_index < word_index) then mret (next_tick, false)
      else
        let bit_index := Z.land next_tick 255 in
        word ← dex_load (bitmap_slot book word_index false);
        let mask := if decide (bit_index = 0) then u256_max else Z.shiftl u256_max bit_index mod 2 ^ 256 in
        let masked_word := Z.land word mask in
        if decide (masked_word <> 0) then
          let found_tick := Z.lor (Z.shiftl word_index 8) (trailing_zeros masked_word) in
          mret (found_tick, bool_decide (found_tick <= MAX_TICK))
        else
          let next_word_index := word_index + 1 in
          if decide (max_word_index < next_word_index) then mret (Z.shiftl next_word_index 8, false)
          else search_ask fuel book (Z.shiftl next_word_index 8)
  end.

Definition next_initialized_ask_tick (book : Slot) (tick : i16) : M (i16 * bool) :=
  if decide (MAX_TICK <= tick) then mret (MAX_TICK, false) else search_ask 256 book (tick + 1).

Fixpoint search_bid (fuel : nat) (book : Slot) (next_tick : i16) : M (i16 * bool) :=
  match fuel with
  | O => fun s => (Panic, s)
  | S fuel =>
      let min_word_index := Z.shiftr MIN_TICK 8 in
      let word_index := Z.shiftr next_tick 8 in
      if decide (word_index < min_word_index) then mret (next_tick, false)
      else
        let bit_index := Z.land next_tick 255 in
        word ← dex_load (bitmap_slot book word_index true);
        let mask := if decide (bit_index = 255) then u256_max else Z.shiftr u256_max (255 - bit_index) in
        let masked_word := Z.land word mask in
        if decide (masked_word <> 0) then
          let highest_bit := 255 - leading_zeros masked_word in
          let found_tick := Z.lor (Z.shiftl word_index 8) highest_bit in
          mret (found_tick, bool_decide (MIN_TICK <= found_tick))
        else
          let prev_word_index := word_index - 1 in
          if decide (prev_word_index < min_word_index) then mret (Z.lor (Z.shiftl prev_word_index 8) 255, false)
          else search_bid fuel book (Z.lor (Z.shiftl prev_word_index 8) 255)
  end.

Definition next_initialized_bid_tick (book : Slot) (tick : i16) : M (i16 * bool) :=
  if decide (tick <= MIN_TICK) then mret (MIN_TICK, false) else search_bid 256 book (tick - 1).

Definition next_initialized_tick (book : Slot) (tick : i16) (is_bid : bool) : M (i16 * bool) :=
  if is_bid then next_initialized_bid_tick book tick else next_initialized_ask_tick book tick.

(** ** Orders by id *)

Definition ORDERS : Slot := At 1.

Definition order_slot (order_id : u128) : Slot := mapping_slot order_id ORDERS.

Definition order_version_and_slot (order_id : u128) : M (OrderVersion * option U256) :=
  if is_t8 then
    slot0 ← dex_load (order_slot order_id);
    version ← order_version_of slot0;
    mret (version, Some slot0)
  else mret (Legacy, None).

Definition order_version (order_id : u128) : M OrderVersion :=
  v ← order_version_and_slot order_id; mret v.1.

Definition order_maker (order_id : u128) : M Address :=
  '(version, slot0) ← order_version_and_slot order_id;
  let loc := match version with Legacy => LEGACY_MAKER_LOC | _ => COMPACT_MAKER_LOC end in
  match slot0 with
  | Some slot0 =>
      if decide (loc_slots loc = 0) then extract_from_word PAddress slot0 (loc_bytes loc)
      else h_read PAddress (new_at_loc (order_slot order_id) loc STABLECOIN_DEX_ADDRESS)
  | None => h_read PAddress (new_at_loc (order_slot order_id) loc STABLECOIN_DEX_ADDRESS)
  end.

Definition u128_field (order_id : u128) (legacy compact : FieldLocation) : M Handle :=
  version ← order_version order_id;
  mret (new_at_loc (order_slot order_id) (match version with Legacy => legacy | _ => compact end) STABLECOIN_DEX_ADDRESS).

Definition order_remaining (order_id : u128) : M Handle := u128_field order_id LEGACY_REMAINING_LOC COMPACT_REMAINING_LOC.
Definition order_prev (order_id : u128) : M Handle := u128_field order_id LEGACY_PREV_LOC COMPACT_PREV_LOC.
Definition order_next (order_id : u128) : M Handle := u128_field order_id LEGACY_NEXT_LOC COMPACT_NEXT_LOC.

(** The book keys, by index. *)
Definition book_key_for_index (index : Z) : M B256 :=
  handle ← vec_at STABLECOIN_DEX_ADDRESS BOOK_KEYS index;
  handle ← ok_or err_pair_does_not_exist handle;
  h_read PU256 handle.

Definition books (pair_key : B256) : M OrderbookData := read_data (book_slot pair_key).

Definition book_key_index (book_key : B256) : M (option Z) :=
  book ← books book_key;
  if book_initialized book then mret (book_id_index (bd_book_id book)) else throw err_pair_does_not_exist.

Definition read_with_book_key (order_id : u128) (known_book : option B256) : M Order :=
  version ← order_version order_id;
  match version with
  | Legacy => order_load (order_slot order_id)
  | V1 => order ← v1_load (order_slot order_id); mret (v1_into_order order order_id)
  | V2 =>
      order ← v2_load (order_slot order_id);
      book_key ← match known_book with Some key => mret key | None => book_key_for_index (v2_book_index order) end;
      mret (v2_into_order order order_id book_key)
  end.

Definition read_in_book (order_id : u128) (book_key : B256) : M Order := read_with_book_key order_id (Some book_key).
Definition order_read (order_id : u128) : M Order := read_with_book_key order_id None.

(** [for offset in from..to]. *)
Definition clear_words (slot : Slot) (from to : Z) : M unit :=
  iterM (fun offset => dex_store (slot_add slot offset) 0) (seqZ from (to - from)).

Definition write_with_book_id (order_id : u128) (value : Order) (known_id : option Z) : M unit :=
  if is_t8 then
    '(old_version, slot0) ← order_version_and_slot order_id;
    book_index ←
      match known_id with
      | Some id => mret (book_id_index id)
      | None => book_key_index (o_book_key value)
      end;
    new_slots ←
      match book_index with
      | Some book_index => _ ← v2_store (v2_from_order value book_index) (order_slot order_id); mret (version_slots V2)
      | None => _ ← v1_store (v1_from_order value) (order_slot order_id); mret (version_slots V1)
      end;
    when (match slot0 with None => true | Some word => bool_decide (word <> 0) end)
      (clear_words (order_slot order_id) new_slots (version_slots old_version))
  else order_store value (order_slot order_id).

Definition write_in_book (order_id : u128) (value : Order) (book_id : Z) : M unit := write_with_book_id order_id value (Some book_id).

Definition order_delete (order_id : u128) : M unit :=
  version ← order_version order_id;
  clear_words (order_slot order_id) 0 (version_slots version).
End handles.
