(* ===== verification/DexCredits.v ===== *)
(** * Packed words, and writes of the exchange with its storage credits

    Reading back what was written into the bytes of a word, and that the other
    bytes are kept. A write of the exchange changes one of its words and, from T7
    on, the credit balance the storage credits contract keeps for it. [step] is
    what any sequence of such writes does to the rest of the state. *)

From stdpp Require Import prelude gmap list strings.
From S2P Require Import Prelude TempoEvm DexTypes DexBook.

#[local] Open Scope Z_scope.

Create HintDb words.

Lemma mask_ones n : 0 <= n <= 32 -> create_element_mask n = Z.ones (n * 8).
Proof.
  intros Hn. unfold create_element_mask. case_decide.
  - assert (n = 32) as -> by lia. done.
  - rewrite Z.ones_equiv, Z.shiftl_1_l. lia.
Qed.

(** A range of bytes of a word. *)
Definition in_word (offset bytes : Z) : Prop := 0 <= offset /\ 0 < bytes /\ offset + bytes <= 32.

Lemma testbit_get w offset bytes i : in_word offset bytes -> 0 <= i ->
  Z.testbit (get_field w offset bytes) i = bool_decide (i < bytes * 8) && Z.testbit w (i + offset * 8).
Proof.
  intros (Ho & Hb & Hs) Hi. unfold get_field. rewrite mask_ones by lia.
  rewrite Z.land_spec, Z.shiftr_spec, Z.testbit_ones by lia. rewrite andb_comm.
  f_equal. destruct (0 <=? i) eqn:?; [|lia]. cbn. destruct (Z.ltb_spec i (bytes * 8)).
  - by rewrite bool_decide_true.
  - by rewrite bool_decide_false by lia.
Qed.

Lemma testbit_set w offset bytes v i : in_word offset bytes -> 0 <= i ->
  Z.testbit (set_field w offset bytes v) i =
    if decide (offset * 8 <= i < (offset + bytes) * 8) then Z.testbit v (i - offset * 8) else Z.testbit w i.
Proof.
  intros (Ho & Hb & Hs) Hi. unfold set_field. rewrite mask_ones by lia.
  rewrite Z.lor_spec, Z.ldiff_spec, !Z.shiftl_spec by lia.
  destruct (decide (i < offset * 8)) as [Hlt|Hge].
  - rewrite !(Z.testbit_neg_r _ (i - offset * 8)) by lia. rewrite decide_False by lia. by rewrite andb_true_r, orb_false_r.
  - rewrite Z.land_spec, Z.testbit_ones by lia. case_decide.
    + replace (0 <=? i - offset * 8) with true by lia. replace (i - offset * 8 <? bytes * 8) with true by lia.
      cbn. by rewrite andb_false_r, andb_true_r.
    + replace (i - offset * 8 <? bytes * 8) with false by lia. cbn. by rewrite !andb_false_r, andb_true_r, orb_false_r.
Qed.

Lemma get_range w offset bytes : in_word offset bytes -> 0 <= get_field w offset bytes < 2 ^ (bytes * 8).
Proof.
  intros (Ho & Hb & Hs). unfold get_field. rewrite mask_ones by lia. rewrite Z.land_ones by lia. apply Z.mod_pos_bound. lia.
Qed.

Lemma get_set_same w offset bytes v : in_word offset bytes -> 0 <= v < 2 ^ (bytes * 8) ->
  get_field (set_field w offset bytes v) offset bytes = v.
Proof.
  intros Hw Hv. pose proof Hw as (? & ? & ?). apply Z.bits_inj'. intros i Hi. rewrite testbit_get by done. case_bool_decide as Hlt; cbn.
  - rewrite testbit_set by (done || lia). rewrite decide_True by lia. f_equal. lia.
  - symmetry. destruct (decide (v = 0)) as [-> |]; [apply Z.bits_0|]. apply Z.bits_above_log2; [lia|].
    apply Z.log2_lt_pow2; [lia|]. eapply Z.lt_le_trans; [apply Hv|]. apply Z.pow_le_mono_r; lia.
Qed.

Lemma get_set_other w offset bytes v offset' bytes' : in_word offset bytes -> in_word offset' bytes' ->
  offset + bytes <= offset' \/ offset' + bytes' <= offset ->
  get_field (set_field w offset bytes v) offset' bytes' = get_field w offset' bytes'.
Proof.
  intros Hw Hw' Hd. pose proof Hw as (? & ? & ?). pose proof Hw' as (? & ? & ?). apply Z.bits_inj'. intros i Hi. rewrite !testbit_get by done.
  case_bool_decide; [|done]. cbn. rewrite testbit_set by (done || lia). by rewrite decide_False by lia.
Qed.

Lemma get_zero offset bytes : get_field 0 offset bytes = 0.
Proof. unfold get_field. by rewrite Z.shiftr_0_l, Z.land_0_l. Qed.

(** A word in range stays in range. *)
Lemma word_bits w n : 0 <= n -> 0 <= w -> (forall i, n <= i -> Z.testbit w i = false) -> w < 2 ^ n.
Proof.
  intros Hn Hw Hb. destruct (decide (w = 0)) as [-> |]; [lia|]. apply Z.log2_lt_pow2; [lia|].
  destruct (decide (Z.log2 w < n)); [done|]. pose proof (Z.bit_log2 w ltac:(lia)) as Hl. by rewrite Hb in Hl by lia.
Qed.

Lemma bits_above w n i : 0 <= w < 2 ^ n -> 0 <= n <= i -> Z.testbit w i = false.
Proof.
  intros Hw Hi. destruct (decide (w = 0)) as [-> |]; [apply Z.bits_0|]. apply Z.bits_above_log2; [lia|].
  apply Z.log2_lt_pow2; [lia|]. eapply Z.lt_le_trans; [apply Hw|]. apply Z.pow_le_mono_r; lia.
Qed.

Lemma set_nonneg w offset bytes v : in_word offset bytes -> 0 <= w -> 0 <= set_field w offset bytes v.
Proof.
  intros (? & ? & ?) Hw. unfold set_field. rewrite mask_ones by lia. apply Z.lor_nonneg. split.
  - apply Z.ldiff_nonneg. by left.
  - apply Z.shiftl_nonneg, Z.land_nonneg. right. rewrite Z.ones_equiv. pose proof (Z.pow_pos_nonneg 2 (bytes * 8)). lia.
Qed.

Lemma set_range w offset bytes v : in_word offset bytes -> is_u256 w -> is_u256 (set_field w offset bytes v).
Proof.
  intros Hw [Hw0 Hw1]. pose proof Hw as (? & ? & ?). pose proof (set_nonneg w offset bytes v Hw Hw0) as Hnn. split; [done|].
  unfold u256_max in *. enough (set_field w offset bytes v < 2 ^ 256) by lia. apply word_bits; [lia|done|]. intros i Hi.
  rewrite testbit_set by (done || lia). rewrite decide_False by lia. apply (bits_above w 256); lia.
Qed.

(** Deleting a field is writing zero into it. *)
Lemma delete_is_set w offset bytes : Z.ldiff w (Z.shiftl (create_element_mask bytes) (offset * 8)) = set_field w offset bytes 0.
Proof. unfold set_field. by rewrite Z.land_0_l, Z.shiftl_0_l, Z.lor_0_r. Qed.

(** ** Slices of the big-endian bytes *)

Lemma slice_copy_same w a b v : 0 <= a < b -> b <= 32 -> 0 <= v < 2 ^ ((b - a) * 8) -> be_slice (copy_be w a b v) a b = v.
Proof. intros Ha Hb Hv. apply get_set_same; [unfold in_word; lia|done]. Qed.

Lemma slice_copy_other w a b v a' b' : 0 <= a < b -> b <= 32 -> 0 <= a' < b' -> b' <= 32 -> b <= a' \/ b' <= a ->
  be_slice (copy_be w a b v) a' b' = be_slice w a' b'.
Proof. intros ? ? ? ? Hd. apply get_set_other; unfold in_word; lia. Qed.

Lemma slice_zero a b : be_slice 0 a b = 0.
Proof. apply get_zero. Qed.

Lemma slice_range w a b : 0 <= a < b -> b <= 32 -> 0 <= be_slice w a b < 2 ^ ((b - a) * 8).
Proof. intros ? ?. apply get_range. unfold in_word. lia. Qed.

(** ** Signed ticks *)

Lemma i16_word x : is_i16 x -> i16_of_u16 (u16_of_i16 x) = x.
Proof.
  unfold is_i16, i16_min, i16_max, i16_of_u16, u16_of_i16. intros Hx. destruct (decide (0 <= x)).
  - rewrite Z.mod_small by lia. rewrite decide_True by lia. done.
  - rewrite <- (Z_mod_plus_full x 1), Z.mod_small by lia. rewrite decide_False by lia. lia.
Qed.

Lemma u16_range x : 0 <= u16_of_i16 x < 2 ^ 16.
Proof. apply Z.mod_pos_bound. lia. Qed.

Lemma u16_inj x y : is_i16 x -> is_i16 y -> u16_of_i16 x = u16_of_i16 y -> x = y.
Proof. intros Hx Hy Heq. by rewrite <- (i16_word x Hx), <- (i16_word y Hy), Heq. Qed.

(** ** Forks *)

Lemma since_mono `{TempoSpec} f g : fork_index f <= fork_index g -> since g = true -> since f = true.
Proof. unfold since. lia. Qed.

Lemma t8_t7 `{TempoSpec} : is_t8 = true -> is_t7 = true.
Proof. by apply since_mono. Qed.
Lemma t7_t5 `{TempoSpec} : is_t7 = true -> is_t5 = true.
Proof. by apply since_mono. Qed.
Lemma t12_t8 `{TempoSpec} : is_t12 = true -> is_t8 = true.
Proof. by apply since_mono. Qed.
Lemma t5_t4 `{TempoSpec} : is_t5 = true -> is_t4 = true.
Proof. by apply since_mono. Qed.
Lemma t8_t5 `{TempoSpec} : is_t8 = true -> is_t5 = true.
Proof. by apply since_mono. Qed.
Lemma t8_t4 `{TempoSpec} : is_t8 = true -> is_t4 = true.
Proof. by apply since_mono. Qed.

(** ** The transient state of an account *)

Lemma limb_range w i : is_u64 (limb w i).
Proof. unfold limb, is_u64, u64_max. pose proof (Z.mod_pos_bound (w / 2 ^ (64 * i)) (2 ^ 64)). lia. Qed.

Lemma transient_ranges w t : transient_of_word w = Some t -> is_u64 (ts_budget t) /\ is_u64 (ts_pending t).
Proof.
  unfold transient_of_word. destruct (mode_of_u8 _) as [m|]; [|done]. intros [= <-]. cbn. split; apply limb_range.
Qed.

Lemma transient_word t : is_u64 (ts_budget t) -> is_u64 (ts_pending t) -> transient_of_word (word_of_transient t) = Some t.
Proof.
  destruct t as [m b p]. unfold is_u64, u64_max. cbn [ts_budget ts_pending]. intros Hb Hp. unfold transient_of_word, word_of_transient, limb.
  cbn [ts_mode ts_budget ts_pending].
  assert (0 <= u8_of_mode m < 256) as Hm by (destruct m; cbn; lia).
  assert ((u8_of_mode m + b * 2 ^ 64 + p * 2 ^ 192) / 2 ^ (64 * 0) mod 2 ^ 64 mod 256 = u8_of_mode m) as ->.
  { replace (2 ^ (64 * 0)) with 1 by done. rewrite Z.div_1_r.
    replace (u8_of_mode m + b * 2 ^ 64 + p * 2 ^ 192) with (u8_of_mode m + (b + p * 2 ^ 128) * 2 ^ 64) by lia.
    rewrite Z_mod_plus_full, (Z.mod_small _ (2 ^ 64)), Z.mod_small by lia. done. }
  assert ((u8_of_mode m + b * 2 ^ 64 + p * 2 ^ 192) / 2 ^ (64 * 1) mod 2 ^ 64 = b) as ->.
  { replace (2 ^ (64 * 1)) with (2 ^ 64) by done.
    replace (u8_of_mode m + b * 2 ^ 64 + p * 2 ^ 192) with (u8_of_mode m + (b + p * 2 ^ 128) * 2 ^ 64) by lia.
    rewrite Z.div_add, (Z.div_small _ (2 ^ 64)) by lia. replace (0 + (b + p * 2 ^ 128)) with (b + (p * 2 ^ 64) * 2 ^ 64) by lia.
    rewrite Z_mod_plus_full, Z.mod_small by lia. done. }
  assert ((u8_of_mode m + b * 2 ^ 64 + p * 2 ^ 192) / 2 ^ (64 * 3) mod 2 ^ 64 = p) as ->.
  { replace (2 ^ (64 * 3)) with (2 ^ 192) by done. rewrite Z.div_add by lia. rewrite (Z.div_small (u8_of_mode m + b * 2 ^ 64)) by lia.
    rewrite Z.mod_small by lia. done. }
  destruct m; done.
Qed.

Section credits.
Context `{TempoSpec} `{TempoAddresses}.

(** ** What a state holds *)

Definition dword (s : Evm) (slot : Slot) : U256 := word_at (evm_storage s) STABLECOIN_DEX_ADDRESS slot.
Definition bank (s : Evm) : Z := word_at (evm_storage s) STORAGE_CREDITS_ADDRESS (credit_slot STABLECOIN_DEX_ADDRESS).
Definition bank_state (s : Evm) : option TransientState :=
  transient_of_word (word_at (evm_transient s) STORAGE_CREDITS_ADDRESS (credit_slot STABLECOIN_DEX_ADDRESS)).

Definition flags_same (s s' : Evm) : Prop := evm_credits s' = evm_credits s /\ evm_minting s' = evm_minting s.

(** Nothing changes but words of the exchange and its entry in the credits
    contract. *)
Definition elsewhere (s s' : Evm) : Prop :=
  flags_same s s' /\
  (forall a sl, a <> STABLECOIN_DEX_ADDRESS -> (a, sl) <> (STORAGE_CREDITS_ADDRESS, credit_slot STABLECOIN_DEX_ADDRESS) ->
     word_at (evm_storage s') a sl = word_at (evm_storage s) a sl) /\
  (forall a sl, (a, sl) <> (STORAGE_CREDITS_ADDRESS, credit_slot STABLECOIN_DEX_ADDRESS) ->
     word_at (evm_transient s') a sl = word_at (evm_transient s) a sl).

(** The storage credits work for the exchange. *)
Definition bank_ok (s : Evm) : Prop :=
  evm_credits s = is_t7 /\
  (is_t7 = true -> evm_minting s = true /\ is_u64 (bank s) /\ is_Some (bank_state s)).

(** The credits after a write. *)
Definition after_write (present new c : Z) (t : TransientState) : Z * TransientState :=
  if decide (bool_decide (present = 0) = bool_decide (new = 0)) then (c, t)
  else if decide (new = 0) then (Z.min u64_max (c + 1), t)
  else
    match ts_mode t with
    | Direct =>
        if bool_decide (0 < c) && bool_decide (0 < ts_budget t) then
          (c - 1, if decide (ts_budget t <> u64_max) then mkTransient Direct (ts_budget t - 1) (ts_pending t) else t)
        else (c, t)
    | Preserve => (c, t)
    | Refund => (c, mkTransient Refund (ts_budget t) (Z.min u64_max (ts_pending t + 1)))
    end.

(** Credits are spent only in direct mode, and then within the budget. *)
Definition bank_le (c : Z) (t : TransientState) (c' : Z) (t' : TransientState) : Prop :=
  ts_mode t' = ts_mode t /\
  (ts_mode t <> Direct -> c <= c') /\
  (ts_mode t = Direct -> ts_budget t <> u64_max ->
     ts_budget t' <= ts_budget t /\ c - ts_budget t <= c' - ts_budget t').

Definition step (s s' : Evm) : Prop :=
  elsewhere s s' /\
  (is_t7 = true -> forall t, bank_state s = Some t ->
     exists t', bank_state s' = Some t' /\ bank_le (bank s) t (bank s') t').

#[export] Instance elsewhere_preorder : PreOrder elsewhere.
Proof.
  split.
  - intros s. repeat split; done.
  - intros s1 s2 s3 ((Hf1 & Hg1) & Hs1 & Ht1) ((Hf2 & Hg2) & Hs2 & Ht2). split; [split; congruence|].
    split; intros; [rewrite Hs2, Hs1|rewrite Ht2, Ht1]; done.
Qed.

Lemma bank_le_refl c t : bank_le c t c t.
Proof. split_and!; [done|lia|lia]. Qed.

Lemma bank_le_trans c1 t1 c2 t2 c3 t3 : is_u64 (ts_budget t1) -> bank_le c1 t1 c2 t2 -> bank_le c2 t2 c3 t3 -> bank_le c1 t1 c3 t3.
Proof.
  unfold is_u64. intros Hb (Hm1 & Hn1 & Hd1) (Hm2 & Hn2 & Hd2). rewrite Hm1 in Hm2, Hn2, Hd2. split_and!; [done|..].
  - intros Hm. specialize (Hn1 Hm). specialize (Hn2 Hm). lia.
  - intros Hm Hx. destruct (Hd1 Hm Hx) as [? ?]. destruct (Hd2 Hm ltac:(lia)). lia.
Qed.

#[export] Instance step_preorder : PreOrder step.
Proof.
  split.
  - intros s. split; [done|]. intros _ t Ht. exists t. split; [done|apply bank_le_refl].
  - intros s1 s2 s3 [He1 Hb1] [He2 Hb2]. split; [by etrans|]. intros H7 t1 Ht1.
    destruct (Hb1 H7 t1 Ht1) as (t2 & Ht2 & Hle1). destruct (Hb2 H7 t2 Ht2) as (t3 & Ht3 & Hle2). exists t3. split; [done|].
    eapply bank_le_trans; [|done..]. by apply transient_ranges in Ht1 as [? _].
Qed.

Lemma after_write_le present new c t : is_u64 c -> is_u64 (ts_budget t) ->
  bank_le c t (after_write present new c t).1 (after_write present new c t).2.
Proof.
  unfold is_u64, after_write. intros Hc Hb. destruct (decide (bool_decide (present = 0) = _)); [apply bank_le_refl|].
  destruct (decide (new = 0)); cbn [fst snd]; [split_and!; [done|lia|lia]|].
  destruct (ts_mode t) eqn:Hm; cbn [fst snd]; [split_and!; cbn; [congruence|lia|congruence]|apply bank_le_refl|].
  destruct (bool_decide_reflect (0 < c)), (bool_decide_reflect (0 < ts_budget t)); cbn [andb fst snd]; [|apply bank_le_refl..].
  destruct (decide (ts_budget t <> u64_max)); split_and!; cbn [ts_mode ts_budget]; first [congruence|lia].
Qed.

Lemma word_at_insert m a sl v a' sl' :
  word_at (<[(a, sl) := v]> m) a' sl' = if decide ((a', sl') = (a, sl)) then v else word_at m a' sl'.
Proof. unfold word_at. case_decide as Hd; [rewrite Hd; by rewrite lookup_insert_eq|by rewrite lookup_insert_ne]. Qed.

Lemma after_write_ranges present new c t : is_u64 c -> is_u64 (ts_budget t) -> is_u64 (ts_pending t) ->
  is_u64 (after_write present new c t).1 /\ is_u64 (ts_budget (after_write present new c t).2) /\
  is_u64 (ts_pending (after_write present new c t).2).
Proof.
  unfold is_u64, after_write, u64_max. intros Hc Hb Hp. destruct (decide (bool_decide (present = 0) = _)); cbn [fst snd]; [lia|].
  destruct (decide (new = 0)); cbn [fst snd]; [lia|].
  destruct (ts_mode t); cbn [fst snd ts_budget ts_pending]; try lia. destruct (bool_decide_reflect (0 < c)), (bool_decide_reflect (0 < ts_budget t)); cbn [andb fst snd]; try lia.
  destruct (decide (ts_budget t <> _)); cbn [ts_budget ts_pending]; lia.
Qed.

(** A write with the credits on. *)
Lemma account_write_spec present new s t : is_u64 (bank s) -> evm_minting s = true -> bank_state s = Some t ->
  exists s', account_storage_write STABLECOIN_DEX_ADDRESS present new s = (Ok tt, s') /\
    elsewhere s s' /\ (forall sl, dword s' sl = dword s sl) /\
    bank s' = (after_write present new (bank s) t).1 /\ bank_state s' = Some (after_write present new (bank s) t).2.
Proof.
  intros Hc Hmint Ht. pose proof (transient_ranges _ _ Ht) as [Hb Hp].
  destruct (after_write_ranges present new (bank s) t Hc Hb Hp) as (Hc' & Hb' & Hp').
  unfold account_storage_write, after_write in *. pose proof dex_not_credits as Hne.
  destruct (decide (bool_decide (present = 0) = bool_decide (new = 0))) as [Hsame|Hdiff].
  { rewrite decide_True by by left. exists s. split_and!; try done. }
  rewrite decide_False by (intros [?|?]; done). unfold mbind, M_bind, sload, tload, get_flag. cbn beta iota.
  change (word_at (evm_storage s) STORAGE_CREDITS_ADDRESS (credit_slot STABLECOIN_DEX_ADDRESS)) with (bank s).
  unfold is_u64 in Hc. rewrite decide_False by lia. destruct (decide (new = 0)) as [Hz|Hz].
  { rewrite Hmint. unfold when. eexists. split; [reflexivity|]. split_and!; cbn [fst snd]; try done.
    - split_and!; [done| |done]. intros a sl Ha Hsl. cbn. rewrite word_at_insert. by rewrite decide_False.
    - intros sl. unfold dword. cbn. rewrite word_at_insert. by rewrite decide_False by congruence.
    - unfold bank at 1. cbn. rewrite word_at_insert. by rewrite decide_True. }
  change (transient_of_word _) with (bank_state s). rewrite Ht. destruct (ts_mode t) eqn:Hm.
  - eexists. split; [reflexivity|]. cbn [fst snd] in *. split_and!; try done.
    + split_and!; [done|done|]. intros a sl Hsl. cbn. rewrite word_at_insert. by rewrite decide_False.
    + unfold bank_state. cbn. rewrite word_at_insert, decide_True by done. by apply transient_word.
  - exists s. split_and!; done.
  - destruct (bool_decide (0 < bank s) && bool_decide (0 < ts_budget t)) eqn:Hcan; cbn [when fst snd] in *; [|exists s; split_and!; done].
    destruct (decide (ts_budget t <> u64_max)) as [Hmax|Hmax]; [rewrite (bool_decide_true _ Hmax)|rewrite (bool_decide_false _ Hmax)].
    + eexists. split; [reflexivity|]. split_and!.
      * split_and!; [done|..]; intros a sl Ha; [intros Hsl|]; cbn; rewrite word_at_insert; by rewrite decide_False.
      * intros sl. unfold dword. cbn. rewrite word_at_insert. by rewrite decide_False by congruence.
      * unfold bank at 1. cbn. rewrite word_at_insert. by rewrite decide_True.
      * unfold bank_state. cbn. rewrite word_at_insert, decide_True by done. by apply transient_word.
    + eexists. split; [reflexivity|]. split_and!; [split_and!; [done| |done]|..|done].
      * intros a sl Ha Hsl. cbn. rewrite word_at_insert. by rewrite decide_False.
      * intros sl. unfold dword. cbn. rewrite word_at_insert. by rewrite decide_False by congruence.
      * unfold bank at 1. cbn. rewrite word_at_insert. by rewrite decide_True.
Qed.

Definition credits_after (present new : Z) (s s' : Evm) : Prop :=
  is_t7 = true -> forall t, bank_state s = Some t ->
    bank s' = (after_write present new (bank s) t).1 /\ bank_state s' = Some (after_write present new (bank s) t).2.

(** A write of the exchange. *)
Lemma dex_store_exact sl v s : bank_ok s ->
  exists s', dex_store sl v s = (Ok tt, s') /\ bank_ok s' /\ elsewhere s s' /\ credits_after (dword s sl) v s s' /\
    (forall sl', dword s' sl' = if decide (sl' = sl) then v else dword s sl').
Proof.
  intros [Hfl Hbank]. pose proof dex_not_credits as Hne. set (s1 := set_storage s (<[(STABLECOIN_DEX_ADDRESS, sl) := v]> (evm_storage s))).
  assert (elsewhere s s1) as He1.
  { split_and!; [done| |done]. intros a sl' Ha Hsl. cbn. rewrite word_at_insert. by rewrite decide_False by congruence. }
  assert (bank s1 = bank s) as Hb1 by (unfold bank; cbn; rewrite word_at_insert; by rewrite decide_False by congruence).
  assert (forall sl', dword s1 sl' = if decide (sl' = sl) then v else dword s sl') as Hd1.
  { intros sl'. unfold dword. cbn. rewrite word_at_insert. destruct (decide (sl' = sl)) as [-> |]; [by rewrite decide_True|by rewrite decide_False by congruence]. }
  unfold dex_store, sstore, mbind, M_bind, sload, sstore_raw, get_flag. cbn beta iota. fold s1. change (evm_credits s1) with (evm_credits s).
  rewrite Hfl. destruct is_t7 eqn:H7; cbn [when].
  2: { exists s1. split_and!; [done| |done|unfold credits_after; by rewrite H7|done]. split; by rewrite H7. }
  destruct (Hbank eq_refl) as (Hmint & Hc & [t Ht]).
  destruct (account_write_spec (dword s sl) v s1 t) as (s2 & Hrun & He2 & Hd2 & Hb2 & Hs2); [by rewrite Hb1|done|done|].
  exists s2. split; [exact Hrun|]. pose proof (transient_ranges _ _ Ht) as [Hbu Hp].
  pose proof (after_write_ranges (dword s sl) v (bank s) t Hc Hbu Hp) as (Hc' & _ & _). rewrite Hb1 in Hb2, Hs2.
  assert (flags_same s s2) as [Hf1 Hf2] by (split; [by rewrite (proj1 (proj1 He2))|by rewrite (proj2 (proj1 He2))]).
  split_and!.
  - split; [by rewrite Hf1, Hfl, H7|]. intros _. rewrite Hf2, Hb2, Hs2. split_and!; [done|apply Hc'..|done].
  - by etrans.
  - intros _ t' Ht'. assert (t' = t) as -> by congruence. done.
  - intros sl'. by rewrite Hd2.
Qed.

Lemma credits_after_step present new s s' : bank_ok s -> elsewhere s s' -> credits_after present new s s' -> step s s'.
Proof.
  intros [_ Hbank] He Hca. split; [done|]. intros H7 t Ht. destruct (Hca H7 t Ht) as [Hb Hs]. destruct (Hbank H7) as (_ & Hc & _).
  pose proof (transient_ranges _ _ Ht) as [Hbu _]. eexists. split; [exact Hs|]. rewrite Hb. by apply after_write_le.
Qed.

Lemma dex_store_spec sl v s : bank_ok s ->
  exists s', dex_store sl v s = (Ok tt, s') /\ bank_ok s' /\ step s s' /\
    (forall sl', dword s' sl' = if decide (sl' = sl) then v else dword s sl').
Proof.
  intros Hok. destruct (dex_store_exact sl v s Hok) as (s' & Hrun & Hok' & He & Hca & Hd). exists s'. split_and!; try done.
  by eapply credits_after_step.
Qed.
End credits.
