(* ===== verification/Dex.v ===== *)
(** * The stablecoin exchange: operations

    stablecoin_dex.rs, [StablecoinDEX]: pairs, placing, flipping, filling and
    cancelling orders, swaps and quotes. The tokens it moves are the class
    [TIP20]. *)

From stdpp Require Import prelude gmap list strings.
From S2P Require Import Prelude TempoEvm DexTypes DexBook.

#[local] Open Scope Z_scope.

(** What the exchange uses of tip20.rs, tip20_factory.rs, tip403_registry.rs and
    fee_manager.rs. *)
Inductive AuthRole := Sender | Recipient.

Class TIP20 := {
  is_tip20_prefix : Address -> bool;
  quote_token (token : Address) : M Address;
  (** [TIP20Token::transfer], called by [sender]. *)
  tip20_transfer (token sender to : Address) (amount : Z) : M unit;
  (** [TIP20Token::transfer_from], called by [spender]. *)
  tip20_transfer_from (token spender from to : Address) (amount : Z) : M unit;
  system_transfer_from (token caller from : Address) (amount : Z) : M unit;
  ensure_transfer_authorized (token from to : Address) : M unit;
  check_not_paused (token : Address) : M unit;
  transfer_policy_id (token : Address) : M Z;
  is_authorized_as (policy_id : Z) (user : Address) (role : AuthRole) : M bool;
  is_policy_lookup_error : TempoPrecompileError -> bool;
  is_tip20 (token : Address) : M bool;
  validate_usd_currency (token : Address) : M unit;
}.

Section dex.
Context `{TempoSpec} `{TempoAddresses} `{Keccak} `{TIP20}.

(** [TIP20Token::from_address]. *)
Definition tip20_from_address (token : Address) : M unit :=
  if is_tip20_prefix token then mret tt else throw (Revert "InvalidToken" []).

Definition token_quote (token : Address) : M Address := _ ← tip20_from_address token; quote_token token.

Definition BALANCES : Slot := At 2.
Definition NEXT_ORDER_ID : Slot := At 3.
Definition DEX_STORAGE_CREDITS : Slot := At 5.

(** ** Storage credits of the makers *)

Definition dex_credits (user : Address) : Handle := mapping_at STABLECOIN_DEX_ADDRESS DEX_STORAGE_CREDITS user.

Definition preserve_storage_credits : M unit := when is_t7 (preserve STABLECOIN_DEX_ADDRESS).

Definition credit_dex_storage_slots (user : Address) (slots : u64) : M unit :=
  if decide (slots = 0) then mret tt
  else if negb is_t7 then mret tt
  else
    current ← h_read PU64 (dex_credits user);
    let updated := Z.min u64_max (current + slots) in
    if decide (current <> 0) then h_write PU64 (dex_credits user) updated
    else
      '(_, delta) ← with_budget STABLECOIN_DEX_ADDRESS 1 (h_write PU64 (dex_credits user) updated);
      if decide (delta <> -1) then throw (Fatal "DEX storage credit bookkeeping spend mismatch") else mret tt.

Definition delete_order (order : Order) : M u64 :=
  r ← track_minted_credits STABLECOIN_DEX_ADDRESS (order_delete (o_order_id order)); mret r.2.

Definition rewrite_order (order : Order) (book_id : Z) : M u64 :=
  r ← track_minted_credits STABLECOIN_DEX_ADDRESS (write_in_book (o_order_id order) order book_id); mret r.2.

Definition unlink_neighbor_and_credit_maker (order_id : u128) (update : M unit) : M unit :=
  '(_, credits) ← track_minted_credits STABLECOIN_DEX_ADDRESS update;
  if decide (credits = 0) then mret tt
  else
    maker ← order_maker order_id;
    credit_dex_storage_slots maker credits.

Definition delete_order_and_track_deltas (storage_credits : StorageCreditDeltas) (order : Order) : M StorageCreditDeltas :=
  credits ← delete_order order;
  mret (credit_slots storage_credits (o_maker order) credits).

Definition write_order_spending_dex_storage_credits (order : Order) (book_id : Z) : M unit :=
  let user := o_maker order in
  user_credits ← h_read PU64 (dex_credits user);
  if decide (user_credits = 0) then write_in_book (o_order_id order) order book_id
  else
    _ ← h_delete PU64 (dex_credits user);
    '(_, delta) ← with_budget STABLECOIN_DEX_ADDRESS user_credits (write_in_book (o_order_id order) order book_id);
    let spent_credits := if decide (delta < 0) then - delta else 0 in
    credit_dex_storage_slots user (saturating_sub user_credits spent_credits).

(** ** Balances *)

Definition next_order_id_val : M u128 :=
  n ← h_read PU128 (full_slot STABLECOIN_DEX_ADDRESS NEXT_ORDER_ID); mret (Z.max n 1).

(** [next + 1] wraps. *)
Definition write_next_order_id (n : u128) : M unit := h_write PU128 (full_slot STABLECOIN_DEX_ADDRESS NEXT_ORDER_ID) (n mod 2 ^ 128).

Definition increment_next_order_id : M unit := next ← next_order_id_val; write_next_order_id (next + 1).

Definition balance_handle (user token : Address) : Handle :=
  mapping_at STABLECOIN_DEX_ADDRESS (mapping_slot user BALANCES) token.

Definition balance_of (user token : Address) : M u128 := h_read PU128 (balance_handle user token).

Definition set_balance (user token : Address) (amount : u128) : M unit := h_write PU128 (balance_handle user token) amount.

Definition increment_balance (user token : Address) (amount : u128) : M unit :=
  current ← balance_of user token;
  updated ← ok_or under_overflow (checked_add u128_max current amount);
  set_balance user token updated.

Definition sub_balance (user token : Address) (amount : u128) : M unit :=
  current ← balance_of user token;
  updated ← ok_or under_overflow (checked_sub current amount);
  set_balance user token updated.

Definition transfer (token to : Address) (amount : u128) : M unit :=
  _ ← tip20_from_address token; tip20_transfer token STABLECOIN_DEX_ADDRESS to amount.

Definition transfer_from (token from : Address) (amount : u128) : M unit :=
  _ ← tip20_from_address token;
  if is_t5 then system_transfer_from token STABLECOIN_DEX_ADDRESS from amount
  else tip20_transfer_from token STABLECOIN_DEX_ADDRESS from STABLECOIN_DEX_ADDRESS amount.

Definition decrement_balance_or_transfer_from (user token : Address) (amount : u128) (check_pause : bool) : M unit :=
  _ ← tip20_from_address token;
  _ ← ensure_transfer_authorized token user STABLECOIN_DEX_ADDRESS;
  user_balance ← balance_of user token;
  if decide (amount <= user_balance) then
    _ ← when (check_pause && is_t4) (check_not_paused token);
    sub_balance user token amount
  else
    remaining ← ok_or under_overflow (checked_sub amount user_balance);
    _ ← transfer_from token user remaining;
    set_balance user token 0.

(** ** Views *)

Definition get_order (order_id : u128) : M Order :=
  order ← order_read order_id;
  if decide (o_maker order = 0) then throw err_order_does_not_exist
  else
    next ← next_order_id_val;
    if decide (o_order_id order < next) then mret order else throw err_order_does_not_exist.

Definition set_book_index (index : Z) : M unit :=
  book_key ← book_key_for_index index;
  current ← book_key_index book_key;
  match current with
  | Some current_index => if decide (current_index = index) then mret tt else throw err_index_already_set
  | None => write_book_id (book_slot book_key) (book_id_from_index index)
  end.

(** The loop over the orders of a level, at most [fuel] of them. *)
Fixpoint sum_remaining (fuel : nat) (book_key : B256) (order_id total : u128) : M u128 :=
  if decide (order_id = 0) then mret total
  else
    match fuel with
    | O => fun s => (Panic, s)
    | S fuel =>
        order ← read_in_book order_id book_key;
        total ← ok_or under_overflow (checked_add u128_max total (o_remaining order));
        sum_remaining fuel book_key (o_next order) total
    end.

Definition get_price_level (fuel : nat) (base : Address) (tick : i16) (is_bid : bool) : M TickLevel :=
  quote ← token_quote base;
  let book_key := compute_book_key base quote in
  level ← read_tick_level (book_slot book_key) tick is_bid;
  if is_t12 then
    total ← sum_remaining fuel book_key (tl_head level) 0;
    mret (mkLevel (tl_head level) (tl_tail level) total)
  else mret level.

Definition tick_to_price_fn (tick : i16) : M Z := _ ← when is_t2 (validate_tick_spacing tick); mret (tick_to_price tick).

Definition price_to_tick_fn (price : Z) : M i16 :=
  tick ← price_to_tick price;
  _ ← when is_t2 (validate_tick_spacing tick);
  mret tick.

(** ** Pairs *)

Definition dex_emit (event : string) (args : list LogArg) : M unit := emit_event STABLECOIN_DEX_ADDRESS (mkLog event args).

Definition create_pair (base : Address) : M B256 :=
  known ← is_tip20 base;
  if negb known then throw err_invalid_base_token
  else
    quote ← token_quote base;
    _ ← validate_usd_currency base;
    _ ← validate_usd_currency quote;
    let book_key := compute_book_key base quote in
    old ← read_data (book_slot book_key);
    if book_initialized old then throw err_pair_already_exists
    else
      book ← (if is_t8 then len ← vec_len STABLECOIN_DEX_ADDRESS BOOK_KEYS; mret (new_book_with_index base quote len)
              else mret (new_book base quote));
      _ ← write_data (book_slot book_key) book;
      _ ← vec_push STABLECOIN_DEX_ADDRESS BOOK_KEYS book_key;
      _ ← dex_emit "PairCreated" [Word book_key; Word base; Word quote];
      mret book_key.

Definition validate_or_create_pair (book : OrderbookData) (token : Address) : M unit :=
  if decide (bd_base book = 0) then _ ← create_pair token; mret tt else mret tt.

(** ** Placing orders *)

Definition commit_order_to_book (order : Order) (charge_credits : bool) : M unit :=
  let book := book_slot (o_book_key order) in
  orderbook ← read_data book;
  let book_id := bd_book_id orderbook in
  level ← read_tick_level book (o_tick order) (o_is_bid order);
  let prev_tail := tl_tail level in
  '(order, level) ←
    (if decide (prev_tail = 0) then
       _ ← set_tick_bit book (o_tick order) (o_is_bid order);
       _ ← (if o_is_bid order then
              when (bool_decide (bd_best_bid_tick orderbook < o_tick order)) (write_best_bid_tick book (o_tick order))
            else
              when (bool_decide (o_tick order < bd_best_ask_tick orderbook)) (write_best_ask_tick book (o_tick order)));
       mret (order, mkLevel (o_order_id order) (o_order_id order) (tl_total_liquidity level))
     else
       _ ← (if is_t8 then handle ← order_next prev_tail; h_write PU128 handle (o_order_id order)
            else
              prev_order ← read_in_book prev_tail (o_book_key order);
              write_in_book prev_tail (set_next prev_order (o_order_id order)) book_id);
       mret (set_prev order prev_tail, mkLevel (tl_head level) (o_order_id order) (tl_total_liquidity level)));
  level ←
    (if is_t12 then mret level
     else
       new_liquidity ← ok_or under_overflow (checked_add u128_max (tl_total_liquidity level) (o_remaining order));
       mret (mkLevel (tl_head level) (tl_tail level) new_liquidity));
  _ ← write_tick_level book (o_tick order) (o_is_bid order) level;
  if charge_credits && is_t7 then write_order_spending_dex_storage_credits order book_id
  else if negb charge_credits && is_t8 then
    credits ← rewrite_order order book_id;
    credit_dex_storage_slots (o_maker order) credits
  else write_in_book (o_order_id order) order book_id.

(** The token an order escrows, how much, and the token it is paid in. *)
Definition escrow_of (token quote : Address) (amount : u128) (is_bid : bool) (tick : i16) : M (Address * u128 * Address) :=
  if is_bid then
    quote_amount ← ok_or err_insufficient_balance (base_to_quote amount tick Up);
    mret (quote, quote_amount, token)
  else mret (token, amount, quote).

Definition place (sender token : Address) (amount : u128) (is_bid : bool) (tick : i16) : M u128 :=
  quote ← token_quote token;
  let book_key := compute_book_key token quote in
  book ← read_data (book_slot book_key);
  _ ← validate_or_create_pair book token;
  if decide (~ (MIN_TICK <= tick <= MAX_TICK)) then throw (err_tick_out_of_bounds tick)
  else if decide (Z.rem tick TICK_SPACING <> 0) then throw err_invalid_tick
  else if decide (amount < MIN_ORDER_AMOUNT) then throw (err_below_minimum_order_size amount)
  else
    '(escrow_token, escrow_amount, non_escrow_token) ← escrow_of token quote amount is_bid tick;
    _ ← tip20_from_address non_escrow_token;
    _ ← ensure_transfer_authorized non_escrow_token STABLECOIN_DEX_ADDRESS sender;
    _ ← when is_t4 (check_not_paused non_escrow_token);
    _ ← decrement_balance_or_transfer_from sender escrow_token escrow_amount true;
    order_id ← next_order_id_val;
    _ ← increment_next_order_id;
    let order := if is_bid then new_bid order_id sender book_key amount tick else new_ask order_id sender book_key amount tick in
    _ ← commit_order_to_book order true;
    _ ← dex_emit "OrderPlaced" [Word order_id; Word sender; Word token; Word amount; Word (bool_u8 is_bid); Word tick; Word 0; Word 0];
    mret order_id.

(** The order of a flip: from a balance alone or with the sender's tokens. *)
Definition take_escrow (sender escrow_token : Address) (escrow_amount : u128) (internal_balance_only : bool) : M unit :=
  if internal_balance_only then
    _ ← tip20_from_address escrow_token;
    _ ← ensure_transfer_authorized escrow_token sender STABLECOIN_DEX_ADDRESS;
    _ ← when is_t4 (check_not_paused escrow_token);
    user_balance ← balance_of sender escrow_token;
    if decide (user_balance < escrow_amount) then throw err_insufficient_balance
    else sub_balance sender escrow_token escrow_amount
  else decrement_balance_or_transfer_from sender escrow_token escrow_amount true.

Definition place_flip (sender token : Address) (amount : u128) (is_bid : bool) (tick flip_tick : i16)
    (internal_balance_only : bool) : M u128 :=
  quote ← token_quote token;
  let book_key := compute_book_key token quote in
  checkpoint
    (book ← read_data (book_slot book_key);
     _ ← validate_or_create_pair book token;
     if decide (~ (MIN_TICK <= tick <= MAX_TICK)) then throw (err_tick_out_of_bounds tick)
     else if decide (Z.rem tick TICK_SPACING <> 0) then throw err_invalid_tick
     else if decide (~ (MIN_TICK <= flip_tick <= MAX_TICK)) then throw (err_tick_out_of_bounds flip_tick)
     else if decide (Z.rem flip_tick TICK_SPACING <> 0) then throw err_invalid_flip_tick
     else if invalid_flip tick is_bid flip_tick then throw err_invalid_flip_tick
     else if decide (amount < MIN_ORDER_AMOUNT) then throw (err_below_minimum_order_size amount)
     else
       '(escrow_token, escrow_amount, non_escrow_token) ← escrow_of token quote amount is_bid tick;
       _ ← tip20_from_address non_escrow_token;
       _ ← ensure_transfer_authorized non_escrow_token STABLECOIN_DEX_ADDRESS sender;
       _ ← when is_t4 (check_not_paused non_escrow_token);
       _ ← take_escrow sender escrow_token escrow_amount internal_balance_only;
       order_id ← next_order_id_val;
       order ← new_flip order_id sender book_key amount tick is_bid flip_tick;
       _ ← (if is_t1c then write_next_order_id (order_id + 1) else increment_next_order_id);
       _ ← commit_order_to_book order true;
       _ ← dex_emit "OrderPlaced" [Word order_id; Word sender; Word token; Word amount; Word (bool_u8 is_bid); Word tick; Word 1; Word flip_tick];
       mret order_id).

(** ** Filling orders *)

Definition emit_order_filled (order_id : u128) (maker taker : Address) (amount_filled : u128) (partial_fill : bool) : M unit :=
  dex_emit "OrderFilled" [Word order_id; Word maker; Word taker; Word amount_filled; Word (bool_u8 partial_fill)].

Definition flip_in_place (order : Order) (base_token quote_token : Address) : M unit :=
  checkpoint
    (let flipped := create_flipped_order order (o_order_id order) in
     '(escrow_token, escrow_amount, non_escrow_token) ←
       escrow_of base_token quote_token (o_amount flipped) (o_is_bid flipped) (o_tick flipped);
     balance ← balance_of (o_maker flipped) escrow_token;
     if decide (balance < escrow_amount) then throw err_insufficient_balance
     else
       _ ← tip20_from_address escrow_token;
       _ ← check_not_paused escrow_token;
       _ ← ensure_transfer_authorized escrow_token (o_maker flipped) STABLECOIN_DEX_ADDRESS;
       _ ← tip20_from_address non_escrow_token;
       _ ← check_not_paused non_escrow_token;
       _ ← ensure_transfer_authorized non_escrow_token STABLECOIN_DEX_ADDRESS (o_maker flipped);
       _ ← sub_balance (o_maker flipped) escrow_token escrow_amount;
       _ ← commit_order_to_book flipped false;
       dex_emit "OrderFlipped" [Word (o_order_id flipped); Word (o_maker flipped); Word base_token; Word (o_amount flipped);
         Word (bool_u8 (o_is_bid flipped)); Word (o_tick flipped); Word (o_flip_tick flipped)]).

Definition partial_fill_order (order : Order) (level : TickLevel) (fill_amount : u128) (taker : Address) : M u128 :=
  let book := book_slot (o_book_key order) in
  orderbook ← read_data book;
  let new_remaining := o_remaining order - fill_amount in
  handle ← order_remaining (o_order_id order);
  _ ← h_write PU128 handle new_remaining;
  quote_amount ← ok_or under_overflow (base_to_quote fill_amount (o_tick order) (if o_is_bid order then Down else Up));
  _ ← (if o_is_bid order then increment_balance (o_maker order) (bd_base orderbook) fill_amount
       else increment_balance (o_maker order) (bd_quote orderbook) quote_amount);
  let amount_out := if o_is_bid order then quote_amount else fill_amount in
  _ ← when (negb is_t12)
    (new_liquidity ← ok_or under_overflow (checked_sub (tl_total_liquidity level) fill_amount);
     write_tick_level book (o_tick order) (o_is_bid order) (mkLevel (tl_head level) (tl_tail level) new_liquidity));
  _ ← emit_order_filled (o_order_id order) (o_maker order) taker fill_amount true;
  mret amount_out.

(** The flip of a filled order, and what is left of it. *)
Definition settle_flip (storage_credits : StorageCreditDeltas) (order : Order) (orderbook : OrderbookData) : M StorageCreditDeltas :=
  result ← try
    (if is_t5 then flip_in_place order (bd_base orderbook) (bd_quote orderbook)
     else _ ← place_flip (o_maker order) (bd_base orderbook) (o_amount order) (negb (o_is_bid order)) (o_flip_tick order) (o_tick order) true;
          mret tt);
  match result with
  | inl _ => if is_t5 then mret storage_credits else delete_order_and_track_deltas storage_credits order
  | inr error =>
      if is_system_error error && is_t1a then throw error
      else
        _ ← when is_t5 (dex_emit "FlipFailed" [Word (o_order_id order); Word (o_maker order);
          match error with Revert name _ => Selector name | UnknownFunctionSelector w => Word w | _ => Word 0 end]);
        delete_order_and_track_deltas storage_credits order
  end.

(** After the last order of a level: the next level of the side. *)
Definition leave_level (book_key : B256) (order : Order) : M (option (TickLevel * Order)) :=
  let book := book_slot book_key in
  _ ← delete_tick_level book (o_tick order) (o_is_bid order);
  _ ← delete_tick_bit book (o_tick order) (o_is_bid order);
  '(tick, has_liquidity) ← next_initialized_tick book (o_tick order) (o_is_bid order);
  _ ← (if o_is_bid order then write_best_bid_tick book (if has_liquidity : bool then tick else i16_min)
       else write_best_ask_tick book (if has_liquidity : bool then tick else i16_max));
  if has_liquidity : bool then
    new_level ← read_tick_level book tick (o_is_bid order);
    new_order ← read_in_book (tl_head new_level) book_key;
    mret (Some (new_level, new_order))
  else mret None.

(** After another order of a level: the order behind it. *)
Definition advance_level (storage_credits : StorageCreditDeltas) (book_key : B256) (order : Order) (level : TickLevel)
    (fill_amount : u128) : M (StorageCreditDeltas * (TickLevel * Order)) :=
  '(_, credits) ← track_minted_credits STABLECOIN_DEX_ADDRESS (handle ← order_prev (o_next order); h_delete PU128 handle);
  new_liquidity ←
    (if is_t12 then mret (tl_total_liquidity level)
     else ok_or under_overflow (checked_sub (tl_total_liquidity level) fill_amount));
  let level := mkLevel (o_next order) (tl_tail level) new_liquidity in
  _ ← write_tick_level (book_slot book_key) (o_tick order) (o_is_bid order) level;
  new_order ← read_in_book (o_next order) book_key;
  mret (credit_slots storage_credits (o_maker new_order) credits, (level, new_order)).

Definition fill_order (storage_credits : StorageCreditDeltas) (book_key : B256) (order : Order) (level : TickLevel)
    (taker : Address) : M (StorageCreditDeltas * (u128 * option (TickLevel * Order))) :=
  orderbook ← read_data (book_slot book_key);
  let fill_amount := o_remaining order in
  amount_out ←
    (if o_is_bid order then
       _ ← increment_balance (o_maker order) (bd_base orderbook) fill_amount;
       ok_or under_overflow (base_to_quote fill_amount (o_tick order) Down)
     else
       quote_amount ← ok_or under_overflow (base_to_quote fill_amount (o_tick order) Up);
       _ ← increment_balance (o_maker order) (bd_quote orderbook) quote_amount;
       mret fill_amount);
  _ ← emit_order_filled (o_order_id order) (o_maker order) taker fill_amount false;
  storage_credits ←
    (if o_is_flip order then settle_flip storage_credits order orderbook
     else delete_order_and_track_deltas storage_credits order);
  if decide (o_next order = 0) then
    next ← leave_level book_key order;
    mret (storage_credits, (amount_out, next))
  else
    '(storage_credits, next) ← advance_level storage_credits book_key order level fill_amount;
    mret (storage_credits, (amount_out, Some next)).

Definition get_best_price_level (book_key : B256) (is_bid : bool) : M TickLevel :=
  orderbook ← read_data (book_slot book_key);
  current_tick ←
    (if is_bid then
       if decide (bd_best_bid_tick orderbook = i16_min) then throw err_insufficient_liquidity else mret (bd_best_bid_tick orderbook)
     else
       if decide (bd_best_ask_tick orderbook = i16_max) then throw err_insufficient_liquidity else mret (bd_best_ask_tick orderbook));
  read_tick_level (book_slot book_key) current_tick is_bid.

(** The loop of a swap: [fuel] orders at most. *)
Fixpoint exact_in_loop (fuel : nat) (credits : StorageCreditDeltas) (book_key : B256) (bid : bool) (taker : Address)
    (level : TickLevel) (order : Order) (amount_in total_amount_out : u128) : M (StorageCreditDeltas * u128) :=
  if decide (amount_in <= 0) then mret (credits, total_amount_out)
  else
    match fuel with
    | O => fun s => (Panic, s)
    | S fuel =>
        let tick := o_tick order in
        fill_amount ←
          (if bid then mret (Z.min amount_in (o_remaining order))
           else
             base_out ← ok_or under_overflow (quote_to_base amount_in tick Down);
             mret (Z.min base_out (o_remaining order)));
        if decide (fill_amount < o_remaining order) then
          amount_out ← partial_fill_order order level fill_amount taker;
          total ← ok_or under_overflow (checked_add u128_max total_amount_out amount_out);
          mret (credits, total)
        else
          '(credits, (amount_out, next_order_info)) ← fill_order credits book_key order level taker;
          total ← ok_or under_overflow (checked_add u128_max total_amount_out amount_out);
          amount_in ←
            (if bid then
               if decide (o_remaining order < amount_in) then ok_or under_overflow (checked_sub amount_in (o_remaining order))
               else mret 0
             else
               base_out ← ok_or under_overflow (quote_to_base amount_in tick Down);
               if decide (o_remaining order < base_out) then
                 quote_needed ← ok_or under_overflow (base_to_quote (o_remaining order) tick Up);
                 ok_or under_overflow (checked_sub amount_in quote_needed)
               else mret 0);
          match next_order_info with
          | Some (new_level, new_order) => exact_in_loop fuel credits book_key bid taker new_level new_order amount_in total
          | None => if decide (0 < amount_in) then throw err_insufficient_liquidity else mret (credits, total)
          end
    end.

Definition fill_orders_exact_in (fuel : nat) (credits : StorageCreditDeltas) (book_key : B256) (bid : bool) (amount_in : u128)
    (taker : Address) : M (StorageCreditDeltas * u128) :=
  level ← get_best_price_level book_key bid;
  order ← read_in_book (tl_head level) book_key;
  exact_in_loop fuel credits book_key bid taker level order amount_in 0.

Fixpoint exact_out_loop (fuel : nat) (credits : StorageCreditDeltas) (book_key : B256) (bid : bool) (taker : Address)
    (level : TickLevel) (order : Order) (amount_out total_amount_in : u128) : M (StorageCreditDeltas * u128) :=
  if decide (amount_out <= 0) then mret (credits, total_amount_in)
  else
    match fuel with
    | O => fun s => (Panic, s)
    | S fuel =>
        let tick := o_tick order in
        '(fill_amount, amount_in) ←
          (if bid then
             base_needed ← ok_or under_overflow (quote_to_base amount_out tick Up);
             let fill_amount := Z.min base_needed (o_remaining order) in
             mret (fill_amount, fill_amount)
           else
             let fill_amount := Z.min amount_out (o_remaining order) in
             amount_in ← ok_or under_overflow (base_to_quote fill_amount tick Up);
             mret (fill_amount, amount_in));
        if decide (fill_amount < o_remaining order) then
          _ ← partial_fill_order order level fill_amount taker;
          total ← ok_or under_overflow (checked_add u128_max total_amount_in amount_in);
          mret (credits, total)
        else
          '(credits, (amount_out_received, next_order_info)) ← fill_order credits book_key order level taker;
          total ← ok_or under_overflow (checked_add u128_max total_amount_in amount_in);
          amount_out ←
            (if bid then
               base_needed ← ok_or under_overflow (quote_to_base amount_out tick Up);
               if decide (o_remaining order < base_needed) then ok_or under_overflow (checked_sub amount_out amount_out_received)
               else mret 0
             else if decide (o_remaining order < amount_out) then ok_or under_overflow (checked_sub amount_out amount_out_received)
             else mret 0);
          match next_order_info with
          | Some (new_level, new_order) => exact_out_loop fuel credits book_key bid taker new_level new_order amount_out total
          | None => if decide (0 < amount_out) then throw err_insufficient_liquidity else mret (credits, total)
          end
    end.

Definition fill_orders_exact_out (fuel : nat) (credits : StorageCreditDeltas) (book_key : B256) (bid : bool) (amount_out : u128)
    (taker : Address) : M (StorageCreditDeltas * u128) :=
  level ← get_best_price_level book_key bid;
  order ← read_in_book (tl_head level) book_key;
  exact_out_loop fuel credits book_key bid taker level order amount_out 0.

(** ** Quotes *)

Definition next_order_after (book_key : B256) (order : Order) (is_bid : bool) : M (option Order) :=
  if decide (o_next order <> 0) then order ← read_in_book (o_next order) book_key; mret (Some order)
  else
    '(next_tick, has_liquidity) ← next_initialized_tick (book_slot book_key) (o_tick order) is_bid;
    if has_liquidity : bool then
      next_level ← read_tick_level (book_slot book_key) next_tick is_bid;
      order ← read_in_book (tl_head next_level) book_key;
      mret (Some order)
    else mret None.

Fixpoint quote_loop (fuel : nat) (book_key : B256) (is_bid : bool) (step : u128 -> Order -> bool -> option OrderStep)
    (order : Order) (amount total : u128) : M u128 :=
  if decide (amount <= 0) then mret total
  else
    match fuel with
    | O => fun s => (Panic, s)
    | S fuel =>
        s ← ok_or under_overflow (step amount order is_bid);
        if decide (st_fill_amount s < o_remaining order) then ok_or under_overflow (checked_add u128_max total (st_accumulate s))
        else
          next ← next_order_after book_key order is_bid;
          total ← ok_or under_overflow (checked_add u128_max total (st_accumulate s));
          match next with
          | Some next => quote_loop fuel book_key is_bid step next (st_next_amount s) total
          | None => if decide (0 < st_next_amount s) then throw err_insufficient_liquidity else mret total
          end
    end.

Definition quote_per_order (fuel : nat) (book_key : B256) (amount : u128) (is_bid : bool)
    (step : u128 -> Order -> bool -> option OrderStep) : M u128 :=
  level ← get_best_price_level book_key is_bid;
  order ← read_in_book (tl_head level) book_key;
  quote_loop fuel book_key is_bid step order amount 0.

(** Before T12 quotes are by level. *)
Fixpoint quote_in_levels (fuel : nat) (book : Slot) (is_bid : bool) (current_tick : i16) (remaining_in amount_out : u128) : M u128 :=
  if decide (remaining_in <= 0) then mret amount_out
  else
    match fuel with
    | O => fun s => (Panic, s)
    | S fuel =>
        level ← read_tick_level book current_tick is_bid;
        let liquidity := tl_total_liquidity level in
        if decide (liquidity = 0) then
          '(next_tick, initialized) ← next_initialized_tick book current_tick is_bid;
          if initialized : bool then quote_in_levels fuel book is_bid next_tick remaining_in amount_out
          else throw err_insufficient_liquidity
        else
          '(fill_amount, amount_out_tick, amount_consumed) ←
            (if is_bid then
               let fill := Z.min remaining_in liquidity in
               quote_out ← ok_or under_overflow (base_to_quote fill current_tick Down);
               mret (fill, quote_out, fill)
             else
               base_to_get ← ok_or under_overflow (quote_to_base remaining_in current_tick Down);
               let fill := Z.min base_to_get liquidity in
               quote_consumed ← ok_or under_overflow (base_to_quote fill current_tick Up);
               mret (fill, fill, quote_consumed));
          remaining_in ← ok_or under_overflow (checked_sub remaining_in amount_consumed);
          amount_out ← ok_or under_overflow (checked_add u128_max amount_out amount_out_tick);
          if decide (fill_amount = liquidity) then
            '(next_tick, initialized) ← next_initialized_tick book current_tick is_bid;
            if negb initialized && bool_decide (0 < remaining_in) then throw err_insufficient_liquidity
            else quote_in_levels fuel book is_bid next_tick remaining_in amount_out
          else mret amount_out
    end.

(** The best tick of a side, when it has one. *)
Definition best_tick_of (book_key : B256) (is_bid : bool) : M i16 :=
  orderbook ← read_data (book_slot book_key);
  let current_tick := if is_bid then bd_best_bid_tick orderbook else bd_best_ask_tick orderbook in
  if decide (current_tick = i16_min \/ current_tick = i16_max) then throw err_insufficient_liquidity else mret current_tick.

Definition quote_exact_in (fuel : nat) (book_key : B256) (amount_in : u128) (is_bid : bool) : M u128 :=
  if is_t12 then quote_per_order fuel book_key amount_in is_bid step_exact_in
  else
    current_tick ← best_tick_of book_key is_bid;
    quote_in_levels fuel (book_slot book_key) is_bid current_tick amount_in 0.

Fixpoint quote_out_levels (fuel : nat) (book : Slot) (is_bid : bool) (current_tick : i16) (remaining_out amount_in : u128) : M u128 :=
  if decide (remaining_out <= 0) then mret amount_in
  else
    match fuel with
    | O => fun s => (Panic, s)
    | S fuel =>
        level ← read_tick_level book current_tick is_bid;
        let liquidity := tl_total_liquidity level in
        if decide (liquidity = 0) then
          '(next_tick, initialized) ← next_initialized_tick book current_tick is_bid;
          if initialized : bool then quote_out_levels fuel book is_bid next_tick remaining_out amount_in
          else throw err_insufficient_liquidity
        else
          '(fill_amount, amount_in_tick) ←
            (if is_bid then
               base_needed ← ok_or under_overflow (quote_to_base remaining_out current_tick Up);
               let fill_amount := Z.min base_needed liquidity in
               mret (fill_amount, fill_amount)
             else
               let fill_amount := Z.min remaining_out liquidity in
               quote_needed ← ok_or under_overflow (base_to_quote fill_amount current_tick Up);
               mret (fill_amount, quote_needed));
          amount_out_tick ←
            (if is_bid then
               out ← ok_or under_overflow (base_to_quote fill_amount current_tick Down);
               mret (Z.min out remaining_out)
             else mret fill_amount);
          let remaining_out := saturating_sub remaining_out amount_out_tick in
          amount_in ← ok_or under_overflow (checked_add u128_max amount_in amount_in_tick);
          if decide (fill_amount = liquidity) then
            '(next_tick, initialized) ← next_initialized_tick book current_tick is_bid;
            if negb initialized && bool_decide (0 < remaining_out) then throw err_insufficient_liquidity
            else quote_out_levels fuel book is_bid next_tick remaining_out amount_in
          else mret amount_in
    end.

Definition quote_exact_out (fuel : nat) (book_key : B256) (amount_out : u128) (is_bid : bool) : M u128 :=
  if is_t12 then quote_per_order fuel book_key amount_out is_bid step_exact_out
  else
    current_tick ← best_tick_of book_key is_bid;
    quote_out_levels fuel (book_slot book_key) is_bid current_tick amount_out 0.

(** ** Routes *)

(** [for i in 0..path.len() - 1]. *)
Fixpoint validate_and_build_route (path : list Address) : M (list (B256 * bool)) :=
  match path with
  | token_in :: (token_out :: _) as rest =>
      _ ← tip20_from_address token_in;
      _ ← when is_t3 (check_not_paused token_in);
      in_quote ← quote_token token_in;
      '(base, quote) ←
        (if decide (in_quote = token_out) then mret (token_in, token_out)
         else
           out_quote ← token_quote token_out;
           if decide (out_quote = token_in) then mret (token_out, token_in) else throw err_pair_does_not_exist);
      let book_key := compute_book_key base quote in
      orderbook ← read_data (book_slot book_key);
      if decide (bd_base orderbook = 0) then throw err_pair_does_not_exist
      else
        route ← validate_and_build_route rest;
        mret ((book_key, bool_decide (token_in = base)) :: route)
  | _ => mret []
  end.

(** The loop up the quote tokens: [fuel] of them at most. *)
Fixpoint find_path_to_root (fuel : nat) (token : Address) : M (list Address) :=
  if decide (token = PATH_USD_ADDRESS) then mret [token]
  else
    match fuel with
    | O => fun s => (Panic, s)
    | S fuel =>
        quote ← token_quote token;
        path ← find_path_to_root fuel quote;
        mret (token :: path)
    end.

Fixpoint take_until (x : Address) (l : list Address) : list Address :=
  match l with
  | [] => []
  | y :: l => if decide (y = x) then [] else y :: take_until x l
  end.

(** The tokens up to the first common one, and back down from it. *)
Definition join_paths (path_in path_out : list Address) : option (list Address) :=
  '(_, lca) ← list_find (.∈ path_out) path_in;
  Some (take_until lca path_in ++ [lca] ++ rev (take_until lca path_out)).

Definition find_trade_path (fuel : nat) (token_in token_out : Address) : M (list (B256 * bool)) :=
  if decide (token_in = token_out) then throw err_identical_tokens
  else if negb (is_tip20_prefix token_in) || negb (is_tip20_prefix token_out) then throw err_invalid_token
  else
    in_quote ← token_quote token_in;
    out_quote ← token_quote token_out;
    if decide (in_quote = token_out \/ out_quote = token_in) then validate_and_build_route [token_in; token_out]
    else
      path_in ← find_path_to_root fuel token_in;
      path_out ← find_path_to_root fuel token_out;
      trade_path ← ok_or err_pair_does_not_exist (join_paths path_in path_out);
      validate_and_build_route trade_path.

(** ** Swaps *)

Fixpoint swap_in_route (fuel : nat) (credits : StorageCreditDeltas) (route : list (B256 * bool)) (amount : u128) (taker : Address)
    : M (StorageCreditDeltas * u128) :=
  match route with
  | [] => mret (credits, amount)
  | (book_key, base_for_quote) :: route =>
      '(credits, amount) ← fill_orders_exact_in fuel credits book_key base_for_quote amount taker;
      swap_in_route fuel credits route amount taker
  end.

Definition swap_exact_amount_in (fuel : nat) (sender token_in token_out : Address) (amount_in min_amount_out : u128) : M u128 :=
  route ← find_trade_path fuel token_in token_out;
  _ ← decrement_balance_or_transfer_from sender token_in amount_in false;
  '(credits, amount) ← swap_in_route fuel [] route amount_in sender;
  if decide (amount < min_amount_out) then throw err_insufficient_output
  else
    _ ← transfer token_out sender amount;
    _ ← flush_credits credits credit_dex_storage_slots;
    mret amount.

(** Over the reversed route. *)
Fixpoint swap_out_route (fuel : nat) (credits : StorageCreditDeltas) (route : list (B256 * bool)) (amount : u128) (taker : Address)
    : M (StorageCreditDeltas * u128) :=
  match route with
  | [] => mret (credits, amount)
  | (book_key, base_for_quote) :: route =>
      '(credits, amount) ← fill_orders_exact_out fuel credits book_key base_for_quote amount taker;
      swap_out_route fuel credits route amount taker
  end.

Definition swap_exact_amount_out (fuel : nat) (sender token_in token_out : Address) (amount_out max_amount_in : u128) : M u128 :=
  route ← find_trade_path fuel token_in token_out;
  '(credits, amount) ← swap_out_route fuel [] (rev route) amount_out sender;
  if decide (max_amount_in < amount) then throw err_max_input_exceeded
  else
    _ ← decrement_balance_or_transfer_from sender token_in amount false;
    _ ← transfer token_out sender amount_out;
    _ ← flush_credits credits credit_dex_storage_slots;
    mret amount.

Fixpoint quote_in_route (fuel : nat) (route : list (B256 * bool)) (amount : u128) : M u128 :=
  match route with
  | [] => mret amount
  | (book_key, base_for_quote) :: route =>
      amount ← quote_exact_in fuel book_key amount base_for_quote;
      quote_in_route fuel route amount
  end.

Definition quote_swap_exact_amount_in (fuel : nat) (token_in token_out : Address) (amount_in : u128) : M u128 :=
  route ← find_trade_path fuel token_in token_out;
  quote_in_route fuel route amount_in.

Fixpoint quote_out_route (fuel : nat) (route : list (B256 * bool)) (amount : u128) : M u128 :=
  match route with
  | [] => mret amount
  | (book_key, base_for_quote) :: route =>
      amount ← quote_exact_out fuel book_key amount base_for_quote;
      quote_out_route fuel route amount
  end.

Definition quote_swap_exact_amount_out (fuel : nat) (token_in token_out : Address) (amount_out : u128) : M u128 :=
  route ← find_trade_path fuel token_in token_out;
  quote_out_route fuel (rev route) amount_out.

(** ** Cancelling orders *)

(** An order that left its level empty: the bitmap and the best tick. *)
Definition drop_empty_level (book : Slot) (order : Order) : M unit :=
  _ ← delete_tick_bit book (o_tick order) (o_is_bid order);
  orderbook ← read_data book;
  let best_tick := if o_is_bid order then bd_best_bid_tick orderbook else bd_best_ask_tick orderbook in
  if decide (best_tick = o_tick order) then
    '(next_tick, has_liquidity) ← next_initialized_tick book (o_tick order) (o_is_bid order);
    if o_is_bid order then write_best_bid_tick book (if has_liquidity : bool then next_tick else i16_min)
    else write_best_ask_tick book (if has_liquidity : bool then next_tick else i16_max)
  else mret tt.

(** Taking an order out of the list of its level. *)
Definition unlink_order (order : Order) (level : TickLevel) : M TickLevel :=
  head ←
    (if decide (o_prev order <> 0) then
       _ ← unlink_neighbor_and_credit_maker (o_prev order) (handle ← order_next (o_prev order); h_write PU128 handle (o_next order));
       mret (tl_head level)
     else mret (o_next order));
  tail ←
    (if decide (o_next order <> 0) then
       _ ← unlink_neighbor_and_credit_maker (o_next order) (handle ← order_prev (o_next order); h_write PU128 handle (o_prev order));
       mret (tl_tail level)
     else mret (o_prev order));
  mret (mkLevel head tail (tl_total_liquidity level)).

Definition cancel_active_order (order : Order) : M unit :=
  let book := book_slot (o_book_key order) in
  level ← read_tick_level book (o_tick order) (o_is_bid order);
  level ← unlink_order order level;
  '(level, has_level_changed) ←
    (if is_t12 then mret (level, bool_decide (o_prev order = 0) || bool_decide (o_next order = 0))
     else
       new_liquidity ← ok_or under_overflow (checked_sub (tl_total_liquidity level) (o_remaining order));
       mret (mkLevel (tl_head level) (tl_tail level) new_liquidity, true));
  _ ← when (bool_decide (tl_head level = 0)) (drop_empty_level book order);
  _ ← when has_level_changed (write_tick_level book (o_tick order) (o_is_bid order) level);
  orderbook ← read_data book;
  _ ← (if o_is_bid order then
         quote_amount ← ok_or under_overflow (base_to_quote (o_remaining order) (o_tick order) Up);
         increment_balance (o_maker order) (bd_quote orderbook) quote_amount
       else increment_balance (o_maker order) (bd_base orderbook) (o_remaining order));
  credits ← delete_order order;
  _ ← credit_dex_storage_slots (o_maker order) credits;
  dex_emit "OrderCancelled" [Word (o_order_id order)].

Definition cancel (sender : Address) (order_id : u128) : M unit :=
  order ← order_read order_id;
  if decide (o_maker order = 0) then throw err_order_does_not_exist
  else if decide (o_maker order <> sender) then throw err_unauthorized
  else if decide (o_remaining order = 0) then throw err_order_does_not_exist
  else cancel_active_order order.

Definition is_authorized_for_token (token user : Address) (role : AuthRole) : M bool :=
  _ ← tip20_from_address token;
  policy_id ← transfer_policy_id token;
  result ← try (is_authorized_as policy_id user role);
  match result with
  | inl authorized => mret authorized
  | inr e => if is_policy_lookup_error e then mret false else throw e
  end.

Definition is_maker_authorized (order : Order) : M bool :=
  book ← read_data (book_slot (o_book_key order));
  let '(token_in, token_out) := if o_is_bid order then (bd_quote book, bd_base book) else (bd_base book, bd_quote book) in
  authorized ← is_authorized_for_token token_in (o_maker order) Sender;
  if negb authorized then mret false
  else if is_t4 then is_authorized_for_token token_out (o_maker order) Recipient
  else mret true.

Definition cancel_stale_order (order_id : u128) : M unit :=
  order ← order_read order_id;
  if decide (o_maker order = 0) then throw err_order_does_not_exist
  else
    authorized ← is_maker_authorized order;
    if authorized : bool then throw err_order_not_stale else cancel_active_order order.

Definition withdraw (user token : Address) (amount : u128) : M unit :=
  current_balance ← balance_of user token;
  if decide (current_balance < amount) then throw err_insufficient_balance
  else
    _ ← sub_balance user token amount;
    transfer token user amount.
End dex.
