(* ===== verification/DexStore.v ===== *)
(** * The typed state of the exchange

    [Store] is what the words of the exchange say: its books, price levels,
    initialized ticks, orders, balances and book keys. [words] relates it to
    them, whatever layout an order is in. [trip] is a triple over words and
    [acts] one over stores: what reading and writing the data of a book, a price
    level, a balance, the next id or the book keys does to the [Store]. *)

From stdpp Require Import prelude gmap list strings.
From S2P Require Import Prelude TempoEvm DexCredits DexTypes DexBook Dex.

#[local] Open Scope Z_scope.

(** ** Triples over words *)

Definition upd (d : Slot -> U256) (slot : Slot) (v : U256) : Slot -> U256 := fun x => if decide (x = slot) then v else d x.

Section triples.
Context `{TempoSpec} `{TempoAddresses}.

(** In a state whose words are [d] the computation returns [a] and leaves [d']. *)
Definition trip {A} (d : Slot -> U256) (m : M A) (a : A) (d' : Slot -> U256) : Prop :=
  forall s, bank_ok s -> (forall sl, dword s sl = d sl) ->
    exists s', m s = (Ok a, s') /\ bank_ok s' /\ step s s' /\ (forall sl, dword s' sl = d' sl).

Lemma trip_ret {A} d (a : A) : trip d (mret a) a d.
Proof. intros s Hok Hd. exists s. split_and!; done. Qed.

Lemma trip_bind {A B} d (m : M A) a d1 (k : A -> M B) b d2 :
  trip d m a d1 -> trip d1 (k a) b d2 -> trip d (m ≫= k) b d2.
Proof.
  intros Hm Hk s Hok Hd. destruct (Hm s Hok Hd) as (s1 & Hr1 & Hok1 & Hst1 & Hd1).
  destruct (Hk s1 Hok1 Hd1) as (s2 & Hr2 & Hok2 & Hst2 & Hd2). exists s2.
  split_and!; [|done|by etrans|done]. unfold mbind, M_bind. by rewrite Hr1.
Qed.

Lemma trip_load d sl : trip d (dex_load sl) (d sl) d.
Proof. intros s Hok Hd. exists s. rewrite <- Hd. split_and!; done. Qed.

Lemma trip_store d sl v : trip d (dex_store sl v) tt (upd d sl v).
Proof.
  intros s Hok Hd. destruct (dex_store_spec sl v s Hok) as (s' & Hr & Hok' & Hst & Hd'). exists s'. split_and!; try done.
  intros sl'. rewrite Hd'. unfold upd. by rewrite Hd.
Qed.

(** [m] computes a value from the words alone. *)
Lemma trip_pure {A} d (m : M A) a : (forall s, m s = (Ok a, s)) -> trip d m a d.
Proof. intros Hm s Hok Hd. exists s. rewrite Hm. split_and!; done. Qed.

Lemma trip_ext {A} d (m : M A) a d1 d2 : (forall sl, d1 sl = d2 sl) -> trip d m a d1 -> trip d m a d2.
Proof.
  intros Heq Hm s Hok Hd. destruct (Hm s Hok Hd) as (s1 & Hr1 & Hok1 & Hst1 & Hd1). exists s1. split_and!; try done.
  intros sl. by rewrite Hd1.
Qed.

Lemma extract_ok p w offset s : in_word offset (prim_bytes p) -> p <> PI16 ->
  extract_from_word p w offset s = (Ok (get_field w offset (prim_bytes p)), s).
Proof.
  intros Hw Hp. pose proof (get_range w offset (prim_bytes p) Hw) as Hr. pose proof Hw as (? & ? & ?). unfold extract_from_word. rewrite decide_False by lia.
  destruct p; cbn [from_word prim_bytes] in *; try done; try (rewrite decide_True by lia; done).
  unfold mret, M_ret. do 2 f_equal. apply Z.mod_small. lia.
Qed.

Lemma extract_i16 w offset s : in_word offset 2 -> extract_from_word PI16 w offset s = (Ok (i16_of_u16 (get_field w offset 2)), s).
Proof.
  intros Hw. pose proof (get_range w offset 2 Hw) as Hr. pose proof Hw as (? & ? & ?). unfold extract_from_word. cbn [prim_bytes].
  rewrite decide_False by lia. unfold from_word. by rewrite decide_True by lia.
Qed.

Lemma insert_ok p w v offset s : in_word offset (prim_bytes p) ->
  insert_into_word p w v offset s = (Ok (set_field w offset (prim_bytes p) (to_word p v)), s).
Proof. intros (? & ? & ?). unfold insert_into_word. by rewrite decide_False by lia. Qed.

Lemma trip_extract d p w offset : in_word offset (prim_bytes p) -> p <> PI16 ->
  trip d (extract_from_word p w offset) (get_field w offset (prim_bytes p)) d.
Proof. intros. apply trip_pure. intros s. by apply extract_ok. Qed.

Lemma trip_extract_i16 d w offset : in_word offset 2 -> trip d (extract_from_word PI16 w offset) (i16_of_u16 (get_field w offset 2)) d.
Proof. intros. apply trip_pure. intros s. by apply extract_i16. Qed.

Lemma trip_insert d p w v offset : in_word offset (prim_bytes p) ->
  trip d (insert_into_word p w v offset) (set_field w offset (prim_bytes p) (to_word p v)) d.
Proof. intros. apply trip_pure. intros s. by apply insert_ok. Qed.

Definition filled (w : U256) : U256 := if is_t4 then 0 else w.

Lemma trip_fill d sl : trip d (word_to_fill sl) (filled (d sl)) d.
Proof. unfold word_to_fill, filled. destruct is_t4; [apply trip_ret|apply trip_load]. Qed.

Lemma trip_when d b m d' : (b = true -> trip d m tt d') -> (b = false -> d = d') -> trip d (when b m) tt d'.
Proof. intros Ht Hf. destruct b; [by apply Ht|rewrite (Hf eq_refl); apply trip_ret]. Qed.
End triples.

Ltac in_word_tac := unfold in_word, prim_bytes; lia.

(** One step of a straight-line computation. *)
Ltac trip_step :=
  lazymatch goal with
  | |- trip _ (mbind _ _) _ _ => eapply trip_bind
  | |- trip _ (mret _) _ _ => apply trip_ret
  | |- trip _ (dex_load _) _ _ => apply trip_load
  | |- trip _ (dex_store _ _) _ _ => apply trip_store
  | |- trip _ (word_to_fill _) _ _ => apply trip_fill
  | |- trip _ (extract_from_word PI16 _ _) _ _ => apply trip_extract_i16; in_word_tac
  | |- trip _ (extract_from_word _ _ _) _ _ => apply trip_extract; [in_word_tac|discriminate]
  | |- trip _ (insert_into_word _ _ _ _) _ _ => apply trip_insert; in_word_tac
  end.

Ltac trip_run := repeat (trip_step; cbv beta zeta).

(** ** Slots of the exchange *)

Definition bslot (key : B256) (k : Z) : Slot := Mapped key (At 0) k.
Definition oslot (id : u128) (k : Z) : Slot := Mapped id (At 1) k.
Definition lslot (k : B256 * bool * i16) (i : Z) : Slot :=
  Mapped (u16_of_i16 k.2) (Mapped k.1.1 (At 0) (if k.1.2 then 2 else 3)) i.
Definition mslot (key : B256) (is_bid : bool) (word_index : i16) : Slot :=
  Mapped (u16_of_i16 word_index) (Mapped key (At 0) (if is_bid then 5 else 6)) 0.
Definition balslot (user token : Address) : Slot := Mapped token (Mapped user (At 2) 0) 0.
Definition keyslot (i : Z) : Slot := DataOf (At 4) i.
Definition crslot (user : Address) : Slot := Mapped user (At 5) 0.

(** ** The store *)

Abbreviation LevelKey := (B256 * bool * i16)%type.

Record Store := mkStore {
  st_books : gmap B256 OrderbookData;
  st_levels : gmap LevelKey TickLevel;
  st_bits : gset LevelKey;
  st_orders : gmap u128 Order;
  st_balances : gmap (Address * Address) u128;
  st_next : u128;
  st_keys : list B256;
}.

Definition book (st : Store) (key : B256) : OrderbookData := default (mkBookData 0 0 0 0 0) (st_books st !! key).
Definition level (st : Store) (k : LevelKey) : TickLevel := default (mkLevel 0 0 0) (st_levels st !! k).
Definition balance (st : Store) (user token : Address) : u128 := default 0 (st_balances st !! (user, token)).

Section words.
Context `{TempoSpec} `{TempoAddresses}.

Definition book_ranges (b : OrderbookData) : Prop :=
  is_address (bd_base b) /\ is_address (bd_quote b) /\ is_i16 (bd_best_bid_tick b) /\ is_i16 (bd_best_ask_tick b) /\ is_u32 (bd_book_id b).

Definition book_at (d : Slot -> U256) (key : B256) (b : OrderbookData) : Prop :=
  be_slice (d (bslot key 0)) 12 32 = bd_base b /\ be_slice (d (bslot key 1)) 12 32 = bd_quote b /\
  be_slice (d (bslot key 4)) 30 32 = u16_of_i16 (bd_best_bid_tick b) /\
  be_slice (d (bslot key 4)) 28 30 = u16_of_i16 (bd_best_ask_tick b) /\
  be_slice (d (bslot key 4)) 24 28 = bd_book_id b /\ book_ranges b.

Definition level_at (d : Slot -> U256) (k : LevelKey) (l : TickLevel) : Prop :=
  be_slice (d (lslot k 0)) 16 32 = tl_head l /\ be_slice (d (lslot k 0)) 0 16 = tl_tail l /\
  (if is_t12 then tl_total_liquidity l = 0 else be_slice (d (lslot k 1)) 16 32 = tl_total_liquidity l) /\
  is_u128 (tl_head l) /\ is_u128 (tl_tail l) /\ is_u128 (tl_total_liquidity l).

Definition bits_at (d : Slot -> U256) (bits : gset LevelKey) (key : B256) (is_bid : bool) (word_index : Z) : Prop :=
  is_u256 (d (mslot key is_bid word_index)) /\
  forall i, 0 <= i < 256 -> Z.testbit (d (mslot key is_bid word_index)) i = bool_decide ((key, is_bid, word_index * 256 + i) ∈ bits).

Definition order_ranges (o : Order) : Prop :=
  is_u128 (o_order_id o) /\ is_address (o_maker o) /\ is_i16 (o_tick o) /\ is_u128 (o_amount o) /\ is_u128 (o_remaining o) /\
  is_u128 (o_prev o) /\ is_u128 (o_next o) /\ is_i16 (o_flip_tick o).

Definition legacy_at (w : Z -> U256) (o : Order) : Prop :=
  get_field (w 0) 31 1 = 0 /\ be_slice (w 0) 16 32 = o_order_id o /\ be_slice (w 1) 12 32 = o_maker o /\ w 2 = o_book_key o /\
  be_slice (w 3) 31 32 = bool_u8 (o_is_bid o) /\ be_slice (w 3) 29 31 = u16_of_i16 (o_tick o) /\ be_slice (w 3) 13 29 = o_amount o /\
  be_slice (w 4) 16 32 = o_remaining o /\ be_slice (w 4) 0 16 = o_prev o /\ be_slice (w 5) 16 32 = o_next o /\
  be_slice (w 5) 15 16 = bool_u8 (o_is_flip o) /\ be_slice (w 5) 13 15 = u16_of_i16 (o_flip_tick o).

Definition compact_at (w : Z -> U256) (v : OrderVersion) (o : Order) : Prop :=
  get_field (w 0) 31 1 = u8_of_version v /\ get_field (w 0) 0 20 = o_maker o /\ get_field (w 0) 20 1 = pack_flags o /\
  get_field (w 0) 21 2 = u16_of_i16 (o_tick o) /\ get_field (w 0) 23 2 = u16_of_i16 (o_flip_tick o) /\
  get_field (w 1) 0 16 = o_amount o /\ get_field (w 1) 16 16 = o_remaining o /\ get_field (w 2) 0 16 = o_prev o /\
  get_field (w 2) 16 16 = o_next o.

(** An order in one of its layouts; the words past it are clear. *)
Definition order_at (keys : list B256) (w : Z -> U256) (v : OrderVersion) (o : Order) : Prop :=
  match v with
  | Legacy => legacy_at w o
  | V1 => compact_at w V1 o /\ w 3 = o_book_key o /\ w 4 = 0 /\ w 5 = 0
  | V2 => compact_at w V2 o /\ keys !! Z.to_nat (get_field (w 0) 25 4) = Some (o_book_key o) /\ w 3 = 0 /\ w 4 = 0 /\ w 5 = 0
  end.

Definition order_words (keys : list B256) (w : Z -> U256) (id : u128) (o : option Order) : Prop :=
  match o with
  | None => forall k, 0 <= k < 6 -> w k = 0
  | Some o => (o_order_id o = id /\ 0 < id) /\ order_ranges o /\ exists v, (is_t8 = false -> v = Legacy) /\ order_at keys w v o
  end.

Definition keys_at (d : Slot -> U256) (keys : list B256) : Prop :=
  d (At 4) = Z.of_nat (length keys) /\ Z.of_nat (length keys) <= u32_max /\
  forall i key, keys !! i = Some key -> d (keyslot (Z.of_nat i)) = key.

(** The words [d] hold the store and the makers' credits. *)
Record words (d : Slot -> U256) (st : Store) (credits : gmap Address u64) : Prop := mkWords {
  w_books : forall key, book_at d key (book st key);
  w_levels : forall k, is_i16 k.2 -> level_at d k (level st k);
  w_bits : forall key is_bid wi, -128 <= wi < 128 -> bits_at d (st_bits st) key is_bid wi;
  w_orders : forall id, order_words (st_keys st) (fun k => d (oslot id k)) id (st_orders st !! id);
  w_balances : forall user token, d (balslot user token) = balance st user token /\ is_u128 (balance st user token);
  w_next : d (At 3) = st_next st /\ is_u128 (st_next st);
  w_keys : keys_at d (st_keys st);
  w_credits : forall user, d (crslot user) = default 0 (credits !! user) /\ is_u64 (default 0 (credits !! user));
}.

(** From a store the computation returns [a] and leaves another one, the credits
    as they were. *)
Definition acts {A} (st : Store) (m : M A) (a : A) (st' : Store) : Prop :=
  forall d cr, words d st cr -> exists d', trip d m a d' /\ words d' st' cr.

Lemma acts_ret {A} st (a : A) : acts st (mret a) a st.
Proof. intros d cr Hw. exists d. split; [apply trip_ret|done]. Qed.

Lemma acts_bind {A B} st (m : M A) a st1 (k : A -> M B) b st2 : acts st m a st1 -> acts st1 (k a) b st2 -> acts st (m ≫= k) b st2.
Proof.
  intros Hm Hk d cr Hw. destruct (Hm d cr Hw) as (d1 & Ht1 & Hw1). destruct (Hk d1 cr Hw1) as (d2 & Ht2 & Hw2).
  exists d2. split; [by eapply trip_bind|done].
Qed.

(** A computation that only reads. *)
Lemma acts_read {A} st (m : M A) a : (forall d cr, words d st cr -> trip d m a d) -> acts st m a st.
Proof. intros Hm d cr Hw. exists d. split; [by eapply Hm|done]. Qed.
End words.

Definition put_book (st : Store) (key : B256) (b : OrderbookData) : Store :=
  mkStore (<[key := b]> (st_books st)) (st_levels st) (st_bits st) (st_orders st) (st_balances st) (st_next st) (st_keys st).
Definition put_level (st : Store) (k : LevelKey) (l : TickLevel) : Store :=
  mkStore (st_books st) (<[k := l]> (st_levels st)) (st_bits st) (st_orders st) (st_balances st) (st_next st) (st_keys st).
Definition with_bits (st : Store) (bits : gset LevelKey) : Store :=
  mkStore (st_books st) (st_levels st) bits (st_orders st) (st_balances st) (st_next st) (st_keys st).
Definition with_orders (st : Store) (orders : gmap u128 Order) : Store :=
  mkStore (st_books st) (st_levels st) (st_bits st) orders (st_balances st) (st_next st) (st_keys st).
Definition put_balance (st : Store) (user token : Address) (v : u128) : Store :=
  mkStore (st_books st) (st_levels st) (st_bits st) (st_orders st) (<[(user, token) := v]> (st_balances st)) (st_next st) (st_keys st).
Definition with_next (st : Store) (n : u128) : Store :=
  mkStore (st_books st) (st_levels st) (st_bits st) (st_orders st) (st_balances st) n (st_keys st).
Definition with_keys (st : Store) (keys : list B256) : Store :=
  mkStore (st_books st) (st_levels st) (st_bits st) (st_orders st) (st_balances st) (st_next st) keys.

Definition set_best (b : OrderbookData) (is_bid : bool) (tick : i16) : OrderbookData :=
  if is_bid then mkBookData (bd_base b) (bd_quote b) tick (bd_best_ask_tick b) (bd_book_id b)
  else mkBookData (bd_base b) (bd_quote b) (bd_best_bid_tick b) tick (bd_book_id b).
Definition set_id (b : OrderbookData) (id : Z) : OrderbookData :=
  mkBookData (bd_base b) (bd_quote b) (bd_best_bid_tick b) (bd_best_ask_tick b) id.
Definition best (b : OrderbookData) (is_bid : bool) : i16 := if is_bid then bd_best_bid_tick b else bd_best_ask_tick b.

Lemma slot_cases :
  (forall key k, slot_add (book_slot key) k = bslot key k) /\
  (forall key, book_slot key = bslot key 0) /\
  (forall id k, slot_add (order_slot id) k = oslot id k) /\
  (forall id, order_slot id = oslot id 0) /\
  (forall key tick b k, slot_add (level_slot (book_slot key) tick b) k = lslot (key, b, tick) k) /\
  (forall key tick b, level_slot (book_slot key) tick b = lslot (key, b, tick) 0) /\
  (forall key wi b, bitmap_slot (book_slot key) wi b = mslot key b wi).
Proof. split_and!; intros; try done; by destruct b. Qed.

Section ops.
Context `{TempoSpec} `{TempoAddresses}.

Lemma upd_same d sl v : upd d sl v sl = v.
Proof. unfold upd. by rewrite decide_True. Qed.
Lemma upd_other d sl v sl' : sl' <> sl -> upd d sl v sl' = d sl'.
Proof. intros. unfold upd. by rewrite decide_False. Qed.

(** *** Parts of [words] under a change elsewhere *)

Lemma book_at_ext d d' key b : (forall k, d' (bslot key k) = d (bslot key k)) -> book_at d key b -> book_at d' key b.
Proof. intros Heq. unfold book_at. by rewrite !Heq. Qed.

Lemma level_at_ext d d' k l : (forall i, d' (lslot k i) = d (lslot k i)) -> level_at d k l -> level_at d' k l.
Proof. intros Heq. unfold level_at. by rewrite !Heq. Qed.

Lemma bits_at_ext d d' bits key b wi : d' (mslot key b wi) = d (mslot key b wi) -> bits_at d bits key b wi -> bits_at d' bits key b wi.
Proof. intros Heq. unfold bits_at. by rewrite Heq. Qed.

Lemma order_words_ext keys w w' id o : (forall k, w' k = w k) -> order_words keys w id o -> order_words keys w' id o.
Proof.
  intros Heq. unfold order_words. destruct o as [o|]; [|intros Hw k Hk; rewrite Heq; by apply Hw].
  intros (Hid & Hr & v & Hv & Hat). split_and!; [apply Hid..|done|]. exists v. split; [done|].
  unfold order_at, legacy_at, compact_at in *. destruct v; by rewrite !Heq.
Qed.

Lemma keys_at_ext d d' keys : d' (At 4) = d (At 4) -> (forall i, d' (keyslot i) = d (keyslot i)) -> keys_at d keys -> keys_at d' keys.
Proof. intros H4 Hi (Hl & Hb & Hk). split_and!; [by rewrite H4|done|]. intros i key Hik. rewrite Hi. by apply Hk. Qed.

(** The parts of [words] one by one, each either kept or shown. *)
Lemma words_intro d d' st st' cr :
  words d st cr ->
  (forall key, book_at d' key (book st' key) \/ book st' key = book st key /\ forall k, d' (bslot key k) = d (bslot key k)) ->
  (forall k, is_i16 k.2 -> level_at d' k (level st' k) \/ level st' k = level st k /\ forall i, d' (lslot k i) = d (lslot k i)) ->
  (forall key b wi, -128 <= wi < 128 -> bits_at d' (st_bits st') key b wi \/ st_bits st' = st_bits st /\ d' (mslot key b wi) = d (mslot key b wi)) ->
  (forall id, order_words (st_keys st') (fun k => d' (oslot id k)) id (st_orders st' !! id) \/
     st_keys st' = st_keys st /\ st_orders st' !! id = st_orders st !! id /\ forall k, d' (oslot id k) = d (oslot id k)) ->
  (forall u t, (d' (balslot u t) = balance st' u t /\ is_u128 (balance st' u t)) \/ balance st' u t = balance st u t /\ d' (balslot u t) = d (balslot u t)) ->
  (d' (At 3) = st_next st' /\ is_u128 (st_next st') \/ st_next st' = st_next st /\ d' (At 3) = d (At 3)) ->
  (keys_at d' (st_keys st') \/ st_keys st' = st_keys st /\ d' (At 4) = d (At 4) /\ forall i, d' (keyslot i) = d (keyslot i)) ->
  (forall u, d' (crslot u) = d (crslot u)) ->
  words d' st' cr.
Proof.
  intros [Hb Hl Hm Ho Hbal Hn Hk Hc] Hb' Hl' Hm' Ho' Hbal' Hn' Hk' Hc'. split.
  - intros key. destruct (Hb' key) as [?|[-> Heq]]; [done|]. by eapply book_at_ext.
  - intros k Hi. destruct (Hl' k Hi) as [?|[-> Heq]]; [done|]. eapply level_at_ext; [done|by apply Hl].
  - intros key b wi Hwi. destruct (Hm' key b wi Hwi) as [?|[-> Heq]]; [done|]. eapply bits_at_ext; [done|by apply Hm].
  - intros id. destruct (Ho' id) as [?|(-> & -> & Heq)]; [done|]. eapply order_words_ext; [|apply Ho]. done.
  - intros u t. destruct (Hbal' u t) as [?|[-> ->]]; [done|]. apply Hbal.
  - destruct Hn' as [?|[-> ->]]; [done|]. apply Hn.
  - destruct Hk' as [?|(-> & H4 & Hi)]; [done|]. by eapply keys_at_ext.
  - intros u. rewrite Hc'. apply Hc.
Qed.

Lemma words_ext d d' st cr : (forall sl, d' sl = d sl) -> words d st cr -> words d' st cr.
Proof. intros Hd Hw. eapply words_intro; [exact Hw|intros; try right; repeat split; intros; done..]. Qed.
End ops.

(** A part the change does not touch. *)
Ltac kept := try right; repeat split; intros; rewrite ?upd_other by (unfold bslot, oslot, lslot, mslot, balslot, keyslot, crslot; congruence); done.
Ltac kept_words := eapply words_intro; [eassumption|intros; try kept..].

Section books.
Context `{TempoSpec} `{TempoAddresses}.

Lemma book_data_ext d key b : book_at d key b ->
  mkBookData (be_slice (d (bslot key 0)) 12 32) (be_slice (d (bslot key 1)) 12 32) (i16_of_u16 (be_slice (d (bslot key 4)) 30 32))
    (i16_of_u16 (be_slice (d (bslot key 4)) 28 30)) (be_slice (d (bslot key 4)) 24 28) = b.
Proof.
  intros (-> & -> & -> & -> & -> & (_ & _ & Hbb & Hba & _)). rewrite !i16_word by done. by destruct b.
Qed.

Lemma read_data_acts st key : acts st (read_data (book_slot key)) (book st key) st.
Proof.
  apply acts_read. intros d cr Hw. rewrite <- (book_data_ext d key _ (w_books _ _ _ Hw key)). unfold read_data. trip_run.
Qed.

Lemma book_put st key b key' : book (put_book st key b) key' = if decide (key' = key) then b else book st key'.
Proof.
  unfold book, put_book. cbn. case_decide as Hd; [rewrite Hd; by rewrite lookup_insert_eq|by rewrite lookup_insert_ne].
Qed.

(** A change of the last word of a book. *)
Lemma book_word_acts st key b (f : U256 -> U256) :
  (forall d, book_at d key (book st key) -> book_at (upd d (bslot key 4) (f (d (bslot key 4)))) key b) ->
  forall d cr, words d st cr -> words (upd d (bslot key 4) (f (d (bslot key 4)))) (put_book st key b) cr.
Proof.
  intros Hb d cr Hw. kept_words.
  rewrite book_put. case_decide as Hd; [rewrite Hd; left; apply Hb, Hw|]. kept.
Qed.

Lemma write_best_acts st key (is_bid : bool) tick : is_i16 tick ->
  acts st (if is_bid then write_best_bid_tick (book_slot key) tick else write_best_ask_tick (book_slot key) tick) tt
    (put_book st key (set_best (book st key) is_bid tick)).
Proof.
  intros Ht d cr Hw.
  exists (upd d (bslot key 4) (set_field (d (bslot key 4)) (if is_bid then 0 else 2) 2 (u16_of_i16 tick))). split.
  - destruct is_bid; unfold write_best_bid_tick, write_best_ask_tick; trip_run.
  - pose proof (u16_range tick) as Hu.
    apply (book_word_acts st key _ (fun w => set_field w (if is_bid then 0 else 2) 2 (u16_of_i16 tick))); [|done].
    intros d' (H1 & H2 & H3 & H4 & H5 & (Hr1 & Hr2 & Hr3 & Hr4 & Hr5)). unfold book_at, be_slice in *.
    rewrite !upd_same, !upd_other by (unfold bslot; congruence).
    destruct is_bid; cbn [set_best bd_base bd_quote bd_best_bid_tick bd_best_ask_tick bd_book_id];
      rewrite ?get_set_same, ?get_set_other by (unfold in_word; lia); split_and!; try done; by split_and!.
Qed.

Lemma write_book_id_acts st key id : is_u32 id ->
  acts st (write_book_id (book_slot key) id) tt (put_book st key (set_id (book st key) id)).
Proof.
  intros Ht d cr Hw. exists (upd d (bslot key 4) (set_field (d (bslot key 4)) 4 4 id)). split.
  - unfold write_book_id; trip_run.
  - apply (book_word_acts st key _ (fun w => set_field w 4 4 id)); [|done].
    intros d' (H1 & H2 & H3 & H4 & H5 & (Hr1 & Hr2 & Hr3 & Hr4 & Hr5)). unfold book_at, be_slice in *.
    unfold is_u32, u32_max in Ht. rewrite !upd_same, !upd_other by (unfold bslot; congruence).
    cbn [set_id bd_base bd_quote bd_best_bid_tick bd_best_ask_tick bd_book_id].
    rewrite ?get_set_same, ?get_set_other by (unfold in_word; lia). split_and!; try done; by split_and!.
Qed.

Lemma write_data_acts st key b : book_ranges b -> acts st (write_data (book_slot key) b) tt (put_book st key b).
Proof.
  intros (Hr1 & Hr2 & Hr3 & Hr4 & Hr5) d cr Hw. eexists. split; [unfold write_data; trip_run|].
  change (slot_add (book_slot key) 4) with (bslot key 4). change (slot_add (book_slot key) 1) with (bslot key 1).
  change (book_slot key) with (bslot key 0). kept_words.
  rewrite book_put. case_decide as Hd; [rewrite Hd; left|kept].
  pose proof (u16_range (bd_best_bid_tick b)) as Hu1. pose proof (u16_range (bd_best_ask_tick b)) as Hu2.
  unfold is_address in Hr1, Hr2. unfold is_u32, u32_max in Hr5. unfold book_at, be_slice, copy_be.
  repeat (rewrite upd_same || rewrite upd_other by (unfold bslot; congruence)).
  rewrite ?get_set_same, ?get_set_other, ?get_set_same by (unfold in_word; lia). rewrite ?get_set_other, ?get_set_same by (unfold in_word; lia).
  by split_and!.
Qed.

(** ** Levels *)

Lemma level_put st k l k' : level (put_level st k l) k' = if decide (k' = k) then l else level st k'.
Proof.
  unfold level, put_level. cbn. case_decide as Hd; [rewrite Hd; by rewrite lookup_insert_eq|by rewrite lookup_insert_ne].
Qed.

Lemma lslot_inj k k' i i' : is_i16 k.2 -> is_i16 k'.2 -> lslot k i = lslot k' i' -> k = k' /\ i = i'.
Proof.
  destruct k as [[key b] t], k' as [[key' b'] t']. unfold lslot. cbn. intros Ht Ht' [= Hu -> Hb ->]. split; [|done].
  apply u16_inj in Hu as ->; [|done..]. by destruct b, b'.
Qed.

Definition level_ranges (l : TickLevel) : Prop :=
  is_u128 (tl_head l) /\ is_u128 (tl_tail l) /\ is_u128 (tl_total_liquidity l) /\ (is_t12 = true -> tl_total_liquidity l = 0).

Lemma read_level_acts st key tick b : is_i16 tick ->
  acts st (read_tick_level (book_slot key) tick b) (level st (key, b, tick)) st.
Proof.
  intros Ht. apply acts_read. intros d cr Hw. pose proof (w_levels _ _ _ Hw (key, b, tick) Ht) as (Hh & Htl & Htot & _).
  unfold read_tick_level, level_load. destruct is_t12 eqn:H12.
  - replace (level st (key, b, tick)) with (mkLevel (be_slice (d (lslot (key, b, tick) 0)) 16 32) (be_slice (d (lslot (key, b, tick) 0)) 0 16) 0).
    2: { rewrite Hh, Htl, <- Htot. by destruct (level st (key, b, tick)). }
    eapply trip_bind; [apply trip_load|]. cbv beta zeta. destruct b; apply trip_ret.
  - replace (level st (key, b, tick)) with
      (mkLevel (be_slice (d (lslot (key, b, tick) 0)) 16 32) (be_slice (d (lslot (key, b, tick) 0)) 0 16) (be_slice (d (lslot (key, b, tick) 1)) 16 32)).
    2: { rewrite Hh, Htl, Htot. by destruct (level st (key, b, tick)). }
    eapply trip_bind; [apply trip_load|]. cbv beta zeta. eapply trip_bind; [apply trip_load|]. destruct b; apply trip_ret.
Qed.

(** The words of one level change. *)
Lemma level_words st k l d d' cr : is_i16 k.2 -> words d st cr -> level_at d' k l ->
  (forall sl, (forall i, sl <> lslot k i) -> d' sl = d sl) -> words d' (put_level st k l) cr.
Proof.
  intros Hk Hw Hl Hd. assert (forall sl, (forall i, sl <> lslot k i) -> d' sl = d sl) as Hd' by done. clear Hd.
  eapply words_intro; [exact Hw|..]; intros; try (right; repeat split; intros; apply Hd'; intros; unfold lslot, bslot, mslot, oslot, balslot, keyslot; congruence).
  - rewrite level_put. case_decide as Heq; [subst; by left|right; split; [done|]]. intros i. apply Hd'. intros i' Hi.
    by apply lslot_inj in Hi as [? _].
  - right. split; [done|]. apply Hd'. intros i. unfold lslot, mslot. destruct k as [[? []] ?], b; cbn; congruence.
  - apply Hd'. intros; unfold lslot, crslot; congruence.
Qed.

Lemma write_level_acts st key tick b l : is_i16 tick -> level_ranges l ->
  acts st (write_tick_level (book_slot key) tick b l) tt (put_level st (key, b, tick) l).
Proof.
  intros Ht (Hh & Htl & Htot & H12) d cr Hw. unfold write_tick_level, level_store.
  rewrite !(proj1 (proj2 (proj2 (proj2 (proj2 slot_cases))))). rewrite (proj1 (proj2 (proj2 (proj2 (proj2 (proj2 slot_cases)))))).
  unfold is_u128, u128_max in *. destruct is_t12 eqn:E12.
  - eexists. split; [trip_run|]. apply (level_words st (key, b, tick) l d); [done|done| |].
    + unfold level_at, be_slice, copy_be. rewrite E12, upd_same.
      rewrite ?get_set_same, ?get_set_other, ?get_set_same by (unfold in_word; lia). unfold is_u128, u128_max. split_and!; (done || lia || auto).
    + intros sl Hsl. by rewrite upd_other.
  - eexists. split; [trip_run|]. apply (level_words st (key, b, tick) l d); [done|done| |].
    + unfold level_at, be_slice, copy_be. rewrite E12, upd_same. rewrite (upd_other _ _ _ (lslot _ 0)) by (unfold lslot; congruence). rewrite upd_same.
      rewrite ?get_set_same, ?get_set_other, ?get_set_same by (unfold in_word; lia). unfold is_u128, u128_max. split_and!; (done || lia).
    + intros sl Hsl. by rewrite !upd_other.
Qed.

Lemma delete_level_acts st key tick b : is_i16 tick ->
  acts st (delete_tick_level (book_slot key) tick b) tt (put_level st (key, b, tick) (mkLevel 0 0 0)).
Proof.
  intros Ht d cr Hw. unfold delete_tick_level, level_delete.
  rewrite !(proj1 (proj2 (proj2 (proj2 (proj2 slot_cases))))). rewrite (proj1 (proj2 (proj2 (proj2 (proj2 (proj2 slot_cases)))))).
  destruct is_t12 eqn:E12; cbn [negb when].
  - eexists. split; [trip_run|]. apply (level_words st (key, b, tick) _ d); [done|done| |].
    + unfold level_at. rewrite E12, upd_same, !slice_zero. by split_and!.
    + intros sl Hsl. by rewrite upd_other.
  - eexists. split; [trip_run|]. apply (level_words st (key, b, tick) _ d); [done|done| |].
    + unfold level_at. rewrite E12, upd_same. rewrite (upd_other _ _ _ (lslot _ 0)) by (unfold lslot; congruence). rewrite upd_same, !slice_zero. by split_and!.
    + intros sl Hsl. by rewrite !upd_other.
Qed.
End books.

Section balances.
Context `{TempoSpec} `{TempoAddresses}.

Lemma trip_read_u128 d sl : is_u128 (d sl) -> trip d (h_read PU128 (full_slot STABLECOIN_DEX_ADDRESS sl)) (d sl) d.
Proof.
  intros Hr. unfold h_read. cbn [full_slot h_address h_slot h_offset]. eapply trip_bind; [apply trip_load|].
  apply trip_pure. intros s. unfold from_word. unfold is_u128, u128_max in Hr. rewrite decide_True by (cbn [prim_bytes]; lia). done.
Qed.

Lemma trip_write_full d p sl v : p <> PI16 -> trip d (h_write p (full_slot STABLECOIN_DEX_ADDRESS sl) v) tt (upd d sl v).
Proof. intros Hp. unfold h_write. cbn [full_slot h_address h_slot h_offset]. destruct p; (done || apply trip_store). Qed.

Lemma balance_put st u t v u' t' : balance (put_balance st u t v) u' t' = if decide ((u', t') = (u, t)) then v else balance st u' t'.
Proof.
  unfold balance, put_balance. cbn. case_decide as Hd; [rewrite Hd; by rewrite lookup_insert_eq|by rewrite lookup_insert_ne].
Qed.

Lemma balance_of_acts st u t : acts st (balance_of u t) (balance st u t) st.
Proof. apply acts_read. intros d cr Hw. destruct (w_balances _ _ _ Hw u t) as [<- Hr]. by apply trip_read_u128. Qed.

Lemma set_balance_acts st u t v : is_u128 v -> acts st (set_balance u t v) tt (put_balance st u t v).
Proof.
  intros Hv d cr Hw. exists (upd d (balslot u t) v). split; [by apply trip_write_full|]. kept_words.
  rewrite balance_put. case_decide as Hd; [injection Hd as -> ->; left; by rewrite upd_same|kept].
Qed.

Lemma increment_balance_acts st u t v : 0 <= v -> balance st u t + v <= u128_max ->
  acts st (increment_balance u t v) tt (put_balance st u t (balance st u t + v)).
Proof.
  intros Hv Hmax d cr Hw. destruct (w_balances _ _ _ Hw u t) as [_ Hr]. revert d cr Hw. unfold increment_balance.
  eapply acts_bind; [apply balance_of_acts|]. unfold checked_add. rewrite decide_True by lia.
  eapply acts_bind; [apply acts_ret|]. apply set_balance_acts. unfold is_u128 in *. lia.
Qed.

Lemma sub_balance_acts st u t v : 0 <= v <= balance st u t -> acts st (sub_balance u t v) tt (put_balance st u t (balance st u t - v)).
Proof.
  intros Hv d cr Hw. destruct (w_balances _ _ _ Hw u t) as [_ Hr]. revert d cr Hw. unfold sub_balance.
  eapply acts_bind; [apply balance_of_acts|]. unfold checked_sub. rewrite decide_True by lia.
  eapply acts_bind; [apply acts_ret|]. apply set_balance_acts. unfold is_u128 in *. lia.
Qed.

Lemma next_id_acts st : acts st next_order_id_val (Z.max (st_next st) 1) st.
Proof.
  apply acts_read. intros d cr Hw. destruct (w_next _ _ _ Hw) as [<- Hr]. unfold next_order_id_val.
  eapply trip_bind; [by apply trip_read_u128|apply trip_ret].
Qed.

Lemma write_next_acts st n : acts st (write_next_order_id n) tt (with_next st (n mod 2 ^ 128)).
Proof.
  intros d cr Hw. exists (upd d (At 3) (n mod 2 ^ 128)). split; [by apply trip_write_full|]. kept_words.
  left. rewrite upd_same. split; [done|]. unfold is_u128, u128_max. cbn [with_next st_next]. pose proof (Z.mod_pos_bound n (2 ^ 128)). lia.
Qed.

Lemma increment_next_acts st : acts st increment_next_order_id tt (with_next st ((Z.max (st_next st) 1 + 1) mod 2 ^ 128)).
Proof. unfold increment_next_order_id. eapply acts_bind; [apply next_id_acts|apply write_next_acts]. Qed.

(** ** Book keys *)

Lemma vec_len_trip d keys : keys_at d keys -> trip d (vec_len STABLECOIN_DEX_ADDRESS BOOK_KEYS) (Z.of_nat (length keys)) d.
Proof.
  intros (Hl & Hb & _). unfold vec_len. rewrite <- Hl in *.
  eapply trip_bind; [apply trip_load|]. change (d BOOK_KEYS) with (d (At 4)). cbv beta. rewrite decide_False by lia. apply trip_ret.
Qed.

Lemma vec_len_acts st : acts st (vec_len STABLECOIN_DEX_ADDRESS BOOK_KEYS) (Z.of_nat (length (st_keys st))) st.
Proof. apply acts_read. intros d cr Hw. eapply vec_len_trip, Hw. Qed.

Lemma book_key_trip d keys i key : keys_at d keys -> keys !! i = Some key -> trip d (book_key_for_index (Z.of_nat i)) key d.
Proof.
  intros Hat Hi. unfold book_key_for_index, vec_at. eapply trip_bind; [eapply trip_bind; [by apply vec_len_trip|apply trip_ret]|].
  pose proof (lookup_lt_Some _ _ _ Hi). rewrite decide_False by lia. eapply trip_bind; [apply trip_ret|].
  destruct Hat as (_ & _ & Hk). rewrite <- (Hk _ _ Hi). apply trip_load.
Qed.

Lemma book_key_acts st i key : st_keys st !! i = Some key -> acts st (book_key_for_index (Z.of_nat i)) key st.
Proof. intros Hi. apply acts_read. intros d cr Hw. eapply book_key_trip; [apply Hw|done]. Qed.

(** A new key goes last; the orders keep their indices. *)
Lemma order_words_keys keys w id o key : order_words keys w id o -> order_words (keys ++ [key]) w id o.
Proof.
  unfold order_words. destruct o as [o|]; [|done]. intros (Hid & Hr & v & Hv & Hat). split_and!; [apply Hid..|done|]. exists v. split; [done|].
  destruct v; try done. destruct Hat as (Hc & Hk & Hz). split_and!; [done| |apply Hz..]. by apply lookup_app_l_Some.
Qed.

Lemma vec_push_acts st key : Z.of_nat (length (st_keys st)) < u32_max ->
  acts st (vec_push STABLECOIN_DEX_ADDRESS BOOK_KEYS key) tt (with_keys st (st_keys st ++ [key])).
Proof.
  intros Hlen. unfold vec_push. eapply acts_bind; [apply vec_len_acts|]. cbv beta. rewrite decide_False by lia. intros d cr Hw.
  eexists. split; [eapply trip_bind; [by apply trip_write_full|by apply trip_write_full]|].
  change (slot_add (calc_data_slot BOOK_KEYS) (Z.of_nat (length (st_keys st)))) with (keyslot (Z.of_nat (length (st_keys st)))).
  change BOOK_KEYS with (At 4). kept_words.
  - left. cbn [with_keys st_keys st_orders]. apply order_words_keys.
    eapply order_words_ext; [|apply (w_orders _ _ _ Hw)]. intros k. by rewrite !upd_other by (unfold oslot, keyslot; congruence).
  - left. destruct (w_keys _ _ _ Hw) as (Hl & Hb & Hk). cbn [with_keys st_keys]. split_and!.
    + rewrite upd_same. rewrite length_app. cbn. lia.
    + rewrite length_app. cbn. lia.
    + intros i k Hi. rewrite upd_other by (unfold keyslot; congruence). apply lookup_app_Some in Hi as [Hi|[Hge Hi]].
      * pose proof (lookup_lt_Some _ _ _ Hi). rewrite upd_other by (unfold keyslot; intros [= ?]; lia). by apply Hk.
      * apply list_lookup_singleton_Some in Hi as [Hz ->]. replace i with (length (st_keys st)) by lia. by rewrite upd_same.
Qed.
End balances.
