(* ===== verification/DexOrders.v ===== *)
(** * Initialized ticks and orders in their layouts

    The search through the words of a book's bitmaps finds the nearest initialized
    tick. Reading an order gives back what was written, in each of the three
    layouts and across a change of layout; a field is written without touching the
    rest; deleting an order clears every word of it. *)

From stdpp Require Import prelude gmap list strings.
From S2P Require Import Prelude TempoEvm DexCredits DexTypes DexBook Dex DexStore.

#[local] Open Scope Z_scope.

Lemma tick_split tick : tick = Z.shiftr tick 8 * 256 + Z.land tick 255 /\ 0 <= Z.land tick 255 < 256.
Proof.
  rewrite Z.shiftr_div_pow2 by lia. change 255 with (Z.ones 8). rewrite Z.land_ones by lia. change (2 ^ 8) with 256.
  pose proof (Z.div_mod tick 256). pose proof (Z.mod_pos_bound tick 256). lia.
Qed.

Lemma word_index_range tick : is_i16 tick -> -128 <= Z.shiftr tick 8 < 128.
Proof. unfold is_i16, i16_min, i16_max. intros Ht. pose proof (tick_split tick). lia. Qed.

Lemma tick_join wi i : 0 <= i < 256 -> Z.lor (Z.shiftl wi 8) i = wi * 256 + i.
Proof.
  intros Hi. rewrite Z.shiftl_mul_pow2 by lia. change (2 ^ 8) with 256. symmetry.
  assert (Z.land (wi * 256) i = 0) as Hl.
  { apply Z.bits_inj'. intros n Hn. rewrite Z.land_spec, Z.bits_0. destruct (decide (n < 8)).
    - change 256 with (2 ^ 8). by rewrite Z.mul_pow2_bits_low.
    - rewrite (bits_above i 8 n) by lia. apply andb_false_r. }
  pose proof (Z.add_lor_land (wi * 256) i). lia.
Qed.

(** ** The lowest and the highest bit *)

Lemma trailing_zeros_spec w : 0 < w ->
  0 <= trailing_zeros w /\ Z.testbit w (trailing_zeros w) = true /\ forall i, 0 <= i < trailing_zeros w -> Z.testbit w i = false.
Proof.
  destruct w as [|p|p]; [lia| |lia]. intros _. cbn [trailing_zeros]. induction p as [p IH|p IH|]; cbn [trailing_zeros_pos].
  - split_and!; [lia|done|lia].
  - destruct IH as (H0 & H1 & H2). change (Z.pos p~0) with (2 * Z.pos p). split_and!; [lia|..].
    + rewrite Z.add_1_l. by rewrite Z.testbit_even_succ.
    + intros i Hi. destruct (decide (i = 0)) as [-> |]; [apply Z.testbit_even_0|].
      replace i with (Z.succ (i - 1)) by lia. rewrite Z.testbit_even_succ by lia. apply H2. lia.
  - split_and!; [lia|done|lia].
Qed.

Lemma mask_high i n : 0 <= n < 256 -> 0 <= i ->
  Z.testbit (if decide (n = 0) then u256_max else Z.shiftl u256_max n mod 2 ^ 256) i = bool_decide (n <= i < 256).
Proof.
  intros Hn Hi. assert (u256_max = Z.ones 256) as -> by done. case_decide.
  - subst. rewrite Z.testbit_ones_nonneg by lia. destruct (Z.ltb_spec i 256); [by rewrite bool_decide_true|by rewrite bool_decide_false by lia].
  - rewrite <- Z.land_ones, Z.land_spec, Z.shiftl_spec, (Z.testbit_ones_nonneg 256 i) by lia.
    destruct (decide (i < n)); [rewrite Z.testbit_neg_r by lia; by rewrite bool_decide_false by lia|].
    rewrite Z.testbit_ones_nonneg by lia. destruct (Z.ltb_spec i 256); [|rewrite andb_false_r; by rewrite bool_decide_false by lia].
    rewrite bool_decide_true by lia. rewrite (proj2 (Z.ltb_lt _ _)) by lia. done.
Qed.

Lemma mask_low i n : 0 <= n < 256 -> 0 <= i ->
  Z.testbit (if decide (n = 255) then u256_max else Z.shiftr u256_max (255 - n)) i = bool_decide (i <= n).
Proof.
  intros Hn Hi. assert (u256_max = Z.ones 256) as -> by done. case_decide.
  - subst. rewrite Z.testbit_ones_nonneg by lia. destruct (Z.ltb_spec i 256); [by rewrite bool_decide_true by lia|by rewrite bool_decide_false by lia].
  - rewrite Z.shiftr_spec, Z.testbit_ones_nonneg by lia.
    destruct (Z.ltb_spec (i + (255 - n)) 256); [by rewrite bool_decide_true by lia|by rewrite bool_decide_false by lia].
Qed.

Section ticks.
Context `{TempoSpec} `{TempoAddresses}.

Lemma mslot_inj key b wi key' b' wi' : is_i16 wi -> is_i16 wi' -> mslot key b wi = mslot key' b' wi' -> key = key' /\ b = b' /\ wi = wi'.
Proof. unfold mslot. intros Hw Hw' [= Hu -> Hb]. apply u16_inj in Hu as ->; [|done..]. split_and!; [done| |done]. by destruct b, b'. Qed.

(** A change of one bit. *)
Lemma bit_words st key b tick d v bits cr : is_i16 tick -> words d st cr -> is_u256 v ->
  (forall i, 0 <= i < 256 ->
     Z.testbit v i = if decide (i = Z.land tick 255) then bool_decide ((key, b, tick) ∈ bits) else Z.testbit (d (mslot key b (Z.shiftr tick 8))) i) ->
  (forall k, k <> (key, b, tick) -> k ∈ bits <-> k ∈ st_bits st) ->
  words (upd d (mslot key b (Z.shiftr tick 8)) v) (with_bits st bits) cr.
Proof.
  intros Ht Hw Hv Hbit Hbits. pose proof (tick_split tick) as [Hs Hl]. pose proof (word_index_range tick Ht) as Hwi.
  assert (forall x, -128 <= x < 128 -> is_i16 x) as Hi16 by (unfold is_i16, i16_min, i16_max; lia).
  eapply words_intro; [exact Hw|intros; try kept..].
  - right. split; [done|]. intros i. apply upd_other. destruct k as [[? []] ?], b; unfold lslot, mslot; cbn; congruence.
  - left. cbn [with_bits st_bits]. rename H1 into Hwi'.
    destruct (w_bits _ _ _ Hw key0 b0 wi Hwi') as [Hu Hold].
    destruct (decide ((key0, b0, wi) = (key, b, Z.shiftr tick 8))) as [Heq|Hne].
    + injection Heq as -> -> ->. split; [by rewrite upd_same|]. intros i Hi. rewrite upd_same, Hbit by done. destruct (decide (i = Z.land tick 255)) as [Hd|Hd].
      * subst i. by rewrite <- Hs.
      * rewrite Hold by done. apply bool_decide_ext. symmetry. apply Hbits. intros [= Heq]. lia.
    + assert (mslot key0 b0 wi <> mslot key b (Z.shiftr tick 8)) as Hsl.
      { intros (-> & -> & ->)%mslot_inj; [done|by apply Hi16..]. }
      split; [by rewrite upd_other|]. intros i Hi. rewrite upd_other by done. rewrite Hold by done. apply bool_decide_ext. symmetry. apply Hbits.
      intros [= -> -> Heq]. apply Hne. f_equal. lia.
Qed.

Lemma set_tick_bit_acts st key tick b : is_i16 tick ->
  acts st (set_tick_bit (book_slot key) tick b) tt (with_bits st ({[(key, b, tick)]} ∪ st_bits st)).
Proof.
  intros Ht d cr Hw. pose proof (tick_split tick) as [Hs Hl]. pose proof (word_index_range tick Ht) as Hwi.
  destruct (w_bits _ _ _ Hw key b _ Hwi) as [[Hu0 Hu1] _]. unfold set_tick_bit. change (bitmap_slot (book_slot key)) with (fun wi b => mslot key b wi).
  cbv beta zeta. eexists. split; [trip_run|]. unfold u256_max in Hu1. apply bit_words; [done|done|..].
  - split; [apply Z.lor_nonneg; split; [done|apply Z.shiftl_nonneg; lia]|].
    enough (Z.lor (d (mslot key b (Z.shiftr tick 8))) (Z.shiftl 1 (Z.land tick 255)) < 2 ^ 256) by (unfold u256_max; lia).
    apply word_bits; [lia|apply Z.lor_nonneg; split; [done|apply Z.shiftl_nonneg; lia]|]. intros i Hi.
    rewrite Z.lor_spec, (bits_above _ 256 i) by lia. rewrite Z.shiftl_1_l. cbn. apply Z.pow2_bits_false. lia.
  - intros i Hi. rewrite Z.lor_spec, Z.shiftl_1_l. destruct (decide (i = Z.land tick 255)) as [Hd|Hd].
    + subst. rewrite Z.pow2_bits_true by lia. rewrite orb_true_r. symmetry. apply bool_decide_true. set_solver.
    + rewrite Z.pow2_bits_false by lia. apply orb_false_r.
  - set_solver.
Qed.

Lemma delete_tick_bit_acts st key tick b : is_i16 tick ->
  acts st (delete_tick_bit (book_slot key) tick b) tt (with_bits st (st_bits st ∖ {[(key, b, tick)]})).
Proof.
  intros Ht d cr Hw. pose proof (tick_split tick) as [Hs Hl]. pose proof (word_index_range tick Ht) as Hwi.
  destruct (w_bits _ _ _ Hw key b _ Hwi) as [[Hu0 Hu1] _]. unfold delete_tick_bit. change (bitmap_slot (book_slot key)) with (fun wi b => mslot key b wi).
  cbv beta zeta. eexists. split; [trip_run|]. unfold u256_max in Hu1.
  assert (0 <= Z.ldiff (d (mslot key b (Z.shiftr tick 8))) (Z.shiftl 1 (Z.land tick 255))) as Hnn by (apply Z.ldiff_nonneg; by left).
  apply bit_words; [done|done|..].
  - split; [done|]. enough (Z.ldiff (d (mslot key b (Z.shiftr tick 8))) (Z.shiftl 1 (Z.land tick 255)) < 2 ^ 256) by (unfold u256_max; lia).
    apply word_bits; [lia|done|]. intros i Hi. rewrite Z.ldiff_spec, (bits_above _ 256 i) by lia. done.
  - intros i Hi. rewrite Z.ldiff_spec, Z.shiftl_1_l. destruct (decide (i = Z.land tick 255)) as [Hd|Hd].
    + subst. rewrite Z.pow2_bits_true by lia. rewrite andb_false_r. symmetry. apply bool_decide_false. set_solver.
    + rewrite Z.pow2_bits_false by lia. apply andb_true_r.
  - set_solver.
Qed.

(** ** The search *)

(** The nearest initialized tick from [from] upwards, or that there is none. *)
Definition found_above (bits : gset LevelKey) (key : B256) (from : i16) (r : i16 * bool) : Prop :=
  if r.2 then from <= r.1 <= MAX_TICK /\ (key, false, r.1) ∈ bits /\ forall t, from <= t < r.1 -> (key, false, t) ∉ bits
  else forall t, from <= t <= MAX_TICK -> (key, false, t) ∉ bits.

Definition found_below (bits : gset LevelKey) (key : B256) (from : i16) (r : i16 * bool) : Prop :=
  if r.2 then MIN_TICK <= r.1 <= from /\ (key, true, r.1) ∈ bits /\ forall t, r.1 < t <= from -> (key, true, t) ∉ bits
  else forall t, MIN_TICK <= t <= from -> (key, true, t) ∉ bits.

(** A word of a bitmap, bit by bit. *)
Lemma word_bit d st cr key b t i : words d st cr -> is_i16 t -> 0 <= i < 256 ->
  Z.testbit (d (mslot key b (Z.shiftr t 8))) i = bool_decide ((key, b, Z.shiftr t 8 * 256 + i) ∈ st_bits st).
Proof. intros Hw Ht Hi. by apply (w_bits _ _ _ Hw key b _ (word_index_range t Ht)). Qed.

Lemma masked_zero w m i : Z.land w m = 0 -> Z.testbit m i = true -> Z.testbit w i = false.
Proof. intros Hz Hm. pose proof (Z.land_spec w m i) as Hl. rewrite Hz, Z.bits_0, Hm, andb_true_r in Hl. done. Qed.

Lemma same_word t t' : Z.shiftr t 8 * 256 <= t' < (Z.shiftr t 8 + 1) * 256 -> exists i, 0 <= i < 256 /\ t' = Z.shiftr t 8 * 256 + i.
Proof. intros. exists (t' - Z.shiftr t 8 * 256). lia. Qed.

Lemma search_ask_spec d st cr key fuel next : words d st cr -> is_i16 next -> 7 - Z.shiftr next 8 < Z.of_nat fuel -> (0 < fuel)%nat ->
  exists r, trip d (search_ask fuel (book_slot key) next) r d /\ found_above (st_bits st) key next r.
Proof.
  intros Hw. revert next. induction fuel as [|fuel IH]; intros next Hn Hf Hpos; [lia|]. cbn [search_ask].
  change (Z.shiftr MAX_TICK 8) with 7. pose proof (tick_split next) as [Hs Hl]. case_decide as Hend.
  { eexists. split; [apply trip_ret|]. unfold found_above, MAX_TICK. cbn. intros t Ht. lia. }
  change (bitmap_slot (book_slot key)) with (fun wi b => mslot key b wi). cbv beta zeta.
  set (mask := if decide (Z.land next 255 = 0) then _ else _). set (w := d (mslot key false (Z.shiftr next 8))).
  assert (forall i, 0 <= i -> Z.testbit mask i = bool_decide (Z.land next 255 <= i < 256)) as Hmask by (intros; by apply mask_high).
  assert (forall i, 0 <= i < 256 -> Z.testbit w i = bool_decide ((key, false, Z.shiftr next 8 * 256 + i) ∈ st_bits st)) as Hbit
    by (intros i Hi; by apply (word_bit d st cr)).
  assert (0 <= w) as Hw0 by apply (w_bits _ _ _ Hw key false _ (word_index_range next Hn)).
  destruct (decide (Z.land w mask = 0)) as [Hz|Hnz].
  - assert (forall t, next <= t < (Z.shiftr next 8 + 1) * 256 -> (key, false, t) ∉ st_bits st) as Hnone.
    { intros t Ht. destruct (same_word next t) as (i & Hi & ->); [lia|]. eapply bool_decide_eq_false. rewrite <- Hbit by done.
      eapply masked_zero; [exact Hz|]. rewrite Hmask by lia. apply bool_decide_true. lia. }
    destruct (decide (7 < Z.shiftr next 8 + 1)) as [Hlast|Hmore].
    + eexists. split; [eapply trip_bind; [apply trip_load|]; cbv beta; fold w; rewrite (decide_False (P := Z.land w mask <> 0)) by tauto; apply trip_ret|].
      unfold found_above, MAX_TICK. cbn [fst snd]. intros t Ht. apply Hnone. lia.
    + destruct (IH (Z.shiftl (Z.shiftr next 8 + 1) 8)) as (r & Hr & Hfound).
      * rewrite Z.shiftl_mul_pow2 by lia. unfold is_i16, i16_min, i16_max in *. lia.
      * rewrite Z.shiftr_shiftl_l by lia. rewrite Z.shiftl_0_r. lia.
      * lia.
      * exists r. split; [eapply trip_bind; [apply trip_load|]; cbv beta; fold w; rewrite (decide_False (P := Z.land w mask <> 0)) by tauto; exact Hr|].
        rewrite Z.shiftl_mul_pow2 in Hfound by lia. unfold found_above in *. destruct r as [r []]; cbn [fst snd] in *.
        { destruct Hfound as (Hr1 & Hr2 & Hr3). split_and!; [lia|lia|done|]. intros t Ht.
          destruct (decide (t < (Z.shiftr next 8 + 1) * 256)); [apply Hnone|apply Hr3]; lia. }
        { intros t Ht. destruct (decide (t < (Z.shiftr next 8 + 1) * 256)); [apply Hnone|apply Hfound]; lia. }
  - assert (0 < Z.land w mask) as Hpos' by (pose proof (proj2 (Z.land_nonneg w mask) (or_introl Hw0)); lia).
    destruct (trailing_zeros_spec _ Hpos') as (Hz0 & Hz1 & Hz2). set (z := trailing_zeros (Z.land w mask)) in *.
    rewrite Z.land_spec, Hmask in Hz1 by done. apply andb_true_iff in Hz1 as [Hzw Hzm%bool_decide_eq_true].
    eexists. split; [eapply trip_bind; [apply trip_load|]; cbv beta; fold w; rewrite decide_True by done; apply trip_ret|].
    fold z. rewrite tick_join by lia.
    assert (forall t, next <= t < Z.shiftr next 8 * 256 + z -> (key, false, t) ∉ st_bits st) as Hnone.
    { intros t Ht. destruct (same_word next t) as (i & Hi & ->); [lia|]. eapply bool_decide_eq_false. rewrite <- Hbit by done.
      specialize (Hz2 i ltac:(lia)). rewrite Z.land_spec, Hmask in Hz2 by lia. rewrite bool_decide_true in Hz2 by lia. by rewrite andb_true_r in Hz2. }
    unfold found_above. cbn [fst snd]. case_bool_decide as Hmax.
    + split_and!; [lia|lia| |done]. rewrite Hbit in Hzw by lia. by apply bool_decide_eq_true in Hzw.
    + intros t Ht. apply Hnone. lia.
Qed.

Lemma search_bid_spec d st cr key fuel next : words d st cr -> is_i16 next -> Z.shiftr next 8 + 8 < Z.of_nat fuel -> (0 < fuel)%nat ->
  exists r, trip d (search_bid fuel (book_slot key) next) r d /\ found_below (st_bits st) key next r.
Proof.
  intros Hw. revert next. induction fuel as [|fuel IH]; intros next Hn Hf Hpos; [lia|]. cbn [search_bid].
  change (Z.shiftr MIN_TICK 8) with (-8). pose proof (tick_split next) as [Hs Hl]. case_decide as Hend.
  { eexists. split; [apply trip_ret|]. unfold found_below, MIN_TICK. cbn. intros t Ht. lia. }
  change (bitmap_slot (book_slot key)) with (fun wi b => mslot key b wi). cbv beta zeta.
  set (mask := if decide (Z.land next 255 = 255) then _ else _). set (w := d (mslot key true (Z.shiftr next 8))).
  assert (forall i, 0 <= i -> Z.testbit mask i = bool_decide (i <= Z.land next 255)) as Hmask by (intros; by apply mask_low).
  assert (forall i, 0 <= i < 256 -> Z.testbit w i = bool_decide ((key, true, Z.shiftr next 8 * 256 + i) ∈ st_bits st)) as Hbit
    by (intros i Hi; by apply (word_bit d st cr)).
  assert (0 <= w) as Hw0 by apply (w_bits _ _ _ Hw key true _ (word_index_range next Hn)).
  destruct (decide (Z.land w mask = 0)) as [Hz|Hnz].
  - assert (forall t, Z.shiftr next 8 * 256 <= t <= next -> (key, true, t) ∉ st_bits st) as Hnone.
    { intros t Ht. destruct (same_word next t) as (i & Hi & ->); [lia|]. eapply bool_decide_eq_false. rewrite <- Hbit by done.
      eapply masked_zero; [exact Hz|]. rewrite Hmask by lia. apply bool_decide_true. lia. }
    rewrite tick_join by lia. destruct (decide (Z.shiftr next 8 - 1 < -8)) as [Hlast|Hmore].
    + eexists. split; [eapply trip_bind; [apply trip_load|]; cbv beta; fold w; rewrite (decide_False (P := Z.land w mask <> 0)) by tauto; apply trip_ret|].
      unfold found_below, MIN_TICK. cbn [fst snd]. intros t Ht. apply Hnone. lia.
    + pose proof (tick_split ((Z.shiftr next 8 - 1) * 256 + 255)) as [Hs' Hl'].
      destruct (IH ((Z.shiftr next 8 - 1) * 256 + 255)) as (r & Hr & Hfound).
      * unfold is_i16, i16_min, i16_max in *. lia.
      * lia.
      * lia.
      * exists r. split; [eapply trip_bind; [apply trip_load|]; cbv beta; fold w; rewrite (decide_False (P := Z.land w mask <> 0)) by tauto; exact Hr|].
        unfold found_below in *. destruct r as [r []]; cbn [fst snd] in *.
        { destruct Hfound as (Hr1 & Hr2 & Hr3). split_and!; [lia|lia|done|]. intros t Ht.
          destruct (decide (Z.shiftr next 8 * 256 <= t)); [apply Hnone|apply Hr3]; lia. }
        { intros t Ht. destruct (decide (Z.shiftr next 8 * 256 <= t)); [apply Hnone|apply Hfound]; lia. }
  - assert (0 < Z.land w mask) as Hpos' by (pose proof (proj2 (Z.land_nonneg w mask) (or_introl Hw0)); lia).
    pose proof (Z.bit_log2 _ Hpos') as Hz1. pose proof (Z.log2_nonneg (Z.land w mask)) as Hz0.
    eexists. split; [eapply trip_bind; [apply trip_load|]; cbv beta; fold w; rewrite decide_True by done; apply trip_ret|].
    unfold leading_zeros. rewrite decide_False by lia. replace (255 - (255 - Z.log2 (Z.land w mask))) with (Z.log2 (Z.land w mask)) by lia.
    set (z := Z.log2 (Z.land w mask)) in *. rewrite Z.land_spec, Hmask in Hz1 by done. apply andb_true_iff in Hz1 as [Hzw Hzm%bool_decide_eq_true].
    rewrite tick_join by lia.
    assert (forall t, Z.shiftr next 8 * 256 + z < t <= next -> (key, true, t) ∉ st_bits st) as Hnone.
    { intros t Ht. destruct (same_word next t) as (i & Hi & ->); [lia|]. eapply bool_decide_eq_false. rewrite <- Hbit by done.
      pose proof (Z.bits_above_log2 (Z.land w mask) i ltac:(lia) ltac:(fold z; lia)) as Hz2.
      rewrite Z.land_spec, Hmask in Hz2 by lia. rewrite bool_decide_true in Hz2 by lia. by rewrite andb_true_r in Hz2. }
    unfold found_below. cbn [fst snd]. case_bool_decide as Hmin.
    + split_and!; [lia|lia| |done]. rewrite Hbit in Hzw by lia. by apply bool_decide_eq_true in Hzw.
    + intros t Ht. apply Hnone. lia.
Qed.

(** The nearest initialized tick behind [tick] on a side. *)
Definition found (bits : gset LevelKey) (key : B256) (is_bid : bool) (tick : i16) (r : i16 * bool) : Prop :=
  if is_bid then found_below bits key (tick - 1) r else found_above bits key (tick + 1) r.

Lemma next_tick_spec d st cr key tick is_bid : words d st cr -> is_i16 tick ->
  exists r, trip d (next_initialized_tick (book_slot key) tick is_bid) r d /\ found (st_bits st) key is_bid tick r.
Proof.
  intros Hw Ht. unfold is_i16, i16_min, i16_max in Ht. destruct is_bid; cbn [next_initialized_tick found].
  - unfold next_initialized_bid_tick. case_decide as Hend.
    + eexists. split; [apply trip_ret|]. unfold found_below, MIN_TICK in *. cbn. lia.
    + unfold MIN_TICK in Hend. pose proof (tick_split (tick - 1)) as [Hs Hl].
      apply (search_bid_spec d st cr); [done|unfold is_i16, i16_min, i16_max; lia|lia|lia].
  - unfold next_initialized_ask_tick. case_decide as Hend.
    + eexists. split; [apply trip_ret|]. unfold found_above, MAX_TICK in *. cbn. lia.
    + unfold MAX_TICK in Hend. pose proof (tick_split (tick + 1)) as [Hs Hl].
      apply (search_ask_spec d st cr); [done|unfold is_i16, i16_min, i16_max; lia|lia|lia].
Qed.
End ticks.

Lemma bool_word b : bool_decide (bool_u8 b <> 0) = b.
Proof. by destruct b. Qed.

Lemma flags_bid o : flags_is_bid (pack_flags o) = o_is_bid o.
Proof. unfold flags_is_bid, pack_flags. by destruct (o_is_bid o), (o_is_flip o). Qed.

Lemma flags_flip o : flags_is_flip (pack_flags o) = o_is_flip o.
Proof. unfold flags_is_flip, pack_flags. by destruct (o_is_bid o), (o_is_flip o). Qed.

Lemma pack_range o : 0 <= pack_flags o < 2 ^ 8.
Proof. unfold pack_flags. by destruct (o_is_bid o), (o_is_flip o). Qed.

Section orders.
Context `{TempoSpec} `{TempoAddresses}.

Lemma oslot_cases id : (forall k, slot_add (order_slot id) k = oslot id k) /\ order_slot id = oslot id 0.
Proof. done. Qed.

(** The words of one order change. *)
Lemma order_put_words st id m d d' cr : words d st cr ->
  order_words (st_keys st) (fun k => d' (oslot id k)) id (m !! id) ->
  (forall j, j <> id -> m !! j = st_orders st !! j) ->
  (forall sl, (forall k, sl <> oslot id k) -> d' sl = d sl) -> words d' (with_orders st m) cr.
Proof.
  intros Hw Ho Hm Hd. eapply words_intro; [exact Hw|..];
    try (intros; right; repeat split; intros; apply Hd; intros; unfold lslot, bslot, mslot, oslot, balslot, keyslot; congruence).
  - intros j. cbn [with_orders st_keys st_orders]. destruct (decide (j = id)) as [-> |Hj]; [by left|]. right. split_and!; [done|by apply Hm|].
    intros k. apply Hd. intros k'. unfold oslot. congruence.
  - intros u. apply Hd. intros. unfold oslot, crslot. congruence.
Qed.

(** ** Versions *)

Lemma version_of_trip d w v : get_field w 31 1 = u8_of_version v -> trip d (order_version_of w) v d.
Proof.
  intros Hf. unfold order_version_of. eapply trip_bind; [apply trip_extract; [in_word_tac|done]|]. cbn [prim_bytes]. rewrite Hf.
  destruct v; apply trip_ret.
Qed.

Lemma version_trip d id v : (is_t8 = false -> v = Legacy) -> get_field (d (oslot id 0)) 31 1 = u8_of_version v ->
  trip d (order_version_and_slot id) (v, if is_t8 then Some (d (oslot id 0)) else None) d.
Proof.
  intros Hv Hf. unfold order_version_and_slot. destruct is_t8; [|rewrite Hv by done; apply trip_ret].
  eapply trip_bind; [apply trip_load|]. eapply trip_bind; [by apply version_of_trip|]. apply trip_ret.
Qed.

Lemma order_at_version keys w v o : order_at keys w v o -> get_field (w 0) 31 1 = u8_of_version v.
Proof. destruct v; [intros Hat; apply Hat|intros [Hat _]; apply Hat..]. Qed.

Lemma order_version_trip d id v : (is_t8 = false -> v = Legacy) -> get_field (d (oslot id 0)) 31 1 = u8_of_version v ->
  trip d (order_version id) v d.
Proof. intros Hv Hf. unfold order_version. eapply trip_bind; [by apply version_trip|]. apply trip_ret. Qed.

(** ** Reading *)

Lemma order_load_trip d id o : legacy_at (fun k => d (oslot id k)) o -> order_ranges o -> trip d (order_load (order_slot id)) o d.
Proof.
  intros (_ & H1 & H2 & H3 & H4 & H5 & H6 & H7 & H8 & H9 & H10 & H11) (_ & _ & Ht & _ & _ & _ & _ & Hf).
  unfold order_load. destruct o; cbn in *. subst.
  replace o_is_bid with (bool_decide (be_slice (d (oslot id 3)) 31 32 <> 0)) by (rewrite H4; apply bool_word).
  replace o_is_flip with (bool_decide (be_slice (d (oslot id 5)) 15 16 <> 0)) by (rewrite H10; apply bool_word).
  rewrite <- (i16_word o_tick), <- (i16_word o_flip_tick), <- H5, <- H11 by done. trip_run.
Qed.

(** The fields of a compact order. *)
Lemma compact_load_trip {A} d id v o (k : _ -> _ -> _ -> _ -> M A) (a : A) : compact_at (fun k => d (oslot id k)) v o -> order_ranges o ->
  trip d (k (o_maker o) (pack_flags o) (o_tick o) (o_flip_tick o)) a d ->
  trip d (maker ← extract_from_word PAddress (d (oslot id 0)) 0;
          metadata ← extract_from_word PU8 (d (oslot id 0)) 20;
          tick ← extract_from_word PI16 (d (oslot id 0)) 21;
          flip_tick ← extract_from_word PI16 (d (oslot id 0)) 23;
          k maker metadata tick flip_tick) a d.
Proof.
  intros (_ & H1 & H2 & H3 & H4 & _) (_ & _ & Ht & _ & _ & _ & _ & Hf) Hk.
  eapply trip_bind; [trip_step|]. eapply trip_bind; [trip_step|]. eapply trip_bind; [trip_step|]. eapply trip_bind; [trip_step|].
  cbn [prim_bytes]. by rewrite H1, H2, H3, H4, !i16_word.
Qed.

Lemma v1_load_trip d id o : compact_at (fun k => d (oslot id k)) V1 o -> d (oslot id 3) = o_book_key o -> order_ranges o ->
  trip d (v1_load (order_slot id)) (v1_from_order o) d.
Proof.
  intros Hc H3 Hr. pose proof Hc as (_ & _ & _ & _ & _ & H5 & H6 & H7 & H8). unfold v1_load, v1_from_order. rewrite <- H5, <- H6, <- H7, <- H8, <- H3.
  do 4 (eapply trip_bind; [apply trip_load|]). eapply compact_load_trip; [done|done|].
  do 4 (eapply trip_bind; [trip_step|]). trip_run.
Qed.

Lemma v2_load_trip d id o : compact_at (fun k => d (oslot id k)) V2 o -> order_ranges o ->
  trip d (v2_load (order_slot id)) (v2_from_order o (get_field (d (oslot id 0)) 25 4)) d.
Proof.
  intros Hc Hr. pose proof Hc as (_ & _ & _ & _ & _ & H5 & H6 & H7 & H8). unfold v2_load, v2_from_order. rewrite <- H5, <- H6, <- H7, <- H8.
  do 3 (eapply trip_bind; [apply trip_load|]). eapply compact_load_trip; [done|done|].
  do 5 (eapply trip_bind; [trip_step|]). trip_run.
Qed.

Lemma v1_round o : v1_into_order (v1_from_order o) (o_order_id o) = o.
Proof. unfold v1_into_order, v1_from_order. cbn. rewrite flags_bid, flags_flip. by destruct o. Qed.

Lemma v2_round o i : v2_into_order (v2_from_order o i) (o_order_id o) (o_book_key o) = o.
Proof. unfold v2_into_order, v2_from_order. cbn. rewrite flags_bid, flags_flip. by destruct o. Qed.

Lemma read_acts st id o known : st_orders st !! id = Some o -> (known = None \/ known = Some (o_book_key o)) ->
  acts st (read_with_book_key id known) o st.
Proof.
  intros Ho Hk. apply acts_read. intros d cr Hw. pose proof (w_orders _ _ _ Hw id) as Hx. rewrite Ho in Hx.
  destruct Hx as ((Hid & Hpos) & Hr & v & Hv & Hat). unfold read_with_book_key.
  eapply trip_bind; [apply (order_version_trip d id v Hv), (order_at_version _ _ _ _ Hat)|]. destruct v; cbn [order_at] in Hat.
  - by apply order_load_trip.
  - destruct Hat as (Hc & H3 & _). eapply trip_bind; [by eapply v1_load_trip|]. cbv beta. rewrite <- Hid, v1_round. apply trip_ret.
  - destruct Hat as (Hc & Hi & _). eapply trip_bind; [by eapply v2_load_trip|]. cbv beta.
    eapply trip_bind with (a := o_book_key o) (d1 := d).
    { destruct Hk as [-> | ->]; [|apply trip_ret]. pose proof (get_range (d (oslot id 0)) 25 4 ltac:(in_word_tac)).
      cbn [v2_from_order v2_book_index]. rewrite <- (Z2Nat.id (get_field (d (oslot id 0)) 25 4)) by lia. eapply book_key_trip; [apply Hw|done]. }
    rewrite <- Hid, v2_round. apply trip_ret.
Qed.

(** What an unused id reads as. *)
Definition zero_order : Order := mkOrder 0 0 0 false 0 0 0 0 0 false 0.

Lemma read_missing_acts st id : st_orders st !! id = None -> acts st (order_read id) zero_order st.
Proof.
  intros Ho. apply acts_read. intros d cr Hw. pose proof (w_orders _ _ _ Hw id) as Hx. rewrite Ho in Hx. cbn in Hx.
  unfold order_read, read_with_book_key. eapply trip_bind; [apply (order_version_trip d id Legacy); [done|by rewrite Hx by lia]|].
  apply order_load_trip.
  - unfold legacy_at. rewrite !Hx, !slice_zero by lia. by split_and!.
  - unfold order_ranges, is_u128, is_address, is_i16, u128_max, i16_min, i16_max. cbn. lia.
Qed.

Lemma order_maker_acts st id o : st_orders st !! id = Some o -> acts st (order_maker id) (o_maker o) st.
Proof.
  intros Ho. apply acts_read. intros d cr Hw. pose proof (w_orders _ _ _ Hw id) as Hx. rewrite Ho in Hx.
  destruct Hx as (_ & _ & v & Hv & Hat). unfold order_maker. eapply trip_bind; [apply (version_trip d id v Hv), (order_at_version _ _ _ _ Hat)|].
  cbv beta iota. destruct v; cbn [order_at] in Hat.
  - destruct Hat as (_ & _ & <- & _). destruct is_t8; (eapply trip_bind; [apply trip_load|]; cbn [new_at_loc LEGACY_MAKER_LOC h_offset loc_bytes]; apply trip_extract; [in_word_tac|done]).
  - destruct Hat as ((_ & <- & _) & _). destruct is_t8 eqn:E8; [|by specialize (Hv eq_refl)]. apply trip_extract; [in_word_tac|done].
  - destruct Hat as ((_ & <- & _) & _). destruct is_t8 eqn:E8; [|by specialize (Hv eq_refl)]. apply trip_extract; [in_word_tac|done].
Qed.

(** ** Writing a field *)

Inductive Field := FRemaining | FPrev | FNext.

Definition field_handle (f : Field) : u128 -> M Handle :=
  match f with FRemaining => order_remaining | FPrev => order_prev | FNext => order_next end.

Definition set_field_of (f : Field) : Order -> u128 -> Order :=
  match f with FRemaining => set_remaining | FPrev => set_prev | FNext => set_next end.

Definition field_loc (f : Field) (v : OrderVersion) : Z * Z :=
  match v, f with
  | Legacy, FRemaining => (4, 0) | Legacy, FPrev => (4, 16) | Legacy, FNext => (5, 0)
  | _, FRemaining => (1, 16) | _, FPrev => (2, 0) | _, FNext => (2, 16)
  end.

Lemma field_ranges f o v : order_ranges o -> is_u128 v -> order_ranges (set_field_of f o v).
Proof. unfold order_ranges. destruct f; cbn; tauto. Qed.

Lemma field_key f o v : o_book_key (set_field_of f o v) = o_book_key o /\ o_order_id (set_field_of f o v) = o_order_id o.
Proof. by destruct f. Qed.

Lemma field_at keys d id v f o x : is_u128 x -> order_at keys (fun k => d (oslot id k)) v o ->
  let sl := oslot id (field_loc f v).1 in
  order_at keys (fun k => upd d sl (set_field (d sl) (field_loc f v).2 16 x) (oslot id k)) v (set_field_of f o x).
Proof.
  intros Hx Hat. unfold is_u128, u128_max in Hx.
  destruct v, f; cbn [field_loc fst snd set_field_of order_at] in *; unfold legacy_at, compact_at, be_slice in *;
    cbn [set_remaining set_prev set_next o_order_id o_maker o_book_key o_is_bid o_tick o_amount o_remaining o_prev o_next o_is_flip o_flip_tick] in *;
    repeat (rewrite upd_same || rewrite upd_other by (unfold oslot; congruence));
    rewrite ?get_set_same by (unfold in_word; lia); rewrite ?get_set_other by (unfold in_word; lia); tauto.
Qed.

Lemma handle_trip d id v f : (is_t8 = false -> v = Legacy) -> get_field (d (oslot id 0)) 31 1 = u8_of_version v ->
  trip d (field_handle f id) (mkHandle STABLECOIN_DEX_ADDRESS (oslot id (field_loc f v).1) (Some (field_loc f v).2)) d.
Proof.
  intros Hv Hf. destruct f; cbn [field_handle]; unfold order_remaining, order_prev, order_next, u128_field;
    (eapply trip_bind; [by apply order_version_trip|]); destruct v; apply trip_ret.
Qed.

(** Both ways a field is written: [write] and [delete]. *)
Lemma field_acts st id o f x (m : Handle -> M unit) : st_orders st !! id = Some o -> is_u128 x ->
  (forall d sl off, in_word off 16 ->
     trip d (m (mkHandle STABLECOIN_DEX_ADDRESS sl (Some off))) tt (upd d sl (set_field (d sl) off 16 x))) ->
  acts st (handle ← field_handle f id; m handle) tt (with_orders st (<[id := set_field_of f o x]> (st_orders st))).
Proof.
  intros Ho Hx Hm d cr Hw. pose proof (w_orders _ _ _ Hw id) as Hd. rewrite Ho in Hd. destruct Hd as ((Hid & Hpos) & Hr & v & Hv & Hat).
  eexists. split.
  - eapply trip_bind; [apply (handle_trip d id v f Hv), (order_at_version _ _ _ _ Hat)|]. apply Hm. unfold field_loc, in_word; destruct v, f; cbn [snd]; lia.
  - eapply order_put_words; [exact Hw|..].
    + rewrite lookup_insert_eq. cbn [order_words]. split_and!; [by rewrite (proj2 (field_key f o x))|done|by apply field_ranges|].
      exists v. split; [done|]. by apply field_at.
    + intros j Hj. by rewrite lookup_insert_ne.
    + intros sl Hsl. by rewrite upd_other.
Qed.

Lemma write_field_acts st id o f x : st_orders st !! id = Some o -> is_u128 x ->
  acts st (handle ← field_handle f id; h_write PU128 handle x) tt (with_orders st (<[id := set_field_of f o x]> (st_orders st))).
Proof.
  intros Ho Hx. apply (field_acts st id o f x (fun h => h_write PU128 h x)); [done|done|]. intros d sl off Hoff. unfold h_write. cbn [h_offset h_address h_slot].
  eapply trip_bind; [apply trip_load|]. eapply trip_bind; [apply trip_insert; exact Hoff|]. apply trip_store.
Qed.

Lemma delete_field_acts st id o f : st_orders st !! id = Some o ->
  acts st (handle ← field_handle f id; h_delete PU128 handle) tt (with_orders st (<[id := set_field_of f o 0]> (st_orders st))).
Proof.
  intros Ho. apply (field_acts st id o f 0 (fun h => h_delete PU128 h)); [done|by vm_compute|]. intros d sl off Hoff. pose proof Hoff as (? & ? & ?).
  unfold h_delete. cbn [h_offset h_address h_slot].
  eapply trip_bind; [apply trip_load|]. unfold delete_from_word. cbn [prim_bytes]. rewrite decide_False by lia.
  eapply trip_bind; [apply trip_ret|]. rewrite delete_is_set. apply trip_store.
Qed.

(** ** Writing an order *)

Ltac store_words := unfold be_slice, copy_be; repeat (rewrite upd_same || rewrite upd_other by (unfold oslot; congruence));
  split_and!; repeat first [rewrite get_set_same by (unfold in_word; lia)|rewrite get_set_other by (unfold in_word; lia)].

Lemma order_store_trip d id o : order_ranges o -> get_field (d (oslot id 0)) 31 1 = 0 ->
  exists d', trip d (order_store o (order_slot id)) tt d' /\ legacy_at (fun k => d' (oslot id k)) o /\
    (forall sl, (forall k, sl <> oslot id k) -> d' sl = d sl).
Proof.
  unfold order_ranges, is_u128, is_address, u128_max. intros (Hid & Hm & Ht & Ha & Hr & Hp & Hn & Hf) Hz.
  pose proof (u16_range (o_tick o)). pose proof (u16_range (o_flip_tick o)).
  assert (0 <= bool_u8 (o_is_bid o) < 2 ^ 8) as Hb1 by (destruct (o_is_bid o); cbn; lia).
  assert (0 <= bool_u8 (o_is_flip o) < 2 ^ 8) as Hb2 by (destruct (o_is_flip o); cbn; lia).
  assert (get_field (filled (d (oslot id 0))) 31 1 = 0) as H0' by (unfold filled; destruct is_t4; [apply get_zero|exact Hz]).
  eexists. split; [unfold order_store; trip_run|]. change (slot_add (order_slot id)) with (oslot id). change (order_slot id) with (oslot id 0).
  split.
  - unfold legacy_at. store_words; done.
  - intros sl Hsl. by rewrite !upd_other.
Qed.

Lemma compact_words w0 w1 w2 (w : Z -> U256) v o b : order_ranges o -> w 0 = w0 -> w 1 = w1 -> w 2 = w2 ->
  w0 = set_field (set_field (set_field (set_field (set_field (set_field 0 0 20 (o_maker o)) 20 1 (pack_flags o)) 21 2 (u16_of_i16 (o_tick o))) 23 2
    (u16_of_i16 (o_flip_tick o))) 25 4 b) 31 1 (u8_of_version v) ->
  w1 = set_field (set_field 0 0 16 (o_amount o)) 16 16 (o_remaining o) ->
  w2 = set_field (set_field 0 0 16 (o_prev o)) 16 16 (o_next o) -> compact_at w v o.
Proof.
  unfold order_ranges, is_u128, is_address, u128_max. intros (Hid & Hm & Ht & Ha & Hr & Hp & Hn & Hf) E0 E1 E2 -> -> ->.
  pose proof (u16_range (o_tick o)). pose proof (u16_range (o_flip_tick o)). pose proof (pack_range o).
  assert (0 <= u8_of_version v < 2 ^ 8) as Hv by (destruct v; cbn; lia). unfold compact_at. rewrite E0, E1, E2.
  split_and!; repeat first [rewrite get_set_same by (unfold in_word; lia)|rewrite get_set_other by (unfold in_word; lia)]; done.
Qed.

Lemma set_field_zero w offset bytes : in_word offset bytes -> get_field w offset bytes = 0 -> set_field w offset bytes 0 = w.
Proof.
  intros Hw Hz. pose proof Hw as (? & ? & ?). apply Z.bits_inj'. intros i Hi. rewrite testbit_set by (done || lia). case_decide as Hd; [|done].
  rewrite Z.bits_0. pose proof (testbit_get w offset bytes (i - offset * 8) Hw ltac:(lia)) as Hg. rewrite Hz, Z.bits_0 in Hg.
  rewrite bool_decide_true in Hg by lia. cbn in Hg. rewrite Hg. f_equal. lia.
Qed.

Lemma v1_store_trip d id o : order_ranges o ->
  exists d', trip d (v1_store (v1_from_order o) (order_slot id)) tt d' /\ compact_at (fun k => d' (oslot id k)) V1 o /\
    d' (oslot id 3) = o_book_key o /\ (forall sl, (forall k, 0 <= k < 4 -> sl <> oslot id k) -> d' sl = d sl).
Proof.
  intros Hr. eexists. split; [unfold v1_store; trip_run|]. change (slot_add (order_slot id)) with (oslot id). change (order_slot id) with (oslot id 0).
  cbn [v1_from_order v1_maker v1_metadata v1_tick v1_flip_tick v1_amount v1_remaining v1_prev v1_next v1_book_key prim_bytes to_word].
  split_and!.
  - eapply (compact_words _ _ _ _ V1 o 0 Hr); [reflexivity..| | |];
      repeat (rewrite upd_same || rewrite upd_other by (unfold oslot; congruence)); [|done..].
    rewrite (set_field_zero _ 25 4); [done|in_word_tac|]. pose proof Hr as (_ & Hm & _). unfold is_address in Hm.
    repeat rewrite get_set_other by (unfold in_word; lia). apply get_zero.
  - by rewrite upd_same.
  - intros sl Hsl. by rewrite !upd_other by (apply Hsl; lia).
Qed.

Lemma v2_store_trip d id o i : order_ranges o -> is_u32 i ->
  exists d', trip d (v2_store (v2_from_order o i) (order_slot id)) tt d' /\ compact_at (fun k => d' (oslot id k)) V2 o /\
    get_field (d' (oslot id 0)) 25 4 = i /\ (forall sl, (forall k, 0 <= k < 3 -> sl <> oslot id k) -> d' sl = d sl).
Proof.
  intros Hr Hi. eexists. split; [unfold v2_store; trip_run|]. change (slot_add (order_slot id)) with (oslot id). change (order_slot id) with (oslot id 0).
  cbn [v2_from_order v2_maker v2_metadata v2_tick v2_flip_tick v2_book_index v2_amount v2_remaining v2_prev v2_next prim_bytes to_word].
  split_and!.
  - eapply (compact_words _ _ _ _ V2 o i Hr); [reflexivity..| | |];
      repeat (rewrite upd_same || rewrite upd_other by (unfold oslot; congruence)); done.
  - repeat (rewrite upd_same || rewrite upd_other by (unfold oslot; congruence)). unfold is_u32, u32_max in Hi.
    rewrite get_set_other by (unfold in_word; lia). apply get_set_same; [in_word_tac|lia].
  - intros sl Hsl. by rewrite !upd_other by (apply Hsl; lia).
Qed.

Lemma clear_trip d id l :
  exists d', trip d (iterM (fun offset => dex_store (slot_add (order_slot id) offset) 0) l) tt d' /\
    (forall k, k ∈ l -> d' (oslot id k) = 0) /\ (forall sl, (forall k, k ∈ l -> sl <> oslot id k) -> d' sl = d sl).
Proof.
  revert d. induction l as [|x l IH]; intros d; cbn [iterM].
  - exists d. split_and!; [apply trip_ret|set_solver|done].
  - destruct (IH (upd d (oslot id x) 0)) as (d' & Ht & Hz & Hs). exists d'. split_and!.
    + eapply trip_bind; [apply trip_store|exact Ht].
    + intros k Hk. destruct (decide (k ∈ l)) as [Hin|Hin]; [by apply Hz|]. assert (k = x) as -> by set_solver.
      rewrite Hs; [apply upd_same|]. intros k Hk' [= ->]. done.
    + intros sl Hsl. rewrite Hs by (intros; apply Hsl; set_solver). apply upd_other, Hsl. set_solver.
Qed.

Lemma clear_words_trip d id a b : exists d', trip d (clear_words (order_slot id) a b) tt d' /\
  (forall k, a <= k < b -> d' (oslot id k) = 0) /\ (forall sl, (forall k, a <= k < b -> sl <> oslot id k) -> d' sl = d sl).
Proof.
  destruct (clear_trip d id (seqZ a (b - a))) as (d' & Ht & Hz & Hs). exists d'. split_and!; [exact Ht|..].
  - intros k Hk. apply Hz, elem_of_seqZ. lia.
  - intros sl Hsl. apply Hs. intros k Hk%elem_of_seqZ. apply Hsl. lia.
Qed.

(** What a slot holds before it is written: nothing, or an order and clear words
    past it. *)
Lemma old_words keys w id o : order_words keys w id o ->
  exists v, (is_t8 = false -> v = Legacy) /\ get_field (w 0) 31 1 = u8_of_version v /\
    (forall k, version_slots v <= k < 6 -> w k = 0) /\ (w 0 = 0 -> forall k, 0 <= k < 6 -> w k = 0).
Proof.
  destruct o as [o|]; cbn [order_words].
  2: { intros Hz. exists Legacy. split_and!; [done|by rewrite Hz by lia|cbn; lia|done]. }
  intros ((Hid & Hpos) & Hr & v & Hv & Hat). exists v. pose proof (order_at_version _ _ _ _ Hat) as Hver. split_and!; [done|done|..].
  - destruct v; cbn [version_slots order_at] in *; intros k Hk; [lia|..].
    + destruct Hat as (_ & _ & H4 & H5). assert (k = 4 \/ k = 5) as [-> | ->] by lia; done.
    + destruct Hat as (_ & _ & H3 & H4 & H5). assert (k = 3 \/ k = 4 \/ k = 5) as [-> |[-> | ->]] by lia; done.
  - intros Hz. exfalso. rewrite Hz in Hver. destruct v; cbn in Hver; rewrite ?get_zero in Hver; try done.
    destruct Hat as (_ & Hs & _). rewrite Hz, slice_zero in Hs. lia.
Qed.

Definition index_ok (keys : list B256) (key : B256) (book_id : Z) : Prop :=
  is_u32 book_id /\ forall i, book_id_index book_id = Some i -> keys !! Z.to_nat i = Some key.

Lemma write_acts st id o book_id : o_order_id o = id -> 0 < id -> order_ranges o -> index_ok (st_keys st) (o_book_key o) book_id ->
  acts st (write_in_book id o book_id) tt (with_orders st (<[id := o]> (st_orders st))).
Proof.
  intros Hid Hpos Hr [Hu Hk] d cr Hw. destruct (old_words _ _ _ _ (w_orders _ _ _ Hw id)) as (v & Hv & Hver & Htail & Hzero).
  enough (exists d', trip d (write_in_book id o book_id) tt d' /\ (forall sl, (forall k, sl <> oslot id k) -> d' sl = d sl) /\
    exists v', (is_t8 = false -> v' = Legacy) /\ order_at (st_keys st) (fun k => d' (oslot id k)) v' o) as (d' & Ht & Hs & v' & Hv' & Hat).
  { exists d'. split; [done|]. apply (order_put_words st id _ d); [done| | |done].
    - rewrite lookup_insert_eq. cbn. split_and!; [done|done|done|by exists v'].
    - intros j Hj. by rewrite lookup_insert_ne. }
  unfold write_in_book, write_with_book_id. destruct is_t8 eqn:E8.
  2: { rewrite (Hv eq_refl) in Hver. destruct (order_store_trip d id o Hr Hver) as (d' & Ht & Hat & Hs). exists d'. split_and!; [done|done|]. by exists Legacy. }
  pose proof (version_trip d id v ltac:(congruence) Hver) as Hvt. rewrite E8 in Hvt.
  (* the old layout's words past the new one are cleared *)
  assert (forall d1 n, (n = 3 \/ n = 4) -> (forall sl, (forall k, 0 <= k < n -> sl <> oslot id k) -> d1 sl = d sl) ->
    exists d', trip d1 (when (bool_decide (d (oslot id 0) <> 0)) (clear_words (order_slot id) n (version_slots v))) tt d' /\
      (forall k, 0 <= k < n -> d' (oslot id k) = d1 (oslot id k)) /\ (forall k, n <= k < 6 -> d' (oslot id k) = 0) /\
      (forall sl, (forall k, sl <> oslot id k) -> d' sl = d sl)) as Hclear.
  { intros d1 n Hn Hd1. assert (forall k, n <= k -> d1 (oslot id k) = d (oslot id k)) as Hrest.
    { intros k Hk1. apply Hd1. intros k' Hk' [= ->]. lia. }
    case_bool_decide as Hz; cbn [when].
    - destruct (clear_words_trip d1 id n (version_slots v)) as (d' & Ht & Hc & Hs). exists d'. split_and!; [done|..].
      + intros k Hk1. apply Hs. intros k' Hk' [= ->]. lia.
      + intros k Hk1. destruct (decide (k < version_slots v)); [apply Hc; lia|]. rewrite Hs by (intros k' Hk' [= ->]; lia).
        rewrite Hrest by lia. apply Htail. lia.
      + intros sl Hsl. rewrite Hs by auto. by apply Hd1.
    - exists d1. split_and!; [apply trip_ret|done| |intros sl Hsl; by apply Hd1].
      intros k Hk1. rewrite Hrest by lia. apply Hzero; [done|lia]. }
  destruct (book_id_index book_id) as [i|] eqn:Ei.
  - destruct (v2_store_trip d id o i Hr) as (d1 & Ht1 & Hc1 & Hi1 & Hs1).
    { unfold book_id_index in Ei. unfold is_u32 in *. case_decide; [|done]. injection Ei as <-. lia. }
    destruct (Hclear d1 3 ltac:(by left) Hs1) as (d2 & Ht2 & Hlow & Hhigh & Hs2). exists d2. split_and!.
    + eapply trip_bind; [exact Hvt|]. cbv beta iota. eapply trip_bind; [apply trip_ret|]. cbv beta iota.
      eapply trip_bind; [eapply trip_bind; [exact Ht1|apply trip_ret]|]. exact Ht2.
    + done.
    + exists V2. split; [done|]. unfold order_at, compact_at. rewrite (Hlow 0), (Hlow 1), (Hlow 2), !Hhigh by lia. rewrite Hi1. split_and!; try done; [apply Hc1..|by apply Hk].
  - destruct (v1_store_trip d id o Hr) as (d1 & Ht1 & Hc1 & Hi1 & Hs1).
    destruct (Hclear d1 4 ltac:(by right) Hs1) as (d2 & Ht2 & Hlow & Hhigh & Hs2). exists d2. split_and!.
    + eapply trip_bind; [exact Hvt|]. cbv beta iota. eapply trip_bind; [apply trip_ret|]. cbv beta iota.
      eapply trip_bind; [eapply trip_bind; [exact Ht1|apply trip_ret]|]. exact Ht2.
    + done.
    + exists V1. split; [done|]. unfold order_at, compact_at. rewrite (Hlow 0), (Hlow 1), (Hlow 2), (Hlow 3), !Hhigh by lia. split_and!; try done; apply Hc1.
Qed.

Lemma order_delete_acts st id o : st_orders st !! id = Some o -> acts st (order_delete id) tt (with_orders st (delete id (st_orders st))).
Proof.
  intros Ho d cr Hw. destruct (old_words _ _ _ _ (w_orders _ _ _ Hw id)) as (v & Hv & Hver & Htail & _).
  destruct (clear_words_trip d id 0 (version_slots v)) as (d' & Ht & Hc & Hs). exists d'. split.
  - unfold order_delete. eapply trip_bind; [by apply (order_version_trip d id v)|exact Ht].
  - apply (order_put_words st id _ d); [done| |intros j Hj; by rewrite lookup_delete_ne|intros sl Hsl; apply Hs; auto].
    rewrite lookup_delete_eq. cbn. intros k Hk. destruct (decide (k < version_slots v)); [apply Hc; lia|].
    rewrite Hs by (intros k' Hk' [= ->]; lia). apply Htail. lia.
Qed.
End orders.
