(* ===== verification/DexHolds.v ===== *)
(** * Runs of the exchange

    [holds] relates a state of the chain to a [Store]. [does] is a run that
    succeeds, [ends] one that succeeds or is reverted. The storage credits of
    the makers are written along, and never change the store. The class
    [TIP20Ok] is what the exchange relies on of the tokens. *)

From stdpp Require Import prelude gmap list strings.
From S2P Require Import Prelude TempoEvm DexCredits DexTypes DexBook Dex DexStore.

#[local] Open Scope Z_scope.

Section holds.
Context `{TempoSpec} `{TempoAddresses}.

(** Outside [with_budget] no credits are spent. *)
Definition idle (s : Evm) : Prop := is_t7 = true -> exists t, bank_state s = Some t /\ ts_mode t <> Direct.

Definition holds (s : Evm) (st : Store) : Prop := bank_ok s /\ idle s /\ exists cr, words (dword s) st cr.

(** The run succeeds. *)
Definition does {A} (m : M A) (s : Evm) (a : A) (st' : Store) : Prop :=
  exists s', m s = (Ok a, s') /\ holds s' st' /\ elsewhere s s'.

(** The run succeeds with [P], or is reverted; it does not panic. *)
Definition ends {A} (m : M A) (s : Evm) (P : A -> Evm -> Prop) : Prop :=
  match m s with
  | (Ok a, s') => flags_same s s' /\ P a s'
  | (Err _, s') => flags_same s s'
  | (Panic, _) => False
  end.

#[export] Instance flags_same_preorder : PreOrder flags_same.
Proof. split; [done|]. intros s1 s2 s3 [] []. split; congruence. Qed.

Lemma bind_ok {A B} (m : M A) (k : A -> M B) s a s' : m s = (Ok a, s') -> (m ≫= k) s = k a s'.
Proof. intros Hm. unfold mbind, M_bind. by rewrite Hm. Qed.

Lemma ends_ret {A} (a : A) s P : P a s -> ends (mret a) s P.
Proof. done. Qed.

Lemma ends_throw {A} e s (P : A -> Evm -> Prop) : ends (throw e) s P.
Proof. done. Qed.

Lemma ends_bind {A B} (m : M A) (k : A -> M B) s P : ends m s (fun a s' => ends (k a) s' P) -> ends (m ≫= k) s P.
Proof.
  unfold ends, mbind, M_bind. destruct (m s) as [[a|e|] s1]; [|done|done]. intros [Hf Hk].
  destruct (k a s1) as [[b|e|] s2]; [|by etrans|done]. destruct Hk as [Hf' HP]. split; [by etrans|done].
Qed.

Lemma bind_assoc {A B C} (m : M A) (k : A -> M B) (f : B -> M C) s : ((m ≫= k) ≫= f) s = (m ≫= (fun a => k a ≫= f)) s.
Proof. unfold mbind, M_bind. by destruct (m s) as [[a|e|] s1]. Qed.

(** A pair of steps followed by the rest. *)
Lemma ends_bind2 {A B C} (m : M A) (k : A -> M B) (f : B -> M C) s P :
  ends (m ≫= k) s (fun b s' => ends (f b) s' P) -> ends (m ≫= (fun a => k a ≫= f)) s P.
Proof. intros Hm. apply ends_bind in Hm. unfold ends in *. by rewrite bind_assoc in Hm. Qed.

Lemma ends_mono {A} (m : M A) s (P Q : A -> Evm -> Prop) : (forall a s', P a s' -> Q a s') -> ends m s P -> ends m s Q.
Proof. unfold ends. destruct (m s) as [[a|e|] s1]; [|done|done]. intros HPQ [Hf HP]. auto. Qed.

Lemma ends_ok_or {A} e (o : option A) s P : (forall a, o = Some a -> P a s) -> ends (ok_or e o) s P.
Proof. destruct o; intros Ho; [by apply ends_ret, Ho|done]. Qed.

Lemma ends_checkpoint {A} (m : M A) s P : ends m s P -> ends (checkpoint m) s P.
Proof. unfold ends, checkpoint. destruct (m s) as [[a|e|] s1]; [done| |done]. by destruct is_t1c. Qed.

Lemma ends_ok {A} (m : M A) s a s' P : m s = (Ok a, s') -> ends m s P -> P a s'.
Proof. unfold ends. intros ->. by intros [_ ?]. Qed.

(** ** Runs from triples *)

Lemma acts_run {A} (m : M A) s st a st' : holds s st -> acts st m a st' ->
  exists s', m s = (Ok a, s') /\ holds s' st' /\ elsewhere s s' /\ (is_t7 = true -> bank s <= bank s').
Proof.
  intros (Hok & Hidle & cr & Hw) Ha. destruct (Ha _ _ Hw) as (d' & Ht & Hw'). destruct (Ht s Hok (fun _ => eq_refl)) as (s' & Hr & Hok' & [He Hb] & Hd).
  exists s'. split_and!; [done| |done|].
  - split_and!; [done| |exists cr; by eapply words_ext].
    intros H7. destruct (Hidle H7) as (t & Hbs & Hm). destruct (Hb H7 t Hbs) as (t' & Ht' & Hm' & _). exists t'. split; [done|]. congruence.
  - intros H7. destruct (Hidle H7) as (t & Hbs & Hm). destruct (Hb H7 t Hbs) as (t' & _ & _ & Hle & _). by apply Hle.
Qed.

Lemma holds_acts {A} (m : M A) s st a st' : holds s st -> acts st m a st' -> does m s a st'.
Proof. intros Hh Ha. destruct (acts_run m s st a st' Hh Ha) as (s' & Hr & Hh' & He & _). by exists s'. Qed.

Lemma does_ends {A} (m : M A) s a st' (P : A -> Evm -> Prop) : does m s a st' ->
  (forall s', holds s' st' -> elsewhere s s' -> P a s') -> ends m s P.
Proof. intros (s' & Hr & Hh & He) HP. unfold ends. rewrite Hr. split; [apply He|by apply HP]. Qed.

Lemma ends_acts {A} (m : M A) s st a st' (P : A -> Evm -> Prop) : holds s st -> acts st m a st' ->
  (forall s', holds s' st' -> elsewhere s s' -> P a s') -> ends m s P.
Proof. intros Hh Ha. by eapply does_ends, holds_acts. Qed.

Lemma does_bind {A B} (m : M A) (k : A -> M B) s st' a b st'' : does m s a st' ->
  (forall s', holds s' st' -> does (k a) s' b st'') -> does (m ≫= k) s b st''.
Proof.
  intros (s1 & Hr1 & Hh1 & He1) Hk. destruct (Hk s1 Hh1) as (s2 & Hr2 & Hh2 & He2). exists s2.
  split_and!; [by rewrite (bind_ok _ _ _ _ _ Hr1)|done|by etrans].
Qed.

Lemma does_ret {A} (a : A) s st : holds s st -> does (mret a) s a st.
Proof. intros Hh. by exists s. Qed.

(** Only the logs change. *)
Lemma holds_log s st l : holds s st -> holds (set_logs s l) st.
Proof. done. Qed.

Lemma does_emit event args s st : holds s st -> does (dex_emit event args) s tt st.
Proof. intros Hh. eexists. split; [reflexivity|]. split; [done|]. split_and!; done. Qed.

(** ** Storage credits *)

Lemma bank_u64 s : bank_ok s -> is_t7 = true -> is_u64 (bank s).
Proof. intros [_ Hb] H7. apply Hb, H7. Qed.

Lemma balance_of_bank s : bank_ok s -> is_t7 = true -> credits_balance_of STABLECOIN_DEX_ADDRESS s = (Ok (bank s), s).
Proof.
  intros Hok H7. unfold credits_balance_of, mbind, M_bind, sload. cbn beta iota. fold (bank s). rewrite decide_True; [done|].
  by apply bank_u64.
Qed.

(** The credits an operation mints. *)
Lemma track_does {A} (m : M A) s st a st' : holds s st -> acts st m a st' ->
  exists k s', track_minted_credits STABLECOIN_DEX_ADDRESS m s = (Ok (a, k), s') /\ holds s' st' /\ elsewhere s s' /\
    0 <= k /\ (is_t7 = true -> k <= bank s').
Proof.
  intros Hh Ha. destruct (acts_run m s st a st' Hh Ha) as (s' & Hr & Hh' & He & Hle). pose proof Hh as (Hok & _).
  unfold track_minted_credits. destruct is_t7 eqn:H7.
  - exists (bank s' - bank s), s'. rewrite (bind_ok _ _ _ _ _ (balance_of_bank s Hok H7)), (bind_ok _ _ _ _ _ Hr).
    rewrite (bind_ok _ _ _ _ _ (balance_of_bank s' (proj1 Hh') H7)). specialize (Hle eq_refl).
    pose proof (bank_u64 s Hok H7) as [? _]. rewrite decide_False by lia. split_and!; (done || lia).
  - exists 0, s'. rewrite (bind_ok _ _ _ _ _ Hr). split_and!; done.
Qed.

(** The words without a maker's credits. *)
Lemma credits_words d st cr u v : words d st cr -> is_u64 v -> words (upd d (crslot u) v) st (<[u := v]> cr).
Proof.
  intros Hw Hv. split.
  - intros key. eapply book_at_ext; [|apply (w_books _ _ _ Hw)]. intros k. by rewrite upd_other by (unfold bslot, crslot; congruence).
  - intros k Hk. eapply level_at_ext; [|by apply (w_levels _ _ _ Hw)]. intros i. by rewrite upd_other by (unfold lslot, crslot; congruence).
  - intros key b wi Hwi. eapply bits_at_ext; [|by apply (w_bits _ _ _ Hw)]. by rewrite upd_other by (unfold mslot, crslot; congruence).
  - intros id. eapply order_words_ext; [|apply (w_orders _ _ _ Hw)]. intros k. by rewrite upd_other by (unfold oslot, crslot; congruence).
  - intros u' t. rewrite upd_other by (unfold balslot, crslot; congruence). apply (w_balances _ _ _ Hw).
  - rewrite upd_other by (unfold crslot; congruence). apply (w_next _ _ _ Hw).
  - eapply keys_at_ext; [..|apply (w_keys _ _ _ Hw)]; [|intros i]; by rewrite upd_other by (unfold crslot, keyslot; congruence).
  - intros u'. destruct (decide (u' = u)) as [-> |Hne].
    + by rewrite upd_same, lookup_insert_eq.
    + rewrite upd_other by (unfold crslot; congruence). rewrite lookup_insert_ne by done. apply (w_credits _ _ _ Hw).
Qed.

(** The mode of the exchange's account is set. *)
Lemma write_state_spec s t : bank_ok s -> is_u64 (ts_budget t) -> is_u64 (ts_pending t) ->
  exists s1, write_credit_state_of STABLECOIN_DEX_ADDRESS t s = (Ok tt, s1) /\ bank_ok s1 /\ elsewhere s s1 /\
    (forall sl, dword s1 sl = dword s sl) /\ bank s1 = bank s /\ bank_state s1 = Some t.
Proof.
  intros [Hf Hok] Hb Hp. eexists. split; [reflexivity|].
  assert (bank_state (set_transient s (<[(STORAGE_CREDITS_ADDRESS, credit_slot STABLECOIN_DEX_ADDRESS) := word_of_transient t]> (evm_transient s))) = Some t) as Hs1.
  { unfold bank_state. cbn. rewrite word_at_insert, decide_True by done. by apply transient_word. }
  split_and!; [|split_and!; [done|done|]|done|done|done].
  - split; [done|]. intros H7. destruct (Hok H7) as (? & ? & _). split_and!; [done..|by exists t].
  - intros a sl Hne. cbn. rewrite word_at_insert. by rewrite decide_False.
Qed.

Lemma state_of_spec s t : bank_state s = Some t -> credit_state_of STABLECOIN_DEX_ADDRESS s = (Ok t, s).
Proof. intros Ht. unfold credit_state_of, mbind, M_bind, tload. cbn beta iota. fold (bank_state s). by rewrite Ht. Qed.

Lemma set_budget_spec s t b : bank_ok s -> bank_state s = Some t -> is_u64 b ->
  exists s1, set_budget STABLECOIN_DEX_ADDRESS b s = (Ok tt, s1) /\ bank_ok s1 /\ elsewhere s s1 /\
    (forall sl, dword s1 sl = dword s sl) /\ bank s1 = bank s /\ bank_state s1 = Some (mkTransient Direct b (ts_pending t)).
Proof.
  intros Hok Ht Hb. pose proof (transient_ranges _ _ Ht) as [_ Hp].
  destruct (write_state_spec s (mkTransient Direct b (ts_pending t)) Hok Hb Hp) as (s1 & Hr & Hrest). exists s1. split; [|done].
  unfold set_budget, write_mode_with_budget. by rewrite (bind_ok _ _ _ _ _ (state_of_spec s t Ht)).
Qed.

(** A run of [f] under a budget. *)
Lemma with_budget_spec {A} (f : M A) b s t : is_t7 = true -> bank_ok s -> bank_state s = Some t -> is_u64 b -> b <> 0 ->
  (forall s1, bank_ok s1 -> (forall sl, dword s1 sl = dword s sl) -> bank s1 = bank s ->
     bank_state s1 = Some (mkTransient Direct b (ts_pending t)) -> exists a s2, f s1 = (Ok a, s2) /\ bank_ok s2 /\ elsewhere s1 s2) ->
  exists a s1 s2 s3, bank_ok s1 /\ (forall sl, dword s1 sl = dword s sl) /\ bank s1 = bank s /\
    bank_state s1 = Some (mkTransient Direct b (ts_pending t)) /\ f s1 = (Ok a, s2) /\
    with_budget STABLECOIN_DEX_ADDRESS b f s = (Ok (a, bank s2 - bank s), s3) /\ bank_ok s3 /\ idle s3 /\ elsewhere s s3 /\
    (forall sl, dword s3 sl = dword s2 sl) /\ bank s3 = bank s2.
Proof.
  intros H7 Hok Ht Hb Hb0 Hf. destruct (set_budget_spec s t b Hok Ht Hb) as (s1 & Hr1 & Hok1 & He1 & Hd1 & Hbk1 & Hst1).
  destruct (Hf s1 Hok1 Hd1 Hbk1 Hst1) as (a & s2 & Hr2 & Hok2 & He2). destruct (proj2 Hok2 H7) as (_ & _ & [t2 Ht2]).
  pose proof (transient_ranges _ _ Ht2) as [_ Hp2].
  destruct (write_state_spec s2 (mkTransient Preserve 0 (ts_pending t2)) Hok2 ltac:(done) Hp2) as (s3 & Hr3 & Hok3 & He3 & Hd3 & Hbk3 & Hst3).
  exists a, s1, s2, s3. split_and!; try done.
  - unfold with_budget. rewrite H7, decide_False by done. rewrite (bind_ok _ _ _ _ _ Hr1), (bind_ok _ _ _ _ _ (balance_of_bank s1 Hok1 H7)).
    rewrite (bind_ok _ _ _ (inl a) s2) by (unfold try; by rewrite Hr2).
    rewrite (bind_ok _ _ _ _ _ (balance_of_bank s2 Hok2 H7)), (bind_ok _ _ _ _ _ (state_of_spec s2 t2 Ht2)), (bind_ok _ _ _ _ _ Hr3). by rewrite Hbk1.
  - intros _. eexists. split; [exact Hst3|done].
  - etrans; [exact He1|]. by etrans.
Qed.

(** A maker's credits as the exchange reads them. *)
Lemma read_credits s st cr u : words (dword s) st cr ->
  h_read PU64 (dex_credits u) s = (Ok (default 0 (cr !! u)), s) /\ is_u64 (default 0 (cr !! u)) /\ dword s (crslot u) = default 0 (cr !! u).
Proof.
  intros Hw. destruct (w_credits _ _ _ Hw u) as [Hd Hr]. split_and!; [|apply Hr..|done]. unfold h_read, dex_credits, mapping_at.
  cbn [full_slot h_address h_slot h_offset]. unfold mbind, M_bind, sload. cbn beta iota.
  change (word_at (evm_storage s) STABLECOIN_DEX_ADDRESS (mapping_slot u DEX_STORAGE_CREDITS)) with (dword s (crslot u)). rewrite Hd.
  unfold from_word. unfold is_u64, u64_max in Hr. rewrite decide_True by (cbn [prim_bytes]; lia). done.
Qed.

Lemma holds_credits s st cr s' u v : bank_ok s' -> idle s' -> words (dword s) st cr -> is_u64 v ->
  (forall sl, dword s' sl = if decide (sl = crslot u) then v else dword s sl) -> holds s' st.
Proof.
  intros Hok Hid Hw Hv Hd. split_and!; [done|done|]. exists (<[u := v]> cr). by eapply (words_ext (upd (dword s) (crslot u) v)), credits_words.
Qed.

Lemma idle_step s s' : idle s -> step s s' -> idle s'.
Proof.
  intros Hidle [_ Hb] H7. destruct (Hidle H7) as (t & Hbs & Hm). destruct (Hb H7 t Hbs) as (t' & Ht' & Hm' & _). exists t'.
  split; [done|]. congruence.
Qed.

(** Credits for a maker: refused only when the exchange has none. *)
Lemma credit_run u k s st : holds s st -> 0 <= k ->
  match credit_dex_storage_slots u k s with
  | (Ok _, s') => holds s' st /\ elsewhere s s'
  | (Err _, s') => flags_same s s' /\ is_t7 = true /\ k <> 0 /\ bank s <= 0
  | (Panic, _) => False
  end.
Proof.
  intros Hh Hk. pose proof Hh as (Hok & Hidle & cr & Hw). unfold credit_dex_storage_slots. case_decide as Hk0; [done|].
  destruct is_t7 eqn:H7; cbn [negb]; [|done]. destruct (read_credits s st cr u Hw) as (Hread & Hc & Hdw).
  rewrite (bind_ok _ _ _ _ _ Hread). set (c := default 0 (cr !! u)) in *. set (v := Z.min u64_max (c + k)).
  assert (is_u64 v) as Hv by (unfold is_u64, v, u64_max in *; lia). case_decide as Hc0.
  - destruct (dex_store_spec (crslot u) v s Hok) as (s' & Hr & Hok' & Hst & Hd). change (h_write PU64 (dex_credits u) v s) with (dex_store (crslot u) v s).
    rewrite Hr. split; [|apply Hst]. eapply (holds_credits s st cr s' u v); try done. by eapply idle_step.
  - assert (c = 0) as Hcz by lia. assert (v <> 0) as Hv0 by (unfold v, u64_max; lia). destruct (Hidle H7) as (t & Hbs & _).
    change (h_write PU64 (dex_credits u) v) with (dex_store (crslot u) v).
    destruct (with_budget_spec (dex_store (crslot u) v) 1 s t H7 Hok Hbs) as (a & s1 & s2 & s3 & Hok1 & Hd1 & Hbk1 & Hst1 & Hr2 & Hr & Hok3 & Hid3 & He3 & Hd3 & Hbk3);
      [done|done| |].
    { intros s1 Hok1 _ _ _. destruct (dex_store_exact (crslot u) v s1 Hok1) as (s2 & Hr2 & Hok2 & He2 & _). eauto. }
    destruct (dex_store_exact (crslot u) v s1 Hok1) as (s2' & Hr2' & _ & _ & Hca & Hd2). assert (s2' = s2) as -> by congruence.
    rewrite (bind_ok _ _ _ _ _ Hr). destruct (Hca H7 _ Hst1) as [Hbank _]. rewrite Hbk1 in Hbank.
    rewrite Hd1, Hdw, Hcz in Hbank. unfold after_write in Hbank. rewrite decide_False in Hbank by (by rewrite bool_decide_true, bool_decide_false).
    rewrite decide_False in Hbank by done. cbn [ts_mode ts_budget] in Hbank. destruct (bank_u64 s Hok H7) as [Hb0 _].
    destruct (decide (bank s = 0)) as [Hz|Hnz].
    + rewrite bool_decide_false in Hbank by lia. cbn in Hbank. rewrite decide_True by lia. unfold throw. split_and!; [apply He3..|done|done|lia].
    + rewrite !bool_decide_true in Hbank by lia. cbn in Hbank. rewrite decide_False by lia. cbn. split; [|done].
      eapply (holds_credits s st cr s3 u v); [done..|]. intros sl. rewrite Hd3, Hd2. by rewrite Hd1.
Qed.

Lemma credit_ends u k s st : holds s st -> 0 <= k -> ends (credit_dex_storage_slots u k) s (fun _ s' => holds s' st /\ elsewhere s s').
Proof.
  intros Hh Hk. pose proof (credit_run u k s st Hh Hk) as Hr. unfold ends. destruct (credit_dex_storage_slots u k s) as [[[]|e|] s']; [|apply Hr|done].
  destruct Hr as [Hh' He]. split; [apply He|done].
Qed.

Lemma credit_does u k s st : holds s st -> 0 <= k -> (is_t7 = true -> k <= bank s) -> does (credit_dex_storage_slots u k) s tt st.
Proof.
  intros Hh Hk Hb. pose proof (credit_run u k s st Hh Hk) as Hr. unfold does. destruct (credit_dex_storage_slots u k s) as [[[]|e|] s']; [by exists s'| |done].
  destruct Hr as (_ & H7 & Hk0 & Hbk). specialize (Hb H7). lia.
Qed.

(** ** Operations that give or take credits *)

(** Unlinking a neighbour credits its maker for what it frees. *)
Lemma unlink_neighbor_does id o (update : M unit) s st st' : holds s st -> acts st update tt st' -> st_orders st' !! id = Some o ->
  (forall st o, st_orders st !! id = Some o -> acts st (order_maker id) (o_maker o) st) ->
  does (unlink_neighbor_and_credit_maker id update) s tt st'.
Proof.
  intros Hh Hm Ho Hmaker. destruct (track_does update s st tt st' Hh Hm) as (k & s1 & Hr & Hh1 & He1 & Hk & Hbk).
  unfold unlink_neighbor_and_credit_maker, does. rewrite (bind_ok _ _ _ _ _ Hr). case_decide as Hk0; [by exists s1|].
  destruct (acts_run _ s1 st' _ st' Hh1 (Hmaker _ _ Ho)) as (s2 & Hr2 & Hh2 & He2 & Hle). rewrite (bind_ok _ _ _ _ _ Hr2).
  destruct (credit_does (o_maker o) k s2 st' Hh2 Hk) as (s3 & Hr3 & Hh3 & He3).
  { intros H7. specialize (Hle H7). specialize (Hbk H7). lia. }
  exists s3. split_and!; [done|done|]. etrans; [done|]. by etrans.
Qed.

(** An order written with the credits of its maker. *)
Lemma spending_ends order book_id s st st' : holds s st -> acts st (write_in_book (o_order_id order) order book_id) tt st' ->
  ends (write_order_spending_dex_storage_credits order book_id) s (fun _ s' => holds s' st' /\ elsewhere s s').
Proof.
  intros Hh Ha. pose proof Hh as (Hok & Hidle & cr & Hw). unfold write_order_spending_dex_storage_credits.
  destruct (read_credits s st cr (o_maker order) Hw) as (Hread & Hc & Hdw). set (c := default 0 (cr !! o_maker order)) in *.
  apply ends_bind. unfold ends at 1. rewrite Hread. split; [done|]. case_decide as Hc0.
  { apply (ends_acts _ s st tt st'); [done|done|]. intros s' Hh' He. by split. }
  apply ends_bind. change (h_delete PU64 (dex_credits (o_maker order))) with (dex_store (crslot (o_maker order)) 0).
  destruct (dex_store_spec (crslot (o_maker order)) 0 s Hok) as (s1 & Hr1 & Hok1 & Hst1 & Hd1). unfold ends at 1. rewrite Hr1.
  split; [apply Hst1|]. assert (idle s1) as Hid1 by by eapply idle_step.
  assert (words (dword s1) st (<[o_maker order := 0]> cr)) as Hw1.
  { eapply (words_ext (upd (dword s) (crslot (o_maker order)) 0)); [done|]. by apply credits_words. }
  apply ends_bind. destruct is_t7 eqn:H7.
  2: { apply (ends_mono _ _ (fun a s' => holds s' st' /\ elsewhere s1 s')).
       - intros [[] delta] s2 [Hh2 He2]. apply (ends_mono _ _ (fun _ s' => holds s' st' /\ elsewhere s2 s')).
         + intros _ s3 [Hh3 He3]. split; [done|]. etrans; [apply Hst1|]. by etrans.
         + apply credit_ends; [done|]. unfold saturating_sub. lia.
       - unfold with_budget. rewrite H7. apply ends_bind. apply (ends_acts _ s1 st tt st'); [by split_and!; [..|eexists]|done|]. intros s2 Hh2 He2. by apply ends_ret. }
  destruct (Hid1 H7) as (t & Hbs & _).
  destruct (with_budget_spec (write_in_book (o_order_id order) order book_id) c s1 t H7 Hok1 Hbs) as
    (a & s2 & s3 & s4 & Hok2 & Hd2 & _ & _ & Hr3 & Hr & Hok4 & Hid4 & He4 & Hd4 & _); [done|done| |].
  { intros s2 Hok2 Hd2 _ _. destruct (Ha _ _ Hw1) as (d' & Ht & _). destruct (Ht s2 Hok2 Hd2) as (s3 & Hr3 & Hok3 & [He3 _] & _). eauto. }
  unfold ends at 1. rewrite Hr. split; [apply He4|].
  assert (holds s4 st') as Hh4.
  { split_and!; [done|done|]. eexists. destruct (Ha _ _ Hw1) as (d' & Ht & Hw'). destruct (Ht s2 Hok2 Hd2) as (s3' & Hr3' & _ & _ & Hd3).
    assert (s3' = s3) as -> by congruence. eapply words_ext; [|exact Hw']. intros sl. by rewrite Hd4, Hd3. }
  apply (ends_mono _ _ (fun _ s' => holds s' st' /\ elsewhere s4 s')).
  - intros _ s5 [Hh5 He5]. split; [done|]. etrans; [apply Hst1|]. by etrans.
  - apply credit_ends; [done|]. unfold saturating_sub. lia.
Qed.

Lemma flush_ends (credits : StorageCreditDeltas) s st : holds s st -> Forall (fun e => 0 <= e.2) credits ->
  ends (flush_credits credits credit_dex_storage_slots) s (fun _ s' => holds s' st /\ elsewhere s s').
Proof.
  unfold flush_credits. intros Hh Hall. revert s Hh. induction Hall as [|[u k] credits Hk Hall IH]; intros s Hh; cbn [iterM].
  - by apply ends_ret.
  - apply ends_bind. eapply ends_mono; [|by apply credit_ends]. intros _ s1 [Hh1 He1]. eapply ends_mono; [|by apply IH].
    intros _ s2 [Hh2 He2]. split; [done|]. by etrans.
Qed.

Lemma credit_slots_nonneg d u k : 0 <= k -> Forall (fun e => 0 <= e.2) d -> Forall (fun e : Address * u64 => 0 <= e.2) (credit_slots d u k).
Proof.
  intros Hk Hall. induction Hall as [|[v n] d Hn Hall IH]; cbn [credit_slots]; (case_decide; [by constructor|]).
  - by repeat constructor.
  - cbn in Hn. case_decide; [constructor; [cbn; unfold u64_max; lia|done]|]. case_decide; by repeat constructor.
Qed.
End holds.
