(* ===== verification/DexPrice.v ===== *)
(** * Sums, prices and rounding

    Sums over finite maps. Conversions between base and quote round in favour of
    the exchange: what a maker's escrow gives up covers what the taker gets, and
    what the taker pays covers what the maker gets. *)

From stdpp Require Import prelude gmap list strings.
From S2P Require Import Prelude TempoEvm DexTypes.

#[local] Open Scope Z_scope.

Section sums.
Context {K A : Type} `{Countable K}.
Implicit Types (f g : K -> A -> Z) (m : gmap K A).

Definition msum f m : Z := map_fold (fun k a acc => f k a + acc) 0 m.

(** What an entry adds. *)
Definition term f (k : K) (a : option A) : Z := match a with Some a => f k a | None => 0 end.

Lemma msum_empty f : msum f ∅ = 0.
Proof. apply map_fold_empty. Qed.

Lemma msum_fresh f m k a : m !! k = None -> msum f (<[k := a]> m) = f k a + msum f m.
Proof. intros Hk. unfold msum. rewrite map_fold_insert_L; [done|intros; lia|done]. Qed.

Lemma msum_delete f m k : msum f (delete k m) = msum f m - term f k (m !! k).
Proof.
  destruct (m !! k) as [a|] eqn:Hk; cbn [term]; [|rewrite delete_id by done; lia].
  rewrite <- (insert_delete_id m k a Hk) at 2. rewrite msum_fresh by apply lookup_delete_eq. lia.
Qed.

Lemma msum_insert f m k a : msum f (<[k := a]> m) = msum f m - term f k (m !! k) + f k a.
Proof. rewrite <- insert_delete_eq, msum_fresh by apply lookup_delete_eq. rewrite msum_delete. lia. Qed.

Lemma msum_nonneg f m : (forall k a, m !! k = Some a -> 0 <= f k a) -> 0 <= msum f m.
Proof.
  induction m as [|k a m Hk IH] using map_ind; intros Hf; [by rewrite msum_empty|]. rewrite msum_fresh by done.
  assert (0 <= f k a) by (apply Hf; by rewrite lookup_insert_eq). enough (0 <= msum f m) by lia.
  apply IH. intros j b Hj. apply Hf. rewrite lookup_insert_ne; [done|]. congruence.
Qed.

(** One entry is at most the sum. *)
Lemma msum_term_le f m k a : (forall k a, m !! k = Some a -> 0 <= f k a) -> m !! k = Some a -> f k a <= msum f m.
Proof.
  intros Hf Hk. pose proof (msum_delete f m k) as Hd. rewrite Hk in Hd. cbn in Hd.
  enough (0 <= msum f (delete k m)) by lia. apply msum_nonneg. intros j b Hj. apply Hf. by apply lookup_delete_Some in Hj as [_ ?].
Qed.

Lemma msum_ext f g m : (forall k a, m !! k = Some a -> f k a = g k a) -> msum f m = msum g m.
Proof.
  induction m as [|k a m Hk IH] using map_ind; intros Hf; [by rewrite !msum_empty|]. rewrite !msum_fresh by done. f_equal.
  - apply Hf. by rewrite lookup_insert_eq.
  - apply IH. intros j b Hj. apply Hf. rewrite lookup_insert_ne; [done|]. congruence.
Qed.

Lemma msum_alter f m k (g : A -> A) : (forall a, m !! k = Some a -> f k (g a) = f k a) -> msum f (alter g k m) = msum f m.
Proof.
  intros Hf. rewrite alter_alt. destruct (m !! k) as [a|] eqn:Hk; [|done]. rewrite msum_insert, Hk. cbn. rewrite Hf by done. lia.
Qed.
End sums.

Definition valid_tick (tick : i16) : Prop := MIN_TICK <= tick <= MAX_TICK.

Lemma price_range tick : valid_tick tick -> tick_to_price tick = PRICE_SCALE + tick /\ MIN_PRICE <= tick_to_price tick <= MAX_PRICE.
Proof.
  unfold valid_tick, tick_to_price, MIN_TICK, MAX_TICK, PRICE_SCALE, MIN_PRICE, MAX_PRICE. intros Ht.
  rewrite Z.mod_small by lia. lia.
Qed.

Lemma valid_i16 tick : valid_tick tick -> is_i16 tick.
Proof. unfold valid_tick, is_i16, MIN_TICK, MAX_TICK, i16_min, i16_max. lia. Qed.

(** Amounts of quote for amounts of base, rounded down and up. *)
Definition quote_down (base : Z) (tick : i16) : Z := base * tick_to_price tick / PRICE_SCALE.
Definition quote_up (base : Z) (tick : i16) : Z := div_ceil_u256 (base * tick_to_price tick) PRICE_SCALE.
Definition base_down (quote : Z) (tick : i16) : Z := quote * PRICE_SCALE / tick_to_price tick.
Definition base_up (quote : Z) (tick : i16) : Z := div_ceil_u256 (quote * PRICE_SCALE) (tick_to_price tick).

Lemma ceil_bounds a b : 0 < b -> b * div_ceil_u256 a b - b < a <= b * div_ceil_u256 a b.
Proof.
  intros Hb. unfold div_ceil_u256. pose proof (Z.div_mod (a + b - 1) b) as Hd. pose proof (Z.mod_pos_bound (a + b - 1) b Hb). lia.
Qed.

Lemma floor_bounds a b : 0 < b -> b * (a / b) <= a < b * (a / b) + b.
Proof. intros Hb. pose proof (Z.div_mod a b). pose proof (Z.mod_pos_bound a b Hb). lia. Qed.

Section price.
Context (tick : i16) (Htick : valid_tick tick).

Lemma price_pos : 0 < tick_to_price tick.
Proof. pose proof (price_range tick Htick). unfold MIN_PRICE in *. lia. Qed.

Ltac bounds :=
  pose proof price_pos; unfold quote_down, quote_up, base_down, base_up, PRICE_SCALE in *; set (p := tick_to_price tick) in *;
  repeat match goal with
  | |- context [div_ceil_u256 ?a ?b] =>
      lazymatch goal with H : b * div_ceil_u256 a b - b < a <= _ |- _ => fail | _ => pose proof (ceil_bounds a b ltac:(lia)) end
  | |- context [?a / ?b] =>
      lazymatch goal with H : b * (a / b) <= a < _ |- _ => fail | _ => pose proof (floor_bounds a b ltac:(lia)) end
  end.

Lemma quote_down_nonneg x : 0 <= x -> 0 <= quote_down x tick.
Proof. intros Hx. pose proof price_pos. unfold quote_down, PRICE_SCALE. apply Z.div_pos; nia. Qed.

Lemma down_le_up x : quote_down x tick <= quote_up x tick.
Proof. bounds. nia. Qed.

Lemma quote_up_nonneg x : 0 <= x -> 0 <= quote_up x tick.
Proof. intros Hx. pose proof (quote_down_nonneg x Hx). pose proof (down_le_up x). lia. Qed.

Lemma quote_up_mono x y : x <= y -> quote_up x tick <= quote_up y tick.
Proof. intros Hxy. bounds. nia. Qed.

(** What the escrow of a bid loses with a part of it covers the part's value. *)
Lemma escrow_covers x y : quote_up x tick + quote_down y tick <= quote_up (x + y) tick.
Proof. bounds. nia. Qed.

Lemma escrow_dust x y : quote_up (x + y) tick <= quote_up x tick + quote_down y tick + 1.
Proof. bounds. nia. Qed.

(** The base a payment buys costs no more than the payment. *)
Lemma payment_covers q : quote_up (base_down q tick) tick <= q.
Proof. bounds. nia. Qed.

(** The base sold for an amount of quote is worth at least that amount. *)
Lemma sale_covers q : q <= quote_down (base_up q tick) tick.
Proof. bounds. nia. Qed.

Lemma base_down_nonneg q : 0 <= q -> 0 <= base_down q tick.
Proof. intros Hq. pose proof price_pos. unfold base_down, PRICE_SCALE. apply Z.div_pos; nia. Qed.

Lemma base_up_nonneg q : 0 <= q -> 0 <= base_up q tick.
Proof. intros Hq. bounds. nia. Qed.

Lemma base_up_pos q : 0 < q -> 0 < base_up q tick.
Proof. intros Hq. bounds. nia. Qed.
End price.

Lemma to_u128_Some x y : to_u128 x = Some y <-> x = y /\ y <= u128_max.
Proof. unfold to_u128. case_decide; split; [by intros [= ->]|intros [-> _]|done|intros [-> ?]; lia]; done. Qed.

Lemma base_to_quote_Some x tick r y : base_to_quote x tick r = Some y ->
  y = (match r with Down => quote_down x tick | Up => quote_up x tick end) /\ y <= u128_max.
Proof. unfold base_to_quote. intros [<- ?]%to_u128_Some. by destruct r. Qed.

Lemma quote_to_base_Some x tick r y : quote_to_base x tick r = Some y ->
  y = (match r with Down => base_down x tick | Up => base_up x tick end) /\ y <= u128_max.
Proof. unfold quote_to_base. intros [<- ?]%to_u128_Some. by destruct r. Qed.
