(* ===== verification/Tip20Facts.v ===== *)
(** * What token operations change

    A frame names the words a run may write; the storage credits of their owners
    may change with them, nothing else does, and the run does not panic. Each
    operation of the token contracts has its frame. *)

From stdpp Require Import prelude gmap list strings.
From S2P Require Import Prelude DexPrice TempoEvm TempoBytes DexCredits Tip403 Keychain Tip20.

#[local] Open Scope Z_scope.

Create HintDb frames.

(** The words a run may write. *)
Definition Cells : Type := Address -> Slot -> Prop.

Section frames.
Context `{TempoSpec} `{TempoAddresses}.

Record frame (W : Cells) (s s' : Evm) : Prop := mkFrame {
  f_flags : flags_same s s';
  f_words a sl : a <> STORAGE_CREDITS_ADDRESS -> ~ W a sl -> word_at (evm_storage s') a sl = word_at (evm_storage s) a sl;
  f_credits owner : (forall sl, ~ W owner sl) ->
    word_at (evm_storage s') STORAGE_CREDITS_ADDRESS (credit_slot owner) = word_at (evm_storage s) STORAGE_CREDITS_ADDRESS (credit_slot owner) /\
    word_at (evm_transient s') STORAGE_CREDITS_ADDRESS (credit_slot owner) = word_at (evm_transient s) STORAGE_CREDITS_ADDRESS (credit_slot owner);
  f_transient a sl : a <> STORAGE_CREDITS_ADDRESS -> word_at (evm_transient s') a sl = word_at (evm_transient s) a sl;
}.

Definition writes {A} (W : Cells) (m : M A) : Prop := forall s, frame W s (m s).2 /\ (m s).1 <> Panic.

Definition nowhere : Cells := fun _ _ => False.

#[export] Instance frame_preorder W : PreOrder (frame W).
Proof.
  split.
  - intros s. by split.
  - intros s1 s2 s3 [[Hf1 Hg1] Hw1 Hc1 Ht1] [[Hf2 Hg2] Hw2 Hc2 Ht2]. split.
    + split; congruence.
    + intros a sl Ha Hn. by rewrite Hw2, Hw1.
    + intros o Ho. destruct (Hc1 o Ho), (Hc2 o Ho). split; congruence.
    + intros a sl Ha. by rewrite Ht2, Ht1.
Qed.

Lemma frame_mono (W W' : Cells) s s' : (forall a sl, W a sl -> W' a sl) -> frame W s s' -> frame W' s s'.
Proof. intros Hsub [Hf Hw Hc Ht]. split; [done|intros a sl Ha Hn; apply Hw; auto|intros o Ho; apply Hc; intros sl HW; by apply (Ho sl), Hsub|done]. Qed.

Lemma writes_mono {A} (W W' : Cells) (m : M A) : writes W m -> (forall a sl, W a sl -> W' a sl) -> writes W' m.
Proof. intros Hm Hsub s. destruct (Hm s). split; [by eapply frame_mono|done]. Qed.

Lemma writes_ret {A} W (a : A) : writes W (mret a).
Proof. by intros s. Qed.
Lemma writes_throw {A} W e : writes (A := A) W (throw e).
Proof. by intros s. Qed.
Lemma writes_ok_or {A} W e (o : option A) : writes W (ok_or e o).
Proof. destruct o; by intros s. Qed.
Lemma writes_sload W a sl : writes W (sload a sl).
Proof. by intros s. Qed.
Lemma writes_tload W a sl : writes W (tload a sl).
Proof. by intros s. Qed.
Lemma writes_emit W a e : writes W (emit_event a e).
Proof. by intros s. Qed.
Lemma writes_code W a : writes W (set_code a).
Proof. by intros s. Qed.
Lemma writes_has_code W a : writes W (has_code a).
Proof. by intros s. Qed.

Lemma writes_bind {A B} W (m : M A) (k : A -> M B) : writes W m -> (forall a, writes W (k a)) -> writes W (m ≫= k).
Proof.
  intros Hm Hk s. destruct (Hm s) as [Hf Hp]. unfold mbind, M_bind. destruct (m s) as [[a|e|] s']; cbn in *; [|done|done].
  destruct (Hk a s') as [Hf' Hp']. split; [by etrans|done].
Qed.

Lemma writes_when W b m : writes W m -> writes W (when b m).
Proof. intros Hm. destruct b; [exact Hm|apply writes_ret]. Qed.

Lemma writes_try {A} W (m : M A) : writes W m -> writes W (try m).
Proof. intros Hm s. destruct (Hm s) as [Hf Hp]. unfold try. by destruct (m s) as [[a|e|] s']. Qed.

Lemma writes_iter {A} W (f : A -> M unit) l : (forall x, x ∈ l -> writes W (f x)) -> writes W (iterM f l).
Proof.
  induction l as [|x l IH]; intros Hf; [apply writes_ret|]. apply writes_bind; [apply Hf; set_solver|]. intros _. apply IH. intros y Hy. apply Hf. set_solver.
Qed.

(** Charging a write changes the entry of its owner only. *)
Record charged (owner : Address) (s s' : Evm) : Prop := mkCharged {
  c_flags : flags_same s s';
  c_words a sl : (a, sl) <> (STORAGE_CREDITS_ADDRESS, credit_slot owner) -> word_at (evm_storage s') a sl = word_at (evm_storage s) a sl;
  c_transient a sl : (a, sl) <> (STORAGE_CREDITS_ADDRESS, credit_slot owner) -> word_at (evm_transient s') a sl = word_at (evm_transient s) a sl;
}.

Lemma charged_storage owner s s1 v : charged owner s s1 ->
  charged owner s (set_storage s1 (<[(STORAGE_CREDITS_ADDRESS, credit_slot owner) := v]> (evm_storage s1))).
Proof. intros [Hf Hw Ht]. split; [done| |done]. intros a sl Hn. cbn [evm_storage set_storage]. rewrite word_at_insert, decide_False by done. by apply Hw. Qed.

Lemma charged_transient owner s s1 v : charged owner s s1 ->
  charged owner s (set_transient s1 (<[(STORAGE_CREDITS_ADDRESS, credit_slot owner) := v]> (evm_transient s1))).
Proof. intros [Hf Hw Ht]. split; [done|done|]. intros a sl Hn. cbn [evm_transient set_transient]. rewrite word_at_insert, decide_False by done. by apply Ht. Qed.

Lemma account_write_charged owner present new s : charged owner s (account_storage_write owner present new s).2 /\
  (account_storage_write owner present new s).1 <> Panic.
Proof.
  assert (charged owner s s) as Hs by (by split). unfold account_storage_write. destruct (decide (_ \/ _)); [done|]. unfold mbind, M_bind, sload. cbn beta iota. destruct (decide (u64_max < _)); [done|]. destruct (decide (new = 0)).
  - unfold get_flag. destruct (evm_minting s); [|done]. split; [by apply charged_storage|done].
  - unfold tload. cbn beta iota. destruct (transient_of_word _) as [t|]; [|done]. destruct (ts_mode t); [|done|].
    + split; [by apply charged_transient|done].
    + destruct (_ && _); [|done]. destruct (bool_decide (ts_budget t <> u64_max)); split; try done; [|by apply charged_storage].
      by apply (charged_storage owner s (set_transient s _)), charged_transient.
Qed.

(** What a write does: its word holds the value. *)
Lemma sstore_frame a sl v s : a <> STORAGE_CREDITS_ADDRESS ->
  frame (fun a' sl' => a' = a /\ sl' = sl) s (sstore a sl v s).2 /\ (sstore a sl v s).1 <> Panic /\
  word_at (evm_storage (sstore a sl v s).2) a sl = v.
Proof.
  intros Ha. unfold sstore, mbind, M_bind, sload, sstore_raw, get_flag. cbn beta iota. set (s1 := set_storage s _).
  assert (frame (fun a' sl' => a' = a /\ sl' = sl) s s1) as Hf1.
  { split; [done|intros a' sl' _ Hn|intros o Ho|done]; subst s1; cbn [evm_storage evm_transient set_storage]; rewrite word_at_insert, decide_False; try done; [|congruence].
    intros [= -> ->]. by apply Hn. }
  assert (word_at (evm_storage s1) a sl = v) as Hv by (subst s1; cbn [evm_storage set_storage]; by rewrite word_at_insert, decide_True).
  destruct (evm_credits s1); cbn [when]; [|done]. destruct (account_write_charged a (word_at (evm_storage s) a sl) v s1) as [[Hf Hw Ht] Hp].
  split_and!; [|done|]; [|by rewrite Hw by congruence]. etrans; [exact Hf1|]. split; [done|intros; apply Hw; congruence| |intros; apply Ht; congruence].
  intros o Ho. assert (o <> a) as Hne by (intros ->; by apply (Ho sl)). split; [apply Hw|apply Ht]; intros [= He]; done.
Qed.

Lemma writes_sstore (W : Cells) a sl v : a <> STORAGE_CREDITS_ADDRESS -> W a sl -> writes W (sstore a sl v).
Proof. intros Ha HW s. destruct (sstore_frame a sl v s Ha) as (Hf & Hp & _). split; [|done]. eapply frame_mono; [|done]. by intros ? ? [-> ->]. Qed.

Lemma writes_from_word W p w : writes W (from_word p w).
Proof. destruct p; cbn; repeat case_decide; by intros s. Qed.

Lemma writes_extract W p w o : writes W (extract_from_word p w o).
Proof. unfold extract_from_word. case_decide; [apply writes_throw|apply writes_from_word]. Qed.

Lemma writes_insert W p w v o : writes W (insert_into_word p w v o).
Proof. unfold insert_into_word. by case_decide. Qed.

Lemma writes_h_read W p h : writes W (h_read p h).
Proof. apply writes_bind; [apply writes_sload|]. intros w. destruct (h_offset h); [apply writes_extract|apply writes_from_word]. Qed.

Lemma writes_h_write (W : Cells) p h v : h_address h <> STORAGE_CREDITS_ADDRESS -> W (h_address h) (h_slot h) -> writes W (h_write p h v).
Proof.
  intros Ha HW. unfold h_write. destruct (h_offset h); [|by apply writes_sstore]. apply writes_bind; [apply writes_sload|]. intros w.
  apply writes_bind; [apply writes_insert|]. intros w'. by apply writes_sstore.
Qed.

Lemma writes_h_delete (W : Cells) p h : h_address h <> STORAGE_CREDITS_ADDRESS -> W (h_address h) (h_slot h) -> writes W (h_delete p h).
Proof.
  intros Ha HW. unfold h_delete. destruct (h_offset h); [|by apply writes_sstore]. apply writes_bind; [apply writes_sload|]. intros w.
  apply writes_bind; [unfold delete_from_word; by case_decide|]. intros w'. by apply writes_sstore.
Qed.

Lemma writes_if {A} W (b : bool) (m k : M A) : writes W m -> writes W k -> writes W (if b then m else k).
Proof. by destruct b. Qed.
End frames.

#[export] Hint Resolve writes_ret writes_throw writes_ok_or writes_sload writes_tload writes_emit writes_code writes_has_code
  writes_from_word writes_extract writes_insert writes_h_read : frames.

(** Goes through the steps of a run. *)
Ltac frames :=
  repeat first
    [ solve [eauto 2 with frames nocore]
    | progress cbv zeta beta
    | match goal with
      | |- writes _ (_ ≫= _) => apply writes_bind; [|intros]
      | |- writes _ (when _ _) => apply writes_when
      | |- writes _ (try _) => apply writes_try
      | |- writes _ (if decide ?P then _ else _) => destruct (decide P)
      | |- writes _ (if ?b then _ else _) => apply writes_if
      | |- writes _ (match ?x with _ => _ end) => destruct x
      end ].

(** ** Runs that return *)

(** What holds if the run returns. *)
Definition returns {A} (m : M A) (s : Evm) (P : A -> Evm -> Prop) : Prop := forall a s', m s = (Ok a, s') -> P a s'.

Lemma returns_ret {A} (a : A) s P : P a s -> returns (mret a) s P.
Proof. by intros HP ? ? [= <- <-]. Qed.

Lemma returns_throw {A} e s (P : A -> Evm -> Prop) : returns (throw e) s P.
Proof. by intros ? ? ?. Qed.

Lemma returns_bind {A B} (m : M A) (k : A -> M B) s P : returns m s (fun a s' => returns (k a) s' P) -> returns (m ≫= k) s P.
Proof. intros Hm b s'. unfold mbind, M_bind. destruct (m s) as [[a|e|] s1] eqn:Hr; [|done|done]. by apply (Hm a s1 Hr). Qed.

Lemma returns_mono {A} (m : M A) s (P Q : A -> Evm -> Prop) : returns m s P -> (forall a s', P a s' -> Q a s') -> returns m s Q.
Proof. intros Hm Hi a s' Hr. by apply Hi, Hm. Qed.

Lemma returns_and {A} (m : M A) s (P Q : A -> Evm -> Prop) : returns m s P -> returns m s Q -> returns m s (fun a s' => P a s' /\ Q a s').
Proof. intros HP HQ a s' Hr. split; [by apply HP|by apply HQ]. Qed.

Lemma returns_ok_or {A} e (o : option A) s P : (forall a, o = Some a -> P a s) -> returns (ok_or e o) s P.
Proof. intros Ho a s'. destruct o; [intros [= <- <-]; by apply Ho|done]. Qed.

Lemma returns_iter {A} (f : A -> M unit) l s (R : Evm -> Evm -> Prop) : PreOrder R -> (forall x s, returns (f x) s (fun _ s' => R s s')) ->
  returns (iterM f l) s (fun _ s' => R s s').
Proof.
  intros HR Hf. revert s. induction l as [|x l IH]; intros s; [by apply returns_ret|]. apply returns_bind. eapply returns_mono; [apply Hf|]. intros [] s1 H1.
  eapply returns_mono; [apply IH|]. intros [] s2 H2. by etrans.
Qed.

Section returns.
Context `{TempoSpec} `{TempoAddresses}.

Lemma returns_writes {A} (W : Cells) (m : M A) s (P : A -> Evm -> Prop) : writes W m -> (forall a s', frame W s s' -> P a s') -> returns m s P.
Proof. intros Hm HP a s' Hr. apply HP. specialize (Hm s). rewrite Hr in Hm. apply Hm. Qed.

Lemma returns_word a sl s (P : Z -> Evm -> Prop) : P (word_at (evm_storage s) a sl) s -> returns (h_read PU256 (full_slot a sl)) s P.
Proof. by intros HP ? ? [= <- <-]. Qed.

Lemma returns_store a sl v s (P : unit -> Evm -> Prop) : a <> STORAGE_CREDITS_ADDRESS ->
  (forall s', frame (fun a' sl' => a' = a /\ sl' = sl) s s' -> word_at (evm_storage s') a sl = v -> P tt s') ->
  returns (h_write PU256 (full_slot a sl) v) s P.
Proof.
  intros Ha HP [] s' Hr. destruct (sstore_frame a sl v s Ha) as (Hf & _ & Hv). change (sstore a sl v s = (Ok tt, s')) in Hr. rewrite Hr in Hf, Hv. by apply HP.
Qed.
End returns.

(** ** Sums of balances *)

Definition balance_slot (who : Address) : Slot := Mapped who (At 9) 0.

(** The account whose balance a slot is. *)
Definition holder (sl : Slot) : option Address :=
  match sl with Mapped who base off => if decide (base = At 9 /\ off = 0) then Some who else None | _ => None end.

Lemma holder_some sl who : holder sl = Some who <-> sl = balance_slot who.
Proof.
  split; [|by intros ->]. destruct sl as [| k b o |]; cbn; [done| |done]. case_decide as Hd; [|done]. destruct Hd as [-> ->]. by intros [= ->].
Qed.

Section sums.
Context (token : Address).

Definition weight (k : Address * Slot) (v : U256) : Z := if decide (k.1 = token /\ is_Some (holder k.2)) then v else 0.

(** The sum of the balances of a token. *)
Definition total (m : gmap (Address * Slot) U256) : Z := msum weight m.

(** The balances that are not zero. *)
Definition nonzero (m : gmap (Address * Slot) U256) : gmap (Address * Slot) U256 :=
  filter (fun kv => weight kv.1 kv.2 <> 0) m.

Lemma total_nonzero m : total m = total (nonzero m).
Proof.
  unfold total, nonzero. induction m as [|k v m Hk IH] using map_ind; [done|]. rewrite msum_fresh by done. rewrite map_filter_insert. cbn [fst snd]. case_decide as Hw.
  - rewrite msum_fresh; [by rewrite IH|]. by apply map_lookup_filter_None_2; left.
  - rewrite delete_id by done. rewrite IH. lia.
Qed.

Lemma nonzero_lookup m k v : nonzero m !! k = Some v <-> weight k v <> 0 /\ k.1 = token /\ is_Some (holder k.2) /\ word_at m k.1 k.2 = v /\ v <> 0.
Proof.
  unfold nonzero. rewrite map_lookup_filter_Some. cbn [fst snd]. destruct k as [a sl]. cbn [fst snd]. split.
  - intros [Hm Hw]. split; [done|]. unfold weight in Hw. cbn in Hw. case_decide as Hd; [|done]. destruct Hd as [-> Hs]. split_and!; [done|done| |done]. unfold word_at. by rewrite Hm.
  - intros (Hw & _ & _ & Hv & Hv0). split; [|done]. unfold word_at in Hv. destruct (m !! (a, sl)); cbn in Hv; congruence.
Qed.

(** The sum depends on the balances alone. *)
Lemma total_ext m m' : (forall who, word_at m' token (balance_slot who) = word_at m token (balance_slot who)) -> total m' = total m.
Proof.
  intros Hb. rewrite (total_nonzero m'), (total_nonzero m). f_equal. apply map_eq. intros k. apply option_eq. intros v. rewrite !nonzero_lookup.
  split; intros (Hw & Ht & [who Hs] & Hv & Hv0); split_and!; try done; rewrite <- Hv; rewrite Ht; apply holder_some in Hs; rewrite Hs; [by rewrite Hb|by rewrite <- Hb].
Qed.

Lemma total_insert m who v : total (<[(token, balance_slot who) := v]> m) = total m - word_at m token (balance_slot who) + v.
Proof.
  unfold total. rewrite msum_insert. assert (forall w, weight (token, balance_slot who) w = w) as Hw by (intros w; unfold weight; by rewrite decide_True by (cbn; eauto)).
  rewrite Hw. unfold word_at. destruct (m !! (token, balance_slot who)); cbn [term default]; rewrite ?Hw; cbn; lia.
Qed.

(** A balance less and another one more. *)
Lemma total_move m m' a x b y :
  (forall who, word_at m' token (balance_slot who) = word_at m token (balance_slot who) - (if decide (who = a) then x else 0) + if decide (who = b) then y else 0) ->
  total m' = total m - x + y.
Proof.
  intros Hb. set (m1 := <[(token, balance_slot a) := word_at m token (balance_slot a) - x]> m).
  set (m2 := <[(token, balance_slot b) := word_at m1 token (balance_slot b) + y]> m1).
  assert (total m' = total m2) as ->.
  { apply total_ext. intros who. rewrite Hb. subst m1 m2. rewrite !word_at_insert. unfold balance_slot. repeat case_decide; simplify_eq; try congruence; lia. }
  subst m2. rewrite total_insert. subst m1. rewrite total_insert. lia.
Qed.

Lemma total_empty : total ∅ = 0.
Proof. apply msum_empty. Qed.

Lemma balance_le_total m who : (forall w, 0 <= word_at m token (balance_slot w)) -> word_at m token (balance_slot who) <= total m.
Proof.
  intros Hnn. assert (forall k v, nonzero m !! k = Some v -> 0 <= weight k v) as Hw.
  { intros k v Hk. apply nonzero_lookup in Hk as (_ & Ht & [w Hs] & Hv & _). apply holder_some in Hs. unfold weight. case_decide; [|lia]. rewrite <- Hv, Ht, Hs. apply Hnn. }
  rewrite total_nonzero. destruct (decide (word_at m token (balance_slot who) = 0)) as [->|Hne]; [by apply msum_nonneg|].
  assert (weight (token, balance_slot who) (word_at m token (balance_slot who)) = word_at m token (balance_slot who)) as Heq by (unfold weight; by rewrite decide_True by (cbn; eauto)).
  rewrite <- Heq. apply msum_term_le; [done|]. apply nonzero_lookup. rewrite Heq. cbn. split_and!; eauto.
Qed.
End sums.
