(* ===== verification/Tip20Ledger.v ===== *)
(** * Balances and supplies

    What each operation of the token contracts does to the balances, the supply
    and the supply cap of every token. *)

From stdpp Require Import prelude gmap list strings.
From S2P Require Import Prelude DexPrice TempoEvm TempoBytes DexCredits Tip403 Keychain Tip20 Tip20Facts.

#[local] Open Scope Z_scope.

(** The words of a token that say who owns how much. *)
Definition ledger_slot (sl : Slot) : Prop := sl = At 8 \/ sl = At 13 \/ is_Some (holder sl).

(** The words of one contract. *)
Definition words_of (address : Address) : Cells := fun a _ => a = address.

(** The other words of a token. *)
Definition side (token : Address) : Cells := fun a sl => a = token /\ ~ ledger_slot sl.

(** The receipt of a key, at the guard. *)
Definition receipt_slot (key : B256) : Slot := Mapped key (At 1) 0.

Definition either (W W' : Cells) : Cells := fun a sl => W a sl \/ W' a sl.

Ltac plain_slot := intros [?|[?|[? ?]]]; cbn in *; repeat case_decide; naive_solver.

Section ledger.
Context `{TempoSpec} `{TempoAddresses} `{!TokenAddresses} `{!TokenAddressesOk} `{Keccak} `{SystemPrecompiles} `{BlockEnv} `{ReceiptAbi}.

(** Whatever is no ledger word of a token and no word of the guard. *)
Definition quiet : Cells := fun a sl => (has_tip20_prefix a = true -> ~ ledger_slot sl) /\ a <> RECEIVE_POLICY_GUARD_ADDRESS.

(** ** Addresses *)

Lemma system_member a : a ∈ system_addresses -> has_tip20_prefix a = false.
Proof. intros Ha. by apply system_plain. Qed.

Lemma token_not_system token a : has_tip20_prefix token = true -> a ∈ system_addresses -> token <> a.
Proof. intros Ht Ha ->. by rewrite system_member in Ht. Qed.

Lemma distinct_at i j a b : system_addresses !! i = Some a -> system_addresses !! j = Some b -> i <> j -> a <> b.
Proof. intros Hi Hj Hne ->. apply Hne. by eapply NoDup_lookup; [apply system_distinct|..]. Qed.

Lemma registry_not_credits : TIP403_REGISTRY_ADDRESS <> STORAGE_CREDITS_ADDRESS.
Proof. by apply (distinct_at 2 1). Qed.
Lemma masters_not_credits : ADDRESS_REGISTRY_ADDRESS <> STORAGE_CREDITS_ADDRESS.
Proof. by apply (distinct_at 3 1). Qed.
Lemma guard_not_credits : RECEIVE_POLICY_GUARD_ADDRESS <> STORAGE_CREDITS_ADDRESS.
Proof. by apply (distinct_at 4 1). Qed.
Lemma keychain_not_credits : ACCOUNT_KEYCHAIN_ADDRESS <> STORAGE_CREDITS_ADDRESS.
Proof. by apply (distinct_at 8 1). Qed.
Lemma token_not_credits token : has_tip20_prefix token = true -> token <> STORAGE_CREDITS_ADDRESS.
Proof. intros Ht. apply token_not_system; [done|]. unfold system_addresses. set_solver. Qed.

Lemma quiet_system a sl : a ∈ system_addresses -> a <> RECEIVE_POLICY_GUARD_ADDRESS -> quiet a sl.
Proof. intros Ha Hg. split; [|done]. intros Ht. by rewrite system_member in Ht. Qed.

Lemma token_not_guard token : has_tip20_prefix token = true -> token <> RECEIVE_POLICY_GUARD_ADDRESS.
Proof. intros Ht. apply token_not_system; [done|]. unfold system_addresses. set_solver. Qed.

Lemma keychain_not_guard : ACCOUNT_KEYCHAIN_ADDRESS <> RECEIVE_POLICY_GUARD_ADDRESS.
Proof. by apply (distinct_at 8 4). Qed.
Lemma registry_not_guard : TIP403_REGISTRY_ADDRESS <> RECEIVE_POLICY_GUARD_ADDRESS.
Proof. by apply (distinct_at 2 4). Qed.
Lemma masters_not_guard : ADDRESS_REGISTRY_ADDRESS <> RECEIVE_POLICY_GUARD_ADDRESS.
Proof. by apply (distinct_at 3 4). Qed.

Lemma quiet_side token a sl : has_tip20_prefix token = true -> side token a sl -> quiet a sl.
Proof. intros Ht [-> Hn]. split; [done|by apply token_not_guard]. Qed.

(** ** Views *)

Lemma read_bool_frame W h : writes W (read_bool h).
Proof. unfold read_bool. frames. Qed.

Lemma load_words_frame W a sl n : forall i, writes W (load_words a sl i n).
Proof. induction n as [|n IH]; intros i; cbn [load_words]; frames. Qed.

Lemma string_load_frame W a sl : writes W (string_load a sl).
Proof. unfold string_load, bytes_load, calc_string_length. frames. apply load_words_frame. Qed.

Hint Resolve read_bool_frame string_load_frame : frames.

Lemma get_master_frame W id : writes W (get_master id).
Proof. unfold get_master. frames. Qed.
Hint Resolve get_master_frame : frames.

Lemma resolve_recipient_frame W a : writes W (resolve_recipient a).
Proof. unfold resolve_recipient. frames. Qed.
Hint Resolve resolve_recipient_frame : frames.

Lemma recipient_resolve_frame W a : writes W (recipient_resolve a).
Proof. unfold recipient_resolve. frames. Qed.
Lemma recipient_validate_frame W r : writes W (recipient_validate r).
Proof. unfold recipient_validate. frames. Qed.
Hint Resolve recipient_resolve_frame recipient_validate_frame : frames.

(** A stored type is one of the three. *)
Lemma is_simple_frame W id user d : writes W (is_simple id user d).
Proof.
  unfold is_simple. apply writes_bind; [apply read_bool_frame|]. intros b. unfold policy_type, policy_type_of_u8.
  destruct (decide (pd_type d = 0)); [|destruct (decide (pd_type d = 1)); [|destruct (decide (pd_type d = 2))]].
  all: intros s; unfold mbind, M_bind; destruct is_t2; done.
Qed.
Hint Resolve is_simple_frame : frames.

Lemma policy_data_frame W id : writes W (get_policy_data id).
Proof. unfold get_policy_data, policy_load, registry_load, policy_id_counter. frames. Qed.
Hint Resolve policy_data_frame : frames.

Lemma simple_cached_frame W id user c : writes W (is_authorized_simple_cached id user c).
Proof. unfold is_authorized_simple_cached. frames. Qed.
Hint Resolve simple_cached_frame : frames.

Lemma authorized_frame W id user role : writes W (is_authorized_as id user role).
Proof. unfold is_authorized_as, is_authorized_simple, get_compound_policy_data, compound_load, registry_load. frames. Qed.

Lemma policy_exists_frame W id : writes W (policy_exists id).
Proof. unfold policy_exists, policy_id_counter. frames. Qed.

Lemma check_receive_frame W token sender receiver : writes W (check_receive_policy token sender receiver).
Proof. unfold check_receive_policy, receive_policy_config, receive_load_config, recovery_decode, receive_policy_recovery, registry_load. frames. Qed.
Hint Resolve authorized_frame policy_exists_frame check_receive_frame : frames.

Lemma receive_authorized_frame W token sender receiver : writes W (ensure_receive_policy_authorized token sender receiver).
Proof. unfold ensure_receive_policy_authorized, validate_receive_policy. frames. Qed.

Lemma token_policy_frame W token : writes W (token_transfer_policy_id token).
Proof. unfold token_transfer_policy_id, registered_token_transfer_policy_id, registry_load, legacy_transfer_policy_id. frames. Qed.
Hint Resolve receive_authorized_frame token_policy_frame : frames.

Lemma transfer_authorized_frame W token from to : writes W (token_transfer_authorized token from to).
Proof. unfold token_transfer_authorized, is_transfer_authorized. frames. Qed.

Lemma authorized_all_frame W token checks : writes W (ensure_authorized_as token checks).
Proof. unfold ensure_authorized_as. apply writes_bind; [frames|]. intros id. apply writes_iter. intros c _. frames. Qed.

Lemma not_paused_frame W token : writes W (token_not_paused token).
Proof. unfold token_not_paused, paused. frames. Qed.

Lemma check_role_frame W token account role : writes W (check_role token account role).
Proof. unfold check_role, has_role. frames. Qed.

Lemma from_address_frame W a : writes W (token_from_address a).
Proof. unfold token_from_address. frames. Qed.

Lemma is_tip20_frame W a : writes W (factory_is_tip20 a).
Proof. unfold factory_is_tip20. frames. Qed.

Lemma burn_address_frame W token from : writes W (check_burn_address token from).
Proof. unfold check_burn_address. frames. Qed.

Lemma reward_load_frame W token who : writes W (reward_load token who).
Proof. unfold reward_load. frames. Qed.
Hint Resolve transfer_authorized_frame authorized_all_frame not_paused_frame check_role_frame from_address_frame is_tip20_frame burn_address_frame reward_load_frame : frames.

Lemma usd_frame W token : writes W (token_validate_usd token).
Proof. unfold token_validate_usd, currency. frames. Qed.

(** ** Writes beside the ledger *)

Lemma keychain_write p h v : h_address h = ACCOUNT_KEYCHAIN_ADDRESS -> writes (words_of ACCOUNT_KEYCHAIN_ADDRESS) (h_write p h v).
Proof. intros Ha. apply writes_h_write; rewrite Ha; [apply keychain_not_credits|done]. Qed.

Lemma load_key_frame W account key t : writes W (load_active_key account key t).
Proof. unfold load_active_key, key_load. frames. Qed.
Hint Resolve load_key_frame : frames.

Lemma limit_write_frame key token v : writes (words_of ACCOUNT_KEYCHAIN_ADDRESS) (limit_write key token v).
Proof.
  unfold limit_write. apply writes_bind; [by apply keychain_write|]. intros _. frames. apply writes_sstore; [apply keychain_not_credits|done].
Qed.

Lemma spending_frame account key token amount : writes (words_of ACCOUNT_KEYCHAIN_ADDRESS) (verify_and_update_spending account key token amount).
Proof. unfold verify_and_update_spending, limit_read, keychain_emit. frames; first [apply limit_write_frame|by apply keychain_write]. Qed.

Lemma spending_key_frame W account : writes W (spending_key account).
Proof. unfold spending_key, transaction_key, tx_origin, t_read_address. frames. Qed.
Hint Resolve spending_frame spending_key_frame : frames.

Lemma authorize_transfer_frame account token amount : writes (words_of ACCOUNT_KEYCHAIN_ADDRESS) (authorize_transfer account token amount).
Proof. unfold authorize_transfer. frames. Qed.

Lemma authorize_approve_frame account token old new : writes (words_of ACCOUNT_KEYCHAIN_ADDRESS) (authorize_approve account token old new).
Proof. unfold authorize_approve. frames. Qed.

Section one.
Context (token : Address) (Htok : has_tip20_prefix token = true).

Lemma side_write p h v : h_address h = token -> ~ ledger_slot (h_slot h) -> writes (side token) (h_write p h v).
Proof. intros Ha Hl. apply writes_h_write; rewrite Ha; [by apply token_not_credits|done]. Qed.

Lemma side_store sl v : ~ ledger_slot sl -> writes (side token) (sstore token sl v).
Proof. intros Hl. apply writes_sstore; [by apply token_not_credits|done]. Qed.

Lemma side_bool h b : h_address h = token -> ~ ledger_slot (h_slot h) -> writes (side token) (write_bool h b).
Proof. apply side_write. Qed.

Lemma reward_store_frame who info : writes (side token) (reward_store token who info).
Proof. unfold reward_store. frames; apply side_store; plain_slot. Qed.

Lemma update_rewards_frame who : writes (side token) (update_rewards token who).
Proof. unfold update_rewards, u256_sub, u256_mul, u256_add, get_global_reward_per_token, get_balance. frames; apply reward_store_frame. Qed.

Lemma add_opted_frame amount : writes (side token) (add_opted_in token amount).
Proof. unfold add_opted_in, get_opted_in_supply, u256_add, into_u128. frames. apply side_write; [done|plain_slot]. Qed.

Lemma sub_opted_frame amount : writes (side token) (sub_opted_in token amount).
Proof. unfold sub_opted_in, get_opted_in_supply, u256_sub, into_u128. frames. apply side_write; [done|plain_slot]. Qed.
Hint Resolve reward_store_frame update_rewards_frame add_opted_frame sub_opted_frame : frames.

Lemma rewards_transfer_frame from to amount : writes (side token) (handle_rewards_on_transfer token from to amount).
Proof. unfold handle_rewards_on_transfer. frames. Qed.

Lemma rewards_mint_frame to amount : writes (side token) (handle_rewards_on_mint token to amount).
Proof. unfold handle_rewards_on_mint. frames. Qed.

Lemma allowance_frame owner spender amount : writes (side token) (set_allowance token owner spender amount).
Proof. apply side_write; [done|plain_slot]. Qed.
Hint Resolve allowance_frame : frames.

Lemma consume_frame owner spender amount : writes (side token) (consume_allowance token owner spender amount).
Proof. unfold consume_allowance, get_allowance. frames. Qed.

Lemma hop_frame W r amount : writes W (emit_virtual_hop token r amount).
Proof. unfold emit_virtual_hop, tip20_emit. frames. Qed.
End one.

Lemma next_nonce_frame : writes (words_of RECEIVE_POLICY_GUARD_ADDRESS) next_receipt_nonce.
Proof. unfold next_receipt_nonce. frames. apply writes_h_write; [apply guard_not_credits|done]. Qed.

Lemma store_blocked_frame token o r1 r2 r3 amount reason kind memo :
  writes (words_of RECEIVE_POLICY_GUARD_ADDRESS) (store_blocked token o r1 r2 r3 amount reason kind memo).
Proof. unfold store_blocked, guard_emit. frames; [apply next_nonce_frame|]. apply writes_h_write; [apply guard_not_credits|done]. Qed.

(** ** The ledgers *)

Definition bal (s : Evm) (token who : Address) : Z := word_at (evm_storage s) token (balance_slot who).
Definition supply_of (s : Evm) (token : Address) : Z := word_at (evm_storage s) token (At 8).
Definition cap_of (s : Evm) (token : Address) : Z := word_at (evm_storage s) token (At 13).

Definition receipt_at (s : Evm) (key : B256) : Z := word_at (evm_storage s) RECEIVE_POLICY_GUARD_ADDRESS (receipt_slot key).

(** No ledger changes. *)
Definition still_ledgers (s s' : Evm) : Prop := forall token, has_tip20_prefix token = true ->
  (forall who, bal s' token who = bal s token who) /\ supply_of s' token = supply_of s token /\ cap_of s' token = cap_of s token.

(** Nor does a receipt. *)
Record still (s s' : Evm) : Prop := mkStill {
  st_ledgers : still_ledgers s s';
  st_receipts key : receipt_at s' key = receipt_at s key;
}.

(** Of one token an account has [x] less and another one [y] more. *)
Definition moves (token a : Address) (x : Z) (b : Address) (y : Z) (s s' : Evm) : Prop :=
  forall t who, has_tip20_prefix t = true ->
    bal s' t who = bal s t who - (if decide (t = token /\ who = a) then x else 0) + if decide (t = token /\ who = b) then y else 0.

(** One supply changes; no cap and no receipt does. *)
Record supplies (token : Address) (x : Z) (s s' : Evm) : Prop := mkSupplies {
  su_supply t : has_tip20_prefix t = true -> supply_of s' t = supply_of s t + (if decide (t = token) then x else 0) /\ cap_of s' t = cap_of s t;
  su_receipts key : receipt_at s' key = receipt_at s key;
}.

#[export] Instance still_preorder : PreOrder still.
Proof.
  split; [by split|]. intros s1 s2 s3 [K1 R1] [K2 R2]. split; [|intros key; by rewrite R2]. intros t Ht. destruct (K1 t Ht) as (Hb & Hs & Hc), (K2 t Ht) as (Hb' & Hs' & Hc').
  split_and!; [intros who; by rewrite Hb'|congruence|congruence].
Qed.

Lemma quiet_still s s' : frame quiet s s' -> still s s'.
Proof.
  intros Hf. split.
  - intros t Ht. pose proof (token_not_credits t Ht) as Hc.
    split_and!; [intros who|..]; apply (f_words _ _ _ Hf); try done; intros [Hq _]; apply (Hq Ht); unfold ledger_slot; eauto.
  - intros key. apply (f_words _ _ _ Hf); [apply guard_not_credits|]. by intros [_ Hg].
Qed.

Lemma still_moves token a x b y s1 s2 s3 : still s1 s2 -> moves token a x b y s2 s3 -> moves token a x b y s1 s3.
Proof. intros [Hs _] Hm t who Ht. rewrite Hm by done. by rewrite (proj1 (Hs t Ht)). Qed.

Lemma moves_still token a x b y s1 s2 s3 : moves token a x b y s1 s2 -> still s2 s3 -> moves token a x b y s1 s3.
Proof. intros Hm [Hs _] t who Ht. rewrite (proj1 (Hs t Ht)). by apply Hm. Qed.

Lemma still_supplies token s s' : still s s' -> supplies token 0 s s'.
Proof. intros [Hs Hr]. split; [|done]. intros t Ht. destruct (Hs t Ht) as (_ & -> & ->). case_decide; lia. Qed.

Lemma supplies_trans token x y s1 s2 s3 : supplies token x s1 s2 -> supplies token y s2 s3 -> supplies token (x + y) s1 s3.
Proof.
  intros [Hs Hr] [Hs' Hr']. split; [|intros key; by rewrite Hr']. intros t Ht. destruct (Hs t Ht) as [Ha Hb], (Hs' t Ht) as [-> ->]. split; [|done]. rewrite Ha. case_decide; lia.
Qed.

Lemma side_still token s s' : has_tip20_prefix token = true -> frame (side token) s s' -> still s s'.
Proof. intros Ht Hf. apply quiet_still. eapply frame_mono; [|done]. intros a sl. by apply quiet_side. Qed.

Lemma nowhere_still s s' : frame nowhere s s' -> still s s'.
Proof. intros Hf. apply quiet_still. eapply frame_mono; [|done]. by intros ? ? []. Qed.

(** ** Writing a ledger *)

Section effects.
Context (token : Address) (Htok : has_tip20_prefix token = true).

Lemma get_balance_returns who s (P : Z -> Evm -> Prop) : P (bal s token who) s -> returns (get_balance token who) s P.
Proof. apply returns_word. Qed.

Lemma total_supply_returns s (P : Z -> Evm -> Prop) : P (supply_of s token) s -> returns (total_supply token) s P.
Proof. apply returns_word. Qed.

Lemma supply_cap_returns s (P : Z -> Evm -> Prop) : P (cap_of s token) s -> returns (supply_cap token) s P.
Proof. apply returns_word. Qed.

(** One word of a token is written. *)
Lemma word_kept sl s s' t sl' : frame (fun a x => a = token /\ x = sl) s s' -> has_tip20_prefix t = true -> (t, sl') <> (token, sl) ->
  word_at (evm_storage s') t sl' = word_at (evm_storage s) t sl'.
Proof. intros Hf Ht Hne. apply (f_words _ _ _ Hf); [by apply token_not_credits|]. intros [-> ->]. by apply Hne. Qed.

Lemma receipt_kept sl s s' key : frame (fun a x => a = token /\ x = sl) s s' -> receipt_at s' key = receipt_at s key.
Proof. intros Hf. apply (f_words _ _ _ Hf); [apply guard_not_credits|]. intros [He _]. by destruct (token_not_guard token Htok). Qed.

Lemma set_balance_returns who v s (P : unit -> Evm -> Prop) :
  (forall s', frame (words_of token) s s' -> supplies token 0 s s' ->
     (forall t w, has_tip20_prefix t = true -> bal s' t w = if decide (t = token /\ w = who) then v else bal s t w) -> P tt s') ->
  returns (token_set_balance token who v) s P.
Proof.
  intros HP. apply returns_store; [by apply token_not_credits|]. intros s' Hf Hv. apply HP.
  - eapply frame_mono; [|done]. by intros ? ? [-> _].
  - split; [|intros key; apply (receipt_kept _ _ _ key Hf)]. intros t Ht. split; [|by apply (word_kept _ _ _ _ _ Hf)]. unfold supply_of. rewrite (word_kept _ _ _ _ _ Hf) by done. by case_decide; lia.
  - intros t w Ht. case_decide as Hd; [by destruct Hd as [-> ->]|]. apply (word_kept _ _ _ _ _ Hf); [done|]. intros [= -> ->]. by apply Hd.
Qed.

Lemma set_supply_returns v s (P : unit -> Evm -> Prop) :
  (forall s', frame (words_of token) s s' -> supplies token (v - supply_of s token) s s' ->
     (forall t w, has_tip20_prefix t = true -> bal s' t w = bal s t w) -> P tt s') ->
  returns (set_total_supply token v) s P.
Proof.
  intros HP. apply returns_store; [by apply token_not_credits|]. intros s' Hf Hv. apply HP.
  - eapply frame_mono; [|done]. by intros ? ? [-> _].
  - split; [|intros key; apply (receipt_kept _ _ _ key Hf)]. intros t Ht. split; [|by apply (word_kept _ _ _ _ _ Hf)]. case_decide as Hd; [subst t; unfold supply_of in *; lia|].
    unfold supply_of. rewrite (word_kept _ _ _ _ _ Hf); [lia|done|]. by intros [= ->].
  - intros t w Ht. by apply (word_kept _ _ _ _ _ Hf).
Qed.

(** ** Moving tokens *)

Lemma words_side s s' : frame (side token) s s' -> frame (words_of token) s s'.
Proof. apply frame_mono. by intros ? ? [-> _]. Qed.

Lemma transfer_to_frame from to amount : writes (words_of token) (transfer_to token from to amount).
Proof.
  assert (forall who v, writes (words_of token) (token_set_balance token who v)) as Hset by (intros; apply writes_h_write; [by apply token_not_credits|done]).
  unfold transfer_to, get_balance, u256_sub, tip20_emit. frames. eapply writes_mono; [by apply rewards_transfer_frame|]. by intros ? ? [-> _].
Qed.

Lemma transfer_to_returns from to amount s : returns (transfer_to token from to amount) s (fun _ s' =>
  amount <= bal s token from /\ moves token from amount (r_target to) (if decide (r_target to = 0) then 0 else amount) s s' /\ supplies token 0 s s').
Proof.
  unfold transfer_to. apply returns_bind, get_balance_returns. case_decide as Hle; [apply returns_throw|]. apply returns_bind.
  eapply returns_writes; [by apply rewards_transfer_frame|]. intros _ s1 K1%(side_still token _ _ Htok). apply returns_bind, returns_ok_or. intros v Hv.
  unfold checked_sub in Hv. case_decide; [|done]. injection Hv as <-. apply returns_bind, set_balance_returns. intros s2 _ Hs2 Hb2.
  apply returns_bind. destruct (decide (r_target to = 0)) as [Hz|Hne].
  - apply returns_ret. eapply returns_writes; [apply writes_emit|]. intros _ s3 K3%nowhere_still. split_and!; [lia| |].
    + intros t who Ht. rewrite (proj1 (st_ledgers _ _ K3 t Ht)), Hb2 by done. rewrite (proj1 (st_ledgers _ _ K1 t Ht)). destruct (decide (t = token /\ who = from)) as [[-> ->]|]; case_decide; lia.
    + apply (supplies_trans token 0 0 s s1); [by apply still_supplies|]. by apply (supplies_trans token 0 0 _ s2); [|apply still_supplies].
  - apply returns_bind, get_balance_returns. apply returns_bind, returns_ok_or. intros v Hv. unfold checked_add in Hv. case_decide; [|done]. injection Hv as <-.
    apply set_balance_returns. intros s3 _ Hs3 Hb3. eapply returns_writes; [apply writes_emit|]. intros _ s4 K4%nowhere_still. split_and!; [lia| |].
    + intros t who Ht. rewrite (proj1 (st_ledgers _ _ K4 t Ht)), Hb3 by done. rewrite !Hb2, (proj1 (st_ledgers _ _ K1 t Ht)), (proj1 (st_ledgers _ _ K1 token Htok)) by done.
      repeat case_decide; repeat match goal with Hx : _ /\ _ |- _ => destruct Hx end; subst; try lia; tauto.
    + apply (supplies_trans token 0 0 s s1); [by apply still_supplies|]. apply (supplies_trans token 0 0 _ s2); [done|].
      by apply (supplies_trans token 0 0 _ s3); [|apply still_supplies].
Qed.

Lemma mint_to_frame to supply amount : writes (words_of token) (mint_to token to supply amount).
Proof.
  assert (forall p h v, h_address h = token -> writes (words_of token) (h_write p h v)) as Hset by (intros p h v Hh; apply writes_h_write; rewrite Hh; [by apply token_not_credits|done]).
  unfold mint_to, get_balance, supply_cap, u256_add, tip20_emit, set_total_supply, token_set_balance. frames; try by apply Hset.
  eapply writes_mono; [by apply rewards_mint_frame|]. by intros ? ? [-> _].
Qed.

Lemma mint_to_returns to amount s : returns (mint_to token to (supply_of s token) amount) s (fun _ s' =>
  supply_of s token + amount <= cap_of s token /\ moves token (r_target to) 0 (r_target to) amount s s' /\ supplies token amount s s').
Proof.
  unfold mint_to. apply returns_bind, returns_ok_or. intros v Hv. unfold checked_add in Hv. case_decide; [|done]. injection Hv as <-.
  apply returns_bind, supply_cap_returns. destruct (decide (cap_of s token < _)) as [|Hcap]; [apply returns_throw|]. apply returns_bind.
  eapply returns_writes; [by apply rewards_mint_frame|]. intros _ s1 K1%(side_still token _ _ Htok). apply returns_bind, set_supply_returns. intros s2 _ Hs2 Hb2.
  apply returns_bind, get_balance_returns. apply returns_bind, returns_ok_or. intros v Hv. unfold checked_add in Hv. case_decide; [|done]. injection Hv as <-.
  apply returns_bind, set_balance_returns. intros s3 _ Hs3 Hb3. eapply returns_writes; [apply writes_emit|]. intros _ s4 K4%nowhere_still. split_and!; [lia| |].
  - intros t who Ht. rewrite (proj1 (st_ledgers _ _ K4 t Ht)), Hb3 by done. rewrite !Hb2, (proj1 (st_ledgers _ _ K1 t Ht)), (proj1 (st_ledgers _ _ K1 token Htok)) by done. repeat case_decide; repeat match goal with Hx : _ /\ _ |- _ => destruct Hx end; subst; try lia; tauto.
  - replace amount with (0 + (supply_of s token + amount - supply_of s1 token + (0 + 0))) by (rewrite (proj1 (proj2 (st_ledgers _ _ K1 token Htok))); lia).
    eapply supplies_trans; [by apply still_supplies|]. eapply supplies_trans; [done|]. by eapply supplies_trans; [|apply still_supplies].
Qed.

Lemma resolve_zero s : recipient_resolve 0 s = (Ok (recipient_direct 0), s).
Proof. unfold recipient_resolve, resolve_recipient. by destruct is_t3. Qed.

Lemma burn_from_frame from amount : writes (words_of token) (burn_from token from amount).
Proof.
  unfold burn_from, transfer_resolved, total_supply. frames; [apply transfer_to_frame|apply hop_frame|]. apply writes_h_write; [by apply token_not_credits|done].
Qed.

Lemma burn_from_returns from amount s : returns (burn_from token from amount) s (fun _ s' =>
  amount <= bal s token from /\ moves token from amount 0 0 s s' /\ supplies token (- amount) s s').
Proof.
  unfold burn_from, transfer_resolved. apply returns_bind, returns_bind. intros r s0. rewrite resolve_zero. intros [= <- <-].
  apply returns_bind. eapply returns_mono; [apply transfer_to_returns|]. intros _ s1 (Hle & Hm1 & Hs1). eapply returns_writes; [apply hop_frame|].
  intros _ s2 K2%nowhere_still. apply returns_bind, total_supply_returns. apply returns_bind, returns_ok_or. intros v Hv.
  unfold checked_sub in Hv. case_decide; [|done]. injection Hv as <-. apply set_supply_returns. intros s3 _ Hs3 Hb3. split_and!; [done| |].
  - intros t who Ht. rewrite Hb3, (proj1 (st_ledgers _ _ K2 t Ht)) by done. by apply Hm1.
  - replace (- amount) with (0 + (0 + (supply_of s2 token - amount - supply_of s2 token))) by lia.
    eapply supplies_trans; [done|]. by eapply supplies_trans; [apply still_supplies|].
Qed.
End effects.

(** ** Sound ledgers *)

(** The balances of every token sum up to its supply, which is within its cap. *)
Record ledgers_ok (s : Evm) : Prop := mkLedgers {
  l_total token : has_tip20_prefix token = true -> total token (evm_storage s) = supply_of s token;
  l_cap token : has_tip20_prefix token = true -> supply_of s token <= cap_of s token <= u128_max;
  l_bal token who : has_tip20_prefix token = true -> 0 <= bal s token who;
  l_receipts key : 0 <= receipt_at s key;
}.

Lemma balance_bounded s token who : ledgers_ok s -> has_tip20_prefix token = true -> 0 <= bal s token who <= u128_max.
Proof.
  intros [Ht Hc Hb _] Hp. split; [by apply Hb|]. specialize (Ht token Hp). specialize (Hc token Hp).
  pose proof (balance_le_total token (evm_storage s) who (fun w => Hb token w Hp)). unfold bal. lia.
Qed.

(** A run keeps the ledgers sound if it returns. *)
Definition sound {A} (m : M A) : Prop := forall s, ledgers_ok s -> returns m s (fun _ s' => ledgers_ok s').

Lemma still_ok s s' : still s s' -> ledgers_ok s -> ledgers_ok s'.
Proof.
  intros [Hs Hr'] [Ht Hc Hb Hr]. split; [intros token Hp|intros token Hp|intros token who Hp|intros key; by rewrite Hr'].
  - destruct (Hs token Hp) as (Hbal & -> & _). rewrite <- Ht by done. by apply total_ext.
  - destruct (Hs token Hp) as (_ & -> & ->). by apply Hc.
  - rewrite (proj1 (Hs token Hp)). by apply Hb.
Qed.

Lemma effect_ok token a x b y s s' : has_tip20_prefix token = true -> moves token a x b y s s' -> supplies token (y - x) s s' ->
  0 <= x <= bal s token a -> 0 <= y -> supply_of s token + (y - x) <= cap_of s token -> ledgers_ok s -> ledgers_ok s'.
Proof.
  intros Hp Hm [Hs Hr'] Hx Hy Hcap [Ht Hc Hb Hr]. split; [intros t..|intros key; by rewrite Hr'].
  - intros Hq. rewrite (proj1 (Hs t Hq)). rewrite <- Ht by done. case_decide as Hd.
    + subst t. rewrite (total_move token (evm_storage s) (evm_storage s') a x b y); [lia|]. intros who. change (bal s' token who = bal s token who - (if decide (who = a) then x else 0) + if decide (who = b) then y else 0).
      rewrite Hm by done. repeat case_decide; tauto || lia.
    + rewrite (total_ext t (evm_storage s) (evm_storage s')); [lia|]. intros who. change (bal s' t who = bal s t who). rewrite Hm by done. rewrite !decide_False by tauto. lia.
  - intros Hq. destruct (Hs t Hq) as [-> ->]. case_decide; [subst; specialize (Hc _ Hp); lia|]. rewrite Z.add_0_r. by apply Hc.
  - intros who Hq. rewrite Hm by done. specialize (Hb t who Hq). repeat case_decide; repeat match goal with Hz : _ /\ _ |- _ => destruct Hz end; subst; lia.
Qed.

Lemma sound_quiet {A} (m : M A) : writes quiet m -> sound m.
Proof. intros Hw s Hok. eapply returns_writes; [done|]. intros _ s' Hf. eapply still_ok; [by apply quiet_still|done]. Qed.

Lemma sound_view {A} (m : M A) : (forall W, writes W m) -> sound m.
Proof. intros Hw. apply sound_quiet, Hw. Qed.

Lemma sound_bind {A B} (m : M A) (k : A -> M B) : sound m -> (forall a, sound (k a)) -> sound (m ≫= k).
Proof. intros Hm Hk s Hok. apply returns_bind. eapply returns_mono; [by apply Hm|]. intros a s1 Hok1. by apply Hk. Qed.

Lemma sound_if {A} (b : bool) (m k : M A) : sound m -> sound k -> sound (if b then m else k).
Proof. by destruct b. Qed.

Lemma sound_when b m : sound m -> sound (when b m).
Proof. intros Hm. destruct b; [exact Hm|]. apply sound_quiet, writes_ret. Qed.

Lemma side_sound {A} token (m : M A) : has_tip20_prefix token = true -> writes (side token) m -> sound m.
Proof. intros Ht Hw. apply sound_quiet. eapply writes_mono; [done|]. intros a sl. by apply quiet_side. Qed.

Lemma system_sound {A} a (m : M A) : a ∈ system_addresses -> a <> RECEIVE_POLICY_GUARD_ADDRESS -> writes (words_of a) m -> sound m.
Proof. intros Ha Hg Hw. apply sound_quiet. eapply writes_mono; [done|]. intros ? sl ->. by apply quiet_system. Qed.

Lemma keychain_sound {A} (m : M A) : writes (words_of ACCOUNT_KEYCHAIN_ADDRESS) m -> sound m.
Proof. apply system_sound; [unfold system_addresses; set_solver|apply keychain_not_guard]. Qed.

Lemma registry_sound {A} (m : M A) : writes (words_of TIP403_REGISTRY_ADDRESS) m -> sound m.
Proof. apply system_sound; [unfold system_addresses; set_solver|apply registry_not_guard]. Qed.

Lemma masters_sound {A} (m : M A) : writes (words_of ADDRESS_REGISTRY_ADDRESS) m -> sound m.
Proof. apply system_sound; [unfold system_addresses; set_solver|apply masters_not_guard]. Qed.

(** Writes of the guard leave the ledgers of tokens. *)
Lemma guard_ledgers s s' : frame (words_of RECEIVE_POLICY_GUARD_ADDRESS) s s' -> still_ledgers s s'.
Proof.
  intros Hf t Ht. pose proof (token_not_credits t Ht). split_and!; [intros who|..]; apply (f_words _ _ _ Hf); try done; by apply token_not_guard.
Qed.

Lemma ledgers_receipts s s' : still_ledgers s s' -> (forall key, 0 <= receipt_at s' key) -> ledgers_ok s -> ledgers_ok s'.
Proof.
  intros Hs Hr' [Ht Hc Hb Hr]. split; [intros token Hp|intros token Hp|intros token who Hp|done].
  - destruct (Hs token Hp) as (Hbal & -> & _). rewrite <- Ht by done. by apply total_ext.
  - destruct (Hs token Hp) as (_ & -> & ->). by apply Hc.
  - rewrite (proj1 (Hs token Hp)). by apply Hb.
Qed.

Lemma receipt_write_sound key v : 0 <= v -> sound (h_write PU256 (guard_balance key) v).
Proof.
  intros Hv s Hok. apply (returns_store RECEIVE_POLICY_GUARD_ADDRESS (receipt_slot key)); [apply guard_not_credits|]. intros s' Hf Hw.
  apply (ledgers_receipts s); [|intros k|done].
  - apply guard_ledgers. eapply frame_mono; [|done]. by intros ? ? [-> _].
  - destruct (decide (k = key)) as [->|Hne]; [unfold receipt_at; lia|]. unfold receipt_at. rewrite (f_words _ _ _ Hf); [apply (l_receipts s Hok)|apply guard_not_credits|].
    intros [_ [= He]]. done.
Qed.

Lemma nonce_sound : sound next_receipt_nonce.
Proof.
  intros s Hok. eapply (returns_writes (fun a sl => a = RECEIVE_POLICY_GUARD_ADDRESS /\ sl = At 0)).
  - unfold next_receipt_nonce. frames. apply writes_h_write; [apply guard_not_credits|done].
  - intros _ s' Hf. apply (ledgers_receipts s); [|intros k|done].
    + apply guard_ledgers. eapply frame_mono; [|done]. by intros ? ? [-> _].
    + unfold receipt_at. rewrite (f_words _ _ _ Hf); [apply (l_receipts s Hok)|apply guard_not_credits|]. by intros [_ ?].
Qed.

Lemma store_blocked_sound token o r1 r2 r3 amount reason kind memo : 0 <= amount -> sound (store_blocked token o r1 r2 r3 amount reason kind memo).
Proof.
  intros Ha. unfold store_blocked, guard_emit. case_decide; [apply sound_view; intros; frames|]. apply sound_bind; [apply nonce_sound|]. intros n. cbv zeta.
  apply sound_bind; [by apply receipt_write_sound|]. intros _. apply sound_view. intros. frames.
Qed.

Lemma guard_not_zero : RECEIVE_POLICY_GUARD_ADDRESS <> 0.
Proof. apply system_plain. unfold system_addresses. set_solver. Qed.

Section sound_token.
Context (token : Address) (Htok : has_tip20_prefix token = true).

Lemma transfer_to_sound from to amount : 0 <= amount -> r_target to <> 0 -> sound (transfer_to token from to amount).
Proof.
  intros Ha Hne s Hok. eapply returns_mono; [by apply transfer_to_returns|]. intros _ s' (Hle & Hm & Hs). rewrite decide_False in Hm by done.
  eapply effect_ok; [done|exact Hm|by rewrite Z.sub_diag|done|done|rewrite Z.sub_diag, Z.add_0_r; by apply (l_cap s Hok)|done].
Qed.

Lemma burn_from_sound from amount : 0 <= amount -> sound (burn_from token from amount).
Proof.
  intros Ha s Hok. eapply returns_mono; [by apply burn_from_returns|]. intros _ s' (Hle & Hm & Hs).
  pose proof (l_cap s Hok token Htok). eapply effect_ok; [done|exact Hm|exact Hs|done|done|lia|done].
Qed.

(** A mint starts from the supply that is stored. *)
Lemma mint_to_ok to amount s : 0 <= amount -> ledgers_ok s -> returns (mint_to token to (supply_of s token) amount) s (fun _ s' => ledgers_ok s').
Proof.
  intros Ha Hok. eapply returns_mono; [by apply mint_to_returns|]. intros _ s' (Hle & Hm & Hs).
  eapply effect_ok; [done|exact Hm|by rewrite Z.sub_0_r|split; [done|by apply (l_bal s Hok)]|done|lia|done].
Qed.

Lemma inbound_sound originator to amount memo : 0 <= amount -> sound (validate_inbound_or_block token originator to amount None memo).
Proof.
  intros Ha. unfold validate_inbound_or_block. apply sound_if; [apply sound_view; frames|]. case_decide; [apply sound_view; frames|].
  apply sound_bind; [apply sound_view; frames|]. intros [[reason auth]|]; [|apply sound_view; frames]. cbv zeta.
  apply sound_bind; [apply sound_bind; [|intros; apply sound_view; frames]; apply transfer_to_sound; [done|apply guard_not_zero]|]. intros kind.
  apply sound_bind; [by apply store_blocked_sound|]. intros _. apply sound_view; frames.
Qed.

(** A blocked mint goes to the guard; another one leaves the ledgers. *)
Lemma inbound_mint originator to amount memo s : 0 <= amount -> ledgers_ok s ->
  returns (validate_inbound_or_block token originator to amount (Some (supply_of s token)) memo) s (fun b s' => ledgers_ok s' /\ (b = false -> still s s')).
Proof.
  intros Ha Hok. unfold validate_inbound_or_block. destruct is_t6; cbn [negb]; [|by apply returns_ret]. case_decide; [apply returns_throw|].
  apply returns_bind. eapply returns_writes; [apply (check_receive_frame nowhere)|]. intros r s1 K1%nowhere_still. pose proof (still_ok _ _ K1 Hok) as Hok1.
  destruct r as [[reason auth]|]; [|by apply returns_ret]. cbv zeta. apply returns_bind, returns_bind. rewrite <- (proj1 (proj2 (st_ledgers _ _ K1 token Htok))).
  eapply returns_mono; [by apply mint_to_ok|]. intros [] s2 Hok2. apply returns_bind. eapply returns_writes; [apply (writes_emit nowhere)|]. intros _ s3 K3%nowhere_still.
  apply returns_ret, returns_bind. eapply returns_mono; [apply store_blocked_sound; [done|by eapply still_ok]|]. intros [] s4 Hok4. by apply returns_ret.
Qed.
End sound_token.
End ledger.
