(* ===== verification/DexInv.v ===== *)
(** * Books as queues

    [Queues] are the orders of each price level, first to fill first. [inv]
    says that the typed state of the exchange is a double-linked list per level
    with its head and tail, a bit per non-empty level and the best ticks, for
    those queues. [liabilities] is what the exchange owes in a token. *)

From stdpp Require Import prelude gmap list strings.
From S2P Require Import Prelude DexPrice TempoEvm DexTypes DexBook DexCredits Dex DexStore.
From S2P Require Import DexOrders.

#[local] Open Scope Z_scope.

Abbreviation Queues := (gmap LevelKey (list u128)).

Definition queue (Q : Queues) (k : LevelKey) : list u128 := default [] (Q !! k).

Definition key_of (o : Order) : LevelKey := (o_book_key o, o_is_bid o, o_tick o).

Definition first_id (q : list u128) : u128 := default 0 (head q).
Definition last_id (q : list u128) : u128 := default 0 (last q).

Definition push (Q : Queues) (k : LevelKey) (id : u128) : Queues := <[k := queue Q k ++ [id]]> Q.

(** The queue of a level, absent when it is empty. *)
Definition set_queue (Q : Queues) (k : LevelKey) (q : list u128) : Queues :=
  match q with [] => delete k Q | _ => <[k := q]> Q end.

(** [t] is no worse a price than [t'] on a side. *)
Definition ahead (is_bid : bool) (t t' : i16) : Prop := if is_bid then t' <= t else t <= t'.
#[export] Instance ahead_dec is_bid t t' : Decision (ahead is_bid t t').
Proof. unfold ahead. destruct is_bid; apply _. Defined.

Definition no_tick (is_bid : bool) : i16 := if is_bid then i16_min else i16_max.

Definition best_ok (Q : Queues) (key : B256) (is_bid : bool) (t : i16) : Prop :=
  (is_Some (Q !! (key, is_bid, t)) /\ forall t', is_Some (Q !! (key, is_bid, t')) -> ahead is_bid t t') \/
  (t = no_tick is_bid /\ forall t', Q !! (key, is_bid, t') = None).

Definition remaining_of (orders : gmap u128 Order) (id : u128) : u128 := default 0 (o_remaining <$> orders !! id).

(** An order on its way out of the queue of a level: its record may be gone
    already, [r] is what it had left. *)
Abbreviation Limbo := (option (LevelKey * u128 * Z)).

Definition in_limbo (lim : Limbo) (k : LevelKey) (id : u128) : bool :=
  match lim with Some (k', id', _) => bool_decide (k = k' /\ id = id') | None => false end.

Definition left_of (orders : gmap u128 Order) (lim : Limbo) (k : LevelKey) (id : u128) : Z :=
  match lim with
  | Some (k', id', r) => if decide (k = k' /\ id = id') then r else remaining_of orders id
  | None => remaining_of orders id
  end.

Definition liquidity (orders : gmap u128 Order) (lim : Limbo) (k : LevelKey) (q : list u128) : Z :=
  foldr (fun id acc => left_of orders lim k id + acc) 0 q.

(** Each order of a queue knows its neighbours. *)
Definition linked (orders : gmap u128 Order) (lim : Limbo) (k : LevelKey) (q : list u128) : Prop :=
  forall pre id post, q = pre ++ id :: post -> in_limbo lim k id = false ->
    exists o, orders !! id = Some o /\ key_of o = k /\ o_prev o = last_id pre /\ o_next o = first_id post.

Definition on_grid (tick : i16) : Prop := valid_tick tick /\ Z.rem tick TICK_SPACING = 0.

(** Orders the exchange accepts. *)
Definition good_order (o : Order) : Prop :=
  order_ranges o /\ 0 < o_remaining o <= o_amount o /\ o_maker o <> 0 /\ on_grid (o_tick o) /\
  (o_is_flip o = true -> on_grid (o_flip_tick o) /\ ahead (o_is_bid o) (o_flip_tick o) (o_tick o)).

Section inv.
Context `{TempoSpec} `{TempoAddresses}.

Record inv (st : Store) (Q : Queues) (lim : Limbo) : Prop := mkInv {
  i_queues : forall k q, Q !! k = Some q -> q <> [] /\ NoDup q /\ valid_tick k.2 /\ bd_base (book st k.1.1) <> 0;
  i_levels : forall k, level st k =
    mkLevel (first_id (queue Q k)) (last_id (queue Q k)) (if is_t12 then 0 else liquidity (st_orders st) lim k (queue Q k));
  i_bits : forall k, k ∈ st_bits st <-> is_Some (Q !! k);
  i_links : forall k q, Q !! k = Some q -> linked (st_orders st) lim k q;
  i_orders : forall id o, st_orders st !! id = Some o -> o_order_id o = id /\ id ∈ queue Q (key_of o) /\ good_order o;
  i_ids : forall k q id, Q !! k = Some q -> id ∈ q -> 0 < id < st_next st;
  i_best : forall key is_bid, bd_base (book st key) <> 0 -> best_ok Q key is_bid (best (book st key) is_bid);
  i_index : forall key, bd_base (book st key) <> 0 -> index_ok (st_keys st) key (bd_book_id (book st key));
  i_next : is_u128 (st_next st);
}.

(** ** What is owed *)

(** The token an order escrows, and how much. *)
Definition escrow_token (st : Store) (o : Order) : Address :=
  if o_is_bid o then bd_quote (book st (o_book_key o)) else bd_base (book st (o_book_key o)).
Definition escrow_amount (o : Order) : Z := if o_is_bid o then quote_up (o_remaining o) (o_tick o) else o_remaining o.

Definition owed_order (st : Store) (token : Address) (_ : u128) (o : Order) : Z :=
  if decide (escrow_token st o = token) then escrow_amount o else 0.
Definition owed_balance (token : Address) (k : Address * Address) (v : u128) : Z := if decide (k.2 = token) then v else 0.

Definition liabilities (st : Store) (token : Address) : Z :=
  msum (owed_balance token) (st_balances st) + msum (owed_order st token) (st_orders st).
End inv.

(** ** Ends of queues *)

Lemma first_id_app q1 q2 : first_id (q1 ++ q2) = if decide (q1 = []) then first_id q2 else first_id q1.
Proof. destruct q1; by cbn. Qed.

Lemma last_id_snoc q id : last_id (q ++ [id]) = id.
Proof. unfold last_id. by rewrite last_snoc. Qed.

Lemma last_id_app q1 q2 : last_id (q1 ++ q2) = if decide (q2 = []) then last_id q1 else last_id q2.
Proof.
  case_decide as Hq; [subst; by rewrite app_nil_r|]. destruct q2 as [|x q2 _] using rev_ind; [done|]. rewrite app_assoc, !last_id_snoc. done.
Qed.

Lemma last_id_cons id q : last_id (id :: q) = if decide (q = []) then id else last_id q.
Proof. change (id :: q) with ([id] ++ q). rewrite last_id_app. by case_decide. Qed.

Lemma queue_lookup Q k q : Q !! k = Some q -> queue Q k = q.
Proof. unfold queue. by intros ->. Qed.

Lemma queue_push Q k id k' : queue (push Q k id) k' = if decide (k' = k) then queue Q k ++ [id] else queue Q k'.
Proof. unfold push, queue at 1. case_decide as Hd; [subst; by rewrite lookup_insert_eq|by rewrite lookup_insert_ne]. Qed.

Lemma set_queue_lookup Q k q k' : set_queue Q k q !! k' = if decide (k' = k) then match q with [] => None | _ => Some q end else Q !! k'.
Proof.
  unfold set_queue. destruct q; case_decide as Hd; subst; by rewrite ?lookup_delete_eq, ?lookup_delete_ne, ?lookup_insert_eq, ?lookup_insert_ne.
Qed.

Lemma queue_set Q k q k' : queue (set_queue Q k q) k' = if decide (k' = k) then q else queue Q k'.
Proof. unfold queue. rewrite set_queue_lookup. case_decide; [by destruct q|done]. Qed.

(** ** Sums of a queue *)

Lemma liquidity_app orders lim k q1 q2 : liquidity orders lim k (q1 ++ q2) = liquidity orders lim k q1 + liquidity orders lim k q2.
Proof. induction q1 as [|x q1 IH]; cbn; [done|]. fold (liquidity orders lim k (q1 ++ q2)) (liquidity orders lim k q1). lia. Qed.

Lemma liquidity_cons orders lim k id q : liquidity orders lim k (id :: q) = left_of orders lim k id + liquidity orders lim k q.
Proof. done. Qed.

Lemma liquidity_ext orders orders' lim lim' k q : (forall id, id ∈ q -> left_of orders' lim' k id = left_of orders lim k id) ->
  liquidity orders' lim' k q = liquidity orders lim k q.
Proof.
  induction q as [|x q IH]; cbn; [done|]. intros Hq. fold (liquidity orders lim k q) (liquidity orders' lim' k q).
  rewrite IH by set_solver. rewrite Hq by set_solver. done.
Qed.

Lemma left_of_ext orders orders' lim k id : (in_limbo lim k id = false -> remaining_of orders' id = remaining_of orders id) ->
  left_of orders' lim k id = left_of orders lim k id.
Proof.
  unfold left_of, in_limbo. destruct lim as [[[k' id'] r]|]; [|auto]. case_decide; [done|]. intros Hr. apply Hr. by apply bool_decide_false.
Qed.

Definition is_live (Q : Queues) (lim : Limbo) (k : LevelKey) (id : u128) : Prop := id ∈ queue Q k /\ in_limbo lim k id = false.

Lemma last_id_in q : q <> [] -> last_id q ∈ q.
Proof. intros Hq. destruct q as [|x q _] using rev_ind; [done|]. rewrite last_id_snoc. set_solver. Qed.

Section facts.
Context `{TempoSpec} `{TempoAddresses}.
Context (st : Store) (Q : Queues) (lim : Limbo) (Hinv : inv st Q lim).

Lemma queue_nodup k : NoDup (queue Q k).
Proof. unfold queue. destruct (Q !! k) as [q|] eqn:Hk; cbn; [by apply (i_queues _ _ _ Hinv k q)|constructor]. Qed.

Lemma queue_ids k id : id ∈ queue Q k -> 0 < id < st_next st.
Proof. unfold queue. destruct (Q !! k) as [q|] eqn:Hk; cbn; [by apply (i_ids _ _ _ Hinv k q)|intros Hx; by apply not_elem_of_nil in Hx]. Qed.

Lemma queue_nil k : queue Q k = [] <-> Q !! k = None.
Proof.
  unfold queue. destruct (Q !! k) as [q|] eqn:Hk; cbn; [|done]. split; [|done]. by destruct (i_queues _ _ _ Hinv k q Hk) as (? & _).
Qed.

Lemma queue_some k : queue Q k <> [] -> Q !! k = Some (queue Q k).
Proof. unfold queue. by destruct (Q !! k) as [q|]. Qed.

(** The ends of a level are zero exactly when it is empty. *)
Lemma first_id_zero k : first_id (queue Q k) = 0 <-> queue Q k = [].
Proof.
  split; [|by intros ->]. intros Hz. destruct (queue Q k) as [|x q] eqn:Hq; [done|]. cbn in Hz. assert (x ∈ queue Q k) as Hx by (rewrite Hq; by left).
  apply queue_ids in Hx. lia.
Qed.

Lemma last_id_zero k : last_id (queue Q k) = 0 <-> queue Q k = [].
Proof.
  split; [|by intros ->]. intros Hz. destruct (decide (queue Q k = [])) as [|Hne]; [done|]. apply last_id_in, queue_ids in Hne. lia.
Qed.

(** A queued order outside limbo has a record at its place. *)
Lemma live_order k id : is_live Q lim k id -> exists o, st_orders st !! id = Some o /\ key_of o = k.
Proof.
  intros [Hid Hlim]. assert (queue Q k <> []) as Hne by (intros Hn; rewrite Hn in Hid; by apply not_elem_of_nil in Hid).
  pose proof (i_links _ _ _ Hinv k _ (queue_some k Hne)) as Hl. apply list_elem_of_split in Hid as (pre & post & Hq).
  destruct (Hl pre id post Hq Hlim) as (o & Ho & Hk & _). eauto.
Qed.

(** A record is queued at its own level only. *)
Lemma record_queue id o k : st_orders st !! id = Some o -> is_live Q lim k id -> k = key_of o.
Proof. intros Ho Hid. destruct (live_order k id Hid) as (o' & Ho' & <-). by rewrite Ho in Ho'; injection Ho' as ->. Qed.
End facts.

Lemma linked_ext orders orders' lim k q :
  (forall id o, id ∈ q -> in_limbo lim k id = false -> orders !! id = Some o -> key_of o = k -> orders' !! id = Some o) ->
  linked orders lim k q -> linked orders' lim k q.
Proof.
  intros Heq Hl pre id post Hq Hs. destruct (Hl pre id post Hq Hs) as (o & Ho & Hk & Hp). exists o. split; [|done].
  apply Heq; [subst; set_solver|done..].
Qed.
