(* ===== verification/DexCommit.v ===== *)
(** * Appending an order to its level

    What [commit_order_to_book] does to the typed state, and that it appends the
    order to the queue of its level. *)

From stdpp Require Import prelude gmap list strings.
From S2P Require Import Prelude DexPrice TempoEvm DexTypes DexBook DexCredits Dex DexStore.
From S2P Require Import DexOrders DexHolds DexInv.

#[local] Open Scope Z_scope.

(** Bind a step whose effect on the store is known. *)
Ltac ends_by lem := apply ends_bind; eapply ends_acts; [eassumption|apply lem|cbv beta].

Section commit.
Context `{TempoSpec} `{TempoAddresses}.

Definition link_level (st : Store) (o : Order) : Store :=
  let k := key_of o in
  let tail := tl_tail (level st k) in
  if decide (tail = 0) then
    let st := with_bits st ({[k]} ∪ st_bits st) in
    let b := book st (o_book_key o) in
    if decide (best b (o_is_bid o) <> o_tick o /\ ahead (o_is_bid o) (o_tick o) (best b (o_is_bid o)))
    then put_book st (o_book_key o) (set_best b (o_is_bid o) (o_tick o)) else st
  else with_orders st (alter (fun t => set_next t (o_order_id o)) tail (st_orders st)).

Definition grown_level (l : TickLevel) (o : Order) : TickLevel :=
  mkLevel (if decide (tl_tail l = 0) then o_order_id o else tl_head l) (o_order_id o)
    (if is_t12 then tl_total_liquidity l else tl_total_liquidity l + o_remaining o).

Definition commit_st (st : Store) (o : Order) : Store :=
  let k := key_of o in
  let l := level st k in
  let st := put_level (link_level st o) k (grown_level l o) in
  with_orders st (<[o_order_id o := set_prev o (tl_tail l)]> (st_orders st)).

Lemma set_prev_same o : o_prev o = 0 -> set_prev o 0 = o.
Proof. destruct o; cbn. by intros ->. Qed.

Lemma write_best_ends s st key (b : bool) t (P : unit -> Evm -> Prop) (c : bool) : holds s st -> is_i16 t ->
  (forall s', holds s' (if c then put_book st key (set_best (book st key) b t) else st) -> elsewhere s s' -> P tt s') ->
  ends (if b then when c (write_best_bid_tick (book_slot key) t) else when c (write_best_ask_tick (book_slot key) t)) s P.
Proof.
  intros Hh Ht HP. destruct c; cbn [when].
  - eapply ends_acts; [done|by apply write_best_acts|done].
  - destruct b; apply ends_ret, HP; done.
Qed.

(** The neighbour at the tail, when there is one. *)
Definition tail_ok (st : Store) (o : Order) : Prop :=
  let t := tl_tail (level st (key_of o)) in
  t <> 0 -> t <> o_order_id o /\ exists ot, st_orders st !! t = Some ot /\ o_order_id ot = t /\ 0 < t /\ o_book_key ot = o_book_key o /\ order_ranges ot.

Lemma link_ends s st o : holds s st -> is_i16 (o_tick o) -> is_u128 (o_order_id o) -> tail_ok st o -> o_prev o = 0 ->
  index_ok (st_keys st) (o_book_key o) (bd_book_id (book st (o_book_key o))) ->
  let l := level st (key_of o) in
  ends
    (if decide (tl_tail l = 0) then
       _ ← set_tick_bit (book_slot (o_book_key o)) (o_tick o) (o_is_bid o);
       _ ← (if o_is_bid o then
              when (bool_decide (bd_best_bid_tick (book st (o_book_key o)) < o_tick o)) (write_best_bid_tick (book_slot (o_book_key o)) (o_tick o))
            else
              when (bool_decide (o_tick o < bd_best_ask_tick (book st (o_book_key o)))) (write_best_ask_tick (book_slot (o_book_key o)) (o_tick o)));
       mret (o, mkLevel (o_order_id o) (o_order_id o) (tl_total_liquidity l))
     else
       _ ← (if is_t8 then handle ← order_next (tl_tail l); h_write PU128 handle (o_order_id o)
            else
              prev_order ← read_in_book (tl_tail l) (o_book_key o);
              write_in_book (tl_tail l) (set_next prev_order (o_order_id o)) (bd_book_id (book st (o_book_key o))));
       mret (set_prev o (tl_tail l), mkLevel (tl_head l) (o_order_id o) (tl_total_liquidity l))) s
    (fun r s' => holds s' (link_level st o) /\ elsewhere s s' /\
       r = (set_prev o (tl_tail l), mkLevel (if decide (tl_tail l = 0) then o_order_id o else tl_head l) (o_order_id o) (tl_total_liquidity l))).
Proof.
  intros Hh Ht Hid Htail Hprev Hix l. unfold link_level. fold l. destruct (decide (tl_tail l = 0)) as [Hz|Hnz].
  - ends_by set_tick_bit_acts; [done|]. intros s1 Hh1 He1. apply ends_bind.
    set (st1 := with_bits st _) in *. change (book st (o_book_key o)) with (book st1 (o_book_key o)).
    set (c := if o_is_bid o then bool_decide (bd_best_bid_tick (book st1 (o_book_key o)) < o_tick o)
              else bool_decide (o_tick o < bd_best_ask_tick (book st1 (o_book_key o)))).
    assert (holds s1 st1) as Hh1' by done.
    assert (forall P : unit -> Evm -> Prop, (forall s', holds s' (if c then put_book st1 (o_book_key o) (set_best (book st1 (o_book_key o)) (o_is_bid o) (o_tick o)) else st1) ->
      elsewhere s1 s' -> P tt s') -> ends (if o_is_bid o then when c (write_best_bid_tick (book_slot (o_book_key o)) (o_tick o))
         else when c (write_best_ask_tick (book_slot (o_book_key o)) (o_tick o))) s1 P) as Hw by (intros P HP; by eapply write_best_ends).
    assert (c = bool_decide (best (book st1 (o_book_key o)) (o_is_bid o) <> o_tick o /\ ahead (o_is_bid o) (o_tick o) (best (book st1 (o_book_key o)) (o_is_bid o)))) as Hc.
    { unfold c, best, ahead. destruct (o_is_bid o); apply bool_decide_ext; lia. }
    revert Hw. destruct (o_is_bid o) eqn:Hb; intros Hw; apply Hw; intros s2 Hh2 He2; apply ends_ret; rewrite Hz, set_prev_same by done;
      (split_and!; [|by etrans|done]); rewrite Hc in Hh2; case_bool_decide; case_decide; done.
  - destruct (Htail Hnz) as (Hne & ot & Hot & Hoid & Hpos & Hkey & Hr). fold l in Hot, Hoid, Hne, Hpos.
    apply ends_bind. assert (acts st (if is_t8 then handle ← order_next (tl_tail l); h_write PU128 handle (o_order_id o)
            else
              prev_order ← read_in_book (tl_tail l) (o_book_key o);
              write_in_book (tl_tail l) (set_next prev_order (o_order_id o)) (bd_book_id (book st (o_book_key o)))) tt
       (with_orders st (<[tl_tail l := set_next ot (o_order_id o)]> (st_orders st)))) as Hact.
    { destruct is_t8.
      - by apply (write_field_acts st (tl_tail l) ot FNext).
      - eapply acts_bind; [apply (read_acts st _ ot); [done|right; by rewrite Hkey]|].
        apply write_acts; [done|done|by apply (field_ranges FNext)|]. cbn. by rewrite Hkey. }
    eapply ends_acts; [exact Hh|exact Hact|]. intros s1 Hh1 He1. apply ends_ret. split_and!; [|done|done].
    replace (alter _ (tl_tail l) (st_orders st)) with (<[tl_tail l := set_next ot (o_order_id o)]> (st_orders st)); [done|].
    apply map_eq. intros j. destruct (decide (j = tl_tail l)) as [-> |Hj]; [by rewrite lookup_insert_eq, lookup_alter_eq, Hot|by rewrite lookup_insert_ne, lookup_alter_ne].
Qed.

Lemma link_keys st o : st_keys (link_level st o) = st_keys st.
Proof. unfold link_level. repeat case_decide; done. Qed.

Lemma link_levels st o : st_levels (link_level st o) = st_levels st.
Proof. unfold link_level. repeat case_decide; done. Qed.

(** An order written to its id, and who pays for the words. *)
Lemma store_order_ends s st o book_id charge : holds s st -> 0 < o_order_id o -> order_ranges o -> index_ok (st_keys st) (o_book_key o) book_id ->
  ends (if charge && is_t7 then write_order_spending_dex_storage_credits o book_id
        else if negb charge && is_t8 then credits ← rewrite_order o book_id; credit_dex_storage_slots (o_maker o) credits
        else write_in_book (o_order_id o) o book_id) s
    (fun _ s' => holds s' (with_orders st (<[o_order_id o := o]> (st_orders st))) /\ elsewhere s s').
Proof.
  intros Hh Hpos Hr Hix. pose proof (write_acts st (o_order_id o) o book_id eq_refl Hpos Hr Hix) as Ha.
  destruct (charge && is_t7); [by eapply spending_ends|]. destruct (negb charge && is_t8).
  - destruct (track_does _ s st tt _ Hh Ha) as (k & s1 & Hr1 & Hh1 & He1 & Hk & _). apply ends_bind. unfold rewrite_order, ends at 1.
    rewrite (bind_ok _ _ _ _ _ Hr1). split; [apply He1|]. eapply ends_mono; [|by apply credit_ends].
    intros _ s2 [Hh2 He2]. split; [done|]. by etrans.
  - eapply ends_acts; [exact Hh|exact Ha|]. intros s1 Hh1 He1. by split.
Qed.

Lemma words_level s st k : holds s st -> is_i16 k.2 -> level_ranges (level st k).
Proof.
  intros (_ & _ & cr & Hw) Hk. destruct (w_levels _ _ _ Hw k Hk) as (_ & _ & Htot & H1 & H2 & H3). split_and!; try done.
  intros H12. by rewrite H12 in Htot.
Qed.

Lemma commit_ends s st o charge : holds s st -> is_i16 (o_tick o) -> 0 < o_order_id o -> order_ranges o -> tail_ok st o -> o_prev o = 0 ->
  index_ok (st_keys st) (o_book_key o) (bd_book_id (book st (o_book_key o))) ->
  ends (commit_order_to_book o charge) s (fun _ s' => holds s' (commit_st st o) /\ elsewhere s s').
Proof.
  intros Hh Ht Hpos Hr Htail Hprev Hix. unfold commit_order_to_book. pose proof Hr as (Hid & _ & _ & _ & Hrem & _).
  ends_by read_data_acts. intros s1 Hh1 He1. ends_by read_level_acts; [done|]. intros s2 Hh2 He2. change (o_book_key o, o_is_bid o, o_tick o) with (key_of o).
  pose proof (words_level s2 st (key_of o) Hh2 Ht) as (Hl1 & Hl2 & Hl3 & Hl4).
  apply ends_bind. eapply ends_mono; [|by apply link_ends]. intros [o' l'] s3 (Hh3 & He3 & [= -> ->]). cbv beta iota.
  unfold commit_st. set (l := level st (key_of o)) in *. set (tail := tl_tail l) in *.
  apply ends_bind. apply (ends_mono _ _ (fun l' s' => s' = s3 /\ l' = grown_level l o /\ level_ranges (grown_level l o))).
  2: { unfold grown_level. unfold level_ranges. destruct is_t12 eqn:E12; cbn [tl_head tl_tail tl_total_liquidity].
       - apply ends_ret. split_and!; try done; by case_decide.
       - apply ends_bind, ends_ok_or. intros n Hn. unfold checked_add in Hn. case_decide as Hmax; [|done]. injection Hn as <-. apply ends_ret.
         split_and!; try done; [by case_decide|]. cbn in *. unfold is_u128 in *. lia. }
  intros l'' s3' (-> & -> & Hlr). ends_by write_level_acts; [done|done|]. intros s4 Hh4 He4.
  eapply ends_mono; [|apply (store_order_ends s4 _ (set_prev o tail) _ charge Hh4)].
  - intros _ s5 [Hh5 He5]. split; [done|]. do 4 (etrans; [eassumption|]). done.
  - done.
  - by apply (field_ranges FPrev).
  - cbn [put_level st_keys set_prev o_book_key]. by rewrite link_keys.
Qed.

(** ** The queue of the level *)

Definition fresh (Q : Queues) (lim : Limbo) (id : u128) : Prop := forall k, ~ is_live Q lim k id.

Lemma commit_orders st o j : tl_tail (level st (key_of o)) <> o_order_id o ->
  st_orders (commit_st st o) !! j =
    if decide (j = o_order_id o) then Some (set_prev o (tl_tail (level st (key_of o))))
    else if decide (tl_tail (level st (key_of o)) <> 0 /\ j = tl_tail (level st (key_of o)))
         then (fun t => set_next t (o_order_id o)) <$> st_orders st !! j else st_orders st !! j.
Proof.
  intros Hne. unfold commit_st. cbn [with_orders st_orders put_level]. case_decide as Hj; [subst; by rewrite lookup_insert_eq|].
  rewrite lookup_insert_ne by done. unfold link_level. set (tail := tl_tail _) in *. destruct (decide (tail = 0)) as [Hz|Hnz].
  - rewrite (decide_False (P := tail <> 0 /\ _)) by tauto. case_decide; done.
  - cbn [with_orders st_orders]. case_decide as Hd; [destruct Hd as [_ ->]; by rewrite lookup_alter_eq|]. rewrite lookup_alter_ne; [done|]. intros Heq. apply Hd. by split.
Qed.

Lemma commit_book st o key : bd_base (book (commit_st st o) key) = bd_base (book st key) /\ bd_quote (book (commit_st st o) key) = bd_quote (book st key) /\
  bd_book_id (book (commit_st st o) key) = bd_book_id (book st key).
Proof.
  unfold commit_st. change (book (with_orders ?a ?b)) with (book a). change (book (put_level ?a ?b ?c)) with (book a).
  unfold link_level. repeat (case_decide; try done). rewrite book_put. case_decide as Hk; [|done]. subst. by destruct (o_is_bid o).
Qed.

Lemma commit_best st o key b : best (book (commit_st st o) key) b =
  if decide (tl_tail (level st (key_of o)) = 0 /\ key = o_book_key o /\ b = o_is_bid o /\ ahead b (o_tick o) (best (book st key) b))
  then o_tick o else best (book st key) b.
Proof.
  unfold commit_st. change (book (with_orders ?a ?b)) with (book a). change (book (put_level ?a ?b ?c)) with (book a).
  unfold link_level. destruct (decide (tl_tail (level st (key_of o)) = 0)) as [Hz|Hnz]; [|rewrite decide_False by tauto; done].
  change (book (with_bits st ?x)) with (book st).
  destruct (decide (best (book st (o_book_key o)) (o_is_bid o) <> o_tick o /\ _)) as [[Hne Ha]|Hn].
  - rewrite book_put. change (book (with_bits st ?x)) with (book st). destruct (decide (key = o_book_key o)) as [-> |Hk].
    + destruct (decide (b = o_is_bid o)) as [-> |Hb].
      * rewrite decide_True by tauto. unfold set_best, best. by destruct (o_is_bid o).
      * rewrite decide_False by tauto. unfold set_best, best. by destruct (o_is_bid o), b.
    + rewrite decide_False by tauto. done.
  - case_decide as Hd; [|done]. destruct Hd as (_ & -> & -> & Ha). destruct (decide (best (book st (o_book_key o)) (o_is_bid o) = o_tick o)); [done|tauto].
Qed.

(** The last order of a queue points to the new one. *)
Lemma linked_push orders orders' lim k q id t0 : NoDup (q ++ [id]) -> (forall x, in_limbo lim k x = false) -> linked orders lim k q ->
  orders' !! id = Some t0 -> key_of t0 = k -> o_prev t0 = last_id q -> o_next t0 = 0 ->
  (forall x, x ∈ q -> orders' !! x = if decide (x = last_id q) then (fun t => set_next t id) <$> orders !! x else orders !! x) ->
  linked orders' lim k (q ++ [id]).
Proof.
  intros Hnd Hlim Hl Hid Hk Hp Hn Hrest pre x post Hq _. destruct post as [|y post _] using rev_ind.
  - apply app_inj_tail in Hq as [-> ->]. exists t0. done.
  - rewrite app_comm_cons, app_assoc in Hq. apply app_inj_tail in Hq as [-> ->].
    destruct (Hl pre x post eq_refl (Hlim x)) as (o & Ho & Hko & Hpo & Hno).
    rewrite Hrest by set_solver. rewrite last_id_app, (decide_False (P := x :: post = [])) by done. rewrite last_id_cons. rewrite first_id_app.
    destruct (decide (post = [])) as [-> |Hpost].
    + rewrite decide_True by done. rewrite Ho. cbn. eexists. split_and!; [done|done|done|done].
    + assert (x <> last_id post) as Hx.
      { intros Hx. pose proof (last_id_in post Hpost) as Hin. rewrite <- Hx in Hin. rewrite <- app_assoc in Hnd. cbn in Hnd.
        apply NoDup_app in Hnd as (_ & _ & Hnd). apply NoDup_cons in Hnd as [Hnd _]. apply Hnd. set_solver. }
      rewrite decide_False by done. by exists o.
Qed.

Section push.
Context (st : Store) (Q : Queues) (lim : Limbo) (o : Order) (Hinv : inv st Q lim).
Context (Hgood : good_order o) (Hprev : o_prev o = 0) (Hnext : o_next o = 0) (Hbase : bd_base (book st (o_book_key o)) <> 0).
Context (Hid : 0 < o_order_id o < st_next st) (Hlim : forall x, in_limbo lim (key_of o) x = false) (Hfresh : fresh Q lim (o_order_id o)).

Let k0 := key_of o.
Let q0 := queue Q k0.
Let id := o_order_id o.

Lemma tail_is : tl_tail (level st k0) = last_id q0.
Proof. unfold q0. by rewrite (i_levels _ _ _ Hinv k0). Qed.

Lemma fresh_q0 : id ∉ q0.
Proof. intros Hin. by apply (Hfresh k0). Qed.

Lemma tail_zero : last_id q0 = 0 <-> q0 = [].
Proof. apply (last_id_zero _ _ _ Hinv). Qed.

Lemma tail_fresh : last_id q0 <> id.
Proof.
  intros Heq. destruct (decide (q0 = [])) as [Hq|Hq]; [rewrite Hq in Heq; cbn in Heq; unfold id in Heq; lia|].
  apply last_id_in in Hq. rewrite Heq in Hq. by apply fresh_q0.
Qed.

Lemma tail_fresh' : tl_tail (level st (key_of o)) <> o_order_id o.
Proof. pose proof tail_fresh as Ht. by rewrite <- tail_is in Ht. Qed.

Lemma q0_linked : linked (st_orders st) lim k0 q0.
Proof.
  destruct (decide (q0 = [])) as [Hq|Hq]; [rewrite Hq; intros [|] ? ? ?; discriminate|].
  apply (i_links _ _ _ Hinv k0 q0 (queue_some Q k0 Hq)).
Qed.

Lemma commit_tail_ok : tail_ok st o.
Proof.
  unfold tail_ok. fold k0. rewrite tail_is. intros Hz. split; [apply tail_fresh|]. assert (q0 <> []) as Hq by (intros Hq; by apply Hz, tail_zero).
  destruct q0 as [|x q _] eqn:Hq0 using rev_ind; [done|]. rewrite last_id_snoc. destruct (q0_linked q x [] Hq0 (Hlim x)) as (ot & Hot & Hk & _).
  destruct (i_orders _ _ _ Hinv x ot Hot) as (Hx & _ & Hg). exists ot. injection Hk as Hk1 _ _.
  assert (0 < x < st_next st) by (apply (queue_ids st Q lim Hinv k0); fold q0; rewrite Hq0; set_solver). split_and!; try done; [lia|apply Hg].
Qed.

(** Records of other orders. *)
Lemma commit_other j : j <> id -> j <> last_id q0 \/ q0 = [] -> st_orders (commit_st st o) !! j = st_orders st !! j.
Proof.
  intros Hj Ht. rewrite commit_orders by apply tail_fresh'. fold k0. rewrite tail_is. rewrite decide_False by done.
  rewrite decide_False; [done|]. intros [Hnz ->]. destruct Ht as [?|Hq]; [done|]. by apply Hnz, tail_zero.
Qed.

Lemma commit_live k j : k <> k0 -> is_live Q lim k j -> st_orders (commit_st st o) !! j = st_orders st !! j.
Proof.
  intros Hk Hj. apply commit_other; [intros ->; by apply (Hfresh k)|]. destruct (decide (q0 = [])) as [|Hq]; [by right|left]. intros ->.
  destruct (live_order st Q lim Hinv k _ Hj) as (o' & Ho' & Hk'). apply Hk. rewrite <- Hk'. symmetry. apply (record_queue st Q lim Hinv (last_id q0)); [done|].
  split; [by apply last_id_in|apply Hlim].
Qed.

Lemma commit_remaining k j : k <> k0 -> is_live Q lim k j -> remaining_of (st_orders (commit_st st o)) j = remaining_of (st_orders st) j.
Proof. intros Hk Hj. unfold remaining_of. by rewrite (commit_live k j). Qed.

Lemma commit_tail_remaining j : j ∈ q0 -> remaining_of (st_orders (commit_st st o)) j = remaining_of (st_orders st) j.
Proof.
  intros Hj. unfold remaining_of. rewrite commit_orders by apply tail_fresh'. assert (j <> id) as Hji by (intros ->; by apply fresh_q0).
  rewrite decide_False by done. case_decide; [|done]. by destruct (st_orders st !! j).
Qed.

Lemma commit_level k : level (commit_st st o) k = if decide (k = k0) then grown_level (level st k0) o else level st k.
Proof.
  unfold commit_st. change (level (with_orders ?a ?b)) with (level a). rewrite level_put. fold k0. case_decide; [done|].
  unfold level at 1. by rewrite link_levels.
Qed.

Lemma commit_levels k : level (commit_st st o) k =
  mkLevel (first_id (queue (push Q k0 id) k)) (last_id (queue (push Q k0 id) k))
    (if is_t12 then 0 else liquidity (st_orders (commit_st st o)) lim k (queue (push Q k0 id) k)).
Proof.
  rewrite commit_level, queue_push. fold q0. destruct (decide (k = k0)) as [-> |Hk].
  - unfold grown_level. rewrite tail_is. rewrite (i_levels _ _ _ Hinv k0). cbn [tl_head tl_tail tl_total_liquidity]. fold q0.
    rewrite last_id_snoc, first_id_app. f_equal.
    + destruct (decide (q0 = [])) as [Hq|Hq]; [by rewrite decide_True by by apply tail_zero|rewrite decide_False; [done|]; by rewrite tail_zero].
    + destruct is_t12; [done|]. rewrite liquidity_app, liquidity_cons.
      rewrite (liquidity_ext (st_orders st) (st_orders (commit_st st o)) lim lim k0 q0).
      2: { intros x Hx. apply left_of_ext. intros _. by apply commit_tail_remaining. }
      f_equal. cbn [liquidity foldr]. assert (forall orders x, left_of orders lim k0 x = remaining_of orders x) as ->.
      { intros orders x. specialize (Hlim x). unfold left_of, in_limbo in *. destruct lim as [[[k' x'] r]|]; [|done].
        apply bool_decide_eq_false in Hlim. by rewrite decide_False. }
      unfold remaining_of. rewrite commit_orders by apply tail_fresh'. fold id. rewrite decide_True by done. cbn. lia.
  - rewrite (i_levels _ _ _ Hinv k). f_equal. destruct is_t12; [done|]. symmetry. apply liquidity_ext. intros j Hj. apply left_of_ext.
    intros Hl. by apply (commit_remaining k).
Qed.

Lemma commit_links k q : push Q k0 id !! k = Some q -> linked (st_orders (commit_st st o)) lim k q.
Proof.
  unfold push. fold q0. rewrite lookup_insert_Some. intros [[<- <-]|[Hk Hq]].
  - eapply (linked_push (st_orders st)).
    + apply NoDup_app. split_and!; [apply (queue_nodup st Q lim Hinv)|intros x Hx ->%list_elem_of_singleton; by apply fresh_q0|apply NoDup_singleton].
    + apply Hlim.
    + apply q0_linked.
    + rewrite commit_orders by apply tail_fresh'. by rewrite decide_True.
    + done.
    + cbn. apply tail_is.
    + done.
    + intros x Hx. rewrite commit_orders by apply tail_fresh'. fold k0 id. rewrite tail_is. rewrite decide_False by (intros ->; by apply fresh_q0).
      destruct (decide (x = last_id q0)) as [-> |Hne]; [rewrite decide_True; [done|]|rewrite decide_False by tauto; done].
      split; [|done]. rewrite tail_zero. intros Hq. rewrite Hq in Hx. by apply not_elem_of_nil in Hx.
  - eapply linked_ext; [|by apply (i_links _ _ _ Hinv)]. intros j oj Hj Hl Hoj _. rewrite (commit_live k); [done|done|].
    split; [by rewrite (queue_lookup _ _ _ Hq)|done].
Qed.

Lemma commit_best_ok key b : bd_base (book st key) <> 0 -> best_ok (push Q k0 id) key b (best (book (commit_st st o) key) b).
Proof.
  intros Hb. pose proof (i_best _ _ _ Hinv key b Hb) as Hold. rewrite commit_best. fold k0. rewrite tail_is.
  assert (forall t, is_Some (push Q k0 id !! (key, b, t)) <-> (key, b, t) = k0 \/ is_Some (Q !! (key, b, t))) as Hpush.
  { intros t. unfold push. destruct (decide ((key, b, t) = k0)) as [Heq|Hne]; [rewrite Heq, lookup_insert_eq|rewrite lookup_insert_ne by done]; [|tauto].
    split; [by left|done]. }
  unfold best_ok. setoid_rewrite Hpush. unfold k0 in *. destruct (decide ((key, b) = (o_book_key o, o_is_bid o))) as [[= -> ->]|Hne].
  - left. case_decide as Hd; rewrite tail_zero in Hd.
    + destruct Hd as (_ & _ & _ & Ha). split; [by left|]. intros t' [[= ->]|Ht']; [unfold ahead; by destruct (o_is_bid o)|].
      destruct Hold as [[_ Hbest]|[_ Hnone]]; [|rewrite Hnone in Ht'; by destruct Ht']. specialize (Hbest t' Ht'). unfold ahead in *. destruct (o_is_bid o); lia.
    + destruct Hold as [[Hs Hbest]|[Hnt Hnone]].
      * split; [by right|]. intros t' [[= ->]|Ht']; [|by apply Hbest]. destruct (decide (q0 = [])) as [Hq|Hq].
        { assert (~ ahead (o_is_bid o) (o_tick o) (best (book st (o_book_key o)) (o_is_bid o))) as Hna by tauto. unfold ahead in *. destruct (o_is_bid o); lia. }
        apply Hbest. exists q0. by apply queue_some.
      * exfalso. apply Hd. split_and!; try done.
        { unfold q0, queue, k0, key_of. by rewrite Hnone. }
        rewrite Hnt. destruct Hgood as (_ & _ & _ & [Hv _] & _). apply valid_i16 in Hv. unfold is_i16 in Hv. unfold ahead, no_tick. destruct (o_is_bid o); lia.
  - assert (forall t, (key, b, t) <> key_of o) as Hk by (intros t [= -> ->]; done). rewrite decide_False by (intros (_ & -> & -> & _); done).
    destruct Hold as [[Hs Hbest]|[Hnt Hnone]]; [left; split; [by right|]; intros t' [?|?]; [by exfalso; eapply Hk|by apply Hbest]|].
    right. split; [done|]. intros t'. unfold push. rewrite lookup_insert_ne by done. apply Hnone.
Qed.

Lemma good_set_prev x t : is_u128 t -> good_order x -> good_order (set_prev x t).
Proof. intros Ht (Hr & Hg). split; [by apply (field_ranges FPrev)|done]. Qed.

Lemma good_set_next x t : is_u128 t -> good_order x -> good_order (set_next x t).
Proof. intros Ht (Hr & Hg). split; [by apply (field_ranges FNext)|done]. Qed.

Lemma id_u128 x : 0 < x < st_next st -> is_u128 x.
Proof. pose proof (i_next _ _ _ Hinv). unfold is_u128 in *. lia. Qed.

Lemma queue_push_in k x : x ∈ queue Q k -> x ∈ queue (push Q k0 id) k.
Proof. rewrite queue_push. case_decide; [subst; set_solver|done]. Qed.

Lemma commit_orders_ok j oj : st_orders (commit_st st o) !! j = Some oj ->
  o_order_id oj = j /\ j ∈ queue (push Q k0 id) (key_of oj) /\ good_order oj.
Proof.
  rewrite commit_orders by apply tail_fresh'. fold k0 id. rewrite tail_is. case_decide as Hj.
  - intros [= <-]. subst j. split_and!; [done| |].
    + change (key_of (set_prev o (last_id q0))) with k0. rewrite queue_push, decide_True by done. set_solver.
    + apply good_set_prev; [|done]. destruct (decide (q0 = [])) as [Hq|Hq]; [rewrite Hq; by vm_compute|].
      apply id_u128, (queue_ids st Q lim Hinv k0). by apply last_id_in.
  - case_decide as Ht.
    + destruct (st_orders st !! j) as [ot|] eqn:Hot; [|done]. intros [= <-]. destruct (i_orders _ _ _ Hinv j ot Hot) as (Hoid & Hin & Hg).
      split_and!; [done|by apply queue_push_in|]. apply good_set_next; [by apply id_u128|done].
    + intros Hoj. destruct (i_orders _ _ _ Hinv j oj Hoj) as (Hoid & Hin & Hg). split_and!; [done|by apply queue_push_in|done].
Qed.

Lemma commit_inv : inv (commit_st st o) (push Q k0 id) lim.
Proof.
  split.
  - intros k q. unfold push. fold q0. rewrite (proj1 (commit_book st o k.1.1)). rewrite lookup_insert_Some. intros [[<- <-]|[Hk Hq]]; [|by apply (i_queues _ _ _ Hinv)].
    split_and!; [by destruct q0| |apply Hgood|done].
    apply NoDup_app. split_and!; [apply (queue_nodup st Q lim Hinv)|intros x Hx ->%list_elem_of_singleton; by apply fresh_q0|apply NoDup_singleton].
  - apply commit_levels.
  - intros k. assert (st_bits (commit_st st o) = if decide (q0 = []) then {[k0]} ∪ st_bits st else st_bits st) as ->.
    { unfold commit_st. cbn [with_orders put_level st_bits]. unfold link_level. fold k0. rewrite tail_is.
      destruct (decide (q0 = [])) as [Hq|Hq]; [rewrite decide_True by (by apply tail_zero)|rewrite decide_False by (by rewrite tail_zero)]; [|done].
      case_decide; done. }
    unfold push. destruct (decide (k = k0)) as [-> |Hk].
    + rewrite lookup_insert_eq. split; [done|]. intros _. case_decide as Hq; [set_solver|]. apply (i_bits _ _ _ Hinv). exists q0. by apply queue_some.
    + rewrite lookup_insert_ne by done. rewrite <- (i_bits _ _ _ Hinv). case_decide; set_solver.
  - apply commit_links.
  - apply commit_orders_ok.
  - assert (st_next (commit_st st o) = st_next st) as -> by (unfold commit_st, link_level; repeat case_decide; done).
    intros k q x. unfold push. fold q0. rewrite lookup_insert_Some. intros [[<- <-]|[Hk Hq]] Hx; [|by apply (i_ids _ _ _ Hinv k q)].
    apply elem_of_app in Hx as [Hx| ->%list_elem_of_singleton]; [by apply (queue_ids st Q lim Hinv k0)|done].
  - intros key b. rewrite (proj1 (commit_book st o key)). apply commit_best_ok.
  - intros key. destruct (commit_book st o key) as (-> & _ & ->). intros Hb.
    assert (st_keys (commit_st st o) = st_keys st) as -> by (unfold commit_st; cbn; apply link_keys). by apply (i_index _ _ _ Hinv).
  - assert (st_next (commit_st st o) = st_next st) as -> by (unfold commit_st, link_level; repeat case_decide; done). apply Hinv.
Qed.
End push.

(** What is owed changes by the escrow of the order. *)
Lemma commit_owed st o token j x : owed_order (commit_st st o) token j x = owed_order st token j x.
Proof.
  unfold owed_order, escrow_token. destruct (commit_book st o (o_book_key x)) as (-> & -> & _). done.
Qed.

Lemma commit_liabilities st o token : tl_tail (level st (key_of o)) <> o_order_id o ->
  liabilities (commit_st st o) token =
    liabilities st token - term (owed_order st token) (o_order_id o) (st_orders st !! o_order_id o) + owed_order st token (o_order_id o) o.
Proof.
  intros Hne. unfold liabilities. rewrite (msum_ext _ (owed_order st token)) by (intros; apply commit_owed).
  assert (st_balances (commit_st st o) = st_balances st) as -> by (unfold commit_st, link_level; repeat case_decide; done).
  unfold commit_st. cbn [with_orders st_orders put_level]. rewrite msum_insert.
  change (owed_order st token (o_order_id o) (set_prev o _)) with (owed_order st token (o_order_id o) o).
  assert (st_orders (link_level st o) !! o_order_id o = st_orders st !! o_order_id o /\
    msum (owed_order st token) (st_orders (link_level st o)) = msum (owed_order st token) (st_orders st)) as [-> ->]; [|lia].
  unfold link_level. destruct (decide (tl_tail (level st (key_of o)) = 0)); [case_decide; done|]. cbn [with_orders st_orders].
  split; [by rewrite lookup_alter_ne|]. apply msum_alter. done.
Qed.
End commit.
