(* ===== verification/DexCancel.v ===== *)
(** * Taking an order out of its level

    Unlinking an order from its neighbours, shrinking its level and, when it was
    the last, clearing the level's bit and moving the best tick on. A maker can
    cancel any order in the book: the order leaves its queue, its escrow is the
    maker's again, and nothing else changes. *)

From stdpp Require Import prelude gmap list strings.
From S2P Require Import Prelude TempoEvm DexTypes DexBook DexCredits Dex DexStore DexOrders.
From S2P Require Import DexHolds DexPrice DexInv DexCommit.

#[local] Open Scope Z_scope.

Section remove.
Context `{TempoSpec} `{TempoAddresses}.

Definition unlink_orders (orders : gmap u128 Order) (o : Order) : gmap u128 Order :=
  let orders := if decide (o_prev o <> 0) then alter (fun p => set_next p (o_next o)) (o_prev o) orders else orders in
  if decide (o_next o <> 0) then alter (fun n => set_prev n (o_prev o)) (o_next o) orders else orders.

Definition shrunk_level (l : TickLevel) (o : Order) : TickLevel :=
  mkLevel (if decide (o_prev o <> 0) then tl_head l else o_next o) (if decide (o_next o <> 0) then tl_tail l else o_prev o)
    (if is_t12 then tl_total_liquidity l else tl_total_liquidity l - o_remaining o).

(** An emptied level: its bit is cleared, and the best tick is the next one found. *)
Definition drop_level (st : Store) (o : Order) (r : i16 * bool) : Store :=
  let st := with_bits st (st_bits st ∖ {[key_of o]}) in
  let b := book st (o_book_key o) in
  if decide (best b (o_is_bid o) = o_tick o)
  then put_book st (o_book_key o) (set_best b (o_is_bid o) (if r.2 then r.1 else no_tick (o_is_bid o))) else st.

Definition remove_st (st : Store) (o : Order) (r : i16 * bool) : Store :=
  let l := shrunk_level (level st (key_of o)) o in
  let st := with_orders st (unlink_orders (st_orders st) o) in
  put_level (if decide (tl_head l = 0) then drop_level st o r else st) (key_of o) l.

Lemma remove_level st o r k : level (remove_st st o r) k = if decide (k = key_of o) then shrunk_level (level st (key_of o)) o else level st k.
Proof.
  unfold remove_st. rewrite level_put. destruct (decide (k = key_of o)); [done|]. destruct (decide (tl_head _ = 0)); [|done].
  unfold drop_level. by destruct (decide (best _ _ = _)).
Qed.

Lemma remove_fields st o r : st_orders (remove_st st o r) = unlink_orders (st_orders st) o /\ st_next (remove_st st o r) = st_next st /\
  st_keys (remove_st st o r) = st_keys st /\ st_balances (remove_st st o r) = st_balances st.
Proof.
  unfold remove_st, drop_level. destruct (decide (tl_head _ = 0)); [|done]. by destruct (decide (best _ _ = _)).
Qed.

Lemma remove_book st o r key : bd_base (book (remove_st st o r) key) = bd_base (book st key) /\
  bd_quote (book (remove_st st o r) key) = bd_quote (book st key) /\ bd_book_id (book (remove_st st o r) key) = bd_book_id (book st key).
Proof.
  unfold remove_st. change (book (put_level ?a ?b ?c)) with (book a). destruct (decide (tl_head _ = 0)); [|done].
  unfold drop_level. destruct (decide (best _ _ = _)); [|done]. rewrite book_put. case_decide; [|done]. subst. by destruct (o_is_bid o).
Qed.

Lemma remove_best st o r key b : best (book (remove_st st o r) key) b =
  if decide (tl_head (shrunk_level (level st (key_of o)) o) = 0 /\ key = o_book_key o /\ b = o_is_bid o /\ best (book st key) b = o_tick o)
  then (if r.2 then r.1 else no_tick b) else best (book st key) b.
Proof.
  unfold remove_st. change (book (put_level ?a ?b ?c)) with (book a). set (l := shrunk_level _ _).
  destruct (decide (tl_head l = 0)) as [Hz|Hnz]; [|rewrite decide_False by tauto; done].
  unfold drop_level. change (book (with_bits ?a ?x)) with (book a). change (book (with_orders ?a ?x)) with (book a).
  destruct (decide (best (book st (o_book_key o)) (o_is_bid o) = o_tick o)) as [Hb|Hb].
  - rewrite book_put. change (book (with_bits ?a ?x)) with (book a). change (book (with_orders ?a ?x)) with (book a).
    destruct (decide (key = o_book_key o)) as [-> |Hk]; [|by rewrite decide_False by tauto].
    destruct (decide (b = o_is_bid o)) as [-> |Hbb].
    + rewrite decide_True by tauto. unfold set_best, best. by destruct (o_is_bid o).
    + rewrite decide_False by tauto. unfold set_best, best. by destruct (o_is_bid o), b.
  - rewrite decide_False; [done|]. intros (_ & -> & -> & ?). done.
Qed.

(** ** Records *)

Lemma remaining_alter orders f i j : (forall o, o_remaining (f o) = o_remaining o) -> remaining_of (alter f i orders) j = remaining_of orders j.
Proof.
  intros Hf. unfold remaining_of. rewrite lookup_alter. case_decide; [|done]. subst. destruct (orders !! j); cbn; [by rewrite Hf|done].
Qed.

Lemma unlink_remaining orders o j : remaining_of (unlink_orders orders o) j = remaining_of orders j.
Proof. unfold unlink_orders. destruct (decide (o_prev o <> 0)), (decide (o_next o <> 0)); rewrite ?remaining_alter; done. Qed.

Lemma unlink_other orders o j : j <> o_prev o \/ o_prev o = 0 -> j <> o_next o \/ o_next o = 0 -> unlink_orders orders o !! j = orders !! j.
Proof.
  intros Hp Hn. unfold unlink_orders. destruct (decide (o_prev o <> 0)), (decide (o_next o <> 0)); rewrite ?lookup_alter_ne; try done; naive_solver.
Qed.

Lemma unlink_back orders o j oj : unlink_orders orders o !! j = Some oj ->
  exists oj', orders !! j = Some oj' /\ key_of oj = key_of oj' /\ o_order_id oj = o_order_id oj' /\
    (is_u128 (o_prev o) -> is_u128 (o_next o) -> good_order oj' -> good_order oj).
Proof.
  unfold unlink_orders. set (orders1 := if decide (o_prev o <> 0) then _ else _). intros Hj.
  assert (exists o1, orders1 !! j = Some o1 /\ (oj = o1 \/ oj = set_prev o1 (o_prev o))) as (o1 & Ho1 & Hoj).
  { destruct (decide (o_next o <> 0)); [|eauto]. rewrite lookup_alter in Hj. case_decide as Hd; [rewrite Hd in Hj|eauto]. destruct (orders1 !! j) as [o1|]; [|done].
    injection Hj as <-. eauto. }
  assert (exists o2, orders !! j = Some o2 /\ (o1 = o2 \/ o1 = set_next o2 (o_next o))) as (o2 & Ho2 & Ho12).
  { subst orders1. destruct (decide (o_prev o <> 0)); [|eauto]. rewrite lookup_alter in Ho1. case_decide as Hd; [rewrite Hd in Ho1|eauto]. destruct (orders !! j) as [o2|]; [|done].
    injection Ho1 as <-. eauto. }
  exists o2. split; [done|]. split; [by destruct Hoj as [-> | ->], Ho12 as [-> | ->]|]. split; [by destruct Hoj as [-> | ->], Ho12 as [-> | ->]|].
  intros Hp Hn (Hr & Hg). split; [|by destruct Hoj as [-> | ->], Ho12 as [-> | ->]].
  destruct Hoj as [-> | ->], Ho12 as [-> | ->]; [done|by apply (field_ranges FNext)|by apply (field_ranges FPrev)|].
  apply (field_ranges FPrev); [by apply (field_ranges FNext)|done].
Qed.

Lemma unlink_prev orders o : o_prev o <> 0 -> o_prev o <> o_next o -> unlink_orders orders o !! o_prev o = (fun p => set_next p (o_next o)) <$> orders !! o_prev o.
Proof.
  intros Hp Hn. unfold unlink_orders. rewrite (decide_True (P := o_prev o <> 0)) by done. case_decide; [rewrite lookup_alter_ne by done|]; by rewrite lookup_alter_eq.
Qed.

Lemma unlink_next orders o : o_next o <> 0 -> o_prev o <> o_next o -> unlink_orders orders o !! o_next o = (fun n => set_prev n (o_prev o)) <$> orders !! o_next o.
Proof.
  intros Hp Hn. unfold unlink_orders. rewrite (decide_True (P := o_next o <> 0)) by done. rewrite lookup_alter_eq. case_decide; [by rewrite lookup_alter_ne|done].
Qed.

Lemma not_last x q : NoDup (x :: q) -> q <> [] -> x <> last_id q.
Proof. intros [Hx _]%NoDup_cons Hq ->. apply Hx. by apply last_id_in. Qed.

Lemma first_id_in q : q <> [] -> first_id q ∈ q.
Proof. destruct q; [done|]. intros _. by left. Qed.

Section pop.
Context (st : Store) (Q : Queues) (o : Order) (pre post : list u128) (r : i16 * bool).

Let k0 := key_of o.
Let id := o_order_id o.
Let lim : Limbo := Some (k0, id, o_remaining o).

Context (Hinv : inv st Q lim) (Hq : queue Q k0 = pre ++ id :: post) (Hprev : o_prev o = last_id pre) (Hnext : o_next o = first_id post).
Context (Hgone : forall o', st_orders st !! id = Some o' -> key_of o' <> k0).
Context (Hfound : pre ++ post = [] -> found (st_bits st ∖ {[k0]}) (o_book_key o) (o_is_bid o) (o_tick o) r).

Lemma pop_nodup : NoDup (pre ++ id :: post).
Proof. rewrite <- Hq. apply (queue_nodup st Q lim Hinv). Qed.

Lemma pop_pos x : x ∈ pre ++ id :: post -> 0 < x < st_next st.
Proof. rewrite <- Hq. apply (queue_ids st Q lim Hinv k0). Qed.

Lemma pop_prev_zero : o_prev o = 0 <-> pre = [].
Proof.
  rewrite Hprev. split; [|by intros ->]. intros Hz. destruct (decide (pre = [])) as [|Hp]; [done|]. apply last_id_in in Hp. rewrite Hz in Hp.
  assert (0 ∈ pre ++ id :: post) as Hx by set_solver. apply pop_pos in Hx. lia.
Qed.

Lemma pop_next_zero : o_next o = 0 <-> post = [].
Proof.
  rewrite Hnext. split; [|by intros ->]. intros Hz. destruct (decide (post = [])) as [|Hp]; [done|]. apply first_id_in in Hp. rewrite Hz in Hp.
  assert (0 ∈ pre ++ id :: post) as Hx by set_solver. apply pop_pos in Hx. lia.
Qed.

Lemma pop_apart : pre <> [] -> post <> [] -> o_prev o <> o_next o.
Proof.
  rewrite Hprev, Hnext. intros Hp%last_id_in Hn%first_id_in Heq. rewrite Heq in Hp. pose proof pop_nodup as (_ & Hd & _)%NoDup_app.
  apply (Hd (first_id post)); [done|]. set_solver.
Qed.

(** The level's ends, and its liquidity. *)
Lemma pop_level : shrunk_level (level st k0) o =
  mkLevel (first_id (pre ++ post)) (last_id (pre ++ post)) (if is_t12 then 0 else liquidity (unlink_orders (st_orders st) o) None k0 (pre ++ post)).
Proof.
  unfold shrunk_level. rewrite (i_levels _ _ _ Hinv k0), Hq. cbn [tl_head tl_tail tl_total_liquidity]. f_equal.
  - rewrite first_id_app. destruct (decide (pre = [])) as [Hp|Hp].
    + rewrite decide_False by (rewrite pop_prev_zero; tauto). by rewrite Hp.
    + rewrite decide_True by (by rewrite pop_prev_zero). rewrite first_id_app. by rewrite decide_False.
  - rewrite (last_id_app pre post). destruct (decide (post = [])) as [Hp|Hp].
    + rewrite decide_False by (rewrite pop_next_zero; tauto). done.
    + rewrite decide_True by (by rewrite pop_next_zero). rewrite last_id_app, (decide_False (P := id :: post = [])) by done.
      rewrite last_id_cons. by rewrite decide_False.
  - destruct is_t12; [done|]. rewrite !liquidity_app, liquidity_cons.
    assert (forall q, id ∉ q -> liquidity (unlink_orders (st_orders st) o) None k0 q = liquidity (st_orders st) lim k0 q) as Heq.
    { intros q Hid. apply liquidity_ext. intros x Hx. unfold left_of, lim. rewrite decide_False by (intros [_ ->]; done). apply unlink_remaining. }
    pose proof pop_nodup as (_ & Hd & [Hn _]%NoDup_cons)%NoDup_app. rewrite !Heq; [|done|].
    + unfold left_of, lim. rewrite decide_True by done. lia.
    + intros Hin. apply (Hd id Hin). by left.
Qed.

Lemma pop_linked : linked (unlink_orders (st_orders st) o) None k0 (pre ++ post).
Proof.
  assert (linked (st_orders st) lim k0 (pre ++ id :: post)) as Hl.
  { rewrite <- Hq. apply (i_links _ _ _ Hinv), queue_some. rewrite Hq. by destruct pre. }
  pose proof pop_nodup as Hnd. pose proof Hnd as (Hnd1 & Hd & [Hn Hnd2]%NoDup_cons)%NoDup_app.
  assert (forall x, x ∈ pre ++ post -> in_limbo lim k0 x = false) as Hout.
  { intros x Hx. cbn. apply bool_decide_false. intros [_ ->]. apply elem_of_app in Hx as [Hx|Hx]; [by apply (Hd id Hx); left|done]. }
  intros p x s Heq _. assert (in_limbo lim k0 x = false) as Hxl by (apply Hout; rewrite Heq; set_solver).
  assert ((exists s1, pre = p ++ x :: s1 /\ s = s1 ++ post) \/ (exists p2, post = p2 ++ x :: s /\ p = pre ++ p2)) as [(s1 & Hpre & ->)|(p2 & Hpost & ->)].
  { apply app_eq_inv in Heq as [(k & Hk1 & Hk2)|(k & Hk1 & Hk2)]; [|right; by exists k]. destruct k as [|y k].
    - right. exists []. cbn in Hk2. rewrite app_nil_r in Hk1. subst. by rewrite app_nil_r.
    - left. injection Hk2 as <- ->. by exists k. }
  - destruct (Hl p x (s1 ++ id :: post)) as (ox & Hox & Hk & Hp & Hnx); [rewrite Hpre; by rewrite <- app_assoc|done|].
    assert (x ∈ pre) as Hxp by (rewrite Hpre; set_solver).
    assert (x <> o_next o \/ o_next o = 0) as Hxn.
    { destruct (decide (post = [])) as [Hp0|Hp0]; [right; by apply pop_next_zero|left]. rewrite Hnext. intros ->. apply (Hd (first_id post) Hxp). right. by apply first_id_in. }
    assert (o_prev o <> 0) as Hp0 by (rewrite pop_prev_zero, Hpre; by destruct p). rewrite !first_id_app in *.
    assert (NoDup (x :: s1)) as Hnx1 by (rewrite Hpre in Hnd1; by apply NoDup_app in Hnd1 as (_ & _ & ?)).
    assert (o_prev o = if decide (s1 = []) then x else last_id s1) as Hpv by (rewrite Hprev, Hpre, last_id_app, decide_False by done; apply last_id_cons).
    destruct (decide (s1 = [])) as [->|Hs1].
    + exists (set_next ox (o_next o)). rewrite <- Hpv. rewrite unlink_prev; [rewrite Hpv, Hox; by split_and!|done|].
      rewrite Hpv. destruct Hxn as [?|Hz]; [done|]. rewrite Hz. congruence.
    + exists ox. rewrite unlink_other; [done|left; rewrite Hpv; by apply not_last|done].
  - destruct (Hl (pre ++ id :: p2) x s) as (ox & Hox & Hk & Hp & Hnx); [rewrite Hpost; by rewrite <- app_assoc|done|].
    assert (x ∈ post) as Hxp by (rewrite Hpost; set_solver).
    assert (x <> o_prev o \/ o_prev o = 0) as Hxn.
    { destruct (decide (pre = [])) as [Hp0|Hp0]; [right; by apply pop_prev_zero|left]. rewrite Hprev. intros ->. apply (Hd (last_id pre)); [by apply last_id_in|by right]. }
    assert (o_next o <> 0) as Hn0 by (rewrite pop_next_zero, Hpost; by destruct p2).
    assert (o_next o = if decide (p2 = []) then x else first_id p2) as Hnv by (rewrite Hnext, Hpost; apply first_id_app).
    rewrite last_id_app in Hp. rewrite (decide_False (P := id :: p2 = [])), last_id_cons in Hp by done. rewrite last_id_app.
    destruct (decide (p2 = [])) as [->|Hp2].
    + exists (set_prev ox (o_prev o)). rewrite <- Hnv. rewrite unlink_next; [rewrite Hnv, Hox; by split_and!|done|].
      rewrite Hnv. destruct Hxn as [?|Hz]; [congruence|]. rewrite Hz. congruence.
    + exists ox. rewrite unlink_other; [done|done|left]. rewrite Hnv. rewrite Hpost in Hnd2. apply NoDup_app in Hnd2 as (_ & Hd2 & _).
      intros ->. apply (Hd2 (first_id p2)); [by apply first_id_in|by left].
Qed.

Let Q' := set_queue Q k0 (pre ++ post).

Lemma pop_some k : is_Some (Q' !! k) <-> is_Some (Q !! k) /\ (k = k0 -> pre ++ post <> []).
Proof.
  unfold Q'. rewrite set_queue_lookup. case_decide as Hk.
  - subst k. rewrite (queue_some Q k0) by (rewrite Hq; by destruct pre). destruct (pre ++ post); split; [by intros []|intros [_ Hn]; by destruct Hn|done|done].
  - tauto.
Qed.

Lemma pop_best_ok key b : bd_base (book st key) <> 0 -> best_ok Q' key b (best (book (remove_st st o r) key) b).
Proof.
  intros Hb. pose proof (i_best _ _ _ Hinv key b Hb) as Hold. rewrite remove_best. fold k0. rewrite pop_level. cbn [tl_head].
  assert (first_id (pre ++ post) = 0 <-> pre ++ post = []) as Hz.
  { split; [|by intros ->]. intros Hz. destruct (decide (pre ++ post = [])) as [|Hne]; [done|]. apply first_id_in in Hne. rewrite Hz in Hne.
    assert (0 < 0 < st_next st) by (apply pop_pos; set_solver). lia. }
  assert (forall t, Q !! (key, b, t) = None -> Q' !! (key, b, t) = None) as Hnone.
  { intros t Ht. apply eq_None_not_Some. rewrite pop_some, Ht. intros [[] _]; done. }
  unfold best_ok. setoid_rewrite pop_some. case_decide as Hd.
  - destruct Hd as (He & -> & -> & Hbest). apply Hz in He. pose proof (Hfound He) as Hf. destruct Hold as [[Hs Hah]|[_ Hno]].
    2: { exfalso. assert (Q !! k0 = Some (pre ++ id :: post)) as Hk by (rewrite <- Hq; apply queue_some; rewrite Hq; by destruct pre).
         unfold k0, key_of in Hk. by rewrite Hno in Hk. }
    rewrite Hbest in Hah. assert (forall t', is_Some (Q !! (o_book_key o, o_is_bid o, t')) /\ t' <> o_tick o ->
      (o_book_key o, o_is_bid o, t') ∈ st_bits st ∖ {[k0]} /\ valid_tick t' /\ ahead (o_is_bid o) (o_tick o) t') as Hin.
    { intros t' [Ht' Hne]. split_and!; [|destruct Ht' as [q Hq']; by apply (i_queues _ _ _ Hinv _ q) in Hq' as (_ & _ & ? & _)..|by apply Hah].
      apply elem_of_difference. split; [by apply (i_bits _ _ _ Hinv)|]. intros [= ->]%elem_of_singleton. done. }
    assert (forall t', is_Some (Q !! (o_book_key o, o_is_bid o, t')) /\ ((o_book_key o, o_is_bid o, t') = k0 -> pre ++ post <> []) ->
      is_Some (Q !! (o_book_key o, o_is_bid o, t')) /\ t' <> o_tick o) as Hne'.
    { intros t' [Ht' Hn]. split; [done|]. intros ->. by apply Hn. }
    unfold found in Hf. destruct (r.2) eqn:Hr2.
    + left. assert ((o_book_key o, o_is_bid o, r.1) ∈ st_bits st ∖ {[k0]}) as Hr1 by (destruct (o_is_bid o); unfold found_below, found_above in Hf; rewrite Hr2 in Hf; apply Hf).
      apply elem_of_difference in Hr1 as [Hr1 Hr1']. split.
      * split; [by apply (i_bits _ _ _ Hinv)|]. intros Heq. rewrite Heq in Hr1'. set_solver.
      * intros t' Ht'. destruct (Hin t' (Hne' t' Ht')) as (Hbit & Hv & Ha). destruct (Hne' t' Ht') as [_ Hnt].
        unfold ahead, found_below, found_above in *. rewrite Hr2 in Hf. destruct (o_is_bid o); destruct Hf as (_ & _ & Hbetween).
        -- destruct (decide (t' <= r.1)); [done|]. exfalso. apply (Hbetween t'); [lia|done].
        -- destruct (decide (r.1 <= t')); [done|]. exfalso. apply (Hbetween t'); [lia|done].
    + right. split; [done|]. intros t'. apply eq_None_not_Some. rewrite pop_some. intros Ht'. destruct (Hin t' (Hne' t' Ht')) as (Hbit & Hv & Ha).
      destruct (Hne' t' Ht') as [_ Hnt]. unfold ahead, found_below, found_above, valid_tick in *. rewrite Hr2 in Hf.
      destruct (o_is_bid o); apply (Hf t'); (done || lia).
  - destruct Hold as [[Hs Hah]|[-> Hno]]; [left|right; split; [done|]; intros t'; by apply Hnone].
    split; [|intros t' [Ht' _]; by apply Hah]. split; [done|]. unfold k0, key_of. intros [= -> -> Ht] He. apply Hd. by rewrite Hz.
Qed.

Lemma remove_inv : inv (remove_st st o r) Q' None.
Proof.
  assert (is_u128 (o_prev o) /\ is_u128 (o_next o)) as [Hup Hun].
  { pose proof (i_next _ _ _ Hinv) as Hn. unfold is_u128 in *. split.
    - destruct (decide (pre = [])) as [Hp|Hp]; [apply pop_prev_zero in Hp; lia|]. apply last_id_in in Hp. rewrite <- Hprev in Hp.
      assert (0 < o_prev o < st_next st) by (apply pop_pos; set_solver). lia.
    - destruct (decide (post = [])) as [Hp|Hp]; [apply pop_next_zero in Hp; lia|]. apply first_id_in in Hp. rewrite <- Hnext in Hp.
      assert (0 < o_next o < st_next st) by (apply pop_pos; set_solver). lia. }
  assert (forall k q, Q' !! k = Some q -> k = k0 /\ q = pre ++ post /\ pre ++ post <> [] \/ k <> k0 /\ Q !! k = Some q) as Hcase.
  { intros k q. unfold Q'. rewrite set_queue_lookup. case_decide; [|by right]. destruct (pre ++ post); [done|]. intros [= <-]. by left. }
  destruct (remove_fields st o r) as (Hfo & Hfn & Hfk & _).
  assert (Q !! k0 = Some (pre ++ id :: post)) as Hqk by (rewrite <- Hq; apply queue_some; rewrite Hq; by destruct pre).
  split.
  - intros k q Hk. rewrite (proj1 (remove_book st o r k.1.1)). apply Hcase in Hk as [(-> & -> & Hne)|[_ Hk]]; [|by apply (i_queues _ _ _ Hinv)].
    destruct (i_queues _ _ _ Hinv k0 _ Hqk) as (_ & _ & Hv & Hbase). split_and!; [done| |done|done].
    pose proof pop_nodup as (Hn1 & Hn2 & [_ Hn3]%NoDup_cons)%NoDup_app. apply NoDup_app. split_and!; [done| |done]. intros x Hx Hx'. apply (Hn2 x Hx). by right.
  - intros k. rewrite remove_level, Hfo. unfold Q'. rewrite queue_set. fold k0. destruct (decide (k = k0)) as [-> |Hk]; [apply pop_level|].
    rewrite (i_levels _ _ _ Hinv k). f_equal. destruct is_t12; [done|]. symmetry. apply liquidity_ext. intros x Hx.
    unfold left_of, lim. rewrite decide_False by tauto. apply unlink_remaining.
  - intros k. rewrite pop_some. assert (st_bits (remove_st st o r) = if decide (pre ++ post = []) then st_bits st ∖ {[k0]} else st_bits st) as ->.
    { unfold remove_st. fold k0. rewrite pop_level. cbn [tl_head put_level st_bits]. destruct (decide (pre ++ post = [])) as [He|He].
      - rewrite He. rewrite decide_True by done. unfold drop_level. fold k0. by destruct (decide (best _ _ = _)).
      - rewrite decide_False; [done|]. intros Hz. apply first_id_in in He. rewrite Hz in He. assert (0 < 0 < st_next st) by (apply pop_pos; set_solver). lia. }
    rewrite <- (i_bits _ _ _ Hinv). case_decide as He; [|tauto]. rewrite elem_of_difference, elem_of_singleton. split; intros [? Hk]; split; try done; intros ->; by apply Hk.
  - intros k q Hk. rewrite Hfo. apply Hcase in Hk as [(-> & -> & Hne)|[Hne Hk]]; [apply pop_linked|].
    assert (linked (st_orders st) lim k q) as Hl by by apply (i_links _ _ _ Hinv).
    intros p x s Hx _. destruct (Hl p x s Hx) as (ox & Hox & Hkx & Hpx); [cbn; apply bool_decide_false; tauto|]. exists ox. split; [|done].
    assert (forall y, y ∈ pre ++ post -> x <> y) as Hfar.
    { intros y Hy ->. apply Hne. rewrite <- Hkx. symmetry. apply (record_queue st Q lim Hinv y); [done|]. split; [rewrite Hq; set_solver|].
      cbn. apply bool_decide_false. intros [_ ->]. pose proof pop_nodup as (_ & Hn2 & [Hn3 _]%NoDup_cons)%NoDup_app.
      apply elem_of_app in Hy as [Hy|Hy]; [by apply (Hn2 id Hy); left|done]. }
    rewrite unlink_other; [done|..].
    + destruct (decide (pre = [])) as [Hp|Hp]; [right; by apply pop_prev_zero|left]. rewrite Hprev. apply Hfar. apply last_id_in in Hp. set_solver.
    + destruct (decide (post = [])) as [Hp|Hp]; [right; by apply pop_next_zero|left]. rewrite Hnext. apply Hfar. apply first_id_in in Hp. set_solver.
  - intros j oj Hj. rewrite Hfo in Hj. destruct (unlink_back _ _ _ _ Hj) as (oj' & Hoj' & Hk & Hoid & Hg). destruct (i_orders _ _ _ Hinv j oj' Hoj') as (Hid & Hin & Hgood).
    split_and!; [congruence| |by apply Hg]. unfold Q'. rewrite queue_set. case_decide as Hk0; [|by rewrite Hk].
    assert (j <> id) as Hne by (intros ->; apply (Hgone oj'); [done|congruence]). rewrite <- Hk, Hk0, Hq in Hin. set_solver.
  - intros k q x Hk Hx. rewrite Hfn. apply Hcase in Hk as [(-> & -> & Hne)|[Hne Hk]]; [apply pop_pos; set_solver|by apply (i_ids _ _ _ Hinv k q)].
  - intros key b. rewrite (proj1 (remove_book st o r key)). apply pop_best_ok.
  - intros key. destruct (remove_book st o r key) as (-> & _ & ->). rewrite Hfk. apply (i_index _ _ _ Hinv).
  - rewrite Hfn. apply Hinv.
Qed.
End pop.

(** ** Into limbo *)

Lemma enter_limbo st Q id o : inv st Q None -> st_orders st !! id = Some o -> inv st Q (Some (key_of o, id, o_remaining o)).
Proof.
  intros [H1 H2 H3 H4 H5 H6 H7 H8 H9] Ho. split; try done.
  - intros k. rewrite H2. f_equal. destruct is_t12; [done|]. symmetry. apply liquidity_ext. intros x Hx. unfold left_of. case_decide as Hd; [|done].
    destruct Hd as [_ ->]. unfold remaining_of. by rewrite Ho.
  - intros k q Hk pre x post Hq _. by apply (H4 k q Hk pre x post).
Qed.

(** The record of an order in limbo is deleted. *)
Lemma forget_record st Q k id r o : inv st Q (Some (k, id, r)) -> st_orders st !! id = Some o -> key_of o = k ->
  inv (with_orders st (delete id (st_orders st))) Q (Some (k, id, r)).
Proof.
  intros Hinv Ho Hk. set (lim := Some (k, id, r)) in *.
  assert (forall k' x, x ∈ queue Q k' -> in_limbo lim k' x = false -> x <> id) as Hne.
  { intros k' x Hx Hl ->. assert (k' = key_of o) as -> by (by eapply record_queue). cbn in Hl. apply bool_decide_eq_false in Hl. tauto. }
  pose proof Hinv as [H1 H2 H3 H4 H5 H6 H7 H8 H9]. split; try done.
  - intros k'. change (level (with_orders ?a ?b)) with (level a). rewrite H2. f_equal. destruct is_t12; [done|]. symmetry. apply liquidity_ext.
    intros x Hx. apply left_of_ext. intros Hl. unfold remaining_of. cbn [with_orders st_orders]. rewrite lookup_delete_ne; [done|]. symmetry. by apply (Hne k').
  - intros k' q Hq. eapply linked_ext; [|by apply H4]. intros x ox Hx Hl Hox _. cbn. rewrite lookup_delete_ne; [done|]. symmetry. apply (Hne k'); [|done].
    by rewrite (queue_lookup _ _ _ Hq).
  - intros x ox Hx. cbn in Hx. apply lookup_delete_Some in Hx as [_ Hx]. by apply H5.
Qed.

Lemma inv_balance st Q lim u t v : inv st Q lim -> inv (put_balance st u t v) Q lim.
Proof. intros [H1 H2 H3 H4 H5 H6 H7 H8 H9]. split; done. Qed.
End remove.

Section cancel.
Context `{TempoSpec} `{TempoAddresses}.

Lemma next_tick_does s st key tick b : holds s st -> is_i16 tick ->
  exists r, does (next_initialized_tick (book_slot key) tick b) s r st /\ found (st_bits st) key b tick r.
Proof.
  intros Hh Ht. pose proof Hh as (Hok & Hidle & cr & Hw). destruct (next_tick_spec _ _ _ key tick b Hw Ht) as (r & Htrip & Hf). exists r. split; [|done].
  destruct (Htrip s Hok (fun _ => eq_refl)) as (s' & Hr & Hok' & Hst & Hd). exists s'. split_and!; [done| |apply Hst].
  split_and!; [done|by eapply idle_step|]. exists cr. by eapply words_ext.
Qed.


(** A step of a run that succeeds. *)
Ltac does_by lem := eapply does_bind; [eapply holds_acts; [eassumption|apply lem]|cbv beta].

Lemma drop_empty_does s st o : holds s st -> valid_tick (o_tick o) ->
  exists r, found (st_bits st ∖ {[key_of o]}) (o_book_key o) (o_is_bid o) (o_tick o) r /\
    does (drop_empty_level (book_slot (o_book_key o)) o) s tt (drop_level st o r).
Proof.
  intros Hh Hv. assert (is_i16 (o_tick o)) as Ht by by apply valid_i16. set (st1 := with_bits st (st_bits st ∖ {[key_of o]})).
  destruct (holds_acts _ s st tt st1 Hh (delete_tick_bit_acts st _ _ _ Ht)) as (s1 & Hr1 & Hh1 & He1).
  destruct (holds_acts _ s1 st1 _ _ Hh1 (read_data_acts st1 (o_book_key o))) as (s2 & Hr2 & Hh2 & He2).
  destruct (next_tick_does s2 st1 (o_book_key o) (o_tick o) (o_is_bid o) Hh2 Ht) as (r & (s3 & Hr3 & Hh3 & He3) & Hf). exists r. split; [done|].
  unfold does, drop_empty_level. rewrite (bind_ok _ _ _ _ _ Hr1), (bind_ok _ _ _ _ _ Hr2).
  change (if o_is_bid o then bd_best_bid_tick (book st1 (o_book_key o)) else bd_best_ask_tick (book st1 (o_book_key o))) with (best (book st1 (o_book_key o)) (o_is_bid o)).
  unfold drop_level. fold st1. destruct (decide (best (book st1 (o_book_key o)) (o_is_bid o) = o_tick o)) as [Hb|Hb].
  2: { exists s2. split_and!; [done|done|by etrans]. }
  rewrite (bind_ok _ _ _ _ _ Hr3). destruct r as [t h]. cbv beta iota. cbn [fst snd].
  set (t' := if h then t else no_tick (o_is_bid o)). assert (is_i16 t') as Ht'.
  { unfold t', no_tick, found, found_below, found_above, valid_tick, is_i16, MIN_TICK, MAX_TICK, i16_min, i16_max in *. cbn in Hf. destruct h, (o_is_bid o); lia. }
  destruct (holds_acts _ s3 st1 tt _ Hh3 (write_best_acts st1 (o_book_key o) (o_is_bid o) t' Ht')) as (s4 & Hr4 & Hh4 & He4).
  exists s4. split_and!; [|done|].
  - rewrite <- Hr4. unfold t', no_tick. by destruct (o_is_bid o).
  - do 3 (etrans; [eassumption|]). done.
Qed.

Lemma holds_level_same s st k l : level st k = l -> holds s st -> holds s (put_level st k l).
Proof.
  intros Hl (Hok & Hid & cr & Hw). split_and!; [done|done|]. exists cr. eapply words_intro; [exact Hw|intros; try right; try done..].
  split; [|done]. rewrite level_put. case_decide; [by subst|done].
Qed.

Lemma with_orders_id st : with_orders st (st_orders st) = st.
Proof. by destruct st. Qed.

(** The neighbours of an order, as records. *)
Definition neighbours (st : Store) (o : Order) : Prop :=
  (o_prev o <> 0 -> exists p, st_orders st !! o_prev o = Some p) /\ (o_next o <> 0 -> exists n, st_orders st !! o_next o = Some n) /\
  is_u128 (o_prev o) /\ is_u128 (o_next o).

Lemma unlink_does s st o l : holds s st -> neighbours st o ->
  does (unlink_order o l) s (mkLevel (if decide (o_prev o <> 0) then tl_head l else o_next o) (if decide (o_next o <> 0) then tl_tail l else o_prev o) (tl_total_liquidity l))
    (with_orders st (unlink_orders (st_orders st) o)).
Proof.
  intros Hh (Hp & Hn & Hup & Hun). unfold unlink_order, unlink_orders.
  set (orders1 := if decide (o_prev o <> 0) then alter (fun p => set_next p (o_next o)) (o_prev o) (st_orders st) else st_orders st).
  eapply (does_bind _ _ _ (with_orders st orders1) (if decide (o_prev o <> 0) then tl_head l else o_next o)).
  { unfold orders1. destruct (decide (o_prev o <> 0)) as [Hp0|Hp0]; [|exists s; rewrite with_orders_id; split_and!; done]. destruct (Hp Hp0) as (p & Hpo).
    rewrite (alter_alt_Some _ _ _ p Hpo). eapply does_bind; [|intros s1 Hh1; by apply does_ret].
    eapply (unlink_neighbor_does _ (set_next p (o_next o))); [exact Hh|by apply (write_field_acts st (o_prev o) p FNext)|cbn [with_orders st_orders]; by rewrite lookup_insert_eq|]. intros. by apply order_maker_acts. }
  intros s1 Hh1. eapply does_bind; [|intros s2 Hh2; by apply does_ret].
  destruct (decide (o_next o <> 0)) as [Hn0|Hn0]; [|exists s1; split_and!; done]. destruct (Hn Hn0) as (n & Hno).
  assert (exists n', orders1 !! o_next o = Some n') as (n' & Hn').
  { unfold orders1. case_decide; [|eauto]. rewrite lookup_alter. case_decide as Hd; [rewrite Hd, Hno; cbn; eauto|eauto]. }
  rewrite (alter_alt_Some _ _ _ n' Hn'). eapply does_bind; [|intros s2 Hh2; by apply does_ret].
  eapply (unlink_neighbor_does _ (set_prev n' (o_prev o))); [exact Hh1|by apply (write_field_acts (with_orders st orders1) (o_next o) n' FPrev)|cbn [with_orders st_orders]; by rewrite lookup_insert_eq|]. intros. by apply order_maker_acts.
Qed.

Definition cancel_st (st : Store) (o : Order) (r : i16 * bool) : Store :=
  let st := remove_st st o r in
  let st := put_balance st (o_maker o) (escrow_token st o) (balance st (o_maker o) (escrow_token st o) + escrow_amount o) in
  with_orders st (delete (o_order_id o) (st_orders st)).

Lemma remaining_nonneg st Q lim id : inv st Q lim -> 0 <= remaining_of (st_orders st) id.
Proof.
  intros Hinv. unfold remaining_of. destruct (st_orders st !! id) as [o|] eqn:Ho; cbn; [|lia].
  destruct (i_orders _ _ _ Hinv id o Ho) as (_ & _ & _ & Hr & _). lia.
Qed.

Lemma liquidity_nonneg st Q k q : inv st Q None -> 0 <= liquidity (st_orders st) None k q.
Proof.
  intros Hinv. induction q as [|x q IH]; [done|]. rewrite liquidity_cons. pose proof (remaining_nonneg st Q None x Hinv). cbn [left_of]. lia.
Qed.

(** An order and its place in its queue. *)
Lemma order_place st Q id o : inv st Q None -> st_orders st !! id = Some o ->
  exists pre post, queue Q (key_of o) = pre ++ id :: post /\ o_prev o = last_id pre /\ o_next o = first_id post.
Proof.
  intros Hinv Ho. destruct (i_orders _ _ _ Hinv id o Ho) as (_ & Hin & _). pose proof Hin as (pre & post & Hq)%list_elem_of_split.
  exists pre, post. split; [done|]. assert (Q !! key_of o = Some (pre ++ id :: post)) as Hk by (rewrite <- Hq; apply queue_some; rewrite Hq; by destruct pre).
  destruct (i_links _ _ _ Hinv _ _ Hk pre id post eq_refl eq_refl) as (o' & Ho' & _ & ? & ?). assert (o' = o) as -> by congruence. done.
Qed.

Lemma place_neighbours st Q o pre post : inv st Q None -> queue Q (key_of o) = pre ++ o_order_id o :: post -> o_prev o = last_id pre -> o_next o = first_id post ->
  neighbours st o.
Proof.
  intros Hinv Hq Hp Hn.
  assert (forall x, x ∈ queue Q (key_of o) -> exists ox, st_orders st !! x = Some ox) as Hrec.
  { intros x Hx. destruct (live_order st Q None Hinv (key_of o) x) as (ox & Hox & _); [by split|eauto]. }
  assert (forall x, x ∈ queue Q (key_of o) -> is_u128 x) as Hu.
  { intros x Hx. apply (queue_ids st Q None Hinv) in Hx. pose proof (i_next _ _ _ Hinv). unfold is_u128 in *. lia. }
  unfold neighbours. rewrite Hp, Hn. rewrite Hq in Hrec, Hu. split_and!.
  - intros Hz. apply Hrec. destruct (decide (pre = [])) as [-> |Hne]; [done|]. apply last_id_in in Hne. set_solver.
  - intros Hz. apply Hrec. destruct (decide (post = [])) as [-> |Hne]; [done|]. apply first_id_in in Hne. set_solver.
  - destruct (decide (pre = [])) as [-> |Hne]; [by vm_compute|]. apply Hu. apply last_id_in in Hne. set_solver.
  - destruct (decide (post = [])) as [-> |Hne]; [by vm_compute|]. apply Hu. apply first_id_in in Hne. set_solver.
Qed.

Lemma total_covers st Q id o : inv st Q None -> st_orders st !! id = Some o -> is_t12 = false -> o_remaining o <= tl_total_liquidity (level st (key_of o)).
Proof.
  intros Hinv Ho H12. destruct (order_place st Q id o Hinv Ho) as (pre & post & Hq & _). rewrite (i_levels _ _ _ Hinv), H12, Hq. cbn [tl_total_liquidity].
  rewrite liquidity_app, liquidity_cons. pose proof (liquidity_nonneg st Q (key_of o) pre Hinv). pose proof (liquidity_nonneg st Q (key_of o) post Hinv).
  cbn [left_of]. unfold remaining_of. rewrite Ho. cbn. lia.
Qed.

Lemma alter_lookup (orders : gmap u128 Order) f i id x : orders !! id = Some x -> exists x', alter f i orders !! id = Some x'.
Proof. intros Hx. rewrite lookup_alter. case_decide; [subst; rewrite Hx; cbn|]; eauto. Qed.

Lemma unlink_lookup orders o id x : orders !! id = Some x -> exists x', unlink_orders orders o !! id = Some x'.
Proof.
  intros Hx. unfold unlink_orders. set (orders1 := if decide (o_prev o <> 0) then _ else _).
  assert (exists x', orders1 !! id = Some x') as [x' Hx'] by (subst orders1; case_decide; [by eapply alter_lookup|eauto]).
  case_decide; [by eapply alter_lookup|eauto].
Qed.

(** The level of the order, unlinked and shrunk. *)
Lemma shrink_does s st Q id o : holds s st -> inv st Q None -> st_orders st !! id = Some o -> o_order_id o = id ->
  does (level ← unlink_order o (level st (key_of o));
        if is_t12 then mret (level, bool_decide (o_prev o = 0) || bool_decide (o_next o = 0))
        else
          new_liquidity ← ok_or under_overflow (checked_sub (tl_total_liquidity level) (o_remaining o));
          mret (mkLevel (tl_head level) (tl_tail level) new_liquidity, true)) s
    (shrunk_level (level st (key_of o)) o, negb is_t12 || (bool_decide (o_prev o = 0) || bool_decide (o_next o = 0)))
    (with_orders st (unlink_orders (st_orders st) o)).
Proof.
  intros Hh Hinv Ho Hoid. destruct (order_place st Q id o Hinv Ho) as (pre & post & Hq & Hp & Hn).
  eapply does_bind; [apply unlink_does; [done|by eapply place_neighbours; rewrite ?Hoid]|]. intros s1 Hh1. unfold shrunk_level.
  destruct is_t12 eqn:H12; [by apply does_ret|]. cbn [tl_total_liquidity tl_head tl_tail]. pose proof (total_covers st Q id o Hinv Ho H12).
  unfold checked_sub. rewrite (decide_True (P := o_remaining o <= _)) by done. by apply does_ret.
Qed.

Lemma shrunk_ranges s st Q id o : holds s st -> inv st Q None -> st_orders st !! id = Some o -> o_order_id o = id -> level_ranges (shrunk_level (level st (key_of o)) o).
Proof.
  intros Hh Hinv Ho Hoid. destruct (order_place st Q id o Hinv Ho) as (pre & post & Hq & Hp & Hn).
  destruct (place_neighbours st Q o pre post Hinv) as (_ & _ & Hup & Hun); [by rewrite Hoid|done|done|].
  destruct (i_orders _ _ _ Hinv id o Ho) as (_ & _ & _ & Hr & _ & [Hv _] & _).
  destruct (words_level s st (key_of o) Hh (valid_i16 _ Hv)) as (H1 & H2 & H3 & H4). unfold shrunk_level, level_ranges. cbn [tl_head tl_tail tl_total_liquidity].
  split_and!; [by case_decide|by case_decide| |]; destruct is_t12 eqn:H12; try done; try (intros _; by apply H4).
  pose proof (total_covers st Q id o Hinv Ho H12). unfold is_u128 in *. lia.
Qed.

(** The order leaves its level. *)
Lemma leave_does s st Q id o : holds s st -> inv st Q None -> st_orders st !! id = Some o -> o_order_id o = id ->
  exists r s', (tl_head (shrunk_level (level st (key_of o)) o) = 0 -> found (st_bits st ∖ {[key_of o]}) (o_book_key o) (o_is_bid o) (o_tick o) r) /\
    holds s' (remove_st st o r) /\ elsewhere s s' /\
    forall A (k : M A),
    (level ← read_tick_level (book_slot (o_book_key o)) (o_tick o) (o_is_bid o);
     level ← unlink_order o level;
     '(level, has_level_changed) ←
       (if is_t12 then mret (level, bool_decide (o_prev o = 0) || bool_decide (o_next o = 0))
        else
          new_liquidity ← ok_or under_overflow (checked_sub (tl_total_liquidity level) (o_remaining o));
          mret (mkLevel (tl_head level) (tl_tail level) new_liquidity, true));
     _ ← when (bool_decide (tl_head level = 0)) (drop_empty_level (book_slot (o_book_key o)) o);
     _ ← when has_level_changed (write_tick_level (book_slot (o_book_key o)) (o_tick o) (o_is_bid o) level);
     k) s = k s'.
Proof.
  intros Hh Hinv Ho Hoid. destruct (i_orders _ _ _ Hinv id o Ho) as (_ & _ & Hgood). pose proof Hgood as (_ & _ & _ & [Hv _] & _). pose proof (valid_i16 _ Hv) as Ht.
  destruct (holds_acts _ s st _ _ Hh (read_level_acts st (o_book_key o) (o_tick o) (o_is_bid o) Ht)) as (s1 & Hr1 & Hh1 & He1).
  destruct (shrink_does s1 st Q id o Hh1 Hinv Ho Hoid) as (s2 & Hr2 & Hh2 & He2). set (l := shrunk_level (level st (key_of o)) o) in *.
  pose proof (shrunk_ranges s st Q id o Hh Hinv Ho Hoid) as Hlr. fold l in Hlr.
  set (st2 := with_orders st (unlink_orders (st_orders st) o)) in *.
  destruct (drop_empty_does s2 st2 o Hh2 Hv) as (r & Hf & s3 & Hr3 & Hh3 & He3). exists r.
  set (st3 := if decide (tl_head l = 0) then drop_level st2 o r else st2).
  assert (exists s3, when (bool_decide (tl_head l = 0)) (drop_empty_level (book_slot (o_book_key o)) o) s2 = (Ok tt, s3) /\ holds s3 st3 /\ elsewhere s2 s3) as (s3' & Hr3' & Hh3' & He3').
  { unfold st3. destruct (decide (tl_head l = 0)); [rewrite bool_decide_true by done; eauto|rewrite bool_decide_false by done]. by exists s2. }
  assert (exists s4, when (negb is_t12 || (bool_decide (o_prev o = 0) || bool_decide (o_next o = 0))) (write_tick_level (book_slot (o_book_key o)) (o_tick o) (o_is_bid o) l) s3'
    = (Ok tt, s4) /\ holds s4 (put_level st3 (key_of o) l) /\ elsewhere s3' s4) as (s4 & Hr4 & Hh4 & He4).
  { destruct (negb is_t12 || _) eqn:Hc; cbn [when].
    - destruct (holds_acts _ s3' st3 tt _ Hh3' (write_level_acts st3 (o_book_key o) (o_tick o) (o_is_bid o) l Ht Hlr)) as (s4 & ? & ? & ?). eauto.
    - exists s3'. split_and!; [done| |done]. apply holds_level_same; [|done]. apply orb_false_iff in Hc as [H12 [Hp0 Hn0]%orb_false_iff].
      apply bool_decide_eq_false in Hp0, Hn0. assert (level st3 = level st) as -> by (unfold st3, drop_level; destruct (decide (tl_head l = 0)); [by destruct (decide (best _ _ = _))|done]).
      unfold l, shrunk_level. rewrite !decide_True by done. destruct is_t12; [|done]. by destruct (level st (key_of o)). }
  exists s4. split_and!; [by intros _|done|do 3 (etrans; [eassumption|]); done|]. intros A k. rewrite (bind_ok _ _ _ _ _ Hr1).
  (* the two binds of [shrink_does] *)
  unfold mbind at 1, M_bind at 1 in Hr2. unfold mbind at 1, M_bind at 1. change (o_book_key o, o_is_bid o, o_tick o) with (key_of o).
  destruct (unlink_order o (level st (key_of o)) s1) as [[l1|e|] s1']; [|discriminate..]. rewrite (bind_ok _ _ _ _ _ Hr2). cbv beta iota.
  rewrite (bind_ok _ _ _ _ _ Hr3'), (bind_ok _ _ _ _ _ Hr4). done.
Qed.

(** The escrow goes back to the maker. *)
Lemma refund_does s st o (k : M unit) st' : holds s st -> valid_tick (o_tick o) -> 0 <= o_remaining o ->
  balance st (o_maker o) (escrow_token st o) + escrow_amount o <= u128_max ->
  (forall s', holds s' (put_balance st (o_maker o) (escrow_token st o) (balance st (o_maker o) (escrow_token st o) + escrow_amount o)) -> does k s' tt st') ->
  does (orderbook ← read_data (book_slot (o_book_key o));
        _ ← (if o_is_bid o then
               quote_amount ← ok_or under_overflow (base_to_quote (o_remaining o) (o_tick o) Up);
               increment_balance (o_maker o) (bd_quote orderbook) quote_amount
             else increment_balance (o_maker o) (bd_base orderbook) (o_remaining o));
        k) s tt st'.
Proof.
  intros Hh Hv Hr Hmax Hk. does_by read_data_acts. intros s1 Hh1. eapply does_bind; [|exact Hk].
  assert (0 <= balance st (o_maker o) (escrow_token st o)) as Hbal by (destruct Hh as (_ & _ & cr & Hw); apply (w_balances _ _ _ Hw)).
  unfold escrow_token, escrow_amount in *. destruct (o_is_bid o).
  - assert (base_to_quote (o_remaining o) (o_tick o) Up = Some (quote_up (o_remaining o) (o_tick o))) as ->.
    { apply to_u128_Some. split; [done|]. lia. }
    eapply holds_acts; [done|]. eapply acts_bind; [apply acts_ret|]. apply increment_balance_acts; [by apply quote_up_nonneg|done].
  - eapply holds_acts; [done|]. by apply increment_balance_acts.
Qed.

Lemma delete_does s st o x (k : M unit) st' : holds s st -> st_orders st !! o_order_id o = Some x ->
  (forall s', holds s' (with_orders st (delete (o_order_id o) (st_orders st))) -> does k s' tt st') ->
  does (credits ← delete_order o; _ ← credit_dex_storage_slots (o_maker o) credits; k) s tt st'.
Proof.
  intros Hh Ho Hk. destruct (track_does _ s st tt _ Hh (order_delete_acts st _ _ Ho)) as (c & s1 & Hr1 & Hh1 & He1 & Hc & Hb).
  destruct (credit_does (o_maker o) c s1 _ Hh1 Hc Hb) as (s2 & Hr2 & Hh2 & He2). destruct (Hk s2 Hh2) as (s3 & Hr3 & Hh3 & He3).
  exists s3. split_and!; [|done|do 2 (etrans; [eassumption|]); done]. rewrite (bind_ok _ _ _ c s1); [by rewrite (bind_ok _ _ _ _ _ Hr2)|].
  unfold delete_order. by rewrite (bind_ok _ _ _ _ _ Hr1).
Qed.

Lemma remove_escrow st o r x : escrow_token (remove_st st o r) x = escrow_token st x.
Proof. unfold escrow_token. by destruct (remove_book st o r (o_book_key x)) as (-> & -> & _). Qed.

Lemma remove_balance st o r u t : balance (remove_st st o r) u t = balance st u t.
Proof. unfold balance. by destruct (remove_fields st o r) as (_ & _ & _ & ->). Qed.

Lemma cancel_active_does s st Q o : holds s st -> inv st Q None -> st_orders st !! o_order_id o = Some o ->
  balance st (o_maker o) (escrow_token st o) + escrow_amount o <= u128_max ->
  exists r, does (cancel_active_order o) s tt (cancel_st st o r) /\
    (tl_head (shrunk_level (level st (key_of o)) o) = 0 -> found (st_bits st ∖ {[key_of o]}) (o_book_key o) (o_is_bid o) (o_tick o) r).
Proof.
  intros Hh Hinv Ho Hmax. destruct (i_orders _ _ _ Hinv _ o Ho) as (_ & _ & _ & Hrem & _ & [Hv _] & _).
  destruct (leave_does s st Q _ o Hh Hinv Ho eq_refl) as (r & s1 & Hf & Hh1 & He1 & Hrun). exists r. split; [|done].
  enough (does (orderbook ← read_data (book_slot (o_book_key o));
        _ ← (if o_is_bid o then
               quote_amount ← ok_or under_overflow (base_to_quote (o_remaining o) (o_tick o) Up);
               increment_balance (o_maker o) (bd_quote orderbook) quote_amount
             else increment_balance (o_maker o) (bd_base orderbook) (o_remaining o));
        credits ← delete_order o;
        _ ← credit_dex_storage_slots (o_maker o) credits;
        dex_emit "OrderCancelled" [Word (o_order_id o)]) s1 tt (cancel_st st o r)) as (s2 & Hr2 & Hh2 & He2).
  { exists s2. split_and!; [|done|by etrans]. unfold cancel_active_order. rewrite <- Hr2. apply Hrun. }
  eapply refund_does; [exact Hh1|done|lia|by rewrite remove_balance, remove_escrow|]. intros s2 Hh2.
  assert (exists x, st_orders (remove_st st o r) !! o_order_id o = Some x) as [x Hx].
  { rewrite (proj1 (remove_fields st o r)). by eapply unlink_lookup. }
  eapply delete_does; [exact Hh2|exact Hx|]. intros s3 Hh3. by apply does_emit.
Qed.

(** ** What a cancellation does to the queues *)

Lemma unlink_delete orders o id : o_prev o <> id -> o_next o <> id -> delete id (unlink_orders orders o) = unlink_orders (delete id orders) o.
Proof.
  intros Hp Hn. unfold unlink_orders. repeat case_decide; rewrite ?delete_alter_ne by done; done.
Qed.

Lemma cancel_inv st Q o r : inv st Q None -> st_orders st !! o_order_id o = Some o ->
  (tl_head (shrunk_level (level st (key_of o)) o) = 0 -> found (st_bits st ∖ {[key_of o]}) (o_book_key o) (o_is_bid o) (o_tick o) r) ->
  exists pre post, queue Q (key_of o) = pre ++ o_order_id o :: post /\ inv (cancel_st st o r) (set_queue Q (key_of o) (pre ++ post)) None.
Proof.
  intros Hinv Ho Hf. destruct (order_place st Q _ o Hinv Ho) as (pre & post & Hq & Hp & Hn). exists pre, post. split; [done|].
  set (id := o_order_id o) in *. set (st1 := with_orders st (delete id (st_orders st))).
  assert (inv st1 Q (Some (key_of o, id, o_remaining o))) as Hinv1 by (eapply forget_record; [by apply enter_limbo|done|done]).
  pose proof (queue_nodup st Q None Hinv (key_of o)) as Hnd. rewrite Hq in Hnd. pose proof Hnd as (_ & Hd & [Hnd' _]%NoDup_cons)%NoDup_app.
  assert (0 < id) as Hpos by (apply (queue_ids st Q None Hinv (key_of o)); rewrite Hq; set_solver).
  assert (o_prev o <> id) as Hpid.
  { rewrite Hp. destruct (decide (pre = [])) as [-> |Hne]; [cbn; lia|]. apply last_id_in in Hne. intros Heq. rewrite Heq in Hne. by apply (Hd id Hne); left. }
  assert (o_next o <> id) as Hnid.
  { rewrite Hn. destruct (decide (post = [])) as [-> |Hne]; [cbn; lia|]. apply first_id_in in Hne. intros Heq. by rewrite Heq in Hne. }
  assert (cancel_st st o r = put_balance (remove_st st1 o r) (o_maker o) (escrow_token (remove_st st o r) o)
    (balance (remove_st st o r) (o_maker o) (escrow_token (remove_st st o r) o) + escrow_amount o)) as ->.
  { unfold cancel_st, remove_st, st1. change (level (with_orders ?a ?b)) with (level a). fold id.
    destruct (decide (tl_head _ = 0)); [unfold drop_level; change (book (with_bits ?a ?x)) with (book a); change (book (with_orders ?a ?x)) with (book a);
      destruct (decide (best _ _ = _))|]; unfold put_balance, with_orders, put_level, put_book, with_bits; cbn; by rewrite unlink_delete. }
  apply inv_balance. apply remove_inv; [done|done|done|done| |].
  - intros o' Ho'. unfold st1 in Ho'. cbn in Ho'. fold id in Ho'. by rewrite lookup_delete_eq in Ho'.
  - intros He. apply Hf. apply app_eq_nil in He as [-> ->]. unfold shrunk_level. cbn [tl_head]. rewrite Hp, Hn. done.
Qed.

(** What is owed stays the same: the escrow is now a balance. *)
Lemma cancel_liabilities st o r token : st_orders st !! o_order_id o = Some o -> o_prev o <> o_order_id o -> o_next o <> o_order_id o ->
  liabilities (cancel_st st o r) token = liabilities st token.
Proof.
  intros Ho Hp Hn. unfold liabilities, cancel_st. cbn [with_orders st_orders st_balances put_balance].
  destruct (remove_fields st o r) as (-> & _ & _ & ->). rewrite remove_escrow, remove_balance.
  rewrite (msum_ext _ (owed_order st token)).
  2: { intros j x _. unfold owed_order. by rewrite <- (remove_escrow st o r x). }
  rewrite msum_insert, msum_delete. assert (msum (owed_order st token) (unlink_orders (st_orders st) o) = msum (owed_order st token) (st_orders st)) as ->.
  { unfold unlink_orders. repeat case_decide; rewrite ?msum_alter; done. }
  rewrite unlink_other by (left; congruence). rewrite Ho. cbn [term]. unfold owed_balance, owed_order, balance. cbn [snd].
  destruct (st_balances st !! (o_maker o, escrow_token st o)) as [v|]; cbn; case_decide; lia.
Qed.
End cancel.
