(* ===== verification/DexPlace.v ===== *)
(** * The tokens of the exchange, pairs and placing

    [TIP20Ok] is what the exchange relies on of the tokens it moves: their views
    change nothing, their transfers leave the exchange's storage alone and move
    its holding by the amount. [Solvent] exchanges hold what they owe. Creating
    pairs and placing orders keeps them so. *)

From stdpp Require Import prelude gmap list strings.
From S2P Require Import Prelude TempoEvm DexTypes DexBook DexCredits Dex DexStore DexOrders DexHolds DexPrice.
From S2P Require Import DexInv DexCommit DexCancel.

#[local] Open Scope Z_scope.

Create HintDb views.

Section tokens.
Context `{TempoSpec} `{TempoAddresses}.

(** A call that only reads. *)
Definition view {A} (m : M A) : Prop := forall s, (m s).2 = s /\ (m s).1 <> Panic.

(** Nothing of the exchange changes. *)
Definition apart (s s' : Evm) : Prop :=
  flags_same s s' /\ (forall sl, dword s' sl = dword s sl) /\ bank s' = bank s /\ bank_state s' = bank_state s.

Lemma holds_apart s s' st : apart s s' -> holds s st -> holds s' st.
Proof.
  intros ((Hf1 & Hf2) & Hd & Hb & Hs) ((Hc & Hok) & Hid & cr & Hw). split_and!.
  - split; [congruence|]. intros H7. rewrite Hf2, Hb, Hs. by apply Hok.
  - unfold idle. by rewrite Hs.
  - exists cr. by eapply words_ext.
Qed.

Lemma ends_view {A} (m : M A) s (P : A -> Evm -> Prop) : view m -> (forall a, m s = (Ok a, s) -> P a s) -> ends m s P.
Proof.
  intros Hv HP. destruct (Hv s) as [Hs Hp]. unfold ends. destruct (m s) as [[a|e|] s']; cbn in *; subst; [|done|done].
  split; [done|]. by apply HP.
Qed.

Lemma view_bind {A B} (m : M A) (k : A -> M B) : view m -> (forall a, view (k a)) -> view (m ≫= k).
Proof.
  intros Hm Hk s. destruct (Hm s) as [Hs Hp]. unfold mbind, M_bind. destruct (m s) as [[a|e|] s']; cbn in *; subst; [apply Hk|done|done].
Qed.

Lemma view_ret {A} (a : A) : view (mret a).
Proof. done. Qed.

Lemma view_throw {A} e : view (throw (A := A) e).
Proof. done. Qed.

Lemma view_load sl : view (dex_load sl).
Proof. done. Qed.
End tokens.

(** How much of a token the exchange holds, and the states the tokens work in. *)
Class TIP20Spec := {
  holding : Evm -> Address -> Z;
  tokens_ok : Evm -> Prop;
}.

Class TIP20Ok `{TempoSpec} `{TempoAddresses} `{TIP20} `{TIP20Spec} : Prop := {
  quote_token_view token : view (quote_token token);
  transfer_authorized_view token from to : view (ensure_transfer_authorized token from to);
  not_paused_view token : view (check_not_paused token);
  policy_view token : view (transfer_policy_id token);
  authorized_view policy user role : view (is_authorized_as policy user role);
  is_tip20_view token : view (is_tip20 token);
  usd_view token : view (validate_usd_currency token);
  is_tip20_prefix_ok token s s' : is_tip20 token s = (Ok true, s') -> is_tip20_prefix token = true;
  usd_prefix token s s' : validate_usd_currency token s = (Ok tt, s') -> is_tip20_prefix token = true;
  prefix_address token : is_tip20_prefix token = true -> is_address token /\ token <> 0;
  tokens_elsewhere s s' : elsewhere s s' -> tokens_ok s -> tokens_ok s';
  holding_elsewhere s s' token : elsewhere s s' -> holding s' token = holding s token;
  transfer_out token to amount s : is_tip20_prefix token = true -> to <> STABLECOIN_DEX_ADDRESS -> 0 <= amount -> tokens_ok s ->
    ends (tip20_transfer token STABLECOIN_DEX_ADDRESS to amount) s (fun _ s' => apart s s' /\ tokens_ok s' /\
      forall t, holding s' t = holding s t - if decide (t = token) then amount else 0);
  transfer_in token from amount s : is_tip20_prefix token = true -> from <> STABLECOIN_DEX_ADDRESS -> 0 <= amount -> tokens_ok s ->
    ends (tip20_transfer_from token STABLECOIN_DEX_ADDRESS from STABLECOIN_DEX_ADDRESS amount) s (fun _ s' => apart s s' /\ tokens_ok s' /\
      forall t, holding s' t = holding s t + if decide (t = token) then amount else 0);
  system_transfer_in token from amount s : is_tip20_prefix token = true -> from <> STABLECOIN_DEX_ADDRESS -> 0 <= amount -> tokens_ok s ->
    ends (system_transfer_from token STABLECOIN_DEX_ADDRESS from amount) s (fun _ s' => apart s s' /\ tokens_ok s' /\
      forall t, holding s' t = holding s t + if decide (t = token) then amount else 0);
}.

#[export] Hint Resolve quote_token_view transfer_authorized_view not_paused_view policy_view authorized_view is_tip20_view usd_view
  view_ret view_throw view_load : views.

(** Different pairs of tokens have different keys. *)
Class BookKeys `{Keccak} `{TIP20} : Prop := book_key_inj base quote base' quote' :
  is_tip20_prefix base = true -> is_tip20_prefix quote = true -> is_tip20_prefix base' = true -> is_tip20_prefix quote' = true ->
  compute_book_key base quote = compute_book_key base' quote' -> base = base' /\ quote = quote'.

Section money.
Context `{TempoSpec} `{TempoAddresses} `{Keccak} `{TIP20} `{TIP20Spec} `{!TIP20Ok}.

(** The books are where their tokens say. *)
Definition keyed (st : Store) : Prop := forall key, bd_base (book st key) <> 0 ->
  key = compute_book_key (bd_base (book st key)) (bd_quote (book st key)) /\
  is_tip20_prefix (bd_base (book st key)) = true /\ is_tip20_prefix (bd_quote (book st key)) = true.

Definition solvent (s : Evm) (st : Store) : Prop := forall token, liabilities st token <= holding s token.

Lemma from_address_ends token s P : (is_tip20_prefix token = true -> P tt s) -> ends (tip20_from_address token) s P.
Proof. unfold tip20_from_address. destruct (is_tip20_prefix token); intros HP; [by apply ends_ret, HP|done]. Qed.

Lemma from_address_view token : view (tip20_from_address token).
Proof. unfold tip20_from_address. by destruct (is_tip20_prefix token). Qed.

Lemma token_quote_view token : view (token_quote token).
Proof. apply view_bind; [apply from_address_view|intros; apply quote_token_view]. Qed.

Lemma transfer_ends token to amount s : to <> STABLECOIN_DEX_ADDRESS -> 0 <= amount -> tokens_ok s ->
  ends (transfer token to amount) s (fun _ s' => apart s s' /\ tokens_ok s' /\ forall t, holding s' t = holding s t - if decide (t = token) then amount else 0).
Proof. intros Hto Ha Htok. apply ends_bind, from_address_ends. intros Hp. by apply transfer_out. Qed.

Lemma transfer_from_ends token from amount s : from <> STABLECOIN_DEX_ADDRESS -> 0 <= amount -> tokens_ok s ->
  ends (transfer_from token from amount) s (fun _ s' => apart s s' /\ tokens_ok s' /\ forall t, holding s' t = holding s t + if decide (t = token) then amount else 0).
Proof. intros Hto Ha Htok. apply ends_bind, from_address_ends. intros Hp. destruct is_t5; [by apply system_transfer_in|by apply transfer_in]. Qed.

Lemma liabilities_put st u t v token : liabilities (put_balance st u t v) token = liabilities st token + if decide (t = token) then v - balance st u t else 0.
Proof.
  unfold liabilities. cbn [put_balance st_balances st_orders]. rewrite msum_insert. unfold owed_balance, balance. cbn [snd].
  change (owed_order (put_balance st u t v) token) with (owed_order st token).
  destruct (st_balances st !! (u, t)) as [x|]; cbn; case_decide; lia.
Qed.

(** Taking an amount from a user: from the balance, or from the wallet too. *)
Lemma decrement_ends user token amount pause s st : holds s st -> tokens_ok s -> user <> STABLECOIN_DEX_ADDRESS -> 0 <= amount ->
  ends (decrement_balance_or_transfer_from user token amount pause) s (fun _ s' => exists v, is_tip20_prefix token = true /\ 0 <= v <= balance st user token /\
    holds s' (put_balance st user token v) /\ tokens_ok s' /\
    forall t, holding s' t - liabilities (put_balance st user token v) t = holding s t - liabilities st t + if decide (t = token) then amount else 0).
Proof.
  intros Hh Htok Hu Ha. unfold decrement_balance_or_transfer_from. apply ends_bind, from_address_ends. intros Hpre.
  apply ends_bind, ends_view; [apply transfer_authorized_view|]. intros _ _.
  apply ends_bind. eapply ends_acts; [exact Hh|apply balance_of_acts|]. intros s1 Hh1 He1. set (b := balance st user token) in *.
  assert (0 <= b) as Hb by (destruct Hh as (_ & _ & cr & Hw); apply (w_balances _ _ _ Hw)).
  case_decide as Hle.
  - apply ends_bind. apply (ends_mono _ _ (fun _ s' => s' = s1)).
    2: { destruct (pause && is_t4); cbn [when]; [|done]. apply ends_view; [apply not_paused_view|]. done. }
    intros _ s1' ->. eapply ends_acts; [exact Hh1|apply sub_balance_acts; fold b; lia|]. intros s2 Hh2 He2. fold b in Hh2. exists (b - amount). split_and!; [done|lia|lia|done|by apply (tokens_elsewhere s); [etrans|]|].
    intros t. rewrite liabilities_put. fold b. rewrite (holding_elsewhere s s2) by (by etrans). destruct (decide (t = token)) as [-> |Hne]; [rewrite decide_True by done; lia|].
    rewrite decide_False by congruence. lia.
  - unfold checked_sub. rewrite decide_True by lia. cbn [ok_or]. apply ends_bind. eapply (ends_mono _ _ (fun x s' => x = amount - b /\ s' = s1)); [|done].
    intros x s1' [-> ->]. apply ends_bind. eapply ends_mono; [|apply transfer_from_ends; [done|lia|by eapply tokens_elsewhere]]. intros _ s2 (Hap & Htok2 & Hhold).
    eapply ends_acts; [by eapply holds_apart|by apply set_balance_acts|]. intros s3 Hh3 He3. exists 0. split_and!; [done|lia|lia|done|by eapply tokens_elsewhere|].
    intros t. rewrite liabilities_put. fold b. rewrite (holding_elsewhere s2 s3), Hhold, (holding_elsewhere s s1) by done.
    destruct (decide (t = token)) as [-> |Hne]; [rewrite decide_True by done; lia|]. rewrite decide_False by congruence. lia.
Qed.

Lemma take_escrow_ends user token amount internal s st : holds s st -> tokens_ok s -> user <> STABLECOIN_DEX_ADDRESS -> 0 <= amount ->
  ends (take_escrow user token amount internal) s (fun _ s' => exists v, is_tip20_prefix token = true /\ 0 <= v <= balance st user token /\
    holds s' (put_balance st user token v) /\ tokens_ok s' /\
    forall t, holding s' t - liabilities (put_balance st user token v) t = holding s t - liabilities st t + if decide (t = token) then amount else 0).
Proof.
  intros Hh Htok Hu Ha. unfold take_escrow. destruct internal; [|by apply decrement_ends]. apply ends_bind, from_address_ends. intros Hpre.
  apply ends_bind, ends_view; [apply transfer_authorized_view|]. intros _ _. apply ends_bind. apply (ends_mono _ _ (fun _ s' => s' = s)).
  2: { destruct is_t4; cbn [when]; [|done]. apply ends_view; [apply not_paused_view|done]. }
  intros _ s0 ->. apply ends_bind. eapply ends_acts; [exact Hh|apply balance_of_acts|]. intros s1 Hh1 He1. set (b := balance st user token) in *.
  case_decide as Hlt; [done|]. eapply ends_acts; [exact Hh1|apply sub_balance_acts; fold b; lia|]. intros s2 Hh2 He2. fold b in Hh2.
  exists (b - amount). split_and!; [done|lia|lia|done|by apply (tokens_elsewhere s); [etrans|]|]. intros t. rewrite liabilities_put. fold b. rewrite (holding_elsewhere s s2) by (by etrans).
  destruct (decide (t = token)) as [-> |Hne]; [rewrite decide_True by done; lia|]. rewrite decide_False by congruence. lia.
Qed.
End money.

#[export] Hint Resolve from_address_view token_quote_view : views.

Section place.
Context `{TempoSpec} `{TempoAddresses} `{Keccak} `{TIP20} `{TIP20Spec} `{!TIP20Ok}.

Lemma ends_run {A} (m : M A) s a s' (P : A -> Evm -> Prop) : m s = (Ok a, s') -> flags_same s s' -> P a s' -> ends m s P.
Proof. intros Hr Hf HP. unfold ends. by rewrite Hr. Qed.

(** A read of the exchange leaves the state as it is. *)
Lemma read_run {A} (m : M A) s st a : holds s st -> acts st m a st -> view m -> m s = (Ok a, s).
Proof. intros Hh Ha Hv. destruct (holds_acts m s st a st Hh Ha) as (s' & Hr & _). destruct (Hv s) as [Hs _]. rewrite Hr in Hs. cbn in Hs. by subst. Qed.

Lemma read_data_view slot : view (read_data slot).
Proof. repeat (apply view_bind; [done|intros]). done. Qed.

Lemma read_data_run s st key : holds s st -> read_data (book_slot key) s = (Ok (book st key), s).
Proof. intros Hh. eapply read_run; [exact Hh|apply read_data_acts|apply read_data_view]. Qed.

(** ** Pairs *)

Definition add_pair (st : Store) (key : B256) (base quote : Address) : Store :=
  with_keys (put_book st key (mkBookData base quote i16_min i16_max (if is_t8 then Z.of_nat (length (st_keys st)) + 1 else 0))) (st_keys st ++ [key]).

(** With the vector of keys full the new book is refused. *)
Lemma full_keys_fail s st key b : holds s st -> Z.of_nat (length (st_keys st)) = u32_max ->
  ends (write_data (book_slot key) b) s (fun _ s1 => forall P, ends (vec_push STABLECOIN_DEX_ADDRESS BOOK_KEYS key) s1 P).
Proof.
  intros (Hok & Hid & cr & Hw) Hlen. assert (exists d', trip (dword s) (write_data (book_slot key) b) tt d' /\ d' (At 4) = dword s (At 4)) as (d' & Ht & Hd4).
  { eexists. split; [unfold write_data; trip_run|]. by rewrite !upd_other. }
  destruct (Ht s Hok (fun _ => eq_refl)) as (s1 & Hr1 & _ & [He1 _] & Hd1). eapply ends_run; [exact Hr1|apply He1|]. intros P.
  unfold vec_push, vec_len. apply ends_bind, ends_bind. eapply ends_run; [reflexivity|done|].
  change (word_at (evm_storage s1) STABLECOIN_DEX_ADDRESS BOOK_KEYS) with (dword s1 (At 4)). rewrite Hd1, Hd4.
  destruct (w_keys _ _ _ Hw) as (-> & _). rewrite Hlen. rewrite decide_False by lia. apply ends_ret. by rewrite decide_True.
Qed.

Lemma add_pair_inv st Q key base quote : inv st Q None -> bd_base (book st key) = 0 -> base <> 0 -> Z.of_nat (length (st_keys st)) < u32_max ->
  inv (add_pair st key base quote) Q None.
Proof.
  intros Hinv Hz Hbase Hlen. pose proof Hinv as [Ha1 Ha2 Ha3 Ha4 Ha5 Ha6 Ha7 Ha8 Ha9].
  assert (forall key', book (add_pair st key base quote) key' = if decide (key' = key)
    then mkBookData base quote i16_min i16_max (if is_t8 then Z.of_nat (length (st_keys st)) + 1 else 0) else book st key') as Hbook by (intros; apply book_put).
  assert (forall b t, Q !! (key, b, t) = None) as Hno.
  { intros b t. destruct (Q !! (key, b, t)) as [q|] eqn:Hq; [|done]. by destruct (Ha1 _ q Hq) as (_ & _ & _ & ?). }
  split; try done.
  - intros k q Hk. destruct (Ha1 k q Hk) as (? & ? & ? & Hb). split_and!; try done. rewrite Hbook. by case_decide.
  - intros key' b. rewrite Hbook. case_decide as Hd; [|apply Ha7]. subst. intros _. right. split; [by destruct b|]. apply Hno.
  - intros key'. rewrite Hbook. cbn [add_pair with_keys st_keys put_book]. case_decide as Hd.
    + subst. intros _. split; [destruct is_t8; cbn; unfold is_u32, u32_max in *; lia|]. intros i. unfold book_id_index. cbn.
      destruct is_t8; [|done]. rewrite decide_True by lia. intros [= <-]. rewrite lookup_app_r by lia.
      replace (Z.to_nat (Z.of_nat (length (st_keys st)) + 1 - 1) - length (st_keys st))%nat with 0%nat by lia. done.
    + intros Hb. destruct (Ha8 key' Hb) as [Hu Hi]. split; [done|]. intros i Hii. by apply lookup_app_l_Some, Hi.
Qed.

Lemma add_pair_liabilities st Q key base quote token : inv st Q None -> bd_base (book st key) = 0 -> liabilities (add_pair st key base quote) token = liabilities st token.
Proof.
  intros Hinv Hz. unfold liabilities. cbn [add_pair with_keys st_balances st_orders put_book]. f_equal. apply msum_ext. intros id o Ho.
  destruct (i_orders _ _ _ Hinv id o Ho) as (_ & Hin & _). assert (queue Q (key_of o) <> []) as Hne by (intros Hn; rewrite Hn in Hin; by apply not_elem_of_nil in Hin).
  destruct (i_queues _ _ _ Hinv _ _ (queue_some Q _ Hne)) as (_ & _ & _ & Hb). unfold owed_order, escrow_token, add_pair.
  change (book (with_keys ?a ?b)) with (book a). rewrite book_put.
  rewrite (decide_False (P := o_book_key o = key)); [done|]. intros Heq. cbn in Hb. by rewrite Heq in Hb.
Qed.

Lemma add_pair_keyed st base quote : keyed st -> is_tip20_prefix base = true -> is_tip20_prefix quote = true ->
  keyed (add_pair st (compute_book_key base quote) base quote).
Proof.
  intros Hk Hb Hq key. unfold add_pair. change (book (with_keys ?a ?b)) with (book a). rewrite book_put. case_decide; [by subst|apply Hk].
Qed.

Lemma create_pair_ends s st Q base : holds s st -> inv st Q None -> keyed st ->
  ends (create_pair base) s (fun key s' => exists quote, token_quote base s = (Ok quote, s) /\ key = compute_book_key base quote /\
    bd_base (book st key) = 0 /\ is_tip20_prefix base = true /\ is_tip20_prefix quote = true /\ base <> 0 /\
    Z.of_nat (length (st_keys st)) < u32_max /\ holds s' (add_pair st key base quote) /\ elsewhere s s').
Proof.
  intros Hh Hinv Hkeyed. unfold create_pair. apply ends_bind, ends_view; [apply is_tip20_view|]. intros known Hknown. destruct known; cbn [negb]; [|done].
  pose proof (is_tip20_prefix_ok _ _ _ Hknown) as Hpb. destruct (prefix_address _ Hpb) as [Hab Hb0].
  apply ends_bind, ends_view; [apply token_quote_view|]. intros quote Hquote.
  apply ends_bind, ends_view; [apply usd_view|]. intros [] _. apply ends_bind, ends_view; [apply usd_view|]. intros [] Husd.
  pose proof (usd_prefix _ _ _ Husd) as Hpq. destruct (prefix_address _ Hpq) as [Haq _]. set (key := compute_book_key base quote).
  apply ends_bind. eapply ends_run; [by apply read_data_run|done|]. unfold book_initialized. case_bool_decide as Hinit; [done|].
  assert (bd_base (book st key) = 0) as Hz by lia. apply ends_bind.
  set (b := mkBookData base quote i16_min i16_max (if is_t8 then Z.of_nat (length (st_keys st)) + 1 else 0)).
  eapply (ends_mono _ _ (fun b' s1 => b' = b /\ holds s1 st /\ elsewhere s s1)).
  2: { unfold b. destruct is_t8; [|by apply ends_ret]. apply ends_bind. eapply ends_acts; [exact Hh|apply vec_len_acts|]. intros s1 Hh1 He1. by apply ends_ret. }
  intros b' s1 (-> & Hh1 & He1). assert (Z.of_nat (length (st_keys st)) <= u32_max) as Hlen by (destruct Hh as (_ & _ & cr & Hw); apply (w_keys _ _ _ Hw)).
  destruct (decide (Z.of_nat (length (st_keys st)) = u32_max)) as [Hmax|Hmax].
  { apply ends_bind. eapply ends_mono; [|by eapply full_keys_fail]. intros [] s2 Hf. apply ends_bind, Hf. }
  ends_by write_data_acts.
  { unfold b, book_ranges. cbn. split_and!; try done. destruct is_t8; unfold is_u32, u32_max in *; lia. }
  intros s2 Hh2 He2. ends_by vec_push_acts; [cbn; lia|]. intros s3 Hh3 He3. apply ends_bind. eapply does_ends; [by apply does_emit|].
  intros s4 Hh4 He4. apply ends_ret. exists quote. split_and!; try done; [lia|]. do 3 (etrans; [eassumption|]). done.
Qed.

(** ** The exchange in order *)

(** The state of the chain holds a book of queues, and the exchange holds what
    it owes. *)
Record dex (s : Evm) (st : Store) (Q : Queues) : Prop := mkDex {
  dex_holds : holds s st;
  dex_inv : inv st Q None;
  dex_keyed : keyed st;
  dex_solvent : solvent s st;
  dex_tokens : tokens_ok s;
}.

Lemma inv_next st Q lim n : inv st Q lim -> st_next st <= n -> is_u128 n -> inv (with_next st n) Q lim.
Proof.
  intros [Ha1 Ha2 Ha3 Ha4 Ha5 Ha6 Ha7 Ha8 Ha9] Hn Hu. split; try done. intros k q id Hk Hid. specialize (Ha6 k q id Hk Hid). cbn. lia.
Qed.

(** A new order at the end of its queue. *)
Lemma enqueue_ends s st Q o charge : holds s st -> tokens_ok s -> inv st Q None -> keyed st -> good_order o -> o_prev o = 0 -> o_next o = 0 ->
  bd_base (book st (o_book_key o)) <> 0 -> 0 < o_order_id o < st_next st -> (forall k, o_order_id o ∉ queue Q k) ->
  (forall t, liabilities st t + (if decide (t = escrow_token st o) then escrow_amount o else 0) <= holding s t) ->
  ends (commit_order_to_book o charge) s (fun _ s' => exists st', dex s' st' (push Q (key_of o) (o_order_id o)) /\
    (exists p, st_orders st' !! o_order_id o = Some (set_prev o p)) /\ st_next st' = st_next st /\ st_balances st' = st_balances st).
Proof.
  intros Hh Htok Hinv Hkeyed Hgood Hp Hn Hbase Hid Hfresh Hmoney. pose proof Hgood as (Hr & _ & _ & [Hv _] & _).
  assert (fresh Q None (o_order_id o)) as Hfr by (intros k [? _]; by apply (Hfresh k)).
  pose proof (tail_fresh' st Q None o Hinv Hid (fun _ => eq_refl) Hfr) as Htail.
  eapply ends_mono; [|apply (commit_ends s st o charge); [done|by apply valid_i16|lia|done| |done|by apply (i_index _ _ _ Hinv)]].
  2: { by apply (commit_tail_ok st Q None o Hinv). }
  intros _ s' [Hh' He']. exists (commit_st st o). split_and!.
  - split; [done|by apply commit_inv| | |by eapply tokens_elsewhere].
    + intros key. destruct (commit_book st o key) as (-> & -> & _). apply Hkeyed.
    + intros t. rewrite commit_liabilities by done. rewrite (holding_elsewhere s s') by done. specialize (Hmoney t).
      assert (st_orders st !! o_order_id o = None) as ->.
      { destruct (st_orders st !! o_order_id o) as [x|] eqn:Hx; [|done]. destruct (i_orders _ _ _ Hinv _ _ Hx) as (_ & Hin & _). exfalso. by eapply Hfresh. }
      unfold owed_order. cbn [term]. destruct (decide (escrow_token st o = t)); [rewrite decide_True in Hmoney by done|rewrite decide_False in Hmoney by done]; lia.
  - exists (tl_tail (level st (key_of o))). rewrite commit_orders by done. by rewrite decide_True.
  - unfold commit_st, link_level. repeat case_decide; done.
  - unfold commit_st, link_level. repeat case_decide; done.
Qed.

(** The pair of a token, created when there is none yet. *)
Lemma pair_ends s st Q token quote : dex s st Q -> token_quote token s = (Ok quote, s) ->
  let key := compute_book_key token quote in
  ends (validate_or_create_pair (book st key) token) s (fun _ s' => exists st', dex s' st' Q /\ bd_base (book st' key) <> 0 /\ elsewhere s s' /\
    st_next st' = st_next st /\ st_balances st' = st_balances st /\ st_orders st' = st_orders st /\
    (forall t, holding s' t - liabilities st' t = holding s t - liabilities st t)).
Proof.
  intros [Hh Hinv Hkeyed Hsol Htok] Hq key. unfold validate_or_create_pair. case_decide as Hz.
  - apply ends_bind. eapply ends_mono; [|by eapply create_pair_ends]. intros key' s' (quote' & Hq' & -> & Hz' & Hpb & Hpq & Hb0 & Hlen & Hh' & He').
    assert (quote' = quote) as -> by congruence. fold key in Hh'. apply ends_ret. exists (add_pair st key token quote). fold key in Hz'.
    assert (forall t, holding s' t - liabilities (add_pair st key token quote) t = holding s t - liabilities st t) as Hm.
    { intros t. rewrite (add_pair_liabilities st Q) by done. by rewrite (holding_elsewhere s s'). }
    split_and!; try done.
    + split; [done|by apply add_pair_inv|by apply add_pair_keyed| |by eapply tokens_elsewhere]. intros t. specialize (Hm t). specialize (Hsol t). lia.
    + unfold add_pair. change (book (with_keys ?a ?b)) with (book a). rewrite book_put. by rewrite decide_True.
  - apply ends_ret. exists st. by split_and!.
Qed.

Lemma keyed_tokens `{!BookKeys} st token quote : keyed st -> bd_base (book st (compute_book_key token quote)) <> 0 ->
  is_tip20_prefix token = true -> is_tip20_prefix quote = true ->
  bd_base (book st (compute_book_key token quote)) = token /\ bd_quote (book st (compute_book_key token quote)) = quote.
Proof.
  intros Hk Hb Ht Hq. destruct (Hk _ Hb) as (Heq & Hpb & Hpq). apply book_key_inj in Heq as [? ?]; done.
Qed.

(** ** Placing *)

(** The new order is the last of its queue. *)
Definition placed (s : Evm) (st : Store) (Q : Queues) (sender token : Address) (amount : u128) (is_bid : bool) (tick : i16) (flip : bool) (flip_tick : i16)
    (id : u128) (s' : Evm) : Prop :=
  exists quote st' p, token_quote token s = (Ok quote, s) /\ id = Z.max (st_next st) 1 /\ st_next st' = id + 1 /\
    let key := compute_book_key token quote in
    dex s' st' (push Q (key, is_bid, tick) id) /\
    st_orders st' !! id = Some (mkOrder id sender key is_bid tick amount amount p 0 flip flip_tick).

(** The id is taken and the order committed. *)
Lemma submit_ends s st Q o charge (m : M unit) : holds s st -> tokens_ok s -> inv st Q None -> keyed st -> good_order o -> o_prev o = 0 -> o_next o = 0 ->
  bd_base (book st (o_book_key o)) <> 0 -> o_order_id o = Z.max (st_next st) 1 -> st_next st < u128_max ->
  acts st m tt (with_next st ((o_order_id o + 1) mod 2 ^ 128)) ->
  (forall t, liabilities st t + (if decide (t = escrow_token st o) then escrow_amount o else 0) <= holding s t) ->
  ends (_ ← m; commit_order_to_book o charge) s (fun _ s' => exists st' p, dex s' st' (push Q (key_of o) (o_order_id o)) /\
    st_orders st' !! o_order_id o = Some (set_prev o p) /\ st_next st' = o_order_id o + 1).
Proof.
  intros Hh Htok Hinv Hkeyed Hgood Hp Hn Hbase Hid Hmax Hm Hmoney. pose proof (i_next _ _ _ Hinv) as Hnx. unfold is_u128, u128_max in *.
  rewrite Z.mod_small in Hm by lia. apply ends_bind. eapply ends_acts; [exact Hh|exact Hm|]. intros s1 Hh1 He1.
  eapply ends_mono; [|apply (enqueue_ends s1 (with_next st (o_order_id o + 1)) Q); try done].
  - intros _ s2 (st' & Hdex & (p & Hp') & Hn' & _). exists st', p. by split_and!.
  - by eapply tokens_elsewhere.
  - apply inv_next; [done|lia|unfold is_u128, u128_max; lia].
  - cbn [with_next st_next]. lia.
  - intros k Hk. apply (queue_ids st Q None Hinv) in Hk. lia.
  - intros t. rewrite (holding_elsewhere s s1) by done. apply Hmoney.
Qed.

Lemma escrow_of_ends token quote amount (is_bid : bool) tick s (P : (Address * u128 * Address)%type -> Evm -> Prop) : 0 <= amount -> valid_tick tick ->
  (forall e, 0 <= e -> e = (if is_bid then quote_up amount tick else amount) -> P (if is_bid then quote else token, e, if is_bid then token else quote) s) ->
  ends (escrow_of token quote amount is_bid tick) s P.
Proof.
  intros Ha Hv HP. unfold escrow_of. destruct is_bid.
  - apply ends_bind, ends_ok_or. intros q [-> _]%base_to_quote_Some. apply ends_ret, HP; [by apply quote_up_nonneg|done].
  - by apply ends_ret, HP.
Qed.

Section placing.
Context `{!BookKeys}.
Context (s : Evm) (st : Store) (Q : Queues) (Hdex : dex s st Q) (Hnext : st_next st < u128_max).
Context (sender : Address) (Hsender : is_address sender /\ sender <> 0 /\ sender <> STABLECOIN_DEX_ADDRESS).

(** The order submitted once its escrow is taken. *)
Lemma submitted quote token amount (is_bid : bool) tick flip flip_tick s1 st1 v charge (m : M unit) s2 :
  let key := compute_book_key token quote in
  let o := mkOrder (Z.max (st_next st) 1) sender key is_bid tick amount amount 0 0 flip flip_tick in
  let escrow := if is_bid then quote else token in
  dex s1 st1 Q -> bd_base (book st1 key) <> 0 -> st_next st1 = st_next st -> is_tip20_prefix token = true -> is_tip20_prefix quote = true ->
  good_order o -> holds s2 (put_balance st1 sender escrow v) -> tokens_ok s2 ->
  (forall t, holding s2 t - liabilities (put_balance st1 sender escrow v) t =
     holding s1 t - liabilities st1 t + if decide (t = escrow) then (if is_bid then quote_up amount tick else amount) else 0) ->
  (forall st', st_next st' = st_next st -> acts st' m tt (with_next st' ((Z.max (st_next st) 1 + 1) mod 2 ^ 128))) ->
  ends (_ ← m; commit_order_to_book o charge) s2 (fun _ s' => exists st' p, dex s' st' (push Q (key, is_bid, tick) (Z.max (st_next st) 1)) /\
    st_orders st' !! Z.max (st_next st) 1 = Some (set_prev o p) /\ st_next st' = Z.max (st_next st) 1 + 1).
Proof.
  intros key o escrow [Hh1 Hinv1 Hk1 Hsol1 _] Hbase Hn1 Hpt Hpq Hgood Hh2 Htok2 Hmoney Hm. destruct (keyed_tokens st1 token quote Hk1 Hbase Hpt Hpq) as [Hbb Hbq].
  apply (submit_ends s2 (put_balance st1 sender escrow v) Q o charge m); try done.
  - by apply inv_balance.
  - change (st_next (put_balance st1 sender escrow v)) with (st_next st1). by rewrite Hn1.
  - change (st_next (put_balance st1 sender escrow v)) with (st_next st1). by rewrite Hn1.
  - by apply Hm.
  - intros t. specialize (Hmoney t). specialize (Hsol1 t). assert (escrow_token (put_balance st1 sender escrow v) o = escrow) as ->.
    { unfold escrow_token, escrow, o. cbn [o_is_bid o_book_key]. change (book (put_balance ?a ?b ?c ?d)) with (book a). fold key in Hbb, Hbq. by rewrite Hbb, Hbq. }
    change (escrow_amount o) with (if is_bid then quote_up amount tick else amount). case_decide; lia.
Qed.

(** The checks on ticks and size, as conditions. *)
Lemma ends_if {A} (P : Prop) `{Decision P} e (m : M A) s1 (R : A -> Evm -> Prop) : (~ P -> ends m s1 R) -> ends (if decide P then throw e else m) s1 R.
Proof. intros Hm. case_decide; [done|by apply Hm]. Qed.

Lemma place_ends token amount is_bid tick : is_u128 amount ->
  ends (place sender token amount is_bid tick) s (placed s st Q sender token amount is_bid tick false 0).
Proof.
  intros Hamount. destruct Hsender as (Hsa & Hs0 & Hsd). unfold place. apply ends_bind, ends_view; [apply token_quote_view|]. intros quote Hquote.
  set (key := compute_book_key token quote).
  assert (is_tip20_prefix token = true) as Hpt.
  { unfold token_quote, tip20_from_address, mbind, M_bind in Hquote. by destruct (is_tip20_prefix token). }
  apply ends_bind. eapply ends_run; [by apply read_data_run, Hdex|done|].
  apply ends_bind. eapply ends_mono; [|by apply pair_ends]. intros _ s1 (st1 & Hdex1 & Hbase & He1 & Hn1 & _ & _ & Hm1). fold key in Hbase.
  apply ends_if. intros Hv. apply dec_stable in Hv. apply ends_if. intros Hgrid. apply ends_if. intros Hmin.
  apply ends_bind, escrow_of_ends; [unfold is_u128 in *; lia|done|]. intros e He0 He. cbv beta iota.
  apply ends_bind, from_address_ends. intros Hpn. apply ends_bind, ends_view; [apply transfer_authorized_view|]. intros _ _.
  apply ends_bind. apply (ends_mono _ _ (fun _ s' => s' = s1)).
  2: { destruct is_t4; cbn [when]; [|done]. apply ends_view; [apply not_paused_view|done]. }
  intros _ s1' ->. apply ends_bind. eapply ends_mono; [|eapply decrement_ends; [apply Hdex1|apply Hdex1|done|done]].
  intros _ s2 (v & Hpe & _ & Hh2 & Htok2 & Hmoney). apply ends_bind. eapply ends_acts; [exact Hh2|apply next_id_acts|]. intros s3 Hh3 He3.
  change (st_next (put_balance ?a ?b ?c ?d)) with (st_next a). rewrite Hn1. set (id := Z.max (st_next st) 1).
  set (o := mkOrder id sender key is_bid tick amount amount 0 0 false 0). assert ((if is_bid then new_bid id sender key amount tick else new_ask id sender key amount tick) = o) as ->
    by by destruct is_bid.
  assert (is_tip20_prefix quote = true) as Hpq by by destruct is_bid.
  apply ends_bind2. eapply ends_mono; [|eapply (submitted quote token amount is_bid tick false 0 s1 st1 v true _ s3); try done].
  - intros _ s4 (st' & p & Hdex' & Ho & Hn'). apply ends_bind. eapply does_ends; [apply does_emit, Hdex'|]. intros s5 Hh5 He5. apply ends_ret.
    exists quote, st', p. split_and!; try done. split; [|exact Ho]. destruct Hdex' as [? ? ? Hsol ?]. split; try done; [|by eapply tokens_elsewhere].
    intros t. rewrite (holding_elsewhere s4 s5) by done. apply Hsol.
  - unfold good_order, order_ranges. cbn. unfold MIN_ORDER_AMOUNT in *. pose proof (i_next _ _ _ (dex_inv _ _ _ Hdex)).
    assert (is_u128 (Z.max (st_next st) 1)) by (unfold is_u128, u128_max in *; lia). split_and!; try done; [by apply valid_i16|lia|split; [done|by apply dec_stable in Hgrid]].
  - by eapply tokens_elsewhere.
  - intros t. rewrite (holding_elsewhere s2 s3) by done. by rewrite Hmoney, He.
  - intros st' Hst'. rewrite <- Hst'. apply increment_next_acts.
Qed.

Lemma flip_ahead tick is_bid flip_tick : invalid_flip tick is_bid flip_tick = false -> ahead is_bid flip_tick tick.
Proof. unfold invalid_flip, ahead. destruct is_bid; intros [Hlt _]%orb_false_iff; apply bool_decide_eq_false in Hlt; lia. Qed.

Lemma place_flip_ends token amount is_bid tick flip_tick internal : is_u128 amount ->
  ends (place_flip sender token amount is_bid tick flip_tick internal) s (placed s st Q sender token amount is_bid tick true flip_tick).
Proof.
  intros Hamount. destruct Hsender as (Hsa & Hs0 & Hsd). unfold place_flip. apply ends_bind, ends_view; [apply token_quote_view|]. intros quote Hquote.
  set (key := compute_book_key token quote). apply ends_checkpoint.
  assert (is_tip20_prefix token = true) as Hpt.
  { unfold token_quote, tip20_from_address, mbind, M_bind in Hquote. by destruct (is_tip20_prefix token). }
  apply ends_bind. eapply ends_run; [by apply read_data_run, Hdex|done|].
  apply ends_bind. eapply ends_mono; [|by apply pair_ends]. intros _ s1 (st1 & Hdex1 & Hbase & He1 & Hn1 & _ & _ & Hm1). fold key in Hbase.
  apply ends_if. intros Hv. apply dec_stable in Hv. apply ends_if. intros Hgrid. apply ends_if. intros Hvf. apply dec_stable in Hvf.
  apply ends_if. intros Hgridf. destruct (invalid_flip tick is_bid flip_tick) eqn:Hflip; [done|]. apply ends_if. intros Hmin.
  apply ends_bind, escrow_of_ends; [unfold is_u128 in *; lia|done|]. intros e He0 He. cbv beta iota.
  apply ends_bind, from_address_ends. intros Hpn. apply ends_bind, ends_view; [apply transfer_authorized_view|]. intros _ _.
  apply ends_bind. apply (ends_mono _ _ (fun _ s' => s' = s1)).
  2: { destruct is_t4; cbn [when]; [|done]. apply ends_view; [apply not_paused_view|done]. }
  intros _ s1' ->. apply ends_bind. eapply ends_mono; [|eapply take_escrow_ends; [apply Hdex1|apply Hdex1|done|done]].
  intros _ s2 (v & Hpe & _ & Hh2 & Htok2 & Hmoney). apply ends_bind. eapply ends_acts; [exact Hh2|apply next_id_acts|]. intros s3 Hh3 He3.
  change (st_next (put_balance ?a ?b ?c ?d)) with (st_next a). rewrite Hn1. unfold new_flip. rewrite Hflip. apply ends_bind, ends_ret.
  assert (is_tip20_prefix quote = true) as Hpq by by destruct is_bid.
  apply ends_bind2. eapply ends_mono; [|eapply (submitted quote token amount is_bid tick true flip_tick s1 st1 v true _ s3); try done].
  - intros _ s4 (st' & p & Hdex' & Ho & Hn'). apply ends_bind. eapply does_ends; [eapply does_emit, dex_holds, Hdex'|]. intros s5 Hh5 He5. apply ends_ret.
    exists quote, st', p. split_and!; try done. split; [|exact Ho]. destruct Hdex' as [? ? ? Hsol ?]. split; try done; [|by eapply tokens_elsewhere].
    intros t. rewrite (holding_elsewhere s4 s5) by done. apply Hsol.
  - unfold good_order, order_ranges. cbn. unfold MIN_ORDER_AMOUNT in *. pose proof (i_next _ _ _ (dex_inv _ _ _ Hdex)).
    assert (is_u128 (Z.max (st_next st) 1)) by (unfold is_u128, u128_max in *; lia). apply dec_stable in Hgrid, Hgridf.
    split_and!; try done; [by apply valid_i16|by apply valid_i16|lia|]. intros _. split; [done|by apply flip_ahead].
  - by eapply tokens_elsewhere.
  - intros t. rewrite (holding_elsewhere s2 s3) by done. by rewrite Hmoney, He.
  - intros st' Hst'. destruct is_t1c; [apply write_next_acts|]. rewrite <- Hst'. apply increment_next_acts.
Qed.
End placing.
End place.
