(* ===== verification/DexFill.v ===== *)
(** * Filling orders

    A filled order pays its maker, is flipped or deleted, and leaves the head of
    its queue; the next order in line is the head of the queue behind it, or of
    the next best level. *)

From stdpp Require Import prelude gmap list strings.
From S2P Require Import Prelude DexPrice TempoEvm DexTypes DexBook DexCredits Dex DexStore.
From S2P Require Import DexOrders DexHolds DexInv DexCommit DexCancel DexPlace.

#[local] Open Scope Z_scope.

Section fill.
Context `{TempoSpec} `{TempoAddresses} `{Keccak} `{TIP20} `{TIP20Spec} `{!TIP20Ok}.

Lemma t5_t1c : is_t5 = true -> is_t1c = true.
Proof. by apply since_mono. Qed.

(** A call whose failure is undone, as a value. *)
Lemma ends_try {A} (m : M A) s P (R : A + TempoPrecompileError -> Evm -> Prop) : is_t1c = true -> ends m s P ->
  (forall e, R (inr e) s) -> (forall a s', P a s' -> R (inl a) s') -> ends (try (checkpoint m)) s R.
Proof.
  intros H1c Hm Herr Hok. unfold ends, try, checkpoint in *. destruct (m s) as [[a|e|] s1]; [|rewrite H1c|done].
  - destruct Hm as [Hf HP]. split; [done|by apply Hok].
  - destruct Hm as [Hf1 Hf2]. rewrite Hf1, Hf2. split; [done|]. destruct s. by apply Herr.
Qed.

(** The token a maker is paid in, and how much for an amount of base. *)
Definition paid_token (st : Store) (o : Order) : Address :=
  if o_is_bid o then bd_base (book st (o_book_key o)) else bd_quote (book st (o_book_key o)).
Definition paid_amount (o : Order) (fill : u128) : Z := if o_is_bid o then fill else quote_up fill (o_tick o).
(** What the taker gets. *)
Definition output_amount (o : Order) (fill : u128) : Z := if o_is_bid o then quote_down fill (o_tick o) else fill.

(** The books' tokens and the ids are as they were. *)
Definition same_tokens (st st' : Store) : Prop :=
  (forall key, bd_base (book st' key) = bd_base (book st key) /\ bd_quote (book st' key) = bd_quote (book st key)) /\ st_next st' = st_next st.

#[export] Instance same_tokens_preorder : PreOrder same_tokens.
Proof.
  split; [intros st; split; [by intros key|done]|]. intros a b c [H1a H1b] [H2a H2b]. split; [|congruence].
  intros key. destruct (H1a key), (H2a key). split; congruence.
Qed.

Lemma same_tokens_keyed st st' : same_tokens st st' -> keyed st -> keyed st'.
Proof. intros [Ht _] Hk key. destruct (Ht key) as [-> ->]. apply Hk. Qed.

Lemma same_tokens_owed st st' token id o : same_tokens st st' -> owed_order st' token id o = owed_order st token id o.
Proof. intros [Ht _]. unfold owed_order, escrow_token. by destruct (Ht (o_book_key o)) as [-> ->]. Qed.

Lemma commit_same st o : same_tokens st (commit_st st o).
Proof.
  split; [intros key; by destruct (commit_book st o key) as (? & ? & _)|]. unfold commit_st, link_level. repeat case_decide; done.
Qed.

(** Records but for their links. *)
Definition core (o : Order) : Order := set_prev (set_next o 0) 0.

(** The records of the queues of a side are as they were. *)
Definition same_side (st st' : Store) (Q : Queues) (key : B256) (b : bool) : Prop :=
  forall t id, id ∈ queue Q (key, b, t) -> core <$> st_orders st' !! id = core <$> st_orders st !! id.

Lemma opposite_key o : key_of (create_flipped_order o (o_order_id o)) = (o_book_key o, negb (o_is_bid o), o_flip_tick o).
Proof. done. Qed.

Lemma flipped_good o : good_order o -> o_is_flip o = true -> good_order (create_flipped_order o (o_order_id o)).
Proof.
  intros ((Hr1 & Hr2 & Hr3 & Hr4 & Hr5 & Hr6 & Hr7 & Hr8) & Hrem & Hm & Hg & Hf) Hflip. destruct (Hf Hflip) as [Hgf Ha].
  unfold good_order, order_ranges, create_flipped_order. cbn. split_and!; try done; [lia|]. intros _. split; [done|]. unfold ahead in *. by destruct (o_is_bid o).
Qed.

(** An order on its way out of queue [k]: not queued elsewhere. *)
Lemma limbo_fresh st Q id o r : inv st Q (Some (key_of o, id, r)) -> st_orders st !! id = Some o -> fresh Q (Some (key_of o, id, r)) id.
Proof.
  intros Hinv Ho k Hl. pose proof (record_queue st Q _ Hinv id o k Ho Hl) as ->. destruct Hl as [_ Hl]. cbn in Hl. apply bool_decide_eq_false in Hl. tauto.
Qed.

(** After the order is settled: its record is gone, or is a new one on the other
    side. *)
Definition settled (st : Store) (Q : Queues) (o : Order) (lim : Limbo) (st' : Store) : Prop :=
  exists Q', inv st' Q' lim /\ same_tokens st st' /\
    (forall t, queue Q' (o_book_key o, o_is_bid o, t) = queue Q (o_book_key o, o_is_bid o, t)) /\
    (forall key, key <> o_book_key o -> forall b t, queue Q' (key, b, t) = queue Q (key, b, t)) /\
    (forall o', st_orders st' !! o_order_id o = Some o' -> key_of o' <> key_of o) /\
    (forall k id, id <> o_order_id o -> id ∈ queue Q k -> core <$> st_orders st' !! id = core <$> st_orders st !! id) /\
    (forall id, id <> o_order_id o -> id ∈ queue Q (key_of o) -> st_orders st' !! id = st_orders st !! id) /\
    (forall token, liabilities st' token = liabilities st token - owed_order st token (o_order_id o) o) /\
    best (book st' (o_book_key o)) (o_is_bid o) = best (book st (o_book_key o)) (o_is_bid o) /\
    level st' (key_of o) = level st (key_of o) /\
    (forall k id, id ∈ queue Q' k -> exists k', id ∈ queue Q k').

Lemma settled_delete st Q o r : inv st Q (Some (key_of o, o_order_id o, r)) -> st_orders st !! o_order_id o = Some o ->
  settled st Q o (Some (key_of o, o_order_id o, r)) (with_orders st (delete (o_order_id o) (st_orders st))).
Proof.
  intros Hinv Ho. exists Q. split_and!; try done.
  - by eapply forget_record.
  - intros o'. cbn. by rewrite lookup_delete_eq.
  - intros k id Hne _. cbn. by rewrite lookup_delete_ne.
  - intros id Hne _. cbn. by rewrite lookup_delete_ne.
  - intros token. unfold liabilities. cbn [with_orders st_balances st_orders]. change (owed_order (with_orders ?a ?b)) with (owed_order a).
    rewrite msum_delete, Ho. cbn. lia.
  - eauto.
Qed.

Section flip.
Context (st : Store) (Q : Queues) (o : Order) (r : Z).

Let id := o_order_id o.
Let lim : Limbo := Some (key_of o, id, r).
Let f := create_flipped_order o id.
Let st2 := put_balance st (o_maker o) (escrow_token st f) (balance st (o_maker o) (escrow_token st f) - escrow_amount f).

Context (Hinv : inv st Q lim) (Ho : st_orders st !! id = Some o) (Hflip : o_is_flip o = true).

Lemma flip_good : good_order o.
Proof. by apply (i_orders _ _ _ Hinv id o Ho). Qed.

Lemma flip_base : bd_base (book st (o_book_key o)) <> 0.
Proof.
  destruct (i_orders _ _ _ Hinv id o Ho) as (_ & Hin & _). assert (queue Q (key_of o) <> []) as Hne by (intros Hn; rewrite Hn in Hin; by apply not_elem_of_nil in Hin).
  by destruct (i_queues _ _ _ Hinv _ _ (queue_some Q _ Hne)) as (_ & _ & _ & ?).
Qed.

Lemma flip_inv2 : inv st2 Q lim.
Proof. by apply inv_balance. Qed.

Lemma flip_ids : 0 < o_order_id f < st_next st2.
Proof. destruct (i_orders _ _ _ Hinv id o Ho) as (_ & Hin & _). by apply (queue_ids st Q lim Hinv (key_of o)). Qed.

Lemma flip_side : key_of f <> key_of o.
Proof. unfold f, key_of. cbn. intros [=]. by destruct (o_is_bid o). Qed.

Lemma flip_lim x : in_limbo lim (key_of f) x = false.
Proof. cbn. apply bool_decide_false. intros [? _]. by apply flip_side. Qed.

Lemma flip_fresh : fresh Q lim (o_order_id f).
Proof. by apply (limbo_fresh st Q id o r). Qed.

Lemma flip_tail : tl_tail (level st2 (key_of f)) <> o_order_id f.
Proof. apply (tail_fresh' st2 Q lim f flip_inv2 flip_ids flip_lim flip_fresh). Qed.

Lemma settled_flip : settled st Q o lim (commit_st st2 f).
Proof.
  pose proof flip_inv2 as Hinv2. pose proof flip_ids as Hids. pose proof flip_lim as Hlim. pose proof flip_fresh as Hfr. pose proof flip_tail as Htl.
  exists (push Q (key_of f) id). split_and!.
  - apply commit_inv; try done; [by apply flipped_good; [apply flip_good|]|apply flip_base].
  - etrans; [|apply commit_same]. split; done.
  - intros t. rewrite queue_push. rewrite decide_False; [done|]. unfold f, key_of. cbn. intros [=]. by destruct (o_is_bid o).
  - intros key Hk b t. rewrite queue_push. rewrite decide_False; [done|]. unfold f, key_of. cbn. congruence.
  - intros o'. fold id. rewrite commit_orders by apply Htl. rewrite decide_True by done. intros [= <-]. apply flip_side.
  - intros k j Hj _. rewrite commit_orders by apply Htl. rewrite decide_False by done. case_decide; [|done]. change (st_orders st2) with (st_orders st).
    by destruct (st_orders st !! j).
  - intros j Hj Hin. change (st_orders st) with (st_orders st2). apply (commit_live st2 Q lim f Hinv2 Hids Hlim Hfr (key_of o)); [apply not_eq_sym, flip_side|].
    split; [done|]. cbn. apply bool_decide_false. intros [_ ->]. done.
  - intros token. rewrite commit_liabilities by apply Htl. change (st_orders st2) with (st_orders st). change (o_order_id f) with id. rewrite Ho. cbn [term].
    unfold st2 at 1. rewrite liabilities_put. change (owed_order st2) with (owed_order st).
    change (owed_order st token id f) with (if decide (escrow_token st f = token) then escrow_amount f else 0). fold id. destruct (decide (escrow_token st f = token)); lia.
  - rewrite commit_best. rewrite decide_False; [done|]. intros (_ & _ & Hb & _). cbn in Hb. by destruct (o_is_bid o).
  - rewrite commit_level. rewrite decide_False; [done|]. apply not_eq_sym, flip_side.
  - intros k j. rewrite queue_push. case_decide; [|eauto]. intros [?| ->%list_elem_of_singleton]%elem_of_app; [eauto|].
    exists (key_of o). by destruct (i_orders _ _ _ Hinv id o Ho) as (_ & ? & _).
Qed.
End flip.

(** Flipping an order in place. *)
Lemma flip_in_place_ends s st Q o r : is_t5 = true -> holds s st -> inv st Q (Some (key_of o, o_order_id o, r)) -> st_orders st !! o_order_id o = Some o -> o_is_flip o = true ->
  ends (try (flip_in_place o (bd_base (book st (o_book_key o))) (bd_quote (book st (o_book_key o))))) s
    (fun res s' => match res with
       | inl _ => elsewhere s s' /\ exists st', holds s' st' /\ settled st Q o (Some (key_of o, o_order_id o, r)) st'
       | inr _ => s' = s
       end).
Proof.
  intros H5 Hh Hinv Ho Hflip. set (f := create_flipped_order o (o_order_id o)). pose proof (flip_good st Q o r Hinv Ho) as Hgood.
  pose proof (flipped_good o Hgood Hflip) as Hgf. fold f in Hgf. pose proof Hgf as (Hrf & Hremf & _ & [Hvf _] & _).
  apply (ends_try _ _ (fun _ s' => elsewhere s s' /\ exists st', holds s' st' /\ settled st Q o (Some (key_of o, o_order_id o, r)) st')); [by apply t5_t1c| |done|done].
  fold f. apply ends_bind, escrow_of_ends; [cbn in *; lia|done|]. intros e He0 He. cbv beta iota.
  change (if o_is_bid f then bd_quote (book st (o_book_key o)) else bd_base (book st (o_book_key o))) with (escrow_token st f).
  assert (e = escrow_amount f) as -> by exact He. clear He.
  apply ends_bind. eapply ends_acts; [exact Hh|apply balance_of_acts|]. intros s1 Hh1 He1. case_decide as Hlt; [done|].
  apply ends_bind, from_address_ends. intros _. apply ends_bind, ends_view; [apply not_paused_view|]. intros _ _.
  apply ends_bind, ends_view; [apply transfer_authorized_view|]. intros _ _. apply ends_bind, from_address_ends. intros _.
  apply ends_bind, ends_view; [apply not_paused_view|]. intros _ _. apply ends_bind, ends_view; [apply transfer_authorized_view|]. intros _ _.
  ends_by sub_balance_acts; [cbn in *; lia|]. intros s2 Hh2 He2. apply ends_bind.
  pose proof (flip_inv2 st Q o r Hinv) as Hinv2. pose proof (flip_ids st Q o r Hinv Ho) as Hids.
  eapply ends_mono; [|apply (commit_ends s2 _ f false Hh2); [by apply valid_i16|apply Hids|done| |done|]].
  - intros _ s3 [Hh3 He3]. eapply does_ends; [by apply does_emit|]. intros s4 Hh4 He4. split; [do 3 (etrans; [eassumption|]); done|].
    eexists. split; [exact Hh4|]. by apply settled_flip.
  - apply (commit_tail_ok _ Q (Some (key_of o, o_order_id o, r)) f Hinv2); try done; [apply (flip_base st Q o r Hinv Ho)|apply (flip_lim o r)|apply (flip_fresh st Q o r Hinv Ho)].
  - apply (i_index _ _ _ Hinv2). apply (flip_base st Q o r Hinv Ho).
Qed.

(** What becomes of a filled order. *)
Lemma settle_ends s st Q o r credits : is_t5 = true -> holds s st -> inv st Q (Some (key_of o, o_order_id o, r)) -> st_orders st !! o_order_id o = Some o ->
  Forall (fun e => 0 <= e.2) credits ->
  ends (if o_is_flip o then settle_flip credits o (book st (o_book_key o)) else delete_order_and_track_deltas credits o) s
    (fun credits' s' => Forall (fun e => 0 <= e.2) credits' /\ elsewhere s s' /\ exists st', holds s' st' /\ settled st Q o (Some (key_of o, o_order_id o, r)) st').
Proof.
  intros H5 Hh Hinv Ho Hcr.
  assert (forall s', holds s' st -> elsewhere s s' -> ends (delete_order_and_track_deltas credits o) s'
    (fun credits' s' => Forall (fun e => 0 <= e.2) credits' /\ elsewhere s s' /\ exists st', holds s' st' /\ settled st Q o (Some (key_of o, o_order_id o, r)) st')) as Hdel.
  { intros s1 Hh1 He1. destruct (track_does _ s1 st tt _ Hh1 (order_delete_acts st _ _ Ho)) as (c & s2 & Hr2 & Hh2 & He2 & Hc & _).
    unfold delete_order_and_track_deltas, delete_order. apply ends_bind, ends_bind. eapply ends_run; [exact Hr2|apply He2|]. apply ends_ret, ends_ret.
    split_and!; [by apply credit_slots_nonneg|by etrans|]. eexists. split; [exact Hh2|]. by apply settled_delete. }
  destruct (o_is_flip o) eqn:Hflip; [|by apply Hdel]. unfold settle_flip. rewrite H5. apply ends_bind. eapply ends_mono; [|by eapply flip_in_place_ends].
  intros [[]|e] s1.
  - intros (He1 & st' & Hh' & Hset). apply ends_ret. split_and!; eauto.
  - intros ->. destruct (is_system_error e && is_t1a); [done|]. cbn [when]. apply ends_bind. eapply does_ends; [by apply does_emit|]. intros s2 Hh2 He2. by apply Hdel.
Qed.

(** ** The order in front *)

(** The first order of the best level of a side. *)
Definition front (st : Store) (Q : Queues) (key : B256) (is_bid : bool) (o : Order) : Prop :=
  st_orders st !! o_order_id o = Some o /\ o_book_key o = key /\ o_is_bid o = is_bid /\
  head (queue Q (key_of o)) = Some (o_order_id o) /\ best (book st key) is_bid = o_tick o.

(** The next order in line, with its level. *)
Definition in_front (st : Store) (Q : Queues) (key : B256) (is_bid : bool) (next : option (TickLevel * Order)) : Prop :=
  match next with
  | Some (l, o) => front st Q key is_bid o /\ l = level st (key_of o)
  | None => forall t, Q !! (key, is_bid, t) = None
  end.

(** The head of a queue as the order in front. *)
Lemma best_front st Q key b t : inv st Q None -> bd_base (book st key) <> 0 -> is_Some (Q !! (key, b, t)) -> best (book st key) b = t ->
  exists o, front st Q key b o /\ key_of o = (key, b, t) /\ tl_head (level st (key, b, t)) = o_order_id o.
Proof.
  intros Hinv Hbase [q Hq] Hbest. destruct (i_queues _ _ _ Hinv _ _ Hq) as (Hne & _). destruct q as [|id q]; [done|].
  destruct (i_links _ _ _ Hinv _ _ Hq [] id q eq_refl eq_refl) as (o & Ho & Hk & _). destruct (i_orders _ _ _ Hinv id o Ho) as (Hid & _).
  exists o. split_and!; [|done|rewrite (i_levels _ _ _ Hinv), (queue_lookup _ _ _ Hq); by rewrite Hid]. pose proof Hk as [= Hk1 Hk2 Hk3].
  split_and!; [by rewrite Hid|done|done|by rewrite Hk, (queue_lookup _ _ _ Hq), Hid|by rewrite Hk3].
Qed.

Lemma front_queue st Q key b o : front st Q key b o -> exists rest, queue Q (key_of o) = o_order_id o :: rest.
Proof. intros (_ & _ & _ & Hh & _). destruct (queue Q (key_of o)) as [|x q]; [done|]. injection Hh as ->. eauto. Qed.

Lemma front_links st Q key b o rest : inv st Q None -> front st Q key b o -> queue Q (key_of o) = o_order_id o :: rest ->
  o_prev o = 0 /\ o_next o = first_id rest.
Proof.
  intros Hinv (Ho & _) Hq. assert (Q !! key_of o = Some (o_order_id o :: rest)) as Hk by (rewrite <- Hq; apply queue_some; by rewrite Hq).
  destruct (i_links _ _ _ Hinv _ _ Hk [] (o_order_id o) rest eq_refl eq_refl) as (o' & Ho' & _ & Hp & Hn). assert (o' = o) as -> by congruence. done.
Qed.

(** The level an order was the last of. *)
Lemma leave_store st o r : o_prev o = 0 -> o_next o = 0 -> best (book st (o_book_key o)) (o_is_bid o) = o_tick o ->
  shrunk_level (level st (key_of o)) o = mkLevel 0 0 0 ->
  remove_st st o r = put_book (with_bits (put_level st (key_of o) (mkLevel 0 0 0)) (st_bits st ∖ {[key_of o]})) (o_book_key o)
    (set_best (book st (o_book_key o)) (o_is_bid o) (if r.2 then r.1 else no_tick (o_is_bid o))).
Proof.
  intros Hp Hn Hb Hl. unfold remove_st. rewrite Hl. cbn [tl_head]. rewrite (decide_True (P := 0 = 0)) by done. unfold drop_level, unlink_orders. rewrite Hp, Hn.
  rewrite !(decide_False (P := 0 <> 0)) by tauto. rewrite with_orders_id. change (book (with_bits ?a ?x)) with (book a). by rewrite decide_True.
Qed.

Lemma leave_level_ends s st Q o : holds s st -> inv st Q (Some (key_of o, o_order_id o, o_remaining o)) -> queue Q (key_of o) = [o_order_id o] ->
  o_prev o = 0 -> o_next o = 0 -> valid_tick (o_tick o) -> best (book st (o_book_key o)) (o_is_bid o) = o_tick o -> (forall o', st_orders st !! o_order_id o = Some o' -> key_of o' <> key_of o) ->
  ends (leave_level (o_book_key o) o) s (fun next s' => exists r, let st' := remove_st st o r in let Q' := set_queue Q (key_of o) [] in
    holds s' st' /\ elsewhere s s' /\ inv st' Q' None /\ in_front st' Q' (o_book_key o) (o_is_bid o) next).
Proof.
  intros Hh Hinv Hq Hp Hn Hv Hb Hgone. pose proof (valid_i16 _ Hv) as Ht. unfold leave_level. set (key := o_book_key o) in *. set (b := o_is_bid o) in *.
  ends_by delete_level_acts; [done|]. intros s1 Hh1 He1. ends_by delete_tick_bit_acts; [done|]. intros s2 Hh2 He2. cbn [put_level st_bits] in Hh2.
  destruct (next_tick_does s2 _ key (o_tick o) b Hh2 Ht) as (r & (s3 & Hr3 & Hh3 & He3) & Hf). cbn [with_bits st_bits] in Hf.
  apply ends_bind. eapply ends_run; [exact Hr3|apply He3|]. destruct r as [t h]. cbv beta iota.
  assert (is_i16 (if h then t else no_tick b)) as Ht'.
  { unfold no_tick, found, found_below, found_above, valid_tick, is_i16, MIN_TICK, MAX_TICK, i16_min, i16_max in *. cbn in Hf. destruct h, b; lia. }
  apply ends_bind. apply (ends_mono _ _ (fun _ s4 => holds s4 (remove_st st o (t, h)) /\ elsewhere s s4)).
  2: { assert (shrunk_level (level st (key_of o)) o = mkLevel 0 0 0) as Hl.
       { rewrite (pop_level st Q o [] [] (t, h)); try done. by destruct is_t12. }
       rewrite (leave_store st o (t, h)) by done. fold key b.
       assert (forall P : unit -> Evm -> Prop, (forall s4, holds s4 (put_book (with_bits (put_level st (key_of o) (mkLevel 0 0 0)) (st_bits st ∖ {[key_of o]})) key
           (set_best (book st key) b (if h then t else no_tick b))) -> elsewhere s3 s4 -> P tt s4) ->
         ends (if b then write_best_bid_tick (book_slot key) (if h then t else no_tick b) else write_best_ask_tick (book_slot key) (if h then t else no_tick b)) s3 P) as Hw.
       { intros P HP. eapply ends_acts; [exact Hh3|by apply write_best_acts|exact HP]. }
       unfold no_tick in Hw. destruct b; apply Hw; intros s4 Hh4 He4; (split; [done|]; do 3 (etrans; [eassumption|]); done). }
  intros _ s4 [Hh4 He4]. assert (inv (remove_st st o (t, h)) (set_queue Q (key_of o) []) None) as Hinv'.
  { apply (remove_inv st Q o [] [] (t, h)); try done. }
  assert (bd_base (book (remove_st st o (t, h)) key) <> 0) as Hbase.
  { rewrite (proj1 (remove_book st o (t, h) key)). assert (Q !! key_of o = Some [o_order_id o]) as Hk by (rewrite <- Hq; apply queue_some; by rewrite Hq).
    by destruct (i_queues _ _ _ Hinv _ _ Hk) as (_ & _ & _ & ?). }
  assert (best (book (remove_st st o (t, h)) key) b = if h then t else no_tick b) as Hbest.
  { rewrite remove_best. rewrite (pop_level st Q o [] [] (t, h)) by done. rewrite decide_True; [done|]. split_and!; try done. }
  pose proof (i_best _ _ _ Hinv' key b Hbase) as Hbo. rewrite Hbest in Hbo. destruct h.
  - assert (is_Some (set_queue Q (key_of o) [] !! (key, b, t))) as Hs.
    { destruct Hbo as [[? _]|[Hnt _]]; [done|]. exfalso. unfold no_tick, found, found_below, found_above, MIN_TICK, MAX_TICK, i16_min, i16_max in *. cbn in Hf. destruct b; lia. }
    destruct (best_front _ _ key b t Hinv' Hbase Hs Hbest) as (o' & Hfr & Hk' & Hh').
    assert (is_i16 t) as Hti by done. ends_by read_level_acts; [done|]. intros s5 Hh5 He5. rewrite Hh'.
    ends_by read_acts; [apply Hfr|right; f_equal; symmetry; apply Hfr|]. intros s6 Hh6 He6. apply ends_ret. exists (t, true).
    split; [done|]. split; [do 2 (etrans; [eassumption|]); done|]. split; [done|]. split; [done|by rewrite Hk'].
  - apply ends_ret. exists (t, false). split_and!; try done. intros t'. destruct Hbo as [[Hs _]|[_ Hno]]; [|apply Hno].
    exfalso. destruct Hs as [q Hs]. destruct (i_queues _ _ _ Hinv' _ _ Hs) as (_ & _ & Hvt & _). unfold valid_tick, no_tick, MIN_TICK, MAX_TICK, i16_min, i16_max in *. cbn in Hvt. destruct b; lia.
Qed.

Lemma advance_level_ends s st Q o n rest credits l : holds s st -> inv st Q (Some (key_of o, o_order_id o, o_remaining o)) ->
  queue Q (key_of o) = o_order_id o :: n :: rest -> o_prev o = 0 -> o_next o = n -> valid_tick (o_tick o) ->
  best (book st (o_book_key o)) (o_is_bid o) = o_tick o -> (forall o', st_orders st !! o_order_id o = Some o' -> key_of o' <> key_of o) ->
  l = level st (key_of o) -> 0 <= o_remaining o -> Forall (fun e => 0 <= e.2) credits ->
  ends (advance_level credits (o_book_key o) o l (o_remaining o)) s (fun res s' => exists r, let st' := remove_st st o r in let Q' := set_queue Q (key_of o) (n :: rest) in
    holds s' st' /\ elsewhere s s' /\ inv st' Q' None /\ in_front st' Q' (o_book_key o) (o_is_bid o) (Some res.2) /\ Forall (fun e => 0 <= e.2) res.1).
Proof.
  intros Hh Hinv Hq Hp Hn Hv Hb Hgone -> Hrem Hcr. pose proof (valid_i16 _ Hv) as Ht. set (r := (0, false) : i16 * bool). set (lim := Some (key_of o, o_order_id o, o_remaining o)) in *.
  assert (inv (remove_st st o r) (set_queue Q (key_of o) ([] ++ n :: rest)) None) as Hinv' by (by apply remove_inv).
  pose proof (queue_nodup st Q lim Hinv (key_of o)) as Hnd. rewrite Hq in Hnd. apply NoDup_cons in Hnd as [Hnid _].
  assert (0 < n < st_next st) as Hnpos by (apply (queue_ids st Q lim Hinv (key_of o)); rewrite Hq; set_solver).
  destruct (live_order st Q lim Hinv (key_of o) n) as (on & Hon & Hkn).
  { split; [rewrite Hq; set_solver|]. cbn. apply bool_decide_false. intros [_ ->]. set_solver. }
  unfold advance_level. rewrite Hn. destruct (track_does _ s st tt _ Hh (delete_field_acts st n on FPrev Hon)) as (c & s1 & Hr1 & Hh1 & He1 & Hc & _).
  apply ends_bind. eapply ends_run; [exact Hr1|apply He1|]. cbv beta iota.
  assert (remove_st st o r = put_level (with_orders st (<[n := set_prev on 0]> (st_orders st))) (key_of o) (shrunk_level (level st (key_of o)) o)) as Hst.
  { unfold remove_st, unlink_orders, shrunk_level. cbn [tl_head]. rewrite Hp, Hn. rewrite (decide_False (P := 0 <> 0)) by tauto. rewrite (decide_True (P := n <> 0)) by lia.
    rewrite (decide_False (P := n = 0)) by lia. by rewrite (alter_alt_Some _ _ _ on Hon). }
  apply ends_bind. apply (ends_mono _ _ (fun x s2 => s2 = s1 /\ mkLevel n (tl_tail (level st (key_of o))) x = shrunk_level (level st (key_of o)) o /\ is_u128 x /\ (is_t12 = true -> x = 0))).
  2: { destruct (words_level s st (key_of o) Hh Ht) as (_ & _ & Hu & H0t). unfold shrunk_level. rewrite Hp, Hn. rewrite (decide_False (P := 0 <> 0)) by tauto. rewrite (decide_True (P := n <> 0)) by lia.
       destruct is_t12; [apply ends_ret; split_and!; try done; by intros _; apply H0t|]. apply ends_ok_or. intros x Hx. unfold checked_sub in Hx. case_decide; [|done].
       injection Hx as <-. split_and!; try done. unfold is_u128 in *. lia. }
  intros x s1' (-> & Hl & Hx & Hx0). rewrite Hl. destruct (words_level s st (key_of o) Hh Ht) as (_ & Htu & _ & _).
  pose proof (i_next _ _ _ Hinv) as Hnx. assert (level_ranges (shrunk_level (level st (key_of o)) o)) as Hlr.
  { rewrite <- Hl. unfold level_ranges. cbn [tl_head tl_tail tl_total_liquidity]. split_and!; try done. unfold is_u128 in *. lia. }
  ends_by write_level_acts; [done|done|]. intros s2 Hh2 He2. change (o_book_key o, o_is_bid o, o_tick o) with (key_of o) in Hh2.
  cbn [set_field_of] in Hh2. rewrite <- Hst in Hh2. assert (st_orders (remove_st st o r) !! n = Some (set_prev on 0)) as Hon'.
  { rewrite Hst. cbn [put_level with_orders st_orders]. by rewrite lookup_insert_eq. }
  pose proof Hkn as [= Hk1 Hk2 Hk3]. destruct (i_orders _ _ _ Hinv n on Hon) as (Hnid' & _). 
  ends_by read_acts; [exact Hon'|right; by rewrite <- Hk1|]. intros s3 Hh3 He3. apply ends_ret. exists r. cbn [fst snd]. split; [done|].
  split; [do 2 (etrans; [eassumption|]); done|]. split; [done|]. split; [|by apply credit_slots_nonneg]. split.
  - split_and!; cbn [set_prev o_order_id o_book_key o_is_bid o_tick]; [by rewrite Hnid'|done|done| |].
    + change (key_of (set_prev on 0)) with (key_of on). rewrite Hkn, queue_set, decide_True by done. by rewrite Hnid'.
    + rewrite Hk3. rewrite remove_best. rewrite decide_False; [done|]. intros (Hz & _). rewrite <- Hl in Hz. cbn in Hz. lia.
  - change (key_of (set_prev on 0)) with (key_of on). rewrite Hkn, remove_level. by rewrite decide_True.
Qed.

Lemma core_alter (orders : gmap u128 Order) f i j : (forall o, core (f o) = core o) -> core <$> alter f i orders !! j = core <$> orders !! j.
Proof. intros Hf. rewrite lookup_alter. case_decide as Hd; [|done]. subst. destruct (orders !! j); cbn; [by rewrite Hf|done]. Qed.

Lemma remove_core st o r j : core <$> st_orders (remove_st st o r) !! j = core <$> st_orders st !! j.
Proof. rewrite (proj1 (remove_fields st o r)). unfold unlink_orders. repeat case_decide; rewrite ?core_alter; done. Qed.

Lemma remove_same st o r : same_tokens st (remove_st st o r).
Proof. split; [intros key; by destruct (remove_book st o r key) as (? & ? & _)|]. by destruct (remove_fields st o r) as (_ & ? & _). Qed.

Lemma remove_liabilities st o r token : liabilities (remove_st st o r) token = liabilities st token.
Proof.
  unfold liabilities. destruct (remove_fields st o r) as (-> & _ & _ & ->). f_equal.
  rewrite (msum_ext _ (owed_order st token)) by (intros; apply same_tokens_owed, remove_same).
  unfold unlink_orders. repeat case_decide; rewrite ?msum_alter; done.
Qed.

(** ** Paying the maker *)

Lemma increment_ends s st u t v : holds s st -> 0 <= v ->
  ends (increment_balance u t v) s (fun _ s' => holds s' (put_balance st u t (balance st u t + v)) /\ elsewhere s s').
Proof.
  intros Hh Hv. unfold increment_balance. ends_by balance_of_acts. intros s1 Hh1 He1. apply ends_bind, ends_ok_or. intros x Hx.
  unfold checked_add in Hx. case_decide as Hmax; [|done]. injection Hx as <-. destruct Hh as (_ & _ & cr & Hw). destruct (w_balances _ _ _ Hw u t) as [_ Hb].
  eapply ends_acts; [exact Hh1|apply set_balance_acts; unfold is_u128 in *; lia|]. intros s2 Hh2 He2. split; [done|by etrans].
Qed.

Definition pay (st : Store) (o : Order) (fill : u128) : Store :=
  put_balance st (o_maker o) (paid_token st o) (balance st (o_maker o) (paid_token st o) + paid_amount o fill).

Lemma pay_liabilities st o fill token : liabilities (pay st o fill) token = liabilities st token + if decide (paid_token st o = token) then paid_amount o fill else 0.
Proof. unfold pay. rewrite liabilities_put. case_decide; lia. Qed.

Lemma pay_full_ends s st o : holds s st -> valid_tick (o_tick o) -> 0 <= o_remaining o ->
  ends (if o_is_bid o then
          _ ← increment_balance (o_maker o) (bd_base (book st (o_book_key o))) (o_remaining o);
          ok_or under_overflow (base_to_quote (o_remaining o) (o_tick o) Down)
        else
          quote_amount ← ok_or under_overflow (base_to_quote (o_remaining o) (o_tick o) Up);
          _ ← increment_balance (o_maker o) (bd_quote (book st (o_book_key o))) quote_amount;
          mret (o_remaining o)) s
    (fun out s' => out = output_amount o (o_remaining o) /\ holds s' (pay st o (o_remaining o)) /\ elsewhere s s').
Proof.
  intros Hh Hv Hr. unfold pay, output_amount, paid_amount, paid_token. destruct (o_is_bid o).
  - apply ends_bind. eapply ends_mono; [|by apply increment_ends]. intros _ s1 [Hh1 He1]. apply ends_ok_or. intros q [-> _]%base_to_quote_Some. done.
  - apply ends_bind, ends_ok_or. intros q [-> _]%base_to_quote_Some. apply ends_bind. eapply ends_mono; [|apply increment_ends; [done|by apply quote_up_nonneg]].
    intros _ s1 [Hh1 He1]. by apply ends_ret.
Qed.

(** ** A full fill *)

(** The order in front of the side is gone, its maker is paid; the orders behind
    it are as they were. *)
Definition filled_order (st : Store) (Q : Queues) (o : Order) (st' : Store) (Q' : Queues) : Prop :=
  inv st' Q' None /\ same_tokens st st' /\
  (forall t, queue Q' (o_book_key o, o_is_bid o, t) = if decide (t = o_tick o) then tail (queue Q (key_of o)) else queue Q (o_book_key o, o_is_bid o, t)) /\
  (forall key, key <> o_book_key o -> forall b t, queue Q' (key, b, t) = queue Q (key, b, t)) /\
  (forall k id, id <> o_order_id o -> id ∈ queue Q k -> core <$> st_orders st' !! id = core <$> st_orders st !! id) /\
  (forall token, liabilities st' token =
     liabilities st token + (if decide (paid_token st o = token) then paid_amount o (o_remaining o) else 0) - owed_order st token (o_order_id o) o) /\
  (forall k id, id ∈ queue Q' k -> exists k', id ∈ queue Q k').

Lemma filled_intro st Q o rest st2 Q2 lim r : inv st Q None -> queue Q (key_of o) = o_order_id o :: rest ->
  settled (pay st o (o_remaining o)) Q o lim st2 -> inv st2 Q2 lim ->
  (forall t, queue Q2 (o_book_key o, o_is_bid o, t) = queue Q (o_book_key o, o_is_bid o, t)) ->
  (forall key, key <> o_book_key o -> forall b t, queue Q2 (key, b, t) = queue Q (key, b, t)) ->
  (forall k id, id ∈ queue Q2 k -> exists k', id ∈ queue Q k') ->
  inv (remove_st st2 o r) (set_queue Q2 (key_of o) rest) None -> filled_order st Q o (remove_st st2 o r) (set_queue Q2 (key_of o) rest).
Proof.
  intros Hinv Hq (_ & _ & Hsame & _ & _ & _ & Hcore & _ & Hliab & _) _ Hside Hother Hids Hinv'. split_and!.
  - done.
  - etrans; [|apply remove_same]. etrans; [|exact Hsame]. split; done.
  - intros t. rewrite queue_set. destruct (decide (t = o_tick o)) as [-> |Hne]; [rewrite decide_True by done; by rewrite Hq|].
    rewrite decide_False by (unfold key_of; congruence). apply Hside.
  - intros key Hk b t. rewrite queue_set. unfold key_of. rewrite decide_False by congruence. by apply Hother.
  - intros k id Hid Hin. rewrite remove_core. by apply (Hcore k).
  - intros token. rewrite remove_liabilities, Hliab, pay_liabilities. change (owed_order (pay st o (o_remaining o))) with (owed_order st). done.
  - intros k id. rewrite queue_set. case_decide; [|apply Hids]. intros Hin. exists (key_of o). rewrite Hq. by right.
Qed.

Lemma fill_order_ends s st Q key b o l credits taker : is_t5 = true -> holds s st -> inv st Q None -> front st Q key b o -> l = level st (key_of o) ->
  Forall (fun e => 0 <= e.2) credits ->
  ends (fill_order credits key o l taker) s (fun res s' => exists st' Q', holds s' st' /\ elsewhere s s' /\ filled_order st Q o st' Q' /\
    Forall (fun e => 0 <= e.2) res.1 /\ res.2.1 = output_amount o (o_remaining o) /\ in_front st' Q' key b res.2.2).
Proof.
  intros H5 Hh Hinv Hfr Hl Hcr. pose proof Hfr as (Ho & Hkey & Hside & _ & Hbest). destruct (front_queue _ _ _ _ _ Hfr) as [rest Hq].
  destruct (front_links _ _ _ _ _ rest Hinv Hfr Hq) as [Hp Hn]. destruct (i_orders _ _ _ Hinv _ o Ho) as (_ & _ & _ & Hrem & _ & [Hv _] & _).
  unfold fill_order. rewrite <- Hkey. ends_by read_data_acts. intros s1 Hh1 He1.
  apply ends_bind. eapply ends_mono; [|by apply pay_full_ends; [..|lia]]. intros out s2 (-> & Hh2 & He2).
  apply ends_bind. eapply does_ends; [by apply does_emit|]. intros s3 Hh3 He3. set (st1 := pay st o (o_remaining o)) in *.
  set (lim := Some (key_of o, o_order_id o, o_remaining o) : Limbo). assert (inv st1 Q lim) as Hinv1 by (by apply inv_balance, enter_limbo).
  apply ends_bind. eapply ends_mono; [|apply (settle_ends s3 st1 Q o (o_remaining o) credits); done].
  intros credits' s4 (Hcr' & He4 & st2 & Hh4 & Hset). pose proof Hset as (Q2 & Hinv2 & Hsame & Hqs & Hqo & Hgone & _ & _ & _ & Hb2 & Hl2 & Hids2).
  assert (elsewhere s s4) as He by (do 3 (etrans; [eassumption|]); done).
  assert (queue Q2 (key_of o) = o_order_id o :: rest) as Hq2 by (rewrite <- Hq; apply Hqs).
  assert (best (book st2 (o_book_key o)) (o_is_bid o) = o_tick o) as Hbest2.
  { rewrite Hb2. change (book st1) with (book st). by rewrite Hkey, Hside. }
  destruct rest as [|n rest].
  - rewrite decide_True by done. apply ends_bind. eapply ends_mono; [|by apply (leave_level_ends s4 st2 Q2)].
    intros next s5 (r & Hh5 & He5 & Hinv5 & Hnext). apply ends_ret. exists (remove_st st2 o r), (set_queue Q2 (key_of o) []).
    split_and!; [done|by etrans|by eapply filled_intro|done|done|]. by rewrite <- Hside.
  - assert (0 < n) as Hnpos by (apply (queue_ids st Q None Hinv (key_of o)); rewrite Hq; set_solver).
    rewrite decide_False by (rewrite Hn; cbn; lia). apply ends_bind.
    eapply ends_mono; [|apply (advance_level_ends s4 st2 Q2 o n rest credits' l); try done; [by rewrite Hl, Hl2|lia]].
    intros [c next] s5 (r & Hh5 & He5 & Hinv5 & Hnext & Hcr5). apply ends_ret. exists (remove_st st2 o r), (set_queue Q2 (key_of o) (n :: rest)).
    split_and!; [done|by etrans|by eapply filled_intro|done|done|]. by rewrite <- Hside.
Qed.

(** ** A partial fill *)

Definition partial_st (st : Store) (o : Order) (fill : u128) : Store :=
  let l := level st (key_of o) in
  let st := with_orders st (<[o_order_id o := set_remaining o (o_remaining o - fill)]> (st_orders st)) in
  let st := pay st o fill in
  if is_t12 then st else put_level st (key_of o) (mkLevel (tl_head l) (tl_tail l) (tl_total_liquidity l - fill)).

Lemma partial_fields st o fill : st_orders (partial_st st o fill) = <[o_order_id o := set_remaining o (o_remaining o - fill)]> (st_orders st) /\
  st_books (partial_st st o fill) = st_books st /\ st_bits (partial_st st o fill) = st_bits st /\ st_next (partial_st st o fill) = st_next st /\
  st_keys (partial_st st o fill) = st_keys st.
Proof. unfold partial_st. by destruct is_t12. Qed.

Lemma partial_book st o fill key : book (partial_st st o fill) key = book st key.
Proof. unfold book. by destruct (partial_fields st o fill) as (_ & -> & _). Qed.

Lemma partial_same st o fill : same_tokens st (partial_st st o fill).
Proof. split; [intros key; by rewrite partial_book|]. by destruct (partial_fields st o fill) as (_ & _ & _ & -> & _). Qed.

Lemma partial_liabilities st o fill token : st_orders st !! o_order_id o = Some o ->
  liabilities (partial_st st o fill) token = liabilities st token + (if decide (paid_token st o = token) then paid_amount o fill else 0)
    - owed_order st token (o_order_id o) o + owed_order st token (o_order_id o) (set_remaining o (o_remaining o - fill)).
Proof.
  intros Ho. assert (liabilities (partial_st st o fill) token = liabilities (pay (with_orders st (<[o_order_id o := set_remaining o (o_remaining o - fill)]> (st_orders st))) o fill) token) as ->
    by (unfold partial_st; by destruct is_t12).
  rewrite pay_liabilities. unfold liabilities. cbn [with_orders st_balances st_orders]. change (owed_order (with_orders ?a ?b)) with (owed_order a).
  change (paid_token (with_orders ?a ?b)) with (paid_token a). rewrite msum_insert, Ho. cbn [term]. lia.
Qed.

Lemma partial_remaining st o fill j : j <> o_order_id o -> remaining_of (st_orders (partial_st st o fill)) j = remaining_of (st_orders st) j.
Proof. intros Hj. destruct (partial_fields st o fill) as (-> & _). unfold remaining_of. by rewrite lookup_insert_ne. Qed.

(** The liquidity of a queue with the order in it once. *)
Lemma partial_liquidity st Q o fill q : inv st Q None -> st_orders st !! o_order_id o = Some o -> NoDup q -> o_order_id o ∈ q -> forall k,
  liquidity (st_orders (partial_st st o fill)) None k q = liquidity (st_orders st) None k q - fill.
Proof.
  intros Hinv Ho Hnd Hin k. apply list_elem_of_split in Hin as (pre & post & ->). apply NoDup_app in Hnd as (_ & Hd & [Hn _]%NoDup_cons).
  rewrite !liquidity_app, !liquidity_cons.
  assert (forall q', o_order_id o ∉ q' -> liquidity (st_orders (partial_st st o fill)) None k q' = liquidity (st_orders st) None k q') as Heq.
  { intros q' Hq'. apply liquidity_ext. intros x Hx. apply partial_remaining. by intros ->. }
  rewrite !Heq; [|done|intros Hp; apply (Hd _ Hp); by left]. cbn [left_of]. unfold remaining_of. destruct (partial_fields st o fill) as (-> & _).
  rewrite lookup_insert_eq, Ho. cbn. lia.
Qed.

Lemma partial_inv st Q o fill : inv st Q None -> st_orders st !! o_order_id o = Some o -> 0 <= fill < o_remaining o -> inv (partial_st st o fill) Q None.
Proof.
  intros Hinv Ho Hfill. pose proof Hinv as [Ha1 Ha2 Ha3 Ha4 Ha5 Ha6 Ha7 Ha8 Ha9]. destruct (partial_fields st o fill) as (Hfo & Hfb & Hfbits & Hfn & Hfk).
  destruct (Ha5 _ _ Ho) as (_ & Hin & Hgood). assert (forall k, o_order_id o ∈ queue Q k -> k = key_of o) as Honly.
  { intros k Hk. by apply (record_queue st Q None Hinv (o_order_id o)). }
  split.
  - intros k q Hk. rewrite partial_book. by apply Ha1.
  - intros k. assert (level (partial_st st o fill) k = mkLevel (tl_head (level st k)) (tl_tail (level st k))
      (if is_t12 then tl_total_liquidity (level st k) else tl_total_liquidity (level st k) - if decide (k = key_of o) then fill else 0)) as ->.
    { unfold partial_st. destruct is_t12; [change (level (pay ?a ?b ?c)) with (level a); change (level (with_orders ?a ?b)) with (level a); by destruct (level st k)|].
      rewrite level_put. case_decide; [by subst|]. change (level (pay ?a ?b ?c)) with (level a). change (level (with_orders ?a ?b)) with (level a).
      rewrite Z.sub_0_r. by destruct (level st k). }
    rewrite Ha2. cbn [tl_head tl_tail tl_total_liquidity]. f_equal. destruct is_t12; [done|]. case_decide as Hk.
    + subst k. symmetry. apply (partial_liquidity st Q); [done|done|apply (queue_nodup st Q None Hinv)|done].
    + rewrite Z.sub_0_r. symmetry. apply liquidity_ext. intros x Hx. apply partial_remaining. intros ->. by apply Hk, Honly.
  - by rewrite Hfbits.
  - intros k q Hk pre x post Hq Hlim. rewrite Hfo. destruct (Ha4 k q Hk pre x post Hq Hlim) as (ox & Hox & Hkx & Hpx & Hnx).
    destruct (decide (x = o_order_id o)) as [-> |Hne]; [|exists ox; by rewrite lookup_insert_ne].
    assert (ox = o) as -> by congruence. exists (set_remaining o (o_remaining o - fill)). by rewrite lookup_insert_eq.
  - intros x ox. rewrite Hfo. destruct (decide (x = o_order_id o)) as [-> |Hne]; [|rewrite lookup_insert_ne by done; apply Ha5].
    rewrite lookup_insert_eq. intros [= <-]. split_and!; [done|done|]. destruct Hgood as (Hr & Hrem & Hg). split; [|split; [cbn; lia|done]].
    apply (field_ranges FRemaining); [done|]. destruct Hr as (_ & _ & _ & _ & Hu & _). unfold is_u128 in *. lia.
  - intros k q x Hk Hx. rewrite Hfn. by apply (Ha6 k q).
  - intros key b. rewrite partial_book. apply Ha7.
  - intros key. rewrite partial_book, Hfk. apply Ha8.
  - by rewrite Hfn.
Qed.

Lemma partial_fill_ends s st Q o fill taker : holds s st -> inv st Q None -> st_orders st !! o_order_id o = Some o -> 0 <= fill < o_remaining o ->
  ends (partial_fill_order o (level st (key_of o)) fill taker) s (fun out s' => out = output_amount o fill /\ holds s' (partial_st st o fill) /\ elsewhere s s').
Proof.
  intros Hh Hinv Ho Hfill. destruct (i_orders _ _ _ Hinv _ o Ho) as (_ & _ & (Hru & Hrem & _ & [Hv _] & _)). pose proof (valid_i16 _ Hv) as Ht.
  destruct (words_level s st (key_of o) Hh Ht) as (Hl1 & Hl2 & Hl3 & Hl4).
  assert (is_u128 (o_remaining o - fill)) as Hu by (destruct Hru as (_ & _ & _ & _ & Hu & _); unfold is_u128 in *; lia).
  unfold partial_fill_order. ends_by read_data_acts. intros s1 Hh1 He1. apply ends_bind2.
  eapply ends_acts; [exact Hh1|by apply (write_field_acts st _ o FRemaining)|]. intros s2 Hh2 He2. set (st2 := with_orders st _) in *.
  apply ends_bind, ends_ok_or. intros q Hq. apply base_to_quote_Some in Hq as [Hq _].
  apply ends_bind. apply (ends_mono _ _ (fun _ s3 => holds s3 (pay st2 o fill) /\ elsewhere s2 s3)).
  2: { unfold pay, paid_token, paid_amount. change (book st2) with (book st). destruct (o_is_bid o); [apply increment_ends; [done|lia]|].
       rewrite Hq. apply increment_ends; [done|]. apply quote_up_nonneg; [done|lia]. }
  intros _ s3 [Hh3 He3]. apply ends_bind. apply (ends_mono _ _ (fun _ s4 => holds s4 (partial_st st o fill) /\ elsewhere s3 s4)).
  2: { unfold partial_st. cbn [set_field_of] in st2. fold st2. destruct is_t12 eqn:E12; cbn [negb when]; [done|]. apply ends_bind, ends_ok_or. intros x Hx. unfold checked_sub in Hx. case_decide; [|done].
       injection Hx as <-. eapply ends_acts; [exact Hh3|apply write_level_acts; [done|]|done]. unfold level_ranges. cbn [tl_head tl_tail tl_total_liquidity].
       split_and!; try done; [unfold is_u128 in *; lia|congruence]. }
  intros _ s4 [Hh4 He4]. apply ends_bind. eapply does_ends; [by apply does_emit|]. intros s5 Hh5 He5. apply ends_ret.
  split_and!; [unfold output_amount; by destruct (o_is_bid o)|done|]. do 4 (etrans; [eassumption|]). done.
Qed.
End fill.
