(* ===== verification/DexSwap.v ===== *)
(** * Lines of orders and swaps

    The orders of a side of a book in price-time priority: by tick, from the best
    one, and in a tick by the time they were placed. What matching an amount
    against that line gives is the reference swaps and quotes are compared with.
    A swap fills orders from the front of a side until the amount is used up: it
    returns, whatever the orders, and the exchange never pays out more of a token
    than it took in or gave up owing. *)

From stdpp Require Import prelude gmap list strings.
From S2P Require Import Prelude TempoEvm DexTypes DexBook DexCredits Dex DexStore DexOrders.
From S2P Require Import DexHolds DexPrice DexInv DexCommit DexCancel DexPlace.
From S2P Require Import DexFill.

#[local] Open Scope Z_scope.

(** ** Ticks in order of priority *)

Definition all_ticks (is_bid : bool) : list i16 :=
  let ts := seqZ MIN_TICK (MAX_TICK - MIN_TICK + 1) in if is_bid then reverse ts else ts.

(** The orders of some ticks, and of them all. *)
Definition line_of (Q : Queues) (key : B256) (is_bid : bool) (ts : list i16) : list u128 := mjoin ((fun t => queue Q (key, is_bid, t)) <$> ts).
Definition line (Q : Queues) (key : B256) (is_bid : bool) : list u128 := line_of Q key is_bid (all_ticks is_bid).

(** An order without its links. *)
Definition line_orders (st : Store) (Q : Queues) (key : B256) (is_bid : bool) : list Order :=
  omap (fun id => core <$> st_orders st !! id) (line Q key is_bid).

(** An amount matched against the orders of a line, one [step] each. *)
Fixpoint match_line (step : u128 -> Order -> bool -> option OrderStep) (is_bid : bool) (os : list Order) (amount total : u128)
    : Res TempoPrecompileError u128 :=
  if decide (amount <= 0) then Ok total
  else
    match os with
    | [] => Err err_insufficient_liquidity
    | o :: os =>
        match step amount o is_bid with
        | None => Err under_overflow
        | Some s =>
            match checked_add u128_max total (st_accumulate s) with
            | None => Err under_overflow
            | Some total => if decide (st_fill_amount s < o_remaining o) then Ok total else match_line step is_bid os (st_next_amount s) total
            end
        end
    end.

Definition beyond (b : bool) (t t' : i16) : Prop := if b then t' < t else t < t'.

Lemma ticks_split b t : valid_tick t -> exists l1 l2, all_ticks b = l1 ++ t :: l2 /\
  (forall x, x ∈ l1 <-> valid_tick x /\ beyond b x t) /\ (forall x, x ∈ l2 <-> valid_tick x /\ beyond b t x).
Proof.
  intros Hv. unfold valid_tick in *. set (a := seqZ MIN_TICK (t - MIN_TICK)). set (c := seqZ (t + 1) (MAX_TICK - t)).
  assert (seqZ MIN_TICK (MAX_TICK - MIN_TICK + 1) = a ++ t :: c) as Hs.
  { replace (MAX_TICK - MIN_TICK + 1) with ((t - MIN_TICK) + (MAX_TICK - t + 1)) by lia. rewrite seqZ_app by lia. f_equal.
    replace (MIN_TICK + (t - MIN_TICK)) with t by lia. rewrite seqZ_cons by lia. unfold c. do 2 f_equal; lia. }
  unfold all_ticks. cbv zeta. rewrite Hs. destruct b.
  - exists (reverse c), (reverse a). rewrite reverse_app, reverse_cons, <- app_assoc. split; [done|]. unfold beyond, a, c.
    split; intros x; rewrite elem_of_reverse, elem_of_seqZ; lia.
  - exists a, c. split; [done|]. unfold beyond, a, c. split; intros x; rewrite elem_of_seqZ; lia.
Qed.

Lemma line_of_app Q key b l1 l2 : line_of Q key b (l1 ++ l2) = line_of Q key b l1 ++ line_of Q key b l2.
Proof. unfold line_of. by rewrite fmap_app, join_app. Qed.

Lemma line_of_cons Q key b t l : line_of Q key b (t :: l) = queue Q (key, b, t) ++ line_of Q key b l.
Proof. done. Qed.

Lemma line_of_nil Q key b l : (forall t, t ∈ l -> queue Q (key, b, t) = []) -> line_of Q key b l = [].
Proof. induction l as [|t l IH]; [done|]. intros Hl. rewrite line_of_cons, Hl, IH by set_solver. done. Qed.

Lemma line_of_ext Q Q' key b l : (forall t, t ∈ l -> queue Q' (key, b, t) = queue Q (key, b, t)) -> line_of Q' key b l = line_of Q key b l.
Proof. induction l as [|t l IH]; [done|]. intros Hl. rewrite !line_of_cons, Hl, IH by set_solver. done. Qed.

Lemma elem_line Q key b l id : id ∈ line_of Q key b l <-> exists t, t ∈ l /\ id ∈ queue Q (key, b, t).
Proof.
  unfold line_of. rewrite list_elem_of_join. setoid_rewrite list_elem_of_fmap. split.
  - intros (q & Hid & t & -> & Ht). eauto.
  - intros (t & Ht & Hid). eauto.
Qed.

Lemma beyond_irrefl b t : ~ beyond b t t.
Proof. destruct b; cbn; lia. Qed.

Lemma beyond_ahead b t t' : ahead b t t' -> ~ beyond b t' t.
Proof. destruct b; cbn; lia. Qed.

(** ** The line of a book *)

Section line.
Context `{TempoSpec} `{TempoAddresses} `{Keccak} `{TIP20} `{TIP20Spec} `{!TIP20Ok}.

(** The level of the best tick comes first. *)
Lemma line_best Q key b t : valid_tick t -> (forall t', is_Some (Q !! (key, b, t')) -> ahead b t t') ->
  exists l, (t ∉ l) /\ line Q key b = queue Q (key, b, t) ++ line_of Q key b l /\
    forall Q', (forall t', t' <> t -> queue Q' (key, b, t') = queue Q (key, b, t')) -> line Q' key b = queue Q' (key, b, t) ++ line_of Q key b l.
Proof.
  intros Hv Hb. destruct (ticks_split b t Hv) as (l1 & l2 & Heq & Hl1 & Hl2). exists l2.
  assert ((t ∉ l1) /\ (t ∉ l2)) as [Hn1 Hn2] by (split; [rewrite Hl1|rewrite Hl2]; intros [_ Hx]; by apply beyond_irrefl in Hx).
  assert (forall Q', (forall t', t' <> t -> queue Q' (key, b, t') = queue Q (key, b, t')) -> line Q' key b = queue Q' (key, b, t) ++ line_of Q key b l2) as Hall.
  { intros Q' HQ. unfold line. rewrite Heq, line_of_app, line_of_cons. rewrite (line_of_nil _ _ _ l1).
    - cbn. f_equal. apply line_of_ext. intros t' Ht'. apply HQ. set_solver.
    - intros t' [Hvt Hbt]%Hl1. rewrite HQ by (intros ->; by apply beyond_irrefl in Hbt). unfold queue.
      destruct (Q !! (key, b, t')) eqn:E; [|done]. exfalso. apply (beyond_ahead b t t'); [apply Hb; by rewrite E|done]. }
  split_and!; [done|by apply Hall|done].
Qed.

Lemma line_empty Q key b : (forall t, Q !! (key, b, t) = None) -> line Q key b = [].
Proof. intros Hn. apply line_of_nil. intros t _. unfold queue. by rewrite Hn. Qed.

Lemma front_line st Q key b o : inv st Q None -> front st Q key b o -> exists rest, line Q key b = o_order_id o :: rest /\
  forall Q', (forall t, queue Q' (key, b, t) = if decide (t = o_tick o) then tail (queue Q (key_of o)) else queue Q (key, b, t)) -> line Q' key b = rest.
Proof.
  intros Hinv Hfr. destruct (front_queue _ _ _ _ _ Hfr) as [q Hq]. destruct Hfr as (Ho & Hk & Hb & _ & Hbest).
  assert (key_of o = (key, b, o_tick o)) as Hko by (unfold key_of; by rewrite Hk, Hb).
  assert (Q !! (key, b, o_tick o) = Some (o_order_id o :: q)) as Hl by (rewrite <- Hko, <- Hq; apply queue_some; by rewrite Hq).
  destruct (i_queues _ _ _ Hinv _ _ Hl) as (_ & _ & Hv & Hbase). cbn in Hv, Hbase.
  destruct (i_best _ _ _ Hinv key b Hbase) as [[_ Hah]|[_ Hno]]; [|by rewrite Hno in Hl]. rewrite Hbest in Hah.
  destruct (line_best Q key b (o_tick o) Hv Hah) as (l & _ & Heq & Hall). rewrite (queue_lookup _ _ _ Hl) in Heq.
  exists (q ++ line_of Q key b l). split; [done|]. intros Q' HQ. rewrite Hall.
  - by rewrite HQ, decide_True, Hq.
  - intros t Ht. by rewrite HQ, decide_False.
Qed.

Lemma line_in Q key b id : id ∈ line Q key b -> exists t, id ∈ queue Q (key, b, t).
Proof. intros (t & _ & Hid)%elem_line. eauto. Qed.

(** The orders of the line with the cores they had. *)
Lemma line_orders_ext st st' (l : list u128) : (forall id, id ∈ l -> core <$> st_orders st' !! id = core <$> st_orders st !! id) ->
  omap (fun id => core <$> st_orders st' !! id) l = omap (fun id => core <$> st_orders st !! id) l.
Proof. induction l as [|id l IH]; [done|]. intros Hl. cbn. rewrite Hl, IH by set_solver. done. Qed.

Lemma line_nodup st Q lim key b : inv st Q lim -> (forall k id, in_limbo lim k id = false) -> NoDup (line Q key b).
Proof.
  intros Hinv Hlim. unfold line. assert (NoDup (all_ticks b)) as Hnd by (unfold all_ticks; destruct b; [rewrite reverse_Permutation|]; apply NoDup_seqZ).
  induction (all_ticks b) as [|t l IH]; [constructor|]. apply list.NoDup_cons in Hnd as [Hn Hnd]. rewrite line_of_cons. apply NoDup_app. split_and!.
  - by apply (queue_nodup st Q lim Hinv).
  - intros id Hid (t' & Ht' & Hid')%elem_line. destruct (live_order st Q lim Hinv (key, b, t) id) as (o & Ho & Hk); [by split|].
    assert ((key, b, t') = key_of o) as Hk' by (by apply (record_queue st Q lim Hinv id o)). rewrite Hk in Hk'. by injection Hk' as ->.
  - by apply IH.
Qed.

Lemma line_orders_length st Q key b : inv st Q None -> length (line_orders st Q key b) = length (line Q key b).
Proof.
  intros Hinv. unfold line_orders. assert (forall id, id ∈ line Q key b -> is_Some (core <$> st_orders st !! id)) as Hl.
  { intros id (t & Hid)%line_in. destruct (live_order st Q None Hinv (key, b, t) id) as (o & Ho & _); [by split|]. rewrite Ho. by eexists. }
  induction (line Q key b) as [|id l IH]; [done|]. cbn. destruct (Hl id) as [c Hc]; [set_solver|]. rewrite Hc. cbn. f_equal. apply IH. set_solver.
Qed.

Lemma line_size st Q key b : inv st Q None -> (length (line Q key b) <= size (st_orders st))%nat.
Proof.
  intros Hinv. rewrite <- size_dom. rewrite <- (size_list_to_set (C := gset u128) (line Q key b)) by (by eapply line_nodup). apply subseteq_size.
  intros id Hid%elem_of_list_to_set. apply line_in in Hid as [t Hid]. destruct (live_order st Q None Hinv (key, b, t) id) as (o & Ho & _); [by split|].
  apply elem_of_dom. by exists o.
Qed.
End line.

(** ** One order *)

(** What a step of a swap fills of an order, and what it leaves to the next. *)
Lemma step_in_spec amount o s : 0 <= amount -> valid_tick (o_tick o) -> 0 <= o_remaining o -> step_exact_in amount o (o_is_bid o) = Some s ->
  0 <= st_fill_amount s <= o_remaining o /\ 0 <= st_next_amount s /\ st_accumulate s = output_amount o (st_fill_amount s) /\
  paid_amount o (st_fill_amount s) + st_next_amount s <= amount.
Proof.
  intros Ha Hv Hr. unfold step_exact_in, taker_output, output_amount, paid_amount. destruct (o_is_bid o).
  - cbn [mbind option_bind]. intros (q & Hq & [= <-])%bind_Some. apply base_to_quote_Some in Hq as [-> _]. cbn. unfold saturating_sub. lia.
  - intros ([f n] & (base & Hb & (n' & Hn & [= <- <-])%bind_Some)%bind_Some & [= <-])%bind_Some. apply quote_to_base_Some in Hb as [-> _]. cbn.
    pose proof (base_down_nonneg _ Hv amount Ha). pose proof (payment_covers _ Hv amount). case_decide.
    + apply bind_Some in Hn as (q & [-> _]%base_to_quote_Some & Hn). unfold checked_sub in Hn. case_decide; [|done]. injection Hn as <-. rewrite Z.min_r by lia. lia.
    + injection Hn as <-. rewrite Z.min_l by lia. lia.
Qed.

Lemma step_out_spec amount o s : 0 <= amount -> valid_tick (o_tick o) -> 0 <= o_remaining o -> step_exact_out amount o (o_is_bid o) = Some s ->
  0 <= st_fill_amount s <= o_remaining o /\ 0 <= st_next_amount s <= amount /\ st_accumulate s = paid_amount o (st_fill_amount s) /\
  amount <= output_amount o (st_fill_amount s) + st_next_amount s.
Proof.
  intros Ha Hv Hr. unfold step_exact_out, taker_output, output_amount, paid_amount. destruct (o_is_bid o).
  - intros ([[f acc] dem] & (base & Hb & [= <- <- <-])%bind_Some & (n & Hn & [= <-])%bind_Some)%bind_Some. apply quote_to_base_Some in Hb as [-> _]. cbn.
    pose proof (base_up_nonneg _ Hv amount Ha). pose proof (sale_covers _ Hv amount). pose proof (quote_down_nonneg _ Hv _ Hr). case_decide.
    + apply bind_Some in Hn as (q & [-> _]%base_to_quote_Some & Hn). unfold checked_sub in Hn. case_decide; [|done]. injection Hn as <-. rewrite Z.min_r by lia. lia.
    + injection Hn as <-. rewrite Z.min_l by lia. lia.
  - intros ([[f acc] dem] & (q & Hq & [= <- <- <-])%bind_Some & (n & Hn & [= <-])%bind_Some)%bind_Some. apply base_to_quote_Some in Hq as [-> _]. cbn.
    case_decide; [cbn in Hn; unfold checked_sub in Hn; case_decide; [|done]|]; injection Hn as <-; lia.
Qed.

(** The links of an order do not matter. *)
Lemma step_in_core b amount o : step_exact_in amount (core o) b = step_exact_in amount o b.
Proof. done. Qed.

Lemma step_out_core b amount o : step_exact_out amount (core o) b = step_exact_out amount o b.
Proof. done. Qed.

Section swap.
Context `{TempoSpec} `{TempoAddresses} `{Keccak} `{TIP20} `{TIP20Spec} `{!TIP20Ok}.

(** Orders of the book [key] were filled; the other books are as they were. *)
Definition traded (st : Store) (Q : Queues) (key : B256) (st' : Store) (Q' : Queues) : Prop :=
  inv st' Q' None /\ same_tokens st st' /\
  (forall key', key' <> key -> forall b t, queue Q' (key', b, t) = queue Q (key', b, t) /\
     forall id, id ∈ queue Q (key', b, t) -> core <$> st_orders st' !! id = core <$> st_orders st !! id) /\
  (forall k id, id ∈ queue Q' k -> exists k', id ∈ queue Q k').

Lemma traded_refl st Q key : inv st Q None -> traded st Q key st Q.
Proof. intros Hinv. split_and!; try done; eauto. Qed.

Lemma traded_trans st Q key st1 Q1 st2 Q2 : traded st Q key st1 Q1 -> traded st1 Q1 key st2 Q2 -> traded st Q key st2 Q2.
Proof.
  intros (Hi1 & Hs1 & Ho1 & Hd1) (Hi2 & Hs2 & Ho2 & Hd2). split_and!; [done|by etrans| |].
  - intros key' Hk b t. destruct (Ho1 key' Hk b t) as [Hq1 Hc1]. destruct (Ho2 key' Hk b t) as [Hq2 Hc2]. split; [congruence|].
    intros id Hid. rewrite Hc2 by (by rewrite Hq1). by apply Hc1.
  - intros k id Hid. destruct (Hd2 k id Hid) as [k' Hk']. by apply (Hd1 k').
Qed.

Lemma not_other st Q o key b t id : inv st Q None -> st_orders st !! o_order_id o = Some o -> key <> o_book_key o -> id ∈ queue Q (key, b, t) -> id <> o_order_id o.
Proof.
  intros Hinv Ho Hk Hin ->. assert ((key, b, t) = key_of o) as Heq by (by apply (record_queue st Q None Hinv (o_order_id o) o)).
  unfold key_of in Heq. congruence.
Qed.

Lemma filled_traded st Q o st' Q' : inv st Q None -> st_orders st !! o_order_id o = Some o -> filled_order st Q o st' Q' -> traded st Q (o_book_key o) st' Q'.
Proof.
  intros Hinv Ho (Hi & Hs & _ & Hoth & Hc & _ & Hd). split_and!; try done. intros key' Hk b t. split; [by apply Hoth|].
  intros id Hid. apply (Hc (key', b, t)); [|done]. by apply (not_other st Q o key' b t).
Qed.

Lemma partial_traded st Q o fill : inv st Q None -> st_orders st !! o_order_id o = Some o -> 0 <= fill < o_remaining o ->
  traded st Q (o_book_key o) (partial_st st o fill) Q.
Proof.
  intros Hinv Ho Hf. split_and!; [by apply partial_inv|apply partial_same| |eauto]. intros key' Hk b t. split; [done|]. intros id Hid.
  destruct (partial_fields st o fill) as (-> & _). rewrite lookup_insert_ne; [done|]. apply not_eq_sym. by apply (not_other st Q o key' b t).
Qed.

(** ** What a fill does to what is owed *)

(** The tokens a taker pays in and is paid in. *)
Definition in_token (st : Store) (key : B256) (b : bool) : Address := if b then bd_base (book st key) else bd_quote (book st key).
Definition out_token (st : Store) (key : B256) (b : bool) : Address := if b then bd_quote (book st key) else bd_base (book st key).

Definition at_token (t token : Address) (amount : Z) : Z := if decide (t = token) then amount else 0.

(** What is owed grows by at most what came in, less what goes out. *)
Definition covered (st st' : Store) (key : B256) (b : bool) (paid received : Z) : Prop :=
  forall t, liabilities st' t <= liabilities st t + at_token t (in_token st key b) paid - at_token t (out_token st key b) received.

Lemma at_token_le t token a b : a <= b -> at_token t token a <= at_token t token b.
Proof. unfold at_token. case_decide; lia. Qed.

Lemma at_token_add t token a b : at_token t token (a + b) = at_token t token a + at_token t token b.
Proof. unfold at_token. case_decide; lia. Qed.

Lemma covered_trans st st1 st2 key b p1 r1 p2 r2 : same_tokens st st1 -> covered st st1 key b p1 r1 -> covered st1 st2 key b p2 r2 ->
  covered st st2 key b (p1 + p2) (r1 + r2).
Proof.
  intros [Ht _] Hc1 Hc2 t. specialize (Hc1 t). specialize (Hc2 t). destruct (Ht key) as [Hb Hq].
  unfold in_token, out_token in *. rewrite Hb, Hq in Hc2. rewrite !at_token_add. lia.
Qed.

Lemma covered_weaken st st' key b p r p' r' : covered st st' key b p r -> p <= p' -> r' <= r -> covered st st' key b p' r'.
Proof.
  intros Hc Hp Hr t. specialize (Hc t). pose proof (at_token_le t (in_token st key b) p p' Hp). pose proof (at_token_le t (out_token st key b) r' r Hr). lia.
Qed.

Lemma covered_refl st key b : covered st st key b 0 0.
Proof. intros t. unfold at_token. repeat case_decide; lia. Qed.

Lemma filled_covered st Q key b o st' Q' : front st Q key b o -> valid_tick (o_tick o) -> filled_order st Q o st' Q' ->
  covered st st' key b (paid_amount o (o_remaining o)) (output_amount o (o_remaining o)).
Proof.
  intros (_ & Hk & Hb & _) Hv (_ & _ & _ & _ & _ & Hl & _) t. rewrite Hl. unfold at_token, in_token, out_token, owed_order, escrow_token, paid_token, escrow_amount, output_amount, paid_amount.
  rewrite Hk, Hb. pose proof (down_le_up (o_tick o) Hv (o_remaining o)). destruct b; repeat case_decide; try congruence; lia.
Qed.

Lemma partial_covered st key b o fill : st_orders st !! o_order_id o = Some o -> o_book_key o = key -> o_is_bid o = b -> valid_tick (o_tick o) ->
  covered st (partial_st st o fill) key b (paid_amount o fill) (output_amount o fill).
Proof.
  intros Ho Hk Hb Hv t. rewrite partial_liabilities by done. unfold at_token, in_token, out_token, owed_order, escrow_token, paid_token, escrow_amount, output_amount, paid_amount.
  cbn [set_remaining o_is_bid o_book_key o_remaining o_tick]. rewrite Hk, Hb. pose proof (escrow_covers (o_tick o) Hv (o_remaining o - fill) fill) as Hc.
  replace (o_remaining o - fill + fill) with (o_remaining o) in Hc by lia. destruct b; repeat case_decide; try congruence; lia.
Qed.

(** ** The loops *)

(** A swap came out of a book with what it gave covered by what it took. *)
Definition swapped (s : Evm) (st : Store) (Q : Queues) (key : B256) (b : bool) (paid received : Z) (credits : StorageCreditDeltas) (s' : Evm) : Prop :=
  exists st' Q', holds s' st' /\ elsewhere s s' /\ traded st Q key st' Q' /\ covered st st' key b paid received /\ Forall (fun e => 0 <= e.2) credits.

Lemma swapped_trans s st Q key b s1 st1 Q1 p1 r1 p2 r2 p r credits s2 : elsewhere s s1 -> traded st Q key st1 Q1 -> covered st st1 key b p1 r1 ->
  swapped s1 st1 Q1 key b p2 r2 credits s2 -> p1 + p2 <= p -> r <= r1 + r2 -> swapped s st Q key b p r credits s2.
Proof.
  intros He Ht Hc (st2 & Q2 & Hh & He2 & Ht2 & Hc2 & Hcr) Hp Hr. exists st2, Q2. split_and!; [done|by etrans|by eapply traded_trans| |done].
  eapply covered_weaken; [|exact Hp|exact Hr]. eapply covered_trans; [apply Ht|exact Hc|exact Hc2].
Qed.

Lemma swapped_refl s st Q key b p r credits : holds s st -> inv st Q None -> Forall (fun e => 0 <= e.2) credits -> 0 <= p -> r <= 0 ->
  swapped s st Q key b p r credits s.
Proof.
  intros Hh Hinv Hcr Hp Hr. exists st, Q. split_and!; [done|done|by apply traded_refl| |done]. by eapply covered_weaken; [apply covered_refl|..].
Qed.

Lemma match_done step b os amount total : amount <= 0 -> match_line step b os amount total = Ok total.
Proof. intros Ha. destruct os; cbn; by rewrite decide_True. Qed.

(** A fill takes the first order of the line. *)
Lemma filled_line st Q key b o st' Q' : inv st Q None -> front st Q key b o -> filled_order st Q o st' Q' ->
  line_orders st Q key b = core o :: line_orders st' Q' key b /\ length (line Q key b) = S (length (line Q' key b)).
Proof.
  intros Hinv Hfr (_ & _ & Hq & _ & Hc & _). destruct (front_line st Q key b o Hinv Hfr) as (rest & Heq & Hall).
  destruct Hfr as (Ho & Hk & Hb & _). rewrite Hk, Hb in Hq. rewrite (Hall Q' Hq), Heq. split; [|done]. unfold line_orders. rewrite (Hall Q' Hq), Heq. cbn. rewrite Ho. cbn. f_equal.
  symmetry. apply line_orders_ext. intros id Hid. assert (NoDup (line Q key b)) as Hnd by (by eapply line_nodup). rewrite Heq in Hnd.
  apply list.NoDup_cons in Hnd as [Hn _]. assert (id ∈ line Q key b) as (t & Ht)%line_in by (rewrite Heq; by right). apply (Hc (key, b, t)); [|done]. intros ->. done.
Qed.

Lemma front_head st Q key b o : inv st Q None -> front st Q key b o -> exists os, line_orders st Q key b = core o :: os.
Proof.
  intros Hinv Hfr. destruct (front_line st Q key b o Hinv Hfr) as (rest & Heq & _). unfold line_orders. rewrite Heq. cbn. destruct Hfr as (-> & _). cbn. eauto.
Qed.

(** What a match gives on the first order of a line. *)
Lemma match_partial step b o os amount total x : (forall a o', step a (core o') b = step a o' b) -> 0 < amount -> step amount o b = Some x ->
  st_fill_amount x < o_remaining o -> total + st_accumulate x <= u128_max -> match_line step b (core o :: os) amount total = Ok (total + st_accumulate x).
Proof.
  intros Hcore Ha Hx Hf Hm. cbn. rewrite decide_False by lia. rewrite Hcore, Hx. unfold checked_add. by rewrite decide_True, decide_True.
Qed.

Lemma match_full step b o os amount total x : (forall a o', step a (core o') b = step a o' b) -> 0 < amount -> step amount o b = Some x ->
  ~ st_fill_amount x < o_remaining o -> total + st_accumulate x <= u128_max ->
  match_line step b (core o :: os) amount total = match_line step b os (st_next_amount x) (total + st_accumulate x).
Proof.
  intros Hcore Ha Hx Hf Hm. cbn. rewrite decide_False by lia. rewrite Hcore, Hx. unfold checked_add. by rewrite decide_True, decide_False.
Qed.

Lemma front_good st Q key b o : inv st Q None -> front st Q key b o -> valid_tick (o_tick o) /\ 0 < o_remaining o.
Proof. intros Hinv (Ho & _). destruct (i_orders _ _ _ Hinv _ o Ho) as (_ & _ & _ & Hrem & _ & [Hv _] & _). split; [done|lia]. Qed.

Lemma output_nonneg o fill : valid_tick (o_tick o) -> 0 <= fill -> 0 <= output_amount o fill.
Proof. intros Hv Hf. unfold output_amount. destruct (o_is_bid o); [by apply quote_down_nonneg|done]. Qed.

Lemma paid_nonneg o fill : valid_tick (o_tick o) -> 0 <= fill -> 0 <= paid_amount o fill.
Proof. intros Hv Hf. unfold paid_amount. destruct (o_is_bid o); [done|by apply quote_up_nonneg]. Qed.

Lemma taker_output_Some o fill : output_amount o fill <= u128_max -> taker_output fill (o_tick o) (o_is_bid o) = Some (output_amount o fill).
Proof. unfold output_amount, taker_output. destruct (o_is_bid o); [|done]. intros Hle. unfold base_to_quote. by apply to_u128_Some. Qed.

(** The amounts the exact-in loop computes are those of the step. *)
Definition in_fill (amount : u128) (o : Order) (fill : u128) : Prop :=
  if o_is_bid o then fill = Z.min amount (o_remaining o)
  else exists x, quote_to_base amount (o_tick o) Down = Some x /\ fill = Z.min x (o_remaining o).

Lemma in_partial amount o fill : in_fill amount o fill -> fill < o_remaining o -> output_amount o fill <= u128_max ->
  step_exact_in amount o (o_is_bid o) = Some (mkStep fill (output_amount o fill) 0).
Proof.
  intros Hf Hlt Hm. pose proof (taker_output_Some o fill Hm) as Ht. unfold in_fill, step_exact_in in *. destruct (o_is_bid o).
  - cbn [mbind option_bind]. rewrite <- Hf, Ht. cbn [mbind option_bind]. unfold saturating_sub. rewrite Z.max_l by lia. done.
  - destruct Hf as (x & Hx & ->). rewrite Hx. cbn [mbind option_bind]. rewrite decide_False by lia. cbn [mbind option_bind]. rewrite Ht. done.
Qed.

Definition in_next (amount : u128) (o : Order) (next : u128) : Prop :=
  if o_is_bid o then next = saturating_sub amount (o_remaining o)
  else exists x, quote_to_base amount (o_tick o) Down = Some x /\
    (if decide (o_remaining o < x) then q ← base_to_quote (o_remaining o) (o_tick o) Up; checked_sub amount q else Some 0) = Some next.

Lemma in_full amount o fill next : in_fill amount o fill -> in_next amount o next -> output_amount o fill <= u128_max ->
  step_exact_in amount o (o_is_bid o) = Some (mkStep fill (output_amount o fill) next).
Proof.
  intros Hf Hn Hm. pose proof (taker_output_Some o fill Hm) as Ht. unfold in_fill, in_next, step_exact_in in *. destruct (o_is_bid o).
  - cbn [mbind option_bind]. by rewrite <- Hf, Ht, <- Hn.
  - destruct Hf as (x & Hx & ->). destruct Hn as (x' & Hx' & Hn). assert (x' = x) as -> by congruence. rewrite Hx. cbn [mbind option_bind]. rewrite Hn. cbn [mbind option_bind]. by rewrite Ht.
Qed.

(** An order filled in part ends the swap. *)
Lemma partial_swapped s st Q key b o fill s' p r credits : inv st Q None -> front st Q key b o -> 0 <= fill < o_remaining o ->
  holds s' (partial_st st o fill) -> elsewhere s s' -> Forall (fun e => 0 <= e.2) credits -> paid_amount o fill <= p -> r <= output_amount o fill ->
  swapped s st Q key b p r credits s'.
Proof.
  intros Hinv Hfr Hfill Hh He Hcr Hp Hr. destruct (front_good _ _ _ _ _ Hinv Hfr) as [Hv _]. destruct Hfr as (Ho & Hk & Hb & _).
  exists (partial_st st o fill), Q. split_and!; try done; [rewrite <- Hk; by apply partial_traded|].
  eapply covered_weaken; [by apply partial_covered|done|done].
Qed.

Lemma exact_in_ends key b taker : is_t5 = true -> forall fuel s st Q o l credits amount total, holds s st -> inv st Q None -> front st Q key b o -> l = level st (key_of o) ->
  Forall (fun e => 0 <= e.2) credits -> 0 <= amount -> 0 <= total -> (length (line Q key b) <= fuel)%nat ->
  ends (exact_in_loop fuel credits key b taker l o amount total) s (fun res s' =>
    swapped s st Q key b amount (res.2 - total) res.1 s' /\ total <= res.2 /\ match_line step_exact_in b (line_orders st Q key b) amount total = Ok res.2).
Proof.
  intros H5 fuel. induction fuel as [|fuel IH]; intros s st Q o l credits amount total Hh Hinv Hfr Hl Hcr Ha Ht Hfuel;
    destruct (front_head _ _ _ _ _ Hinv Hfr) as [os Hos]; pose proof (line_orders_length st Q key b Hinv) as Hlen; cbn [exact_in_loop];
    (destruct (decide (amount <= 0)) as [Hz|Hz]; [apply ends_ret; cbn [fst snd]; split_and!; [by apply swapped_refl; [..|lia]|lia|by apply match_done]|]).
  { rewrite Hos in Hlen. cbn in Hlen. lia. }
  destruct (front_good _ _ _ _ _ Hinv Hfr) as [Hv Hrem]. assert (o_is_bid o = b) as Hb by apply Hfr.
  apply ends_bind. apply (ends_mono _ _ (fun fill s1 => s1 = s /\ in_fill amount o fill)).
  2: { unfold in_fill. rewrite Hb. destruct b; [apply ends_ret; by split|]. apply ends_bind, ends_ok_or. intros x Hx. apply ends_ret. split; [done|]. by exists x. }
  intros fill s1 [-> Hf]. assert (0 <= fill <= o_remaining o) as Hfr'.
  { unfold in_fill in Hf. rewrite Hb in Hf. destruct b; [lia|]. destruct Hf as (x & [-> _]%quote_to_base_Some & ->). pose proof (base_down_nonneg _ Hv amount Ha). lia. }
  pose proof (output_nonneg o fill Hv ltac:(lia)) as Hout. destruct (decide (fill < o_remaining o)) as [Hlt|Hge].
  - apply ends_bind. rewrite Hl. eapply ends_mono; [|apply (partial_fill_ends s st Q); [done|done|apply Hfr|lia]]. intros out s2 (-> & Hh2 & He2).
    apply ends_bind, ends_ok_or. intros t' Ht'. unfold checked_add in Ht'. case_decide as Hm; [|done]. injection Ht' as <-. apply ends_ret. cbn [fst snd].
    pose proof (in_partial amount o fill Hf Hlt ltac:(lia)) as Hstep. destruct (step_in_spec _ _ _ Ha Hv ltac:(lia) Hstep) as (_ & _ & _ & Hpay). cbn in Hpay. rewrite Hb in Hstep.
    split_and!; [eapply partial_swapped; try done; lia|lia|]. rewrite Hos. by rewrite (match_partial _ b o os amount total _ (step_in_core b) ltac:(lia) Hstep Hlt Hm).
  - apply ends_bind. eapply ends_mono; [|by apply (fill_order_ends s st Q key b)]. intros [credits' [out next]] s2 (st2 & Q2 & Hh2 & He2 & Hfil & Hcr2 & Hout2 & Hin2). cbn [fst snd] in *. subst out.
    assert (fill = o_remaining o) as -> by lia. apply ends_bind, ends_ok_or. intros t' Ht'. unfold checked_add in Ht'. case_decide as Hm; [|done]. injection Ht' as <-.
    apply ends_bind. apply (ends_mono _ _ (fun n s3 => s3 = s2 /\ in_next amount o n)).
    2: { unfold in_next. rewrite Hb. unfold saturating_sub. destruct b; [case_decide|].
         - apply ends_ok_or. unfold checked_sub. intros n Hn. case_decide; [|done]. injection Hn as <-. split; [done|lia].
         - apply ends_ret. split; [done|lia].
         - apply ends_bind, ends_ok_or. intros x Hx. rewrite Hx. destruct (decide (o_remaining o < x)) eqn:E.
           + apply ends_bind, ends_ok_or. intros q Hq. apply ends_ok_or. intros n Hn. split; [done|]. exists x. rewrite E, Hq. done.
           + apply ends_ret. split; [done|]. exists x. by rewrite E. }
    intros n s3 [-> Hn]. pose proof (in_full amount o _ n Hf Hn ltac:(lia)) as Hstep. destruct (step_in_spec _ _ _ Ha Hv ltac:(lia) Hstep) as (_ & Hn0 & _ & Hpay). cbn in Hpay, Hn0. rewrite Hb in Hstep.
    destruct (filled_line st Q key b o st2 Q2 Hinv Hfr Hfil) as [Hline Hlen2]. assert (traded st Q key st2 Q2) as Htr by (replace key with (o_book_key o) by apply Hfr; apply filled_traded; [done|apply Hfr|done]).
    pose proof (filled_covered st Q key b o st2 Q2 Hfr Hv Hfil) as Hcov. pose proof (match_full _ b o (line_orders st2 Q2 key b) amount total _ (step_in_core b) ltac:(lia) Hstep Hge Hm) as Hmatch. cbn [st_next_amount st_accumulate] in Hmatch.
    rewrite Hline, Hmatch. destruct next as [[l' o']|].
    + destruct Hin2 as [Hfr2 ->]. eapply ends_mono; [|apply (IH s2 st2 Q2); try done; [apply Htr|lia|lia]].
      intros res s4 (Hsw & Hle & Hres). split_and!; [|lia|done]. eapply swapped_trans; [done|exact Htr|exact Hcov|exact Hsw|lia|lia].
    + case_decide; [done|]. apply ends_ret. cbn [fst snd]. split_and!; [|lia|by apply match_done; lia].
      eapply swapped_trans; [done|exact Htr|exact Hcov|apply (swapped_refl s2 st2 Q2 key b 0 0); [done|apply Htr|done|lia|lia]|lia|lia].
Qed.

(** The amounts the exact-out loop computes are those of the step. *)
Definition out_fill (amount : u128) (o : Order) (fill paid : u128) : Prop :=
  if o_is_bid o then exists x, quote_to_base amount (o_tick o) Up = Some x /\ fill = Z.min x (o_remaining o) /\ paid = fill
  else fill = Z.min amount (o_remaining o) /\ base_to_quote fill (o_tick o) Up = Some paid.

Definition out_next (amount : u128) (o : Order) (next : u128) : Prop :=
  exists demand, (if o_is_bid o then quote_to_base amount (o_tick o) Up = Some demand else demand = amount) /\
    (if decide (o_remaining o < demand) then checked_sub amount (output_amount o (o_remaining o)) else Some 0) = Some next.

Lemma out_next_ends amount o s : ends (if o_is_bid o then
      base_needed ← ok_or under_overflow (quote_to_base amount (o_tick o) Up);
      if decide (o_remaining o < base_needed) then ok_or under_overflow (checked_sub amount (output_amount o (o_remaining o))) else mret 0
    else if decide (o_remaining o < amount) then ok_or under_overflow (checked_sub amount (output_amount o (o_remaining o))) else mret 0) s
  (fun n s' => s' = s /\ out_next amount o n).
Proof.
  unfold out_next. destruct (o_is_bid o).
  - apply ends_bind, ends_ok_or. intros x Hx. destruct (decide (o_remaining o < x)) eqn:E; [apply ends_ok_or; intros n Hn|apply ends_ret];
      (split; [reflexivity|]); exists x; rewrite E; (split; [exact Hx|]); [exact Hn|reflexivity].
  - destruct (decide (o_remaining o < amount)) eqn:E; [apply ends_ok_or; intros n Hn|apply ends_ret]; (split; [reflexivity|]); exists amount; rewrite E;
      (split; [reflexivity|]); [exact Hn|reflexivity].
Qed.

Lemma out_fill_range amount o fill paid : out_fill amount o fill paid -> valid_tick (o_tick o) -> 0 <= amount -> 0 < o_remaining o ->
  0 <= fill <= o_remaining o /\ paid = paid_amount o fill.
Proof.
  intros Hf Hv Ha Hrem. unfold out_fill, paid_amount in *. destruct (o_is_bid o).
  - destruct Hf as (x & [-> _]%quote_to_base_Some & -> & ->). pose proof (base_up_nonneg _ Hv amount Ha). split; [lia|done].
  - destruct Hf as [-> [-> _]%base_to_quote_Some]. split; [lia|done].
Qed.

Lemma out_partial amount o fill paid : out_fill amount o fill paid -> fill < o_remaining o -> step_exact_out amount o (o_is_bid o) = Some (mkStep fill paid 0).
Proof.
  intros Hf Hlt. unfold out_fill, step_exact_out in *. destruct (o_is_bid o).
  - destruct Hf as (x & -> & -> & ->). cbn [mbind option_bind]. rewrite decide_False by lia. done.
  - destruct Hf as [-> Hp]. rewrite Hp. cbn [mbind option_bind]. rewrite decide_False by lia. done.
Qed.

Lemma out_full amount o fill paid next : is_u128 amount -> out_fill amount o fill paid -> out_next amount o next ->
  step_exact_out amount o (o_is_bid o) = Some (mkStep fill paid next).
Proof.
  intros Hu Hf (d & Hd & Hn). assert ((if decide (o_remaining o < d) then a ← taker_output (o_remaining o) (o_tick o) (o_is_bid o); checked_sub amount a else Some 0) = Some next) as Hn'.
  { rewrite <- Hn. destruct (decide (o_remaining o < d)); [|done]. rewrite taker_output_Some; [done|]. unfold checked_sub in Hn. case_decide; [|done]. unfold is_u128 in Hu. lia. }
  unfold out_fill, step_exact_out in *. destruct (o_is_bid o).
  - destruct Hf as (x & Hx & -> & ->). assert (d = x) as -> by congruence. rewrite Hx. cbn [mbind option_bind]. cbn [mbind option_bind] in Hn'. by rewrite Hn'.
  - destruct Hf as [-> Hp]. subst d. rewrite Hp. cbn [mbind option_bind]. cbn [mbind option_bind] in Hn'. by rewrite Hn'.
Qed.

Lemma exact_out_ends key b taker : is_t5 = true -> forall fuel s st Q o l credits amount total, holds s st -> inv st Q None -> front st Q key b o -> l = level st (key_of o) ->
  Forall (fun e => 0 <= e.2) credits -> is_u128 amount -> 0 <= total -> (length (line Q key b) <= fuel)%nat ->
  ends (exact_out_loop fuel credits key b taker l o amount total) s (fun res s' =>
    swapped s st Q key b (res.2 - total) amount res.1 s' /\ total <= res.2 /\ match_line step_exact_out b (line_orders st Q key b) amount total = Ok res.2).
Proof.
  intros H5 fuel. induction fuel as [|fuel IH]; intros s st Q o l credits amount total Hh Hinv Hfr Hl Hcr Hu Ht Hfuel; pose proof (proj1 Hu) as Ha;
    destruct (front_head _ _ _ _ _ Hinv Hfr) as [os Hos]; pose proof (line_orders_length st Q key b Hinv) as Hlen; cbn [exact_out_loop];
    (destruct (decide (amount <= 0)) as [Hz|Hz]; [apply ends_ret; cbn [fst snd]; split_and!; [by apply swapped_refl; [..|lia|lia]|lia|by apply match_done]|]).
  { rewrite Hos in Hlen. cbn in Hlen. lia. }
  destruct (front_good _ _ _ _ _ Hinv Hfr) as [Hv Hrem]. assert (o_is_bid o = b) as Hb by apply Hfr.
  apply ends_bind. apply (ends_mono _ _ (fun r s1 => s1 = s /\ out_fill amount o r.1 r.2)).
  2: { unfold out_fill. rewrite Hb. destruct b; apply ends_bind, ends_ok_or; intros x Hx; apply ends_ret; (split; [reflexivity|]); [exists x; split_and!; [exact Hx|reflexivity..]|split; [reflexivity|exact Hx]]. }
  intros [fill paid] s1 [-> Hf]. cbn [fst snd] in Hf. destruct (out_fill_range _ _ _ _ Hf Hv Ha Hrem) as [Hrange Hpaid].
  pose proof (paid_nonneg o fill Hv (proj1 Hrange)) as Hp0. cbv beta iota. destruct (decide (fill < o_remaining o)) as [Hlt|Hge].
  - apply ends_bind. rewrite Hl. eapply ends_mono; [|apply (partial_fill_ends s st Q); [done|done|apply Hfr|lia]]. intros out s2 (-> & Hh2 & He2).
    apply ends_bind, ends_ok_or. intros t' Ht'. unfold checked_add in Ht'. case_decide as Hm; [|done]. injection Ht' as <-. apply ends_ret. cbn [fst snd].
    pose proof (out_partial amount o fill paid Hf Hlt) as Hstep. destruct (step_out_spec _ _ _ Ha Hv ltac:(lia) Hstep) as (_ & _ & _ & Hpay). cbn in Hpay. rewrite Hb in Hstep.
    split_and!; [eapply partial_swapped; try done; lia|lia|]. rewrite Hos. by rewrite (match_partial _ b o os amount total _ (step_out_core b) ltac:(lia) Hstep Hlt Hm).
  - apply ends_bind. eapply ends_mono; [|by apply (fill_order_ends s st Q key b)]. intros [credits' [out next]] s2 (st2 & Q2 & Hh2 & He2 & Hfil & Hcr2 & Hout2 & Hin2). cbn [fst snd] in *. subst out.
    assert (fill = o_remaining o) as -> by lia. apply ends_bind, ends_ok_or. intros t' Ht'. unfold checked_add in Ht'. case_decide as Hm; [|done]. injection Ht' as <-.
    apply ends_bind. apply (ends_mono _ _ (fun n s3 => s3 = s2 /\ out_next amount o n)).
    2: { rewrite <- Hb. apply out_next_ends. }
    intros n s3 [-> Hn]. pose proof (out_full amount o _ _ n Hu Hf Hn) as Hstep. destruct (step_out_spec _ _ _ Ha Hv ltac:(lia) Hstep) as (_ & Hn0 & _ & Hpay). cbn in Hpay, Hn0. rewrite Hb in Hstep.
    destruct (filled_line st Q key b o st2 Q2 Hinv Hfr Hfil) as [Hline Hlen2]. assert (traded st Q key st2 Q2) as Htr by (replace key with (o_book_key o) by apply Hfr; apply filled_traded; [done|apply Hfr|done]).
    pose proof (filled_covered st Q key b o st2 Q2 Hfr Hv Hfil) as Hcov. pose proof (match_full _ b o (line_orders st2 Q2 key b) amount total _ (step_out_core b) ltac:(lia) Hstep Hge Hm) as Hmatch. cbn [st_next_amount st_accumulate] in Hmatch.
    rewrite Hline, Hmatch. destruct next as [[l' o']|].
    + destruct Hin2 as [Hfr2 ->]. eapply ends_mono; [|apply (IH s2 st2 Q2); try done; [apply Htr|unfold is_u128 in *; lia|lia|lia]].
      intros res s4 (Hsw & Hle & Hres). split_and!; [|lia|done]. eapply swapped_trans; [done|exact Htr|exact Hcov|exact Hsw|lia|lia].
    + case_decide; [done|]. apply ends_ret. cbn [fst snd]. split_and!; [|lia|by apply match_done; lia].
      eapply swapped_trans; [done|exact Htr|exact Hcov|apply (swapped_refl s2 st2 Q2 key b 0 0); [done|apply Htr|done|lia|lia]|lia|lia].
Qed.
End swap.
