(* ===== verification/DexRoute.v ===== *)
(** * Routes of swaps

    A swap goes through one book after the other. What it pays out in the end is
    covered by what it took in, and the amounts are those of matching against the
    lines of the books. The route between two tokens goes up their quote tokens to
    the first common one and back down: every hop is a book, and no book comes
    twice. *)

From stdpp Require Import prelude gmap list strings.
From S2P Require Import Prelude TempoEvm DexTypes DexBook DexCredits Dex DexStore DexOrders.
From S2P Require Import DexHolds DexPrice DexInv DexCommit DexCancel DexPlace.
From S2P Require Import DexFill DexSwap.

#[local] Open Scope Z_scope.

Section route.
Context `{TempoSpec} `{TempoAddresses} `{Keccak} `{TIP20} `{TIP20Spec} `{!TIP20Ok}.

(** ** Reads *)

(** The state is as it was, whatever is returned. *)
Definition keeps {A} (m : M A) : Prop := forall s, (m s).2 = s.

Lemma keeps_bind {A B} (m : M A) (k : A -> M B) : keeps m -> (forall a, keeps (k a)) -> keeps (m ≫= k).
Proof. intros Hm Hk s. specialize (Hm s). unfold mbind, M_bind. destruct (m s) as [[a|e|] s']; cbn in *; subst; [apply Hk|done|done]. Qed.

Ltac keep := repeat first [ solve [intros ?; reflexivity] | apply keeps_bind; [|intros] | progress cbv zeta | match goal with |- keeps (if ?b then _ else _) => destruct b | |- keeps (match ?x with _ => _ end) => destruct x end ].

Lemma level_keeps book tick b : keeps (read_tick_level book tick b).
Proof. unfold read_tick_level, level_load. keep. Qed.

Lemma from_word_keeps p w : keeps (from_word p w).
Proof. destruct p; cbn; keep. Qed.

Lemma extract_keeps p w i : keeps (extract_from_word p w i).
Proof. unfold extract_from_word. case_decide; [done|apply from_word_keeps]. Qed.

Lemma version_keeps id : keeps (order_version_and_slot id).
Proof. unfold order_version_and_slot, order_version_of. keep. apply extract_keeps. Qed.

Lemma read_keeps id key : keeps (read_in_book id key).
Proof.
  unfold read_in_book, read_with_book_key, order_version. repeat apply keeps_bind; [apply version_keeps|done|]. intros [].
  - unfold order_load. keep. all: try apply extract_keeps; apply from_word_keeps.
  - apply keeps_bind; [|done]. unfold v1_load. keep. all: apply extract_keeps.
  - apply keeps_bind; [|done]. unfold v2_load. keep. all: apply extract_keeps.
Qed.

Lemma search_keeps fuel book : (forall t, keeps (search_ask fuel book t)) /\ (forall t, keeps (search_bid fuel book t)).
Proof. induction fuel as [|fuel [IHa IHb]]; cbn [search_ask search_bid]; (split; intros t); keep; [apply IHa|apply IHb]. Qed.

Lemma next_tick_keeps book tick b : keeps (next_initialized_tick book tick b).
Proof.
  unfold next_initialized_tick, next_initialized_bid_tick, next_initialized_ask_tick. keep; apply search_keeps.
Qed.

Lemma keeps_run {A} (m : M A) s st a : does m s a st -> keeps m -> m s = (Ok a, s).
Proof. intros (s' & Hr & _) Hk. specialize (Hk s). rewrite Hr in Hk. cbn in Hk. by subst. Qed.

Lemma level_run s st key tick b : holds s st -> is_i16 tick -> read_tick_level (book_slot key) tick b s = (Ok (level st (key, b, tick)), s).
Proof. intros Hh Ht. apply (keeps_run _ _ st); [|apply level_keeps]. apply (holds_acts _ s st); [done|by apply read_level_acts]. Qed.

Lemma order_run s st id o : holds s st -> st_orders st !! id = Some o -> read_in_book id (o_book_key o) s = (Ok o, s).
Proof.
  intros Hh Ho. apply (keeps_run _ _ st); [|apply read_keeps]. apply (holds_acts _ s st); [done|]. apply read_acts; [done|by right].
Qed.

(** ** One book *)

(** Matching against a side of a book: an empty side has no price. *)
Definition match_book (step : u128 -> Order -> bool -> option OrderStep) (st : Store) (Q : Queues) (key : B256) (b : bool) (amount : u128)
    : Res TempoPrecompileError u128 :=
  match line_orders st Q key b with
  | [] => Err err_insufficient_liquidity
  | os => match_line step b os amount 0
  end.

(** The order in front, read as swaps and quotes do. *)
Lemma best_level_run s st Q key b : holds s st -> inv st Q None -> bd_base (book st key) <> 0 ->
  (get_best_price_level key b s = (Err err_insufficient_liquidity, s) /\ line_orders st Q key b = []) \/
  (exists o, front st Q key b o /\ get_best_price_level key b s = (Ok (level st (key_of o)), s) /\ tl_head (level st (key_of o)) = o_order_id o).
Proof.
  intros Hh Hinv Hbase. unfold get_best_price_level. rewrite (bind_ok _ _ _ _ _ (read_data_run s st key Hh)).
  destruct (i_best _ _ _ Hinv key b Hbase) as [[Hsome _]|[Hno Hempty]].
  - right. destruct Hsome as [q Hq]. destruct (i_queues _ _ _ Hinv _ _ Hq) as (_ & _ & Hv & _). cbn in Hv.
    destruct (best_front st Q key b _ Hinv Hbase (ex_intro _ _ Hq) eq_refl) as (o & Hfr & Hk & Hhd). exists o. rewrite Hk. split_and!; [done| |done].
    assert (valid_tick (best (book st key) b)) as Hvb by done. unfold valid_tick, MIN_TICK, MAX_TICK in Hvb.
    pose proof (level_run s st key _ b Hh (valid_i16 _ Hv)) as Hread.
    destruct b; cbn [best] in *; (rewrite decide_False by (unfold i16_min, i16_max; lia)); done.
  - left. split; [|unfold line_orders; by rewrite line_empty]. destruct b; cbn [best no_tick] in *; by rewrite decide_True.
Qed.

Lemma match_line_max step b os amount total r : total <= u128_max -> match_line step b os amount total = Ok r -> r <= u128_max.
Proof.
  revert amount total. induction os as [|o os IH]; intros amount total Ht; cbn; case_decide; try by intros [= <-].
  destruct (step amount o b) as [x|]; [|done]. unfold checked_add. case_decide; [|done]. case_decide; [by intros [= <-]|]. by apply IH.
Qed.

Lemma match_book_max step st Q key b amount r : match_book step st Q key b amount = Ok r -> r <= u128_max.
Proof. unfold match_book. destruct (line_orders st Q key b); [done|]. apply match_line_max. unfold u128_max. lia. Qed.

Lemma match_book_front step st Q key b o amount : inv st Q None -> front st Q key b o ->
  match_book step st Q key b amount = match_line step b (line_orders st Q key b) amount 0.
Proof. intros Hinv Hfr. destruct (front_head _ _ _ _ _ Hinv Hfr) as [os Hos]. unfold match_book. by rewrite Hos. Qed.

(** The first order of a side, or no liquidity. *)
Lemma front_ends {A} (k : TickLevel -> Order -> M A) s st Q key b P : holds s st -> inv st Q None -> bd_base (book st key) <> 0 ->
  (forall o, front st Q key b o -> ends (k (level st (key_of o)) o) s P) ->
  ends (level ← get_best_price_level key b; order ← read_in_book (tl_head level) key; k level order) s P.
Proof.
  intros Hh Hinv Hbase Hk. apply ends_bind. destruct (best_level_run s st Q key b Hh Hinv Hbase) as [[Hr _]|(o & Hfr & Hr & Hhd)].
  - unfold ends. by rewrite Hr.
  - eapply ends_run; [exact Hr|done|]. rewrite Hhd. pose proof Hfr as (Ho & Hkey & _). apply ends_bind. eapply ends_run; [rewrite <- Hkey; by eapply order_run|done|by apply Hk].
Qed.

Lemma fill_in_ends s st Q key b taker fuel credits amount : is_t5 = true -> holds s st -> inv st Q None -> bd_base (book st key) <> 0 ->
  Forall (fun e => 0 <= e.2) credits -> 0 <= amount -> (size (st_orders st) <= fuel)%nat ->
  ends (fill_orders_exact_in fuel credits key b amount taker) s (fun res s' =>
    swapped s st Q key b amount res.2 res.1 s' /\ is_u128 res.2 /\ match_book step_exact_in st Q key b amount = Ok res.2).
Proof.
  intros H5 Hh Hinv Hbase Hcr Ha Hfuel. apply (front_ends _ s st Q); try done. intros o Hfr. pose proof (line_size st Q key b Hinv).
  eapply ends_mono; [|apply (exact_in_ends key b taker H5 fuel s st Q); try done; lia].
  intros res s' (Hsw & Hle & Hm). rewrite Z.sub_0_r in Hsw. rewrite (match_book_front _ _ _ _ _ o) by done. split; [exact Hsw|]. split; [|exact Hm]. split; [exact Hle|].
  apply match_line_max in Hm; [done|]. unfold u128_max. lia.
Qed.

Lemma fill_out_ends s st Q key b taker fuel credits amount : is_t5 = true -> holds s st -> inv st Q None -> bd_base (book st key) <> 0 ->
  Forall (fun e => 0 <= e.2) credits -> is_u128 amount -> (size (st_orders st) <= fuel)%nat ->
  ends (fill_orders_exact_out fuel credits key b amount taker) s (fun res s' =>
    swapped s st Q key b res.2 amount res.1 s' /\ is_u128 res.2 /\ match_book step_exact_out st Q key b amount = Ok res.2).
Proof.
  intros H5 Hh Hinv Hbase Hcr Ha Hfuel. apply (front_ends _ s st Q); try done. intros o Hfr. pose proof (line_size st Q key b Hinv).
  eapply ends_mono; [|apply (exact_out_ends key b taker H5 fuel s st Q); try done; lia].
  intros res s' (Hsw & Hle & Hm). rewrite Z.sub_0_r in Hsw. rewrite (match_book_front _ _ _ _ _ o) by done. split; [exact Hsw|]. split; [|exact Hm]. split; [exact Hle|].
  apply match_line_max in Hm; [done|]. unfold u128_max. lia.
Qed.

(** ** Books along a route *)

Fixpoint route_ok (st : Store) (route : list (B256 * bool)) (token_in token_out : Address) : Prop :=
  match route with
  | [] => token_in = token_out
  | (key, b) :: route => bd_base (book st key) <> 0 /\ in_token st key b = token_in /\ route_ok st route (out_token st key b) token_out
  end.

(** Matching from book to book. *)
Fixpoint match_route (step : u128 -> Order -> bool -> option OrderStep) (st : Store) (Q : Queues) (route : list (B256 * bool)) (amount : u128)
    : Res TempoPrecompileError u128 :=
  match route with
  | [] => Ok amount
  | (key, b) :: route =>
      match match_book step st Q key b amount with
      | Ok amount => match_route step st Q route amount
      | Err e => Err e
      | Panic => Panic
      end
  end.

Lemma traded_book st Q key st' Q' step key' b amount : inv st Q None -> traded st Q key st' Q' -> key' <> key ->
  match_book step st' Q' key' b amount = match_book step st Q key' b amount.
Proof.
  intros Hinv (_ & _ & Hoth & _) Hne. assert (line_orders st' Q' key' b = line_orders st Q key' b) as Hl; [|unfold match_book; by rewrite Hl].
  unfold line_orders. assert (line Q' key' b = line Q key' b) as -> by (apply line_of_ext; intros t _; by apply Hoth). apply line_orders_ext.
  intros id (t & Hid)%line_in. by apply (Hoth key' Hne b t).
Qed.

Lemma traded_route st Q key st' Q' step route amount : inv st Q None -> traded st Q key st' Q' -> key ∉ route.*1 ->
  match_route step st' Q' route amount = match_route step st Q route amount.
Proof.
  intros Hinv Ht. revert amount. induction route as [|[key' b] route IH]; intros amount; [done|]. rewrite fmap_cons, not_elem_of_cons. intros [Hne Hn]. cbn.
  rewrite (traded_book st Q key st' Q') by done. destruct (match_book step st Q key' b amount); [by apply IH|done|done].
Qed.

Lemma same_route st st' route tin tout : same_tokens st st' -> route_ok st route tin tout -> route_ok st' route tin tout.
Proof.
  intros Hs. revert tin. induction route as [|[key b] route IH]; intros tin; [done|]. cbn. unfold in_token, out_token.
  destruct (proj1 Hs key) as [-> ->]. intros (Hb & Hi & Hr). split_and!; [done|done|by apply IH].
Qed.

Lemma traded_size st Q key st' Q' : inv st Q None -> traded st Q key st' Q' -> (size (st_orders st') <= size (st_orders st))%nat.
Proof.
  intros Hinv (Hinv' & _ & _ & Hids). rewrite <- !size_dom. apply subseteq_size. intros id [o Ho]%elem_of_dom.
  destruct (i_orders _ _ _ Hinv' id o Ho) as (_ & Hq & _). destruct (Hids _ _ Hq) as [k Hk].
  destruct (live_order st Q None Hinv k id) as (o' & Ho' & _); [by split|]. apply elem_of_dom. by exists o'.
Qed.

(** A route was swapped through. *)
Definition routed (s : Evm) (st : Store) (token_in token_out : Address) (paid received : Z) (credits : StorageCreditDeltas) (s' : Evm) : Prop :=
  exists st' Q', holds s' st' /\ elsewhere s s' /\ inv st' Q' None /\ same_tokens st st' /\ Forall (fun e => 0 <= e.2) credits /\
    forall t, liabilities st' t <= liabilities st t + at_token t token_in paid - at_token t token_out received.

Lemma routed_nil s st Q token amount credits : holds s st -> inv st Q None -> Forall (fun e => 0 <= e.2) credits -> routed s st token token amount amount credits s.
Proof. intros Hh Hinv Hcr. exists st, Q. split_and!; try done. intros t. lia. Qed.

Lemma swap_in_route_ends taker fuel : is_t5 = true -> forall route s st Q token_in token_out credits amount, holds s st -> inv st Q None -> route_ok st route token_in token_out ->
  NoDup route.*1 -> Forall (fun e => 0 <= e.2) credits -> is_u128 amount -> (size (st_orders st) <= fuel)%nat ->
  ends (swap_in_route fuel credits route amount taker) s (fun res s' =>
    routed s st token_in token_out amount res.2 res.1 s' /\ is_u128 res.2 /\ match_route step_exact_in st Q route amount = Ok res.2).
Proof.
  intros H5 route. induction route as [|[key b] route IH]; intros s st Q tin tout credits amount Hh Hinv Hr Hnd Hcr Ha Hfuel; cbn [swap_in_route].
  - apply ends_ret. cbn in *. subst. split_and!; [by eapply routed_nil|exact Ha|done].
  - destruct Hr as (Hbase & Hin & Hr). rewrite fmap_cons in Hnd. apply list.NoDup_cons in Hnd as [Hn Hnd]. apply ends_bind.
    eapply ends_mono; [|apply (fill_in_ends s st Q); try done; apply Ha].
    intros [credits1 a1] s1 ((st1 & Q1 & Hh1 & He1 & Htr & Hcov & Hcr1) & Ha1 & Hm1). cbn [fst snd] in *. pose proof Htr as (Hinv1 & Hs1 & _).
    eapply ends_mono; [|apply (IH s1 st1 Q1 (out_token st key b) tout); try done; [by eapply same_route|pose proof (traded_size _ _ _ _ _ Hinv Htr); lia]].
    intros res s2 ((st2 & Q2 & Hh2 & He2 & Hinv2 & Hs2 & Hcr2 & Hl2) & Hres & Hm2). split_and!; [|exact Hres|].
    + exists st2, Q2. split_and!; try done; [by etrans|by etrans|]. intros t. specialize (Hl2 t). specialize (Hcov t). rewrite Hin in Hcov. lia.
    + cbn [match_route]. rewrite Hm1. by rewrite <- (traded_route st Q key st1 Q1).
Qed.

(** The same books, from the last to the first. *)
Fixpoint route_back (st : Store) (route : list (B256 * bool)) (token_in token_out : Address) : Prop :=
  match route with
  | [] => token_in = token_out
  | (key, b) :: route => bd_base (book st key) <> 0 /\ out_token st key b = token_out /\ route_back st route token_in (in_token st key b)
  end.

Lemma route_back_app st r1 r2 tin mid tout : route_back st r1 mid tout -> route_back st r2 tin mid -> route_back st (r1 ++ r2) tin tout.
Proof. revert tout. induction r1 as [|[key b] r1 IH]; intros tout; cbn; [by intros ->|]. intros (Hb & Ho & Hr1) Hr2. split_and!; [done|done|by apply IH]. Qed.

Lemma route_rev st route tin tout : route_ok st route tin tout -> route_back st (rev route) tin tout.
Proof.
  revert tin. induction route as [|[key b] route IH]; intros tin; cbn; [done|]. intros (Hb & <- & Hr). eapply route_back_app; [by apply IH|]. done.
Qed.

Lemma same_back st st' route tin tout : same_tokens st st' -> route_back st route tin tout -> route_back st' route tin tout.
Proof.
  intros Hs. revert tout. induction route as [|[key b] route IH]; intros tout; [done|]. cbn. unfold in_token, out_token.
  destruct (proj1 Hs key) as [-> ->]. intros (Hb & Hi & Hr). split_and!; [done|done|by apply IH].
Qed.

Lemma swap_out_route_ends taker fuel : is_t5 = true -> forall route s st Q token_in token_out credits amount, holds s st -> inv st Q None -> route_back st route token_in token_out ->
  NoDup route.*1 -> Forall (fun e => 0 <= e.2) credits -> is_u128 amount -> (size (st_orders st) <= fuel)%nat ->
  ends (swap_out_route fuel credits route amount taker) s (fun res s' =>
    routed s st token_in token_out res.2 amount res.1 s' /\ is_u128 res.2 /\ match_route step_exact_out st Q route amount = Ok res.2).
Proof.
  intros H5 route. induction route as [|[key b] route IH]; intros s st Q tin tout credits amount Hh Hinv Hr Hnd Hcr Ha Hfuel; cbn [swap_out_route].
  - apply ends_ret. cbn in *. subst. split_and!; [by eapply routed_nil|exact Ha|done].
  - destruct Hr as (Hbase & Hin & Hr). rewrite fmap_cons in Hnd. apply list.NoDup_cons in Hnd as [Hn Hnd]. apply ends_bind.
    eapply ends_mono; [|by apply (fill_out_ends s st Q)].
    intros [credits1 a1] s1 ((st1 & Q1 & Hh1 & He1 & Htr & Hcov & Hcr1) & Ha1 & Hm1). cbn [fst snd] in *. pose proof Htr as (Hinv1 & Hs1 & _).
    eapply ends_mono; [|apply (IH s1 st1 Q1 tin (in_token st key b)); try done; [by eapply same_back|pose proof (traded_size _ _ _ _ _ Hinv Htr); lia]].
    intros res s2 ((st2 & Q2 & Hh2 & He2 & Hinv2 & Hs2 & Hcr2 & Hl2) & Hres & Hm2). split_and!; [|exact Hres|].
    + exists st2, Q2. split_and!; try done; [by etrans|by etrans|]. intros t. specialize (Hl2 t). specialize (Hcov t). rewrite Hin in Hcov. lia.
    + cbn [match_route]. rewrite Hm1. by rewrite <- (traded_route st Q key st1 Q1).
Qed.
End route.

(** ** Joining two lists at a common element *)

Lemma rev_reverse {A} (l : list A) : rev l = reverse l.
Proof. unfold reverse. by rewrite rev_alt. Qed.

Lemma elem_of_rev {A} (x : A) l : x ∈ rev l <-> x ∈ l.
Proof. by rewrite rev_reverse, elem_of_reverse. Qed.

Lemma take_until_prefix x l : x ∈ l -> exists r, l = take_until x l ++ x :: r.
Proof.
  induction l as [|y l IH]; [by intros ?%elem_of_nil|]. intros Hx. cbn. case_decide as Hy; [subst; by exists l|].
  apply elem_of_cons in Hx as [->|Hx]; [done|]. destruct (IH Hx) as [r Hr]. exists r. cbn. by f_equal.
Qed.

Lemma take_until_notin x l : x ∉ take_until x l.
Proof. induction l as [|y l IH]; cbn; [apply not_elem_of_nil|]. case_decide; [apply not_elem_of_nil|]. apply not_elem_of_cons. by split. Qed.

Lemma take_until_sub x y l : y ∈ take_until x l -> y ∈ l.
Proof. induction l as [|z l IH]; cbn; [done|]. case_decide; [by intros ?%elem_of_nil|]. rewrite !elem_of_cons. intros [->|Hy]; auto. Qed.

Lemma take_until_nodup x l : NoDup l -> NoDup (take_until x l).
Proof.
  induction 1 as [|y l Hy Hl IH]; cbn; [constructor|]. case_decide; [constructor|]. constructor; [|done]. intros ?%take_until_sub. done.
Qed.

(** The first element of a list in another. *)
Lemma join_find (pin pout : list Address) i lca : list_find (.∈ pout) pin = Some (i, lca) -> lca ∈ pin /\ lca ∈ pout /\ forall x, x ∈ take_until lca pin -> x ∉ pout.
Proof.
  revert i. induction pin as [|y pin IH]; intros i; [done|]. cbn. case_decide as Hy.
  - intros [= <- <-]. rewrite decide_True by done. split_and!; [by left|done|by intros x ?%elem_of_nil].
  - intros ([j z] & Hj & Heq)%fmap_Some. cbn in Heq. injection Heq as -> ->. destruct (IH _ Hj) as (Hi & Ho & Hn). split_and!; [by right|done|]. rewrite decide_False by (intros ->; done).
    intros x [->|Hx]%elem_of_cons; [done|by apply Hn].
Qed.

Lemma join_ok pin pout a b path : NoDup pin -> NoDup pout -> head pin = Some a -> head pout = Some b -> join_paths pin pout = Some path ->
  NoDup path /\ head path = Some a /\ last path = Some b.
Proof.
  intros Hni Hno Ha Hb. unfold join_paths. intros ([i lca] & Hf & [= <-])%bind_Some. destruct (join_find _ _ _ _ Hf) as (Hi & Ho & Hn). split_and!.
  - rewrite NoDup_app. split_and!; [by apply take_until_nodup| |].
    + intros x Hx [->|Hr]%elem_of_cons; [by apply take_until_notin in Hx|]. apply (Hn x Hx), (take_until_sub lca). by apply elem_of_rev.
    + constructor; [rewrite elem_of_rev; apply take_until_notin|]. rewrite rev_reverse, reverse_Permutation. by apply take_until_nodup.
  - destruct pin as [|y pin]; [done|]. injection Ha as ->. cbn. by case_decide as Hx; [subst|].
  - destruct pout as [|y pout]; [done|]. injection Hb as ->. rewrite last_app. cbn [take_until]. case_decide as Hx; [by subst|].
    cbn [rev app]. rewrite app_comm_cons, last_snoc. done.
Qed.

Section path.
Context `{TempoSpec} `{TempoAddresses} `{Keccak} `{TIP20} `{TIP20Spec} `{!TIP20Ok} `{!BookKeys}.

(** ** Up to the root *)

(** Each token is followed by its quote token, up to the root. *)
Fixpoint chain (s : Evm) (path : list Address) : Prop :=
  match path with
  | [] => False
  | [x] => x = PATH_USD_ADDRESS
  | x :: (y :: _) as rest => x <> PATH_USD_ADDRESS /\ token_quote x s = (Ok y, s) /\ chain s rest
  end.

Lemma chain_unique s x p1 p2 : chain s (x :: p1) -> chain s (x :: p2) -> p1 = p2.
Proof.
  revert x p2. induction p1 as [|y p1 IH]; intros x [|y2 p2]; cbn; [done|by intros -> [? _]|by intros [? _] ->|].
  intros (_ & Hq1 & Hc1) (_ & Hq2 & Hc2). assert (y2 = y) as -> by congruence. f_equal. by apply (IH y).
Qed.

Lemma quote_chain_suffix s l x p : chain s (l ++ x :: p) -> chain s (x :: p).
Proof.
  induction l as [|y l IH]; [done|]. cbn [app]. intros Hc. apply IH. destruct l as [|z l]; cbn in Hc |- *; [by destruct Hc as (_ & _ & ?)|by destruct Hc as (_ & _ & ?)].
Qed.

Lemma chain_nodup s p : chain s p -> NoDup p.
Proof.
  induction p as [|x p IH]; [constructor|]. intros Hc. constructor.
  - intros Hx. apply list_elem_of_split in Hx as (l1 & l2 & ->). rewrite app_comm_cons in Hc. pose proof (quote_chain_suffix _ _ _ _ Hc) as Hs.
    pose proof (chain_unique _ _ _ _ Hc Hs) as Heq. apply (f_equal length) in Heq. rewrite length_app in Heq. cbn in Heq. lia.
  - destruct p as [|y p]; [constructor|]. apply IH. by destruct Hc as (_ & _ & ?).
Qed.

Lemma ends_eq {A} (m : M A) s P : ends m s P -> ends m s (fun a s' => m s = (Ok a, s') /\ P a s').
Proof. unfold ends. destruct (m s) as [[a|e|] s']; [|done|done]. intros [Hf HP]. done. Qed.

Lemma path_to_root_ends fuel token s : (find_path_to_root fuel token s).1 <> Panic ->
  ends (find_path_to_root fuel token) s (fun path s' => s' = s /\ NoDup path /\ head path = Some token).
Proof.
  intros Hp. apply (ends_mono _ _ (fun path s' => s' = s /\ chain s path /\ head path = Some token)).
  { intros path s' (-> & Hc & Hh). split_and!; [done|by eapply chain_nodup|done]. }
  revert token Hp. induction fuel as [|fuel IH]; intros token; cbn [find_path_to_root]; case_decide as Hroot.
  - intros _. by apply ends_ret.
  - done.
  - intros _. by apply ends_ret.
  - intros Hp. apply ends_bind, ends_view; [apply token_quote_view|]. intros quote Hq. rewrite (bind_ok _ _ _ _ _ Hq) in Hp.
    assert ((find_path_to_root fuel quote s).1 <> Panic) as Hp'.
    { unfold mbind, M_bind in Hp. by destruct (find_path_to_root fuel quote s) as [[?|?|] ?]. }
    apply ends_bind. eapply ends_mono; [|by apply IH]. intros path s' (-> & Hc & Hh). apply ends_ret. split_and!; [done| |done].
    destruct path as [|y path]; [done|]. injection Hh as ->. by split_and!.
Qed.

(** ** The hops *)

Definition between (path : list Address) (key : B256) : Prop := exists a b, a ∈ path /\ b ∈ path /\ key = compute_book_key a b.

(** A path of tokens as a route of books. *)
Lemma build_route_ends s st : holds s st -> keyed st -> forall path t tout, NoDup (t :: path) -> last (t :: path) = Some tout -> is_tip20_prefix tout = true ->
  ends (validate_and_build_route (t :: path)) s (fun route s' => s' = s /\ Forall (fun x => is_tip20_prefix x = true) (t :: path) /\
    route_ok st route t tout /\ NoDup route.*1 /\ forall key, key ∈ route.*1 -> between (t :: path) key).
Proof.
  intros Hh Hk path. induction path as [|u path IH]; intros t tout Hnd Hlast Hpre.
  { apply ends_ret. injection Hlast as ->. split_and!; [done|by constructor|done|constructor|by intros key ?%elem_of_nil]. }
  cbn [validate_and_build_route]. fold (validate_and_build_route (u :: path)).
  apply list.NoDup_cons in Hnd as [Hnt Hnd]. assert (t <> u) as Htu by (intros ->; apply Hnt; by left).
  apply ends_bind, from_address_ends. intros Hpt. apply ends_bind. apply (ends_mono _ _ (fun _ s' => s' = s)).
  2: { destruct is_t3; cbn [when]; [|done]. apply ends_view; [apply not_paused_view|done]. }
  intros _ s' ->. apply ends_bind, ends_view; [apply quote_token_view|]. intros iq _. apply ends_bind.
  apply (ends_mono _ _ (fun bq s' => s' = s /\ (bq = (t, u) \/ bq = (u, t)))).
  2: { case_decide; [apply ends_ret; auto|]. apply ends_bind, ends_view; [apply token_quote_view|]. intros oq _. case_decide; [apply ends_ret; auto|done]. }
  intros [base quote] s' [-> Hbq]. set (key := compute_book_key base quote). apply ends_bind. eapply ends_run; [by apply read_data_run|done|].
  case_decide as Hb; [done|]. apply ends_bind. eapply ends_mono; [|by apply (IH u tout)].
  intros route s' (-> & Hall & Hr & Hn & Hbt). apply ends_ret. assert (is_tip20_prefix u = true) as Hpu by by inversion Hall.
  assert (is_tip20_prefix base = true /\ is_tip20_prefix quote = true) as [Hpb Hpq] by by destruct Hbq as [[= -> ->]|[= -> ->]].
  destruct (keyed_tokens st base quote Hk Hb Hpb Hpq) as [Htb Htq]. fold key in Htb, Htq. split_and!; [done|by constructor| | |].
  - cbn. split; [exact Hb|]. unfold in_token, out_token. rewrite Htb, Htq. destruct Hbq as [[= -> ->]|[= -> ->]];
      [rewrite bool_decide_eq_true_2 by done|rewrite bool_decide_eq_false_2 by done]; by split_and!.
  - cbn. constructor; [|done]. intros (a & b & Ha & Hb' & Heq)%Hbt. rewrite Forall_forall in Hall.
    apply book_key_inj in Heq as [-> ->]; [|done|done|by apply Hall|by apply Hall]. by destruct Hbq as [[= -> ->]|[= -> ->]].
  - cbn. intros k [->|Hin]%elem_of_cons.
    + exists base, quote. destruct Hbq as [[= -> ->]|[= -> ->]]; split_and!; try done; set_solver.
    + destruct (Hbt k Hin) as (a & b & ? & ? & ?). exists a, b. split_and!; [by right|by right|done].
Qed.

(** A part of a run that does not panic does not either. *)
Lemma bind_no_panic {A B} (m : M A) (k : A -> M B) s : ((m ≫= k) s).1 <> Panic -> (m s).1 <> Panic.
Proof. unfold mbind, M_bind. by destruct (m s) as [[a|e|] s']. Qed.

Lemma bind_no_panic_r {A B} (m : M A) (k : A -> M B) s a s' : ((m ≫= k) s).1 <> Panic -> m s = (Ok a, s') -> (k a s').1 <> Panic.
Proof. intros Hp Hm. by rewrite (bind_ok _ _ _ _ _ Hm) in Hp. Qed.

Lemma trade_path_ends fuel s st tin tout : holds s st -> keyed st -> (find_trade_path fuel tin tout s).1 <> Panic ->
  ends (find_trade_path fuel tin tout) s (fun route s' => s' = s /\ is_tip20_prefix tin = true /\ is_tip20_prefix tout = true /\
    route_ok st route tin tout /\ NoDup route.*1).
Proof.
  intros Hh Hk. unfold find_trade_path. case_decide as Hne; [done|].
  destruct (is_tip20_prefix tin) eqn:Hpi; [|done]. destruct (is_tip20_prefix tout) eqn:Hpo; [|done]. cbn [negb orb]. intros Hf.
  apply ends_bind, ends_view; [apply token_quote_view|]. intros iq Hiq. pose proof (bind_no_panic_r _ _ _ _ _ Hf Hiq) as HfHiq. clear Hf. rename HfHiq into Hf. cbv beta in Hf.
  apply ends_bind, ends_view; [apply token_quote_view|]. intros oq Hoq. pose proof (bind_no_panic_r _ _ _ _ _ Hf Hoq) as HfHoq. clear Hf. rename HfHoq into Hf. cbv beta in Hf.
  assert (forall path, NoDup path -> head path = Some tin -> last path = Some tout ->
    ends (validate_and_build_route path) s (fun route s' => s' = s /\ true = true /\ true = true /\ route_ok st route tin tout /\ NoDup route.*1)) as Hroute.
  { intros [|t path] Hnd Hhd Hl; [done|]. injection Hhd as ->. eapply ends_mono; [|by apply (build_route_ends s st)]. intros route s' (-> & _ & Hr & Hn & _). done. }
  destruct (decide (iq = tout \/ oq = tin)).
  - apply Hroute; [|done|done]. apply list.NoDup_cons. split; [set_solver|apply NoDup_singleton].
  - apply ends_bind. eapply ends_mono; [|apply ends_eq, path_to_root_ends; exact (bind_no_panic _ _ _ Hf)]. intros pin s' (Hpin & -> & Hni & Hhi).
    pose proof (bind_no_panic_r _ _ _ _ _ Hf Hpin) as HfHpin. clear Hf. rename HfHpin into Hf. cbv beta in Hf.
    apply ends_bind. eapply ends_mono; [|apply path_to_root_ends; exact (bind_no_panic _ _ _ Hf)]. intros pout s' (-> & Hno & Hho).
    apply ends_bind, ends_ok_or. intros path Hj. destruct (join_ok pin pout tin tout path Hni Hno Hhi Hho Hj) as (Hnd & Hhd & Hl). by apply Hroute.
Qed.
End path.
