(* ===== verification/DexOps.v ===== *)
(** * Operations and quotes

    Every operation keeps the book well-formed and the exchange solvent, or is
    reverted. From T12 on a quote walks the orders as a swap does, without filling
    them: it is the match against the line, and what a swap of the same amount
    returns. *)

From stdpp Require Import prelude gmap list strings.
From S2P Require Import Prelude TempoEvm DexTypes DexBook DexCredits Dex DexStore DexOrders.
From S2P Require Import DexHolds DexPrice DexInv DexCommit DexCancel DexPlace.
From S2P Require Import DexFill DexSwap DexRoute.

#[local] Open Scope Z_scope.

Section ops.
Context `{TempoSpec} `{TempoAddresses} `{Keccak} `{TIP20} `{TIP20Spec} `{!TIP20Ok} `{!BookKeys}.

(** ** Swaps *)

(** Enough fuel for the paths to the root token and for the orders. *)
Definition enough (fuel : nat) (s : Evm) (st : Store) (tin tout : Address) : Prop :=
  (size (st_orders st) <= fuel)%nat /\ (find_trade_path fuel tin tout s).1 <> Panic.

(** The amounts of a swap are those of matching along its route. *)
Definition swap_amount (fuel : nat) (s : Evm) (st : Store) (Q : Queues) (step : u128 -> Order -> bool -> option OrderStep) (dir : list (B256 * bool) -> list (B256 * bool))
    (tin tout : Address) (amount out : u128) : Prop :=
  exists route, find_trade_path fuel tin tout s = (Ok route, s) /\ NoDup route.*1 /\ route_ok st route tin tout /\ match_route step st Q (dir route) amount = Ok out.

(** Balances do not matter to the orders. *)
Lemma match_route_balance step st Q u t v route amount : match_route step (put_balance st u t v) Q route amount = match_route step st Q route amount.
Proof.
  revert amount. induction route as [|[key b] route IH]; intros amount; [done|]. cbn [match_route].
  change (match_book step (put_balance st u t v) Q key b amount) with (match_book step st Q key b amount). by destruct (match_book step st Q key b amount).
Qed.

Lemma swap_in_ends fuel sender tin tout amount min s st Q : is_t5 = true -> dex s st Q -> sender <> STABLECOIN_DEX_ADDRESS -> is_u128 amount ->
  enough fuel s st tin tout ->
  ends (swap_exact_amount_in fuel sender tin tout amount min) s (fun out s' =>
    min <= out /\ swap_amount fuel s st Q step_exact_in id tin tout amount out /\ exists st' Q', dex s' st' Q' /\ st_next st' = st_next st).
Proof.
  intros Ht5 [Hh Hinv Hk Hsol Htok] Hs Ha [Hfuel Hf]. unfold swap_exact_amount_in.
  apply ends_bind. eapply ends_mono; [|by apply ends_eq, (trade_path_ends fuel s st)]. intros route s0 (Hpath & -> & Hpi & Hpo & Hr & Hnd).
  apply ends_bind. eapply ends_mono; [|apply decrement_ends; [done|done|done|apply Ha]]. intros _ s1 (v & _ & Hv & Hh1 & Htok1 & Hm1). set (st1 := put_balance st sender tin v) in *.
  assert (inv st1 Q None) as Hinv1 by by apply inv_balance. apply ends_bind.
  eapply ends_mono; [|apply (swap_in_route_ends sender fuel Ht5 route s1 st1 Q tin tout [] amount); try done; by apply (same_route st)]. intros [credits out] s2 ((st2 & Q2 & Hh2 & He2 & Hinv2 & Hs2 & Hcr & Hl2) & Hout & Hmatch).
  cbn [fst snd] in *. apply ends_if. intros Hmin. apply ends_bind. eapply ends_mono; [|apply transfer_ends; [done|apply Hout|by eapply tokens_elsewhere]]. intros _ s3 (Hap & Htok3 & Hhold).
  apply ends_bind. eapply ends_mono; [|apply (flush_ends credits s3 st2); [by eapply holds_apart|done]]. intros _ s4 [Hh4 He4]. apply ends_ret.
  split_and!; [lia|exists route; split_and!; [done|done|done|by rewrite <- (match_route_balance _ st Q sender tin v)]|]. exists st2, Q2. split; [|apply Hs2]. split; [done|done|by eapply (same_tokens_keyed st1)| |by eapply tokens_elsewhere]. intros t. specialize (Hsol t). specialize (Hm1 t). specialize (Hl2 t). specialize (Hhold t).
  rewrite (holding_elsewhere s3 s4), Hhold, (holding_elsewhere s1 s2) by done. unfold at_token in Hl2. repeat case_decide; lia.
Qed.

Lemma swap_out_ends fuel sender tin tout amount max s st Q : is_t5 = true -> dex s st Q -> sender <> STABLECOIN_DEX_ADDRESS -> is_u128 amount ->
  enough fuel s st tin tout ->
  ends (swap_exact_amount_out fuel sender tin tout amount max) s (fun paid s' =>
    paid <= max /\ swap_amount fuel s st Q step_exact_out (@rev _) tin tout amount paid /\ exists st' Q', dex s' st' Q' /\ st_next st' = st_next st).
Proof.
  intros Ht5 [Hh Hinv Hk Hsol Htok] Hs Ha [Hfuel Hf]. unfold swap_exact_amount_out.
  apply ends_bind. eapply ends_mono; [|by apply ends_eq, (trade_path_ends fuel s st)]. intros route s0 (Hpath & -> & Hpi & Hpo & Hr & Hnd).
  apply ends_bind. eapply ends_mono; [|apply (swap_out_route_ends sender fuel Ht5 (rev route) s st Q tin tout [] amount); try done; [by apply route_rev|]].
  2: { rewrite rev_reverse, fmap_reverse, reverse_Permutation. done. }
  intros [credits paid] s1 ((st1 & Q1 & Hh1 & He1 & Hinv1 & Hs1 & Hcr & Hl1) & Hpaid & Hmatch).
  cbn [fst snd] in *. apply ends_if. intros Hmax. apply ends_bind. eapply ends_mono; [|apply decrement_ends; [exact Hh1|by eapply tokens_elsewhere|done|apply Hpaid]]. intros _ s2 (v & _ & Hv & Hh2 & Htok2 & Hm2).
  set (st2 := put_balance st1 sender tin v) in *. apply ends_bind. eapply ends_mono; [|apply transfer_ends; [done|apply Ha|done]]. intros _ s3 (Hap & Htok3 & Hhold).
  apply ends_bind. eapply ends_mono; [|apply (flush_ends credits s3 st2); [by eapply holds_apart|done]]. intros _ s4 [Hh4 He4]. apply ends_ret.
  split_and!; [lia|exists route; split_and!; [done|done|done|exact Hmatch]|]. exists st2, Q1. split; [|apply Hs1]. split; [done|by apply inv_balance|by eapply (same_tokens_keyed st)| |by eapply tokens_elsewhere]. intros t. specialize (Hsol t). specialize (Hm2 t). specialize (Hl1 t). specialize (Hhold t).
  rewrite (holding_elsewhere s3 s4), Hhold by done. rewrite (holding_elsewhere s s1) in Hm2 by done. unfold at_token in Hl1. repeat case_decide; lia.
Qed.

(** ** Cancelling *)

Lemma ends_shift {A} (m k : M A) s s1 P : m s = k s1 -> flags_same s s1 -> ends k s1 P -> ends m s P.
Proof. unfold ends. intros -> Hf. destruct (k s1) as [[a|e|] s2]; [intros [Hf2 HP]; split; [by etrans|done]|by etrans|done]. Qed.

(** A balance that would overflow reverts the call. *)
Lemma increment_overflow s st u t v P : holds s st -> u128_max < balance st u t + v -> ends (increment_balance u t v) s P.
Proof.
  intros Hh Hmax. unfold increment_balance. ends_by balance_of_acts. intros s1 Hh1 He1. unfold checked_add. rewrite decide_False by lia. done.
Qed.

Lemma cancel_overflow s st Q o P : holds s st -> inv st Q None -> st_orders st !! o_order_id o = Some o ->
  u128_max < balance st (o_maker o) (escrow_token st o) + escrow_amount o -> ends (cancel_active_order o) s P.
Proof.
  intros Hh Hinv Ho Hmax. destruct (leave_does s st Q _ o Hh Hinv Ho eq_refl) as (r & s1 & _ & Hh1 & He1 & Hrun).
  eapply (ends_shift (cancel_active_order o) _ s s1); [apply Hrun|apply He1|].
  rewrite <- (remove_balance st o r), <- (remove_escrow st o r o) in Hmax. unfold escrow_token, escrow_amount in Hmax.
  ends_by read_data_acts. intros s2 Hh2 He2. apply ends_bind. destruct (o_is_bid o); [|by eapply increment_overflow].
  apply ends_bind, ends_ok_or. intros q [-> _]%base_to_quote_Some. by eapply increment_overflow.
Qed.

(** The order is gone from its queue, and the escrow is the maker's. *)
Definition cancelled (st : Store) (Q : Queues) (o : Order) (s' : Evm) : Prop :=
  exists st' pre post, queue Q (key_of o) = pre ++ o_order_id o :: post /\ dex s' st' (set_queue Q (key_of o) (pre ++ post)) /\
    st_orders st' !! o_order_id o = None /\ st_next st' = st_next st /\
    balance st' (o_maker o) (escrow_token st o) = balance st (o_maker o) (escrow_token st o) + escrow_amount o.

Lemma cancel_links st Q o : inv st Q None -> st_orders st !! o_order_id o = Some o -> o_prev o <> o_order_id o /\ o_next o <> o_order_id o.
Proof.
  intros Hinv Ho. destruct (order_place st Q _ o Hinv Ho) as (pre & post & Hq & Hp & Hn). pose proof (queue_nodup st Q None Hinv (key_of o)) as Hnd. rewrite Hq in Hnd.
  apply NoDup_app in Hnd as (_ & Hd & [Hnp _]%list.NoDup_cons). assert (0 < o_order_id o) as Hpos by (apply (queue_ids st Q None Hinv (key_of o)); rewrite Hq; set_solver).
  rewrite Hp, Hn. split.
  - unfold last_id. destruct (last pre) as [x|] eqn:E; cbn; [|lia]. intros ->. apply (Hd (o_order_id o)); [by apply last_Some_elem_of|by left].
  - unfold first_id. destruct post as [|x post]; cbn; [lia|]. intros ->. apply Hnp. by left.
Qed.

Lemma cancelled_intro s st Q o r s' : dex s st Q -> st_orders st !! o_order_id o = Some o -> elsewhere s s' ->
  (tl_head (shrunk_level (level st (key_of o)) o) = 0 -> found (st_bits st ∖ {[key_of o]}) (o_book_key o) (o_is_bid o) (o_tick o) r) ->
  holds s' (cancel_st st o r) -> cancelled st Q o s'.
Proof.
  intros [Hh Hinv Hk Hsol Htok] Ho He Hf Hh'. destruct (cancel_inv st Q o r Hinv Ho Hf) as (pre & post & Hq & Hinv'). exists (cancel_st st o r), pre, post.
  destruct (cancel_links st Q o Hinv Ho) as [Hp Hn]. split_and!; [done| | |apply (remove_same st o r)|].
  - split; [done|done|apply (same_tokens_keyed (remove_st st o r)); [done|]; eapply same_tokens_keyed; [apply remove_same|done]| |by eapply tokens_elsewhere].
    intros t. rewrite cancel_liabilities, (holding_elsewhere s s') by done. apply Hsol.
  - unfold cancel_st. cbn. by rewrite lookup_delete_eq.
  - unfold cancel_st. change (balance (with_orders ?a ?x)) with (balance a). rewrite remove_escrow, remove_balance. by rewrite balance_put, decide_True.
Qed.

Lemma cancel_active_ends s st Q o : dex s st Q -> st_orders st !! o_order_id o = Some o -> ends (cancel_active_order o) s (fun _ s' => cancelled st Q o s').
Proof.
  intros Hdex Ho. pose proof Hdex as [Hh Hinv _ _ _]. destruct (decide (balance st (o_maker o) (escrow_token st o) + escrow_amount o <= u128_max)) as [Hle|Hgt].
  - destruct (cancel_active_does s st Q o Hh Hinv Ho Hle) as (r & Hdo & Hf). eapply does_ends; [exact Hdo|]. intros s' Hh' He. by eapply cancelled_intro.
  - eapply cancel_overflow; [done|done|done|lia].
Qed.

(** An order by its id, known or not. *)
Lemma order_read_ends s st id (P : Order -> Evm -> Prop) : holds s st ->
  (forall o s', st_orders st !! id = Some o -> holds s' st -> elsewhere s s' -> P o s') ->
  (forall s', st_orders st !! id = None -> holds s' st -> elsewhere s s' -> P zero_order s') -> ends (order_read id) s P.
Proof.
  intros Hh Hsome Hnone. destruct (st_orders st !! id) as [o|] eqn:Ho.
  - eapply ends_acts; [exact Hh|by apply (read_acts st id o None); [|left]|]. eauto.
  - eapply ends_acts; [exact Hh|by apply read_missing_acts|]. eauto.
Qed.

Lemma dex_elsewhere s s' st Q : dex s st Q -> holds s' st -> elsewhere s s' -> dex s' st Q.
Proof. intros [Hh Hinv Hk Hsol Htok] Hh' He. split; try done; [|by eapply tokens_elsewhere]. intros t. rewrite (holding_elsewhere s s') by done. apply Hsol. Qed.

Lemma cancel_ends s st Q sender id : dex s st Q ->
  ends (cancel sender id) s (fun _ s' => exists o, st_orders st !! id = Some o /\ o_maker o = sender /\ cancelled st Q o s').
Proof.
  intros Hdex. unfold cancel. apply ends_bind, (order_read_ends s st); [apply Hdex| |by intros s' _ _ _].
  intros o s' Ho Hh' He. case_decide; [done|]. case_decide as Hm; [done|]. case_decide; [done|].
  destruct (i_orders _ _ _ (dex_inv _ _ _ Hdex) id o Ho) as (Hid & _). subst id.
  eapply ends_mono; [|apply (cancel_active_ends s' st Q o); [by eapply dex_elsewhere|done]]. intros ? s2 Hc. by exists o.
Qed.

Lemma authorized_ends token user role s : ends (is_authorized_for_token token user role) s (fun _ s' => s' = s).
Proof.
  unfold is_authorized_for_token. apply ends_bind, from_address_ends. intros _. apply ends_bind, ends_view; [apply policy_view|]. intros policy _. apply ends_bind.
  destruct (authorized_view policy user role s) as [Hs Hp]. unfold ends, try. destruct (is_authorized_as policy user role s) as [[a|e|] s1]; cbn in Hs, Hp; subst; [done| |done].
  split; [done|]. by destruct (is_policy_lookup_error e).
Qed.

Lemma cancel_stale_ends s st Q id : dex s st Q ->
  ends (cancel_stale_order id) s (fun _ s' => exists o, st_orders st !! id = Some o /\ cancelled st Q o s').
Proof.
  intros Hdex. unfold cancel_stale_order. apply ends_bind, (order_read_ends s st); [apply Hdex| |by intros s' _ _ _].
  intros o s1 Ho Hh1 He1. case_decide; [done|]. destruct (i_orders _ _ _ (dex_inv _ _ _ Hdex) id o Ho) as (Hid & _). subst id.
  apply ends_bind. apply (ends_mono _ _ (fun _ s' => s' = s1)).
  2: { unfold is_maker_authorized. apply ends_bind. eapply ends_run; [by apply read_data_run|done|]. destruct (o_is_bid o); cbv beta iota; apply ends_bind;
       (eapply ends_mono; [|apply authorized_ends]); intros a s' ->; (destruct a; cbn [negb]; [|done]); (destruct is_t4; [apply authorized_ends|done]). }
  intros a s' ->. destruct a; [done|]. eapply ends_mono; [|apply (cancel_active_ends s1 st Q o); [by eapply dex_elsewhere|done]]. intros ? s2 Hc. by exists o.
Qed.

(** ** Balances and books *)

Lemma withdraw_ends s st Q user token amount : dex s st Q -> user <> STABLECOIN_DEX_ADDRESS -> 0 <= amount ->
  ends (withdraw user token amount) s (fun _ s' => amount <= balance st user token /\ dex s' (put_balance st user token (balance st user token - amount)) Q).
Proof.
  intros [Hh Hinv Hk Hsol Htok] Hu Ha. unfold withdraw. ends_by balance_of_acts. intros s1 Hh1 He1. case_decide as Hlt; [done|].
  ends_by sub_balance_acts; [lia|]. intros s2 Hh2 He2. eapply ends_mono; [|apply transfer_ends; [done|done|by apply (tokens_elsewhere s); [etrans|]]]. intros _ s3 (Hap & Htok3 & Hhold). split; [lia|].
  split; [by eapply holds_apart|by apply inv_balance|done| |done]. intros t. rewrite Hhold, (holding_elsewhere s s2) by (by etrans). rewrite liabilities_put.
  specialize (Hsol t). repeat case_decide; subst; try done; lia.
Qed.

Lemma create_pair_dex s st Q base : dex s st Q -> ends (create_pair base) s (fun _ s' => exists st', dex s' st' Q /\ st_next st' = st_next st).
Proof.
  intros [Hh Hinv Hk Hsol Htok]. eapply ends_mono; [|by apply (create_pair_ends s st Q)]. intros key s' (quote & _ & -> & Hz & Hpb & Hpq & Hb0 & Hlen & Hh' & He).
  exists (add_pair st (compute_book_key base quote) base quote). split; [|done]. split; [done|by apply add_pair_inv|by apply add_pair_keyed| |by eapply tokens_elsewhere].
  intros t. rewrite (add_pair_liabilities st Q), (holding_elsewhere s s') by done. apply Hsol.
Qed.

Lemma index_inv st Q key i : inv st Q None -> st_keys st !! i = Some key -> Z.of_nat (S i) <= u32_max -> inv (put_book st key (set_id (book st key) (Z.of_nat i + 1))) Q None.
Proof.
  intros [Ha1 Ha2 Ha3 Ha4 Ha5 Ha6 Ha7 Ha8 Ha9] Hi Hu. assert (forall key', bd_base (book (put_book st key (set_id (book st key) (Z.of_nat i + 1))) key') = bd_base (book st key') /\
    forall b, best (book (put_book st key (set_id (book st key) (Z.of_nat i + 1))) key') b = best (book st key') b) as Hsame.
  { intros key'. rewrite book_put. case_decide; [by subst; split; [|intros []]|done]. }
  split; try done.
  - intros k q Hq. rewrite (proj1 (Hsame _)). by apply Ha1.
  - intros key' b. rewrite (proj1 (Hsame _)), (proj2 (Hsame _)). apply Ha7.
  - intros key'. rewrite (proj1 (Hsame _)), book_put. case_decide as Hd; [subst|apply Ha8]. intros _. cbn. split; [unfold is_u32; lia|].
    unfold book_id_index. intros j. case_decide; [|done]. intros [= <-]. replace (Z.to_nat (Z.of_nat i + 1 - 1)) with i by lia. done.
Qed.

Lemma set_book_index_ends s st Q index : dex s st Q -> is_u32 index -> ends (set_book_index index) s (fun _ s' => exists st', dex s' st' Q /\ st_next st' = st_next st).
Proof.
  intros Hdex Hu. pose proof Hdex as [Hh Hinv Hk Hsol Htok]. unfold set_book_index. destruct (st_keys st !! Z.to_nat index) as [key|] eqn:Hi.
  - pose proof Hh as (_ & _ & cr & Hw). destruct (w_keys _ _ _ Hw) as (_ & Hlen & _). pose proof (lookup_lt_Some _ _ _ Hi).
    apply ends_bind. eapply ends_acts; [exact Hh|rewrite <- (Z2Nat.id index) by apply Hu; by apply book_key_acts|]. intros s1 Hh1 He1.
    unfold book_key_index, books. apply ends_bind, ends_bind. eapply ends_run; [by apply read_data_run|done|]. destruct (book_initialized (book st key)) eqn:Hb; [|done]. apply ends_ret.
    destruct (book_id_index (bd_book_id (book st key))) as [c|].
    + case_decide; [|done]. apply ends_ret. exists st. split; [by eapply dex_elsewhere|done].
    + unfold book_id_from_index. rewrite <- (Z2Nat.id index) by apply Hu. eapply ends_acts; [exact Hh1|apply write_book_id_acts; unfold is_u32 in *; lia|]. intros s2 Hh2 He2.
      exists (put_book st key (set_id (book st key) (Z.of_nat (Z.to_nat index) + 1))). split; [|done]. split; [exact Hh2|by apply index_inv; [| |lia]| | |by apply (tokens_elsewhere s); [etrans|]].
      * intros key'. rewrite book_put. case_decide; [subst; apply Hk|apply Hk].
      * intros t. rewrite (holding_elsewhere s s2) by (by etrans). etrans; [|apply Hsol]. unfold liabilities. apply Z.eq_le_incl. f_equal. apply msum_ext.
        intros j o _. unfold owed_order, escrow_token. rewrite book_put. destruct (decide (o_book_key o = key)) as [Hd|Hd]; [rewrite Hd|]; reflexivity.
  - pose proof Hh as (_ & _ & cr & Hw). apply ends_bind. unfold book_key_for_index, vec_at. apply ends_bind, ends_bind.
    eapply ends_acts; [exact Hh|apply vec_len_acts|]. intros s1 Hh1 He1. apply lookup_ge_None in Hi. rewrite decide_True by (unfold is_u32 in *; lia). done.
Qed.

(** ** A maker can cancel *)

Lemma owed_covers s st Q o : holds s st -> inv st Q None -> st_orders st !! o_order_id o = Some o ->
  balance st (o_maker o) (escrow_token st o) + escrow_amount o <= liabilities st (escrow_token st o).
Proof.
  intros (_ & _ & cr & Hw) Hinv Ho. unfold liabilities. assert (forall k v, st_balances st !! k = Some v -> 0 <= v) as Hb.
  { intros [u t] v Hv. destruct (w_balances _ _ _ Hw u t) as [_ Hr]. unfold balance in Hr. rewrite Hv in Hr. cbn in Hr. unfold is_u128 in Hr. lia. }
  assert (forall j x, st_orders st !! j = Some x -> 0 <= escrow_amount x) as Hx.
  { intros j x Hj. destruct (i_orders _ _ _ Hinv j x Hj) as (_ & _ & _ & Hr & _ & [Hv _] & _). unfold escrow_amount. destruct (o_is_bid x); [apply quote_up_nonneg; [done|lia]|lia]. }
  apply Z.add_le_mono.
  - unfold balance. assert (forall k v, st_balances st !! k = Some v -> 0 <= owed_balance (escrow_token st o) k v) as Hn.
    { intros k v Hv. unfold owed_balance. case_decide; [by eapply Hb|lia]. }
    destruct (st_balances st !! (o_maker o, escrow_token st o)) as [v|] eqn:E; cbn; [|by apply msum_nonneg].
    pose proof (msum_term_le _ _ _ _ Hn E) as Hle. unfold owed_balance at 1 in Hle. cbn in Hle. by rewrite decide_True in Hle.
  - assert (forall j x, st_orders st !! j = Some x -> 0 <= owed_order st (escrow_token st o) j x) as Hn.
    { intros j x Hj. unfold owed_order. case_decide; [by eapply Hx|lia]. }
    pose proof (msum_term_le _ _ _ _ Hn Ho) as Hle. unfold owed_order at 1 in Hle. by rewrite decide_True in Hle.
Qed.

Lemma cancel_does s st Q o : dex s st Q -> st_orders st !! o_order_id o = Some o -> holding s (escrow_token st o) <= u128_max ->
  exists s', cancel (o_maker o) (o_order_id o) s = (Ok tt, s') /\ cancelled st Q o s'.
Proof.
  intros Hdex Ho Hmax. pose proof Hdex as [Hh Hinv _ Hsol _]. destruct (i_orders _ _ _ Hinv _ o Ho) as (_ & _ & _ & Hrem & Hm & _).
  destruct (holds_acts _ s st _ _ Hh (read_acts st (o_order_id o) o None Ho (or_introl eq_refl))) as (s1 & Hr1 & Hh1 & He1).
  pose proof (owed_covers s st Q o Hh Hinv Ho). specialize (Hsol (escrow_token st o)).
  destruct (cancel_active_does s1 st Q o Hh1 Hinv Ho) as (r & (s2 & Hr2 & Hh2 & He2) & Hf); [lia|]. exists s2. split.
  - unfold cancel. unfold order_read. rewrite (bind_ok _ _ _ _ _ Hr1). rewrite decide_False by done. rewrite decide_False by tauto. by rewrite decide_False by lia.
  - eapply (cancelled_intro s); [done|done|by etrans|done|done].
Qed.
End ops.

Lemma split_unique {A} (x : A) l1 l2 k1 k2 : NoDup (l1 ++ x :: l2) -> l1 ++ x :: l2 = k1 ++ x :: k2 -> l1 = k1 /\ l2 = k2.
Proof.
  revert k1. induction l1 as [|y l1 IH]; intros [|z k1]; cbn; intros Hnd Heq; simplify_eq; [done| | |].
  - exfalso. apply list.NoDup_cons in Hnd as [Hn _]. apply Hn. set_solver.
  - exfalso. apply list.NoDup_cons in Hnd as [Hn _]. apply Hn. set_solver.
  - apply list.NoDup_cons in Hnd as [_ Hnd]. destruct (IH k1 Hnd) as [-> ->]; done.
Qed.

Lemma all_ticks_nodup b : NoDup (all_ticks b).
Proof. unfold all_ticks. destruct b; [rewrite reverse_Permutation|]; apply NoDup_seqZ. Qed.

(** The ticks after a tick, split at another. *)
Lemma ticks_after b t t' l1 l2 : all_ticks b = l1 ++ t :: l2 -> valid_tick t' -> beyond b t t' ->
  exists m1 m2, l2 = m1 ++ t' :: m2 /\ forall x, x ∈ m1 -> beyond b t x /\ beyond b x t'.
Proof.
  intros Heq Hv Hb. destruct (ticks_split b t' Hv) as (k1 & k2 & Heq' & Hk1 & Hk2). pose proof (all_ticks_nodup b) as Hnd.
  assert (valid_tick t) as Hvt.
  { assert (t ∈ all_ticks b) as Ht by (rewrite Heq; set_solver). unfold all_ticks in Ht. unfold valid_tick.
    destruct b; [rewrite elem_of_reverse in Ht|]; apply elem_of_seqZ in Ht; lia. }
  assert (t ∈ k1) as Htk by (apply Hk1; done). apply list_elem_of_split in Htk as (a & m1 & ->). exists m1, k2.
  assert (l1 = a /\ l2 = m1 ++ t' :: k2) as [-> Hl2].
  { apply (split_unique t); [by rewrite <- Heq|]. rewrite <- Heq, Heq', <- app_assoc. done. }
  split; [done|]. intros x Hx. split; [|apply Hk1; set_solver]. destruct (ticks_split b t Hvt) as (j1 & j2 & Hj & _ & Hj2). rewrite Hj in Hnd, Heq.
  destruct (split_unique t j1 j2 a l2 Hnd Heq) as [_ <-]. apply Hj2. rewrite Hl2. set_solver.
Qed.

Section quote.
Context `{TempoSpec} `{TempoAddresses} `{Keccak} `{TIP20} `{TIP20Spec} `{!TIP20Ok} `{!BookKeys}.

(** The order is in line, before [rest]. *)
Definition in_line (st : Store) (Q : Queues) (key : B256) (b : bool) (o : Order) (rest : list u128) : Prop :=
  st_orders st !! o_order_id o = Some o /\ o_book_key o = key /\ o_is_bid o = b /\ exists pre, line Q key b = pre ++ o_order_id o :: rest.

Lemma in_line_order st Q key b id pre rest : inv st Q None -> line Q key b = pre ++ id :: rest -> exists o, st_orders st !! id = Some o /\ o_order_id o = id /\ in_line st Q key b o rest.
Proof.
  intros Hinv Hl. assert (id ∈ line Q key b) as (t & Ht)%line_in by (rewrite Hl; set_solver).
  destruct (live_order st Q None Hinv (key, b, t) id) as (o & Ho & Hk); [by split|]. destruct (i_orders _ _ _ Hinv id o Ho) as (Hid & _). unfold key_of in Hk.
  exists o. split_and!; [done|done|]. split_and!; [by rewrite Hid|congruence|congruence|exists pre; by rewrite Hid].
Qed.

(** Where an order is in its queue, and what follows it in the line. *)
Lemma line_place st Q key b o rest : inv st Q None -> in_line st Q key b o rest ->
  exists post l2, (exists l1, all_ticks b = l1 ++ o_tick o :: l2) /\ rest = post ++ line_of Q key b l2 /\ o_next o = first_id post /\ (forall x, x ∈ post -> x ∈ queue Q (key_of o)).
Proof.
  intros Hinv (Ho & Hk & Hb & pre & Hl). destruct (order_place st Q _ o Hinv Ho) as (p & q & Hq & _ & Hn).
  destruct (i_orders _ _ _ Hinv _ o Ho) as (_ & _ & _ & _ & _ & [Hv _] & _). destruct (ticks_split b (o_tick o) Hv) as (l1 & l2 & Heq & _).
  exists q, l2. split_and!; [by exists l1| |done|rewrite Hq; set_solver]. assert (key_of o = (key, b, o_tick o)) as Hko by (unfold key_of; congruence). rewrite Hko in Hq.
  assert (NoDup (line Q key b)) as Hnd by by eapply line_nodup. rewrite Hl in Hnd. eapply (split_unique (o_order_id o) pre rest (line_of Q key b l1 ++ p)); [done|].
  rewrite <- Hl. unfold line. rewrite Heq, line_of_app, line_of_cons, Hq. by rewrite <- !app_assoc.
Qed.

Lemma no_bit st Q key b t : inv st Q None -> (key, b, t) ∉ st_bits st -> queue Q (key, b, t) = [].
Proof. intros Hinv Hn. rewrite (i_bits _ _ _ Hinv) in Hn. unfold queue. destruct (Q !! (key, b, t)); [|done]. exfalso. apply Hn. by eexists. Qed.

(** The next tick with orders starts the line after a tick. *)
Lemma next_line st Q key b t l1 l2 r : inv st Q None -> valid_tick t -> all_ticks b = l1 ++ t :: l2 -> found (st_bits st) key b t r ->
  if r.2 then valid_tick r.1 /\ exists more, line_of Q key b l2 = queue Q (key, b, r.1) ++ more /\ queue Q (key, b, r.1) <> [] else line_of Q key b l2 = [].
Proof.
  intros Hinv Hv Heq Hf. destruct (ticks_split b t Hv) as (j1 & j2 & Hj & _ & Hj2). pose proof (all_ticks_nodup b) as Hnd. rewrite Hj in Hnd.
  assert (l2 = j2) as -> by (rewrite Hj in Heq; symmetry; by apply (split_unique t j1 j2 l1 l2)). destruct r as [t' [|]]; cbn [fst snd] in *.
  - assert (valid_tick t' /\ beyond b t t' /\ (key, b, t') ∈ st_bits st /\ forall x, beyond b t x -> beyond b x t' -> (key, b, x) ∉ st_bits st) as (Hv' & Hb & Hbit & Hno).
    { unfold valid_tick in *. destruct b; unfold found, found_below, found_above in Hf; cbn [fst snd] in Hf; destruct Hf as (Hr & Hbit & Hn); unfold beyond;
        (split_and!; [lia|lia|lia|done|intros x ? ?; apply Hn; lia]). }
    destruct (ticks_after b t t' _ _ Hj Hv' Hb) as (m1 & m2 & -> & Hm). split; [done|]. exists (line_of Q key b m2). rewrite line_of_app, line_of_cons. split.
    + rewrite (line_of_nil _ _ _ m1); [done|]. intros x Hx. eapply no_bit; [done|]. apply Hno; by apply Hm.
    + apply (i_bits _ _ _ Hinv) in Hbit as [q Hq]. rewrite (queue_lookup _ _ _ Hq). by apply (i_queues _ _ _ Hinv _ _ Hq).
  - apply line_of_nil. intros x [Hx Hbx]%Hj2. eapply no_bit; [done|]. unfold valid_tick in *. destruct b; unfold found, found_below, found_above in Hf; cbn [fst snd] in Hf; unfold beyond in Hbx; apply Hf; lia.
Qed.

Lemma next_order_run s st Q key b o rest : holds s st -> inv st Q None -> in_line st Q key b o rest ->
  match rest with
  | [] => next_order_after key o b s = (Ok None, s)
  | id :: rest => exists o', next_order_after key o b s = (Ok (Some o'), s) /\ in_line st Q key b o' rest /\ o_order_id o' = id
  end.
Proof.
  intros Hh Hinv Hin. destruct (line_place st Q key b o rest Hinv Hin) as (post & l2 & [l1 Heq] & Hrest & Hn & Hpost). pose proof Hin as (Ho & Hk & Hb & pre & Hl).
  destruct (i_orders _ _ _ Hinv _ o Ho) as (_ & _ & _ & _ & _ & [Hv _] & _).
  assert (forall id more, rest = id :: more -> exists o', st_orders st !! id = Some o' /\ o_order_id o' = id /\ read_in_book id key s = (Ok o', s) /\ in_line st Q key b o' more) as Hread.
  { intros id more Hm. rewrite Hm in Hl. destruct (in_line_order st Q key b id (pre ++ [o_order_id o]) more Hinv) as (o' & Ho' & Hid & Hin').
    { rewrite Hl. by rewrite <- app_assoc. }
    exists o'. split_and!; try done. pose proof Hin' as (_ & <- & _). by eapply order_run. }
  unfold next_order_after. destruct post as [|n post].
  - rewrite decide_False by (rewrite Hn; cbn; tauto). cbn [app] in Hrest. destruct (next_tick_does s st key (o_tick o) b Hh (valid_i16 _ Hv)) as (r & Hdo & Hf).
    rewrite (bind_ok _ _ _ _ _ (keeps_run _ _ _ _ Hdo (next_tick_keeps _ _ _))). pose proof (next_line st Q key b _ l1 l2 r Hinv Hv Heq Hf) as Hnl.
    destruct r as [t' [|]]; cbv beta iota; cbn [fst snd] in Hnl.
    + destruct Hnl as (Hv' & more & Hline & Hne). destruct (queue Q (key, b, t')) as [|id q] eqn:Hq; [done|]. rewrite Hline in Hrest. cbn [app] in Hrest. rewrite Hrest.
      rewrite (bind_ok _ _ _ _ _ (level_run s st key t' b Hh (valid_i16 _ Hv'))). rewrite (i_levels _ _ _ Hinv), Hq. cbn [tl_head first_id head default].
      destruct (Hread _ _ Hrest) as (o' & _ & Hid & Hr & Hin'). exists o'. split_and!; [by rewrite (bind_ok _ _ _ _ _ Hr)|done|done].
    + by rewrite Hrest, Hnl.
  - assert (0 < n) as Hpos by (apply (queue_ids st Q None Hinv (key_of o)), Hpost; by left). cbn in Hn. rewrite decide_True by lia. cbn [app] in Hrest. rewrite Hrest.
    destruct (Hread _ _ Hrest) as (o' & _ & Hid & Hr & Hin'). exists o'. rewrite Hn. split_and!; [by rewrite (bind_ok _ _ _ _ _ Hr)|done|done].
Qed.

(** The orders from one on. *)
Definition orders_from (st : Store) (ids : list u128) : list Order := omap (fun id => core <$> st_orders st !! id) ids.

Lemma quote_loop_run s st Q key b step : (forall a o, step a (core o) b = step a o b) -> holds s st -> inv st Q None ->
  forall fuel o rest amount total, in_line st Q key b o rest -> (length rest < fuel)%nat ->
  quote_loop fuel key b step o amount total s = (match_line step b (core o :: orders_from st rest) amount total, s).
Proof.
  intros Hstep Hh Hinv fuel. induction fuel as [|fuel IH]; intros o rest amount total Hin Hfuel; [lia|]. cbn [quote_loop match_line].
  destruct (decide (amount <= 0)); [done|]. rewrite Hstep. destruct (step amount o b) as [x|]; [|done].
  change (ok_or under_overflow (Some x)) with (mret (M := M) x). rewrite (bind_ok (mret (M := M) x) _ s x s eq_refl). change (o_remaining (core o)) with (o_remaining o).
  destruct (decide (st_fill_amount x < o_remaining o)) as [Hlt|Hge].
  { by destruct (checked_add u128_max total (st_accumulate x)). }
  pose proof (next_order_run s st Q key b o rest Hh Hinv Hin) as Hnext. destruct rest as [|id rest].
  - rewrite (bind_ok _ _ _ _ _ Hnext). destruct (checked_add u128_max total (st_accumulate x)) as [total'|]; [|done].
    change (ok_or under_overflow (Some total')) with (mret (M := M) total'). rewrite (bind_ok (mret (M := M) total') _ s total' s eq_refl). cbn.
    destruct (decide (0 < st_next_amount x)); [by rewrite decide_False by lia|by rewrite decide_True by lia].
  - destruct Hnext as (o' & Hr & Hin' & Hid). rewrite (bind_ok _ _ _ _ _ Hr). destruct (checked_add u128_max total (st_accumulate x)) as [total'|]; [|done].
    change (ok_or under_overflow (Some total')) with (mret (M := M) total'). rewrite (bind_ok (mret (M := M) total') _ s total' s eq_refl).
    rewrite (IH o' rest) by (done || (cbn in Hfuel; lia)). unfold orders_from. cbn [omap list_omap]. destruct Hin' as (Ho' & _). rewrite Hid in Ho'. by rewrite Ho'.
Qed.

Lemma quote_book_run s st Q key b step fuel amount : (forall a o, step a (core o) b = step a o b) -> holds s st -> inv st Q None -> bd_base (book st key) <> 0 ->
  (size (st_orders st) <= fuel)%nat -> quote_per_order fuel key amount b step s = (match_book step st Q key b amount, s).
Proof.
  intros Hstep Hh Hinv Hbase Hfuel. unfold quote_per_order, match_book. destruct (best_level_run s st Q key b Hh Hinv Hbase) as [[Hr ->]|(o & Hfr & Hr & Hhd)].
  { unfold mbind, M_bind. by rewrite Hr. }
  destruct (front_line st Q key b o Hinv Hfr) as (rest & Hl & _). pose proof (line_size st Q key b Hinv) as Hsz. rewrite Hl in Hsz. cbn in Hsz.
  destruct (front_head st Q key b o Hinv Hfr) as [os Hos]. pose proof Hfr as (Ho & Hkey & Hside & _).
  rewrite (bind_ok _ _ _ _ _ Hr), Hhd. rewrite <- Hkey at 1. rewrite (bind_ok _ _ _ _ _ (order_run s st _ o Hh Ho)).
  rewrite (quote_loop_run s st Q key b step Hstep Hh Hinv fuel o rest); [|split_and!; [done|done|done|by exists []]|lia].
  assert (line_orders st Q key b = core o :: orders_from st rest) as ->; [|done]. unfold line_orders. rewrite Hl. cbn. by rewrite Ho.
Qed.

Lemma quote_in_route_run s st Q fuel tout : is_t12 = true -> holds s st -> inv st Q None -> (size (st_orders st) <= fuel)%nat ->
  forall route tin amount, route_ok st route tin tout -> quote_in_route fuel route amount s = (match_route step_exact_in st Q route amount, s).
Proof.
  intros H12 Hh Hinv Hfuel route. induction route as [|[key b] route IH]; intros tin amount; [done|]. intros (Hbase & _ & Hr). cbn [quote_in_route match_route].
  unfold quote_exact_in. rewrite H12. unfold mbind, M_bind. rewrite (quote_book_run s st Q key b _ fuel amount (step_in_core b)) by done.
  destruct (match_book step_exact_in st Q key b amount) as [a|e|]; [by eapply IH|done|done].
Qed.

Lemma quote_out_route_run s st Q fuel tin : is_t12 = true -> holds s st -> inv st Q None -> (size (st_orders st) <= fuel)%nat ->
  forall route tout amount, route_back st route tin tout -> quote_out_route fuel route amount s = (match_route step_exact_out st Q route amount, s).
Proof.
  intros H12 Hh Hinv Hfuel route. induction route as [|[key b] route IH]; intros tout amount; [done|]. intros (Hbase & _ & Hr). cbn [quote_out_route match_route].
  unfold quote_exact_out. rewrite H12. unfold mbind, M_bind. rewrite (quote_book_run s st Q key b _ fuel amount (step_out_core b)) by done.
  destruct (match_book step_exact_out st Q key b amount) as [a|e|]; [by eapply IH|done|done].
Qed.

Lemma quote_in_run s st Q fuel tin tout amount out : is_t12 = true -> dex s st Q -> (size (st_orders st) <= fuel)%nat -> swap_amount fuel s st Q step_exact_in id tin tout amount out ->
  quote_swap_exact_amount_in fuel tin tout amount s = (Ok out, s).
Proof.
  intros H12 [Hh Hinv _ _ _] Hfuel (route & Hpath & _ & Hr & Hm). unfold quote_swap_exact_amount_in. rewrite (bind_ok _ _ _ _ _ Hpath).
  rewrite (quote_in_route_run s st Q fuel tout) with (tin := tin) by done. unfold id in Hm. by rewrite Hm.
Qed.

Lemma quote_out_run s st Q fuel tin tout amount paid : is_t12 = true -> dex s st Q -> (size (st_orders st) <= fuel)%nat -> swap_amount fuel s st Q step_exact_out (@rev _) tin tout amount paid ->
  quote_swap_exact_amount_out fuel tin tout amount s = (Ok paid, s).
Proof.
  intros H12 [Hh Hinv _ _ _] Hfuel (route & Hpath & _ & Hr & Hm). unfold quote_swap_exact_amount_out. rewrite (bind_ok _ _ _ _ _ Hpath).
  rewrite (quote_out_route_run s st Q fuel tin) with (tout := tout) by (done || by apply route_rev). by rewrite Hm.
Qed.
End quote.
