(* ===== verification/DexCall.v ===== *)
(** * Calls of the exchange from outside

    stablecoin_dex.rs, [call], and mod.rs, [view] and [mutate]: a call is refused
    before the fork that schedules it and in a static context, and its result is
    encoded. A call that does not succeed leaves no trace. *)

From stdpp Require Import prelude gmap list strings.
From S2P Require Import Prelude TempoEvm DexTypes DexBook Dex.

#[local] Open Scope Z_scope.

Inductive IStablecoinDEXCalls :=
| placeCall (token : Address) (amount : u128) (isBid : bool) (tick : i16)
| placeFlipCall (token : Address) (amount : u128) (isBid : bool) (tick flipTick : i16)
| balanceOfCall (user token : Address)
| storageCreditsCall (user : Address)
| bookIndexForKeyCall (bookKey : B256)
| bookKeyForIndexCall (index : Z)
| setBookIndexCall (index : Z)
| getOrderCall (orderId : u128)
| getTickLevelCall (base : Address) (tick : i16) (isBid : bool)
| pairKeyCall (tokenA tokenB : Address)
| booksCall (pairKey : B256)
| nextOrderIdCall
| createPairCall (base : Address)
| withdrawCall (token : Address) (amount : u128)
| cancelCall (orderId : u128)
| cancelStaleOrderCall (orderId : u128)
| swapExactAmountInCall (tokenIn tokenOut : Address) (amountIn minAmountOut : u128)
| swapExactAmountOutCall (tokenIn tokenOut : Address) (amountOut maxAmountIn : u128)
| quoteSwapExactAmountInCall (tokenIn tokenOut : Address) (amountIn : u128)
| quoteSwapExactAmountOutCall (tokenIn tokenOut : Address) (amountOut : u128)
| MIN_TICKCall
| MAX_TICKCall
| TICK_SPACINGCall
| PRICE_SCALECall
| MIN_ORDER_AMOUNTCall
| MIN_PRICECall
| MAX_PRICECall
| tickToPriceCall (tick : i16)
| priceToTickCall (price : Z).

(** [SCHEDULED_SELECTORS]. *)
Definition SCHEDULED_SELECTORS (call : IStablecoinDEXCalls) : option TempoHardfork :=
  match call with
  | storageCreditsCall _ => Some T7
  | bookIndexForKeyCall _ | bookKeyForIndexCall _ | setBookIndexCall _ => Some T8
  | _ => None
  end.

(** What a precompile hands back; the words of the return values. *)
Inductive PrecompileOutput :=
| Returned (words : list Z)
| Reverted (error : TempoPrecompileError)
| Halted (reason : string).

(** [into_precompile_result]: the error is fatal to the node only when [Fatal]. *)
Definition into_precompile_result (r : Res TempoPrecompileError (list Z)) : Res string PrecompileOutput :=
  match r with
  | Ok words => Ok (Returned words)
  | Err OutOfGas => Ok (Halted "OutOfGas")
  | Err (Fatal message) => Err message
  | Err e => Ok (Reverted e)
  | Panic => Panic
  end.

Section call.
Context `{TempoSpec} `{TempoAddresses} `{Keccak} `{TIP20}.

Definition reject_static_call : Res string PrecompileOutput :=
  if negb is_t12 then Ok (Reverted (Revert "StaticCallNotAllowed" [])) else Ok (Halted "state change during static call").

Definition view_call (m : M (list Z)) (s : Evm) : Res string PrecompileOutput * Evm :=
  let '(r, s') := m s in (into_precompile_result r, s').

Definition mutate (is_static : bool) (m : M (list Z)) (s : Evm) : Res string PrecompileOutput * Evm :=
  if is_static then (reject_static_call, s) else view_call m s.

Definition word1 (m : M Z) : M (list Z) := x ← m; mret [x].
Definition no_words (m : M unit) : M (list Z) := _ ← m; mret [].

(** The call [c] the calldata decodes to, [selector] its first four bytes; [fuel]
    bounds the loops over orders and over quote tokens. *)
Definition call (fuel : nat) (is_static : bool) (msg_sender : Address) (selector : Z) (c : IStablecoinDEXCalls) (s : Evm) : Res string PrecompileOutput * Evm :=
  if match SCHEDULED_SELECTORS c with Some fork => negb (since fork) | None => false end
  then (Ok (Reverted (UnknownFunctionSelector selector)), s)
  else
    let mutating m := mutate is_static (_ ← preserve_storage_credits; m) s in
    let viewing m := view_call m s in
    match c with
    | placeCall token amount isBid tick => mutating (word1 (place msg_sender token amount isBid tick))
    | placeFlipCall token amount isBid tick flipTick => mutating (word1 (place_flip msg_sender token amount isBid tick flipTick false))
    | balanceOfCall user token => viewing (word1 (balance_of user token))
    | storageCreditsCall user => viewing (word1 (h_read PU64 (dex_credits user)))
    | bookIndexForKeyCall bookKey =>
        viewing (index ← book_key_index bookKey; mret [bool_u8 (bool_decide (is_Some index)); default 0 index])
    | bookKeyForIndexCall index => viewing (word1 (book_key_for_index index))
    | setBookIndexCall index => mutating (no_words (set_book_index index))
    | getOrderCall orderId =>
        viewing (o ← get_order orderId;
                 mret [o_order_id o; o_maker o; o_book_key o; bool_u8 (o_is_bid o); o_tick o; o_amount o; o_remaining o; o_prev o; o_next o;
                       bool_u8 (o_is_flip o); o_flip_tick o])
    | getTickLevelCall base tick isBid =>
        viewing (l ← get_price_level fuel base tick isBid; mret [tl_head l; tl_tail l; tl_total_liquidity l])
    | pairKeyCall tokenA tokenB => viewing (mret [compute_book_key tokenA tokenB])
    | booksCall pairKey => viewing (b ← books pairKey; mret [bd_base b; bd_quote b; bd_best_bid_tick b; bd_best_ask_tick b])
    | nextOrderIdCall => viewing (word1 next_order_id_val)
    | createPairCall base => mutating (word1 (create_pair base))
    | withdrawCall token amount => mutating (no_words (withdraw msg_sender token amount))
    | cancelCall orderId => mutating (no_words (cancel msg_sender orderId))
    | cancelStaleOrderCall orderId => mutating (no_words (cancel_stale_order orderId))
    | swapExactAmountInCall tokenIn tokenOut amountIn minAmountOut =>
        mutating (word1 (swap_exact_amount_in fuel msg_sender tokenIn tokenOut amountIn minAmountOut))
    | swapExactAmountOutCall tokenIn tokenOut amountOut maxAmountIn =>
        mutating (word1 (swap_exact_amount_out fuel msg_sender tokenIn tokenOut amountOut maxAmountIn))
    | quoteSwapExactAmountInCall tokenIn tokenOut amountIn => viewing (word1 (quote_swap_exact_amount_in fuel tokenIn tokenOut amountIn))
    | quoteSwapExactAmountOutCall tokenIn tokenOut amountOut => viewing (word1 (quote_swap_exact_amount_out fuel tokenIn tokenOut amountOut))
    | MIN_TICKCall => viewing (mret [MIN_TICK])
    | MAX_TICKCall => viewing (mret [MAX_TICK])
    | TICK_SPACINGCall => viewing (mret [TICK_SPACING])
    | PRICE_SCALECall => viewing (mret [PRICE_SCALE])
    | MIN_ORDER_AMOUNTCall => viewing (mret [MIN_ORDER_AMOUNT])
    | MIN_PRICECall => viewing (mret [MIN_PRICE])
    | MAX_PRICECall => viewing (mret [MAX_PRICE])
    | tickToPriceCall tick => viewing (word1 (tick_to_price_fn tick))
    | priceToTickCall price => viewing (word1 (price_to_tick_fn price))
    end.
End call.
