(* ===== verification/Tip20Call.v ===== *)
(** * Calls of tokens from outside

    tip20.rs, [call] of [TIP20Token]: a token that is not deployed and a call
    before the fork that schedules it are refused, and so is a change of state in
    a static context; receive_policy_guard.rs and tip20_factory.rs, [call]. *)

From stdpp Require Import prelude gmap list strings.
From S2P Require Import Prelude TempoEvm TempoBytes Tip403 Keychain Tip20 DexCall.

#[local] Open Scope Z_scope.

Inductive ITIP20Calls :=
| nameCall | symbolCall | decimalsCall | currencyCall | logoURICall | totalSupplyCall | supplyCapCall | transferPolicyIdCall | pausedCall
| balanceOfTokenCall (account : Address)
| allowanceCall (owner spender : Address)
| quoteTokenCall | nextQuoteTokenCall
| PAUSE_ROLECall | UNPAUSE_ROLECall | ISSUER_ROLECall | BURN_BLOCKED_ROLECall | BURN_AT_ROLECall
| transferFromCall (from to : Address) (amount : U256)
| transferCall (to : Address) (amount : U256)
| approveCall (spender : Address) (amount : U256)
| changeTransferPolicyIdCall (newPolicyId : u64)
| setSupplyCapCall (newSupplyCap : U256)
| setLogoURICall (newLogoURI : bytes)
| pauseCall | unpauseCall
| setNextQuoteTokenCall (newQuoteToken : Address)
| completeQuoteTokenUpdateCall
| mintCall (to : Address) (amount : U256)
| mintWithMemoCall (to : Address) (amount : U256) (memo : B256)
| burnCall (amount : U256)
| burnWithMemoCall (amount : U256) (memo : B256)
| burnBlockedCall (from : Address) (amount : U256)
| burnAtCall (from : Address) (amount : U256)
| transferWithMemoCall (to : Address) (amount : U256) (memo : B256)
| transferFromWithMemoCall (from to : Address) (amount : U256) (memo : B256)
| distributeRewardCall (amount : U256)
| setRewardRecipientCall (recipient : Address)
| claimRewardsCall
| globalRewardPerTokenCall | optedInSupplyCall
| userRewardInfoCall (account : Address)
| getPendingRewardsCall (account : Address)
| permitCall (owner spender : Address) (value deadline : U256) (v : Z) (r s : B256)
| noncesCall (owner : Address)
| DOMAIN_SEPARATORCall
| hasRoleCall (account : Address) (role : B256)
| getRoleAdminCall (role : B256)
| grantRoleCall (role : B256) (account : Address)
| revokeRoleCall (role : B256) (account : Address)
| renounceRoleCall (role : B256)
| setRoleAdminCall (role adminRole : B256).

Section call.
Context `{TempoSpec} `{TempoAddresses} `{!TokenAddresses} `{Keccak} `{SystemPrecompiles} `{BlockEnv} `{ReceiptAbi}.

(** [selector_is_disabled]. *)
Definition selector_is_disabled (c : ITIP20Calls) : bool :=
  match c with
  | logoURICall | setLogoURICall _ => negb is_t5
  | permitCall _ _ _ _ _ _ _ | noncesCall _ | DOMAIN_SEPARATORCall => negb is_t2
  | burnAtCall _ _ | BURN_AT_ROLECall => negb is_t12
  | _ => false
  end.

Definition flag1 (m : M bool) : M (list Z) := b ← m; mret [flag b].
Definition yes (m : M unit) : M (list Z) := _ ← m; mret [1].

(** What a call runs, and whether it changes state. Strings are returned as their
    bytes; [fuel] bounds the walk over quote tokens. *)
Definition tip20_body (fuel : nat) (token msg_sender : Address) (c : ITIP20Calls) : bool * M (list Z) :=
  match c with
  | nameCall => (false, string_load token NAME)
  | symbolCall => (false, string_load token SYMBOL)
  | decimalsCall => (false, mret [6])
  | currencyCall => (false, currency token)
  | logoURICall => (false, string_load token LOGO_URI)
  | totalSupplyCall => (false, word1 (total_supply token))
  | supplyCapCall => (false, word1 (supply_cap token))
  | transferPolicyIdCall => (false, word1 (token_transfer_policy_id token))
  | pausedCall => (false, flag1 (paused token))
  | balanceOfTokenCall account => (false, word1 (get_balance token account))
  | allowanceCall owner spender => (false, word1 (get_allowance token owner spender))
  | quoteTokenCall => (false, word1 (token_quote_token token))
  | nextQuoteTokenCall => (false, word1 (next_quote_token token))
  | PAUSE_ROLECall => (false, mret [PAUSE_ROLE])
  | UNPAUSE_ROLECall => (false, mret [UNPAUSE_ROLE])
  | ISSUER_ROLECall => (false, mret [ISSUER_ROLE])
  | BURN_BLOCKED_ROLECall => (false, mret [BURN_BLOCKED_ROLE])
  | BURN_AT_ROLECall => (false, mret [BURN_AT_ROLE])
  | transferFromCall from to amount => (true, yes (token_transfer_from token msg_sender from to amount))
  | transferCall to amount => (true, yes (token_transfer token msg_sender to amount))
  | approveCall spender amount => (true, yes (approve token msg_sender spender amount))
  | changeTransferPolicyIdCall newPolicyId => (true, no_words (change_transfer_policy_id token msg_sender newPolicyId))
  | setSupplyCapCall newSupplyCap => (true, no_words (set_supply_cap token msg_sender newSupplyCap))
  | setLogoURICall newLogoURI => (true, no_words (set_logo_uri token msg_sender newLogoURI))
  | pauseCall => (true, no_words (pause token msg_sender))
  | unpauseCall => (true, no_words (unpause token msg_sender))
  | setNextQuoteTokenCall newQuoteToken => (true, no_words (set_next_quote_token token msg_sender newQuoteToken))
  | completeQuoteTokenUpdateCall => (true, no_words (complete_quote_token_update token fuel msg_sender))
  | mintCall to amount => (true, no_words (mint token msg_sender to amount))
  | mintWithMemoCall to amount memo => (true, no_words (mint_with_memo token msg_sender to amount memo))
  | burnCall amount => (true, no_words (burn token msg_sender amount))
  | burnWithMemoCall amount memo => (true, no_words (burn_with_memo token msg_sender amount memo))
  | burnBlockedCall from amount => (true, no_words (burn_blocked token msg_sender from amount))
  | burnAtCall from amount => (true, no_words (burn_at token msg_sender from amount))
  | transferWithMemoCall to amount memo => (true, no_words (transfer_with_memo token msg_sender to amount memo))
  | transferFromWithMemoCall from to amount memo => (true, yes (transfer_from_with_memo token msg_sender from to amount memo))
  | distributeRewardCall amount => (true, no_words (distribute_reward token msg_sender amount))
  | setRewardRecipientCall recipient => (true, no_words (set_reward_recipient token msg_sender recipient))
  | claimRewardsCall => (true, word1 (claim_rewards token msg_sender))
  | globalRewardPerTokenCall => (false, word1 (get_global_reward_per_token token))
  | optedInSupplyCall => (false, word1 (get_opted_in_supply token))
  | userRewardInfoCall account => (false, i ← reward_load token account; mret [rw_recipient i; rw_per_token i; rw_balance i])
  | getPendingRewardsCall account => (false, word1 (get_pending_rewards token account))
  | permitCall owner spender value deadline v r s => (true, no_words (permit token owner spender value deadline v r s))
  | noncesCall owner => (false, word1 (h_read PU256 (permit_nonces token owner)))
  | DOMAIN_SEPARATORCall => (false, word1 (domain_separator token))
  | hasRoleCall account role => (false, flag1 (has_role token account role))
  | getRoleAdminCall role => (false, word1 (get_role_admin token role))
  | grantRoleCall role account => (true, no_words (grant_role token msg_sender role account))
  | revokeRoleCall role account => (true, no_words (revoke_role token msg_sender role account))
  | renounceRoleCall role => (true, no_words (renounce_role token msg_sender role))
  | setRoleAdminCall role adminRole => (true, no_words (set_role_admin token msg_sender role adminRole))
  end.

(** The call [c] the calldata decodes to, [selector] its first four bytes. *)
Definition tip20_call (fuel : nat) (is_static : bool) (token msg_sender : Address) (selector : Z) (c : ITIP20Calls) (s : Evm) : Res string PrecompileOutput * Evm :=
  if negb (bool_decide (token ∈ evm_code s)) then (Ok (Reverted (Revert "Uninitialized" [])), s)
  else if selector_is_disabled c then (Ok (Reverted (UnknownFunctionSelector selector)), s)
  else
    let '(changes, m) := tip20_body fuel token msg_sender c in
    if changes : bool then mutate is_static m s else view_call m s.

Inductive IReceivePolicyGuardCalls :=
| guardBalanceOfCall (receipt : bytes)
| guardClaimCall (to : Address) (receipt : bytes)
| burnBlockedReceiptCall (receipt : bytes).

Definition guard_call (is_static : bool) (msg_sender : Address) (selector : Z) (c : IReceivePolicyGuardCalls) (s : Evm) : Res string PrecompileOutput * Evm :=
  if negb is_t6 then (Ok (Reverted (UnknownFunctionSelector selector)), s)
  else
    match c with
    | guardBalanceOfCall receipt => view_call (word1 (guard_balance_of receipt)) s
    | guardClaimCall to receipt => mutate is_static (no_words (claim msg_sender to receipt)) s
    | burnBlockedReceiptCall receipt => mutate is_static (no_words (burn_blocked_receipt msg_sender receipt)) s
    end.

Inductive ITIP20FactoryCalls :=
| createToken_0Call (name_ symbol currency_ : bytes) (quoteToken admin : Address) (salt : B256)
| createToken_1Call (name_ symbol currency_ : bytes) (quoteToken admin : Address) (salt : B256) (logoURI : bytes)
| isTIP20Call (token : Address)
| getTokenAddressCall (sender : Address) (salt : B256).

Definition factory_call (is_static : bool) (msg_sender : Address) (selector : Z) (c : ITIP20FactoryCalls) (s : Evm) : Res string PrecompileOutput * Evm :=
  match c with
  | createToken_0Call n y u q a salt => mutate is_static (word1 (create_token msg_sender n y u q a salt)) s
  | createToken_1Call n y u q a salt logo =>
      if negb is_t5 then (Ok (Reverted (UnknownFunctionSelector selector)), s)
      else mutate is_static (word1 (create_token_with_logo msg_sender n y u q a salt logo)) s
  | isTIP20Call token => view_call (flag1 (factory_is_tip20 token)) s
  | getTokenAddressCall sender salt => view_call (word1 (get_token_address sender salt)) s
  end.
End call.
