(* ===== verification/Tip20Sound.v ===== *)
(** * Token calls keep the ledgers

    Every call of a token, of the guard, of the factory and of the registries
    keeps the ledgers of all tokens sound. *)

From stdpp Require Import prelude gmap list strings.
From S2P Require Import Prelude DexPrice TempoEvm TempoBytes DexCredits Tip403 Keychain Tip20 Tip20Facts Tip20Ledger DexCall Tip20Call.

#[local] Open Scope Z_scope.

Section sound.
Context `{TempoSpec} `{TempoAddresses} `{!TokenAddresses} `{!TokenAddressesOk} `{Keccak} `{SystemPrecompiles} `{BlockEnv} `{ReceiptAbi}.

#[local] Hint Resolve read_bool_frame string_load_frame get_master_frame resolve_recipient_frame recipient_resolve_frame recipient_validate_frame
  is_simple_frame policy_data_frame simple_cached_frame authorized_frame policy_exists_frame check_receive_frame receive_authorized_frame
  token_policy_frame transfer_authorized_frame authorized_all_frame not_paused_frame check_role_frame from_address_frame is_tip20_frame
  burn_address_frame reward_load_frame usd_frame load_key_frame spending_key_frame hop_frame : frames.

Lemma from_address_sound {A} a (m : M A) : (has_tip20_prefix a = true -> sound m) -> sound (_ ← token_from_address a; m).
Proof. unfold token_from_address. destruct (has_tip20_prefix a); intros Hm; [|by intros s Hok ? ? ?]. apply sound_bind; [apply sound_view; intros; frames|]. intros _. by apply Hm. Qed.

(** Goes through the steps of a run; steps that only read are done. *)
Ltac sounds :=
  repeat first
    [ solve [apply sound_view; intros; unfold tip20_emit, memo_event, burn_event; frames]
    | progress cbv zeta beta
    | match goal with
      | |- sound (token_from_address _ ≫= _) => apply from_address_sound; intros
      | |- sound (_ ≫= _) => apply sound_bind; [|intros]
      | |- sound (when _ _) => apply sound_when
      | |- sound (if decide ?P then _ else _) => destruct (decide P)
      | |- sound (if ?b then _ else _) => apply sound_if
      | |- sound (match ?x with _ => _ end) => destruct x
      end ].

(** A token is neither virtual nor the zero address. *)
Lemma prefix_not_zero token : has_tip20_prefix token = true -> token <> 0.
Proof. by intros Ht ->. Qed.

Lemma prefix_not_virtual token : prefix12 token = TIP20_TOKEN_PREFIX -> Z.shiftr token 48 mod 2 ^ 80 = VIRTUAL_MAGIC -> False.
Proof.
  unfold prefix12. rewrite !Z.shiftr_div_pow2 by lia. intros Hp Hv. assert (token / 2 ^ 64 = token / 2 ^ 48 / 2 ^ 16) as He by (by rewrite Z.div_div by lia).
  rewrite He in Hp. assert (VIRTUAL_MAGIC / 2 ^ 16 = TIP20_TOKEN_PREFIX mod 2 ^ 64) as Hm; [|done].
  rewrite <- Hp, <- Hv. set (x := token / 2 ^ 48). clearbody x. pose proof (Z.div_mod x (2 ^ 80) ltac:(lia)). rewrite (Z.div_mod x (2 ^ 80)) at 2 by lia.
  replace (2 ^ 80 * (x / 2 ^ 80) + x mod 2 ^ 80) with (x mod 2 ^ 80 + (x / 2 ^ 80 * 2 ^ 64) * 2 ^ 16) by lia.
  rewrite Z.div_add by lia. rewrite Z_mod_plus_full. symmetry. apply Z.mod_small. pose proof (Z.mod_pos_bound x (2 ^ 80)). split; [apply Z.div_pos; lia|apply Z.div_lt_upper_bound; lia].
Qed.

Section token.
Context (token : Address) (Htok : has_tip20_prefix token = true).

Lemma validate_transfer_ok spender from to amount memo s : 0 <= amount -> ledgers_ok s ->
  returns (validate_transfer token spender from to amount memo) s (fun r s' => ledgers_ok s' /\ forall to, r = Some to -> r_target to <> 0).
Proof.
  intros Ha Hok. unfold validate_transfer.
  apply returns_bind. eapply returns_mono; [apply (sound_view (recipient_resolve to)); [frames|done]|]. intros r s1 Hok1.
  apply returns_bind. eapply returns_mono; [apply (sound_view (token_not_paused token)); [intros; frames|done]|]. intros [] s2 Hok2.
  unfold recipient_validate. case_decide as Hd; [by intros ? ? ?|]. apply returns_bind, returns_ret.
  apply returns_bind. eapply returns_mono; [apply (sound_view (token_transfer_authorized token from (r_target r))); [intros; frames|done]|]. intros [] s3 Hok3.
  apply returns_bind. eapply (returns_mono _ _ (fun _ s' => ledgers_ok s')).
  { destruct spender; [apply (side_sound token); [done|by apply consume_frame|done]|apply keychain_sound; [apply authorize_transfer_frame|done]]. }
  intros [] s4 Hok4. apply returns_bind. eapply returns_mono; [by apply inbound_sound|]. intros b s5 Hok5. apply returns_ret. split; [done|].
  intros to'. destruct b; [done|]. intros [= <-] Hz. apply Hd. by left.
Qed.

(** A transfer of any kind. *)
Lemma transfers_sound spender from to amount memo (m : M unit) : 0 <= amount -> (forall W, writes W m) ->
  sound (r ← validate_transfer token spender from to amount memo; finish_transfer token from r amount m).
Proof.
  intros Ha Hm s Hok. apply returns_bind. eapply returns_mono; [by apply validate_transfer_ok|]. intros [r|] s1 [Hok1 Hr]; [|by apply returns_ret].
  cbn [finish_transfer]. revert s1 Hok1. change (sound (_ ← transfer_to token from r amount; _ ← m; emit_virtual_hop token r amount)).
  apply sound_bind; [apply transfer_to_sound; [done|done|by apply Hr]|]. intros _. apply sound_view. intros W. frames.
Qed.

(** A mint of any kind. *)
Lemma mints_sound sender to amount memo (m : M unit) : 0 <= amount -> (forall W, writes W m) ->
  sound (r ← validate_mint token sender to amount memo; finish_mint token to r amount m).
Proof.
  intros Ha Hm s Hok. apply returns_bind. eapply (returns_mono _ _ (fun r s' => ledgers_ok s' /\ forall v x, r = Some (v, x) -> v = supply_of s' token)).
  - unfold validate_mint. apply returns_bind. eapply returns_writes; [apply (recipient_resolve_frame nowhere)|]. intros r s1 K1%nowhere_still.
    apply returns_bind. eapply returns_writes; [apply (check_role_frame nowhere)|]. intros _ s2 K2%nowhere_still.
    apply returns_bind, total_supply_returns. set (v := supply_of s2 token).
    apply returns_bind. eapply (returns_writes nowhere); [frames|]. intros _ s3 K3%nowhere_still.
    apply returns_bind. eapply returns_writes; [apply (token_policy_frame nowhere)|]. intros id s4 K4%nowhere_still.
    apply returns_bind. eapply returns_writes; [apply (authorized_frame nowhere)|]. intros b s5 K5%nowhere_still. destruct b; cbn [negb]; [|apply returns_throw].
    assert (ledgers_ok s5) as Hok5 by (do 5 (eapply still_ok; [done|]); done).
    assert (v = supply_of s5 token) as -> by (subst v; by rewrite (proj1 (proj2 (st_ledgers _ _ K5 token Htok))), (proj1 (proj2 (st_ledgers _ _ K4 token Htok))), (proj1 (proj2 (st_ledgers _ _ K3 token Htok)))).
    apply returns_bind. eapply returns_mono; [by apply inbound_mint|]. intros b s6 [Hok6 Hst]. apply returns_ret. split; [done|]. intros v x. destruct b; [done|].
    intros [= <- _]. by rewrite (proj1 (proj2 (st_ledgers _ _ (Hst eq_refl) token Htok))).
  - intros [[v r]|] s1 [Hok1 Hv]; [|by apply returns_ret]. cbn [finish_mint]. rewrite (Hv v r eq_refl). apply returns_bind. eapply returns_mono; [by apply mint_to_ok|].
    intros [] s2 Hok2. revert s2 Hok2. change (sound (_ ← m; _ ← tip20_emit token "Mint" [Word to; Word amount]; emit_virtual_hop token r amount)).
    apply sound_view. intros W. unfold tip20_emit. frames.
Qed.

Lemma burn_sound sender amount : 0 <= amount -> sound (burn_own token sender amount).
Proof. intros Ha. unfold burn_own. sounds. by apply burn_from_sound. Qed.

Lemma burn_blocked_sound sender owner amount b : 0 <= amount -> sound (burn_blocked_internal token sender owner amount b).
Proof. intros Ha. unfold burn_blocked_internal. sounds; by apply burn_from_sound. Qed.

Lemma burn_at_sound sender from amount : 0 <= amount -> sound (burn_at token sender from amount).
Proof. intros Ha. unfold burn_at. sounds; [apply keychain_sound, authorize_transfer_frame|by apply burn_from_sound]. Qed.

Lemma cap_ok v s s' : ledgers_ok s -> frame (fun a x => a = token /\ x = At 13) s s' -> cap_of s' token = v -> supply_of s token <= v <= u128_max -> ledgers_ok s'.
Proof.
  intros [Ht Hc Hb Hrc] Hf Hv Hr. assert (forall t who, has_tip20_prefix t = true -> bal s' t who = bal s t who) as Hbal by (intros; by apply (word_kept token _ _ _ _ _ Hf)).
  assert (forall t, has_tip20_prefix t = true -> supply_of s' t = supply_of s t) as Hsup by (intros; by apply (word_kept token _ _ _ _ _ Hf)).
  split; [intros t..|intros key; by rewrite (receipt_kept token Htok _ _ _ key Hf)].
  - intros Hp. rewrite Hsup, <- Ht by done. apply total_ext. intros who. by apply Hbal.
  - intros Hp. rewrite Hsup by done. destruct (decide (t = token)) as [->|Hne]; [lia|]. unfold cap_of. rewrite (word_kept token _ _ _ _ _ Hf); [by apply Hc|done|congruence].
  - intros who Hp. rewrite Hbal by done. by apply Hb.
Qed.

Lemma set_cap_sound sender v : sound (set_supply_cap token sender v).
Proof.
  intros s Hok. unfold set_supply_cap. apply returns_bind. eapply returns_mono; [apply (sound_view (check_role token sender DEFAULT_ADMIN_ROLE)); [intros; frames|done]|].
  intros [] s1 Hok1. apply returns_bind, total_supply_returns. case_decide; [apply returns_throw|]. case_decide; [apply returns_throw|].
  apply returns_bind, returns_store; [by apply token_not_credits|]. intros s2 Hf Hv. eapply returns_writes; [apply (writes_emit nowhere)|]. intros _ s3 K3%nowhere_still.
  eapply still_ok; [done|]. eapply cap_ok; [exact Hok1|exact Hf|exact Hv|lia].
Qed.

(** Strings of a token are beside the ledger. *)
Lemma bytes_store_frame n data : ~ ledger_slot (At n) -> writes (side token) (bytes_store token (At n) data).
Proof.
  intros Hn. assert (forall f l, writes (side token) (iterM (fun i => sstore token (slot_add (calc_data_slot (At n)) i) (f i)) l)) as Hit.
  { intros f l. apply writes_iter. intros i _. apply side_store; [done|]. plain_slot. }
  unfold bytes_store, clear_tail, calc_string_length. frames; try apply Hit; try (by apply side_store).
Qed.

Lemma policy_write_sound id : sound (write_transfer_policy token id).
Proof.
  unfold write_transfer_policy. apply sound_if; [apply registry_sound, writes_sstore; [apply registry_not_credits|done]|].
  apply (side_sound token); [done|]. apply side_write; [done|done|plain_slot].
Qed.

Lemma side_op {A} (m : M A) : writes (side token) m -> sound m.
Proof. by apply side_sound. Qed.

Lemma initialize_sound sender n y u quote admin : sound (initialize token sender n y u quote admin).
Proof.
  unfold initialize. apply sound_bind; [apply sound_view; intros; frames|]. intros _.
  do 3 (apply sound_bind; [apply side_op, bytes_store_frame; plain_slot|]; intros _).
  do 2 (apply sound_bind; [apply side_op, side_write; [done|done|plain_slot]|]; intros _).
  apply sound_bind; [|intros _; apply sound_bind; [apply policy_write_sound|]; intros _].
  - intros s Hok. apply returns_store; [by apply token_not_credits|]. intros s' Hf Hv. pose proof (l_cap s Hok token Htok). eapply cap_ok; [done|exact Hf|exact Hv|lia].
  - apply side_op. unfold grant_default_admin, role_updated, tip20_emit, set_role_admin_internal. frames; (apply side_write || apply side_bool); try done; plain_slot.
Qed.

(** Administration beside the ledger. *)
Lemma roles_frame account role b : writes (side token) (write_bool (roles token account role) b).
Proof. apply side_bool; [done|done|]. plain_slot. Qed.
Hint Resolve roles_frame : frames.

Lemma admin_sound sender role account adm : sound (grant_role token sender role account) /\ sound (revoke_role token sender role account) /\
  sound (renounce_role token sender role) /\ sound (set_role_admin token sender role adm).
Proof.
  split_and!; apply side_op; unfold grant_role, revoke_role, renounce_role, set_role_admin, get_role_admin, role_updated, tip20_emit, set_role_admin_internal; frames.
  apply side_write; [done|done|plain_slot].
Qed.

Lemma paused_sound sender role b : sound (set_paused token sender role b).
Proof. apply side_op. unfold set_paused, tip20_emit. frames. apply side_bool; [done|done|plain_slot]. Qed.

Lemma logo_sound sender uri : sound (write_logo_uri token sender uri).
Proof. apply side_op. unfold write_logo_uri, tip20_emit. frames. apply bytes_store_frame. plain_slot. Qed.

Lemma set_logo_sound sender uri : sound (set_logo_uri token sender uri).
Proof. unfold set_logo_uri, validate_logo_uri. sounds. apply logo_sound. Qed.

Lemma policy_change_sound sender id : sound (change_transfer_policy_id token sender id).
Proof. unfold change_transfer_policy_id. sounds. apply policy_write_sound. Qed.

Lemma next_quote_sound sender q : sound (set_next_quote_token token sender q).
Proof. unfold set_next_quote_token, currency. sounds. apply side_op, side_write; [done|done|plain_slot]. Qed.

(** The walk over quote tokens only reads; it may run out of fuel. *)
Lemma walk_sound fuel : forall q, sound (walk_quotes token fuel q).
Proof.
  induction fuel as [|fuel IH]; intros q; cbn [walk_quotes]; (case_decide; [apply sound_view; intros; frames|]); (case_decide; [apply sound_view; intros; frames|]); [by intros s Hok ? ? ?|].
  apply sound_bind; [apply sound_view; intros; frames|]. intros _. apply sound_bind; [apply sound_view; intros; unfold token_quote_token; frames|]. intros q'. apply IH.
Qed.

Lemma complete_quote_sound fuel sender : sound (complete_quote_token_update token fuel sender).
Proof. unfold complete_quote_token_update, next_quote_token. sounds; [apply walk_sound|]. apply side_op, side_write; [done|done|plain_slot]. Qed.

Lemma approve_sound sender spender amount : sound (approve token sender spender amount).
Proof. unfold approve, get_allowance. sounds; [apply keychain_sound, authorize_approve_frame|by apply side_op, allowance_frame]. Qed.

Lemma permit_sound owner spender value deadline v r q : sound (permit token owner spender value deadline v r q).
Proof.
  unfold permit, domain_separator, u256_add. sounds; [apply side_op, side_write; [done|done|plain_slot]|by apply side_op, allowance_frame].
Qed.

Lemma distribute_sound sender amount : 0 <= amount -> sound (distribute_reward token sender amount).
Proof.
  intros Ha. unfold distribute_reward. sounds; [apply keychain_sound, authorize_transfer_frame| |apply side_op, side_write; [done|done|plain_slot]].
  intros s Hok. unfold transfer_resolved. apply returns_bind. intros r s1 Hr. assert (r_target r = token /\ s1 = s) as [Ht ->].
  { assert (is_virtual token = false) as Hv. { unfold is_virtual. apply bool_decide_eq_false. intros Hv. apply bool_decide_eq_true in Htok. by apply (prefix_not_virtual token). }
    revert Hr. unfold recipient_resolve, resolve_recipient, decode_virtual. rewrite Hv. destruct is_t3; cbn [negb]; unfold mbind, M_bind, mret, M_ret; cbn beta iota; rewrite decide_True by done; by intros [= <- <-]. }
  apply returns_bind. eapply returns_mono; [apply transfer_to_sound; [done|done| |done]|].
  { rewrite Ht. by apply prefix_not_zero. }
  intros [] s2 Hok2. by apply (sound_view (emit_virtual_hop token r amount)); [intros; frames|].
Qed.

Lemma reward_recipient_sound sender recipient : sound (set_reward_recipient token sender recipient).
Proof.
  apply side_op. pose proof (update_rewards_frame token Htok sender). pose proof (add_opted_frame token Htok). pose proof (sub_opted_frame token Htok). pose proof (reward_store_frame token Htok).
  unfold set_reward_recipient, get_balance, tip20_emit. frames.
Qed.

Lemma opted_sound b amount : sound (when b (add_opted_in token amount)).
Proof. apply sound_when, side_op. by apply add_opted_frame. Qed.

(** Rewards are paid from the balance of the token itself. *)
Lemma pay_sound who amount (k : M unit) s : sound k -> ledgers_ok s -> 0 < amount <= bal s token token ->
  returns (_ ← token_set_balance token token (bal s token token - amount);
           balance ← get_balance token who;
           recipient_balance ← u256_add balance amount;
           _ ← token_set_balance token who recipient_balance; k) s (fun _ s' => ledgers_ok s').
Proof.
  intros Hk Hok Ha. apply returns_bind, set_balance_returns; [done|]. intros s1 _ Hs1 Hb1. apply returns_bind, get_balance_returns.
  apply returns_bind, returns_ok_or. intros v Hv. unfold checked_add in Hv. case_decide; [|done]. injection Hv as <-.
  apply returns_bind, set_balance_returns; [done|]. intros s2 _ Hs2 Hb2. apply Hk. apply (effect_ok token token amount who amount s); [done| |by rewrite Z.sub_diag; apply (supplies_trans token 0 0 s s1)|lia|lia|pose proof (l_cap s Hok token Htok); lia|done].
  intros t w Ht. rewrite Hb2, !Hb1 by done. repeat case_decide; repeat match goal with Hx : _ /\ _ |- _ => destruct Hx end; subst; try lia; tauto.
Qed.

Lemma claim_rewards_sound sender : sound (claim_rewards token sender).
Proof.
  unfold claim_rewards. apply sound_bind; [apply sound_view; intros; frames|]. intros _. apply sound_bind; [apply sound_view; intros; frames|]. intros _.
  apply sound_bind; [by apply side_op, update_rewards_frame|]. intros recipient. apply sound_bind; [apply sound_view; intros; frames|]. intros info. cbv zeta.
  intros s Hok. apply returns_bind, get_balance_returns. set (amount := Z.min _ _). apply returns_bind, returns_ok_or. intros rest _.
  apply returns_bind. eapply returns_writes; [by apply reward_store_frame|]. intros _ s1 K1%(side_still token _ _ Htok). pose proof (still_ok _ _ K1 Hok) as Hok1.
  rewrite <- (proj1 (st_ledgers _ _ K1 token Htok)). apply returns_bind. eapply (returns_mono _ _ (fun _ s' => ledgers_ok s')); [|intros [] s2 Hok2; by apply returns_ret].
  destruct (decide (0 < amount)) as [Hpos|]; [|by apply returns_ret]. apply returns_bind, returns_ok_or. intros v Hv. unfold checked_sub in Hv. case_decide; [|done]. injection Hv as <-.
  apply pay_sound; [|done|lia]. apply sound_bind; [apply opted_sound|]. intros _. apply sound_view. intros. unfold tip20_emit. frames.
Qed.

Lemma release_sound o r to amount mode auth : 0 <= amount -> sound (release_blocked_funds token o r to amount mode auth).
Proof.
  intros Ha. unfold release_blocked_funds. apply sound_bind; [apply sound_view; intros; frames|]. intros _. apply sound_bind; [apply sound_view; intros; frames|]. intros d.
  unfold recipient_validate. destruct (decide (r_target d = 0 \/ _)) as [|Hd]; [by intros s Hok ? ? ?|]. apply sound_bind; [apply sound_view; intros; frames|]. intros _.
  apply sound_bind; [|intros _; apply sound_bind; [apply transfer_to_sound; [done|done|tauto]|]; intros _; apply sound_view; intros; frames].
  sounds. apply keychain_sound, authorize_transfer_frame.
Qed.
End token.

(** ** The other contracts *)

(** Amounts at the guard are not negative. *)
Lemma receipt_read key {A} (k : Z -> M A) : (forall v, 0 <= v -> sound (k v)) -> sound (v ← h_read PU256 (guard_balance key); k v).
Proof. intros Hk s Hok. apply returns_bind, (returns_word RECEIVE_POLICY_GUARD_ADDRESS (receipt_slot key)). by apply Hk; [apply (l_receipts s Hok)|]. Qed.

Lemma resolve_receipt_frame W receipt : writes W (resolve_receipt receipt).
Proof. unfold resolve_receipt, decode_receipt. frames. Qed.

Lemma claim_sound sender to receipt : sound (claim sender to receipt).
Proof.
  unfold claim. case_decide; [apply sound_view; intros; frames|]. apply sound_bind; [apply sound_view; intros; apply resolve_receipt_frame|]. intros [[rc receiver] mode].
  cbv zeta. case_decide; [apply sound_view; intros; frames|]. apply receipt_read. intros v Hv. case_decide; [apply sound_view; intros; frames|].
  apply sound_bind; [by apply receipt_write_sound|]. intros _. apply from_address_sound. intros Ht. apply sound_bind; [by apply release_sound|]. intros _. apply sound_view. intros. unfold guard_emit. frames.
Qed.

Lemma burn_receipt_sound sender receipt : sound (burn_blocked_receipt sender receipt).
Proof.
  unfold burn_blocked_receipt. apply sound_bind; [apply sound_view; intros; apply resolve_receipt_frame|]. intros [[rc receiver] mode].
  cbv zeta. apply receipt_read. intros v Hv. case_decide; [apply sound_view; intros; frames|]. apply from_address_sound. intros Ht. apply sound_bind; [by apply burn_blocked_sound|].
  intros _. apply sound_bind; [by apply receipt_write_sound|]. intros _. apply sound_view. intros. unfold guard_emit. frames.
Qed.

Lemma create_sound sender n y u q admin salt : sound (create_token sender n y u q admin salt).
Proof.
  unfold create_token. destruct (compute_tip20_address sender salt) as [token lower]. unfold require_usd_quote, currency, token_created. sounds. by apply initialize_sound.
Qed.

Lemma create_logo_sound sender n y u q admin salt logo : sound (create_token_with_logo sender n y u q admin salt logo).
Proof.
  unfold create_token_with_logo. apply sound_bind; [apply sound_view; intros; unfold validate_logo_uri; frames|]. intros _. apply sound_bind; [apply create_sound|]. intros token.
  apply sound_bind; [|intros; apply sound_view; intros; frames]. apply sound_when, from_address_sound. intros Ht. by apply logo_sound.
Qed.

Lemma create_reserved_sound a n y u q admin : sound (create_token_reserved_address a n y u q admin).
Proof.
  unfold create_token_reserved_address, require_usd_quote, currency, token_created. sounds. by apply initialize_sound.
Qed.

(** ** The registries *)

Lemma registry_write sl v : writes (words_of TIP403_REGISTRY_ADDRESS) (registry_store sl v).
Proof. apply writes_sstore; [apply registry_not_credits|done]. Qed.

Lemma registry_set p h v : h_address h = TIP403_REGISTRY_ADDRESS -> writes (words_of TIP403_REGISTRY_ADDRESS) (h_write p h v).
Proof. intros Ha. apply writes_h_write; rewrite Ha; [apply registry_not_credits|done]. Qed.

Lemma policy_store_frame sl d : writes (words_of TIP403_REGISTRY_ADDRESS) (policy_store sl d).
Proof. unfold policy_store, registry_load. frames. apply registry_write. Qed.

Lemma compound_store_frame sl d : writes (words_of TIP403_REGISTRY_ADDRESS) (compound_store sl d).
Proof. unfold compound_store, registry_load. frames. apply registry_write. Qed.

Lemma new_policy_frame : writes (words_of TIP403_REGISTRY_ADDRESS) new_policy_id.
Proof. unfold new_policy_id, policy_id_counter. frames. by apply registry_set. Qed.

Lemma policy_set_frame id account b : writes (words_of TIP403_REGISTRY_ADDRESS) (set_policy_set id account b).
Proof. by apply registry_set. Qed.

Lemma policy_type_frame W d : writes W (policy_type d).
Proof. unfold policy_type. frames. Qed.
Hint Resolve registry_write policy_store_frame compound_store_frame new_policy_frame policy_set_frame policy_type_frame : frames.

Lemma bind_token_frame token id : writes (words_of TIP403_REGISTRY_ADDRESS) (set_token_transfer_policy token id).
Proof. apply registry_write. Qed.
Hint Resolve bind_token_frame : frames.

(** The calls of the registry that change it. *)
Inductive PolicyOp :=
| CreatePolicy (admin : Address) (t : PolicyType)
| CreatePolicyWith (admin : Address) (t : PolicyType) (accounts : list Address)
| SetPolicyAdmin (policy_id : u64) (admin : Address)
| ModifyWhitelist (policy_id : u64) (account : Address) (value : bool)
| ModifyBlacklist (policy_id : u64) (account : Address) (value : bool)
| CreateCompound (c : CompoundPolicyData)
| SetReceivePolicy (sender_policy_id token_filter_id : u64) (recovery_authority : Address)
| MigratePolicies (tokens : list Address).

Definition policy_op (sender : Address) (op : PolicyOp) : M unit :=
  match op with
  | CreatePolicy admin t => _ ← create_policy sender admin t; mret tt
  | CreatePolicyWith admin t accounts => _ ← create_policy_with_accounts sender admin t accounts; mret tt
  | SetPolicyAdmin id admin => set_policy_admin sender id admin
  | ModifyWhitelist id account value => modify_policy_whitelist sender id account value
  | ModifyBlacklist id account value => modify_policy_blacklist sender id account value
  | CreateCompound c => _ ← create_compound_policy sender c; mret tt
  | SetReceivePolicy a b c => set_receive_policy sender a b c
  | MigratePolicies tokens => _ ← migrate_transfer_policy_ids tokens 0; mret tt
  end.

Lemma migrate_sound tokens : forall n, sound (migrate_transfer_policy_ids tokens n).
Proof.
  induction tokens as [|token rest IH]; intros n; cbn [migrate_transfer_policy_ids]; [apply sound_view; intros; frames|].
  apply sound_bind; [apply sound_view; intros; frames|]. intros known. apply sound_bind; [apply sound_view; intros; unfold registered_token_transfer_policy_id, registry_load; frames|]. intros bound.
  apply sound_if; [apply IH|]. apply from_address_sound. intros Ht. apply sound_bind; [apply sound_view; intros; unfold legacy_transfer_policy_id; frames|]. intros id.
  apply sound_bind; [apply registry_sound, bind_token_frame|]. intros _. apply sound_bind; [|intros; apply IH]. apply (side_sound token); [done|].
  apply writes_h_delete; [by apply token_not_credits|]. split; [done|plain_slot].
Qed.

Lemma policy_op_sound sender op : sound (policy_op sender op).
Proof.
  destruct op; cbn [policy_op]; [apply registry_sound..|].
  - unfold create_policy, ensure_is_simple, set_policy_data, tip403_emit. frames.
  - unfold create_policy_with_accounts, ensure_is_simple, set_policy_data, tip403_emit. frames. apply writes_iter. intros x _. frames.
  - unfold set_policy_admin, set_policy_data, tip403_emit. frames.
  - unfold modify_policy_whitelist, modify_policy, tip403_emit. frames.
  - unfold modify_policy_blacklist, modify_policy, tip403_emit. frames.
  - unfold create_compound_policy, validate_simple_policy, policy_id_counter, tip403_emit. frames.
  - unfold set_receive_policy, validate_receive_policy_id, policy_id_counter, receive_store, tip403_emit. frames.
  - apply sound_bind; [apply migrate_sound|]. intros. apply sound_view. intros. frames.
Qed.

Lemma register_sound sender salt : sound (register_virtual_master sender salt).
Proof.
  apply masters_sound. unfold register_virtual_master, write_master. frames. apply writes_sstore; [apply masters_not_credits|done].
Qed.

(** The calls of the keychain that change it, and the refund of a fee. *)
Inductive KeyOp :=
| RevokeKey (key : Address)
| UpdateLimit (key token : Address) (limit : U256)
| BurnWitness (witness : B256)
| RefundLimit (token : Address) (amount : U256).

Definition key_op (sender : Address) (op : KeyOp) : M unit :=
  match op with
  | RevokeKey key => revoke_key sender key
  | UpdateLimit key token limit => update_spending_limit sender key token limit
  | BurnWitness witness => burn_key_authorization_witness sender witness
  | RefundLimit token amount => refund_spending_limit sender token amount
  end.

Lemma key_store_frame account key k : writes (words_of ACCOUNT_KEYCHAIN_ADDRESS) (key_store account key k).
Proof. unfold key_store. frames. apply writes_sstore; [apply keychain_not_credits|done]. Qed.

Lemma admin_caller_frame W sender : writes W (ensure_admin_caller sender).
Proof. unfold ensure_admin_caller, is_admin_key, unless_system, transaction_key, tx_origin, t_read_address. frames. Qed.
Hint Resolve key_store_frame admin_caller_frame limit_write_frame : frames.

Lemma key_op_sound sender op : sound (key_op sender op).
Proof.
  apply keychain_sound. destruct op; cbn [key_op].
  - unfold revoke_key, key_load, keychain_emit. frames.
  - unfold update_spending_limit, t3_spending_limit_cap, limit_read, keychain_emit. frames. by apply keychain_write.
  - unfold burn_key_authorization_witness, ensure_key_authorization_witness_not_burned, is_key_authorization_witness_burned, keychain_emit. frames. by apply keychain_write.
  - unfold refund_spending_limit, unless_system, limit_read. frames. by apply keychain_write.
Qed.

(** ** Calls from outside *)

(** Amounts are unsigned. *)
Definition unsigned (c : ITIP20Calls) : Prop :=
  match c with
  | transferFromCall _ _ amount | transferCall _ amount | mintCall _ amount | mintWithMemoCall _ amount _ | burnCall amount | burnWithMemoCall amount _
  | burnBlockedCall _ amount | burnAtCall _ amount | transferWithMemoCall _ amount _ | transferFromWithMemoCall _ _ amount _ | distributeRewardCall amount => 0 <= amount
  | _ => True
  end.

Lemma sound_words {A} (m : M A) (f : A -> list Z) : sound m -> sound (x ← m; mret (f x)).
Proof. intros Hm. apply sound_bind; [done|]. intros. apply sound_view. intros. frames. Qed.

Lemma memo_frame W token from to amount memo : writes W (memo_event token from to amount memo).
Proof. unfold memo_event, tip20_emit. frames. Qed.

Lemma body_sound fuel token sender c : has_tip20_prefix token = true -> unsigned c -> (tip20_body fuel token sender c).1 = true -> sound (tip20_body fuel token sender c).2.
Proof.
  intros Ht Hu. destruct c; cbn [tip20_body fst snd]; intros Hc; try discriminate Hc; apply sound_words; cbn [unsigned] in Hu.
  - apply transfers_sound; [done|done|intros; frames].
  - apply transfers_sound; [done|done|intros; frames].
  - by apply approve_sound.
  - by apply policy_change_sound.
  - by apply set_cap_sound.
  - by apply set_logo_sound.
  - by apply paused_sound.
  - by apply paused_sound.
  - by apply next_quote_sound.
  - by apply complete_quote_sound.
  - apply mints_sound; [done|done|intros; frames].
  - apply mints_sound; [done|done|intros; apply memo_frame].
  - unfold burn. sounds. by apply burn_sound.
  - unfold burn_with_memo. sounds. by apply burn_sound.
  - by apply burn_blocked_sound.
  - by apply burn_at_sound.
  - apply transfers_sound; [done|done|intros; apply memo_frame].
  - apply transfers_sound; [done|done|intros; apply memo_frame].
  - by apply distribute_sound.
  - by apply reward_recipient_sound.
  - by apply claim_rewards_sound.
  - by apply permit_sound.
  - by apply (admin_sound token Ht sender role account role).
  - by apply (admin_sound token Ht sender role account role).
  - by apply (admin_sound token Ht sender role sender role).
  - by apply (admin_sound token Ht sender role sender adminRole).
Qed.

(** What reaches the token contracts: calls of transactions and of other
    precompiles. *)
Inductive Act :=
| TokenAct (token sender : Address) (c : ITIP20Calls)
| GuardAct (sender : Address) (c : IReceivePolicyGuardCalls)
| FactoryAct (sender : Address) (c : ITIP20FactoryCalls)
| ReservedAct (token : Address) (name_ symbol currency_ : bytes) (quote admin : Address)
| TransferAct (token sender to : Address) (amount : U256)
| TransferFromAct (token spender from to : Address) (amount : U256)
| SystemTransferAct (token caller from : Address) (amount : U256)
| ReserveTransferAct (token from : Address) (to : Recipient) (amount : U256) (receive_policy_sender : Address)
| PolicyAct (sender : Address) (op : PolicyOp)
| MasterAct (sender : Address) (salt : B256)
| KeyAct (sender : Address) (op : KeyOp).

Definition act_ok (a : Act) : Prop :=
  match a with
  | TokenAct token _ c => has_tip20_prefix token = true /\ unsigned c
  | TransferAct token _ _ amount | TransferFromAct token _ _ _ amount | SystemTransferAct token _ _ amount | ReserveTransferAct token _ _ amount _ =>
      has_tip20_prefix token = true /\ 0 <= amount
  | _ => True
  end.

Definition done_in {A} (m : M A) (s s' : Evm) : Prop := exists a, m s = (Ok a, s').
Definition returned (r : Res string PrecompileOutput * Evm) (s' : Evm) : Prop := exists words, r = (Ok (Returned words), s').

(** The state after an act that was not reverted. *)
Definition ran (fuel : nat) (a : Act) (s s' : Evm) : Prop :=
  match a with
  | TokenAct token sender c => exists static selector, returned (tip20_call fuel static token sender selector c s) s'
  | GuardAct sender c => exists static selector, returned (guard_call static sender selector c s) s'
  | FactoryAct sender c => exists static selector, returned (factory_call static sender selector c s) s'
  | ReservedAct token n y u q admin => done_in (create_token_reserved_address token n y u q admin) s s'
  | TransferAct token sender to amount => done_in (token_transfer token sender to amount) s s'
  | TransferFromAct token spender from to amount => done_in (token_transfer_from token spender from to amount) s s'
  | SystemTransferAct token caller from amount => done_in (token_system_transfer_from token caller from amount) s s'
  | ReserveTransferAct token from to amount p => done_in (channel_reserve_transfer token from to amount p) s s'
  | PolicyAct sender op => done_in (policy_op sender op) s s'
  | MasterAct sender salt => done_in (register_virtual_master sender salt) s s'
  | KeyAct sender op => done_in (key_op sender op) s s'
  end.

Lemma reserve_sound token from to amount p : has_tip20_prefix token = true -> 0 <= amount -> sound (channel_reserve_transfer token from to amount p).
Proof.
  intros Ht Ha. unfold channel_reserve_transfer. case_decide; [apply sound_view; intros; frames|]. apply sound_bind; [apply sound_view; intros; frames|]. intros _.
  unfold recipient_validate. destruct (decide (r_target to = 0 \/ _)) as [|Hd]; [by intros s Hok ? ? ?|]. sounds; [apply keychain_sound, authorize_transfer_frame|].
  apply transfer_to_sound; [done|done|tauto].
Qed.

Lemma system_transfer_sound token caller from amount : has_tip20_prefix token = true -> 0 <= amount -> sound (token_system_transfer_from token caller from amount).
Proof. intros Ht Ha. unfold token_system_transfer_from. apply sound_if; [apply sound_view; intros; frames|]. apply transfers_sound; [done|done|intros; frames]. Qed.

Lemma sound_done {A} (m : M A) s s' : sound m -> done_in m s s' -> ledgers_ok s -> ledgers_ok s'.
Proof. intros Hm [a Hr] Hok. by apply (Hm s Hok a s'). Qed.

Lemma view_returned m s s' : returned (view_call m s) s' -> done_in m s s'.
Proof. intros [w Hw]. unfold view_call in Hw. destruct (m s) as [[a|[]|] s1] eqn:Hr; cbn in Hw; simplify_eq. by exists w. Qed.

Lemma mutate_returned b m s s' : returned (mutate b m s) s' -> done_in m s s'.
Proof. unfold mutate, reject_static_call. destruct b; [|apply view_returned]. intros [w Hw]. destruct is_t12; cbn in Hw; congruence. Qed.

Lemma refused_returned e s s' : ~ returned (Ok (Reverted e), s) s'.
Proof. intros [w Hw]. congruence. Qed.

(** A view leaves the ledgers. *)
Lemma body_view fuel token sender c : (tip20_body fuel token sender c).1 = false -> sound (tip20_body fuel token sender c).2.
Proof.
  destruct c; cbn [tip20_body fst snd]; intros Hc; try discriminate Hc; apply sound_view; intros W.
  all: unfold word1, flag1, currency, total_supply, supply_cap, paused, get_balance, get_allowance, token_quote_token, next_quote_token, get_global_reward_per_token, get_opted_in_supply,
    get_pending_rewards, into_u128, u256_sub, u256_mul, u256_add, domain_separator, has_role, get_role_admin; frames.
Qed.

Lemma ran_ok fuel a s s' : act_ok a -> ran fuel a s s' -> ledgers_ok s -> ledgers_ok s'.
Proof.
  intros Ha Hr. destruct a; cbn [ran act_ok] in *.
  - destruct Ha as [Ht Hu], Hr as (static & selector & Hr). unfold tip20_call in Hr. destruct (negb _); [by apply refused_returned in Hr|].
    destruct (selector_is_disabled c); [by apply refused_returned in Hr|]. pose proof (body_sound fuel token sender c Ht Hu) as Hs. pose proof (body_view fuel token sender c) as Hv.
    destruct (tip20_body fuel token sender c) as [[] m]; cbn [fst snd] in *; [apply mutate_returned in Hr|apply view_returned in Hr]; eapply sound_done; eauto.
  - destruct Hr as (static & selector & Hr). unfold guard_call in Hr. destruct (negb is_t6); [by apply refused_returned in Hr|].
    destruct c; [apply view_returned in Hr|apply mutate_returned in Hr..]; (eapply sound_done; [|exact Hr]; apply sound_words).
    + apply sound_view. intros. unfold guard_balance_of, decode_receipt. frames.
    + apply claim_sound.
    + apply burn_receipt_sound.
  - destruct Hr as (static & selector & Hr). destruct c; cbn [factory_call] in Hr.
    + apply mutate_returned in Hr. eapply sound_done; [|exact Hr]. apply sound_words, create_sound.
    + destruct (negb is_t5); [by apply refused_returned in Hr|]. apply mutate_returned in Hr. eapply sound_done; [|exact Hr]. apply sound_words, create_logo_sound.
    + apply view_returned in Hr. eapply sound_done; [|exact Hr]. apply sound_words, sound_view; intros; frames.
    + apply view_returned in Hr. eapply sound_done; [|exact Hr]. apply sound_words, sound_view; intros; unfold get_token_address; destruct (compute_tip20_address _ _); frames.
  - eapply sound_done; [apply create_reserved_sound|exact Hr].
  - destruct Ha as [Ht Hu]. eapply sound_done; [|exact Hr]. apply transfers_sound; [done|done|intros; frames].
  - destruct Ha as [Ht Hu]. eapply sound_done; [|exact Hr]. apply transfers_sound; [done|done|intros; frames].
  - destruct Ha as [Ht Hu]. eapply sound_done; [by apply system_transfer_sound|exact Hr].
  - destruct Ha as [Ht Hu]. eapply sound_done; [by apply reserve_sound|exact Hr].
  - eapply sound_done; [apply policy_op_sound|exact Hr].
  - eapply sound_done; [apply register_sound|exact Hr].
  - eapply sound_done; [apply key_op_sound|exact Hr].
Qed.
End sound.

(** ** Histories *)

Section history.
Context `{TempoAddresses} `{!TokenAddresses} `{!TokenAddressesOk} `{Keccak} `{SystemPrecompiles} `{ReceiptAbi}.

(** Before the first token. *)
Record no_tokens (s : Evm) : Prop := mkNoTokens {
  n_words token sl : has_tip20_prefix token = true -> word_at (evm_storage s) token sl = 0;
  n_guard sl : word_at (evm_storage s) RECEIVE_POLICY_GUARD_ADDRESS sl = 0;
}.

(** The states after acts in blocks of any fork, and changes of other contracts. *)
Inductive token_history : Evm -> Prop :=
| history_start s : no_tokens s -> token_history s
| history_act (f : TempoSpec) (b : BlockEnv) fuel a s s' : token_history s -> act_ok a -> ran (H := f) (H5 := b) fuel a s s' -> token_history s'
| history_other s s' : token_history s -> still s s' -> token_history s'.

Lemma no_tokens_ok s : no_tokens s -> ledgers_ok s.
Proof.
  intros [Hw Hg]. split; [intros token Hp..|].
  - unfold supply_of. rewrite Hw by done. rewrite <- (total_empty token). apply total_ext. intros who. rewrite Hw by done. done.
  - unfold supply_of, cap_of. rewrite !Hw by done. done.
  - intros Hp'. unfold bal. by rewrite Hw.
  - intros key. unfold receipt_at. by rewrite Hg.
Qed.

Lemma history_ok s : token_history s -> ledgers_ok s.
Proof. induction 1 as [s Hn|f b fuel a s s' _ IH Ha Hr|s s' _ IH Hs]; [by apply no_tokens_ok| |by eapply still_ok]. by eapply (ran_ok (H := f)). Qed.
End history.
