(* ===== verification/DexHistory.v ===== *)
(** * Histories of the exchange

    A run that does not run out of fuel is the run with more of it. A call of the
    exchange from outside keeps it well-formed and solvent, whatever it returns,
    and views change nothing. So does every history of calls, of transactions that
    do not touch the exchange and of hard forks, from an exchange that was never
    used. *)

From stdpp Require Import prelude gmap list strings.
From S2P Require Import Prelude TempoEvm DexCredits DexTypes DexBook Dex DexStore DexOrders DexHolds.
From S2P Require Import DexPrice DexInv DexCommit DexCancel DexPlace DexFill DexSwap DexRoute DexOps DexCall.

#[local] Open Scope Z_scope.

(** The second is the first where that does not panic. *)
Definition refines {A} (m m' : M A) : Prop := forall s, (m s).1 <> Panic -> m' s = m s.

Lemma refines_refl {A} (m : M A) : refines m m.
Proof. done. Qed.

Lemma refines_panic {A} (m : M A) : refines (fun s => (Panic, s)) m.
Proof. by intros s []. Qed.

Lemma refines_bind {A B} (m m' : M A) (k k' : A -> M B) : refines m m' -> (forall a, refines (k a) (k' a)) -> refines (m ≫= k) (m' ≫= k').
Proof.
  intros Hm Hk s. unfold mbind, M_bind. specialize (Hm s). destruct (m s) as [[a|e|] s1]; cbn; intros Hp.
  - rewrite Hm by done. by apply Hk.
  - by rewrite Hm.
  - done.
Qed.

Ltac refine_run :=
  repeat first
    [ apply refines_refl
    | apply refines_panic
    | match goal with H : forall _, _ |- _ => apply H end
    | apply refines_bind; [|intros]
    | match goal with
      | |- refines (if ?b then _ else _) _ => destruct b
      | |- refines (match ?x with _ => _ end) _ => destruct x
      end ].

Section fuel.
Context `{TempoSpec} `{TempoAddresses} `{Keccak} `{TIP20}.

Lemma exact_in_more fuel fuel' credits key b taker level order amount total : (fuel <= fuel')%nat ->
  refines (exact_in_loop fuel credits key b taker level order amount total) (exact_in_loop fuel' credits key b taker level order amount total).
Proof.
  revert fuel' credits level order amount total. induction fuel as [|fuel IH]; intros [|fuel'] credits level order amount total Hle; try lia; cbn [exact_in_loop]; [refine_run|refine_run|].
  assert (fuel <= fuel')%nat as Hle' by lia. specialize (fun c l o a t => IH fuel' c l o a t Hle'). refine_run.
Qed.

Lemma exact_out_more fuel fuel' credits key b taker level order amount total : (fuel <= fuel')%nat ->
  refines (exact_out_loop fuel credits key b taker level order amount total) (exact_out_loop fuel' credits key b taker level order amount total).
Proof.
  revert fuel' credits level order amount total. induction fuel as [|fuel IH]; intros [|fuel'] credits level order amount total Hle; try lia; cbn [exact_out_loop]; [refine_run|refine_run|].
  assert (fuel <= fuel')%nat as Hle' by lia. specialize (fun c l o a t => IH fuel' c l o a t Hle'). refine_run.
Qed.

Lemma root_more fuel fuel' token : (fuel <= fuel')%nat -> refines (find_path_to_root fuel token) (find_path_to_root fuel' token).
Proof.
  revert fuel' token. induction fuel as [|fuel IH]; intros [|fuel'] token Hle; try lia; cbn [find_path_to_root]; [refine_run|refine_run|].
  assert (fuel <= fuel')%nat as Hle' by lia. specialize (fun t => IH fuel' t Hle'). refine_run.
Qed.

Lemma trade_path_more fuel fuel' tin tout : (fuel <= fuel')%nat -> refines (find_trade_path fuel tin tout) (find_trade_path fuel' tin tout).
Proof. intros Hle. unfold find_trade_path. pose proof (fun t => root_more fuel fuel' t Hle) as Hr. refine_run. Qed.

Lemma in_route_more fuel fuel' credits route amount taker : (fuel <= fuel')%nat -> refines (swap_in_route fuel credits route amount taker) (swap_in_route fuel' credits route amount taker).
Proof.
  intros Hle. revert credits amount. induction route as [|[key b] route IH]; intros credits amount; cbn [swap_in_route]; [refine_run|].
  apply refines_bind; [unfold fill_orders_exact_in; do 2 (apply refines_bind; [refine_run|intros]); by apply exact_in_more|]. intros []. apply IH.
Qed.

Lemma out_route_more fuel fuel' credits route amount taker : (fuel <= fuel')%nat -> refines (swap_out_route fuel credits route amount taker) (swap_out_route fuel' credits route amount taker).
Proof.
  intros Hle. revert credits amount. induction route as [|[key b] route IH]; intros credits amount; cbn [swap_out_route]; [refine_run|].
  apply refines_bind; [unfold fill_orders_exact_out; do 2 (apply refines_bind; [refine_run|intros]); by apply exact_out_more|]. intros []. apply IH.
Qed.

Lemma swap_in_more fuel fuel' sender tin tout amount min : (fuel <= fuel')%nat ->
  refines (swap_exact_amount_in fuel sender tin tout amount min) (swap_exact_amount_in fuel' sender tin tout amount min).
Proof.
  intros Hle. unfold swap_exact_amount_in. apply refines_bind; [by apply trade_path_more|]. intros route. apply refines_bind; [refine_run|]. intros _.
  apply refines_bind; [by apply in_route_more|]. intros []. refine_run.
Qed.

Lemma swap_out_more fuel fuel' sender tin tout amount max : (fuel <= fuel')%nat ->
  refines (swap_exact_amount_out fuel sender tin tout amount max) (swap_exact_amount_out fuel' sender tin tout amount max).
Proof.
  intros Hle. unfold swap_exact_amount_out. apply refines_bind; [by apply trade_path_more|]. intros route.
  apply refines_bind; [by apply out_route_more|]. intros []. refine_run.
Qed.
End fuel.

(** The caller is not the exchange, and the zero address does not call. *)
Definition caller_ok `{TempoAddresses} (sender : Address) : Prop := is_address sender /\ sender <> 0 /\ sender <> STABLECOIN_DEX_ADDRESS.

(** The amounts of a call fit their types. *)
Definition well_typed (c : IStablecoinDEXCalls) : Prop :=
  match c with
  | placeCall _ amount _ tick => is_u128 amount /\ is_i16 tick
  | placeFlipCall _ amount _ tick flipTick => is_u128 amount /\ is_i16 tick /\ is_i16 flipTick
  | setBookIndexCall index => is_u32 index
  | withdrawCall _ amount => is_u128 amount
  | cancelCall orderId | cancelStaleOrderCall orderId => is_u128 orderId
  | swapExactAmountInCall _ _ amountIn minAmountOut => is_u128 amountIn /\ is_u128 minAmountOut
  | swapExactAmountOutCall _ _ amountOut maxAmountIn => is_u128 amountOut /\ is_u128 maxAmountIn
  | _ => True
  end.

#[export] Instance well_typed_dec c : Decision (well_typed c).
Proof. destruct c; unfold well_typed, is_u128, is_i16, is_u32; apply _. Defined.

(** The calls that change state. *)
Definition mutates (c : IStablecoinDEXCalls) : bool :=
  match c with
  | placeCall _ _ _ _ | placeFlipCall _ _ _ _ _ | setBookIndexCall _ | createPairCall _ | withdrawCall _ _ | cancelCall _
  | cancelStaleOrderCall _ | swapExactAmountInCall _ _ _ _ | swapExactAmountOutCall _ _ _ _ => true
  | _ => false
  end.

Create HintDb keeps.

Section reach.
Context `{TempoSpec} `{TempoAddresses} `{Keccak} `{TIP20} `{TIP20Spec} `{!TIP20Ok}.

(** ** Views *)

Lemma view_keeps {A} (m : M A) : view m -> keeps m.
Proof. intros Hv s. apply Hv. Qed.

Lemma h_read_keeps p h : keeps (h_read p h).
Proof. unfold h_read. apply keeps_bind; [done|]. intros w. destruct (h_offset h); [apply extract_keeps|apply from_word_keeps]. Qed.

#[local] Hint Resolve level_keeps from_word_keeps extract_keeps version_keeps read_keeps next_tick_keeps h_read_keeps : keeps.
#[local] Hint Resolve quote_token_view not_paused_view from_address_view token_quote_view view_keeps : keeps.

Ltac keeping :=
  repeat first
    [ solve [intros ?; reflexivity]
    | solve [eauto with keeps nocore]
    | apply keeps_bind; [|intros]
    | progress cbv zeta
    | match goal with |- keeps (if ?b then _ else _) => destruct b | |- keeps (match ?x with _ => _ end) => destruct x end ].

Lemma ok_or_keeps {A} e (o : option A) : keeps (ok_or e o).
Proof. by destruct o. Qed.

Lemma read_data_keeps slot : keeps (read_data slot).
Proof. apply view_keeps, read_data_view. Qed.

Lemma when_keeps b m : keeps m -> keeps (when b m).
Proof. by destruct b. Qed.

#[local] Hint Resolve ok_or_keeps read_data_keeps when_keeps : keeps.

Lemma key_for_index_keeps index : keeps (book_key_for_index index).
Proof. unfold book_key_for_index, vec_at, vec_len. keeping. Qed.

#[local] Hint Resolve key_for_index_keeps : keeps.

Lemma order_read_keeps id : keeps (order_read id).
Proof.
  unfold order_read, read_with_book_key, order_version. keeping.
  all: unfold order_load, v1_load, v2_load; keeping.
Qed.

Lemma next_id_keeps : keeps next_order_id_val.
Proof. unfold next_order_id_val. keeping. Qed.

#[local] Hint Resolve order_read_keeps next_id_keeps : keeps.

Lemma get_order_keeps id : keeps (get_order id).
Proof. unfold get_order. keeping. Qed.

Lemma sum_remaining_keeps fuel key id total : keeps (sum_remaining fuel key id total).
Proof. revert id total. induction fuel as [|fuel IH]; intros id total; cbn [sum_remaining]; keeping. Qed.

#[local] Hint Resolve get_order_keeps sum_remaining_keeps : keeps.

Lemma price_level_keeps fuel base tick b : keeps (get_price_level fuel base tick b).
Proof. unfold get_price_level. keeping. Qed.

Lemma best_level_keeps key b : keeps (get_best_price_level key b).
Proof. unfold get_best_price_level. keeping. Qed.

#[local] Hint Resolve price_level_keeps best_level_keeps : keeps.

Lemma next_order_keeps key order b : keeps (next_order_after key order b).
Proof. unfold next_order_after. keeping. Qed.

#[local] Hint Resolve next_order_keeps : keeps.

Lemma quote_loop_keeps fuel key b step order amount total : keeps (quote_loop fuel key b step order amount total).
Proof. revert order amount total. induction fuel as [|fuel IH]; intros order amount total; cbn [quote_loop]; keeping. Qed.

Lemma in_levels_keeps fuel book b tick amount total : keeps (quote_in_levels fuel book b tick amount total).
Proof. revert tick amount total. induction fuel as [|fuel IH]; intros tick amount total; cbn [quote_in_levels]; keeping. Qed.

Lemma out_levels_keeps fuel book b tick amount total : keeps (quote_out_levels fuel book b tick amount total).
Proof. revert tick amount total. induction fuel as [|fuel IH]; intros tick amount total; cbn [quote_out_levels]; keeping. Qed.

#[local] Hint Resolve quote_loop_keeps in_levels_keeps out_levels_keeps : keeps.

Lemma quote_in_keeps fuel route amount : keeps (quote_in_route fuel route amount).
Proof.
  revert amount. induction route as [|[key b] route IH]; intros amount; cbn [quote_in_route]; [done|].
  unfold quote_exact_in, quote_per_order, best_tick_of. keeping.
Qed.

Lemma quote_out_keeps fuel route amount : keeps (quote_out_route fuel route amount).
Proof.
  revert amount. induction route as [|[key b] route IH]; intros amount; cbn [quote_out_route]; [done|].
  unfold quote_exact_out, quote_per_order, best_tick_of. keeping.
Qed.

Lemma root_keeps fuel token : keeps (find_path_to_root fuel token).
Proof. revert token. induction fuel as [|fuel IH]; intros token; cbn [find_path_to_root]; keeping. Qed.

Lemma build_keeps path : keeps (validate_and_build_route path).
Proof. induction path as [|x [|y path] IH]; [done|done|]. cbn [validate_and_build_route]. keeping. Qed.

#[local] Hint Resolve quote_in_keeps quote_out_keeps root_keeps build_keeps : keeps.

Lemma trade_path_keeps fuel tin tout : keeps (find_trade_path fuel tin tout).
Proof. unfold find_trade_path. keeping. Qed.

#[local] Hint Resolve trade_path_keeps : keeps.

(** A view leaves the state as it was, whatever it returns. *)
Lemma view_call_keeps m s : keeps m -> (view_call m s).2 = s.
Proof. intros Hm. specialize (Hm s). unfold view_call. by destruct (m s). Qed.

Lemma call_view fuel is_static sender selector c s : mutates c = false -> (call fuel is_static sender selector c s).2 = s.
Proof.
  intros Hc. unfold call. destruct (match SCHEDULED_SELECTORS c with Some fork => negb (since fork) | None => false end); [done|].
  destruct c; try discriminate; apply view_call_keeps; unfold word1, balance_of, book_key_index, books, tick_to_price_fn, price_to_tick_fn, price_to_tick,
    validate_tick_spacing, quote_swap_exact_amount_in, quote_swap_exact_amount_out; keeping; apply when_keeps; keeping.
Qed.

(** ** Mutations *)

(** What a call does once its caller's credits are preserved. *)
Definition body (fuel : nat) (sender : Address) (c : IStablecoinDEXCalls) : M (list Z) :=
  match c with
  | placeCall token amount isBid tick => word1 (place sender token amount isBid tick)
  | placeFlipCall token amount isBid tick flipTick => word1 (place_flip sender token amount isBid tick flipTick false)
  | setBookIndexCall index => no_words (set_book_index index)
  | createPairCall base => word1 (create_pair base)
  | withdrawCall token amount => no_words (withdraw sender token amount)
  | cancelCall orderId => no_words (cancel sender orderId)
  | cancelStaleOrderCall orderId => no_words (cancel_stale_order orderId)
  | swapExactAmountInCall tokenIn tokenOut amountIn minAmountOut => word1 (swap_exact_amount_in fuel sender tokenIn tokenOut amountIn minAmountOut)
  | swapExactAmountOutCall tokenIn tokenOut amountOut maxAmountIn => word1 (swap_exact_amount_out fuel sender tokenIn tokenOut amountOut maxAmountIn)
  | _ => mret []
  end.

Definition scheduled (c : IStablecoinDEXCalls) : bool := match SCHEDULED_SELECTORS c with Some fork => since fork | None => true end.

Lemma call_mutation fuel is_static sender selector c s : mutates c = true -> scheduled c = true ->
  call fuel is_static sender selector c s = mutate is_static (_ ← preserve_storage_credits; body fuel sender c) s.
Proof. intros Hc Hs. destruct c; try discriminate; unfold scheduled in Hs; cbn in Hs; unfold call; cbn; rewrite ?Hs; done. Qed.

Lemma call_unscheduled fuel is_static sender selector c s : scheduled c = false ->
  call fuel is_static sender selector c s = (Ok (Reverted (UnknownFunctionSelector selector)), s).
Proof. unfold scheduled, call. destruct (SCHEDULED_SELECTORS c); [|done]. by intros ->. Qed.

Lemma body_more fuel fuel' sender c : (fuel <= fuel')%nat -> refines (body fuel sender c) (body fuel' sender c).
Proof.
  intros Hle. destruct c; try apply refines_refl; cbn [body]; unfold word1; (apply refines_bind; [|intros; apply refines_refl]);
    [by apply swap_in_more|by apply swap_out_more].
Qed.

(** The mode of the credits is set. *)
Lemma preserve_does s st : holds s st -> does preserve_storage_credits s tt st.
Proof.
  intros (Hok & Hid & cr & Hw). unfold preserve_storage_credits. destruct is_t7 eqn:H7; cbn [when]; [|exists s; split_and!; [done| |done]].
  2: { split_and!; [done|done|by exists cr]. }
  destruct (proj2 Hok H7) as (_ & _ & [t Ht]). pose proof (transient_ranges _ _ Ht) as [_ Hp].
  destruct (write_state_spec s (mkTransient Preserve 0 (ts_pending t)) Hok ltac:(done) Hp) as (s1 & Hr & Hok1 & He1 & Hd1 & _ & Ht1).
  exists s1. split_and!; [|split_and!; [done| |exists cr; by eapply words_ext]|done].
  - unfold preserve, write_mode_with_budget. by rewrite (bind_ok _ _ _ _ _ (state_of_spec s t Ht)).
  - intros _. eexists. split; [exact Ht1|done].
Qed.

(** ** A call keeps the exchange in order *)

Context `{!BookKeys}.

Definition kept (st : Store) (s' : Evm) : Prop := exists st' Q', dex s' st' Q' /\ st_next st <= st_next st' <= Z.max (st_next st) 1 + 1.

(** The fuel a call needs. *)
Definition fuel_for (fuel : nat) (s : Evm) (st : Store) (c : IStablecoinDEXCalls) : Prop :=
  match c with
  | swapExactAmountInCall tokenIn tokenOut _ _ | swapExactAmountOutCall tokenIn tokenOut _ _ => enough fuel s st tokenIn tokenOut
  | _ => True
  end.

Lemma ends_words {A} (m : M A) (f : A -> list Z) s P : ends m s (fun _ s' => P s') -> ends (x ← m; mret (f x)) s (fun _ s' => P s').
Proof. intros Hm. apply ends_bind. eapply ends_mono; [|exact Hm]. intros a s' HP. by apply ends_ret. Qed.

Lemma kept_same st s' st' Q' : dex s' st' Q' -> st_next st' = st_next st -> kept st s'.
Proof. intros Hd Hn. exists st', Q'. split; [done|]. lia. Qed.

Lemma kept_placed s st Q sender token amount b tick flip ft id s' : placed s st Q sender token amount b tick flip ft id s' -> kept st s'.
Proof. intros (quote & st' & p & _ & -> & Hn & Hd & _). eexists _, _. split; [exact Hd|]. lia. Qed.

Lemma kept_cancelled st Q o s' : cancelled st Q o s' -> kept st s'.
Proof. intros (st' & pre & post & _ & Hd & _ & Hn & _). by eapply kept_same. Qed.

Lemma body_ends fuel sender c s st Q : is_t5 = true -> dex s st Q -> st_next st < u128_max -> caller_ok sender -> well_typed c -> fuel_for fuel s st c ->
  ends (body fuel sender c) s (fun _ s' => kept st s').
Proof.
  intros Ht5 Hd Hn Hs Hc Hf. pose proof Hs as (_ & _ & Hsd). destruct c; cbn [well_typed body fuel_for] in *; try (by apply ends_ret; eapply kept_same); apply ends_words.
  - eapply ends_mono; [|apply (place_ends s st Q Hd Hn sender Hs), Hc]. intros id s'. apply kept_placed.
  - eapply ends_mono; [|apply (place_flip_ends s st Q Hd Hn sender Hs), Hc]. intros id s'. apply kept_placed.
  - eapply ends_mono; [|by apply (set_book_index_ends s st Q)]. intros ? s' (st' & Hd' & Hn'). by eapply kept_same.
  - eapply ends_mono; [|by apply (create_pair_dex s st Q)]. intros ? s' (st' & Hd' & Hn'). by eapply kept_same.
  - eapply ends_mono; [|apply (withdraw_ends s st Q); [done|done|apply Hc]]. intros ? s' [_ Hd']. by eapply kept_same.
  - eapply ends_mono; [|by apply (cancel_ends s st Q)]. intros ? s' (o & _ & _ & Hcan). by eapply kept_cancelled.
  - eapply ends_mono; [|by apply (cancel_stale_ends s st Q)]. intros ? s' (o & _ & Hcan). by eapply kept_cancelled.
  - eapply ends_mono; [|apply (swap_in_ends fuel _ _ _ _ _ s st Q); [done|done|done|apply Hc|done]]. intros ? s' (_ & _ & st' & Q' & Hd' & Hn'). by eapply kept_same.
  - eapply ends_mono; [|apply (swap_out_ends fuel _ _ _ _ _ s st Q); [done|done|done|apply Hc|done]]. intros ? s' (_ & _ & st' & Q' & Hd' & Hn'). by eapply kept_same.
Qed.

(** ** Swaps with any fuel *)

Lemma swap_in_returns fuel sender tin tout amount min out s s' st Q : is_t5 = true -> dex s st Q -> sender <> STABLECOIN_DEX_ADDRESS -> is_u128 amount ->
  swap_exact_amount_in fuel sender tin tout amount min s = (Ok out, s') ->
  min <= out /\ swap_amount fuel s st Q step_exact_in id tin tout amount out /\ exists st' Q', dex s' st' Q' /\ st_next st' = st_next st.
Proof.
  intros Ht5 Hd Hs Ha Hr. set (fuel' := Nat.max fuel (size (st_orders st))). assert ((swap_exact_amount_in fuel sender tin tout amount min s).1 <> Panic) as Hp by by rewrite Hr.
  pose proof (bind_no_panic _ _ _ Hp) as Hp'. assert (find_trade_path fuel' tin tout s = find_trade_path fuel tin tout s) as Hpath
    by (apply trade_path_more; [unfold fuel'; lia|done]).
  assert (swap_exact_amount_in fuel' sender tin tout amount min s = (Ok out, s')) as Hr' by (rewrite <- Hr; apply swap_in_more; [unfold fuel'; lia|done]).
  eapply ends_ok in Hr'; [|apply (swap_in_ends fuel' sender tin tout amount min s st Q); [done|done|done|done|split; [unfold fuel'; lia|by rewrite Hpath]]].
  unfold swap_amount in *. by rewrite Hpath in Hr'.
Qed.

Lemma swap_out_returns fuel sender tin tout amount max paid s s' st Q : is_t5 = true -> dex s st Q -> sender <> STABLECOIN_DEX_ADDRESS -> is_u128 amount ->
  swap_exact_amount_out fuel sender tin tout amount max s = (Ok paid, s') ->
  paid <= max /\ swap_amount fuel s st Q step_exact_out (@rev _) tin tout amount paid /\ exists st' Q', dex s' st' Q' /\ st_next st' = st_next st.
Proof.
  intros Ht5 Hd Hs Ha Hr. set (fuel' := Nat.max fuel (size (st_orders st))). assert ((swap_exact_amount_out fuel sender tin tout amount max s).1 <> Panic) as Hp by by rewrite Hr.
  pose proof (bind_no_panic _ _ _ Hp) as Hp'. assert (find_trade_path fuel' tin tout s = find_trade_path fuel tin tout s) as Hpath
    by (apply trade_path_more; [unfold fuel'; lia|done]).
  assert (swap_exact_amount_out fuel' sender tin tout amount max s = (Ok paid, s')) as Hr' by (rewrite <- Hr; apply swap_out_more; [unfold fuel'; lia|done]).
  eapply ends_ok in Hr'; [|apply (swap_out_ends fuel' sender tin tout amount max s st Q); [done|done|done|done|split; [unfold fuel'; lia|by rewrite Hpath]]].
  unfold swap_amount in *. by rewrite Hpath in Hr'.
Qed.

(** A run that returns does not depend on the fuel. *)
Lemma body_kept fuel sender c s st Q ws s' : is_t5 = true -> dex s st Q -> st_next st < u128_max -> caller_ok sender -> well_typed c ->
  body fuel sender c s = (Ok ws, s') -> kept st s'.
Proof.
  intros Ht5 Hd Hn Hs Hc Hr. set (fuel' := Nat.max fuel (size (st_orders st))). assert ((body fuel sender c s).1 <> Panic) as Hp by by rewrite Hr.
  assert (body fuel' sender c s = (Ok ws, s')) as Hr' by (rewrite <- Hr; apply body_more; [unfold fuel'; lia|done]).
  eapply (ends_ok _ s ws s' (fun _ s' => kept st s') Hr'), body_ends; [done|done|done|done|done|].
  destruct c; try exact I; cbn [body fuel_for] in *; (split; [unfold fuel'; lia|]); apply bind_no_panic, bind_no_panic in Hp;
    (rewrite (trade_path_more fuel fuel'); [done|unfold fuel'; lia|done]).
Qed.

Lemma call_kept fuel is_static sender selector c s st Q ws s' : is_t5 = true -> dex s st Q -> st_next st < u128_max -> caller_ok sender -> well_typed c ->
  call fuel is_static sender selector c s = (Ok (Returned ws), s') -> kept st s'.
Proof.
  intros Ht5 Hd Hn Hs Hc Hr. destruct (scheduled c) eqn:Hsch; [|by rewrite call_unscheduled in Hr]. destruct (mutates c) eqn:Hm.
  2: { pose proof (call_view fuel is_static sender selector c s Hm) as Hv. rewrite Hr in Hv. cbn in Hv. subst. by eapply kept_same. }
  rewrite call_mutation in Hr by done. unfold mutate in Hr. destruct is_static; [unfold reject_static_call in Hr; by destruct is_t12|].
  destruct (preserve_does s st (dex_holds _ _ _ Hd)) as (s1 & Hp & Hh1 & He1). unfold view_call in Hr. rewrite (bind_ok _ _ _ _ _ Hp) in Hr.
  eapply (body_kept fuel sender c s1 st Q ws); [done|by eapply dex_elsewhere|done|done|done|].
  destruct (body fuel sender c s1) as [[ws'|[]|] s2]; cbn in Hr; by simplify_eq.
Qed.

(** With the fuel it needs a call returns, reverts or halts. *)
Lemma call_total fuel is_static sender selector c s st Q : is_t5 = true -> dex s st Q -> st_next st < u128_max -> caller_ok sender -> well_typed c ->
  mutates c = true -> fuel_for fuel (preserve_storage_credits s).2 st c -> (call fuel is_static sender selector c s).1 <> Panic.
Proof.
  intros Ht5 Hd Hn Hs Hc Hm Hf. destruct (scheduled c) eqn:Hsch; [|by rewrite call_unscheduled]. rewrite call_mutation by done. unfold mutate.
  destruct is_static; [unfold reject_static_call; by destruct is_t12|]. destruct (preserve_does s st (dex_holds _ _ _ Hd)) as (s1 & Hp & Hh1 & He1).
  unfold view_call. rewrite (bind_ok _ _ _ _ _ Hp). rewrite Hp in Hf. cbn in Hf. assert (dex s1 st Q) as Hd1 by by eapply dex_elsewhere.
  pose proof (body_ends fuel sender c s1 st Q Ht5 Hd1 Hn Hs Hc Hf) as He. unfold ends in He. by destruct (body fuel sender c s1) as [[ws'|[]|] s2].
Qed.
End reach.

Definition fork_le (f f' : TempoHardfork) : Prop := fork_index f <= fork_index f'.

#[export] Instance fork_le_preorder : PreOrder fork_le.
Proof. split; [intros f; unfold fork_le; lia|intros f1 f2 f3; unfold fork_le; lia]. Qed.

Lemma fork_since f f' x : fork_le f f' -> since (H := f) x = true -> since (H := f') x = true.
Proof. unfold fork_le, since. cbv delta [spec]. intros Hle Hx. apply Z.leb_le in Hx. apply Z.leb_le. lia. Qed.

Lemma fork_since_false f f' x : fork_le f f' -> since (H := f') x = false -> since (H := f) x = false.
Proof. intros Hle Hx. destruct (since (H := f) x) eqn:E; [|done]. by rewrite (fork_since f f') in Hx. Qed.

(** ** Hard forks *)

Definition without_liquidity (l : TickLevel) : TickLevel := mkLevel (tl_head l) (tl_tail l) 0.

(** From T12 on the liquidity of a level is not kept. *)
Definition upgraded (f : TempoHardfork) (st : Store) : Store :=
  if is_t12 (H := f) then mkStore (st_books st) (without_liquidity <$> st_levels st) (st_bits st) (st_orders st) (st_balances st) (st_next st) (st_keys st)
  else st.

Lemma upgraded_level f st k : is_t12 (H := f) = true -> level (upgraded f st) k = without_liquidity (level st k).
Proof. unfold upgraded, level. intros ->. cbn. rewrite lookup_fmap. by destruct (st_levels st !! k). Qed.

Section upgrade.
Context (f f' : TempoHardfork) (Hle : fork_le f f').

Lemma words_upgrade d st cr : words (H := f) d st cr -> words (H := f') d (upgraded f' st) cr.
Proof.
  intros [Hb Hl Hbits Ho Hbal Hn Hk Hc]. split; try (unfold upgraded; by destruct (is_t12 (H := f'))).
  - intros k Hk2. destruct (Hl k Hk2) as (Hhd & Htl & Hliq & Hr1 & Hr2 & Hr3). destruct (is_t12 (H := f')) eqn:H12.
    + rewrite upgraded_level by done. unfold level_at. rewrite H12. cbn. by split_and!.
    + unfold upgraded, level_at. rewrite H12. unfold is_t12 in *. rewrite (fork_since_false f f') in Hliq by done. by split_and!.
  - intros id. specialize (Ho id). assert (order_words (H := f') (st_keys st) (fun k => d (oslot id k)) id (st_orders st !! id)) as Ho'.
    { destruct (st_orders st !! id) as [o|]; [|done]. destruct Ho as (Hid & Hr & v & Hv & Hat). split_and!; [apply Hid..|done|].
      exists v. split; [|done]. intros H8. apply Hv. by eapply fork_since_false. }
    unfold upgraded. by destruct (is_t12 (H := f')).
Qed.

Lemma inv_upgrade st Q : inv (H := f) st Q None -> inv (H := f') (upgraded f' st) Q None.
Proof.
  intros [Ha1 Ha2 Ha3 Ha4 Ha5 Ha6 Ha7 Ha8 Ha9]. split; try (unfold upgraded; by destruct (is_t12 (H := f'))).
  intros k. specialize (Ha2 k). destruct (is_t12 (H := f')) eqn:H12.
  - rewrite upgraded_level by done. unfold without_liquidity. by rewrite Ha2.
  - unfold upgraded. rewrite H12. unfold is_t12 in *. by rewrite (fork_since_false f f') in Ha2.
Qed.
End upgrade.

(** ** Histories *)

Section history.
Context `{TempoAddresses} `{Keccak} `{TIP20Spec}.
Context (tip20 : TempoSpec -> TIP20).
Context (tip20_ok : forall f : TempoSpec, TIP20Ok (H1 := tip20 f)).
Context (book_keys : forall f : TempoSpec, BookKeys (H0 := tip20 f)).
Context (prefix_same : forall (f f' : TempoSpec) token, is_tip20_prefix (TIP20 := tip20 f) token = is_tip20_prefix (TIP20 := tip20 f') token).

Abbreviation dex_at f := (dex (H := f) (H2 := tip20 f)).

(** The exchange before its first call. *)
Record genesis (f : TempoSpec) (s : Evm) : Prop := mkGenesis {
  g_words : forall sl, dword s sl = 0;
  g_bank : bank_ok (H := f) s;
  g_idle : idle (H := f) s;
  g_tokens : tokens_ok s;
  g_holding : forall token, 0 <= holding s token;
}.

(** What happens on the chain outside the exchange: its words stay, its tokens
    do not leave it, and the next block may be of a later fork. *)
Record outside (f : TempoSpec) (s : Evm) (f' : TempoSpec) (s' : Evm) : Prop := mkOutside {
  o_fork : fork_le f f';
  o_words : forall sl, dword s' sl = dword s sl;
  o_bank : bank_ok (H := f') s';
  o_idle : idle (H := f') s';
  o_tokens : tokens_ok s';
  o_holding : forall token, holding s token <= holding s' token;
}.

(** The states after [n] calls that returned. *)
Inductive reach : nat -> TempoSpec -> Evm -> Prop :=
| reach_genesis f s : is_t5 (H := f) = true -> genesis f s -> reach 0 f s
| reach_outside n f s f' s' : reach n f s -> outside f s f' s' -> reach n f' s'
| reach_call n f s fuel is_static sender selector c words s' : reach n f s -> caller_ok sender -> well_typed c ->
    call (H := f) (H2 := tip20 f) fuel is_static sender selector c s = (Ok (Returned words), s') -> reach (S n) f s'.

Definition fresh_store : Store := mkStore ∅ ∅ ∅ ∅ ∅ 0 [].

Lemma fresh_words (f : TempoSpec) : words (H := f) (fun _ => 0) fresh_store ∅.
Proof.
  split; try done.
  - intros k _. unfold level_at. by destruct (is_t12 (H := f)).
  - intros key b wi _. split; [done|]. intros i _. rewrite Z.testbit_0_l. symmetry. apply bool_decide_eq_false. set_solver.
  - intros id. change (st_orders fresh_store !! id) with ((∅ : gmap u128 Order) !! id). rewrite lookup_empty. by intros k _.
Qed.

Lemma fresh_dex f s : genesis f s -> dex_at f s fresh_store ∅.
Proof.
  intros [Hw Hb Hi Ht Hh]. split; [split_and!; [done|done|]| | | |done].
  - exists ∅. eapply words_ext; [|apply fresh_words]. done.
  - split; try done; intros k; [|split; [set_solver|by intros []]]. by destruct (is_t12 (H := f)).
  - intros key. by cbn.
  - intros t. cbn. apply Hh.
Qed.

Lemma outside_dex f s f' s' st Q : outside f s f' s' -> dex_at f s st Q -> dex_at f' s' (upgraded f' st) Q.
Proof.
  intros [Hle Hw Hb Hi Ht Hh] [(_ & _ & cr & Hw0) Hinv Hk Hsol _]. split; [split_and!; [done|done|]| | | |done].
  - exists cr. eapply words_ext; [|by eapply words_upgrade]. done.
  - by eapply inv_upgrade.
  - intros key. unfold upgraded. specialize (Hk key). rewrite !(prefix_same f f') in Hk. by destruct (is_t12 (H := f')).
  - intros t. etrans; [|apply Hh]. etrans; [|apply Hsol]. unfold upgraded. by destruct (is_t12 (H := f')).
Qed.

Lemma reach_dex n f s : reach n f s -> Z.of_nat n < u128_max -> is_t5 (H := f) = true /\ exists st Q, dex_at f s st Q /\ st_next st <= Z.of_nat n + 1.
Proof.
  induction 1 as [f s H5 Hg|n f s f' s' Hr IH Ho|n f s fuel is_static sender selector c ws s' Hr IH Hs Hc Hcall]; intros Hn.
  - split; [done|]. exists fresh_store, ∅. split; [by apply fresh_dex|]. cbn. lia.
  - destruct (IH Hn) as (H5 & st & Q & Hd & Hle). split; [eapply fork_since, H5; apply Ho|]. exists (upgraded f' st), Q. split; [exact (outside_dex f s f' s' st Q Ho Hd)|].
    unfold upgraded. by destruct (is_t12 (H := f')).
  - destruct (IH ltac:(lia)) as (H5 & st & Q & Hd & Hle). split; [done|].
    destruct (call_kept (H := f) (H2 := tip20 f) fuel is_static sender selector c s st Q ws s') as (st' & Q' & Hd' & Hn'); try done; [lia|].
    exists st', Q'. split; [done|]. pose proof (i_next _ _ _ (dex_inv _ _ _ Hd)). unfold is_u128 in *. lia.
Qed.
End history.
