(* ===== verification/DexExample.v ===== *)
(** * A chain with an exchange

    Tokens that are plain ledgers, as an instance of what the exchange relies on,
    and a history on it: a pair is created, an order placed on each side. *)

From stdpp Require Import prelude gmap list strings.
From S2P Require Import Prelude DexPrice TempoEvm DexCredits DexTypes DexBook Dex DexStore.
From S2P Require Import DexHolds DexInv DexPlace DexOps DexCall DexHistory.

#[local] Open Scope Z_scope.

Module Ledger.

#[export, program] Instance addresses : TempoAddresses := {|
  STABLECOIN_DEX_ADDRESS := 2 ^ 100;
  STORAGE_CREDITS_ADDRESS := 2 ^ 101;
  PATH_USD_ADDRESS := 1;
|}.
Next Obligation. done. Qed.

(** A hash that tells the pairs of tokens apart. *)
#[export] Instance keccak : Keccak := fun bs => from_be bs mod 2 ^ 256.

Definition is_token (token : Address) : bool := bool_decide (0 < token < 2 ^ 64).

Definition account (owner : Address) : Slot := Mapped owner (At 9) 0.

Definition move (token from to : Address) (amount : Z) : M unit :=
  if is_token token then
    b ← sload token (account from);
    if decide (b < amount) then throw (Revert "InsufficientBalance" [])
    else
      _ ← sstore_raw token (account from) (b - amount);
      c ← sload token (account to);
      sstore_raw token (account to) (c + amount)
  else throw (Revert "InvalidToken" []).

#[export] Instance tokens : TIP20 := {|
  is_tip20_prefix := is_token;
  quote_token token := mret (if decide (token = 1) then 0 else 1);
  tip20_transfer := move;
  tip20_transfer_from token _ from to amount := move token from to amount;
  system_transfer_from token caller from amount := move token from caller amount;
  ensure_transfer_authorized _ _ _ := mret tt;
  check_not_paused _ := mret tt;
  transfer_policy_id _ := mret 0;
  is_authorized_as _ _ _ := mret true;
  is_policy_lookup_error _ := false;
  is_tip20 token := mret (is_token token);
  validate_usd_currency token := if is_token token then mret tt else throw (Revert "InvalidCurrency" []);
|}.

#[export] Instance ledger : TIP20Spec := {|
  holding s token := if is_token token then word_at (evm_storage s) token (account STABLECOIN_DEX_ADDRESS) else 0;
  tokens_ok _ := True;
|}.

Lemma token_range token : is_token token = true -> 0 < token < 2 ^ 64.
Proof. apply bool_decide_eq_true. Qed.

Lemma move_ends `{TempoSpec} token from to amount s : is_token token = true -> from <> to -> 0 <= amount ->
  ends (move token from to amount) s (fun _ s' => apart s s' /\
    forall t who, word_at (evm_storage s') t (account who) = word_at (evm_storage s) t (account who) +
      (if decide (t = token /\ who = to) then amount else 0) - if decide (t = token /\ who = from) then amount else 0).
Proof.
  intros Hp Hne Ha. unfold move. rewrite Hp. unfold ends, mbind, M_bind, sload. cbn beta iota. case_decide; [done|]. cbn. split; [done|].
  apply token_range in Hp. assert (token <> STABLECOIN_DEX_ADDRESS /\ token <> STORAGE_CREDITS_ADDRESS) as [Hd Hc] by (cbn; lia). split.
  - split_and!; try done; [intros sl; unfold dword|unfold bank]; cbn [evm_storage set_storage]; unfold word_at; rewrite !lookup_insert_ne by congruence; done.
  - intros t who. unfold word_at at 1. cbn. rewrite lookup_insert. destruct (decide ((token, account to) = (t, account who))) as [[= <- <-]|Hn].
    + rewrite (decide_True (P := token = token /\ to = to)), (decide_False (P := token = token /\ to = from)) by naive_solver. unfold word_at at 1.
      rewrite lookup_insert_ne by (unfold account; congruence). unfold word_at. cbn. lia.
    + rewrite (decide_False (P := t = token /\ who = to)) by (intros [-> ->]; done). rewrite lookup_insert. destruct (decide ((token, account from) = (t, account who))) as [[= <- <-]|Hn'].
      * rewrite (decide_True (P := token = token /\ from = from)) by done. unfold word_at. cbn. lia.
      * rewrite (decide_False (P := t = token /\ who = from)) by (intros [-> ->]; done). unfold word_at. lia.
Qed.

#[export] Instance ledger_ok `{TempoSpec} : TIP20Ok.
Proof.
  assert (forall token, is_token token = true -> token <> STABLECOIN_DEX_ADDRESS /\ token <> STORAGE_CREDITS_ADDRESS) as Hprefix.
  { intros token Hp%token_range. cbn. lia. }
  assert (forall token from amount s, is_token token = true -> from <> STABLECOIN_DEX_ADDRESS -> 0 <= amount ->
    ends (move token from STABLECOIN_DEX_ADDRESS amount) s (fun _ s' => apart s s' /\ tokens_ok s' /\
      forall t, holding s' t = holding s t + if decide (t = token) then amount else 0)) as Hin.
  { intros token from amount s Hp Hf Ha. eapply ends_mono; [|by apply move_ends]. intros _ s' [Hap Hw]. split_and!; [done|done|]. intros t. cbn [holding ledger].
    rewrite Hw. rewrite (decide_False (P := _ /\ STABLECOIN_DEX_ADDRESS = from)) by (intros []; congruence). destruct (decide (t = token)) as [->|]; [rewrite Hp, decide_True by done; lia|rewrite decide_False by tauto; destruct (is_token t); lia]. }
  split; try done.
  - intros token. unfold validate_usd_currency. cbn. by destruct (is_token token).
  - intros token s s' Hr. by injection Hr.
  - intros token s s'. cbn. by destruct (is_token token).
  - intros token Hp%token_range. unfold is_address. lia.
  - intros s s' token (_ & Hs & _). cbn. destruct (is_token token) eqn:Hp; [|done]. destruct (Hprefix token Hp). apply Hs; [done|]. congruence.
  - intros token to amount s Hp Hto Ha _. change (is_token token = true) in Hp. eapply ends_mono; [|by apply move_ends]. intros _ s' [Hap Hw]. split_and!; [done|done|]. intros t. cbn [holding ledger].
    rewrite Hw. rewrite (decide_False (P := _ /\ STABLECOIN_DEX_ADDRESS = to)) by (intros []; congruence). destruct (decide (t = token)) as [->|]; [rewrite Hp, decide_True by done; lia|rewrite decide_False by tauto; destruct (is_token t); lia].
  - intros token from amount s Hp Hf Ha _. by apply Hin.
  - intros token from amount s Hp Hf Ha _. by apply Hin.
Qed.

#[export] Instance book_keys : BookKeys.
Proof.
  intros base quote base' quote' Hb%token_range Hq%token_range Hb'%token_range Hq'%token_range. unfold compute_book_key, keccak256, keccak.
  rewrite !from_be_app, !from_be_be_bytes, !length_be_bytes. change (256 ^ Z.of_nat 20) with (2 ^ 160). rewrite !(Z.mod_small _ (2 ^ 160)) by lia.
  rewrite !Z.mod_small by lia. lia.
Qed.
End Ledger.

(** ** A history *)

Module Market.
Import Ledger.

#[export] Instance fork : TempoSpec := T13.

Definition path_usd : Address := 1.
Definition alpha : Address := 2.
Definition alice : Address := 77.
Definition bob : Address := 88.

(** Alice holds dollars and Bob holds alpha. *)
Definition before : Evm := mkEvm {[ (path_usd, account alice) := 10 ^ 12; (alpha, account bob) := 10 ^ 12 ]} ∅ [] true true ∅.

(** The state after a call; a call that does not return is undone. *)
Definition after (sender : Address) (c : IStablecoinDEXCalls) (s : Evm) : Evm :=
  match call 100 false sender 0 c s with (Ok (Returned _), s') => s' | _ => s end.

(** Bob creates the pair and asks, Alice bids below. *)
Definition opened : Evm := after bob (createPairCall alpha) before.
Definition asked : Evm := after bob (placeCall alpha (3 * 10 ^ 8) false 20) opened.
Definition market : Evm := after alice (placeCall alpha (2 * 10 ^ 8) true (-10)) asked.

Definition ledgers : TempoSpec -> TIP20 := fun _ => tokens.

Lemma before_fresh : genesis fork before.
Proof.
  assert (forall token who, 0 <= word_at (evm_storage before) token (account who)) as Hnn.
  { intros token who. unfold word_at, before. cbn [evm_storage]. rewrite lookup_insert. case_decide; [done|]. rewrite lookup_singleton. by case_decide. }
  split.
  2: { split; [done|]. intros _. split; [done|]. split; [done|by eexists]. }
  2: { intros _. eexists. split; [reflexivity|done]. }
  2: done.
  2: { intros token. cbn. destruct (is_token token); [apply Hnn|done]. }
  intros sl. unfold dword, word_at, before. cbn [evm_storage]. by rewrite lookup_insert_ne, lookup_singleton_ne by (intros [=]).
Qed.

Lemma after_reached n sender c s : reach ledgers n fork s -> caller_ok sender -> well_typed c ->
  match (call 100 false sender 0 c s).1 with Ok (Returned _) => True | _ => False end -> reach ledgers (S n) fork (after sender c s).
Proof.
  intros Hr Hs Hc Hok. unfold after. destruct (call 100 false sender 0 c s) as [[[ws| |]| |] s'] eqn:Hcall; try done. by eapply (reach_call ledgers n fork s 100 false sender 0 c).
Qed.

Lemma market_reached : reach ledgers 3 fork market.
Proof. repeat (apply after_reached; [|done|done|vm_compute; exact I]). apply reach_genesis; [done|apply before_fresh]. Qed.
End Market.
