(* ===== verification/DexTheorems.v ===== *)
(** * The stablecoin exchange: theorems

    What users of the exchange rely on, over every history of calls. *)

From stdpp Require Import prelude gmap list strings.
From S2P Require Import Prelude DexPrice TempoEvm DexCredits DexTypes DexBook Dex DexStore.
From S2P Require Import DexOrders DexHolds DexInv DexCommit DexCancel DexPlace DexFill.
From S2P Require Import DexSwap DexRoute DexOps DexCall DexHistory DexExample.

#[local] Open Scope Z_scope.

(** ** Reading the exchange *)

Section reads.
Context `{TempoSpec} `{TempoAddresses} `{Keccak} `{TIP20} `{TIP20Spec} `{!TIP20Ok}.

Lemma acts_keeps_run {A} (m : M A) s st a : holds s st -> acts st m a st -> keeps m -> m s = (Ok a, s).
Proof. intros Hh Ha. apply (keeps_run _ _ st). by apply (holds_acts _ s st). Qed.

Lemma balance_run s st u t : holds s st -> balance_of u t s = (Ok (balance st u t), s).
Proof. intros Hh. eapply acts_keeps_run; [done|apply balance_of_acts|apply h_read_keeps]. Qed.

Lemma next_id_run s st : holds s st -> next_order_id_val s = (Ok (Z.max (st_next st) 1), s).
Proof. intros Hh. eapply acts_keeps_run; [done|apply next_id_acts|apply next_id_keeps]. Qed.

(** What is read at an id. *)
Lemma order_read_run s st id : holds s st -> order_read id s = (Ok (default zero_order (st_orders st !! id)), s).
Proof.
  intros Hh. eapply acts_keeps_run; [done| |apply order_read_keeps]. destruct (st_orders st !! id) as [o|] eqn:Ho; [|by apply read_missing_acts].
  apply read_acts; [done|by left].
Qed.

Lemma get_order_some s st Q id o : holds s st -> inv st Q None -> st_orders st !! id = Some o -> get_order id s = (Ok o, s).
Proof.
  intros Hh Hinv Ho. destruct (i_orders _ _ _ Hinv id o Ho) as (Hid & Hin & (_ & _ & Hm & _)). unfold get_order.
  rewrite (bind_ok _ _ _ _ _ (order_read_run s st id Hh)), Ho. change (default zero_order (Some o)) with o. rewrite decide_False by done. rewrite (bind_ok _ _ _ _ _ (next_id_run s st Hh)).
  rewrite decide_True; [done|]. apply (queue_ids st Q None Hinv) in Hin. rewrite Hid. lia.
Qed.

Lemma get_order_none s st id : holds s st -> st_orders st !! id = None -> get_order id s = (Err err_order_does_not_exist, s).
Proof. intros Hh Ho. unfold get_order. by rewrite (bind_ok _ _ _ _ _ (order_read_run s st id Hh)), Ho. Qed.

Lemma get_order_inv s st Q id o : holds s st -> inv st Q None -> get_order id s = (Ok o, s) -> st_orders st !! id = Some o.
Proof.
  intros Hh Hinv Hg. destruct (st_orders st !! id) as [o'|] eqn:Ho; [|by rewrite (get_order_none s st) in Hg].
  rewrite (get_order_some s st Q id o') in Hg by done. congruence.
Qed.

(** The bitmap against the queues. *)
Lemma nearest_run s st Q key b tick : holds s st -> inv st Q None -> is_i16 tick -> exists t some,
  next_initialized_tick (book_slot key) tick b s = (Ok (t, some), s) /\
  if some : bool
  then beyond b tick t /\ is_Some (Q !! (key, b, t)) /\ (forall t', beyond b tick t' -> is_Some (Q !! (key, b, t')) -> ahead b t t')
  else forall t', beyond b tick t' -> Q !! (key, b, t') = None.
Proof.
  intros Hh Hi Ht. destruct Hh as (Hok & _ & cr & Hw). destruct (next_tick_spec _ st cr key tick b Hw Ht) as (r & Htrip & Hf).
  destruct (Htrip s Hok (fun _ => eq_refl)) as (s' & Hrun & _). pose proof (next_tick_keeps (book_slot key) tick b s) as Hk. rewrite Hrun in Hk. cbn in Hk. subst s'.
  assert (forall t', is_Some (Q !! (key, b, t')) -> valid_tick t' /\ (key, b, t') ∈ st_bits st) as Hq.
  { intros t' [q Hq]. destruct (i_queues _ _ _ Hi _ _ Hq) as (_ & _ & Hv & _). split; [exact Hv|]. by apply (i_bits _ _ _ Hi). }
  destruct r as [t some]. exists t, some. split; [exact Hrun|]. cbn [fst snd]. destruct some, b; unfold found, found_below, found_above, beyond, ahead in *; cbn [fst snd] in *.
  - destruct Hf as (Hr & Hin & Hno). split_and!; [lia|by apply (i_bits _ _ _ Hi)|]. intros t' Hlt [Hv Hb]%Hq. destruct (decide (t' <= t)); [done|]. destruct (Hno t' ltac:(lia) Hb).
  - destruct Hf as (Hr & Hin & Hno). split_and!; [lia|by apply (i_bits _ _ _ Hi)|]. intros t' Hlt [Hv Hb]%Hq. destruct (decide (t <= t')); [done|]. destruct (Hno t' ltac:(lia) Hb).
  - intros t' Hlt. apply eq_None_not_Some. intros [Hv Hb]%Hq. unfold valid_tick in Hv. destruct (Hf t' ltac:(lia) Hb).
  - intros t' Hlt. apply eq_None_not_Some. intros [Hv Hb]%Hq. unfold valid_tick in Hv. destruct (Hf t' ltac:(lia) Hb).
Qed.
End reads.

Section theorems.
Context `{TempoAddresses} `{Keccak} `{TIP20Spec}.
Context (tip20 : TempoSpec -> TIP20).
Context (tip20_ok : forall f : TempoSpec, TIP20Ok (H1 := tip20 f)).
Context (book_keys : forall f : TempoSpec, BookKeys (H0 := tip20 f)).
Context (prefix_same : forall (f f' : TempoSpec) token, is_tip20_prefix (TIP20 := tip20 f) token = is_tip20_prefix (TIP20 := tip20 f') token).

Abbreviation dex_at f := (dex (H := f) (H2 := tip20 f)).
Abbreviation call_at f := (call (H := f) (H2 := tip20 f)).

(** C28. After any history of calls, other transactions and hard forks the
    exchange is in order: its words are those of a book of well-formed orders in
    queues by price and time, and of each token it holds at least what it owes
    to the makers of its orders and to the owners of its balances. *)
Theorem exchange_sound n (f : TempoSpec) s : reach tip20 n f s -> Z.of_nat n < u128_max ->
  exists st Q, holds (H := f) s st /\ inv (H := f) st Q None /\ forall token, liabilities st token <= holding s token.
Proof.
  intros Hr Hn. destruct (reach_dex tip20 tip20_ok book_keys prefix_same n f s Hr Hn) as (_ & st & Q & [Hh Hi _ Hs _] & _). by exists st, Q.
Qed.

(** C29. The maker of an order can always cancel it: the call returns, the order
    is gone, and what the order escrowed is added to the maker's balance, the
    remaining amount of an ask, its price rounded up for a bid. *)
Theorem maker_can_cancel n (f : TempoSpec) s fuel selector id o data : reach tip20 n f s -> Z.of_nat n < u128_max ->
  get_order (H := f) id s = (Ok o, s) -> books (o_book_key o) s = (Ok data, s) ->
  let token := if o_is_bid o then bd_quote data else bd_base data in
  holding s token <= u128_max ->
  exists s' had, call_at f fuel false (o_maker o) selector (cancelCall id) s = (Ok (Returned []), s') /\
    get_order (H := f) id s' = (Err err_order_does_not_exist, s') /\
    balance_of (o_maker o) token s = (Ok had, s) /\
    balance_of (o_maker o) token s' = (Ok (had + if o_is_bid o then quote_up (o_remaining o) (o_tick o) else o_remaining o), s').
Proof.
  intros Hr Hn Hg Hdata token Hmax. destruct (reach_dex tip20 tip20_ok book_keys prefix_same n f s Hr Hn) as (_ & st & Q & Hd & _).
  pose proof (get_order_inv s st Q id o (dex_holds _ _ _ Hd) (dex_inv _ _ _ Hd) Hg) as Ho. destruct (i_orders _ _ _ (dex_inv _ _ _ Hd) id o Ho) as (Hid & _). subst id.
  unfold books in Hdata. rewrite (read_data_run (H := f) s st) in Hdata by apply Hd. injection Hdata as <-. change token with (escrow_token st o) in *. clear token.
  destruct (preserve_does s st (dex_holds _ _ _ Hd)) as (s1 & Hp & Hh1 & He1). assert (dex_at f s1 st Q) as Hd1 by by eapply dex_elsewhere.
  destruct (cancel_does s1 st Q o Hd1 Ho) as (s' & Hc & st' & pre & post & _ & Hd' & Ho' & _ & Hb); [by rewrite (holding_elsewhere s s1)|].
  exists s', (balance st (o_maker o) (escrow_token st o)). split_and!.
  - rewrite call_mutation by done. unfold mutate, view_call. rewrite (bind_ok _ _ _ _ _ Hp). cbn [body]. unfold no_words. by rewrite (bind_ok _ _ _ _ _ Hc).
  - eapply get_order_none; [apply Hd'|done].
  - apply (balance_run (H := f)), Hd.
  - rewrite (balance_run (H := f) s' st') by apply Hd'. by rewrite Hb.
Qed.

(** C30. A swap of an exact input returns what the input fetches along the route
    between the tokens, each book matched order by order in price-time priority,
    and never less than the caller asked for; the exchange stays in order. *)
Theorem swap_in_matches n (f : TempoSpec) s : reach tip20 n f s -> Z.of_nat n < u128_max ->
  exists st Q, dex_at f s st Q /\ forall fuel sender token_in token_out amount_in min_amount_out amount_out s',
    caller_ok sender -> is_u128 amount_in ->
    swap_exact_amount_in (H := f) (H2 := tip20 f) fuel sender token_in token_out amount_in min_amount_out s = (Ok amount_out, s') ->
    min_amount_out <= amount_out /\
    (exists route, find_trade_path (H := f) (H2 := tip20 f) fuel token_in token_out s = (Ok route, s) /\ NoDup route.*1 /\
       route_ok st route token_in token_out /\ match_route step_exact_in st Q route amount_in = Ok amount_out) /\
    exists st' Q', dex_at f s' st' Q'.
Proof.
  intros Hr Hn. destruct (reach_dex tip20 tip20_ok book_keys prefix_same n f s Hr Hn) as (H5 & st & Q & Hd & _). exists st, Q. split; [done|].
  intros fuel sender tin tout amount min out s' (_ & _ & Hs) Ha Hrun.
  destruct (swap_in_returns fuel sender tin tout amount min out s s' st Q) as (Hmin & Hroute & st' & Q' & Hd' & _); try done. split_and!; [done|exact Hroute|by exists st', Q'].
Qed.

(** C31. A swap for an exact output costs what matching the output back along the
    route takes, and never more than the caller offered; the exchange stays in
    order. *)
Theorem swap_out_matches n (f : TempoSpec) s : reach tip20 n f s -> Z.of_nat n < u128_max ->
  exists st Q, dex_at f s st Q /\ forall fuel sender token_in token_out amount_out max_amount_in amount_in s',
    caller_ok sender -> is_u128 amount_out ->
    swap_exact_amount_out (H := f) (H2 := tip20 f) fuel sender token_in token_out amount_out max_amount_in s = (Ok amount_in, s') ->
    amount_in <= max_amount_in /\
    (exists route, find_trade_path (H := f) (H2 := tip20 f) fuel token_in token_out s = (Ok route, s) /\ NoDup route.*1 /\
       route_ok st route token_in token_out /\ match_route step_exact_out st Q (rev route) amount_out = Ok amount_in) /\
    exists st' Q', dex_at f s' st' Q'.
Proof.
  intros Hr Hn. destruct (reach_dex tip20 tip20_ok book_keys prefix_same n f s Hr Hn) as (H5 & st & Q & Hd & _). exists st, Q. split; [done|].
  intros fuel sender tin tout amount max paid s' (_ & _ & Hs) Ha Hrun.
  destruct (swap_out_returns fuel sender tin tout amount max paid s s' st Q) as (Hmax & Hroute & st' & Q' & Hd' & _); try done. split_and!; [done|exact Hroute|by exists st', Q'].
Qed.

(** C32. From T12 on a quote is what the swap gives: when a swap succeeds, the
    quote of the same swap in the state before returns the swap's amount and
    changes nothing. *)
Theorem quote_is_swap n (f : TempoSpec) s : reach tip20 n f s -> Z.of_nat n < u128_max -> is_t12 (H := f) = true ->
  exists enough_fuel, forall fuel sender token_in token_out amount limit result s', (enough_fuel <= fuel)%nat -> caller_ok sender -> is_u128 amount ->
    (swap_exact_amount_in (H := f) (H2 := tip20 f) fuel sender token_in token_out amount limit s = (Ok result, s') ->
       quote_swap_exact_amount_in (H := f) (H2 := tip20 f) fuel token_in token_out amount s = (Ok result, s)) /\
    (swap_exact_amount_out (H := f) (H2 := tip20 f) fuel sender token_in token_out amount limit s = (Ok result, s') ->
       quote_swap_exact_amount_out (H := f) (H2 := tip20 f) fuel token_in token_out amount s = (Ok result, s)).
Proof.
  intros Hr Hn H12. destruct (reach_dex tip20 tip20_ok book_keys prefix_same n f s Hr Hn) as (H5 & st & Q & Hd & _). exists (size (st_orders st)).
  intros fuel sender tin tout amount limit result s' Hfuel (_ & _ & Hs) Ha. split; intros Hrun.
  - destruct (swap_in_returns fuel sender tin tout amount limit result s s' st Q) as (_ & Hroute & _); try done. by apply (quote_in_run s st Q).
  - destruct (swap_out_returns fuel sender tin tout amount limit result s s' st Q) as (_ & Hroute & _); try done. by apply (quote_out_run s st Q).
Qed.


(** C34. Placing an order, flip or not, gives it the next id and makes it the last
    of the queue of its side and price, with its whole amount to fill; the other
    queues are as they were. *)
Theorem place_is_last n (f : TempoSpec) s : reach tip20 n f s -> Z.of_nat n + 1 < u128_max ->
  exists st Q, dex_at f s st Q /\ forall sender token amount is_bid tick flip id s', caller_ok sender -> is_u128 amount ->
    match flip with
    | None => place (H := f) (H2 := tip20 f) sender token amount is_bid tick s
    | Some flip_tick => place_flip (H := f) (H2 := tip20 f) sender token amount is_bid tick flip_tick false s
    end = (Ok id, s') ->
    next_order_id_val s = (Ok id, s) /\ next_order_id_val s' = (Ok (id + 1), s') /\
    exists quote st' prev, token_quote (H2 := tip20 f) token s = (Ok quote, s) /\
      let key := compute_book_key token quote in
      dex_at f s' st' (push Q (key, is_bid, tick) id) /\
      get_order (H := f) id s' = (Ok (mkOrder id sender key is_bid tick amount amount prev 0 (bool_decide (is_Some flip)) (default 0 flip)), s').
Proof.
  intros Hr Hn. destruct (reach_dex tip20 tip20_ok book_keys prefix_same n f s Hr ltac:(lia)) as (H5 & st & Q & Hd & Hnext). exists st, Q. split; [done|].
  intros sender token amount is_bid tick flip id s' Hs Ha Hrun.
  assert (placed (H := f) (H2 := tip20 f) s st Q sender token amount is_bid tick (bool_decide (is_Some flip)) (default 0 flip) id s') as (quote & st' & p & Hq & Hid & Hn' & Hd' & Ho).
  { destruct flip as [ft|]; (eapply ends_ok; [exact Hrun|]); [apply (place_flip_ends s st Q Hd ltac:(lia) sender Hs); exact Ha|apply (place_ends s st Q Hd ltac:(lia) sender Hs); exact Ha]. }
  split_and!.
  - rewrite (next_id_run (H := f) s st) by apply Hd. by rewrite Hid.
  - rewrite (next_id_run (H := f) s' st') by apply Hd'. pose proof (i_next _ _ _ (dex_inv _ _ _ Hd)) as [? _]. rewrite Hn'. do 2 f_equal. lia.
  - exists quote, st', p. split; [done|]. split; [done|]. by eapply get_order_some; [apply Hd'|apply Hd'|].
Qed.

(** C35. What is stored is well-typed: any id reads as no order or as an order
    with its own id, below the next id, whose fields fit their types, which has
    something left to fill and sits on the grid of ticks; every balance is an
    unsigned 128-bit integer. *)
Theorem stored_orders_typed n (f : TempoSpec) s : reach tip20 n f s -> Z.of_nat n < u128_max ->
  (forall id, exists o next, order_read (H := f) id s = (Ok o, s) /\ next_order_id_val s = (Ok next, s) /\
     (o = zero_order \/ o_order_id o = id /\ 0 < id < next /\ good_order o)) /\
  forall user token, exists v, balance_of user token s = (Ok v, s) /\ is_u128 v.
Proof.
  intros Hr Hn. destruct (reach_dex tip20 tip20_ok book_keys prefix_same n f s Hr Hn) as (_ & st & Q & Hd & _). pose proof Hd as [Hh Hi _ _ _]. split.
  - intros id. eexists _, _. split_and!; [by apply order_read_run|by apply (next_id_run (H := f))|]. destruct (st_orders st !! id) as [o|] eqn:Ho; [right|by left].
    destruct (i_orders _ _ _ Hi id o Ho) as (Hid & Hin & Hg). apply (queue_ids st Q None Hi) in Hin. split_and!; [done|lia|lia|done].
  - intros user token. eexists. split; [by apply (balance_run (H := f))|]. destruct Hh as (_ & _ & cr & Hw). apply (w_balances _ _ _ Hw).
Qed.

(** C36. Orders survive their layouts: writing an order of a book over whatever is
    stored at its id, in the layout of the fork, makes the id read as that order,
    and every other id read as before. *)
Theorem order_roundtrip n (f : TempoSpec) s data o : reach tip20 n f s -> Z.of_nat n < u128_max ->
  books (o_book_key o) s = (Ok data, s) -> bd_base data <> 0 -> order_ranges o -> 0 < o_order_id o ->
  exists s', write_in_book (H := f) (o_order_id o) o (bd_book_id data) s = (Ok tt, s') /\
    order_read (H := f) (o_order_id o) s' = (Ok o, s') /\
    forall id, id <> o_order_id o -> exists o', order_read (H := f) id s = (Ok o', s) /\ order_read (H := f) id s' = (Ok o', s').
Proof.
  intros Hr Hn Hb Hbase Ho Hpos. destruct (reach_dex tip20 tip20_ok book_keys prefix_same n f s Hr Hn) as (_ & st & Q & [Hh Hi _ _ _] & _).
  unfold books in Hb. rewrite (read_data_run (H := f) s st) in Hb by done. injection Hb as <-.
  destruct (holds_acts _ s st _ _ Hh (write_acts (H := f) st (o_order_id o) o _ eq_refl Hpos Ho (i_index _ _ _ Hi _ Hbase))) as (s' & Hw & Hh' & _).
  exists s'. split_and!; [done| |].
  - rewrite (order_read_run s' _ _ Hh'). cbn [with_orders st_orders]. by rewrite lookup_insert_eq.
  - intros id Hid. eexists. split; [by apply order_read_run|]. rewrite (order_read_run s' _ _ Hh'). cbn [with_orders st_orders]. by rewrite lookup_insert_ne.
Qed.

(** C37. The search of the bitmap for the next tick behind a tick finds the nearest
    price at which orders are queued, or says that there is none. *)
Theorem next_tick_nearest n (f : TempoSpec) s : reach tip20 n f s -> Z.of_nat n < u128_max ->
  exists st Q, dex_at f s st Q /\ forall key is_bid tick, is_i16 tick -> exists t some,
    next_initialized_tick (book_slot key) tick is_bid s = (Ok (t, some), s) /\
    if some : bool
    then beyond is_bid tick t /\ is_Some (Q !! (key, is_bid, t)) /\
      (forall t', beyond is_bid tick t' -> is_Some (Q !! (key, is_bid, t')) -> ahead is_bid t t')
    else forall t', beyond is_bid tick t' -> Q !! (key, is_bid, t') = None.
Proof.
  intros Hr Hn. destruct (reach_dex tip20 tip20_ok book_keys prefix_same n f s Hr Hn) as (_ & st & Q & Hd & _). exists st, Q. split; [done|].
  intros key is_bid tick Ht. destruct (nearest_run (H := f) s st Q key is_bid tick) as (t & some & Hrun & Hnear); [apply Hd|apply Hd|done|]. by exists t, some.
Qed.
End theorems.

(** ** The theorems on a market *)

Module Witnesses.
Import Ledger Market.

(** Runs of views on the market. *)
Lemma market_view {A} (m : M A) a : keeps m -> (m market).1 = Ok a -> m market = (Ok a, market).
Proof. intros Hk Ha. rewrite (surjective_pairing (m market)). by rewrite Ha, Hk. Qed.

Lemma exchange_sound_witness : exists st Q, holds market st /\ inv st Q None /\ forall token, liabilities st token <= holding market token.
Proof. apply (exchange_sound ledgers (fun _ => ledger_ok) (fun _ => book_keys) (fun _ _ _ => eq_refl) 3 fork market market_reached). reflexivity. Defined.

Definition alpha_key : B256 := compute_book_key alpha path_usd.
Definition bid : Order := mkOrder 2 alice alpha_key true (-10) (2 * 10 ^ 8) (2 * 10 ^ 8) 0 0 false 0.

Lemma maker_can_cancel_witness : exists s' had, call 10 false alice 0 (cancelCall 2) market = (Ok (Returned []), s') /\
  get_order 2 s' = (Err err_order_does_not_exist, s') /\ balance_of alice path_usd market = (Ok had, market) /\
  balance_of alice path_usd s' = (Ok (had + quote_up (2 * 10 ^ 8) (-10)), s').
Proof.
  apply (maker_can_cancel ledgers (fun _ => ledger_ok) (fun _ => book_keys) (fun _ _ _ => eq_refl) 3 fork market 10 0 2 bid (mkBookData alpha path_usd (-10) 20 1) market_reached).
  - reflexivity.
  - apply market_view; [apply get_order_keeps|vm_compute; reflexivity].
  - apply market_view; [apply read_data_keeps|vm_compute; reflexivity].
  - vm_compute. discriminate.
Defined.

Lemma bob_calls : caller_ok bob.
Proof. done. Qed.

(** Calls on the market that return. *)
Lemma market_run {A} (m : M A) a : (m market).1 = Ok a -> m market = (Ok a, (m market).2).
Proof. intros Ha. by rewrite (surjective_pairing (m market)), Ha. Qed.

Abbreviation sale := (swap_exact_amount_in (H2 := ledgers fork) 10 bob alpha path_usd (10 ^ 6) 999000).
Abbreviation purchase := (swap_exact_amount_out (H2 := ledgers fork) 10 bob alpha path_usd (10 ^ 6) (2 * 10 ^ 6)).

Lemma sale_returns : sale market = (Ok 999900, (sale market).2).
Proof. apply market_run. vm_compute. reflexivity. Qed.

Lemma purchase_returns : purchase market = (Ok 1000101, (purchase market).2).
Proof. apply market_run. vm_compute. reflexivity. Qed.

Lemma swap_in_matches_witness : exists st Q route, dex market st Q /\ find_trade_path 10 alpha path_usd market = (Ok route, market) /\
  match_route step_exact_in st Q route (10 ^ 6) = Ok 999900 /\ exists st' Q', dex (sale market).2 st' Q'.
Proof.
  destruct (swap_in_matches ledgers (fun _ => ledger_ok) (fun _ => book_keys) (fun _ _ _ => eq_refl) 3 fork market market_reached eq_refl) as (st & Q & Hd & Hswap).
  destruct (Hswap 10%nat bob alpha path_usd (10 ^ 6) 999000 999900 _ bob_calls ltac:(split; discriminate) sale_returns) as (_ & (route & Hr & _ & _ & Hm) & Hd').
  exists st, Q, route. split; [exact Hd|]. split; [exact Hr|]. split; [exact Hm|exact Hd'].
Defined.

Lemma swap_out_matches_witness : exists st Q route, dex market st Q /\ find_trade_path 10 alpha path_usd market = (Ok route, market) /\
  match_route step_exact_out st Q (rev route) (10 ^ 6) = Ok 1000101 /\ exists st' Q', dex (purchase market).2 st' Q'.
Proof.
  destruct (swap_out_matches ledgers (fun _ => ledger_ok) (fun _ => book_keys) (fun _ _ _ => eq_refl) 3 fork market market_reached eq_refl) as (st & Q & Hd & Hswap).
  destruct (Hswap 10%nat bob alpha path_usd (10 ^ 6) (2 * 10 ^ 6) 1000101 _ bob_calls ltac:(split; discriminate) purchase_returns) as (_ & (route & Hr & _ & _ & Hm) & Hd').
  exists st, Q, route. split; [exact Hd|]. split; [exact Hr|]. split; [exact Hm|exact Hd'].
Defined.

Lemma quote_is_swap_witness : exists enough_fuel, forall fuel result s', (enough_fuel <= fuel)%nat ->
  swap_exact_amount_in fuel bob alpha path_usd (10 ^ 6) 999000 market = (Ok result, s') ->
  quote_swap_exact_amount_in fuel alpha path_usd (10 ^ 6) market = (Ok result, market).
Proof.
  destruct (quote_is_swap ledgers (fun _ => ledger_ok) (fun _ => book_keys) (fun _ _ _ => eq_refl) 3 fork market market_reached eq_refl eq_refl) as (enough_fuel & Hq).
  exists enough_fuel. intros fuel result s' Hle. apply (Hq fuel bob alpha path_usd (10 ^ 6) 999000 result s' Hle bob_calls). split; discriminate.
Defined.


Abbreviation placing := (place_flip (H2 := ledgers fork) bob alpha (10 ^ 8) false 20 0 false).

Lemma placing_returns : placing market = (Ok 3, (placing market).2).
Proof. apply market_run. vm_compute. reflexivity. Qed.

Lemma place_is_last_witness : exists prev, get_order 3 (placing market).2 = (Ok (mkOrder 3 bob alpha_key false 20 (10 ^ 8) (10 ^ 8) prev 0 true 0), (placing market).2).
Proof.
  destruct (place_is_last ledgers (fun _ => ledger_ok) (fun _ => book_keys) (fun _ _ _ => eq_refl) 3 fork market market_reached eq_refl) as (st & Q & Hd & Hplace).
  specialize (Hplace bob alpha (10 ^ 8) false 20 (Some 0) 3 (placing market).2 bob_calls ltac:(split; discriminate)). cbv beta iota in Hplace.
  destruct (Hplace placing_returns) as (_ & _ & quote & st' & prev & Hq & _ & Hget). exists prev.
  assert ((token_quote (H2 := ledgers fork) alpha market).1 = Ok path_usd) as Hp by reflexivity. rewrite Hq in Hp. injection Hp as ->. exact Hget.
Defined.

Lemma stored_orders_typed_witness : exists o next, order_read 1 market = (Ok o, market) /\ next_order_id_val market = (Ok next, market) /\
  (o = zero_order \/ o_order_id o = 1 /\ 0 < 1 < next /\ good_order o).
Proof. apply (stored_orders_typed ledgers (fun _ => ledger_ok) (fun _ => book_keys) (fun _ _ _ => eq_refl) 3 fork market market_reached). reflexivity. Defined.

Lemma order_roundtrip_witness : exists s', write_in_book 2 bid 1 market = (Ok tt, s') /\ order_read 2 s' = (Ok bid, s') /\
  forall id, id <> 2 -> exists o', order_read id market = (Ok o', market) /\ order_read id s' = (Ok o', s').
Proof.
  apply (order_roundtrip ledgers (fun _ => ledger_ok) (fun _ => book_keys) (fun _ _ _ => eq_refl) 3 fork market (mkBookData alpha path_usd (-10) 20 1) bid market_reached).
  - reflexivity.
  - apply market_view; [apply read_data_keeps|vm_compute; reflexivity].
  - discriminate.
  - unfold order_ranges, is_u128, is_address, is_i16. vm_compute. repeat split; discriminate.
  - reflexivity.
Defined.

Lemma next_tick_nearest_witness : exists st Q, dex market st Q /\ exists t some, next_initialized_tick (book_slot alpha_key) 100 true market = (Ok (t, some), market) /\
  if some : bool then is_Some (Q !! (alpha_key, true, t)) else forall t', t' < 100 -> Q !! (alpha_key, true, t') = None.
Proof.
  destruct (next_tick_nearest ledgers (fun _ => ledger_ok) (fun _ => book_keys) (fun _ _ _ => eq_refl) 3 fork market market_reached eq_refl) as (st & Q & Hd & Hnext).
  exists st, Q. split; [exact Hd|]. destruct (Hnext alpha_key true 100 ltac:(split; discriminate)) as (t & some & Hrun & Hfound). exists t, some. split; [exact Hrun|].
  destruct some; [apply Hfound|exact Hfound].
Defined.
End Witnesses.

(** C38. Rounding favours the exchange by at most one unit: a bid's escrow covers
    what is paid for a part of it and the escrow of the rest, and exceeds them by
    one unit at most; base bought with quote costs no more than that quote; base
    sold for quote is worth at least that quote. *)
Theorem rounding_covered tick x y : valid_tick tick -> is_u128 x -> is_u128 y ->
  (forall escrow, base_to_quote (x + y) tick Up = Some escrow -> exists paid rest,
     base_to_quote y tick Down = Some paid /\ base_to_quote x tick Up = Some rest /\ 0 <= escrow - (paid + rest) <= 1) /\
  (forall bought, quote_to_base x tick Down = Some bought -> exists cost, base_to_quote bought tick Up = Some cost /\ cost <= x) /\
  (forall sold worth, quote_to_base x tick Up = Some sold -> base_to_quote sold tick Down = Some worth -> x <= worth).
Proof.
  intros Ht Hx Hy. unfold is_u128 in *. split_and!.
  - intros e [-> He]%base_to_quote_Some. pose proof (escrow_covers tick Ht x y). pose proof (escrow_dust tick Ht x y). pose proof (quote_down_nonneg tick Ht y ltac:(lia)).
    pose proof (quote_up_nonneg tick Ht x ltac:(lia)). exists (quote_down y tick), (quote_up x tick).
    split_and!; [apply to_u128_Some; split; [done|lia]|apply to_u128_Some; split; [done|lia]|lia|lia].
  - intros b [-> Hb]%quote_to_base_Some. exists (quote_up (base_down x tick) tick). pose proof (payment_covers tick Ht x). split; [apply to_u128_Some; split; [done|lia]|done].
  - intros b w [-> Hb]%quote_to_base_Some [-> Hw]%base_to_quote_Some. by apply sale_covers.
Qed.

Lemma rounding_covered_witness : exists paid rest, base_to_quote 7 (-10) Down = Some paid /\ base_to_quote 5 (-10) Up = Some rest /\ 0 <= 12 - (paid + rest) <= 1.
Proof. apply (proj1 (rounding_covered (-10) 5 7 ltac:(done) ltac:(done) ltac:(done)) 12). vm_compute. reflexivity. Defined.

Section refused.
Context `{TempoSpec} `{TempoAddresses} `{Keccak} `{TIP20} `{TIP20Spec} `{!TIP20Ok}.

(** C39. Calls that are refused or only read leave no trace: a call from before
    its fork reverts as an unknown selector, a call that changes state is refused
    in a static context, as a revert before T12 and by halting from T12 on, and a
    view leaves the state as it was whatever it returns. *)
Theorem calls_without_effect fuel is_static sender selector c s :
  (scheduled c = false -> call fuel is_static sender selector c s = (Ok (Reverted (UnknownFunctionSelector selector)), s)) /\
  (scheduled c = true -> mutates c = true -> call fuel true sender selector c s =
     (Ok (if is_t12 then Halted "state change during static call" else Reverted (Revert "StaticCallNotAllowed" [])), s)) /\
  (mutates c = false -> (call fuel is_static sender selector c s).2 = s).
Proof.
  split_and!.
  - apply call_unscheduled.
  - intros Hsch Hm. rewrite call_mutation by done. unfold mutate, reject_static_call. by destruct is_t12.
  - apply call_view.
Qed.
End refused.

Lemma calls_without_effect_witness : call (H := T7) (H0 := Ledger.addresses) (H1 := Ledger.keccak) (H2 := Ledger.tokens) 10 false 77 5 (setBookIndexCall 0) Market.before =
  (Ok (Reverted (UnknownFunctionSelector 5)), Market.before).
Proof.
  apply (calls_without_effect (H := T7) (H0 := Ledger.addresses) (H1 := Ledger.keccak) (H2 := Ledger.tokens) (H3 := Ledger.ledger) (H4 := Ledger.ledger_ok (H := T7))
    10 false 77 5 (setBookIndexCall 0) Market.before).
  reflexivity.
Defined.
