(* ===== verification/Tip20Dex.v ===== *)
(** * TIP-20 tokens on the exchange

    The tokens of tip20.rs are what the exchange relies on ([DexPlace.TIP20Ok]):
    as long as no virtual address leads to the exchange and the exchange has set
    no receive policy, a transfer moves its holding by the amount and leaves its
    storage alone. *)

From stdpp Require Import prelude gmap list strings.
From S2P Require Import Prelude DexPrice TempoEvm TempoBytes DexCredits DexTypes DexBook Dex DexStore DexHolds DexPlace DexRoute DexHistory.
From S2P Require Import Tip403 Keychain Tip20 Tip20Facts Tip20Ledger Tip20Sound.

#[local] Open Scope Z_scope.

Section instance.
Context `{TempoSpec} `{TempoAddresses} `{!TokenAddresses} `{!TokenAddressesOk} `{Keccak} `{SystemPrecompiles} `{BlockEnv} `{ReceiptAbi}.

#[local] Hint Resolve read_bool_frame string_load_frame get_master_frame resolve_recipient_frame recipient_resolve_frame recipient_validate_frame
  is_simple_frame policy_data_frame simple_cached_frame authorized_frame policy_exists_frame check_receive_frame receive_authorized_frame
  token_policy_frame transfer_authorized_frame not_paused_frame check_role_frame from_address_frame is_tip20_frame usd_frame hop_frame : frames.

(** [AuthRole::sender()] and [AuthRole::recipient()]. *)
Definition registry_role (role : Dex.AuthRole) : Tip403.AuthRole :=
  match role with Dex.Sender => role_sender | Dex.Recipient => role_recipient end.

Definition tip20_tokens : TIP20 := {|
  is_tip20_prefix := has_tip20_prefix;
  quote_token := token_quote_token;
  tip20_transfer := token_transfer;
  tip20_transfer_from := token_transfer_from;
  system_transfer_from := token_system_transfer_from;
  ensure_transfer_authorized := token_transfer_authorized;
  check_not_paused := token_not_paused;
  transfer_policy_id := token_transfer_policy_id;
  Dex.is_authorized_as policy_id user role := Tip403.is_authorized_as policy_id user (registry_role role);
  Dex.is_policy_lookup_error := Tip403.is_policy_lookup_error;
  is_tip20 := factory_is_tip20;
  validate_usd_currency := token_validate_usd;
|}.

(** The balance of the exchange, in a state in which it gets what is sent to it. *)
Record dex_reachable (s : Evm) : Prop := mkReachable {
  dr_masters id : be_slice (word_at (evm_storage s) ADDRESS_REGISTRY_ADDRESS (master_slot id)) 12 32 <> STABLECOIN_DEX_ADDRESS;
  dr_policy : be_slice (word_at (evm_storage s) TIP403_REGISTRY_ADDRESS (receive_slot STABLECOIN_DEX_ADDRESS)) 31 32 = 0;
}.

Definition tip20_holdings : TIP20Spec := {|
  holding s token := if has_tip20_prefix token then bal s token STABLECOIN_DEX_ADDRESS else 0;
  tokens_ok := dex_reachable;
|}.

(** ** Addresses *)

Lemma dex_not_guard : STABLECOIN_DEX_ADDRESS <> RECEIVE_POLICY_GUARD_ADDRESS.
Proof. by apply (distinct_at 0 4). Qed.
Lemma dex_not_keychain : STABLECOIN_DEX_ADDRESS <> ACCOUNT_KEYCHAIN_ADDRESS.
Proof. by apply (distinct_at 0 8). Qed.
Lemma dex_plain : STABLECOIN_DEX_ADDRESS <> 0 /\ has_tip20_prefix STABLECOIN_DEX_ADDRESS = false /\ is_virtual STABLECOIN_DEX_ADDRESS = false.
Proof. apply system_plain. unfold system_addresses. set_solver. Qed.

Lemma prefix_range token : has_tip20_prefix token = true -> is_address token.
Proof.
  intros Hp%bool_decide_eq_true. unfold prefix12, TIP20_TOKEN_PREFIX in Hp. rewrite Z.shiftr_div_pow2 in Hp by lia. unfold is_address.
  pose proof (Z.div_mod token (2 ^ 64) ltac:(lia)). pose proof (Z.mod_pos_bound token (2 ^ 64) ltac:(lia)). lia.
Qed.

(** ** Views *)

Lemma view_intro {A} (m : M A) : keeps m -> writes nowhere m -> view m.
Proof. intros Hk Hw s. split; [apply Hk|apply Hw]. Qed.

Ltac keep := repeat first [ apply h_read_keeps | solve [intros ?; reflexivity] | progress cbv zeta
  | match goal with
    | |- keeps (_ ≫= _) => apply keeps_bind; [|intros]
    | |- keeps (if ?b then _ else _) => destruct b
    | |- keeps (match ?x with _ => _ end) => destruct x
    end ].

Lemma read_bool_state h : keeps (read_bool h).
Proof. unfold read_bool. apply keeps_bind; [apply h_read_keeps|]. intros. by intros s. Qed.

Lemma load_words_state a sl n : forall i, keeps (load_words a sl i n).
Proof. induction n as [|n IH]; intros i; cbn [load_words]; [by intros s|]. apply keeps_bind; [by intros s|]. intros w. apply keeps_bind; [apply IH|]. by intros ? s. Qed.

Lemma string_load_state a sl : keeps (string_load a sl).
Proof.
  unfold string_load, bytes_load, calc_string_length. apply keeps_bind; [|intros; keep]. apply keeps_bind; [by intros s|]. intros v. cbv zeta. apply keeps_bind; [keep|]. intros len.
  destruct (is_long_string v); [|keep]. apply keeps_bind; [apply load_words_state|]. by intros ? s.
Qed.

Lemma policy_type_state d : keeps (policy_type d).
Proof. unfold policy_type. keep. Qed.

Lemma is_simple_state id user d : keeps (is_simple id user d).
Proof. unfold is_simple. apply keeps_bind; [apply read_bool_state|]. intros b. apply keeps_bind; [apply policy_type_state|]. intros []; by intros s. Qed.

Lemma policy_data_state id : keeps (get_policy_data id).
Proof. unfold get_policy_data, policy_load, registry_load, policy_id_counter. apply keeps_bind; [keep|]. intros d. keep. Qed.

Lemma simple_cached_state id user c : keeps (is_authorized_simple_cached id user c).
Proof. unfold is_authorized_simple_cached. destruct (builtin_authorization id); [by intros s|]. apply keeps_bind; [destruct c; [by intros s|apply policy_data_state]|]. intros d. apply is_simple_state. Qed.

Lemma authorized_state id user role : keeps (Tip403.is_authorized_as id user role).
Proof.
  unfold Tip403.is_authorized_as, is_authorized_simple, get_compound_policy_data, compound_load, registry_load. destruct (_ && _); [by intros s|].
  destruct (builtin_authorization id); [by intros s|]. apply keeps_bind; [apply policy_data_state|]. intros d. destruct (is_compound d); [|apply is_simple_state].
  apply keeps_bind; [keep|]. intros c. destruct role; try apply simple_cached_state. apply keeps_bind; [apply simple_cached_state|]. intros b. destruct (_ && _); [by intros s|].
  apply keeps_bind; [apply simple_cached_state|]. by intros ? s.
Qed.

Lemma token_policy_state token : keeps (token_transfer_policy_id token).
Proof.
  unfold token_transfer_policy_id, registered_token_transfer_policy_id, registry_load, legacy_transfer_policy_id. apply keeps_bind; [destruct is_t9; keep|]. intros [id|]; [by intros s|apply h_read_keeps].
Qed.

Lemma transfer_authorized_state token from to : keeps (token_transfer_authorized token from to).
Proof.
  unfold token_transfer_authorized, is_transfer_authorized. apply keeps_bind; [|intros []; by intros s]. apply keeps_bind; [apply token_policy_state|]. intros id.
  apply keeps_bind; [apply authorized_state|]. intros b. destruct (_ && _); [by intros s|]. apply keeps_bind; [apply authorized_state|]. by intros ? s.
Qed.

Lemma not_paused_state token : keeps (token_not_paused token).
Proof. unfold token_not_paused, paused. apply keeps_bind; [apply read_bool_state|]. intros []; by intros s. Qed.

Lemma is_tip20_state token : keeps (factory_is_tip20 token).
Proof. unfold factory_is_tip20. destruct (negb _); by intros s. Qed.

Lemma usd_state token : keeps (token_validate_usd token).
Proof.
  unfold token_validate_usd, token_from_address, currency. apply keeps_bind; [destruct (has_tip20_prefix token); by intros s|]. intros _. apply keeps_bind; [apply string_load_state|]. intros u. keep.
Qed.

Lemma recipient_resolve_state a : keeps (recipient_resolve a).
Proof.
  unfold recipient_resolve, resolve_recipient, get_master. apply keeps_bind; [|by intros ? s]. destruct (negb is_t3); [by intros s|]. destruct (decode_virtual a) as [[]|]; [|by intros s].
  apply keeps_bind; [by intros s|]. intros []; by intros s.
Qed.

Lemma check_receive_state token sender receiver : keeps (check_receive_policy token sender receiver).
Proof.
  unfold check_receive_policy, receive_policy_config, receive_load_config, recovery_decode, receive_policy_recovery, registry_load. apply keeps_bind; [keep|]. intros p. destruct (negb _); [by intros s|].
  apply keeps_bind; [apply simple_cached_state|]. intros b. destruct (negb b); [keep|]. apply keeps_bind; [apply simple_cached_state|]. intros b'. destruct (negb b'); keep.
Qed.

(** ** Transfers *)

(** What a transfer of a token may write. *)
Definition reaches (token : Address) : Cells :=
  fun a _ => a = token \/ a = RECEIVE_POLICY_GUARD_ADDRESS \/ a = ACCOUNT_KEYCHAIN_ADDRESS.

Section token.
Context (token : Address) (Htok : has_tip20_prefix token = true).

Lemma transfer_reaches from to amount : writes (reaches token) (transfer_to token from to amount).
Proof. eapply writes_mono; [by apply transfer_to_frame|]. intros ? ? ->. by left. Qed.

Lemma allowed_reaches spender from amount :
  writes (reaches token) (match spender with Some spender => consume_allowance token from spender amount | None => authorize_transfer from token amount end).
Proof.
  destruct spender; [eapply writes_mono; [by apply consume_frame|]; intros ? ? [-> _]; by left|].
  eapply writes_mono; [apply authorize_transfer_frame|]. intros ? ? ->. by right; right.
Qed.

Lemma inbound_reaches from to amount memo : writes (reaches token) (validate_inbound_or_block token from to amount None memo).
Proof.
  unfold validate_inbound_or_block. frames; [apply transfer_reaches|]. eapply writes_mono; [apply store_blocked_frame|]. intros ? ? ->. by right; left.
Qed.

Lemma transfers_reach spender from to amount memo :
  writes (reaches token) (r ← validate_transfer token spender from to amount memo; finish_transfer token from r amount (mret tt)).
Proof.
  unfold validate_transfer. apply writes_bind; [|intros [r|]; cbn [finish_transfer]; frames; apply transfer_reaches].
  apply writes_bind; [frames|]. intros r. apply writes_bind; [frames|]. intros _. apply writes_bind; [frames|]. intros _. apply writes_bind; [frames|]. intros _.
  apply writes_bind; [apply allowed_reaches|]. intros _. apply writes_bind; [apply inbound_reaches|]. intros. frames.
Qed.

Lemma allowed_still spender from amount s : returns (match spender with Some spender => consume_allowance token from spender amount | None => authorize_transfer from token amount end) s
  (fun _ s' => still s s' /\ frame (reaches token) s s').
Proof.
  apply returns_and; [|by eapply returns_writes; [apply allowed_reaches|]]. destruct spender.
  - eapply returns_writes; [by apply consume_frame|]. intros _ s'. by apply side_still.
  - eapply returns_writes; [apply authorize_transfer_frame|]. intros _ s' Hf. apply quiet_still. eapply frame_mono; [|done]. intros ? sl ->.
    apply quiet_system; [unfold system_addresses; set_solver|apply keychain_not_guard].
Qed.

(** The tokens go to whom the recipient resolves to, or to the guard when the
    receiver's policy does not accept them. *)
Lemma transfers_move spender from to amount memo s : 0 <= amount ->
  returns (r ← validate_transfer token spender from to amount memo; finish_transfer token from r amount (mret tt)) s (fun _ s' => exists r target,
    recipient_resolve to s = (Ok r, s) /\ moves token from amount target amount s s' /\
    (target = r_target r \/ target = RECEIVE_POLICY_GUARD_ADDRESS /\ exists s1 x, frame (reaches token) s s1 /\ check_receive_policy token from (r_target r) s1 = (Ok (Some x), s1))).
Proof.
  intros Ha. unfold validate_transfer. apply returns_bind, returns_bind. intros r s0 Hr. pose proof (recipient_resolve_state to s) as Hk. rewrite Hr in Hk. cbn in Hk. subst s0.
  apply returns_bind. intros [] s0 Hp. pose proof (not_paused_state token s) as Hk. rewrite Hp in Hk. cbn in Hk. subst s0. clear Hp.
  unfold recipient_validate. destruct (decide (r_target r = 0 \/ _)) as [|Hd]; [by intros ? ? ?|]. apply returns_bind, returns_ret.
  apply returns_bind. intros [] s0 Hp. pose proof (transfer_authorized_state token from (r_target r) s) as Hk. rewrite Hp in Hk. cbn in Hk. subst s0. clear Hp.
  apply returns_bind. eapply returns_mono; [apply allowed_still|]. intros [] s1 [Hst Hf]. apply returns_bind.
  assert (forall s2, still s s2 -> returns (finish_transfer token from (Some r) amount (mret tt)) s2 (fun _ s' => exists r' target,
    recipient_resolve to s = (Ok r', s) /\ moves token from amount target amount s s' /\
    (target = r_target r' \/ target = RECEIVE_POLICY_GUARD_ADDRESS /\ exists s3 x, frame (reaches token) s s3 /\ check_receive_policy token from (r_target r') s3 = (Ok (Some x), s3)))) as Hfin.
  { intros s2 Hs2. cbn [finish_transfer]. apply returns_bind. eapply returns_mono; [by apply transfer_to_returns|]. intros [] s3 (_ & Hm & _). rewrite decide_False in Hm by tauto.
    apply returns_bind, returns_ret. eapply returns_writes; [apply (hop_frame token nowhere)|]. intros _ s4 K4%nowhere_still. exists r, (r_target r). split_and!; [done| |by left].
    eapply still_moves; [done|]. by eapply moves_still. }
  unfold validate_inbound_or_block. destruct is_t6; cbn [negb]; [|apply returns_ret, returns_ret, Hfin, Hst]. case_decide; [apply returns_throw|].
  apply returns_bind. intros c s2 Hc. pose proof (check_receive_state token from (r_target r) s1) as Hk. rewrite Hc in Hk. cbn in Hk. subst s2.
  destruct c as [[reason auth]|]; [|apply returns_ret, returns_ret, Hfin, Hst]. cbv zeta. apply returns_bind, returns_bind.
  eapply returns_mono; [by apply transfer_to_returns|]. intros [] s2 (_ & Hm & _). cbn [r_target recipient_direct] in Hm. rewrite decide_False in Hm by apply guard_not_zero.
  apply returns_ret, returns_bind. eapply returns_writes; [apply store_blocked_frame|]. intros _ s3 Hg%guard_ledgers. apply returns_ret, returns_ret, returns_ret.
  exists r, RECEIVE_POLICY_GUARD_ADDRESS. split_and!; [done| |right; split; [done|by exists s1, (reason, auth)]].
  intros t who Ht. rewrite (proj1 (Hg t Ht)). rewrite Hm by done. by rewrite (proj1 (st_ledgers _ _ Hst t Ht)).
Qed.
End token.

(** ** What the exchange relies on *)

Section laws.
Context (token : Address) (Htok : has_tip20_prefix token = true).

Lemma not_reached a : a = STABLECOIN_DEX_ADDRESS \/ a = TIP403_REGISTRY_ADDRESS \/ a = ADDRESS_REGISTRY_ADDRESS -> forall sl, ~ reaches token a sl.
Proof.
  intros Ha sl Hr. assert (a ∈ system_addresses) as Hs by (unfold system_addresses; destruct Ha as [->|[->| ->]]; set_solver).
  destruct Hr as [->|Hr]; [by rewrite (system_member token Hs) in Htok|].
  destruct Ha as [->|[->| ->]], Hr as [Hr|Hr]; revert Hr; [by apply (distinct_at 0 4)|by apply (distinct_at 0 8)|by apply (distinct_at 2 4)|by apply (distinct_at 2 8)|by apply (distinct_at 3 4)|by apply (distinct_at 3 8)].
Qed.

Lemma reaches_apart s s' : frame (reaches token) s s' -> apart s s'.
Proof.
  intros Hf. destruct (f_credits _ _ _ Hf STABLECOIN_DEX_ADDRESS (not_reached _ (or_introl eq_refl))) as [Hc Ht]. split_and!; [apply (f_flags _ _ _ Hf)| |exact Hc|].
  - intros sl. apply (f_words _ _ _ Hf); [apply dex_not_credits|by apply not_reached; left].
  - unfold bank_state. by rewrite Ht.
Qed.

Lemma reaches_reachable s s' : frame (reaches token) s s' -> dex_reachable s -> dex_reachable s'.
Proof.
  intros Hf [Hm Hp]. split; [intros id|]; rewrite (f_words _ _ _ Hf); try done.
  - apply masters_not_credits.
  - apply not_reached. auto.
  - apply registry_not_credits.
  - apply not_reached. auto.
Qed.

(** A recipient that is not the exchange is not resolved to it, and the exchange
    is resolved to itself. *)
Lemma resolve_dex to r s : dex_reachable s -> recipient_resolve to s = (Ok r, s) -> r_target r = STABLECOIN_DEX_ADDRESS <-> to = STABLECOIN_DEX_ADDRESS.
Proof.
  intros [Hm _]. unfold recipient_resolve, resolve_recipient, mbind, M_bind.
  assert (forall target, mret (M := M) (if decide (target = to) then recipient_direct to else mkRecipient target (Some to)) s = (Ok r, s) -> r_target r = target) as Ht.
  { intros target [= <-]. by case_decide. }
  destruct is_t3; cbn [negb]; [|intros Hr; apply Ht in Hr; by rewrite Hr]. unfold decode_virtual. destruct (is_virtual to) eqn:Hv; [|intros Hr; apply Ht in Hr; by rewrite Hr].
  unfold get_master, mbind, M_bind, sload. cbn beta iota. case_decide; [done|]. intros Hr. apply Ht in Hr. rewrite Hr. split; [intros He; by apply Hm in He|].
  intros ->. destruct dex_plain as (_ & _ & Hp). congruence.
Qed.

(** Nothing sent to the exchange is blocked. *)
Lemma dex_accepts from x s : dex_reachable s -> check_receive_policy token from STABLECOIN_DEX_ADDRESS s <> (Ok (Some x), s).
Proof.
  intros [_ Hp]. unfold check_receive_policy, receive_policy_config, receive_load_config, registry_load, mbind, M_bind, sload. cbn beta iota. unfold recovery_decode.
  repeat (destruct (decide (be_slice _ 12 13 = _)); [cbn [mret M_ret rp_has]; rewrite bool_decide_false by (rewrite Hp; lia); done|]). done.
Qed.

Lemma transfers_end spender from to amount s : 0 <= amount -> dex_reachable s -> (from = STABLECOIN_DEX_ADDRESS <-> to <> STABLECOIN_DEX_ADDRESS) ->
  ends (r ← validate_transfer token spender from to amount 0; finish_transfer token from r amount (mret tt)) s (fun _ s' => apart s s' /\ dex_reachable s' /\
    forall t, holding (TIP20Spec := tip20_holdings) s' t = holding (TIP20Spec := tip20_holdings) s t +
      if decide (t = token) then (if decide (to = STABLECOIN_DEX_ADDRESS) then amount else - amount) else 0).
Proof.
  intros Ha Hd Hft. pose proof (transfers_reach token Htok spender from to amount 0 s) as [Hf Hp]. pose proof (transfers_move token Htok spender from to amount 0 s Ha) as Hm.
  unfold ends. set (m := validate_transfer token spender from to amount 0 ≫= _) in *. unfold returns in Hm. destruct (m s) as [[a|e|] s']; cbn [fst snd] in *; [|apply (f_flags _ _ _ Hf)|done].
  split; [apply (f_flags _ _ _ Hf)|]. split_and!; [by apply reaches_apart|by eapply reaches_reachable|]. destruct (Hm a s' eq_refl) as (r & target & Hr & Hmv & Htg).
  assert (target = STABLECOIN_DEX_ADDRESS <-> to = STABLECOIN_DEX_ADDRESS) as Heq.
  { pose proof (resolve_dex to r s Hd Hr) as Hrd. destruct Htg as [->|[-> (s1 & x & Hf1 & Hc)]]; [done|]. split; [intros He; by destruct dex_not_guard|].
    intros He. apply Hrd in He. rewrite He in Hc. by apply (dex_accepts from x s1) in Hc; [|by eapply reaches_reachable]. }
  intros t. cbn [holding tip20_holdings]. destruct (has_tip20_prefix t) eqn:Ht; [|rewrite decide_False by congruence; lia]. rewrite Hmv by done.
  destruct (decide (t = token)) as [->|]; [|rewrite !decide_False by tauto; lia]. destruct (decide (to = STABLECOIN_DEX_ADDRESS)) as [He|Hne].
  - rewrite decide_False by (intros [_ ?]; naive_solver). rewrite decide_True by naive_solver. lia.
  - rewrite decide_True by naive_solver. rewrite decide_False by (intros [_ ?]; naive_solver). lia.
Qed.
End laws.

Lemma tip20_laws : TIP20Ok (H1 := tip20_tokens) (H2 := tip20_holdings).
Proof.
  split; cbn [is_tip20_prefix quote_token tip20_transfer tip20_transfer_from system_transfer_from ensure_transfer_authorized check_not_paused transfer_policy_id
    Dex.is_authorized_as is_tip20 validate_usd_currency tip20_tokens].
  - intros token. apply view_intro; [apply h_read_keeps|frames].
  - intros. apply view_intro; [apply transfer_authorized_state|frames].
  - intros. apply view_intro; [apply not_paused_state|frames].
  - intros. apply view_intro; [apply token_policy_state|frames].
  - intros. apply view_intro; [apply authorized_state|frames].
  - intros. apply view_intro; [apply is_tip20_state|frames].
  - intros. apply view_intro; [apply usd_state|frames].
  - intros token s s'. unfold factory_is_tip20. destruct (has_tip20_prefix token); done.
  - intros token s s'. unfold token_validate_usd, token_from_address. destruct (has_tip20_prefix token); done.
  - intros token Hp. split; [by apply prefix_range|by apply prefix_not_zero].
  - intros s s' (_ & Hs & _) [Hm Hp]. split; [intros id|]; rewrite Hs; try done.
    + by apply (distinct_at 3 0).
    + by apply (distinct_at 2 0).
  - intros s s' token (_ & Hs & _). cbn [holding tip20_holdings]. destruct (has_tip20_prefix token) eqn:Hp; [|done]. apply Hs.
    + apply token_not_system; [done|]. unfold system_addresses. set_solver.
    + done.
  - intros token to amount s Hp Hto Ha Hok. eapply ends_mono; [|apply (transfers_end token Hp None STABLECOIN_DEX_ADDRESS to amount s Ha Hok); tauto].
    intros _ s' (Hap & Hok' & Hh). split_and!; [done|done|]. intros t. rewrite Hh. repeat case_decide; try lia; done.
  - intros token from amount s Hp Hf Ha Hok. eapply ends_mono; [|apply (transfers_end token Hp (Some STABLECOIN_DEX_ADDRESS) from STABLECOIN_DEX_ADDRESS amount s Ha Hok); tauto].
    intros _ s' (Hap & Hok' & Hh). split_and!; [done|done|]. intros t. rewrite Hh. rewrite (decide_True (P := STABLECOIN_DEX_ADDRESS = _)) by done. done.
  - intros token from amount s Hp Hf Ha Hok. unfold token_system_transfer_from. destruct (_ && _); [done|].
    eapply ends_mono; [|apply (transfers_end token Hp None from STABLECOIN_DEX_ADDRESS amount s Ha Hok); tauto].
    intros _ s' (Hap & Hok' & Hh). split_and!; [done|done|]. intros t. rewrite Hh. rewrite (decide_True (P := STABLECOIN_DEX_ADDRESS = _)) by done. done.
Qed.
End instance.
