(* ===== verification/Tip20Theorems.v ===== *)
(** * TIP-20 tokens and access keys: theorems

    What holders, issuers and users of access keys rely on, and that the tokens
    are what the exchange asks for; with examples on which the theorems apply. *)

From stdpp Require Import prelude gmap list strings.
From S2P Require Import Prelude DexPrice TempoEvm TempoBytes DexTypes DexBook DexCredits Dex DexHolds DexPlace DexRoute DexHistory.
From S2P Require Import Tip403 Keychain Tip20 Tip20Facts Tip20Ledger DexCall Tip20Call Tip20Sound Tip20Dex.

#[local] Open Scope Z_scope.

(** ** Spending limits *)

Section limits.
Context `{TempoSpec} `{TempoAddresses} `{!TokenAddresses} `{!TokenAddressesOk} `{Keccak} `{BlockEnv}.

Lemma t3_t2 : is_t3 = true -> is_t2 = true.
Proof. by apply since_mono. Qed.

(** A write succeeds, or the accounting of storage credits fails. *)
Definition written (a : Address) (sl : Slot) (v : U256) (s : Evm) (r : Res TempoPrecompileError unit * Evm) : Prop :=
  match r with
  | (Ok _, s') => frame (fun a' sl' => a' = a /\ sl' = sl) s s' /\ word_at (evm_storage s') a sl = v
  | (Err e, _) => is_system_error e = true
  | (Panic, _) => False
  end.

Lemma account_write_error owner present new s e s' : account_storage_write owner present new s = (Err e, s') -> is_system_error e = true.
Proof.
  unfold account_storage_write. destruct (decide (_ \/ _)); [done|]. unfold mbind, M_bind, sload. cbn beta iota. destruct (decide (u64_max < _)); [by intros [= <- _]|]. destruct (decide (new = 0)).
  - unfold get_flag. cbn beta iota. by destruct (evm_minting s).
  - unfold tload. cbn beta iota. destruct (transient_of_word _) as [t|]; [|by intros [= <- _]]. destruct (ts_mode t); [done|done|]. destruct (_ && _); [|done]. by destruct (bool_decide (ts_budget t <> u64_max)).
Qed.

Lemma sstore_written a sl v s : a <> STORAGE_CREDITS_ADDRESS -> written a sl v s (sstore a sl v s).
Proof.
  intros Ha. pose proof (sstore_frame a sl v s Ha) as (Hf & Hp & Hw). unfold written. destruct (sstore a sl v s) as [[u|e|] s'] eqn:Hr; cbn in *; [done| |done].
  revert Hr. unfold sstore, mbind, M_bind, sload, sstore_raw, get_flag. cbn beta iota. destruct (evm_credits _); cbn [when]; [apply account_write_error|done].
Qed.

Lemma keychain_same sl sl' s s' : frame (fun a x => a = ACCOUNT_KEYCHAIN_ADDRESS /\ x = sl) s s' -> sl' <> sl ->
  word_at (evm_storage s') ACCOUNT_KEYCHAIN_ADDRESS sl' = word_at (evm_storage s) ACCOUNT_KEYCHAIN_ADDRESS sl'.
Proof. intros Hf Hne. apply (f_words _ _ _ Hf); [apply keychain_not_credits|]. by intros [_ ?]. Qed.

Definition kword (s : Evm) (sl : Slot) : U256 := word_at (evm_storage s) ACCOUNT_KEYCHAIN_ADDRESS sl.

(** ** What the words of a limit say *)

Lemma extract_run p w o s : p = PU64 \/ p = PU128 -> in_word o (prim_bytes p) -> extract_from_word p w o s = (Ok (get_field w o (prim_bytes p)), s).
Proof.
  intros Hp Hw. pose proof (get_range w o (prim_bytes p) Hw) as Hr. pose proof Hw as (_ & _ & Hle). unfold extract_from_word. rewrite decide_False by lia.
  destruct Hp as [-> | ->]; unfold from_word; rewrite decide_True; try done; cbn in *; lia.
Qed.

Definition limit_of (w0 w1 : U256) : SpendingLimitState := mkLimit w0 (get_field w1 0 16) (get_field w1 16 8) (get_field w1 24 8).

Lemma limit_read_run key token s : limit_read key token s = (Ok (limit_of (kword s (limit_slot key token)) (kword s (slot_add (limit_slot key token) 1))), s).
Proof.
  unfold limit_read, mbind, M_bind, sload. cbn beta iota. rewrite (extract_run PU128 _ 0) by (auto || (unfold in_word; cbn; lia)). cbn beta iota.
  rewrite (extract_run PU64 _ 16) by (auto || (unfold in_word; cbn; lia)). cbn beta iota. rewrite (extract_run PU64 _ 24) by (auto || (unfold in_word; cbn; lia)). done.
Qed.

(** What may still be spent, by the stored limit. *)
Definition left_over (l : SpendingLimitState) : U256 :=
  if negb is_t3 then sl_remaining l
  else if decide (sl_period l = 0) then sl_remaining l
  else if decide (now < sl_period_end l) then decode_remaining (sl_remaining l)
  else sl_max l.

(** A key that can spend. *)
Definition spends (account key : Address) (s : Evm) : Prop := exists k, load_active_key account key now s = (Ok k, s) /\ k_enforce_limits k = true.

Definition key_of (w : U256) : AuthorizedKey :=
  mkKey (be_slice w 31 32) (be_slice w 23 31) (bool_decide (be_slice w 22 23 <> 0)) (bool_decide (be_slice w 21 22 <> 0)) (bool_decide (be_slice w 20 21 <> 0)).

Lemma key_load_of account key s : key_load account key s = (Ok (key_of (kword s (key_slot account key))), s).
Proof. reflexivity. Qed.

Lemma key_load_run account key s : exists k, key_load account key s = (Ok k, s).
Proof. eexists. apply key_load_of. Qed.

Lemma spends_key account key s k : load_active_key account key now s = (Ok k, s) ->
  key_load account key s = (Ok k, s) /\ k_is_revoked k = false /\ k_expiry k <> 0 /\ now < k_expiry k.
Proof.
  destruct (key_load_run account key s) as [k' Hk]. unfold load_active_key. rewrite (bind_ok _ _ _ _ _ Hk).
  destruct (k_is_revoked k') eqn:Hr; [intros Hx; discriminate Hx|]. destruct (decide (k_expiry k' = 0)) as [|Hne]; [intros Hx; discriminate Hx|].
  destruct (decide (k_expiry k' <= now)) as [|Hlt]; [intros Hx; discriminate Hx|]. intros Hx. injection Hx as ->.
  split_and!; [exact Hk|exact Hr|exact Hne|apply Z.nle_gt, Hlt].
Qed.

Lemma remaining_run account key token s : key <> 0 -> spends account key s ->
  get_remaining_limit account key token s =
    (Ok (left_over (limit_of (kword s (limit_slot (spending_limit_key account key) token)) (kword s (slot_add (limit_slot (spending_limit_key account key) token) 1)))), s).
Proof.
  intros Hk (k & Hl & _). destruct (spends_key _ _ _ _ Hl) as (Hload & Hrev & Hexp & Hnow). unfold get_remaining_limit, left_over.
  destruct is_t2 eqn:H2t; cbn [negb]; [|destruct is_t3 eqn:H3t; [by rewrite (t3_t2 H3t) in H2t|reflexivity]].
  unfold mbind, M_bind, effective_limit_state. rewrite bool_decide_false by done. cbn [andb]. unfold mbind, M_bind. rewrite Hload.
  rewrite decide_False by (rewrite Hrev; naive_solver). rewrite (bool_decide_false (k_expiry k <= now)) by lia. rewrite andb_false_r.
  change (h_read PU256 (limit_remaining (spending_limit_key account key) token) s) with (@Ok TempoPrecompileError _ (kword s (limit_slot (spending_limit_key account key) token)), s). cbv beta iota zeta.
  destruct is_t3; cbn [negb]; [|done].
  assert (forall o p, p = PU64 \/ p = PU128 -> in_word o (prim_bytes p) -> h_read p (limit_field (spending_limit_key account key) token o) s =
    (Ok (get_field (kword s (slot_add (limit_slot (spending_limit_key account key) token) 1)) o (prim_bytes p)), s)) as Hf by (intros o p Hp Hw; by apply extract_run).
  unfold limit_period, limit_period_end, limit_max. rewrite (Hf 16 PU64) by (auto || (unfold in_word; cbn; lia)). cbn [prim_bytes]. cbv beta iota. cbn [limit_of sl_period sl_period_end sl_remaining sl_max].
  destruct (decide (get_field _ 16 8 = 0)); [done|]. rewrite (Hf 24 PU64) by (auto || (unfold in_word; cbn; lia)). cbn [prim_bytes]. cbv beta iota. destruct (decide (now < _)); [done|].
  rewrite (Hf 0 PU128) by (auto || (unfold in_word; cbn; lia)). done.
Qed.

(** ** Writing a limit *)

(** What a run does to the words of the keychain, unless the accounting fails. *)
Definition settles {A} (m : M A) (s : Evm) (P : Evm -> Prop) : Prop :=
  match m s with
  | (Ok _, s') => P s'
  | (Err e, _) => is_system_error e = true
  | (Panic, _) => False
  end.

Lemma settles_bind {A B} (m : M A) (k : A -> M B) s P : settles m s (fun s' => forall a, m s = (Ok a, s') -> settles (k a) s' P) -> settles (m ≫= k) s P.
Proof. unfold settles, mbind, M_bind. destruct (m s) as [[a|e|] s']; [|done|done]. intros Hk. by apply Hk. Qed.

Lemma settles_store sl v s (P : Evm -> Prop) :
  (forall s', kword s' sl = v -> (forall sl', sl' <> sl -> kword s' sl' = kword s sl') -> P s') -> settles (sstore ACCOUNT_KEYCHAIN_ADDRESS sl v) s P.
Proof.
  intros HP. pose proof (sstore_written ACCOUNT_KEYCHAIN_ADDRESS sl v s keychain_not_credits) as Hw. unfold written in Hw. unfold settles.
  destruct (sstore _ sl v s) as [[u|e|] s']; [|done|done]. destruct Hw as [Hf Hv]. apply HP; [exact Hv|]. intros sl' Hne. by apply (keychain_same sl).
Qed.

Lemma settles_run {A} (m : M A) (s s' : Evm) a (P : Evm -> Prop) : m s = (Ok a, s') -> P s' -> settles m s P.
Proof. intros Hr HP. unfold settles. by rewrite Hr. Qed.

Definition limit_ok (l : SpendingLimitState) : Prop := 0 <= sl_max l < 2 ^ 128 /\ 0 <= sl_period l < 2 ^ 64 /\ 0 <= sl_period_end l < 2 ^ 64.

Definition pack_limit (w : U256) (l : SpendingLimitState) : U256 :=
  set_field (set_field (set_field w 0 16 (sl_max l)) 16 8 (sl_period l)) 24 8 (sl_period_end l).

Lemma pack_limit_fields w l : limit_ok l -> limit_of (sl_remaining l) (pack_limit w l) = l.
Proof.
  intros (Hm & Hp & He). destruct l as [r m p e]. unfold limit_of, pack_limit. cbn [sl_remaining sl_max sl_period sl_period_end] in *.
  f_equal; repeat (rewrite get_set_other by (unfold in_word; lia)); apply get_set_same; try (unfold in_word; lia); change (16 * 8) with 128; change (8 * 8) with 64; lia.
Qed.

Lemma limit_write_settles key token l s (P : Evm -> Prop) : limit_ok l ->
  (forall s', kword s' (limit_slot key token) = sl_remaining l -> limit_of (kword s' (limit_slot key token)) (kword s' (slot_add (limit_slot key token) 1)) = l ->
     (forall sl, sl <> limit_slot key token -> sl <> slot_add (limit_slot key token) 1 -> kword s' sl = kword s sl) -> P s') ->
  settles (limit_write key token l) s P.
Proof.
  intros Hl HP. unfold limit_write. apply settles_bind. apply (settles_store (limit_slot key token)). intros s1 Hv1 Ho1 [] _.
  apply settles_bind. eapply (settles_run _ s1 s1 (if is_t4 then 0 else kword s1 (slot_add (limit_slot key token) 1))); [by destruct is_t4|]. intros w Hw. clear Hw.
  apply settles_bind. eapply settles_run; [reflexivity|]. intros w1 [= <-]. apply settles_bind. eapply settles_run; [reflexivity|]. intros w2 [= <-].
  apply settles_bind. eapply settles_run; [reflexivity|]. intros w3 [= <-]. apply settles_store. intros s2 Hv2 Ho2.
  assert (kword s2 (limit_slot key token) = sl_remaining l) as Hr by (rewrite Ho2 by done; exact Hv1). apply HP; [exact Hr| |].
  - rewrite Hr, Hv2. by apply pack_limit_fields.
  - intros sl Hn0 Hn1. rewrite Ho2, Ho1 by done. done.
Qed.

Lemma spends_same account key s s' : kword s' (key_slot account key) = kword s (key_slot account key) -> spends account key s -> spends account key s'.
Proof.
  intros Hw (k & Hl & He). destruct (spends_key _ _ _ _ Hl) as (Hload & Hrev & Hexp & Hnow). exists k. split; [|exact He].
  assert (key_load account key s' = (Ok k, s')) as Hload'.
  { rewrite key_load_of in *. rewrite Hw. assert (key_of (kword s (key_slot account key)) = k) as -> by congruence. reflexivity. }
  unfold load_active_key. rewrite (bind_ok _ _ _ _ _ Hload'), Hrev. rewrite decide_False by exact Hexp. rewrite decide_False by lia. reflexivity.
Qed.

(** ** Spending *)

Lemma next_end_later period period_end : 0 < period -> 0 <= period_end <= now -> now < u64_max -> now < next_period_end period period_end now <= u64_max.
Proof.
  intros Hp He Hn. unfold next_period_end, u64_add, u64_mul, saturating_sub. rewrite Z.max_r by lia. set (d := (now - period_end) / period).
  assert (0 <= d /\ period * d <= now - period_end < period * (d + 1)) as (Hd & Hlo & Hhi).
  { clear Hn. set (x := now - period_end) in *. assert (0 <= x) as Hx by (subst x; lia). subst d. clearbody x. pose proof (Z.div_pos x period Hx Hp) as Hd.
    pose proof (Z.mul_div_le x period Hp). pose proof (Z.mul_succ_div_gt x period Hp). unfold Z.succ in *. split_and!; [exact Hd|lia|lia]. }
  assert (d < u64_max) by nia. rewrite (Z.min_r u64_max (d + 1)) by lia. destruct (Z.min_spec u64_max (period * (d + 1))) as [[? ->]|[? ->]]; lia.
Qed.

Lemma limit_of_ok w0 w1 : limit_ok (limit_of w0 w1).
Proof.
  unfold limit_ok, limit_of. cbn [sl_max sl_period sl_period_end].
  pose proof (get_range w1 0 16 ltac:(unfold in_word; lia)). pose proof (get_range w1 16 8 ltac:(unfold in_word; lia)). pose proof (get_range w1 24 8 ltac:(unfold in_word; lia)).
  change (16 * 8) with 128 in *. change (8 * 8) with 64 in *. done.
Qed.

(** The limit after a spend from T3 on. *)
Definition spent (l : SpendingLimitState) (amount : U256) : SpendingLimitState :=
  if decide (sl_period l = 0) then mkLimit (sl_remaining l - amount) (sl_max l) (sl_period l) (sl_period_end l)
  else
    let rest := left_over l - amount in
    mkLimit (if is_t7 && bool_decide (rest = 0) then ZERO_PERIODIC_REMAINING_SENTINEL else rest) (sl_max l) (sl_period l)
      (if decide (sl_period_end l <= now) then compute_next_period_end l now else sl_period_end l).

(** At T7 no limit leaves the number that stands for zero. *)
Lemma left_small l : is_t3 = true -> is_t7 = true -> limit_ok l -> sl_period l <> 0 -> is_u256 (sl_remaining l) -> left_over l < u256_max.
Proof.
  intros H3t H7t (Hm & _) Hper [_ Hr]. unfold left_over, decode_remaining, ZERO_PERIODIC_REMAINING_SENTINEL. rewrite H3t, H7t. cbn [negb andb]. rewrite decide_False by done.
  destruct (decide (now < _)); [|unfold u256_max in *; lia]. destruct (bool_decide_reflect (sl_remaining l = u256_max)); unfold u256_max in *; lia.
Qed.

Lemma spent_left l amount : is_t3 = true -> limit_ok l -> is_u256 (sl_remaining l) -> 0 <= amount <= left_over l -> 0 <= now < u64_max ->
  limit_ok (spent l amount) /\ left_over (spent l amount) = left_over l - amount.
Proof.
  intros H3t Hl Hr Ha Hn. pose proof Hl as (Hm & Hp & He). unfold spent. destruct (decide (sl_period l = 0)) as [H0p|Hper].
  { split; [done|]. unfold left_over. rewrite H3t. cbn [negb sl_period sl_remaining]. by rewrite !decide_True by done. }
  pose proof (left_small l H3t) as Hlt. set (rest := left_over l - amount) in *.
  assert (now < (if decide (sl_period_end l <= now) then compute_next_period_end l now else sl_period_end l) <= u64_max) as Hend.
  { destruct (decide (sl_period_end l <= now)); [|unfold u64_max; lia]. apply next_end_later; lia. }
  split; [unfold limit_ok; cbn [sl_max sl_period sl_period_end]; unfold u64_max in *; lia|].
  unfold left_over at 1. rewrite H3t. cbn [negb sl_max sl_period sl_period_end sl_remaining]. rewrite (decide_False (P := sl_period l = 0)) by done. rewrite decide_True by lia.
  unfold decode_remaining, ZERO_PERIODIC_REMAINING_SENTINEL. destruct is_t7; cbn [andb]; [|done]. specialize (Hlt eq_refl Hl Hper Hr).
  destruct (bool_decide_reflect (rest = 0)) as [->|]; [by rewrite bool_decide_true|]. rewrite bool_decide_false; [done|]. subst rest. lia.
Qed.

Section spend.
Context (account key token : Address) (amount : U256) (s : Evm).
Context (Hkey : key <> 0) (Hspends : spends account key s).

Abbreviation slot0 := (limit_slot (spending_limit_key account key) token).
Abbreviation slot1 := (slot_add slot0 1).
Abbreviation stored s := (limit_of (kword s slot0) (kword s slot1)).

Lemma verify_refuses : left_over (stored s) < amount -> verify_and_update_spending account key token amount s = (Err err_spending_limit_exceeded, s).
Proof.
  intros Hlt. destruct Hspends as (k & Hk & Henf). unfold verify_and_update_spending. rewrite decide_False by exact Hkey. rewrite (bind_ok _ _ _ _ _ Hk), Henf. cbn [negb]. unfold left_over in Hlt.
  destruct is_t3; cbn [negb] in *.
  - rewrite (bind_ok _ _ _ _ _ (limit_read_run _ _ _)). cbv zeta. destruct (decide (sl_period (stored s) = 0)) as [Hp|Hp].
    + rewrite (bool_decide_false (sl_period _ <> 0)) by tauto. cbn [andb]. rewrite decide_True by exact Hlt. reflexivity.
    + rewrite (bool_decide_true (sl_period _ <> 0)) by exact Hp. cbn [andb]. destruct (decide (now < _)).
      * rewrite bool_decide_false by lia. rewrite decide_True by exact Hlt. reflexivity.
      * rewrite bool_decide_true by lia. rewrite decide_True by exact Hlt. reflexivity.
  - rewrite (bind_ok _ _ s (kword s slot0) s) by reflexivity. rewrite decide_True by exact Hlt. reflexivity.
Qed.

(** The spend is taken from the limit, and the key stays as it is. *)
Lemma verify_settles : is_u256 (kword s slot0) -> 0 <= amount <= left_over (stored s) -> 0 <= now < u64_max ->
  settles (verify_and_update_spending account key token amount) s (fun s' =>
    kword s' (key_slot account key) = kword s (key_slot account key) /\ left_over (stored s') = left_over (stored s) - amount).
Proof.
  intros Hw Ha Hn. pose proof (limit_of_ok (kword s slot0) (kword s slot1)) as Hl. destruct Hspends as (k & Hk & Henf).
  unfold verify_and_update_spending. rewrite decide_False by exact Hkey. apply settles_bind. eapply settles_run; [exact Hk|]. intros k' Hk'. assert (k' = k) as -> by congruence. rewrite Henf. cbn [negb].
  destruct is_t3 eqn:H3t; cbn [negb].
  - apply settles_bind. eapply settles_run; [apply limit_read_run|]. intros l Hx. assert (l = stored s) as -> by (rewrite limit_read_run in Hx; congruence). clear Hx. cbv zeta.
    destruct (spent_left (stored s) amount H3t Hl Hw Ha Hn) as [Hok Hleft]. unfold spent in Hok, Hleft.
    destruct (decide (sl_period (stored s) = 0)) as [Hp|Hp].
    + rewrite (bool_decide_false (sl_period _ <> 0)) by tauto. cbn [andb]. assert (left_over (stored s) = kword s slot0) as Hlo.
      { unfold left_over. rewrite H3t. cbn [negb]. rewrite decide_True by exact Hp. reflexivity. }
      rewrite Hlo in Ha, Hleft. rewrite Hlo. rewrite decide_False by (cbn [limit_of sl_remaining]; lia). apply settles_bind, (settles_store slot0). intros s1 Hv Ho [] _.
      apply (settles_run _ s1 (set_logs s1 (evm_logs s1 ++ [(ACCOUNT_KEYCHAIN_ADDRESS, mkLog "AccessKeySpend" [Word account; Word key; Word token; Word amount; Word (sl_remaining (stored s) - amount)])])) tt); [reflexivity|].
      change (kword s1 (key_slot account key) = kword s (key_slot account key) /\ left_over (limit_of (kword s1 slot0) (kword s1 slot1)) = kword s slot0 - amount).
      rewrite Hv, !Ho by done. split; [reflexivity|]. exact Hleft.
    + rewrite (bool_decide_true (sl_period _ <> 0)) by exact Hp. cbn [andb].
      assert ((if bool_decide (sl_period_end (stored s) <= now) then sl_max (stored s) else decode_remaining (sl_remaining (stored s))) = left_over (stored s)) as Hlo.
      { unfold left_over. rewrite H3t. cbn [negb]. rewrite decide_False by exact Hp. destruct (decide (now < sl_period_end (stored s))); [rewrite bool_decide_false by lia|rewrite bool_decide_true by lia]; reflexivity. }
      rewrite Hlo. rewrite decide_False by lia. apply settles_bind, limit_write_settles.
      { destruct (bool_decide_reflect (sl_period_end (stored s) <= now)); [rewrite decide_True in Hok by assumption|rewrite decide_False in Hok by assumption]; exact Hok. }
      intros s1 Hv Hst Ho [] _. eapply settles_run; [reflexivity|].
      match goal with |- kword ?s2 _ = _ /\ _ => change (kword s1 (key_slot account key) = kword s (key_slot account key) /\ left_over (limit_of (kword s1 slot0) (kword s1 slot1)) = left_over (stored s) - amount) end.
      rewrite Ho by done. split; [reflexivity|]. rewrite Hst.
      destruct (bool_decide_reflect (sl_period_end (stored s) <= now)); [rewrite decide_True in Hleft by assumption|rewrite decide_False in Hleft by assumption]; exact Hleft.
  - unfold left_over in *. rewrite H3t in *. cbn [negb] in *. apply settles_bind. eapply (settles_run _ s s (kword s slot0)); [reflexivity|]. intros w Hx. assert (w = kword s slot0) as -> by (by injection Hx).
    rewrite decide_False by (cbn [limit_of sl_remaining] in Ha; lia). apply (settles_store slot0). intros s1 Hv Ho. rewrite Ho by done. split; [reflexivity|]. exact Hv.
Qed.
End spend.

(** C98. A key can spend what its remaining limit says: the limit that is reported
    is taken down by what is spent, an amount above it is refused with nothing
    changed, and nothing else goes wrong but the accounting of storage. A limit by
    period starts anew when its period has ended. *)
Theorem spend_as_reported account key token amount s : key <> 0 -> spends account key s -> is_u256 (kword s (limit_slot (spending_limit_key account key) token)) ->
  0 <= amount -> 0 <= now < u64_max ->
  exists r, get_remaining_limit account key token s = (Ok r, s) /\
    match verify_and_update_spending account key token amount s with
    | (Ok _, s') => amount <= r /\ get_remaining_limit account key token s' = (Ok (r - amount), s')
    | (Err e, s') => if decide (amount <= r) then is_system_error e = true else e = err_spending_limit_exceeded /\ s' = s
    | (Panic, _) => False
    end.
Proof.
  intros Hkey Hsp Hw Ha Hn. eexists. split; [by apply remaining_run|].
  match goal with |- context [decide (amount <= ?x)] => destruct (decide (amount <= x)) as [Hle|Hgt] end.
  - pose proof (verify_settles account key token amount s Hkey Hsp Hw ltac:(lia) Hn) as Hset. unfold settles in Hset.
    destruct (verify_and_update_spending account key token amount s) as [[[]|e|] s']; [|exact Hset..]. destruct Hset as [Hk Hl]. split; [exact Hle|].
    rewrite remaining_run; [by rewrite Hl|exact Hkey|by eapply spends_same].
  - rewrite verify_refuses; [done|exact Hkey|exact Hsp|lia].
Qed.
End limits.

Section conservation.
Context `{TempoAddresses} `{!TokenAddresses} `{!TokenAddressesOk} `{Keccak} `{SystemPrecompiles} `{ReceiptAbi}.

(** C99. No token is lost or made up: after any history of calls of tokens, of the
    factory and of the guard, transfers by the system contracts, changes of
    policies and of keys, in blocks of any forks, the balances of a token sum up
    to its supply, the supply is within the cap and the cap within 128 bits, and
    no balance is above the supply. *)
Theorem tokens_conserved s token : token_history s -> has_tip20_prefix token = true ->
  total token (evm_storage s) = supply_of s token /\ supply_of s token <= cap_of s token <= u128_max /\
  forall who, 0 <= bal s token who <= supply_of s token.
Proof.
  intros [Ht Hc Hb _]%history_ok Hp. split_and!; [by apply Ht|by apply Hc|by apply Hc|]. intros who. split; [by apply Hb|].
  rewrite <- Ht by done. apply balance_le_total. intros w. by apply Hb.
Qed.
End conservation.
